(* ===== verification/_CoqProject ===== *)
-Q . S2P
Prelude.v
GoStrings.v
ConfigTypes.v
ConfigValidate.v
ConfigGraph.v
References.v
Expand.v
EnvFile.v
ConfigMerge.v
ConfigLoad.v
ConfigPlan.v
RunnerState.v
Lifecycle.v
Groups.v
Reload.v
Teardown.v
Recovery.v
Logrotate.v
Ipc.v
Session.v
LogQuery.v
Output.v
VerifyRecords.v
Compare.v
Attempt.v
Verdict.v
Budget.v
CheckEnv.v
Attest.v
Attribution.v
Reaping.v
Ownership.v
Probes.v
Readiness.v
Diagnose.v
Histories.v
Stopping.v
Delivery.v
StopClient.v
StopCommand.v
ConfigDiagnose.v
Located.v
Runes.v
Monitor.v
MonitorView.v
GoText.v
Doctor.v
DoctorScan.v
DoctorCheck.v
DoctorSuggest.v
Frames.v
Update.v
