(* ===== verification/Prelude.v ===== *)
(** * proc-compose: a verification library

    proc-compose runs a set of local processes from one YAML file: it starts
    them in dependency order, keeps them alive, lets clients watch and command
    them, stops them in a way it can prove, and verifies a change by running a
    check against the stack and recording what happened.  This library models
    the parts of it that decide something, from the Go source under [src/], and
    proves what makes them correct.  Every definition that models code says
    where the code is ([Source: file:first-last (symbol)]), relative to [src/].

    ** The parts and their files

    Foundations.  [Prelude] holds the results of fallible code, notations and
    shared lemmas; [GoStrings] the functions on byte strings and numbers that
    the program uses ([strings], [strconv], [sort], the fixed regular
    expressions).

    Configuration ([internal/config]).  [ConfigTypes] is the data of config.go
    and the diagnostic codes; [EnvFile] the env_file parser; [ConfigMerge] the
    merge section; [ConfigValidate] the rules of one process; [ConfigGraph]
    selection and cycle detection; [References] the ${ports.x} placeholders as
    the loader sees them; [ConfigLoad] composes all of these into [Load];
    [ConfigPlan] is the startup plan of explain.go; [ConfigDiagnose] the
    diagnosis of config check, over the nodes of the YAML document, with
    [Located].

    Sessions ([internal/session]).  [Session] is the leasing and assignment of
    ports by several owners on one machine, the resolution of a configuration
    and the release of ports to the processes; [Expand] is the expansion of
    placeholders, shown to be a substitution in one pass.

    The runner ([internal/runner]).  [RunnerState] is the state of a process and
    its readiness cycles; [Lifecycle] the wait for dependencies, the run loop
    and the worker; [Reload] the reloading of a configuration; [Groups] the
    registry of process groups, the record in the PID file and the verdict of a
    shutdown; [Teardown] one-shot executions, the teardown phase and the verdict
    the client reads; [Recovery] the recovery of a crashed run's groups, with
    the commands of internal/daemon and cmd/proc-compose that act on it;
    [Attest] who answered a probe, from the kernel's socket tables and the
    registry of live sessions, with [Attribution] for what is proved of it;
    [Probes] the readiness probes and the health monitor, which share the state
    of [RunnerState] with the workers and judge answers by [Attest], with
    [Readiness]; [Reaping] the processes of one run as a system of concurrent
    steps, from the start of a command to the collection of its group's leader,
    with [Ownership]; [Stopping] the goroutine that serves the clients' commands,
    the handlers that wait for its replies and the end of [Run], as another such
    system, with [Delivery]; [Output] line splitting, event numbering and the
    display.

    Events ([internal/ipc], [internal/logrotate], [internal/logs]).  [Ipc] is
    the history ring, the server and its clients; [Logrotate] the rotating
    journal; [LogQuery] paging through it, and the loop of the logs command.

    The command line ([cmd/proc-compose]).  [StopClient] is the stop command,
    from the request to the daemon's end, and the wait for readiness of a start,
    with [StopCommand].  The monitor ([internal/monitor]) is [Monitor], over the
    widths and encodings of [Runes], with [MonitorView].

    Verification ([internal/verify]).  [VerifyRecords] is results, receipts and
    identifiers; [Compare] the comparison of two environments; [Attempt] one
    attempt from its input to its response, over the shutdown verdict of
    [Groups], the records and the log queries; [Verdict], [Budget] and
    [CheckEnv] are what is proved of it.  [Diagnose] reads the journal of an
    attempt back into the histories of its processes, with [Histories].

    How they interact: [Load] gives a configuration the other parts may rely on
    ([ConfigLoad]'s well-formedness is what [ConfigPlan] needs to return);
    [Session] resolves it; [Lifecycle] drives [RunnerState]'s operations;
    [Output] writes the journal [LogQuery] reads; [Groups] gives the verdict
    that [Teardown] publishes, [Stopping] delivers and [Attempt] records, and
    the PID-file record that [Recovery] starts from; [Diagnose] asks its
    questions through [LogQuery].

    ** How the code is modelled

    A struct is a record and an enumeration an inductive type.  A Go map is a
    [gmap], and where the code iterates over one, the order is an argument and
    the theorems hold for every order.  A function that returns an error is a
    [res]; code that changes state is a function from state to state, or code in
    a small monad ([Session], [Recovery], [Logrotate], [Attempt]).  Numbers are
    [nat] or [Z]; where the width matters it is written out (sequence numbers,
    durations, ports, PIDs, clock ticks).  What is shared is a store: the
    readiness cycles a waiter keeps a pointer to, the file behind a handle, the
    queue of a client, the pins of a recovery.

    What comes from outside is an argument.  A sequence of outside events is a
    script, one entry per turn of a loop, one per system call, or one per
    publication, and the theorems are for every script: every interleaving,
    every failure of every call, death at any call.  Third-party code and the
    operating system are parameters: the YAML and JSON decoders, the digest, the
    path functions, the route scan, git, the clock.  What a theorem needs of one
    is a named hypothesis of its section (a clock that advances, an iteration
    order that is a permutation).

    Fuel.  [include], the [visit] of [ConfigGraph] and [depth] recurse along
    [depends_on] with one unit of fuel per name of the graph, plus one; the
    theorems show it never runs out ([include] and [visit] mark what they enter,
    and [depth] runs on an acyclic graph).  The [visit] of [ConfigDiagnose]
    follows merge keys with one unit per node of the document, plus one
    ([effectiveEntries_enough]).  The digits of a number take one unit per bit.  A loop
    over a script ends with it: what is then returned says the code still runs,
    and the termination theorems say when that cannot be.

    ** What is shown

    - Configuration: what [Load] returns is well formed, whatever the input
      ([Load_well_formed]); validation decides the declarative rules
      ([validateProcess_spec]); cycle detection is exact ([detectCycles_exact]);
      the plan exists and is topological ([Plan_topological]); env files are
      read back ([parseEnvFile_roundtrip]); a diagnosis finds what is wrong
      ([Diagnose_valid_exact]) and places it ([Diagnose_locates]), not always
      where it is ([diagnosis_misplaced]).
    - Sessions: acquisition is all or nothing ([Acquire_all_or_nothing]); two
      sessions share nothing ([sessions_disjoint]); resolution leaves no
      placeholder ([Resolve_sound]) and agrees with the plan
      ([plan_session_agree]).
    - Processes: readiness cycles are settled once and never lost
      ([readiness_cycles_safe]); dependents start on real readiness
      ([start_after_dependencies], [wait_verdict_sound]); every fate is
      published ([runProcess_published]); a reload that says ok has been applied
      ([Reload_ok_applied]).
    - Stopping: a verified shutdown is one ([shutdown_verdict_sound]); the record
      covers what may live ([record_covers_live_groups]); the teardown runs
      after it ([runTeardown_spec], [verdict_clean_exact]), with the defect of
      its textual verdict ([teardown_stderr_misread]); a client that asks for a
      stop is told the truth ([stop_answer_true]), the run does not end before
      it was told or the journal has it ([exit_waits_for_verdicts]), and the two
      cannot wait for each other ([exit_never_stuck]).  The stop command repeats
      what the daemon has said ([stop_success_exact]), so that its success is the
      stack's ([stop_ok_end_to_end]), and it keeps to its budget
      ([stop_in_time]); a start waits for what it should ([wait_ready_exact]).
    - Ownership of groups: no signal follows the reap that gives the group's
      number away ([signals_before_the_reap]); a group is let go only when it
      has ended or is handed over ([let_go_only_when_ended]); one exception is
      reachable ([check_signalled_after_reap]).
    - Recovery: no stranger is signalled, no living group is declared gone, no
      handle leaks, it ends, and a crashed run is not forgotten
      (the theorems of [Recovery]).
    - Probes: an answer is called the process's own, or another's, only on what
      was seen ([attribution_justified]); a server that stays is recognised
      ([own_server_recognised]); another session is named, and its answer
      refused, only when it is proven to be there ([foreign_answer_placed]); the
      kernel's rows are read as written ([socket_row_roundtrip]); a process is
      reported ready, or failed, only for cause ([readiness_verdict_justified]);
      a probe that is left alone decides ([probe_decides]); a process is
      restarted for its health exactly when its checks say so
      ([health_restart_exact]).
    - Events: rotation keeps the log ([rotation_keeps_log]); a monitor sees a
      consistent cut ([monitor_consistent]); pages show every event once
      ([logs_exactly_once], [logs_complete], [Query_page_bounds]); and from the
      emission to the reader ([emitted_events_are_read], [readOutput_lines]).
      The terminal monitor withstands any input and draws within its terminal
      ([monitor_withstands]); one of its keys shows nothing
      ([top_of_buffer_empty]).
    - Verification: the verdict of an attempt is exact ([verdict_exact]); its
      leases outlive what it started ([leases_outlive_the_stack]); its receipts
      can be read ([receipts_readable]); all its deadlines come from one budget
      ([one_cleanup_budget]); its check gets the right environment
      ([check_environment_exact]); it returns ([attempt_returns]); a comparison
      judges soundly ([judge_sound]); pruning is exact ([Prune_exact]); a
      diagnosis shows its attempt, and its histories are the events
      ([diagnosis_complete], [histories_faithful], [diagnosis_returns]).

    ** Not modelled

    Sockets, JSON framing and the client ([internal/ipc] client and transport);
    the network exchanges of probes, which are answers of a script; the PID-file
    and registry files themselves; the Windows counterparts of the process
    groups, the recovery and the attestation; the session records on disk; the
    rest of the command line, the published schema, the monitor's help overlay,
    the doctor's heuristics, bootstrap, update, guides and generated units.  They are input and output with little logic, or text.  Each
    file's own header says what is left out of its part. *)

From Stdlib Require Export ZArith Lia String Ascii.
From stdpp Require Export base decidable list strings gmap sorting.

#[export] Set Default Goal Selector "!".

(** String literals are Go strings; [++] is list append and [+:+] string
    append; numbers are [nat] unless marked. *)
Global Open Scope string_scope.
Global Open Scope list_scope.
Global Open Scope nat_scope.
#[global] Arguments String.append !_ _ /.

(** ** Results of fallible code

    A Go function returning [(T, error)] is a [res E T]: [Err] is a non-nil
    error, [Ok] the value returned with a nil one. *)

Inductive res (E A : Type) : Type :=
  | Ok (a : A)
  | Err (e : E).
Arguments Ok {E A} a.
Arguments Err {E A} e.

Definition res_bind {E A B : Type} (f : A → res E B) (r : res E A) : res E B :=
  match r with Ok a => f a | Err e => Err e end.

#[export] Instance res_mret E : MRet (res E) := λ A a, Ok a.
#[export] Instance res_mbind E : MBind (res E) := λ A B f r, res_bind f r.
#[export] Instance res_fmap E : FMap (res E) := λ A B f r, res_bind (λ a, Ok (f a)) r.

Definition is_ok {E A} (r : res E A) : bool := match r with Ok _ => true | Err _ => false end.

Definition err_of {E A} (r : res E A) : option E :=
  match r with Ok _ => None | Err e => Some e end.

Declare Scope go_scope.
Delimit Scope go_scope with go.
Open Scope go_scope.

(** [when b then_fail e] is an early [return e] guarded by [b]. *)
Definition guard_err {E} (b : bool) (e : E) : res E unit := if b then Err e else Ok tt.

Notation "'return_if' b 'with' e ;; k" :=
  (res_bind (λ _ : unit, k) (guard_err b e))
  (at level 100, b at level 99, e at level 99, k at level 200, right associativity,
   format "'[v' 'return_if'  b  'with'  e  ;; '/' k ']'") : go_scope.

Notation "'check' c ;; k" :=
  (res_bind (λ _ : unit, k) c)
  (at level 100, c at level 99, k at level 200, right associativity,
   format "'[v' 'check'  c  ;; '/' k ']'") : go_scope.

Lemma res_bind_Ok {E A B} (f : A → res E B) (r : res E A) b :
  res_bind f r = Ok b ↔ ∃ a, r = Ok a ∧ f a = Ok b.
Proof. destruct r; cbn; naive_solver. Qed.

Lemma res_bind_Err {E A B} (f : A → res E B) (r : res E A) e :
  res_bind f r = Err e ↔ r = Err e ∨ ∃ a, r = Ok a ∧ f a = Err e.
Proof. destruct r; cbn; naive_solver. Qed.

Lemma guard_err_Ok {E} b (e : E) u : guard_err b e = Ok u ↔ b = false.
Proof. destruct b, u; cbn; naive_solver. Qed.

Lemma guard_err_Err {E} b (e e' : E) : guard_err b e = Err e' ↔ b = true ∧ e = e'.
Proof. destruct b; cbn; naive_solver. Qed.

(** A chain of early returns succeeds exactly when none of its guards fires. *)
Lemma return_if_Ok {E A} b (e : E) (k : res E A) a :
  res_bind (λ _, k) (guard_err b e) = Ok a ↔ b = false ∧ k = Ok a.
Proof. destruct b; cbn; naive_solver. Qed.

Lemma check_Ok {E A} (c : res E unit) (k : res E A) a :
  res_bind (λ _, k) c = Ok a ↔ c = Ok tt ∧ k = Ok a.
Proof. destruct c as [[]|]; cbn; naive_solver. Qed.

Lemma is_ok_true {E A} (r : res E A) : is_ok r = true ↔ ∃ a, r = Ok a.
Proof. destruct r; cbn; naive_solver. Qed.

Create Rewrite HintDb gores.
#[export] Hint Rewrite @return_if_Ok @check_Ok @guard_err_Ok @res_bind_Ok : gores.

(** ** Boolean reflection used by every component *)

Lemma bool_decide_ne {A} `{EqDecision A} (x y : A) :
  bool_decide (x = y) = false ↔ x ≠ y.
Proof. apply bool_decide_eq_false. Qed.

Create Rewrite HintDb gobool.
#[export] Hint Rewrite andb_true_iff andb_false_iff orb_true_iff orb_false_iff
  negb_true_iff negb_false_iff @bool_decide_eq_true @bool_decide_eq_false
  Z.ltb_lt Z.ltb_ge Z.leb_le Z.leb_gt Z.eqb_eq Z.eqb_neq : gobool.

(** Turn the boolean tests of the code into propositions. *)
Ltac gobool := autorewrite with gobool in *.

(** Case analysis on every [match] of the goal or of a hypothesis. *)
Ltac case_all :=
  repeat match goal with
    | H : context [match ?x with _ => _ end] |- _ => destruct x eqn:?; simplify_eq/=
    | |- context [match ?x with _ => _ end] => destruct x eqn:?; simplify_eq/=
    end.

(** ** Generic lemmas *)

Lemma fold_left_invariant {A B} (P : A → Prop) (f : A → B → A) l a :
  P a → (∀ a b, b ∈ l → P a → P (f a b)) → P (fold_left f l a).
Proof.
  revert a; induction l as [|b l IH]; intros a Ha Hf; cbn; [done|].
  apply IH; [apply Hf; [apply list_elem_of_here|done]|].
  intros; apply Hf; [by apply list_elem_of_further|done].
Qed.

(** The loop "for each x, stop at the first error", with the state threaded. *)
Fixpoint fold_res {E A B} (f : A → B → res E A) (l : list B) (a : A) : res E A :=
  match l with
  | [] => Ok a
  | b :: l => res_bind (fold_res f l) (f a b)
  end.

Lemma fold_res_app {E A B} (f : A → B → res E A) l1 l2 a :
  fold_res f (l1 ++ l2) a = res_bind (fold_res f l2) (fold_res f l1 a).
Proof. revert a; induction l1; intros a'; cbn; [done|]. destruct (f a' a); cbn; auto. Qed.

Lemma fold_res_invariant {E A B} (P : A → Prop) (f : A → B → res E A) l a a' :
  P a → (∀ a b a', b ∈ l → P a → f a b = Ok a' → P a') →
  fold_res f l a = Ok a' → P a'.
Proof.
  revert a; induction l as [|b l IH]; intros a Ha Hf; cbn; [congruence|].
  destruct (f a b) eqn:E1; cbn; [|done].
  apply IH; [eapply Hf; [apply list_elem_of_here|done..]|].
  intros; eapply Hf; [by apply list_elem_of_further|done..].
Qed.

(** The loop "for each x, return the first error", without state. *)
Definition each_res {E B} (f : B → res E unit) (l : list B) : res E unit :=
  fold_res (λ _ b, f b) l tt.

Lemma each_res_Ok {E B} (f : B → res E unit) l :
  each_res f l = Ok tt ↔ ∀ b, b ∈ l → f b = Ok tt.
Proof.
  unfold each_res. induction l as [|b l IH]; cbn.
  - split; [intros _ b Hb; by apply not_elem_of_nil in Hb|done].
  - destruct (f b) as [[]|e] eqn:Eb; cbn.
    + rewrite IH. setoid_rewrite elem_of_cons. naive_solver.
    + split; [done|]. intros H. specialize (H b (list_elem_of_here _ _)). congruence.
Qed.

Lemma each_res_Err {E B} (f : B → res E unit) l e :
  each_res f l = Err e → ∃ b, b ∈ l ∧ f b = Err e.
Proof.
  unfold each_res. induction l as [|b l IH]; cbn; [done|].
  destruct (f b) as [[]|e'] eqn:Eb; cbn.
  - intros H; destruct (IH H) as (b' & ? & ?). exists b'; split; [by apply list_elem_of_further|done].
  - intros [= ->]. exists b; split; [apply list_elem_of_here|done].
Qed.

Lemma decide_elem_of_cons {A B} `{EqDecision A} (k x : A) l (a b : B) :
  (if decide (k ∈ x :: l) then a else b) =
  (if decide (k = x) then a else if decide (k ∈ l) then a else b).
Proof.
  destruct (decide (k ∈ x :: l)) as [H|H]; rewrite elem_of_cons in H;
    repeat case_decide; naive_solver.
Qed.

Lemma list_find_first {A} (P : A → Prop) `{!∀ x, Decision (P x)} l x :
  x ∈ l → P x → is_Some (list_find P l).
Proof. intros. by eapply list_find_elem_of. Qed.

Lemma NoDup_length_le_size `{Countable A} (l : list A) (X : gset A) :
  NoDup l → (∀ x, x ∈ l → x ∈ X) → length l ≤ size X.
Proof.
  intros Hnd Hin. rewrite <-(size_list_to_set (C:=gset A)) by done.
  apply subseteq_size. intros x Hx%elem_of_list_to_set. auto.
Qed.

Lemma size_strict_subset `{Countable A} (X Y : gset A) x :
  X ⊆ Y → x ∈ Y → x ∉ X → size X < size Y.
Proof. intros. apply subset_size. set_solver. Qed.

(** [slices.Compact] *)
Fixpoint compact {A} `{EqDecision A} (l : list A) : list A :=
  match l with
  | x :: (y :: _) as t => if bool_decide (x = y) then compact t else x :: compact t
  | _ => l
  end.

Lemma elem_of_compact {A} `{EqDecision A} (l : list A) x : x ∈ compact l ↔ x ∈ l.
Proof.
  induction l as [|y [|z l] IH]; [done..|]. cbn [compact]. case_bool_decide; [subst y|];
    rewrite !elem_of_cons, ?IH, ?elem_of_cons; naive_solver.
Qed.
