(* ===== verification/GoStrings.v ===== *)
(** * The Go string and number functions the program uses

    Go strings are byte strings: [string] here, one [ascii] per byte.  The
    [strings], [strconv] and [sort] functions the source calls are written out
    with their Go behaviour ([int] is the 64-bit one), and the fixed regular
    expressions of the config package are predicates on bytes. *)

From S2P Require Import Prelude.

(** ** Bytes *)

Definition chr (n : nat) : ascii := ascii_of_nat n.
Definition code (c : ascii) : nat := nat_of_ascii c.

Definition in_range (lo hi : nat) (c : ascii) : bool := (lo <=? code c) && (code c <=? hi).

Definition is_digit (c : ascii) : bool := in_range 48 57 c.

Definition is_alnum (c : ascii) : bool :=
  is_digit c || in_range 65 90 c || in_range 97 122 c.

Fixpoint bytes (s : string) : list ascii :=
  match s with EmptyString => [] | String c s => c :: bytes s end.

Fixpoint of_bytes (l : list ascii) : string :=
  match l with [] => EmptyString | c :: l => String c (of_bytes l) end.

Definition str_all (f : ascii → bool) (s : string) : bool := forallb f (bytes s).
Definition str_has (f : ascii → bool) (s : string) : bool := existsb f (bytes s).

(** [strings.ContainsAny(s, chars)] on ASCII [chars]. *)
Definition contains_any (s : string) (chars : list ascii) : bool :=
  str_has (λ c, bool_decide (c ∈ chars)) s.

Definition str_len (s : string) : Z := Z.of_nat (String.length s).

Definition str_rev (s : string) : string := of_bytes (rev (bytes s)).

Lemma of_bytes_bytes s : of_bytes (bytes s) = s.
Proof. induction s; cbn; congruence. Qed.
Lemma bytes_of_bytes l : bytes (of_bytes l) = l.
Proof. induction l; cbn; congruence. Qed.
Lemma bytes_app s t : bytes (s +:+ t) = bytes s ++ bytes t.
Proof. induction s; cbn; congruence. Qed.
Lemma of_bytes_app l k : of_bytes (l ++ k) = of_bytes l +:+ of_bytes k.
Proof. induction l; cbn; congruence. Qed.
Lemma length_bytes s : length (bytes s) = String.length s.
Proof. induction s; cbn; congruence. Qed.
Lemma bytes_inj s t : bytes s = bytes t → s = t.
Proof. intros H. by rewrite <-(of_bytes_bytes s), H, of_bytes_bytes. Qed.
Lemma str_app_assoc (a b c : string) : (a +:+ b) +:+ c = a +:+ b +:+ c.
Proof. induction a; cbn; congruence. Qed.
Lemma str_app_nil (a : string) : a +:+ "" = a.
Proof. induction a; cbn; congruence. Qed.
Lemma str_rev_involutive s : str_rev (str_rev s) = s.
Proof. unfold str_rev. by rewrite bytes_of_bytes, rev_involutive, of_bytes_bytes. Qed.
Lemma str_rev_app s t : str_rev (s +:+ t) = str_rev t +:+ str_rev s.
Proof. unfold str_rev. by rewrite bytes_app, rev_app_distr, of_bytes_app. Qed.

(** ** Order: [sort.Strings] compares bytes *)

Definition str_le (x y : string) : Prop := String.leb x y = true.

#[export] Instance str_le_dec : RelDecision str_le.
Proof. intros x y. unfold str_le. apply _. Defined.

Lemma ascii_compare_trans_lt a b c :
  Ascii.compare a b = Lt → Ascii.compare b c = Lt → Ascii.compare a c = Lt.
Proof. unfold Ascii.compare. rewrite !N.compare_lt_iff. lia. Qed.

Lemma ascii_compare_eq a b : Ascii.compare a b = Eq ↔ a = b.
Proof.
  split; [apply Ascii.compare_eq_iff|]. intros ->.
  unfold Ascii.compare. by apply N.compare_eq_iff.
Qed.

Lemma str_le_cons a x b y :
  str_le (String a x) (String b y) ↔
  Ascii.compare a b = Lt ∨ a = b ∧ str_le x y.
Proof.
  unfold str_le, String.leb; cbn. destruct (Ascii.compare a b) eqn:E.
  - apply ascii_compare_eq in E as ->. naive_solver.
  - naive_solver.
  - split; [done|]. intros [?|[-> ?]]; [done|].
    assert (Ascii.compare b b = Eq) by by apply ascii_compare_eq. congruence.
Qed.

Lemma str_le_refl x : str_le x x.
Proof. induction x; [done|]. rewrite str_le_cons. by right. Qed.

#[export] Instance str_le_trans : Transitive str_le.
Proof.
  intros x; induction x as [|a x IH]; intros [|b y] [|c z]; try done.
  rewrite !str_le_cons. intros [H1|[-> H1]] [H2|[-> H2]]; eauto using ascii_compare_trans_lt.
Qed.

#[export] Instance str_le_total : Total str_le.
Proof.
  intros x y. unfold str_le, String.leb. rewrite (String.compare_antisym y x).
  destruct (String.compare x y); cbn; eauto.
Qed.

#[export] Instance str_le_antisymm : AntiSymm (=) str_le.
Proof.
  intros x y. unfold str_le, String.leb. rewrite (String.compare_antisym y x).
  destruct (String.compare x y) eqn:E; cbn; try done. intros _ _. by apply String.compare_eq_iff.
Qed.

(** [sort.Strings] *)
Definition sort_strings (l : list string) : list string := merge_sort str_le l.

Lemma sort_strings_perm l : sort_strings l ≡ₚ l.
Proof. apply merge_sort_Permutation. Qed.

Lemma sort_strings_sorted l : StronglySorted str_le (sort_strings l).
Proof. apply StronglySorted_merge_sort; apply _. Qed.

Lemma elem_of_sort_strings x l : x ∈ sort_strings l ↔ x ∈ l.
Proof. by rewrite sort_strings_perm. Qed.

(** Sorting forgets the order of its input: this is what makes the results of
    the Go code independent of the map iteration order. *)
Lemma sort_strings_order_indep l k : l ≡ₚ k → sort_strings l = sort_strings k.
Proof.
  intros Hp. apply (StronglySorted_unique str_le).
  - apply sort_strings_sorted.
  - apply sort_strings_sorted.
  - by rewrite !sort_strings_perm.
Qed.

(** The keys of a map, in some order. *)
Definition keys {A} (m : gmap string A) : list string := (map_to_list m).*1.

Lemma elem_of_keys {A} (m : gmap string A) k : k ∈ keys m ↔ is_Some (m !! k).
Proof.
  unfold keys. rewrite list_elem_of_fmap. split.
  - intros ([k' a] & -> & H%elem_of_map_to_list). by exists a.
  - intros [a H]. exists (k, a). by rewrite elem_of_map_to_list.
Qed.

Lemma NoDup_keys {A} (m : gmap string A) : NoDup (keys m).
Proof. apply NoDup_fst_map_to_list. Qed.

(** The first element of a sorted list that passes a test is the least one. *)
Lemma sorted_find_least (P : string → Prop) `{!∀ x, Decision (P x)} l i x :
  StronglySorted str_le l → list_find P l = Some (i, x) →
  x ∈ l ∧ P x ∧ ∀ y, y ∈ l → P y → str_le x y.
Proof.
  intros Hs (Hi & HP & Hbefore)%list_find_Some.
  split; [by eapply list_elem_of_lookup_2|]. split; [done|].
  intros y (j & Hj)%list_elem_of_lookup Hy.
  destruct (decide (j < i)) as [Hlt|Hge]; [by destruct (Hbefore j y)|].
  destruct (decide (i = j)) as [->|Hne]; [simplify_eq; apply str_le_refl|].
  apply (StronglySorted_app_1_elem_of str_le (take j l) (drop j l)).
  - by rewrite take_drop.
  - apply list_elem_of_lookup. exists i. rewrite lookup_take_lt by lia. done.
  - apply list_elem_of_lookup. exists 0. by rewrite lookup_drop, Nat.add_0_r.
Qed.

(** ** Searching and cutting *)

(** [strings.Cut(s, c)] for a one-byte separator, split at the first one;
    [None] when it does not occur. *)
Fixpoint cut_byte (c : ascii) (s : string) : option (string * string) :=
  match s with
  | EmptyString => None
  | String a t =>
      if bool_decide (a = c) then Some ("", t)
      else match cut_byte c t with
           | Some (x, y) => Some (String a x, y)
           | None => None
           end
  end.

(** The same at the last occurrence: [strings.LastIndex] and the two slices
    around it. *)
Fixpoint cut_last (c : ascii) (s : string) : option (string * string) :=
  match s with
  | EmptyString => None
  | String a t =>
      match cut_last c t with
      | Some (x, y) => Some (String a x, y)
      | None => if bool_decide (a = c) then Some ("", t) else None
      end
  end.

Definition str_mem (c : ascii) (s : string) : bool := str_has (λ a, bool_decide (a = c)) s.

Lemma str_mem_cons c a s : str_mem c (String a s) = bool_decide (a = c) || str_mem c s.
Proof. done. Qed.

Lemma str_mem_app c s t : str_mem c (s +:+ t) = str_mem c s || str_mem c t.
Proof. unfold str_mem, str_has. by rewrite bytes_app, existsb_app. Qed.

Lemma str_mem_mid c x y : str_mem c (x +:+ String c y) = true.
Proof. by rewrite str_mem_app, str_mem_cons, bool_decide_true, orb_true_r. Qed.

Lemma cut_byte_None c s : cut_byte c s = None ↔ str_mem c s = false.
Proof.
  induction s as [|a s IH]; cbn [cut_byte]; [done|]. rewrite str_mem_cons.
  case_bool_decide; cbn; [done|]. rewrite <-IH. destruct (cut_byte c s) as [[]|]; done.
Qed.

Lemma cut_byte_Some c s x y :
  cut_byte c s = Some (x, y) ↔ s = x +:+ String c y ∧ str_mem c x = false.
Proof.
  revert x y; induction s as [|a s IH]; intros x y; cbn [cut_byte].
  { split; [done|]. intros [H _]. by destruct x. }
  case_bool_decide as Ha; [subst a|].
  { split; [by intros [= <- <-]|]. intros [H Hn]. destruct x as [|b x]; simplify_eq/=; [done|].
    by rewrite str_mem_cons, bool_decide_true in Hn. }
  split.
  - destruct (cut_byte c s) as [[x' y']|] eqn:E; [|done]. intros [= <- <-].
    pose proof (proj1 (IH _ _) eq_refl) as [-> Hx]. split; [done|].
    by rewrite str_mem_cons, bool_decide_false.
  - intros [H Hn]. destruct x as [|b x]; simplify_eq/=.
    rewrite str_mem_cons, bool_decide_false in Hn by done.
    by rewrite (proj2 (IH x y)).
Qed.

Lemma cut_last_None c s : cut_last c s = None ↔ str_mem c s = false.
Proof.
  induction s as [|a s IH]; cbn [cut_last]; [done|]. rewrite str_mem_cons.
  destruct (cut_last c s) as [[]|].
  - split; [done|]. intros [_ H]%orb_false_iff. by apply IH in H.
  - case_bool_decide; cbn; [done|]. by rewrite <-IH.
Qed.

Lemma cut_last_Some c s x y :
  cut_last c s = Some (x, y) ↔ s = x +:+ String c y ∧ str_mem c y = false.
Proof.
  revert x y; induction s as [|a s IH]; intros x y; cbn [cut_last].
  { split; [done|]. intros [H _]. by destruct x. }
  destruct (cut_last c s) as [[x' y']|] eqn:E.
  - pose proof (proj1 (IH _ _) eq_refl) as [Hs Hy']. split; [by intros [= <- <-]; subst s|].
    intros [H Hn]. destruct x as [|b x]; injection H as -> H.
    + subst. by rewrite str_mem_mid in Hn.
    + pose proof (proj2 (IH x y) (conj H Hn)). by simplify_eq.
  - apply cut_last_None in E. split.
    + case_bool_decide; [subst|done]. by intros [= <- <-].
    + intros [H Hn]. destruct x as [|b x]; simplify_eq/=; [by rewrite bool_decide_true|].
      by rewrite str_mem_mid in E.
Qed.

Fixpoint has_prefix (p s : string) : bool :=
  match p, s with
  | EmptyString, _ => true
  | String a p, String b s => bool_decide (a = b) && has_prefix p s
  | _, _ => false
  end.

(** [strings.Contains] *)
Fixpoint str_contains (sub s : string) : bool :=
  has_prefix sub s || match s with EmptyString => false | String _ s => str_contains sub s end.

Definition has_suffix (p s : string) : bool := has_prefix (str_rev p) (str_rev s).

(** [strings.Join(l, sep)] *)
Fixpoint join (sep : string) (l : list string) : string :=
  match l with
  | [] => ""
  | [x] => x
  | x :: l => x +:+ sep +:+ join sep l
  end.

Definition ascii_lower (c : ascii) : ascii :=
  if in_range 65 90 c then chr (code c + 32) else c.

(** ** [strings.TrimSpace] *)

(** The UTF-8 encodings of the runes with [unicode.IsSpace], by length. *)
Definition space1 (a : ascii) : bool := in_range 9 13 a || bool_decide (code a = 32).
Definition space2 (a b : ascii) : bool :=
  bool_decide (code a = 194) && (bool_decide (code b = 133) || bool_decide (code b = 160)).
Definition space3 (a b c : ascii) : bool :=
  (bool_decide (code a = 225) && bool_decide (code b = 154) && bool_decide (code c = 128)) ||
  (bool_decide (code a = 226) &&
     ((bool_decide (code b = 128) &&
         (in_range 128 138 c || bool_decide (code c = 168) || bool_decide (code c = 169)
          || bool_decide (code c = 175))) ||
      (bool_decide (code b = 129) && bool_decide (code c = 159)))) ||
  (bool_decide (code a = 227) && bool_decide (code b = 128) && bool_decide (code c = 128)).

Fixpoint trim_left (s : string) : string :=
  match s with
  | EmptyString => s
  | String a s1 =>
      if space1 a then trim_left s1
      else match s1 with
           | EmptyString => s
           | String b s2 =>
               if space2 a b then trim_left s2
               else match s2 with
                    | EmptyString => s
                    | String c s3 => if space3 a b c then trim_left s3 else s
                    end
           end
  end.

(** The same on the reversed bytes: the encodings are read back to front. *)
Fixpoint trim_left_rev (s : string) : string :=
  match s with
  | EmptyString => s
  | String a s1 =>
      if space1 a then trim_left_rev s1
      else match s1 with
           | EmptyString => s
           | String b s2 =>
               if space2 b a then trim_left_rev s2
               else match s2 with
                    | EmptyString => s
                    | String c s3 => if space3 c b a then trim_left_rev s3 else s
                    end
           end
  end.

Definition trim_right (s : string) : string := str_rev (trim_left_rev (str_rev s)).
Definition trim_space (s : string) : string := trim_right (trim_left s).

(** [strings.TrimRight(s, cutset)] for a one-byte cut set. *)
Fixpoint drop_while_byte (c : ascii) (s : string) : string :=
  match s with
  | String a t => if bool_decide (a = c) then drop_while_byte c t else s
  | EmptyString => s
  end.
Definition trim_right_byte (c : ascii) (s : string) : string :=
  str_rev (drop_while_byte c (str_rev s)).

(** ** [strconv]: decimal integers *)

Definition digit_of (d : Z) : ascii := chr (Z.to_nat (48 + d)).
Definition digit_val (c : ascii) : Z := Z.of_nat (code c) - 48.

Fixpoint digits (fuel : nat) (n : Z) (acc : string) : string :=
  match fuel with
  | O => acc
  | S fuel =>
      let acc := String (digit_of (n mod 10)) acc in
      if (n <? 10)%Z then acc else digits fuel (n / 10)%Z acc
  end.

(** One digit per bit is always enough fuel. *)
Definition digit_fuel (n : Z) : nat := S (Z.to_nat (Z.log2 n)).

(** [%q] of a string of printable ASCII without quotes or backslashes, which
    process names are. *)
Definition quote (s : string) : string := String (chr 34) s +:+ String (chr 34) EmptyString.

(** [strconv.Itoa] *)
Definition itoa (z : Z) : string :=
  if (z <? 0)%Z then String "-"%char (digits (digit_fuel (- z)) (- z) "")
  else digits (digit_fuel z) z "".

Fixpoint parse_digits (acc : Z) (s : string) : option Z :=
  match s with
  | EmptyString => Some acc
  | String c s => if is_digit c then parse_digits (acc * 10 + digit_val c)%Z s else None
  end.

Definition min_int : Z := - 2 ^ 63.
Definition max_int : Z := 2 ^ 63 - 1.
Definition int_range (z : Z) : bool := (min_int <=? z)%Z && (z <=? max_int)%Z.

(** [strconv.Atoi]: an optional sign, at least one digit, and the value in the
    range of [int]; [None] is its error. *)
Definition atoi (s : string) : option Z :=
  let '(neg, body) :=
    match s with
    | String c t =>
        if bool_decide (c = "-"%char) then (true, t)
        else if bool_decide (c = "+"%char) then (false, t) else (false, s)
    | EmptyString => (false, s)
    end in
  match body with
  | EmptyString => None
  | _ => match parse_digits 0 body with
         | Some v => let v := if neg then (- v)%Z else v in
                     if int_range v then Some v else None
         | None => None
         end
  end.

Lemma digit_char d : (0 ≤ d < 10)%Z →
  is_digit (digit_of d) = true ∧ digit_val (digit_of d) = d ∧
  digit_of d ≠ "-"%char ∧ digit_of d ≠ "+"%char.
Proof.
  intros H. assert (d = 0 ∨ d = 1 ∨ d = 2 ∨ d = 3 ∨ d = 4 ∨ d = 5 ∨ d = 6 ∨ d = 7 ∨ d = 8 ∨ d = 9)%Z
    as Hd by lia.
  repeat (destruct Hd as [->|Hd]; [repeat split; discriminate|]).
  subst. repeat split; discriminate.
Qed.

Lemma parse_digits_digits f n s : (0 ≤ n < 10 ^ Z.of_nat f)%Z → f ≠ 0 →
  parse_digits 0 (digits f n s) = parse_digits n s.
Proof.
  revert n s; induction f as [|f IH]; intros n s Hn Hf; [done|]. cbn [digits].
  assert (0 ≤ n mod 10 < 10)%Z as Hd by (apply Z.mod_pos_bound; lia).
  destruct (digit_char _ Hd) as (Hdig & Hval & _).
  destruct (n <? 10)%Z eqn:E.
  - apply Z.ltb_lt in E. cbn. rewrite Hdig, Hval. f_equal. rewrite Z.mod_small; lia.
  - apply Z.ltb_ge in E. rewrite Nat2Z.inj_succ, Z.pow_succ_r in Hn by lia.
    assert (n / 10 < 10 ^ Z.of_nat f)%Z by (apply Z.div_lt_upper_bound; lia).
    assert (1 ≤ n / 10)%Z by (apply Z.div_le_lower_bound; lia).
    rewrite IH; [|lia|intros ->; cbn in *; lia].
    cbn. rewrite Hdig, Hval. f_equal. pose proof (Z.div_mod n 10 ltac:(lia)). lia.
Qed.

Lemma digit_fuel_enough n : (0 ≤ n)%Z → (n < 10 ^ Z.of_nat (digit_fuel n))%Z.
Proof.
  intros Hn. unfold digit_fuel. rewrite Nat2Z.inj_succ, Z2Nat.id by apply Z.log2_nonneg.
  destruct (Z.eq_dec n 0%Z) as [->|]; [cbn; lia|].
  apply Z.lt_le_trans with (2 ^ Z.succ (Z.log2 n))%Z; [apply Z.log2_spec; lia|].
  apply Z.pow_le_mono_l. split; [lia|]. lia.
Qed.

Lemma digits_head f n s : (0 ≤ n)%Z → f ≠ 0 →
  ∃ d t, (0 ≤ d < 10)%Z ∧ digits f n s = String (digit_of d) t.
Proof.
  revert n s; induction f as [|f IH]; intros n s Hn Hf; [done|]. cbn [digits].
  assert (0 ≤ n mod 10 < 10)%Z as Hd by (apply Z.mod_pos_bound; lia).
  destruct (n <? 10)%Z; [by eauto|]. destruct f as [|f]; [by eauto|].
  apply IH; [|done]. apply Z.div_pos; lia.
Qed.

Lemma atoi_itoa z : int_range z = true → atoi (itoa z) = Some z.
Proof.
  intros Hr. unfold itoa. destruct (z <? 0)%Z eqn:E.
  - apply Z.ltb_lt in E. unfold atoi. rewrite bool_decide_true by done. cbn [fst snd].
    destruct (digits_head (digit_fuel (- z)) (- z) "") as (d & t & _ & Hdt); [lia|done|].
    rewrite Hdt. cbv iota. rewrite <-Hdt.
    rewrite parse_digits_digits; [|split; [lia|apply digit_fuel_enough; lia]|done].
    cbn. by rewrite Z.opp_involutive, Hr.
  - apply Z.ltb_ge in E. unfold atoi.
    destruct (digits_head (digit_fuel z) z "") as (d & t & Hd & Hdt); [lia|done|].
    destruct (digit_char _ Hd) as (_ & _ & H1 & H2).
    rewrite Hdt, !bool_decide_false by done. cbv iota. rewrite <-Hdt.
    rewrite parse_digits_digits; [|split; [lia|apply digit_fuel_enough; lia]|done].
    cbn. by rewrite Hr.
Qed.

Lemma atoi_range s z : atoi s = Some z → (min_int ≤ z ≤ max_int)%Z.
Proof.
  unfold atoi. intros H. case_all; unfold int_range in *; gobool; lia.
Qed.

(** [strings.Map]-like recursion on bytes never leaves [bytes]; the lengths of
    appended strings add up. *)
Lemma str_len_app s t : str_len (s +:+ t) = (str_len s + str_len t)%Z.
Proof. unfold str_len. rewrite <-!length_bytes, bytes_app, length_app. lia. Qed.

Lemma has_prefix_spec p s : has_prefix p s = true ↔ ∃ t, s = p +:+ t.
Proof.
  revert s; induction p as [|a p IH]; intros s; cbn; [naive_solver|].
  destruct s as [|b s]; [naive_solver|].
  rewrite andb_true_iff, bool_decide_eq_true, IH. naive_solver.
Qed.

Lemma has_prefix_app p s : has_prefix p (p +:+ s) = true.
Proof. apply has_prefix_spec. by exists s. Qed.

(** ** Prefixes by length *)

(** The first bytes of a string. *)
Definition str_take (n : nat) (s : string) : string := of_bytes (take n (bytes s)).

Lemma str_take_prefix n s : ∃ t, s = str_take n s +:+ t.
Proof.
  exists (of_bytes (drop n (bytes s))). unfold str_take.
  by rewrite <-of_bytes_app, take_drop, of_bytes_bytes.
Qed.

Lemma str_take_length n s : (str_len (str_take n s) ≤ Z.of_nat n)%Z.
Proof.
  unfold str_len, str_take. rewrite <-length_bytes, bytes_of_bytes, length_take. lia.
Qed.

Lemma str_length_app s t : String.length (s +:+ t) = String.length s + String.length t.
Proof. by rewrite <-!length_bytes, bytes_app, length_app. Qed.

Lemma str_take_empty n : str_take n "" = "".
Proof. unfold str_take. cbn. by rewrite take_nil. Qed.

Lemma str_take_len n s : n <= String.length s → String.length (str_take n s) = n.
Proof. unfold str_take. rewrite <-length_bytes, <-length_bytes, bytes_of_bytes, length_take. lia. Qed.

Lemma str_take_app_le n x rest : n <= String.length x → str_take n (x +:+ rest) = str_take n x.
Proof. intros H. unfold str_take. rewrite bytes_app, take_app_le; [done|]. by rewrite length_bytes. Qed.

Lemma str_take_app_ge n s t : String.length s <= n →
  str_take n (s +:+ t) = s +:+ str_take (n - String.length s) t.
Proof.
  intros H. unfold str_take. rewrite bytes_app, take_app_ge by (by rewrite length_bytes).
  by rewrite of_bytes_app, of_bytes_bytes, length_bytes.
Qed.

(** What follows the first bytes. *)
Fixpoint skip_bytes (n : nat) (s : string) : string :=
  match n, s with S n, String _ t => skip_bytes n t | _, _ => s end.

Lemma take_skip n s : str_take n s +:+ skip_bytes n s = s.
Proof.
  revert s; induction n as [|n IH]; intros [|c s]; try done.
  change (str_take (S n) (String c s)) with (String c (str_take n s)). cbn. by rewrite IH.
Qed.

Lemma str_snoc x : x ≠ "" → ∃ y a, x = y +:+ String a "".
Proof.
  intros Hx. destruct (str_rev x) as [|a t] eqn:E.
  - destruct Hx. by rewrite <-(str_rev_involutive x), E.
  - exists (str_rev t), a. rewrite <-(str_rev_involutive x), E. apply (str_rev_app (String a "") t).
Qed.

Lemma parse_itoa z : (0 ≤ z)%Z → parse_digits 0 (itoa z) = Some z.
Proof.
  intros Hz. unfold itoa. rewrite (proj2 (Z.ltb_ge z 0)) by lia.
  rewrite parse_digits_digits; [done| |done]. split; [done|]. by apply digit_fuel_enough.
Qed.

Lemma str_app_inj (p a b : string) : p +:+ a = p +:+ b → a = b.
Proof.
  intros H. apply (f_equal bytes) in H. rewrite !bytes_app in H. apply bytes_inj.
  by apply app_inv_head in H.
Qed.

Lemma str_all_app f s t : str_all f (s +:+ t) = str_all f s && str_all f t.
Proof. unfold str_all. by rewrite bytes_app, forallb_app. Qed.

Lemma str_all_digits (f : ascii → bool) fuel n acc : (∀ c, is_digit c = true → f c = true) → (0 ≤ n)%Z →
  str_all f acc = true → str_all f (digits fuel n acc) = true.
Proof.
  intros Hf. revert n acc. induction fuel as [|fuel IH]; intros n acc Hn Hacc; cbn [digits]; [done|].
  assert (str_all f (String (digit_of (n mod 10)) acc) = true) as H.
  { unfold str_all. cbn. apply andb_true_iff. split; [|done]. apply Hf. apply digit_char. apply Z.mod_pos_bound. lia. }
  destruct (n <? 10)%Z; [done|]. apply IH; [|done]. apply Z.div_pos; lia.
Qed.

Lemma str_all_itoa (f : ascii → bool) z : (∀ c, is_digit c = true → f c = true) → f "-"%char = true →
  str_all f (itoa z) = true.
Proof.
  intros Hd Hm. unfold itoa. destruct (Z.ltb_spec z 0).
  - unfold str_all. cbn [bytes forallb]. rewrite Hm. apply str_all_digits; [done|lia|done].
  - apply str_all_digits; [done|lia|done].
Qed.

Lemma str_all_not_mem c s : str_all (λ a, negb (bool_decide (a = c))) s = true → str_mem c s = false.
Proof.
  unfold str_all, str_mem, str_has. induction (bytes s) as [|a l IH]; cbn; [done|].
  intros [H1 H2]%andb_true_iff. apply negb_true_iff in H1. rewrite H1. by apply IH.
Qed.

Lemma itoa_no_byte c z : is_digit c = false → c ≠ "-"%char → str_mem c (itoa z) = false.
Proof.
  intros Hd Hm. apply str_all_not_mem, str_all_itoa.
  - intros a Ha. apply negb_true_iff, bool_decide_eq_false. congruence.
  - by apply negb_true_iff, bool_decide_eq_false.
Qed.

(** [strconv.ParseUint(s, 10, 64)] *)
Definition parse_uint64 (s : string) : option Z :=
  match s with
  | EmptyString => None
  | _ => match parse_digits 0 s with Some z => if (z <? 2 ^ 64)%Z then Some z else None | None => None end
  end.

Lemma itoa_nonempty z : itoa z ≠ "".
Proof.
  unfold itoa. destruct (Z.ltb_spec z 0); [done|].
  destruct (digits_head (digit_fuel z) z "") as (d & t & _ & ->); [lia|done|done].
Qed.

Lemma parse_uint64_itoa n : (0 ≤ n < 2 ^ 64)%Z → parse_uint64 (itoa n) = Some n.
Proof.
  intros Hn. unfold parse_uint64. pose proof (itoa_nonempty n). destruct (itoa n) as [|c t] eqn:E; [done|].
  rewrite <-E, parse_itoa by lia. by rewrite (proj2 (Z.ltb_lt n (2 ^ 64))) by lia.
Qed.
