(* ===== verification/ConfigTypes.v ===== *)
(** * Configuration data

    The structs of the config package, the typed validation error and the
    accessors with defaults.  A Go map is a [gmap]; a nil map and an empty one
    are not distinguished, because the package only reads lengths, keys and
    values of maps.  The text of an error is kept as its format string and the
    arguments, unrendered. *)

From S2P Require Import Prelude GoStrings.

(** ** Errors *)

(** A step of a location in the config: a map key or a sequence index. *)
Inductive seg : Type :=
  | SKey (s : string)
  | SIdx (i : Z).

(** An argument of a format string. *)
Inductive arg : Type :=
  | AStr (s : string)
  | AInt (i : Z).

#[export] Instance seg_eq_dec : EqDecision seg.
Proof. solve_decision. Defined.
#[export] Instance arg_eq_dec : EqDecision arg.
Proof. solve_decision. Defined.

(** Source: internal/config/explain.go:82-92 (ValidationError). *)
Record ValidationError : Type := mkValidationError {
  ve_Code : string;
  ve_Path : list seg;
  ve_Format : string;
  ve_Args : list arg;
  ve_Err : option string;
}.

#[export] Instance ValidationError_eq_dec : EqDecision ValidationError.
Proof. solve_decision. Defined.

(** Source: internal/config/explain.go:94-96 (invalid). *)
Definition invalid (code : string) (path : list seg) (cause : option string)
    (format : string) (args : list arg) : ValidationError :=
  mkValidationError code path format args cause.

(** Stable diagnostic codes.
    Source: internal/config/explain.go:33-56 (diagnostic codes). *)
Inductive Code : Type :=
  | CodeReadError | CodeYAMLSyntax | CodeUnknownField | CodeInvalidType | CodeNoProcesses
  | CodeInvalidMerge | CodeInvalidProcessName | CodeMissingCmd | CodeInvalidRestart
  | CodeInvalidMode | CodeTaskIncompatible | CodeInvalidValue | CodeInvalidReadyWhen
  | CodeInvalidPort | CodeEnvFile | CodeSelfDependency | CodeUnknownDependency
  | CodeDependencyCycle | CodeInvalidResource | CodeTeardownDependency
  | CodeReservedProcessName | CodeInvalid.

(** The wire value of each code.
    Source: internal/config/explain.go:33-56 (diagnostic codes). *)
Definition code_string (c : Code) : string :=
  match c with
  | CodeReadError => "read_error" | CodeYAMLSyntax => "yaml_syntax"
  | CodeUnknownField => "unknown_field" | CodeInvalidType => "invalid_type"
  | CodeNoProcesses => "no_processes" | CodeInvalidMerge => "invalid_merge"
  | CodeInvalidProcessName => "invalid_process_name" | CodeMissingCmd => "missing_cmd"
  | CodeInvalidRestart => "invalid_restart" | CodeInvalidMode => "invalid_mode"
  | CodeTaskIncompatible => "task_incompatible_field" | CodeInvalidValue => "invalid_value"
  | CodeInvalidReadyWhen => "invalid_ready_when" | CodeInvalidPort => "invalid_port"
  | CodeEnvFile => "env_file_unreadable" | CodeSelfDependency => "self_dependency"
  | CodeUnknownDependency => "unknown_dependency" | CodeDependencyCycle => "dependency_cycle"
  | CodeInvalidResource => "invalid_resource" | CodeTeardownDependency => "teardown_dependency"
  | CodeReservedProcessName => "reserved_process_name" | CodeInvalid => "invalid_config"
  end.

Coercion code_string : Code >-> string.

(** Source: internal/config/explain.go:110-125 (FormatPath). *)
Definition FormatPath (path : list seg) : string :=
  fold_left (λ b s, match s with
                    | SIdx i => b +:+ "[" +:+ itoa i +:+ "]"
                    | SKey k => (if bool_decide (b = "") then b else b +:+ ".") +:+ k
                    end) path "".

(** ** Enumerations kept as strings, as the YAML has them *)

(** Source: internal/config/config.go:31-32 (ProcessModeService). *)
Definition ProcessModeService : string := "service".
(** Source: internal/config/config.go:33-33 (ProcessModeTask). *)
Definition ProcessModeTask : string := "task".
(** Source: internal/config/config.go:34-38 (ProcessModeTeardown). *)
Definition ProcessModeTeardown : string := "teardown".
(** Source: internal/config/config.go:40-43 (MaxTeardownShutdownTimeout). *)
Definition MaxTeardownShutdownTimeout : Z := 5.
(** Source: internal/config/config.go:45-50 (HealthActionReport). *)
Definition HealthActionReport : string := "report".
(** Source: internal/config/config.go:45-50 (HealthActionRestart). *)
Definition HealthActionRestart : string := "restart".
(** Source: internal/config/config.go:52-58 (ForeignListenerAllow). *)
Definition ForeignListenerAllow : string := "allow".
(** Source: internal/config/config.go:52-58 (ForeignListenerReject). *)
Definition ForeignListenerReject : string := "reject".
(** Source: internal/config/config.go:60-62 (DefaultHealthInterval). *)
Definition DefaultHealthInterval : Z := 10.

(** Source: internal/config/explain.go:25-25 (RestartPolicies). *)
Definition RestartPolicies : list string := ["never"; "on-failure"; "always"].
(** Source: internal/config/explain.go:26-26 (ProcessModes). *)
Definition ProcessModes : list string := [ProcessModeService; ProcessModeTask; ProcessModeTeardown].
(** Source: internal/config/explain.go:27-27 (HealthActions). *)
Definition HealthActions : list string := [HealthActionReport; HealthActionRestart].
(** Source: internal/config/explain.go:28-28 (ForeignListenerPolicies). *)
Definition ForeignListenerPolicies : list string := [ForeignListenerAllow; ForeignListenerReject].

(** ** Structs *)

(** Source: internal/config/config.go:22-29 (ReadyWhen). *)
Record ReadyWhen : Type := mkReadyWhen {
  rw_HTTP : string;
  rw_TCP : string;
  rw_Cmd : string;
  rw_Log : string;
}.

#[export] Instance ReadyWhen_eq_dec : EqDecision ReadyWhen.
Proof. solve_decision. Defined.

(** Source: internal/config/config.go:64-81 (Process). *)
Record Process : Type := mkProcess {
  p_Cmd : string;
  p_Dir : string;
  p_EnvFile : string;
  p_Env : gmap string string;
  p_Mode : string;
  p_Restart : string;
  p_MaxRestarts : Z;
  p_ShutdownTimeout : Z;
  p_ReadyWhen : option ReadyWhen;
  p_ReadyTimeout : Z;
  p_DependsOn : list string;
  p_Ports : gmap string Z;
  p_HealthWhen : option ReadyWhen;
  p_HealthInterval : Z;
  p_HealthAction : string;
  p_ForeignListener : string;
}.

#[export] Instance Process_eq_dec : EqDecision Process.
Proof. solve_decision. Defined.

(** The zero [Process], which a Go map lookup yields for a missing key. *)
Definition zero_process : Process :=
  mkProcess "" "" "" ∅ "" "" 0 0 None 0 [] ∅ None 0 "" "".

(** [processes[name]] of a Go map: the zero value when absent. *)
Definition proc_at (procs : gmap string Process) (name : string) : Process :=
  default zero_process (procs !! name).

Definition set_Cmd (x : string) (p : Process) : Process :=
  mkProcess x (p_Dir p) (p_EnvFile p) (p_Env p) (p_Mode p) (p_Restart p) (p_MaxRestarts p)
    (p_ShutdownTimeout p) (p_ReadyWhen p) (p_ReadyTimeout p) (p_DependsOn p) (p_Ports p)
    (p_HealthWhen p) (p_HealthInterval p) (p_HealthAction p) (p_ForeignListener p).
Definition set_Dir (x : string) (p : Process) : Process :=
  mkProcess (p_Cmd p) x (p_EnvFile p) (p_Env p) (p_Mode p) (p_Restart p) (p_MaxRestarts p)
    (p_ShutdownTimeout p) (p_ReadyWhen p) (p_ReadyTimeout p) (p_DependsOn p) (p_Ports p)
    (p_HealthWhen p) (p_HealthInterval p) (p_HealthAction p) (p_ForeignListener p).
Definition set_Env (x : gmap string string) (p : Process) : Process :=
  mkProcess (p_Cmd p) (p_Dir p) (p_EnvFile p) x (p_Mode p) (p_Restart p) (p_MaxRestarts p)
    (p_ShutdownTimeout p) (p_ReadyWhen p) (p_ReadyTimeout p) (p_DependsOn p) (p_Ports p)
    (p_HealthWhen p) (p_HealthInterval p) (p_HealthAction p) (p_ForeignListener p).
Definition set_Restart (x : string) (p : Process) : Process :=
  mkProcess (p_Cmd p) (p_Dir p) (p_EnvFile p) (p_Env p) (p_Mode p) x (p_MaxRestarts p)
    (p_ShutdownTimeout p) (p_ReadyWhen p) (p_ReadyTimeout p) (p_DependsOn p) (p_Ports p)
    (p_HealthWhen p) (p_HealthInterval p) (p_HealthAction p) (p_ForeignListener p).
Definition set_ReadyWhen (x : option ReadyWhen) (p : Process) : Process :=
  mkProcess (p_Cmd p) (p_Dir p) (p_EnvFile p) (p_Env p) (p_Mode p) (p_Restart p) (p_MaxRestarts
    p) (p_ShutdownTimeout p) x (p_ReadyTimeout p) (p_DependsOn p) (p_Ports p) (p_HealthWhen p)
    (p_HealthInterval p) (p_HealthAction p) (p_ForeignListener p).
Definition set_DependsOn (x : list string) (p : Process) : Process :=
  mkProcess (p_Cmd p) (p_Dir p) (p_EnvFile p) (p_Env p) (p_Mode p) (p_Restart p) (p_MaxRestarts
    p) (p_ShutdownTimeout p) (p_ReadyWhen p) (p_ReadyTimeout p) x (p_Ports p) (p_HealthWhen p)
    (p_HealthInterval p) (p_HealthAction p) (p_ForeignListener p).

(** Source: internal/config/config.go:83-88 (Process.EffectiveMode). *)
Definition EffectiveMode (p : Process) : string :=
  if bool_decide (p_Mode p = "") then ProcessModeService else p_Mode p.

(** Source: internal/config/config.go:90-96 (Process.EffectiveHealthInterval). *)
Definition EffectiveHealthInterval (p : Process) : Z :=
  if (p_HealthInterval p <=? 0)%Z then DefaultHealthInterval else p_HealthInterval p.

(** Source: internal/config/config.go:98-104 (Process.EffectiveForeignListener). *)
Definition EffectiveForeignListener (p : Process) : string :=
  if bool_decide (p_ForeignListener p = "") then ForeignListenerAllow else p_ForeignListener p.

(** Source: internal/config/config.go:106-112 (Process.EffectiveHealthAction). *)
Definition EffectiveHealthAction (p : Process) : string :=
  if bool_decide (p_HealthAction p = "") then HealthActionReport else p_HealthAction p.

(** Source: internal/config/config.go:114-121 (Merge). *)
Record Merge : Type := mkMerge {
  m_Client : Z;
  m_Server : Z;
  m_Port : Z;
  m_ApiPrefixes : list string;
  m_Routes : list string;
  m_ClientProcess : string;
}.

(** Source: internal/config/config.go:123-127 (Config). *)
Record Config : Type := mkConfig {
  c_Merge : option Merge;
  c_Processes : gmap string Process;
  c_Resources : list string;
}.

Definition set_Port (x : Z) (m : Merge) : Merge :=
  mkMerge (m_Client m) (m_Server m) x (m_ApiPrefixes m) (m_Routes m) (m_ClientProcess m).
Definition set_ApiPrefixes (x : list string) (m : Merge) : Merge :=
  mkMerge (m_Client m) (m_Server m) (m_Port m) x (m_Routes m) (m_ClientProcess m).

(** Source: internal/config/config.go:139-146 (MergePortProcessName). *)
Definition MergePortProcessName : string := "merge-port".
(** Source: internal/config/config.go:148-150 (maxResourceLabel). *)
Definition maxResourceLabel : Z := 256.
(** Source: internal/config/config.go:152-154 (maxEnvFileLine). *)
Definition maxEnvFileLine : Z := 2 ^ 20.

(** Source: internal/config/explain.go:98-108 (SortedProcessNames). *)
Definition SortedProcessNames {A} (processes : gmap string A) : list string :=
  sort_strings (keys processes).

(** ** The names a config accepts *)

Definition name_shape (inner : ascii → bool) (s : string) : bool :=
  match bytes s with
  | [] => false
  | [c] => is_alnum c
  | c :: rest => is_alnum c && forallb inner (removelast rest) && is_alnum (List.last rest "000"%char)
  end.

(** Source: internal/config/config.go:129-129 (processNameRe). *)
Definition processNameRe (s : string) : bool :=
  name_shape (λ c, is_alnum c || bool_decide (c ∈ ["-"; "."; "_"]%char)) s.

(** Source: internal/config/config.go:131-137 (portNameRe). *)
Definition portNameRe (s : string) : bool :=
  name_shape (λ c, is_alnum c || bool_decide (c ∈ ["-"; "_"]%char)) s.

(** Source: internal/config/config.go:757-759 (integerRe). *)
Definition integerRe (s : string) : bool :=
  match bytes s with
  | [] => false
  | c :: rest =>
      if bool_decide (c ∈ ["+"; "-"]%char)
      then negb (bool_decide (rest = [])) && forallb is_digit rest
      else forallb is_digit (c :: rest)
  end.

(** ** Lemmas *)

Lemma elem_of_SortedProcessNames {A} (m : gmap string A) k :
  k ∈ SortedProcessNames m ↔ is_Some (m !! k).
Proof. unfold SortedProcessNames. by rewrite elem_of_sort_strings, elem_of_keys. Qed.

Lemma NoDup_SortedProcessNames {A} (m : gmap string A) : NoDup (SortedProcessNames m).
Proof. unfold SortedProcessNames. rewrite sort_strings_perm. apply NoDup_keys. Qed.

Lemma SortedProcessNames_sorted {A} (m : gmap string A) :
  StronglySorted str_le (SortedProcessNames m).
Proof. apply sort_strings_sorted. Qed.

Lemma name_shape_bytes inner s :
  (∀ c, is_alnum c = true → inner c = true) →
  name_shape inner s = true → forallb inner (bytes s) = true ∧ bytes s ≠ [].
Proof.
  intros Hin. unfold name_shape. destruct (bytes s) as [|c [|c' rest]] eqn:E; [done|..].
  - intros H. cbn. by rewrite Hin.
  - rewrite !andb_true_iff. intros [[H1 H2] H3]. split; [|done]. cbn [forallb].
    rewrite Hin by done. cbn [andb].
    change (forallb inner (c' :: rest) = true). apply forallb_forall. intros x Hx.
    rewrite (app_removelast_last "000"%char (l:=c' :: rest)) in Hx by done.
    apply in_app_or in Hx as [Hx|[<-|[]]]; [|by auto].
    rewrite forallb_forall in H2. auto.
Qed.

Lemma code_string_inj c1 c2 : code_string c1 = code_string c2 → c1 = c2.
Proof. by destruct c1, c2. Qed.
