(* ===== verification/ConfigValidate.v ===== *)
(** * Per-process validation

    The rules [Load] applies to each process, in the order the code applies
    them, and the declarative predicate they decide. *)

From S2P Require Import Prelude GoStrings ConfigTypes.

Section validate.
(** [regexp.Compile]: the text of its error, [None] for a valid expression. *)
Context (regexp_error : string → option string).

(** One process's parsed env_file, or the error reading it.
    Source: internal/config/config.go:1235-1239 (envFile). *)
Record envFile : Type := mkEnvFile {
  ef_vars : gmap string string;
  ef_err : option string;
}.

(** [envFiles[name]] of a Go map: the zero value when absent. *)
Definition env_at (envFiles : gmap string envFile) (name : string) : envFile :=
  default (mkEnvFile ∅ None) (envFiles !! name).

(** Source: internal/config/config.go:274-274 (at). *)
Definition at_ (name : string) (field : list seg) : list seg :=
  [SKey "processes"; SKey name] ++ field.

(** Source: internal/config/config.go:472-477 (validateProbe, kinds set). *)
Definition count_kinds (rw : ReadyWhen) : nat :=
  fold_left (λ n kind, if bool_decide (kind ≠ "") then S n else n)
    [rw_HTTP rw; rw_TCP rw; rw_Cmd rw; rw_Log rw] 0.

(** Source: internal/config/config.go:467-496 (validateProbe). *)
Definition validateProbe (name : string) (path : list seg) (rw : ReadyWhen) (allowLog : bool)
    : res ValidationError unit :=
  let field := FormatPath (drop 2 path) in
  let n := count_kinds rw in
  if negb allowLog then
    return_if bool_decide (n = 1) && negb (bool_decide (rw_Log rw = ""))
      with invalid CodeInvalidReadyWhen (path ++ [SKey "log"]) None
             "process %q: %s cannot use log (use http, tcp, or cmd)" [AStr name; AStr field] ;;
    return_if negb (bool_decide (n = 1))
      with invalid CodeInvalidReadyWhen path None
             "process %q: %s must specify exactly one of http, tcp, or cmd" [AStr name; AStr field] ;;
    Ok tt
  else
    return_if negb (bool_decide (n = 1))
      with invalid CodeInvalidReadyWhen path None
             "process %q: %s must specify exactly one of http, tcp, cmd, or log"
             [AStr name; AStr field] ;;
    if negb (bool_decide (rw_Log rw = "")) then
      match regexp_error (rw_Log rw) with
      | Some err =>
          Err (invalid CodeInvalidReadyWhen (path ++ [SKey "log"]) (Some err)
                 "process %q: %s.log is not a valid regex: %w" [AStr name; AStr field; AStr err])
      | None => Ok tt
      end
    else Ok tt.

(** Source: internal/config/config.go:432-465 (validateTeardown). *)
Definition validateTeardown (name : string) (proc : Process) : res ValidationError unit :=
  let refuse field :=
    invalid CodeTaskIncompatible (at_ name [SKey field]) None
      "process %q: mode: teardown cannot use %s" [AStr name; AStr field] in
  return_if bool_decide (p_ReadyWhen proc ≠ None) with refuse "ready_when" ;;
  return_if negb (p_ReadyTimeout proc =? 0)%Z with refuse "ready_timeout" ;;
  return_if negb (bool_decide (p_Restart proc = "never"))
    with invalid CodeTaskIncompatible (at_ name [SKey "restart"]) None
           "process %q: mode: teardown cannot use restart: %s (only restart: never is allowed)"
           [AStr name; AStr (p_Restart proc)] ;;
  return_if (0 <? p_MaxRestarts proc)%Z with refuse "max_restarts" ;;
  return_if bool_decide (p_HealthWhen proc ≠ None) with refuse "health_when" ;;
  return_if negb (p_HealthInterval proc =? 0)%Z with refuse "health_interval" ;;
  return_if negb (bool_decide (p_HealthAction proc = "")) with refuse "health_action" ;;
  return_if negb (bool_decide (p_ForeignListener proc = "")) with refuse "foreign_listener" ;;
  return_if (0 <? size (p_Ports proc)) with refuse "ports" ;;
  return_if (0 <? length (p_DependsOn proc)) with refuse "depends_on" ;;
  return_if (MaxTeardownShutdownTimeout <? p_ShutdownTimeout proc)%Z
    with invalid CodeInvalidValue (at_ name [SKey "shutdown_timeout"]) None
           "process %q: mode: teardown allows shutdown_timeout up to %d"
           [AStr name; AInt MaxTeardownShutdownTimeout] ;;
  Ok tt.

(** The task rules of [Load]'s loop.
    Source: internal/config/config.go:306-331 (Load, mode: task). *)
Definition validateTask (name : string) (proc : Process) : res ValidationError unit :=
  let refuse field format :=
    invalid CodeTaskIncompatible (at_ name [SKey field]) None format [AStr name] in
  return_if bool_decide (p_ReadyWhen proc ≠ None)
    with refuse "ready_when" "process %q: mode: task cannot use ready_when" ;;
  return_if negb (p_ReadyTimeout proc =? 0)%Z
    with refuse "ready_timeout" "process %q: mode: task cannot use ready_timeout" ;;
  return_if negb (bool_decide (p_Restart proc = "never"))
    with invalid CodeTaskIncompatible (at_ name [SKey "restart"]) None
           "process %q: mode: task cannot use restart: %s (only restart: never is allowed)"
           [AStr name; AStr (p_Restart proc)] ;;
  return_if (0 <? p_MaxRestarts proc)%Z
    with refuse "max_restarts" "process %q: mode: task cannot use max_restarts" ;;
  return_if bool_decide (p_HealthWhen proc ≠ None)
    with refuse "health_when" "process %q: mode: task cannot use health_when" ;;
  return_if negb (p_HealthInterval proc =? 0)%Z
    with refuse "health_interval" "process %q: mode: task cannot use health_interval" ;;
  return_if negb (bool_decide (p_HealthAction proc = ""))
    with refuse "health_action" "process %q: mode: task cannot use health_action" ;;
  return_if negb (bool_decide (p_ForeignListener proc = ""))
    with refuse "foreign_listener" "process %q: mode: task cannot use foreign_listener" ;;
  Ok tt.

(** Source: internal/config/config.go:498-523 (validateHealth). *)
Definition validateHealth (name : string) (proc : Process) : res ValidationError unit :=
  match p_HealthWhen proc with
  | None =>
      return_if negb (p_HealthInterval proc =? 0)%Z
        with invalid CodeInvalidValue (at_ name [SKey "health_interval"]) None
               "process %q: health_interval requires health_when" [AStr name] ;;
      return_if negb (bool_decide (p_HealthAction proc = ""))
        with invalid CodeInvalidValue (at_ name [SKey "health_action"]) None
               "process %q: health_action requires health_when" [AStr name] ;;
      Ok tt
  | Some hw =>
      check validateProbe name (at_ name [SKey "health_when"]) hw false ;;
      return_if (p_HealthInterval proc <? 0)%Z
        with invalid CodeInvalidValue (at_ name [SKey "health_interval"]) None
               "process %q: health_interval must be >= 0 (0 = default %d)"
               [AStr name; AInt DefaultHealthInterval] ;;
      return_if negb (bool_decide (p_HealthAction proc = ""))
                && negb (bool_decide (p_HealthAction proc ∈ HealthActions))
        with invalid CodeInvalidValue (at_ name [SKey "health_action"]) None
               "process %q: invalid health_action %q (use report or restart)"
               [AStr name; AStr (p_HealthAction proc)] ;;
      return_if bool_decide (p_HealthAction proc = HealthActionRestart)
                && bool_decide (p_Restart proc = "never")
        with invalid CodeInvalidValue (at_ name [SKey "health_action"]) None
               "process %q: health_action: restart needs restart: on-failure or always" [AStr name] ;;
      Ok tt
  end.

(** Source: internal/config/config.go:534-534 (socketProbe). *)
Definition socketProbe (rw : option ReadyWhen) : bool :=
  match rw with
  | Some rw => negb (bool_decide (rw_HTTP rw = "")) || negb (bool_decide (rw_TCP rw = ""))
  | None => false
  end.

(** Source: internal/config/config.go:525-539 (validateForeignListener). *)
Definition validateForeignListener (name : string) (proc : Process) : res ValidationError unit :=
  if bool_decide (p_ForeignListener proc = "") then Ok tt else
  return_if negb (bool_decide (p_ForeignListener proc ∈ ForeignListenerPolicies))
    with invalid CodeInvalidValue (at_ name [SKey "foreign_listener"]) None
           "process %q: invalid foreign_listener %q (use allow or reject)"
           [AStr name; AStr (p_ForeignListener proc)] ;;
  return_if negb (socketProbe (p_ReadyWhen proc)) && negb (socketProbe (p_HealthWhen proc))
    with invalid CodeInvalidValue (at_ name [SKey "foreign_listener"]) None
           "process %q: foreign_listener requires an http or tcp ready_when or health_when"
           [AStr name] ;;
  Ok tt.

(** The named-port rules of [Load]'s loop.
    Source: internal/config/config.go:276-285 (Load, named ports). *)
Definition validatePort (name : string) (proc : Process) (portName : string)
    : res ValidationError unit :=
  return_if negb (portNameRe portName)
    with invalid CodeInvalidPort (at_ name [SKey "ports"; SKey portName]) None
           "process %q: invalid port name %q (`.` is not allowed in port names)"
           [AStr name; AStr portName] ;;
  let preferred := default 0%Z (p_Ports proc !! portName) in
  return_if (preferred <? 0)%Z || (65535 <? preferred)%Z
    with invalid CodeInvalidPort (at_ name [SKey "ports"; SKey portName]) None
           "process %q: invalid named port %q (%d)" [AStr name; AStr portName; AInt preferred] ;;
  Ok tt.

(** Source: internal/config/config.go:292-294 (Load, restart default). *)
Definition default_restart (proc : Process) : Process :=
  if bool_decide (p_Restart proc = "") then set_Restart "never" proc else proc.

(** Source: internal/config/config.go:332-343 (Load, value ranges). *)
Definition validateRanges (name : string) (proc : Process) : res ValidationError unit :=
  return_if (p_MaxRestarts proc <? 0)%Z
    with invalid CodeInvalidValue (at_ name [SKey "max_restarts"]) None
           "process %q: max_restarts must be >= 0" [AStr name] ;;
  return_if (0 <? p_MaxRestarts proc)%Z && bool_decide (p_Restart proc = "never")
    with invalid CodeInvalidValue (at_ name [SKey "max_restarts"]) None
           "process %q: max_restarts has no effect with restart: never" [AStr name] ;;
  return_if (p_ShutdownTimeout proc <? 0)%Z
    with invalid CodeInvalidValue (at_ name [SKey "shutdown_timeout"]) None
           "process %q: shutdown_timeout must be >= 0" [AStr name] ;;
  return_if (p_ReadyTimeout proc <? -1)%Z
    with invalid CodeInvalidValue (at_ name [SKey "ready_timeout"]) None
           "process %q: ready_timeout must be >= -1 (-1 = no limit)" [AStr name] ;;
  Ok tt.

(** Source: internal/config/config.go:355-371 (Load, env_file merge). *)
Definition merge_env_file (envFiles : gmap string envFile) (name : string) (proc : Process)
    : res ValidationError Process :=
  if bool_decide (p_EnvFile proc = "") then Ok proc else
  match ef_err (env_at envFiles name) with
  | Some err => Err (invalid CodeEnvFile (at_ name [SKey "env_file"]) (Some err)
                       "process %q: %w" [AStr name; AStr err])
  | None =>
      let fileVars := ef_vars (env_at envFiles name) in
      if 0 <? size fileVars
      then Ok (set_Env (p_Env proc ∪ fileVars) proc)
      else Ok proc
  end.

(** The body of [Load]'s validation loop for one process.
    Source: internal/config/config.go:272-373 (Load, validation loop). *)
Definition validateProcess (envFiles : gmap string envFile) (name : string) (proc : Process)
    : res ValidationError Process :=
  check each_res (validatePort name proc) (SortedProcessNames (p_Ports proc)) ;;
  return_if negb (processNameRe name)
    with invalid CodeInvalidProcessName (at_ name []) None
           "process %q has an invalid name (must match [-A-Za-z0-9._], start/end with alphanumeric)"
           [AStr name] ;;
  return_if bool_decide (p_Cmd proc = "")
    with invalid CodeMissingCmd (at_ name []) None "process %q has no cmd" [AStr name] ;;
  let proc := default_restart proc in
  return_if negb (bool_decide (p_Restart proc ∈ RestartPolicies))
    with invalid CodeInvalidRestart (at_ name [SKey "restart"]) None
           "process %q has invalid restart policy %q (use never, on-failure, or always)"
           [AStr name; AStr (p_Restart proc)] ;;
  return_if negb (bool_decide (p_Mode proc = ""))
            && negb (bool_decide (p_Mode proc ∈ ProcessModes))
    with invalid CodeInvalidMode (at_ name [SKey "mode"]) None
           "process %q: invalid mode %q (use service, task, or teardown)"
           [AStr name; AStr (p_Mode proc)] ;;
  check (if bool_decide (p_Mode proc = ProcessModeTeardown)
         then validateTeardown name proc else Ok tt) ;;
  check (if bool_decide (p_Mode proc = ProcessModeTask)
         then validateTask name proc else Ok tt) ;;
  check validateRanges name proc ;;
  check (match p_ReadyWhen proc with
         | Some rw => validateProbe name (at_ name [SKey "ready_when"]) rw true
         | None => Ok tt
         end) ;;
  check validateHealth name proc ;;
  check validateForeignListener name proc ;;
  merge_env_file envFiles name proc.

(** The loop over the processes in name order; [cfg.Processes[name] = proc]
    stores each normalised definition.
    Source: internal/config/config.go:271-373 (Load, validation loop). *)
Definition validateProcesses (envFiles : gmap string envFile) (procs : gmap string Process)
    : res ValidationError (gmap string Process) :=
  fold_res (λ procs name,
      res_bind (λ proc, Ok (<[name := proc]> procs))
               (validateProcess envFiles name (proc_at procs name)))
    (SortedProcessNames procs) procs.

End validate.

(** ** What the rules mean *)

(** The four probe kinds and the field each one sets. *)
Inductive ProbeKind : Type := ProbeHTTP | ProbeTCP | ProbeCmd | ProbeLog.

Definition probe_field (rw : ReadyWhen) (k : ProbeKind) : string :=
  match k with
  | ProbeHTTP => rw_HTTP rw | ProbeTCP => rw_TCP rw
  | ProbeCmd => rw_Cmd rw | ProbeLog => rw_Log rw
  end.

(** Exactly the kind [k] is set. *)
Definition probe_is (rw : ReadyWhen) (k : ProbeKind) : Prop :=
  ∀ k', probe_field rw k' ≠ "" ↔ k' = k.

(** A process that runs once has no readiness, restarts or health checks. *)
Record RunOnce (p : Process) : Prop := {
  ro_ready : p_ReadyWhen p = None;
  ro_timeout : p_ReadyTimeout p = 0%Z;
  ro_restart : p_Restart p ∈ [""; "never"];
  ro_max : p_MaxRestarts p = 0%Z;
  ro_health : p_HealthWhen p = None;
  ro_interval : p_HealthInterval p = 0%Z;
  ro_action : p_HealthAction p = "";
  ro_foreign : p_ForeignListener p = "";
}.

(** The restart policy a definition stands for. *)
Definition EffectiveRestart (p : Process) : string :=
  if bool_decide (p_Restart p = "") then "never" else p_Restart p.

Section spec.
Context (regexp_error : string → option string) (envFiles : gmap string envFile).

(** A definition every rule accepts. *)
Record ProcessValid (name : string) (p : Process) : Prop := {
  pv_port_names : ∀ pn port, p_Ports p !! pn = Some port → portNameRe pn = true;
  pv_port_range : ∀ pn port, p_Ports p !! pn = Some port → (0 ≤ port ≤ 65535)%Z;
  pv_name : processNameRe name = true;
  pv_cmd : p_Cmd p ≠ "";
  pv_restart : EffectiveRestart p ∈ RestartPolicies;
  pv_mode : EffectiveMode p ∈ ProcessModes;
  pv_once : EffectiveMode p ≠ ProcessModeService → RunOnce p;
  pv_teardown : EffectiveMode p = ProcessModeTeardown →
    p_Ports p = ∅ ∧ p_DependsOn p = [] ∧ (p_ShutdownTimeout p ≤ MaxTeardownShutdownTimeout)%Z;
  pv_max : (0 ≤ p_MaxRestarts p)%Z;
  pv_max_restart : (0 < p_MaxRestarts p)%Z → EffectiveRestart p ≠ "never";
  pv_shutdown : (0 ≤ p_ShutdownTimeout p)%Z;
  pv_timeout : (-1 ≤ p_ReadyTimeout p)%Z;
  pv_ready : ∀ rw, p_ReadyWhen p = Some rw →
    (∃ k, probe_is rw k) ∧ (rw_Log rw ≠ "" → regexp_error (rw_Log rw) = None);
  pv_health : ∀ hw, p_HealthWhen p = Some hw →
    (∃ k, probe_is hw k ∧ k ≠ ProbeLog) ∧ (0 ≤ p_HealthInterval p)%Z ∧
    p_HealthAction p ∈ "" :: HealthActions ∧
    (p_HealthAction p = HealthActionRestart → EffectiveRestart p ≠ "never");
  pv_no_health : p_HealthWhen p = None → p_HealthInterval p = 0%Z ∧ p_HealthAction p = "";
  pv_foreign : p_ForeignListener p ≠ "" →
    p_ForeignListener p ∈ ForeignListenerPolicies ∧
    ∃ rw, (p_ReadyWhen p = Some rw ∨ p_HealthWhen p = Some rw) ∧
          (rw_HTTP rw ≠ "" ∨ rw_TCP rw ≠ "");
  pv_env_file : p_EnvFile p ≠ "" → ef_err (env_at envFiles name) = None;
}.

(** What the loop stores for an accepted definition: the restart default, and
    the env block over the env_file. *)
Definition normalise (name : string) (p : Process) : Process :=
  let p := default_restart p in
  if bool_decide (p_EnvFile p = "") then p
  else set_Env (p_Env p ∪ ef_vars (env_at envFiles name)) p.

(** ** Lemmas on the single rules *)

Lemma count_set_kinds rw : count_kinds rw = 1 ↔ ∃ k, probe_is rw k.
Proof.
  destruct rw as [h t c l]. unfold probe_is, count_kinds.
  cbn [fold_left rw_HTTP rw_TCP rw_Cmd rw_Log]. split.
  - repeat case_bool_decide; intros Hn; try done;
      [exists ProbeLog|exists ProbeCmd|exists ProbeTCP|exists ProbeHTTP];
      intros []; cbn; naive_solver.
  - intros [k Hk].
    pose proof (Hk ProbeHTTP); pose proof (Hk ProbeTCP);
    pose proof (Hk ProbeCmd); pose proof (Hk ProbeLog). cbn in *.
    destruct k; repeat case_bool_decide; naive_solver.
Qed.

Lemma probe_is_log rw k : probe_is rw k → k = ProbeLog ↔ rw_Log rw ≠ "".
Proof. intros H. specialize (H ProbeLog). cbn in H. naive_solver. Qed.

Lemma validateProbe_true name path rw :
  validateProbe regexp_error name path rw true = Ok tt ↔
  (∃ k, probe_is rw k) ∧ (rw_Log rw ≠ "" → regexp_error (rw_Log rw) = None).
Proof.
  unfold validateProbe. cbn [negb]. rewrite return_if_Ok, negb_false_iff, bool_decide_eq_true,
    count_set_kinds.
  generalize (∃ k, probe_is rw k). intros K.
  case_bool_decide; cbn; [|destruct (regexp_error _)]; intuition congruence.
Qed.

Lemma validateProbe_false name path rw :
  validateProbe regexp_error name path rw false = Ok tt ↔ ∃ k, probe_is rw k ∧ k ≠ ProbeLog.
Proof.
  unfold validateProbe. cbn [negb].
  rewrite !return_if_Ok, andb_false_iff, !negb_false_iff, bool_decide_eq_false,
    !bool_decide_eq_true, count_set_kinds.
  split.
  - intros ([Hn|Hl] & [k Hk] & _); [destruct Hn; by eauto|].
    exists k. split; [done|]. rewrite (probe_is_log rw) by done. naive_solver.
  - intros (k & Hk & Hne). rewrite (probe_is_log rw) in Hne by done.
    split; [right; destruct (decide (rw_Log rw = "")); naive_solver|]. eauto.
Qed.

Lemma validatePort_Ok name p pn port : p_Ports p !! pn = Some port →
  validatePort name p pn = Ok tt ↔ portNameRe pn = true ∧ (0 ≤ port ≤ 65535)%Z.
Proof.
  intros Hp. unfold validatePort. rewrite Hp. cbn [default]. rewrite !return_if_Ok. gobool.
  naive_solver lia.
Qed.

Lemma validatePorts_Ok name p :
  each_res (validatePort name p) (SortedProcessNames (p_Ports p)) = Ok tt ↔
  (∀ pn port, p_Ports p !! pn = Some port → portNameRe pn = true ∧ (0 ≤ port ≤ 65535)%Z).
Proof.
  rewrite each_res_Ok. setoid_rewrite elem_of_SortedProcessNames. split.
  - intros H pn port Hp. rewrite <-(validatePort_Ok name p) by done. apply H. by eexists.
  - intros H pn [port Hp]. rewrite (validatePort_Ok _ _ _ _ Hp). eauto.
Qed.

Lemma default_restart_eq p : default_restart p = set_Restart (EffectiveRestart p) p.
Proof.
  unfold default_restart, EffectiveRestart. case_bool_decide; [done|]. by destruct p.
Qed.

(** What the mode checks ask for beyond the ranges. *)
Definition once_fields (p : Process) : Prop :=
  p_ReadyWhen p = None ∧ p_ReadyTimeout p = 0%Z ∧ p_Restart p = "never" ∧
  (p_MaxRestarts p ≤ 0)%Z ∧ p_HealthWhen p = None ∧ p_HealthInterval p = 0%Z ∧
  p_HealthAction p = "" ∧ p_ForeignListener p = "".

Ltac rule_Ok := rewrite ?return_if_Ok; gobool.

Lemma bool_decide_ne_None {A} `{EqDecision A} (o : option A) :
  bool_decide (o ≠ None) = false ↔ o = None.
Proof. rewrite bool_decide_eq_false. destruct o; naive_solver. Qed.

Lemma validateTask_Ok name p : validateTask name p = Ok tt ↔ once_fields p.
Proof.
  unfold validateTask, once_fields. rewrite !return_if_Ok, !bool_decide_ne_None. gobool.
  naive_solver.
Qed.

Lemma validateTeardown_Ok name p :
  validateTeardown name p = Ok tt ↔
  once_fields p ∧ p_Ports p = ∅ ∧ p_DependsOn p = [] ∧
  (p_ShutdownTimeout p ≤ MaxTeardownShutdownTimeout)%Z.
Proof.
  unfold validateTeardown, once_fields. rewrite !return_if_Ok, !bool_decide_ne_None.
  rewrite !Nat.ltb_ge, !Nat.le_0_r, map_size_empty_iff, length_zero_iff_nil. gobool.
  naive_solver.
Qed.

Lemma validateRanges_Ok name p :
  validateRanges name p = Ok tt ↔
  (0 ≤ p_MaxRestarts p)%Z ∧ ((0 < p_MaxRestarts p)%Z → p_Restart p ≠ "never") ∧
  (0 ≤ p_ShutdownTimeout p)%Z ∧ (-1 ≤ p_ReadyTimeout p)%Z.
Proof.
  unfold validateRanges. rewrite !return_if_Ok. gobool.
  destruct (decide (p_Restart p = "never")), (decide (0 < p_MaxRestarts p)%Z); intuition lia.
Qed.

Lemma validateHealth_Ok name p :
  validateHealth regexp_error name p = Ok tt ↔
  (∀ hw, p_HealthWhen p = Some hw →
    (∃ k, probe_is hw k ∧ k ≠ ProbeLog) ∧ (0 ≤ p_HealthInterval p)%Z ∧
    p_HealthAction p ∈ "" :: HealthActions ∧
    (p_HealthAction p = HealthActionRestart → p_Restart p ≠ "never")) ∧
  (p_HealthWhen p = None → p_HealthInterval p = 0%Z ∧ p_HealthAction p = "").
Proof.
  unfold validateHealth. destruct (p_HealthWhen p) as [hw|].
  - rewrite check_Ok, validateProbe_false, !return_if_Ok. gobool.
    split.
    + intros (Hk & Hi & Ha & Hr & _). split; [|done]. intros ? [= <-].
      split_and!; [done|done|rewrite elem_of_cons; tauto|]. intros. destruct Hr; tauto.
    + intros [H _]. destruct (H hw eq_refl) as (? & ? & Ha & ?).
      rewrite elem_of_cons in Ha. split_and!; try tauto.
      destruct (decide (p_HealthAction p = HealthActionRestart)); tauto.
  - rewrite !return_if_Ok. gobool. naive_solver.
Qed.

Lemma socketProbe_true rw :
  socketProbe rw = true ↔ ∃ r, rw = Some r ∧ (rw_HTTP r ≠ "" ∨ rw_TCP r ≠ "").
Proof. unfold socketProbe. destruct rw; [gobool|]; naive_solver. Qed.

Lemma validateForeignListener_Ok name p :
  validateForeignListener name p = Ok tt ↔
  (p_ForeignListener p ≠ "" →
    p_ForeignListener p ∈ ForeignListenerPolicies ∧
    ∃ rw, (p_ReadyWhen p = Some rw ∨ p_HealthWhen p = Some rw) ∧
          (rw_HTTP rw ≠ "" ∨ rw_TCP rw ≠ "")).
Proof.
  unfold validateForeignListener. case_bool_decide as Hf; [naive_solver|].
  rewrite !return_if_Ok, andb_false_iff, !negb_false_iff, bool_decide_eq_true, !socketProbe_true.
  naive_solver.
Qed.

Lemma merge_env_file_Ok name p p' :
  merge_env_file envFiles name p = Ok p' ↔
  (p_EnvFile p ≠ "" → ef_err (env_at envFiles name) = None) ∧
  p' = (if bool_decide (p_EnvFile p = "") then p
        else set_Env (p_Env p ∪ ef_vars (env_at envFiles name)) p).
Proof.
  unfold merge_env_file. case_bool_decide as He; [naive_solver|].
  destruct (ef_err (env_at envFiles name)); [naive_solver|].
  destruct (0 <? _) eqn:Hs; [naive_solver|].
  apply Nat.ltb_ge, Nat.le_0_r, map_size_empty_iff in Hs. rewrite Hs, map_union_empty.
  assert (set_Env (p_Env p) p = p) as -> by by destruct p. naive_solver.
Qed.

Lemma mode_cases p :
  (p_Mode p = "" ∨ p_Mode p ∈ ProcessModes) ↔ EffectiveMode p ∈ ProcessModes.
Proof. unfold EffectiveMode. case_bool_decide as H; [rewrite H|]; set_solver. Qed.

Lemma once_default_restart p :
  (0 ≤ p_MaxRestarts p)%Z → once_fields (default_restart p) ↔ RunOnce p.
Proof.
  intros Hm. unfold once_fields. split.
  - intros (?&?&Hr&?&?&?&?&?). unfold default_restart in *.
    destruct p; cbn in *. case_bool_decide; cbn in *; subst; split; cbn; try done; try lia;
      set_solver.
  - intros [? ? Hr ? ? ? ? ?]. unfold default_restart. destruct p; cbn in *.
    case_bool_decide; cbn; repeat split; try done; try lia. set_solver.
Qed.

Lemma mode_rules p (X : Prop) :
  EffectiveMode p ∈ ProcessModes → (0 ≤ p_MaxRestarts p)%Z →
  (p_Mode p = ProcessModeTeardown → once_fields (set_Restart (EffectiveRestart p) p) ∧ X) ∧
  (p_Mode p = ProcessModeTask → once_fields (set_Restart (EffectiveRestart p) p)) ↔
  (EffectiveMode p ≠ ProcessModeService → RunOnce p) ∧
  (EffectiveMode p = ProcessModeTeardown → X).
Proof.
  intros Hm Hmax. rewrite <-default_restart_eq, once_default_restart by done.
  unfold EffectiveMode in *. case_bool_decide as He; [rewrite He; naive_solver|].
  unfold ProcessModes in Hm. rewrite !elem_of_cons in Hm.
  destruct Hm as [Hm|[Hm|[Hm|Hm%not_elem_of_nil]]]; [..|done]; rewrite Hm; naive_solver.
Qed.

Lemma ready_when_Ok name p :
  (match p_ReadyWhen p with
   | Some rw => validateProbe regexp_error name (at_ name [SKey "ready_when"]) rw true
   | None => Ok tt
   end) = Ok tt ↔
  (∀ rw, p_ReadyWhen p = Some rw →
    (∃ k, probe_is rw k) ∧ (rw_Log rw ≠ "" → regexp_error (rw_Log rw) = None)).
Proof.
  destruct (p_ReadyWhen p) as [rw|]; [rewrite validateProbe_true|]; naive_solver.
Qed.

Lemma mode_task_Ok name p :
  (if bool_decide (p_Mode p = ProcessModeTask) then validateTask name p else Ok tt) = Ok tt ↔
  (p_Mode p = ProcessModeTask → once_fields p).
Proof. case_bool_decide; [rewrite validateTask_Ok|]; naive_solver. Qed.

Lemma mode_teardown_Ok name p :
  (if bool_decide (p_Mode p = ProcessModeTeardown) then validateTeardown name p else Ok tt) = Ok tt ↔
  (p_Mode p = ProcessModeTeardown →
    once_fields p ∧ p_Ports p = ∅ ∧ p_DependsOn p = [] ∧
    (p_ShutdownTimeout p ≤ MaxTeardownShutdownTimeout)%Z).
Proof. case_bool_decide; [rewrite validateTeardown_Ok|]; naive_solver. Qed.

(** The validation of a process is sound and complete for the declarative
    rules: it accepts exactly the definitions that satisfy [ProcessValid], and
    stores exactly their normalised form (restart default, env block over the
    env_file). *)
Theorem validateProcess_spec name p p' :
  validateProcess regexp_error envFiles name p = Ok p' ↔
  ProcessValid name p ∧ p' = normalise name p.
Proof.
  unfold validateProcess.
  rewrite check_Ok, validatePorts_Ok, !return_if_Ok, !check_Ok, merge_env_file_Ok,
    validateRanges_Ok, validateHealth_Ok, validateForeignListener_Ok, andb_false_iff,
    !negb_false_iff, !bool_decide_eq_true, bool_decide_eq_false.
  rewrite ready_when_Ok, mode_task_Ok, mode_teardown_Ok.
  rewrite default_restart_eq. unfold normalise. rewrite default_restart_eq.
  cbn. split.
  - intros (Hports & ? & ? & ? & Hmode & Htd & Htask & (Hmax & ? & ? & ?) & ? & [? ?] & ? & ? & ->).
    apply mode_cases in Hmode. split; [|done].
    destruct (proj1 (mode_rules p _ Hmode Hmax) (conj Htd Htask)) as [? ?].
    constructor; try done; intros pn port Hp; by apply (Hports pn port Hp).
  - intros [[] ->]. split_and!; try done; [by eauto|by apply mode_cases|..];
      by apply (mode_rules p (p_Ports p = ∅ ∧ p_DependsOn p = [] ∧
                               (p_ShutdownTimeout p ≤ MaxTeardownShutdownTimeout)%Z)).
Qed.

Lemma validate_loop l procs procs' :
  NoDup l → (∀ k, k ∈ l → is_Some (procs !! k)) →
  fold_res (λ procs name,
      res_bind (λ proc, Ok (<[name := proc]> procs))
               (validateProcess regexp_error envFiles name (proc_at procs name))) l procs
    = Ok procs' ↔
  (∀ k p, k ∈ l → procs !! k = Some p → ProcessValid k p) ∧
  (∀ k, procs' !! k = if decide (k ∈ l) then normalise k <$> procs !! k else procs !! k).
Proof.
  revert procs; induction l as [|name l IH]; intros procs Hnd Hin; cbn [fold_res].
  { split.
    - intros [= <-]. split; [|done]. by intros k p H%not_elem_of_nil.
    - intros [_ H]. f_equal. apply map_eq. intros k. rewrite H.
      by rewrite decide_False by apply not_elem_of_nil. }
  apply NoDup_cons in Hnd as [Hn Hnd].
  destruct (Hin name (list_elem_of_here _ _)) as [p Hp].
  assert (proc_at procs name = p) as -> by (unfold proc_at; by rewrite Hp).
  assert (Hother : ∀ q k, k ∈ l → <[name:=q]> procs !! k = procs !! k).
  { intros q k Hk. rewrite lookup_insert_ne; [done|]. by intros ->. }
  rewrite res_bind_Ok. setoid_rewrite res_bind_Ok.
  split.
  - intros (procs1 & (q & Hq & [= <-]) & Hf).
    apply validateProcess_spec in Hq as [Hv ->].
    apply IH in Hf as [Hall Heq]; [|done|].
    2:{ intros k Hk. rewrite Hother by done. apply Hin. by apply list_elem_of_further. }
    split.
    + intros k p' [->|Hk]%elem_of_cons Hkp; [by simplify_eq|].
      apply Hall; [done|]. by rewrite Hother.
    + intros k. rewrite Heq, decide_elem_of_cons. destruct (decide (k = name)) as [->|Hne].
      * destruct (decide (name ∈ l)); [done|]. by rewrite lookup_insert_eq, Hp.
      * by rewrite lookup_insert_ne.
  - intros [Hall Heq].
    assert (ProcessValid name p) as Hv by (apply Hall; [apply list_elem_of_here|done]).
    exists (<[name := normalise name p]> procs). split.
    { exists (normalise name p). split; [by apply validateProcess_spec|done]. }
    apply IH; [done| |split].
    + intros k Hk. rewrite Hother by done. apply Hin. by apply list_elem_of_further.
    + intros k p' Hk. rewrite Hother by done. apply Hall. by apply list_elem_of_further.
    + intros k. rewrite Heq, decide_elem_of_cons. destruct (decide (k = name)) as [->|Hne].
      * destruct (decide (name ∈ l)); [done|]. by rewrite lookup_insert_eq, Hp.
      * by rewrite lookup_insert_ne.
Qed.

Lemma validateProcesses_Ok procs procs' :
  validateProcesses regexp_error envFiles procs = Ok procs' ↔
  (∀ name p, procs !! name = Some p → ProcessValid name p) ∧
  procs' = map_imap (λ name p, Some (normalise name p)) procs.
Proof.
  unfold validateProcesses.
  rewrite validate_loop; [|apply NoDup_SortedProcessNames|intros k; apply elem_of_SortedProcessNames].
  assert (∀ k, procs' !! k = map_imap (λ name p, Some (normalise name p)) procs !! k ↔
    procs' !! k = if decide (k ∈ SortedProcessNames procs)
                  then normalise k <$> procs !! k else procs !! k) as Hk.
  { intros k. rewrite map_lookup_imap.
    case_decide as Hd; rewrite elem_of_SortedProcessNames in Hd.
    - destruct Hd as [p ->]. done.
    - rewrite <-eq_None_not_Some in Hd. by rewrite Hd. }
  split; intros [Hall Heq]; split.
  - intros name p Hp. apply Hall; [|done]. apply elem_of_SortedProcessNames. by eexists.
  - apply map_eq. intros k. by apply Hk, Heq.
  - intros k p _. apply Hall.
  - intros k. apply Hk. by rewrite Heq.
Qed.

(** The validation loop over all processes accepts exactly the process maps
    whose every definition is valid, and returns the map of their normalised
    forms; no process is added, dropped or left unvalidated. *)
Theorem validateProcesses_spec procs procs' :
  validateProcesses regexp_error envFiles procs = Ok procs' ↔
  (∀ name p, procs !! name = Some p → ProcessValid name p) ∧
  procs' = map_imap (λ name p, Some (normalise name p)) procs.
Proof. apply validateProcesses_Ok. Qed.

End spec.
