(* ===== verification/ConfigGraph.v ===== *)
(** * The dependency graph: selection and cycle detection

    [SelectedNames] (the one dependency closure used by planning, startup and
    readiness waiting), [TeardownNames], [CheckSelector] and the three-colour
    depth-first search [detectCycles].  Go iterates a map in an unspecified
    order, so the functions take that order as an argument and the theorems
    hold for every order. *)

From S2P Require Import Prelude GoStrings ConfigTypes.

(** [depends_on] as a relation; an unknown name has no dependencies. *)
Definition edge (procs : gmap string Process) (a b : string) : Prop :=
  b ∈ p_DependsOn (proc_at procs a).

#[export] Instance edge_dec procs : RelDecision (edge procs).
Proof. intros a b. unfold edge. apply _. Defined.

(** ** Selection *)

(** The recursive closure [include] of [SelectedNames]; [selected] is the Go
    map.  Every call that recurses has added a configured name, so one unit of
    fuel per configured process, plus one, is enough.
    Source: internal/config/config.go:568-581 (SelectedNames, include). *)
Fixpoint include (fuel : nat) (procs : gmap string Process) (selected : gset string)
    (name : string) : gset string :=
  match fuel with
  | O => selected
  | S fuel =>
      if bool_decide (name ∈ selected) then selected
      else match procs !! name with
           | None => selected
           | Some proc =>
               if bool_decide (p_Mode proc = ProcessModeTeardown) then selected
               else fold_left (include fuel procs) (p_DependsOn proc) ({[name]} ∪ selected)
           end
  end.

(** Source: internal/config/config.go:563-597 (SelectedNames). *)
Definition SelectedNames (order : list string) (cfg : Config) (filter : list string)
    : list string :=
  let procs := c_Processes cfg in
  let selected :=
    fold_left (include (S (size procs)) procs)
      (if bool_decide (length filter = 0) then order else filter) ∅ in
  sort_strings (elements selected).

(** Source: internal/config/config.go:599-610 (TeardownNames). *)
Definition TeardownNames (order : list string) (cfg : Config) : list string :=
  sort_strings (base.filter
    (λ name, p_Mode (proc_at (c_Processes cfg) name) = ProcessModeTeardown) order).

(** The two refusals of [CheckSelector]; [None] when the name can be selected.
    Source: internal/config/config.go:612-623 (CheckSelector). *)
Definition CheckSelector (cfg : Config) (name : string) : option (string * list arg) :=
  match c_Processes cfg !! name with
  | None => Some ("unknown process %q", [AStr name])
  | Some proc =>
      if bool_decide (p_Mode proc = ProcessModeTeardown)
      then Some ("process %q is a teardown process; it runs only after the stack stops and cannot be selected",
                 [AStr name])
      else None
  end.

(** ** Cycle detection *)

(** Source: internal/config/config.go:627-631 (detectCycles, colours). *)
Inductive color : Type := white | gray | black.

#[export] Instance color_eq_dec : EqDecision color.
Proof. solve_decision. Defined.

(** The variables the closure [visit] shares: [color] (zero value [white]) and
    the current [path].
    Source: internal/config/config.go:633-634 (detectCycles, state). *)
Record dfs : Type := mkDfs { d_color : gmap string color; d_path : list string }.

Definition color_of (d : dfs) (n : string) : color := default white (d_color d !! n).

(** The part of the reversed path up to and including [dep].
    Source: internal/config/config.go:645-650 (detectCycles, cycle loop). *)
Fixpoint back_to (dep : string) (rpath : list string) : list string :=
  match rpath with
  | [] => []
  | x :: l => if bool_decide (x = dep) then [x] else x :: back_to dep l
  end.

(** The reported cycle, from [dep] forward to [dep].
    Source: internal/config/config.go:643-654 (detectCycles, cycle). *)
Definition cycle_of (path : list string) (dep : string) : list string :=
  rev (dep :: back_to dep (rev path)).

(** [slices.Index] *)
Definition index_of (l : list string) (x : string) : Z :=
  match list_find (x =.) l with Some (i, _) => Z.of_nat i | None => -1 end.

(** Source: internal/config/config.go:655-655 (detectCycles, error). *)
Definition cycle_error (procs : gmap string Process) (name dep : string) (path : list string)
    : ValidationError :=
  invalid CodeDependencyCycle
    [SKey "processes"; SKey name; SKey "depends_on";
     SIdx (index_of (p_DependsOn (proc_at procs name)) dep)] None
    "circular dependency: %s" [AStr (join " -> " (cycle_of path dep))].

(** The closure [visit].  A call is made on a white name only and turns it
    gray, so one unit of fuel per name of the graph is enough.
    Source: internal/config/config.go:636-666 (detectCycles, visit). *)
Fixpoint visit (fuel : nat) (procs : gmap string Process) (name : string) (d : dfs)
    : res ValidationError dfs :=
  match fuel with
  | O => Ok d
  | S fuel =>
      let d := mkDfs (<[name := gray]> (d_color d)) (d_path d ++ [name]) in
      res_bind (λ d, Ok (mkDfs (<[name := black]> (d_color d)) (removelast (d_path d))))
        (fold_res (λ d dep,
             match color_of d dep with
             | gray => Err (cycle_error procs name dep (d_path d))
             | white => visit fuel procs dep d
             | black => Ok d
             end) (p_DependsOn (proc_at procs name)) d)
  end.

(** Every name the search can reach. *)
Definition graph_nodes (procs : gmap string Process) : gset string :=
  dom procs ∪ map_fold (λ _ p acc, list_to_set (p_DependsOn p) ∪ acc) ∅ procs.

(** Source: internal/config/config.go:625-682 (detectCycles). *)
Definition detectCycles (procs : gmap string Process) : res ValidationError unit :=
  res_bind (λ _, Ok tt)
    (fold_res (λ d name,
         match color_of d name with
         | white => visit (size (graph_nodes procs)) procs name d
         | _ => Ok d
         end) (SortedProcessNames procs) (mkDfs ∅ [])).

(** ** Selection: the closure is exact *)

Section selection.
Context (procs : gmap string Process).

(** A configured process that is not a teardown one. *)
Definition selectable (n : string) : Prop :=
  ∃ p, procs !! n = Some p ∧ p_Mode p ≠ ProcessModeTeardown.

(** The names reachable from [roots] through [depends_on], all selectable. *)
Inductive Selected (roots : list string) : string → Prop :=
  | selected_root n : n ∈ roots → selectable n → Selected roots n
  | selected_dep n d : Selected roots n → edge procs n d → selectable d → Selected roots d.

Lemma selectable_dom n : selectable n → n ∈ dom procs.
Proof. intros (p & Hp & _). by apply elem_of_dom_2 in Hp. Qed.

(** [S'] extends [S] and whatever it adds has its dependencies in [S']. *)
Definition closed_step (S S' : gset string) : Prop :=
  S ⊆ S' ∧ ∀ x d, x ∈ S' → x ∉ S → edge procs x d → selectable d → d ∈ S'.

Lemma closed_step_trans S1 S2 S3 :
  closed_step S1 S2 → closed_step S2 S3 → closed_step S1 S3.
Proof.
  intros [H1 C1] [H2 C2]. split; [set_solver|].
  intros x d Hx Hnx He Hd. destruct (decide (x ∈ S2)) as [Hx2|Hx2]; [|by eauto].
  apply H2. by eauto.
Qed.

(** The names [include] can still add. *)
Definition unselected (S : gset string) : gset string := dom procs ∖ S.

Lemma include_spec fuel S n :
  size (unselected S) < fuel →
  closed_step S (include fuel procs S n) ∧
  (selectable n → n ∈ include fuel procs S n).
Proof.
  revert S n; induction fuel as [|fuel IH]; intros S n Hfuel; [lia|]. cbn [include].
  case_bool_decide as Hin; [repeat split; set_solver|].
  destruct (procs !! n) as [p|] eqn:Hp.
  2:{ split; [repeat split; set_solver|]. intros (p & ? & _). congruence. }
  case_bool_decide as Hm.
  { split; [repeat split; set_solver|]. intros (q & ? & ?). congruence. }
  set (S1 := {[n]} ∪ S).
  assert (size (unselected S1) < fuel) as Hf1.
  { assert (n ∈ dom procs) by by eapply elem_of_dom_2.
    assert (size (unselected S1) < size (unselected S)); [|lia].
    apply (size_strict_subset _ _ n); unfold unselected; set_solver. }
  assert (∀ l S2, S1 ⊆ S2 →
    closed_step S2 (fold_left (include fuel procs) l S2) ∧
    ∀ d, d ∈ l → selectable d → d ∈ fold_left (include fuel procs) l S2) as Hfold.
  { induction l as [|a l IHl]; intros S2 HS2; cbn [fold_left].
    - split; [repeat split; set_solver|]. by intros d Hd%not_elem_of_nil.
    - destruct (IH S2 a) as [Hc Ha].
      { eapply Nat.le_lt_trans; [|apply Hf1]. apply subseteq_size. unfold unselected. set_solver. }
      destruct (IHl (include fuel procs S2 a)) as [Hc2 Hl]; [destruct Hc; set_solver|].
      split; [by eapply closed_step_trans|].
      intros d [->|Hd]%elem_of_cons Hs; [|by auto]. destruct Hc2 as [Hsub _]. auto. }
  destruct (Hfold (p_DependsOn p) S1) as [[Hsub Hcl] Hdeps]; [done|].
  split; [|intros _; set_solver]. split; [set_solver|].
  intros x d Hx Hnx He Hd. destruct (decide (x = n)) as [->|Hne].
  - apply Hdeps; [|done]. unfold edge, proc_at in He. by rewrite Hp in He.
  - apply (Hcl x d); set_solver.
Qed.

Lemma include_sound roots fuel S n :
  (∀ x, x ∈ S → Selected roots x) → (selectable n → Selected roots n) →
  ∀ x, x ∈ include fuel procs S n → Selected roots x.
Proof.
  revert S n; induction fuel as [|fuel IH]; intros S n HS Hn; cbn [include]; [done|].
  case_bool_decide; [done|]. destruct (procs !! n) as [p|] eqn:Hp; [|done].
  case_bool_decide; [done|].
  assert (Selected roots n) as Hsel by (apply Hn; by exists p).
  apply (fold_left_invariant (λ S, ∀ x, x ∈ S → Selected roots x)); [set_solver|].
  intros S2 d Hd HS2. apply IH; [done|]. intros Hs. eapply selected_dep; [done| |done].
  unfold edge, proc_at. by rewrite Hp.
Qed.

(** The visited set after the root loop. *)
Lemma include_roots roots :
  ∀ x, x ∈ fold_left (include (S (size procs)) procs) roots ∅ ↔ Selected roots x.
Proof.
  intros x. split.
  - revert x. apply (fold_left_invariant (λ S, ∀ x, x ∈ S → Selected roots x)); [set_solver|].
    intros S2 n Hn HS2. apply include_sound; [done|]. by apply selected_root.
  - assert (∀ l S2, closed_step S2 (fold_left (include (S (size procs)) procs) l S2) ∧
      ∀ n, n ∈ l → selectable n → n ∈ fold_left (include (S (size procs)) procs) l S2) as Hfold.
    { induction l as [|a l IHl]; intros S2; cbn [fold_left].
      - split; [repeat split; set_solver|]. by intros d Hd%not_elem_of_nil.
      - destruct (include_spec (S (size procs)) S2 a) as [Hc Ha].
        { rewrite <-size_dom. apply Nat.lt_succ_r, subseteq_size. unfold unselected. set_solver. }
        destruct (IHl (include (S (size procs)) procs S2 a)) as [Hc2 Hl].
        split; [by eapply closed_step_trans|].
        intros d [->|Hd]%elem_of_cons Hs; [|by auto]. destruct Hc2 as [Hsub _]. auto. }
    destruct (Hfold roots ∅) as [[_ Hcl] Hroots].
    induction 1 as [n Hn Hs|n d _ IH He Hd]; [by auto|]. apply (Hcl n d); set_solver.
Qed.
End selection.

Lemma Selected_roots procs roots1 roots2 n :
  (∀ x, x ∈ roots1 ↔ x ∈ roots2) → Selected procs roots1 n ↔ Selected procs roots2 n.
Proof.
  intros H. split; induction 1 as [x Hx Hs|x d _ IH He Hd];
    try (by eapply selected_dep); apply selected_root; try done; by apply H.
Qed.

(** The names [SelectedNames] starts from. *)
Definition selection_roots (order filter : list string) : list string :=
  if bool_decide (length filter = 0) then order else filter.

Lemma elem_of_SelectedNames order cfg filter n :
  n ∈ SelectedNames order cfg filter ↔
  Selected (c_Processes cfg) (selection_roots order filter) n.
Proof. unfold SelectedNames. by rewrite elem_of_sort_strings, elem_of_elements, include_roots. Qed.

Lemma selection_roots_order order1 order2 filter x :
  order1 ≡ₚ order2 → x ∈ selection_roots order1 filter ↔ x ∈ selection_roots order2 filter.
Proof. intros Hp. unfold selection_roots. case_bool_decide; [by rewrite Hp|done]. Qed.

Lemma SelectedNames_NoDup order cfg filter : NoDup (SelectedNames order cfg filter).
Proof. unfold SelectedNames. rewrite sort_strings_perm. apply NoDup_elements. Qed.

Lemma SelectedNames_order_indep cfg order1 order2 filter :
  order1 ≡ₚ order2 → SelectedNames order1 cfg filter = SelectedNames order2 cfg filter.
Proof.
  intros Hp. apply (StronglySorted_unique str_le); [apply sort_strings_sorted..|].
  apply NoDup_Permutation; [apply SelectedNames_NoDup..|].
  intros n. rewrite !elem_of_SelectedNames. apply Selected_roots.
  intros x. by apply selection_roots_order.
Qed.

Lemma SelectedNames_closed cfg order filter n d :
  n ∈ SelectedNames order cfg filter → edge (c_Processes cfg) n d →
  selectable (c_Processes cfg) d → d ∈ SelectedNames order cfg filter.
Proof. rewrite !elem_of_SelectedNames. intros. by eapply selected_dep. Qed.

(** [SelectedNames] returns, whatever the map iteration order, exactly the
    names reachable from the selectors (from every process when there is no
    selector) through [depends_on] without passing through an unknown or
    teardown process. *)
Theorem SelectedNames_exact cfg order filter n :
  order ≡ₚ keys (c_Processes cfg) →
  n ∈ SelectedNames order cfg filter ↔
  Selected (c_Processes cfg) (selection_roots (keys (c_Processes cfg)) filter) n.
Proof.
  intros Hp. rewrite elem_of_SelectedNames. apply Selected_roots.
  intros x. by apply selection_roots_order.
Qed.

(** The result of [SelectedNames] does not depend on the map iteration
    order, is sorted and free of duplicates, and contains the dependencies of
    each name it selects. *)
Theorem SelectedNames_deterministic cfg order1 order2 filter :
  order1 ≡ₚ keys (c_Processes cfg) → order2 ≡ₚ keys (c_Processes cfg) →
  SelectedNames order1 cfg filter = SelectedNames order2 cfg filter ∧
  StronglySorted str_le (SelectedNames order1 cfg filter) ∧
  NoDup (SelectedNames order1 cfg filter) ∧
  ∀ n d, n ∈ SelectedNames order1 cfg filter → edge (c_Processes cfg) n d →
    selectable (c_Processes cfg) d → d ∈ SelectedNames order1 cfg filter.
Proof.
  intros H1 H2. split_and!; [|apply sort_strings_sorted|apply SelectedNames_NoDup|].
  - apply SelectedNames_order_indep. by rewrite H1, H2.
  - intros n d. apply SelectedNames_closed.
Qed.

Lemma elem_of_TeardownNames order cfg n :
  n ∈ TeardownNames order cfg ↔
  n ∈ order ∧ p_Mode (proc_at (c_Processes cfg) n) = ProcessModeTeardown.
Proof. unfold TeardownNames. rewrite elem_of_sort_strings, list_elem_of_filter. naive_solver. Qed.

(** ** Cycle detection: the verdict is exact *)

Section cycles.
Context (procs : gmap string Process).

(** No process depends on itself, directly or not. *)
Definition acyclic : Prop := ∀ n, ¬ tc (edge procs) n n.

(** A walk along dependencies. *)
Fixpoint walk (l : list string) : Prop :=
  match l with
  | x :: (y :: _) as t => edge procs x y ∧ walk t
  | _ => True
  end.

(** A closed walk: it follows dependencies and comes back to where it started. *)
Definition is_cycle (c : list string) : Prop :=
  ∃ x mid, c = x :: mid ++ [x] ∧ walk c.

(** Everything below [n] has been explored without finding a cycle. *)
Definition safe (n : string) : Prop := Acc (λ b a, edge procs a b) n.

Lemma safe_no_cycle n : safe n → ¬ tc (edge procs) n n.
Proof.
  induction 1 as [n _ IH]. intros Hc.
  assert (∃ m, edge procs n m ∧ rtc (edge procs) m n) as (m & Hm & Hr).
  { inversion Hc; subst; [by exists n|]. eexists. split; [done|]. by apply tc_rtc. }
  apply (IH m Hm). eapply tc_rtc_l; [done|]. by apply tc_once.
Qed.

Lemma walk_app l1 x l2 : walk (l1 ++ [x]) → walk (x :: l2) → walk (l1 ++ x :: l2).
Proof.
  induction l1 as [|a l1 IH]; cbn; [done|]. destruct l1 as [|b l1]; cbn in *.
  - intros [? _] ?. done.
  - intros [? ?] ?. split; [done|]. by apply IH.
Qed.

Lemma walk_suffix l1 l2 : walk (l1 ++ l2) → walk l2.
Proof.
  induction l1 as [|a l1 IH]; cbn; [done|]. intros H. apply IH.
  destruct (l1 ++ l2); [done|]. by destruct H.
Qed.

Lemma back_to_spec dep l : dep ∈ l →
  ∃ mid rest, l = mid ++ dep :: rest ∧ back_to dep l = mid ++ [dep].
Proof.
  induction l as [|x l IH]; intros Hin; [by apply not_elem_of_nil in Hin|]. cbn.
  case_bool_decide as Hx; [subst; by exists [], l|].
  apply elem_of_cons in Hin as [?|Hin]; [done|].
  destruct (IH Hin) as (mid & rest & -> & ->). by exists (x :: mid), rest.
Qed.

(** The reported list is a dependency cycle when the search is consistent. *)
Lemma cycle_of_is_cycle path name dep :
  walk (path ++ [name]) → dep ∈ path ++ [name] → edge procs name dep →
  is_cycle (cycle_of (path ++ [name]) dep) ∧
  head (cycle_of (path ++ [name]) dep) = Some dep.
Proof.
  intros Hw Hin He. unfold cycle_of.
  destruct (back_to_spec dep (rev (path ++ [name]))) as (mid & rest & Hrev & ->).
  { by apply list_elem_of_In, in_rev; rewrite rev_involutive; apply list_elem_of_In. }
  assert (path ++ [name] = rev rest ++ dep :: rev mid) as Hpath.
  { rewrite <-(rev_involutive (path ++ [name])), Hrev, rev_app_distr. cbn.
    by rewrite <-app_assoc. }
  assert (rev (dep :: mid ++ [dep]) = dep :: rev mid ++ [dep]) as -> by
    (cbn; by rewrite rev_app_distr).
  split; [|done]. exists dep, (rev mid). split; [done|].
  change (dep :: rev mid ++ [dep]) with ((dep :: rev mid) ++ [dep]).
  rewrite Hpath in Hw. apply walk_suffix in Hw.
  assert (∃ l, dep :: rev mid = l ++ [name]) as [l Hl].
  { apply (f_equal last) in Hpath. rewrite last_snoc, last_app in Hpath.
    destruct (last (dep :: rev mid)) eqn:El; [|by apply last_None in El].
    apply last_Some in El as [l El]. exists l. by simplify_eq. }
  rewrite Hl in *. rewrite <-app_assoc. cbn [app]. by apply walk_app.
Qed.

(** *** The search invariant *)

Record search_inv (d : dfs) : Prop := {
  si_gray : ∀ n, color_of d n = gray ↔ n ∈ d_path d;
  si_walk : walk (d_path d);
  si_black : ∀ n, color_of d n = black → safe n;
}.

(** Colours only move forward: a name that has left [white] keeps its colour
    over a completed call. *)
Definition search_mono (d d' : dfs) : Prop :=
  ∀ n, color_of d n ≠ white → color_of d' n = color_of d n.

Definition whites (d : dfs) : gset string :=
  filter (λ n, color_of d n = white) (graph_nodes procs).

(** An error that reports a cycle of the graph. *)
Definition reports_cycle (e : ValidationError) : Prop :=
  ∃ name dep path, e = cycle_error procs name dep path ∧ edge procs name dep ∧
    is_cycle (cycle_of path dep) ∧ head (cycle_of path dep) = Some dep.

Lemma color_of_insert n c d path x :
  color_of (mkDfs (<[n := c]> (d_color d)) path) x = if decide (n = x) then c else color_of d x.
Proof. unfold color_of. cbn. rewrite lookup_insert. by case_decide. Qed.

Lemma search_mono_trans d1 d2 d3 : search_mono d1 d2 → search_mono d2 d3 → search_mono d1 d3.
Proof. intros H1 H2 n Hn. rewrite H2; rewrite H1; done. Qed.

Lemma whites_mono d d' : search_mono d d' → whites d' ⊆ whites d.
Proof.
  intros H n. unfold whites. rewrite !elem_of_filter. intros [Hw ?]. split; [|done].
  destruct (decide (color_of d n = white)) as [|Hn]; [done|]. rewrite <-Hw. symmetry. by apply H.
Qed.

Lemma graph_nodes_edge a b : edge procs a b → b ∈ graph_nodes procs.
Proof.
  unfold edge, proc_at, graph_nodes. destruct (procs !! a) as [p|] eqn:Hp; cbn;
    [|by intros H%not_elem_of_nil].
  intros Hb. apply elem_of_union_r. revert Hp.
  apply (map_fold_weak_ind (λ (acc : gset string) (m : gmap string Process),
    m !! a = Some p → b ∈ acc)); [done|].
  intros i x m acc _ IH. rewrite lookup_insert. case_decide; [intros [= ->]|]; set_solver.
Qed.

(** What a call of [visit] on a white name establishes. *)
Definition visit_post (name : string) (d : dfs) (r : res ValidationError dfs) : Prop :=
  match r with
  | Ok d' => search_inv d' ∧ d_path d' = d_path d ∧ search_mono d d' ∧ color_of d' name = black
  | Err e => reports_cycle e
  end.

Definition visit_pre (fuel : nat) (name : string) (d : dfs) : Prop :=
  search_inv d ∧ color_of d name = white ∧ name ∈ graph_nodes procs ∧
  walk (d_path d ++ [name]) ∧ size (whites d) ≤ fuel.

(** The dependency loop of one name, given the recursive calls. *)
Lemma visit_deps fuel name path :
  (∀ dep d, visit_pre fuel dep d → visit_post dep d (visit fuel procs dep d)) →
  ∀ l d, (∀ x, x ∈ l → edge procs name x) → search_inv d → d_path d = path ++ [name] →
  size (whites d) ≤ fuel →
  match fold_res (λ d dep,
             match color_of d dep with
             | gray => Err (cycle_error procs name dep (d_path d))
             | white => visit fuel procs dep d
             | black => Ok d
             end) l d with
  | Ok d' => search_inv d' ∧ d_path d' = d_path d ∧ search_mono d d' ∧
             ∀ x, x ∈ l → color_of d' x = black
  | Err e => reports_cycle e
  end.
Proof.
  intros IH. induction l as [|x l IHl]; intros d Hl Hinv Hpath Hsz; cbn [fold_res].
  { split_and!; try done. by intros x Hx%not_elem_of_nil. }
  assert (edge procs name x) as Hx by (apply Hl, list_elem_of_here).
  assert (∀ y, y ∈ l → edge procs name y) as Hl' by (intros; by apply Hl, list_elem_of_further).
  assert (walk (d_path d ++ [x])) as Hwx.
  { destruct Hinv as [_ Hw _]. rewrite Hpath in *. rewrite <-app_assoc. by apply walk_app. }
  destruct (color_of d x) eqn:Hc.
  - assert (visit_pre fuel x d) as Hpre by (split_and!; eauto using graph_nodes_edge).
    specialize (IH x d Hpre). destruct (visit fuel procs x d) as [d1|e]; cbn [res_bind]; [|done].
    destruct IH as (Hinv1 & Hp1 & Hm1 & Hb1).
    assert (size (whites d1) ≤ fuel) as Hsz1.
    { etrans; [|done]. by apply subseteq_size, whites_mono. }
    specialize (IHl d1 Hl' Hinv1 ltac:(congruence) Hsz1).
    destruct (fold_res _ l d1) as [d2|e]; [|done].
    destruct IHl as (Hinv2 & Hp2 & Hm2 & Hb2). split_and!; [done|congruence| |].
    + by eapply search_mono_trans.
    + intros y [->|Hy]%elem_of_cons; [|by auto]. rewrite Hm2; congruence.
  - cbn [res_bind]. exists name, x, (path ++ [name]). rewrite Hpath.
    split; [done|]. split; [done|].
    destruct Hinv as [Hg Hw _]. apply cycle_of_is_cycle; [by rewrite <-Hpath| |done].
    rewrite <-Hpath. by apply Hg.
  - cbn [res_bind]. specialize (IHl d Hl' Hinv Hpath Hsz).
    destruct (fold_res _ l d) as [d2|e]; [|done].
    destruct IHl as (Hinv2 & Hp2 & Hm2 & Hb2). split_and!; [done..|].
    intros y [->|Hy]%elem_of_cons; [|by auto]. rewrite Hm2; congruence.
Qed.

Lemma visit_correct fuel name d :
  visit_pre fuel name d → visit_post name d (visit fuel procs name d).
Proof.
  revert name d; induction fuel as [|fuel IH]; intros name d (Hinv & Hwhite & Hnode & Hwalk & Hsz).
  { assert (name ∈ whites d) by (unfold whites; by apply elem_of_filter).
    apply Nat.le_0_r, size_empty_inv in Hsz. set_solver. }
  cbn [visit]. set (d1 := mkDfs (<[name := gray]> (d_color d)) (d_path d ++ [name])).
  assert (search_inv d1) as Hinv1.
  { destruct Hinv as [Hg Hw Hb]. unfold d1. split; [|done|]; intros n; rewrite color_of_insert; cbn.
    - rewrite elem_of_app, list_elem_of_singleton, <-Hg. case_decide; naive_solver.
    - case_decide; [done|auto]. }
  assert (search_mono d d1) as Hm1.
  { intros n Hn. unfold d1. rewrite color_of_insert. case_decide; congruence. }
  assert (size (whites d1) ≤ fuel) as Hsz1.
  { apply Nat.lt_succ_r. eapply Nat.lt_le_trans; [|exact Hsz].
    apply (size_strict_subset _ _ name); [by apply whites_mono|by apply elem_of_filter|].
    unfold whites, d1. rewrite elem_of_filter, color_of_insert, decide_True by done. naive_solver. }
  pose proof (visit_deps fuel name (d_path d) IH (p_DependsOn (proc_at procs name)) d1
    ltac:(done) Hinv1 eq_refl Hsz1) as Hdeps.
  destruct (fold_res _ _ d1) as [d2|e]; cbn [res_bind]; [|done].
  destruct Hdeps as (Hinv2 & Hp2 & Hm2 & Hb2).
  assert (removelast (d_path d2) = d_path d) as Hpop.
  { rewrite Hp2. unfold d1. cbn. by rewrite removelast_last. }
  assert (safe name) as Hsafe.
  { constructor. intros b Hb. destruct Hinv2 as [_ _ Hblack]. by apply Hblack, Hb2. }
  unfold visit_post. rewrite Hpop. split_and!; [|done| |by rewrite color_of_insert, decide_True].
  - destruct Hinv as [Hg Hw Hb], Hinv2 as [Hg2 Hw2 Hblack2].
    split; [|done|]; intros n; rewrite color_of_insert; cbn; case_decide as Hn; [..|by auto].
    + subst n. split; [done|]. intros Hin. apply Hg in Hin. congruence.
    + rewrite Hg2, Hp2. unfold d1. cbn. rewrite elem_of_app, list_elem_of_singleton. naive_solver.
    + by subst.
  - intros n Hn. rewrite color_of_insert. case_decide; [congruence|].
    rewrite Hm2; rewrite Hm1; congruence.
Qed.

Lemma detect_loop l d :
  (∀ x, x ∈ l → x ∈ graph_nodes procs) → search_inv d → d_path d = [] →
  match fold_res (λ d name,
         match color_of d name with
         | white => visit (size (graph_nodes procs)) procs name d
         | _ => Ok d
         end) l d with
  | Ok d' => ∀ x, x ∈ l → safe x
  | Err e => reports_cycle e
  end.
Proof.
  revert d; induction l as [|x l IH]; intros d Hl Hinv Hp; cbn [fold_res].
  { by intros x Hx%not_elem_of_nil. }
  assert (∀ y, y ∈ l → y ∈ graph_nodes procs) as Hl' by (intros; by apply Hl, list_elem_of_further).
  destruct (color_of d x) eqn:Hc.
  - assert (visit_pre (size (graph_nodes procs)) x d) as Hpre.
    { split_and!; [done|done|by apply Hl, list_elem_of_here|by rewrite Hp|].
      apply subseteq_size. unfold whites. set_solver. }
    apply visit_correct in Hpre.
    destruct (visit _ procs x d) as [d1|e]; cbn [res_bind]; [|done].
    destruct Hpre as (Hinv1 & Hp1 & _ & Hb1).
    specialize (IH d1 Hl' Hinv1 ltac:(congruence)).
    destruct (fold_res _ l d1) as [d2|e]; [|done].
    intros y [->|Hy]%elem_of_cons; [|by auto]. destruct Hinv1 as [_ _ Hb]. auto.
  - destruct Hinv as [Hg _ _]. apply Hg in Hc. rewrite Hp in Hc. by apply not_elem_of_nil in Hc.
  - cbn [res_bind]. specialize (IH d Hl' Hinv Hp). destruct (fold_res _ l d) as [d2|e]; [|done].
    intros y [->|Hy]%elem_of_cons; [|by auto]. destruct Hinv as [_ _ Hb]. auto.
Qed.

Lemma detectCycles_post :
  match detectCycles procs with Ok _ => ∀ n, safe n | Err e => reports_cycle e end.
Proof.
  pose proof (detect_loop (SortedProcessNames procs) (mkDfs ∅ [])) as H.
  unfold detectCycles. destruct (fold_res _ _ _) as [d|e]; cbn [res_bind] in *.
  - intros n. destruct (decide (n ∈ SortedProcessNames procs)) as [Hn|Hn].
    + apply H; [|split; cbn; [set_solver|done|done]|done|done].
      intros x Hx%elem_of_SortedProcessNames. unfold graph_nodes. apply elem_of_union_l.
      by apply elem_of_dom.
    + constructor. intros b Hb. exfalso. apply Hn, elem_of_SortedProcessNames.
      unfold edge, proc_at in Hb. destruct (procs !! n); [done|]. by apply not_elem_of_nil in Hb.
  - apply H; [|split; cbn; [|done|done]|done].
    + intros x Hx%elem_of_SortedProcessNames. unfold graph_nodes. apply elem_of_union_l.
      by apply elem_of_dom.
    + intros n. split; [done|]. by intros Hn%not_elem_of_nil.
Qed.

Lemma walk_rtc x l y : walk (x :: l ++ [y]) → tc (edge procs) x y.
Proof.
  revert x; induction l as [|z l IH]; intros x; cbn; intros [He Hw].
  - by apply tc_once.
  - eapply tc_l; [done|]. by apply IH.
Qed.

Lemma is_cycle_not_acyclic c : is_cycle c → ¬ acyclic.
Proof. intros (x & mid & -> & Hw) Ha. eapply (Ha x), walk_rtc, Hw. Qed.
End cycles.

Lemma detectCycles_acyclic procs : detectCycles procs = Ok tt ↔ acyclic procs.
Proof.
  pose proof (detectCycles_post procs) as H. split.
  - intros Hok. rewrite Hok in H. intros n. apply safe_no_cycle, H.
  - intros Ha. destruct (detectCycles procs) as [[]|e]; [done|].
    destruct H as (name & dep & path & _ & _ & Hc & _).
    by destruct (is_cycle_not_acyclic _ _ Hc Ha).
Qed.

(** C36: [detectCycles] accepts a process map exactly when its [depends_on]
    relation is acyclic (the search is complete: it never misses a cycle, and
    never reports one that is not there). *)
Theorem detectCycles_exact procs : detectCycles procs = Ok tt ↔ acyclic procs.
Proof. apply detectCycles_acyclic. Qed.

(** The error of [detectCycles] names a real cycle: its text joins the
    names of a closed walk along [depends_on], and its path points at the
    dependency entry that closes it. *)
Theorem detectCycles_error procs e :
  detectCycles procs = Err e →
  ve_Code e = CodeDependencyCycle ∧
  ∃ name dep cycle,
    ve_Args e = [AStr (join " -> " cycle)] ∧ is_cycle procs cycle ∧ head cycle = Some dep ∧
    edge procs name dep ∧
    ve_Path e = [SKey "processes"; SKey name; SKey "depends_on";
                 SIdx (index_of (p_DependsOn (proc_at procs name)) dep)].
Proof.
  pose proof (detectCycles_post procs) as H. intros He. rewrite He in H.
  destruct H as (name & dep & path & -> & Hedge & Hc & Hhead). split; [done|].
  by exists name, dep, (cycle_of path dep).
Qed.

(** ** Witnesses *)

Definition web_api : gmap string Process :=
  {["web" := set_DependsOn ["api"] zero_process; "api" := zero_process; "job" := zero_process]}.
Definition loop_procs : gmap string Process :=
  {["a" := set_DependsOn ["b"] zero_process; "b" := set_DependsOn ["a"] zero_process]}.

Lemma SelectedNames_exact_witness :
  SelectedNames ["job"; "web"; "api"] (mkConfig None web_api []) ["web"] = ["api"; "web"] ∧
  Selected web_api (selection_roots (keys web_api) ["web"]) "api".
Proof.
  split; [vm_compute; reflexivity|].
  apply (SelectedNames_exact (mkConfig None web_api []) (keys web_api) ["web"] "api" (Permutation_refl _)).
  apply (bool_decide_eq_true_1 ("api" ∈ SelectedNames (keys web_api) (mkConfig None web_api []) ["web"])).
  vm_compute. reflexivity.
Defined.

Lemma SelectedNames_deterministic_witness :
  SelectedNames (keys web_api) (mkConfig None web_api []) [] =
  SelectedNames (rev (keys web_api)) (mkConfig None web_api []) [] ∧
  StronglySorted str_le (SelectedNames (keys web_api) (mkConfig None web_api []) []) ∧
  NoDup (SelectedNames (keys web_api) (mkConfig None web_api []) []).
Proof.
  destruct (SelectedNames_deterministic (mkConfig None web_api []) (keys web_api) (rev (keys web_api)) []
              (Permutation_refl _) (Permutation_sym (Permutation_rev _))) as (H1 & H2 & H3 & _).
  split; [exact H1|]. split; [exact H2|exact H3].
Defined.

Lemma detectCycles_error_witness :
  ∃ e, detectCycles loop_procs = Err e ∧ ve_Code e = CodeDependencyCycle ∧
       ve_Args e = [AStr "a -> b -> a"].
Proof.
  assert (∃ e, detectCycles loop_procs = Err e ∧ ve_Args e = [AStr "a -> b -> a"]) as (e & He & Ha)
    by (eexists; split; vm_compute; reflexivity).
  exists e. split; [exact He|]. split; [|exact Ha]. exact (proj1 (detectCycles_error loop_procs e He)).
Defined.
