(* ===== verification/References.v ===== *)
(** * Endpoint references

    The ${ports.*}, ${urls.*}, ${session.*} and ${config.*} placeholders: how
    they are found in a value, how a reference name is split, how Load resolves
    the port references it can know, and the check that no two endpoints share
    a reference name. *)

From S2P Require Import Prelude GoStrings ConfigTypes.

Definition dot : ascii := "."%char.

(** The namespaces of the expression [referenceRe]. *)
Definition reference_prefixes : list string := ["ports."; "urls."; "session."; "config."].

(** The submatch of [referenceRe] at the start of [s]: the text between "${"
    and the first "}", when it starts with a namespace and a dot.
    Source: internal/config/explain.go:645-645 (referenceRe). *)
Definition ref_at (s : string) : option string :=
  match s with
  | String "$" (String "{" t) =>
      match cut_byte "}"%char t with
      | Some (name, _) => if existsb (λ p, has_prefix p name) reference_prefixes
                          then Some name else None
      | None => None
      end
  | _ => None
  end.

Inductive piece : Type :=
  | Lit (c : ascii)
  | Ref (name : string).

(** The successive non-overlapping matches of [referenceRe] in [s], from the
    left, and the bytes between them; [skip] counts the bytes of the match
    being consumed.
    Source: internal/config/explain.go:645-645 (referenceRe). *)
Fixpoint pieces (skip : nat) (s : string) : list piece :=
  match s with
  | EmptyString => []
  | String c t =>
      match skip with
      | S skip => pieces skip t
      | O => match ref_at s with
             | Some name => Ref name :: pieces (String.length name + 2) t
             | None => Lit c :: pieces 0 t
             end
      end
  end.

(** [referenceRe.FindAllStringSubmatch(s, -1)], the first group of each match. *)
Definition find_references (s : string) : list string :=
  omap (λ p, match p with Ref name => Some name | Lit _ => None end) (pieces 0 s).

(** Source: internal/config/explain.go:765-776 (splitReference). *)
Definition splitReference (ref : string) : string * string * string * bool :=
  let '(namespace, rest) :=
    match cut_byte dot ref with Some (a, b) => (a, b) | None => (ref, "") end in
  match cut_last dot rest with
  | None => (namespace, "", "", false)
  | Some (process, port) => (namespace, process, port, true)
  end.

(** What the replacement function of [resolvePortReferences] has gathered. *)
Record resolving : Type := mkResolving {
  rs_out : string;
  rs_named : list string;
  rs_ok : bool;
}.

(** The replacement function, for one piece of the value.
    Source: internal/config/config.go:1078-1086 (resolvePortReferences, replace). *)
Definition resolve_piece (procs : gmap string Process) (r : resolving) (p : piece) : resolving :=
  match p with
  | Lit c => mkResolving (rs_out r +:+ String c "") (rs_named r) (rs_ok r)
  | Ref ref =>
      let '(namespace, process, portName, split) := splitReference ref in
      let preferred := default 0%Z (p_Ports (proc_at procs process) !! portName) in
      if split && bool_decide (namespace = "ports") && (1 <=? preferred)%Z && (preferred <=? 65535)%Z
      then mkResolving (rs_out r +:+ itoa preferred)
             (rs_named r ++ [process +:+ "." +:+ portName]) (rs_ok r)
      else mkResolving (rs_out r +:+ "${" +:+ ref +:+ "}") (rs_named r) false
  end.

(** Source: internal/config/config.go:1070-1088 (resolvePortReferences). *)
Definition resolvePortReferences (procs : gmap string Process) (value : string)
    : string * list string * bool :=
  let r := fold_left (resolve_piece procs) (pieces 0 value) (mkResolving "" [] true) in
  (rs_out r, rs_named r, rs_ok r).

(** Source: internal/config/explain.go:752-763 (referenceResolvable). *)
Definition referenceResolvable (cfg : Config) (ref : string) (selected : gset string) : bool :=
  if bool_decide (ref ∈ ["session.name"; "session.id"; "session.dir"; "config.dir"]) then true
  else
    let '(namespace, process, port, ok) := splitReference ref in
    if negb ok || (negb (bool_decide (namespace = "ports")) && negb (bool_decide (namespace = "urls")))
    then false
    else bool_decide (process ∈ selected) &&
         bool_decide (is_Some (p_Ports (proc_at (c_Processes cfg) process) !! port)).

(** ** Reference names *)

(** The reference name of an endpoint in a namespace. *)
Definition ref_name (namespace name portName : string) : string :=
  namespace +:+ "." +:+ name +:+ "." +:+ portName.

(** One step of the loops of [checkReferenceCollisions]: [seen] and the
    collisions found so far, each with the two endpoints that share the name.
    Source: internal/config/config.go:1323-1329 (checkReferenceCollisions, step). *)
Definition collision_step (namespace : string)
    (st : gmap string (string * string) * list (string * (string * string) * (string * string)))
    (ep : string * string) :=
  let '(seen, collisions) := st in
  let ref := ref_name namespace ep.1 ep.2 in
  match seen !! ref with
  | Some other => (seen, collisions ++ [(ref, other, ep)])
  | None => (<[ref := ep]> seen, collisions)
  end.

(** The endpoints in the order the loops visit them.
    Source: internal/config/config.go:1321-1322 (checkReferenceCollisions, order). *)
Definition endpoints (procs : gmap string Process) : list (string * string) :=
  name ← SortedProcessNames procs;
  portName ← SortedProcessNames (p_Ports (proc_at procs name));
  [(name, portName)].

(** Source: internal/config/config.go:1311-1337 (checkReferenceCollisions). *)
Definition checkReferenceCollisions (procs : gmap string Process) : res ValidationError unit :=
  let collisions :=
    namespace ← ["ports"; "urls"];
    (fold_left (collision_step namespace) (endpoints procs) (∅, [])).2 in
  return_if (0 <? length collisions)
    with invalid CodeInvalidPort [] None
           ("endpoint reference names collide: " +:+ join "; " ((λ _,
              "%s is claimed by both process %q port %q and process %q port %q") <$> collisions))
           ('(ref, other, ep) ← collisions;
            [AStr ref; AStr other.1; AStr other.2; AStr ep.1; AStr ep.2]) ;;
  Ok tt.

(** ** Lemmas *)

Lemma splitReference_ref_name namespace name portName :
  str_mem dot namespace = false → str_mem dot portName = false →
  splitReference (ref_name namespace name portName) = (namespace, name, portName, true).
Proof.
  intros Hn Hp. unfold splitReference, ref_name.
  rewrite (proj2 (cut_byte_Some dot _ namespace (name +:+ "." +:+ portName))) by done.
  by rewrite (proj2 (cut_last_Some dot _ name portName)).
Qed.

Lemma splitReference_inv ref namespace name portName :
  splitReference ref = (namespace, name, portName, true) →
  ref = ref_name namespace name portName ∧
  str_mem dot namespace = false ∧ str_mem dot portName = false.
Proof.
  unfold splitReference, ref_name. intros H.
  destruct (cut_byte dot ref) as [[a b]|] eqn:Hc; [|by cbn in H].
  destruct (cut_last dot b) as [[x y]|] eqn:Hl; simplify_eq.
  apply cut_byte_Some in Hc as [-> ?]. apply cut_last_Some in Hl as [-> ?]. done.
Qed.

Lemma portNameRe_no_dot s : portNameRe s = true → str_mem dot s = false.
Proof.
  intros H. unfold portNameRe in H. apply name_shape_bytes in H as [H _].
  - unfold str_mem, str_has. apply not_true_iff_false. intros (c & Hc & Hd)%existsb_exists.
    apply bool_decide_eq_true in Hd as ->. rewrite forallb_forall in H.
    apply H in Hc. vm_compute in Hc. done.
  - intros c ->. done.
Qed.

Lemma ref_name_inj ns n1 p1 n2 p2 :
  str_mem dot p1 = false → str_mem dot p2 = false → str_mem dot ns = false →
  ref_name ns n1 p1 = ref_name ns n2 p2 → n1 = n2 ∧ p1 = p2.
Proof.
  intros H1 H2 Hns He. pose proof (splitReference_ref_name ns n1 p1 Hns H1) as S1.
  rewrite He, splitReference_ref_name in S1 by done. by simplify_eq.
Qed.

Lemma elem_of_endpoints procs n pn :
  (n, pn) ∈ endpoints procs ↔
  is_Some (procs !! n) ∧ is_Some (p_Ports (proc_at procs n) !! pn).
Proof.
  unfold endpoints. rewrite list_elem_of_bind. setoid_rewrite list_elem_of_bind.
  setoid_rewrite elem_of_SortedProcessNames. setoid_rewrite list_elem_of_singleton.
  naive_solver.
Qed.

Lemma NoDup_endpoints procs : NoDup (endpoints procs).
Proof.
  unfold endpoints. apply NoDup_bind.
  - intros n1 n2 [a b] _ _. rewrite !list_elem_of_bind. setoid_rewrite list_elem_of_singleton.
    naive_solver.
  - intros n _. apply NoDup_bind.
    + intros p1 p2 [a b] _ _. rewrite !list_elem_of_singleton. naive_solver.
    + intros. apply NoDup_singleton.
    + apply NoDup_SortedProcessNames.
  - apply NoDup_SortedProcessNames.
Qed.

(** With names that are injective on the endpoints left, nothing collides. *)
Lemma no_collisions ns l seen :
  NoDup l →
  (∀ e1 e2, e1 ∈ l → e2 ∈ l → ref_name ns e1.1 e1.2 = ref_name ns e2.1 e2.2 → e1 = e2) →
  (∀ e, e ∈ l → seen !! ref_name ns e.1 e.2 = None) →
  (fold_left (collision_step ns) l (seen, [])).2 = [].
Proof.
  revert seen; induction l as [|e l IH]; intros seen Hnd Hinj Hseen; [done|].
  apply NoDup_cons in Hnd as [He Hnd]. cbn [fold_left collision_step].
  rewrite Hseen by apply list_elem_of_here. apply IH; [done| |].
  - intros e1 e2 H1 H2. apply Hinj; by apply list_elem_of_further.
  - intros e' He'. rewrite lookup_insert_ne; [apply Hseen; by apply list_elem_of_further|].
    intros Heq. apply Hinj in Heq; [by subst|apply list_elem_of_here|by apply list_elem_of_further].
Qed.

(** Splitting a reference name is the inverse of building it: for a
    namespace and a port name without dots, the process name may hold any
    number of dots and is still recovered exactly. *)
Theorem splitReference_roundtrip namespace name portName :
  portNameRe portName = true → str_mem dot namespace = false →
  splitReference (ref_name namespace name portName) = (namespace, name, portName, true).
Proof. intros Hp Hn. apply splitReference_ref_name; [done|by apply portNameRe_no_dot]. Qed.

(** The collision check is a safety net: once every port name follows the
    port-name rule, no two endpoints share a reference name and the check
    accepts. *)
Theorem checkReferenceCollisions_unreachable procs :
  (∀ name p portName, procs !! name = Some p → is_Some (p_Ports p !! portName) →
     portNameRe portName = true) →
  checkReferenceCollisions procs = Ok tt.
Proof.
  intros Hports. unfold checkReferenceCollisions.
  assert (∀ ns, str_mem dot ns = false →
    (fold_left (collision_step ns) (endpoints procs) (∅, [])).2 = []) as Hnone.
  { intros ns Hns. apply no_collisions; [apply NoDup_endpoints| |done].
    assert (∀ e, e ∈ endpoints procs → str_mem dot e.2 = false) as Hdot.
    { intros [n pn] [[p Hp] Hpn]%elem_of_endpoints. unfold proc_at in Hpn. rewrite Hp in Hpn.
      eapply portNameRe_no_dot, Hports; eauto. }
    intros [n1 p1] [n2 p2] H1 H2 He. apply ref_name_inj in He; [naive_solver|..];
      [by apply (Hdot (_, _))|by apply (Hdot (_, _))|done]. }
  cbn [mbind list_bind app]. by rewrite !Hnone.
Qed.

(** ** Witnesses *)

Lemma splitReference_roundtrip_witness :
  splitReference "urls.api.v2.http" = ("urls", "api.v2", "http", true).
Proof. apply (splitReference_roundtrip "urls" "api.v2" "http"); vm_compute; reflexivity. Defined.

Definition with_ports (ports : gmap string Z) : Process :=
  mkProcess "" "" "" ∅ "" "" 0 0 None 0 [] ports None 0 "" "".

Definition dotted_procs : gmap string Process :=
  {["api" := with_ports {["v2-http" := 0%Z]}; "api.v2" := with_ports {["http" := 0%Z]}]}.

Lemma checkReferenceCollisions_unreachable_witness : checkReferenceCollisions dotted_procs = Ok tt.
Proof.
  apply (checkReferenceCollisions_unreachable dotted_procs). intros name p portName Hp Hport.
  assert (map_Forall (λ _ p, map_Forall (λ pn _, portNameRe pn = true) (p_Ports p)) dotted_procs) as Hall.
  { apply (bool_decide_eq_true_1 _). vm_compute. reflexivity. }
  destruct Hport as [v Hv]. exact (Hall name p Hp portName v Hv).
Defined.
