(* ===== verification/Expand.v ===== *)
(** * Expanding the references of a session

    [Plan.expand] replaces the known placeholders of a value one variable after
    another, in the iteration order of a Go map.  The order is an argument
    here; [subst] is the substitution in one pass that it is meant to be, and
    the main result is that the two agree, whatever the order. *)

From S2P Require Import Prelude GoStrings References.

(** ** [strings.ReplaceAll] *)

(** [strings.ReplaceAll(s, old, new)] for an [old] that is not empty; [skip]
    counts the bytes of the match being consumed. *)
Fixpoint replace_from (old new : string) (skip : nat) (s : string) : string :=
  match s with
  | EmptyString => ""
  | String c t =>
      match skip with
      | S skip => replace_from old new skip t
      | O => if has_prefix old s then new +:+ replace_from old new (String.length old - 1) t
             else String c (replace_from old new 0 t)
      end
  end.

Definition replace_all (s old new : string) : string := replace_from old new 0 s.

(** ** The code *)

Definition placeholder (name : string) : string := "${" +:+ name +:+ "}".

(** The namespaces whose placeholders must not remain.
    Source: internal/session/session.go:331-331 (Plan.expand, namespaces). *)
Definition namespaces : list string := ["ports."; "urls."; "session."; "config."].

(** [order] is the iteration order of the map of variables.
    Source: internal/session/session.go:327-337 (Plan.expand). *)
Definition expand (order : list string) (variables : gmap string string) (value : string)
    : res string string :=
  let value := fold_left (λ value name,
                 replace_all value (placeholder name) (default "" (variables !! name))) order value in
  match list_find (λ namespace, str_contains ("${" +:+ namespace) value = true) namespaces with
  | Some (_, namespace) =>
      Err ("unresolved " +:+ str_take (String.length namespace - 1) namespace
           +:+ " reference (select its dependency or declare its named port)")
  | None => Ok value
  end.

(** ** The specification *)

(** The variable whose placeholder starts here: its value, and the number of
    bytes after the first that belong to the placeholder. *)
Definition var_at (variables : gmap string string) (s : string) : option (string * nat) :=
  match s with
  | String "$" (String "{" t) =>
      match cut_byte "}"%char t with
      | Some (name, _) => (λ r, (r, String.length name + 2)) <$> variables !! name
      | None => None
      end
  | _ => None
  end.

(** Every placeholder of a variable replaced by its value, in one pass. *)
Fixpoint subst_from (variables : gmap string string) (skip : nat) (s : string) : string :=
  match s with
  | EmptyString => ""
  | String c t =>
      match skip with
      | S skip => subst_from variables skip t
      | O => match var_at variables s with
             | Some (r, n) => r +:+ subst_from variables n t
             | None => String c (subst_from variables 0 t)
             end
      end
  end.

Definition subst (variables : gmap string string) (s : string) : string := subst_from variables 0 s.

(** No dollar before the first closing brace, or at all when there is none. *)
Fixpoint no_dollar (s : string) : bool :=
  match s with
  | EmptyString => true
  | String c t => bool_decide (c = "}"%char) || (negb (bool_decide (c = "$"%char)) && no_dollar t)
  end.

(** No placeholder inside a placeholder. *)
Fixpoint flat (s : string) : bool :=
  match s with
  | EmptyString => true
  | String c t =>
      match c, t with
      | "$"%char, String "{" u => no_dollar u
      | _, _ => true
      end && flat t
  end.

(** Variables whose names are free of dollars and closing braces, and whose
    values are not empty and free of dollars and opening braces. *)
Definition plain_vars (variables : gmap string string) : Prop :=
  ∀ name r, variables !! name = Some r →
    str_mem "$" name = false ∧ str_mem "}" name = false ∧
    r ≠ "" ∧ str_mem "$" r = false ∧ str_mem "{" r = false.

(** ** Lemmas on the two scans *)

Fixpoint str_drop (n : nat) (s : string) : string :=
  match n, s with
  | O, _ => s
  | S n, String _ t => str_drop n t
  | S _, EmptyString => ""
  end.

Lemma str_drop_app p s : str_drop (String.length p) (p +:+ s) = s.
Proof. by induction p. Qed.

Lemma str_drop_length n s : String.length (str_drop n s) <= String.length s.
Proof. revert s; induction n; intros [|c s]; cbn; [lia..|]. specialize (IHn s). lia. Qed.

Lemma replace_skip old new n s : replace_from old new n s = replace_from old new 0 (str_drop n s).
Proof. revert n; induction s as [|c s IH]; intros [|n]; try done. cbn. apply IH. Qed.

Lemma subst_skip V n s : subst_from V n s = subst_from V 0 (str_drop n s).
Proof. revert n; induction s as [|c s IH]; intros [|n]; try done. cbn. apply IH. Qed.

Lemma flat_drop n s : flat s = true → flat (str_drop n s) = true.
Proof.
  revert s; induction n as [|n IH]; intros [|c s]; try done.
  cbn [flat str_drop]. intros [_ H]%andb_true_iff. by apply IH.
Qed.

Lemma replace_step old new c t : replace_from old new 0 (String c t) =
  if has_prefix old (String c t) then new +:+ replace_from old new (String.length old - 1) t
  else String c (replace_from old new 0 t).
Proof. done. Qed.

Lemma subst_step V c t : subst_from V 0 (String c t) =
  match var_at V (String c t) with
  | Some (r, n) => r +:+ subst_from V n t
  | None => String c (subst_from V 0 t)
  end.
Proof. done. Qed.

Lemma placeholder_app n s : placeholder n +:+ s = String "$" (("{" +:+ n +:+ "}") +:+ s).
Proof. done. Qed.

(** A match, and the step over it. *)
Lemma replace_match n r s : replace_from (placeholder n) r 0 (placeholder n +:+ s)
  = r +:+ replace_from (placeholder n) r 0 s.
Proof.
  rewrite placeholder_app, replace_step, <-placeholder_app, has_prefix_app, replace_skip.
  change (String.length (placeholder n) - 1) with (String.length ("{" +:+ n +:+ "}")).
  by rewrite str_drop_app.
Qed.

Lemma replace_miss n r c t : has_prefix (placeholder n) (String c t) = false →
  replace_from (placeholder n) r 0 (String c t) = String c (replace_from (placeholder n) r 0 t).
Proof. intros H. by rewrite replace_step, H. Qed.

Lemma placeholder_dollar n c t : c ≠ "$"%char → has_prefix (placeholder n) (String c t) = false.
Proof. intros H. cbn. by rewrite bool_decide_false. Qed.

(** Bytes without a dollar are copied. *)
Lemma replace_plain n r x s : str_mem "$" x = false →
  replace_from (placeholder n) r 0 (x +:+ s) = x +:+ replace_from (placeholder n) r 0 s.
Proof.
  induction x as [|c x IH]; [done|]. rewrite str_mem_cons. intros [Hc Hx]%orb_false_iff.
  apply bool_decide_eq_false in Hc. cbn [String.append].
  rewrite replace_miss by (by apply placeholder_dollar). by rewrite IH.
Qed.

Lemma var_at_Some V s r n : var_at V s = Some (r, n) ↔
  ∃ name t, s = placeholder name +:+ t ∧ str_mem "}" name = false ∧ V !! name = Some r ∧
    n = String.length name + 2.
Proof.
  split.
  - destruct s as [|c [|c' t]]; try (by cbn; repeat case_match).
    destruct (decide (c = "$"%char)) as [->|Hc]; [|by cbn; repeat case_match; simplify_eq].
    destruct (decide (c' = "{"%char)) as [->|Hc']; [|by cbn; repeat case_match; simplify_eq].
    cbn. destruct (cut_byte "}" t) as [[name u]|] eqn:E; [|done].
    apply cut_byte_Some in E as [-> Hn]. destruct (V !! name) as [r'|] eqn:HV; cbn; [|done].
    intros [= -> <-]. exists name, u. split_and!; [|done..].
    unfold placeholder. cbn. by rewrite str_app_assoc.
  - intros (name & t & -> & Hn & HV & ->). unfold placeholder. cbn. rewrite str_app_assoc.
    cbn. rewrite (proj2 (cut_byte_Some "}"%char (name +:+ String "}" t) name t) (conj eq_refl Hn)).
    by rewrite HV.
Qed.

Lemma subst_match V name r s : str_mem "}" name = false → V !! name = Some r →
  subst_from V 0 (placeholder name +:+ s) = r +:+ subst_from V 0 s.
Proof.
  intros Hn HV. assert (var_at V (placeholder name +:+ s) = Some (r, String.length name + 2)) as H
    by (apply var_at_Some; eauto 10).
  rewrite placeholder_app, subst_step, <-placeholder_app, H, subst_skip.
  replace (String.length name + 2) with (String.length ("{" +:+ name +:+ "}"))
    by (cbn; rewrite <-!length_bytes, bytes_app, length_app; cbn; lia).
  by rewrite str_drop_app.
Qed.

Lemma subst_miss V c t : var_at V (String c t) = None →
  subst_from V 0 (String c t) = String c (subst_from V 0 t).
Proof. intros H. by rewrite subst_step, H. Qed.

Lemma var_at_dollar V c t : c ≠ "$"%char → var_at V (String c t) = None.
Proof. intros H. destruct (var_at V (String c t)) as [[r n]|] eqn:E; [|done].
  apply var_at_Some in E as (name & u & [= -> _] & _). done. Qed.

Lemma subst_plain V x s : str_mem "$" x = false → subst_from V 0 (x +:+ s) = x +:+ subst_from V 0 s.
Proof.
  induction x as [|c x IH]; [done|]. rewrite str_mem_cons. intros [Hc Hx]%orb_false_iff.
  apply bool_decide_eq_false in Hc. cbn [String.append].
  rewrite subst_miss by (by apply var_at_dollar). by rewrite IH.
Qed.

(** ** One variable at a time is one pass *)

Lemma no_dollar_prefix V n t : str_mem "}" n = false → no_dollar t = true →
  has_prefix (n +:+ "}") (subst_from V 0 t) = has_prefix (n +:+ "}") t.
Proof.
  revert n; induction t as [|c t IH]; intros n Hn Ht; [done|]. cbn [no_dollar] in Ht.
  assert (c ≠ "$"%char) as Hc.
  { intros ->. cbn in Ht. done. }
  rewrite subst_miss by (by apply var_at_dollar).
  destruct n as [|a n]; [done|]. rewrite str_mem_cons in Hn. apply orb_false_iff in Hn as [Ha Hn].
  apply bool_decide_eq_false in Ha. cbn [String.append has_prefix].
  destruct (bool_decide (a = c)) eqn:Hac; [|done]. apply bool_decide_eq_true in Hac. subst a.
  cbn [andb]. apply IH; [done|]. by rewrite (bool_decide_false (c = "}"%char)), bool_decide_false in Ht.
Qed.

(** No placeholder appears in what a scan leaves after a dollar. *)
Lemma brace_after V n t : plain_vars V → str_mem "}" n = false → flat (String "$" t) = true →
  has_prefix ("{" +:+ n +:+ "}") (subst_from V 0 t) = true → has_prefix ("{" +:+ n +:+ "}") t = true.
Proof.
  intros HV Hn Hf. destruct t as [|c u]; [done|]. rewrite subst_step.
  destruct (var_at V (String c u)) as [[r k]|] eqn:E.
  - apply var_at_Some in E as (m & v & _ & _ & Hm & _). destruct (HV _ _ Hm) as (_ & _ & Hr & _ & Hb).
    destruct r as [|a r]; [done|]. rewrite str_mem_cons in Hb. apply orb_false_iff in Hb as [Ha _].
    apply bool_decide_eq_false in Ha. cbn. by rewrite bool_decide_false.
  - change ("{" +:+ n +:+ "}") with (String "{" (n +:+ "}")). cbn [has_prefix].
    destruct (bool_decide _) eqn:Hc; [|done]. apply bool_decide_eq_true in Hc. subst c. cbn [andb]. rewrite no_dollar_prefix; [done..|].
    cbn [flat] in Hf. by apply andb_true_iff in Hf as [Hf _].
Qed.

Lemma flat_app p s : flat (p +:+ s) = true → flat s = true.
Proof. intros H. apply (flat_drop (String.length p)) in H. by rewrite str_drop_app in H. Qed.

Lemma length_app_le p s : String.length s <= String.length (p +:+ s).
Proof. rewrite <-!length_bytes, bytes_app, length_app. lia. Qed.

Lemma replace_subst V n r : plain_vars V → V !! n = None → str_mem "$" n = false → str_mem "}" n = false →
  ∀ len s, String.length s <= len → flat s = true →
  replace_from (placeholder n) r 0 (subst_from V 0 s) = subst_from (<[n:=r]> V) 0 s.
Proof.
  intros HV Hn Hnd Hnb. induction len as [|len IH]; intros [|c t] Hlen Hf; try done; [cbn in Hlen; lia|].
  assert (String.length t <= len) as Hlen' by (cbn in Hlen; lia).
  destruct (var_at V (String c t)) as [[rv k]|] eqn:E; [|destruct (has_prefix (placeholder n) (String c t)) eqn:Ep].
  - apply var_at_Some in E as (m & u & Hs & Hm & HVm & _). destruct (HV _ _ HVm) as (_ & _ & _ & Hrv & _).
    rewrite Hs in *. rewrite (subst_match V m rv) by done.
    rewrite (subst_match (<[n:=r]> V) m rv) by (done || by rewrite lookup_insert_ne by congruence).
    rewrite replace_plain, IH; [done| | |done].
    + rewrite placeholder_app in Hs. injection Hs as -> ->. etrans; [apply (length_app_le ("{" +:+ m +:+ "}"))|exact Hlen'].
    + by apply flat_app in Hf.
  - apply has_prefix_spec in Ep as [u Hs]. pose proof Hs as Hs'. rewrite placeholder_app in Hs'.
    injection Hs' as -> Ht.
    change (t = ("{" +:+ n +:+ "}") +:+ u) in Ht. rewrite subst_miss by done. rewrite Ht, subst_plain.
    + change (String "$" (("{" +:+ n +:+ "}") +:+ subst_from V 0 u)) with (placeholder n +:+ subst_from V 0 u).
      rewrite replace_match, <-placeholder_app, (subst_match _ n r); [|done|apply lookup_insert_eq].
      rewrite IH; [done| |].
      * rewrite Ht in Hlen'. etrans; [apply length_app_le|exact Hlen'].
      * rewrite Hs in Hf. by apply flat_app in Hf.
    + by rewrite str_mem_app, str_mem_app, Hnd.
  - rewrite subst_miss by done.
    assert (var_at (<[n:=r]> V) (String c t) = None) as E'.
    { apply eq_None_not_Some. intros [[r' k] E']. apply var_at_Some in E' as (m & u & Hs & Hm & HVm & ->).
      rewrite lookup_insert in HVm. case_decide as Hnm; [subst m; by rewrite Hs, has_prefix_app in Ep|].
      assert (var_at V (String c t) = Some (r', String.length m + 2)) as E2 by (apply var_at_Some; eauto 10).
      congruence. }
    rewrite subst_miss by done. assert (flat t = true) as Hft by exact (flat_app (String c "") t Hf).
    rewrite replace_miss; [by rewrite IH|]. apply not_true_iff_false. intros Hp.
    destruct (decide (c = "$"%char)) as [->|Hc]; [|by rewrite placeholder_dollar in Hp].
    apply (brace_after V n t) in Hp; [|done..]. apply not_true_iff_false in Ep. by apply Ep.
Qed.

Lemma plain_sub V W : W ⊆ V → plain_vars V → plain_vars W.
Proof. intros Hs HV n r Hn. apply HV. by eapply lookup_weaken. Qed.

Lemma subst_empty s : subst_from ∅ 0 s = s.
Proof.
  induction s as [|c s IH]; [done|]. rewrite subst_miss, IH; [done|].
  destruct (var_at ∅ _) as [[r k]|] eqn:E; [|done]. by apply var_at_Some in E as (m & u & _ & _ & H & _).
Qed.

(** The loop of [expand], variable by variable. *)
Lemma expand_loop variables value : plain_vars variables → flat value = true →
  ∀ order V, NoDup order → V ⊆ variables → (∀ n, n ∈ order → V !! n = None ∧ is_Some (variables !! n)) →
  (∀ n, is_Some (variables !! n) → is_Some (V !! n) ∨ n ∈ order) →
  fold_left (λ value name, replace_all value (placeholder name) (default "" (variables !! name))) order
    (subst V value) = subst variables value.
Proof.
  intros Hp Hf. induction order as [|n order IH]; intros V Hnd Hsub Hnew Hall; cbn [fold_left].
  - f_equal. apply (anti_symm (⊆)); [done|]. apply map_subseteq_spec. intros n r Hn.
    destruct (Hall n) as [[r' Hr']|?%not_elem_of_nil]; [by eexists| |done].
    pose proof (lookup_weaken _ _ _ _ Hr' Hsub). congruence.
  - apply NoDup_cons in Hnd as [Hn Hnd]. destruct (Hnew n (list_elem_of_here _ _)) as [HV [r Hr]].
    destruct (Hp _ _ Hr) as (H1 & H2 & _). rewrite Hr. cbn [default].
    unfold replace_all, subst. rewrite (replace_subst V n r) with (len := String.length value);
      [|by eapply plain_sub|done..]. apply IH; [done| | |].
    + by apply insert_subseteq_l.
    + intros m Hm. rewrite lookup_insert_ne by congruence. apply Hnew. by apply list_elem_of_further.
    + intros m Hm. destruct (Hall m Hm) as [H|[->|H]%elem_of_cons]; [left|left|by right].
      * rewrite lookup_insert. case_decide; [by eexists|done].
      * rewrite lookup_insert_eq. by eexists.
Qed.

(** ** Properties *)

(** Expanding a value does not depend on the order in which the map of
    variables is visited: for variables and values as a session has them, it
    substitutes every known placeholder in one pass, and it fails exactly when
    a placeholder of one of the namespaces is left after that. *)
Theorem expand_one_pass order variables value :
  order ≡ₚ keys variables → plain_vars variables → flat value = true →
  match expand order variables value with
  | Ok v => v = subst variables value ∧
            ∀ ns, ns ∈ namespaces → str_contains ("${" +:+ ns) (subst variables value) = false
  | Err _ => ∃ ns, ns ∈ namespaces ∧ str_contains ("${" +:+ ns) (subst variables value) = true
  end.
Proof.
  intros Ho Hp Hf. unfold expand.
  pose proof (expand_loop variables value Hp Hf order ∅) as H. unfold subst at 1 in H. rewrite subst_empty in H.
  rewrite H; clear H; [| |apply map_empty_subseteq| |].
  - destruct (list_find _ _) as [[i ns]|] eqn:E.
    + apply list_find_Some in E as (Hi & Hc & _). exists ns. split; [|done]. by eapply list_elem_of_lookup_2.
    + split; [done|]. intros ns Hns. apply list_find_None in E. rewrite Forall_forall in E.
      specialize (E ns Hns). by apply not_true_iff_false.
  - rewrite Ho. apply NoDup_keys.
  - intros n Hn. split; [apply lookup_empty|]. rewrite Ho in Hn. by apply elem_of_keys.
  - intros n Hn. right. rewrite Ho. by apply elem_of_keys.
Qed.

(** ** Witnesses *)

Definition example_vars : gmap string string :=
  <["ports.api.http" := "8080"]> {["session.name" := "default"]}.

Lemma example_vars_plain : plain_vars example_vars.
Proof.
  intros n r Hn. unfold example_vars in Hn.
  apply lookup_insert_Some in Hn as [[<- <-]|[_ [<- <-]%lookup_singleton_Some]]; vm_compute;
    split_and!; try done; discriminate.
Qed.

Lemma expand_one_pass_witness :
  let s := "serve -n ${session.name} :${ports.api.http} $HOME" in
  expand ["session.name"; "ports.api.http"] example_vars s = Ok "serve -n default :8080 $HOME" ∧
  "serve -n default :8080 $HOME" = subst example_vars s ∧
  ∀ ns, ns ∈ namespaces → str_contains ("${" +:+ ns) (subst example_vars s) = false.
Proof.
  intros s. split; [vm_compute; reflexivity|].
  pose proof (expand_one_pass ["session.name"; "ports.api.http"] example_vars s) as H.
  assert (["session.name"; "ports.api.http"] ≡ₚ keys example_vars) as Ho by (vm_compute; reflexivity).
  specialize (H Ho example_vars_plain eq_refl). exact H.
Defined.
