(* ===== verification/EnvFile.v ===== *)
(** * The env_file parser

    [parseEnvFile]: the lines a [bufio.Scanner] yields, the length limit, and
    the key=value syntax.  Reading the file is an argument: the text of the
    error opening it, or its bytes together with the error that ended the
    read, if any. *)

From S2P Require Import Prelude GoStrings ConfigTypes.

Definition LF : ascii := chr 10.
Definition CR : ascii := chr 13.
Definition quote2 : ascii := chr 34.
Definition quote1 : ascii := chr 39.

(** What reading a file gives: bytes and the read error, or the open error. *)
Definition file_read : Type := res string (string * option string).

(** [bufio.ScanLines] drops one carriage return at the end of a line. *)
Definition drop_cr (s : string) : string :=
  match rev (bytes s) with
  | c :: l => if bool_decide (c = CR) then of_bytes (rev l) else s
  | [] => s
  end.

(** The tokens of [bufio.ScanLines]: the text before each newline, and a last
    unterminated line when it is not empty. *)
Fixpoint scan_lines (cur : string) (s : string) : list string :=
  match s with
  | EmptyString => if bool_decide (cur = "") then [] else [drop_cr cur]
  | String c t => if bool_decide (c = LF) then drop_cr cur :: scan_lines "" t
                  else scan_lines (cur +:+ String c "") t
  end.

(** Source: internal/config/config.go:1293-1299 (parseEnvFile, quotes). *)
Definition strip_quotes (val : string) : string :=
  match bytes val with
  | q :: (_ :: _) as rest =>
      if (bool_decide (q = quote2) && bool_decide (List.last rest q = quote2))
         || (bool_decide (q = quote1) && bool_decide (List.last rest q = quote1))
      then of_bytes (removelast rest) else val
  | _ => val
  end.

(** One line: nothing for a blank line, a comment or a line without "=".
    Source: internal/config/config.go:1283-1299 (parseEnvFile, line). *)
Definition parse_env_line (text : string) : option (string * string) :=
  let line := trim_space text in
  if bool_decide (line = "") || has_prefix "#" line then None
  else match cut_byte "="%char line with
       | None => None
       | Some (k, v) => Some (trim_space k, strip_quotes (trim_space v))
       end.

(** Source: internal/config/config.go:1274-1276 (parseEnvFile, tooLong). *)
Definition too_long (path : string) (lineNo : Z) : string :=
  "cannot read env file " +:+ path +:+ ": line " +:+ itoa lineNo +:+
  " is longer than 1 MiB (" +:+ itoa maxEnvFileLine +:+ " bytes)".

(** The scan loop.
    Source: internal/config/config.go:1277-1301 (parseEnvFile, loop). *)
Fixpoint env_lines (path : string) (lineNo : Z) (result : gmap string string)
    (lines : list string) : res string (gmap string string) :=
  match lines with
  | [] => Ok result
  | text :: lines =>
      let lineNo := (lineNo + 1)%Z in
      if (maxEnvFileLine <? str_len text)%Z then Err (too_long path lineNo)
      else env_lines path lineNo
             match parse_env_line text with
             | Some (key, val) => <[key := val]> result
             | None => result
             end lines
  end.

(** Source: internal/config/config.go:1259-1309 (parseEnvFile). *)
Definition parseEnvFile (path : string) (file : file_read) : res string (gmap string string) :=
  match file with
  | Err err => Err ("cannot read env file " +:+ path +:+ ": " +:+ err)
  | Ok (content, read_err) =>
      res_bind (λ result, match read_err with
                          | Some err => Err ("cannot read env file " +:+ path +:+ ": " +:+ err)
                          | None => Ok result
                          end)
               (env_lines path 0 ∅ (scan_lines "" content))
  end.

(** ** Lemmas *)

(** The variables of a list of lines, later lines first. *)
Definition env_of_lines (lines : list string) : gmap string string :=
  fold_left (λ m text, match parse_env_line text with
                       | Some (k, v) => <[k := v]> m
                       | None => m
                       end) lines ∅.

Lemma env_lines_Ok path n m lines :
  Forall (λ l, (str_len l ≤ maxEnvFileLine)%Z) lines →
  env_lines path n m lines =
  Ok (fold_left (λ m text, match parse_env_line text with
                           | Some (k, v) => <[k := v]> m
                           | None => m
                           end) lines m).
Proof.
  intros H. revert n m. induction H as [|l lines Hl _ IH]; intros n m; cbn [env_lines]; [done|].
  rewrite (proj2 (Z.ltb_ge _ _)) by done. cbn [fold_left]. apply IH.
Qed.

Lemma env_lines_too_long path n m l1 text l2 :
  Forall (λ l, (str_len l ≤ maxEnvFileLine)%Z) l1 → (maxEnvFileLine < str_len text)%Z →
  env_lines path n m (l1 ++ text :: l2) = Err (too_long path (n + Z.of_nat (length l1) + 1)).
Proof.
  intros H Ht. revert n m. induction H as [|l lines Hl _ IH]; intros n m; cbn [app env_lines].
  - rewrite (proj2 (Z.ltb_lt _ _)) by done. do 2 f_equal. cbn. lia.
  - rewrite (proj2 (Z.ltb_ge _ _)) by done. rewrite IH. cbn [length]. f_equal. f_equal. lia.
Qed.

Lemma split_first_long lines :
  Forall (λ l, (str_len l ≤ maxEnvFileLine)%Z) lines ∨
  ∃ l1 text l2, lines = l1 ++ text :: l2 ∧
    Forall (λ l, (str_len l ≤ maxEnvFileLine)%Z) l1 ∧ (maxEnvFileLine < str_len text)%Z.
Proof.
  induction lines as [|l lines IH]; [left; constructor|].
  destruct (decide (str_len l ≤ maxEnvFileLine)%Z) as [Hl|Hl].
  - destruct IH as [IH|(l1 & t & l2 & -> & H1 & Ht)]; [left; by constructor|].
    right. exists (l :: l1), t, l2. split; [done|]. split; [by constructor|done].
  - right. exists [], l, lines. split; [done|]. split; [constructor|lia].
Qed.

(** *** Round trip with a plain rendering *)

(** Bytes a key or a value can hold without being changed by the parser:
    printable ASCII, no quote. *)
Definition plain_byte (c : ascii) : bool :=
  in_range 33 126 c && negb (bool_decide (c = quote1)) && negb (bool_decide (c = quote2)).

Definition plain_value (v : string) : bool := str_all plain_byte v.
Definition plain_key (k : string) : bool :=
  str_all plain_byte k && negb (str_mem "="%char k) && negb (has_prefix "#" k).

Definition render_line (kv : string * string) : string := kv.1 +:+ "=" +:+ kv.2.
Definition render_env (l : list (string * string)) : string :=
  fold_right (λ kv s, render_line kv +:+ String LF s) "" l.

Lemma plain_not_space c : plain_byte c = true → space1 c = false ∧ code c < 128 ∧ c ≠ LF ∧ c ≠ CR.
Proof.
  unfold plain_byte, in_range, space1, in_range. rewrite !andb_true_iff, !Nat.leb_le.
  intros [[[H1 H2] _] _]. split.
  - apply orb_false_iff. split; [apply andb_false_iff; right; apply Nat.leb_gt; lia|].
    apply bool_decide_eq_false. lia.
  - split; [lia|]. split; intros ->; vm_compute in H1; lia.
Qed.

Lemma str_all_rev f s : str_all f (str_rev s) = str_all f s.
Proof.
  unfold str_all, str_rev. rewrite bytes_of_bytes. apply eq_iff_eq_true.
  rewrite !forallb_forall. setoid_rewrite <-in_rev. done.
Qed.

Lemma space2_small a b : code a < 128 → space2 a b = false.
Proof. intros H. unfold space2. rewrite bool_decide_eq_false_2 by lia. done. Qed.
Lemma space3_small a b c : code a < 128 → space3 a b c = false.
Proof. intros H. unfold space3. rewrite !(bool_decide_eq_false_2 (code a = _)) by lia. done. Qed.
Lemma space2_small_r a b : code b < 128 → space2 a b = false.
Proof. intros H. unfold space2. rewrite !(bool_decide_eq_false_2 (code b = _)) by lia. by rewrite andb_false_r. Qed.
Lemma space3_small_r a b c : code c < 128 → space3 a b c = false.
Proof.
  intros H. unfold space3, in_range.
  rewrite !(bool_decide_eq_false_2 (code c = _)) by lia.
  rewrite (proj2 (Nat.leb_gt 128 (code c))) by lia. cbn. by rewrite !andb_false_r.
Qed.

Lemma trim_left_plain s : str_all plain_byte s = true → trim_left s = s.
Proof.
  destruct s as [|a s]; [done|]. cbn. rewrite andb_true_iff. intros [Ha _].
  destruct (plain_not_space a Ha) as (-> & Hc & _).
  destruct s as [|b s]; [done|]. rewrite space2_small by done.
  destruct s as [|c s]; [done|]. by rewrite space3_small.
Qed.

Lemma trim_left_rev_plain s : str_all plain_byte s = true → trim_left_rev s = s.
Proof.
  destruct s as [|a s]; [done|]. cbn. rewrite andb_true_iff. intros [Ha _].
  destruct (plain_not_space a Ha) as (-> & Hc & _).
  destruct s as [|b s]; [done|]. rewrite space2_small_r by done.
  destruct s as [|c s]; [done|]. by rewrite space3_small_r.
Qed.

Lemma trim_space_plain s : str_all plain_byte s = true → trim_space s = s.
Proof.
  intros H. unfold trim_space, trim_right. rewrite trim_left_plain by done.
  rewrite trim_left_rev_plain; [apply str_rev_involutive|]. by rewrite str_all_rev.
Qed.

Lemma strip_quotes_plain v : plain_value v = true → strip_quotes v = v.
Proof.
  unfold plain_value, strip_quotes. destruct v as [|a v]; [done|]. cbn.
  rewrite andb_true_iff. intros [Ha _].
  unfold plain_byte in Ha. rewrite !andb_true_iff, !negb_true_iff in Ha.
  destruct Ha as [[_ H1] H2]. destruct (bytes v); [done|]. by rewrite H1, H2.
Qed.

Lemma parse_render_line k v :
  plain_key k = true → plain_value v = true → parse_env_line (render_line (k, v)) = Some (k, v).
Proof.
  unfold plain_key, parse_env_line, render_line. cbn [fst snd].
  rewrite !andb_true_iff, !negb_true_iff. intros [[Hk Hne] Hh] Hv.
  assert (str_all plain_byte (k +:+ "=" +:+ v) = true) as Hall.
  { rewrite !str_all_app, Hk. done. }
  rewrite trim_space_plain by done.
  rewrite (proj2 (cut_byte_Some "="%char _ k v)) by done.
  rewrite (trim_space_plain k), (trim_space_plain v), strip_quotes_plain by done.
  rewrite bool_decide_eq_false_2 by by destruct k.
  destruct k as [|a k]; [done|]. cbn in Hh |- *. by rewrite Hh.
Qed.

Lemma drop_cr_plain s : str_all plain_byte s = true → drop_cr s = s.
Proof.
  intros H. unfold drop_cr. destruct (rev (bytes s)) as [|c l] eqn:E; [done|].
  rewrite bool_decide_eq_false_2; [done|]. intros ->.
  unfold str_all in H. rewrite forallb_forall in H.
  assert (In CR (bytes s)) as Hin by (apply in_rev; rewrite E; by left).
  apply H in Hin. by vm_compute in Hin.
Qed.

Lemma scan_lines_plain s cur t :
  str_all plain_byte s = true →
  scan_lines cur (s +:+ String LF t) = drop_cr (cur +:+ s) :: scan_lines "" t.
Proof.
  revert cur; induction s as [|a s IH]; intros cur; cbn.
  - intros _. by rewrite bool_decide_true, str_app_nil.
  - rewrite andb_true_iff. intros [Ha Hs]. destruct (plain_not_space a Ha) as (_ & _ & Hlf & _).
    rewrite bool_decide_false by done. rewrite IH by done. by rewrite str_app_assoc.
Qed.

Lemma scan_render l :
  Forall (λ kv, plain_key kv.1 = true ∧ plain_value kv.2 = true) l →
  scan_lines "" (render_env l) = map render_line l.
Proof.
  induction 1 as [|[k v] l [Hk Hv] _ IH]; [done|]. cbn [render_env fold_right map].
  assert (str_all plain_byte (render_line (k, v)) = true) as Hall.
  { unfold render_line, plain_key in *. cbn [fst snd] in *. rewrite !str_all_app.
    rewrite !andb_true_iff in Hk. destruct Hk as [[-> _] _]. done. }
  rewrite scan_lines_plain by done. cbn [String.append]. by rewrite drop_cr_plain, <-IH.
Qed.

(** A readable env_file is parsed line by line, later lines overriding
    earlier ones, unless a line is longer than the limit: then the parse fails
    at the first such line and names its 1-based number. *)
Theorem parseEnvFile_spec path content :
  parseEnvFile path (Ok (content, None)) =
  match list_find (λ l, (maxEnvFileLine < str_len l)%Z) (scan_lines "" content) with
  | None => Ok (env_of_lines (scan_lines "" content))
  | Some (i, _) => Err (too_long path (Z.of_nat i + 1))
  end.
Proof.
  unfold parseEnvFile. set (lines := scan_lines "" content).
  destruct (split_first_long lines) as [Hall|(l1 & t & l2 & Heq & Hl1 & Ht)].
  - rewrite env_lines_Ok by done. cbn [res_bind].
    rewrite (proj2 (list_find_None _ _)); [done|].
    eapply Forall_impl; [done|]. intros l Hl. cbn in *. lia.
  - rewrite Heq, env_lines_too_long by done. cbn [res_bind].
    rewrite (proj2 (list_find_Some _ _ (length l1) t)); [f_equal; f_equal; lia|].
    split; [by rewrite list_lookup_middle|]. split; [done|].
    intros j y Hj Hlt. rewrite lookup_app_l in Hj by done.
    rewrite Forall_lookup in Hl1. specialize (Hl1 j y Hj). cbn in *. lia.
Qed.

Lemma env_of_render l :
  Forall (λ kv, plain_key kv.1 = true ∧ plain_value kv.2 = true) l → NoDup l.*1 →
  env_of_lines (map render_line l) = list_to_map l.
Proof.
  intros Hl Hnd. unfold env_of_lines.
  assert (∀ m, (∀ k, k ∈ l.*1 → m !! k = None) →
    fold_left (λ m text, match parse_env_line text with
                         | Some (k, v) => <[k := v]> m
                         | None => m
                         end) (map render_line l) m = (list_to_map l : gmap string string) ∪ m) as H.
  { induction Hl as [|[k v] l [Hk Hv] Hl IH]; intros m Hm; cbn [map fold_left].
    { cbn. by rewrite (left_id_L ∅ (∪)). }
    cbn in Hnd. apply NoDup_cons in Hnd as [Hnk Hnd].
    rewrite parse_render_line by done. rewrite IH; [|done|].
    - cbn [list_to_map foldr uncurry]. rewrite <-insert_union_l, <-insert_union_r; [done|].
      by apply not_elem_of_list_to_map_1.
    - intros k' Hk'. rewrite lookup_insert_ne by (by intros ->). apply Hm. cbn. set_solver. }
  rewrite H; [apply (right_id_L ∅ (∪))|]. intros. apply lookup_empty.
Qed.

(** C38: a file that renders a set of plain variables, one "key=value" per
    line, is parsed back to exactly those variables. *)
Theorem parseEnvFile_roundtrip path l :
  Forall (λ kv, plain_key kv.1 = true ∧ plain_value kv.2 = true) l →
  Forall (λ kv, (str_len (render_line kv) ≤ maxEnvFileLine)%Z) l →
  NoDup l.*1 →
  parseEnvFile path (Ok (render_env l, None)) = Ok (list_to_map l).
Proof.
  intros Hl Hlen Hnd. unfold parseEnvFile. rewrite scan_render by done.
  rewrite env_lines_Ok; [|by apply Forall_map]. cbn [res_bind]. f_equal.
  by apply env_of_render.
Qed.

Example parse_env_sample :
  parseEnvFile "x" (Ok (of_bytes (bytes "# c" ++ [LF] ++ bytes " PORT = '80' " ++ [CR; LF] ++
    bytes "nokey" ++ [LF] ++ bytes "A=b=c"), None)) =
  Ok (<["A" := "b=c"]> {["PORT" := "80"]}).
Proof. vm_compute. reflexivity. Qed.

Lemma parseEnvFile_roundtrip_witness :
  let l := [("PORT", "8080"); ("API_URL", "http://localhost:3000/?a=b"); ("EMPTY", "")] in
  parseEnvFile ".env" (Ok (render_env l, None)) = Ok (list_to_map l).
Proof.
  intros l. apply (parseEnvFile_roundtrip ".env" l).
  - repeat constructor; reflexivity.
  - repeat constructor; vm_compute; discriminate.
  - cbn. repeat constructor; set_solver.
Defined.
