(* ===== verification/ConfigMerge.v ===== *)
(** * The merge section

    The proxy command, the ports its upstreams are known to serve, the
    selection of the client and server processes and the wiring [Load] writes
    into them.  The files, the directory functions, [url.Parse] and the PORT of
    the environment are arguments. *)

From S2P Require Import Prelude GoStrings ConfigTypes References EnvFile ConfigValidate.

(** ** The proxy command *)

(** An error of [buildMergeCmd]: a plain one, about the section as a whole, or
    a [*ValidationError] that names a field. *)
Inductive merge_error : Type :=
  | MergePlain (format : string) (args : list arg)
  | MergeField (e : ValidationError).

(** Source: internal/config/config.go:745-755 (checkPortRange). *)
Definition checkPortRange (field : string) (port : Z) : res ValidationError unit :=
  return_if (port <? 1)%Z || (65535 <? port)%Z
    with invalid CodeInvalidMerge [SKey "merge"; SKey field] None
           "merge.%s port %d is out of range (1-65535)" [AStr field; AInt port] ;;
  Ok tt.

(** Source: internal/config/config.go:1127-1135 (routeTarget). *)
Definition routeTarget (route : string) : option string :=
  match cut_last "="%char route with
  | Some (_, target) => Some (trim_space target)
  | None => None
  end.

(** Source: internal/config/config.go:1137-1149 (parseRoutePort). *)
Definition parseRoutePort (route : string) : Z :=
  match routeTarget route with
  | None => 0
  | Some target =>
      match atoi target with
      | Some port => if (port <=? 0)%Z then 0 else port
      | None => 0
      end
  end.

(** Source: internal/config/config.go:761-774 (checkRouteTarget). *)
Definition checkRouteTarget (i : Z) (route : string) : res ValidationError unit :=
  match routeTarget route with
  | None => Ok tt
  | Some target =>
      if negb (integerRe target) then Ok tt else
      return_if match atoi target with
                | None => true
                | Some port => (port <? 1)%Z || (65535 <? port)%Z
                end
        with invalid CodeInvalidMerge [SKey "merge"; SKey "routes"; SIdx i] None
               "merge.routes[%d] target port %s is out of range (1-65535)" [AInt i; AStr target] ;;
      Ok tt
  end.

Definition as_field {A} (r : res ValidationError A) : res merge_error A :=
  match r with Ok a => Ok a | Err e => Err (MergeField e) end.

(** Source: internal/config/config.go:725-734 (buildMergeCmd, $PORT fallback). *)
Definition merge_port (portEnv : string) (m : Merge) : Z :=
  if (m_Port m =? 0)%Z then
    match (if bool_decide (portEnv = "") then None else atoi portEnv) with
    | Some p => if (0 <? p)%Z then p else 8080
    | None => 8080
    end
  else m_Port m.

(** The command and the merge section with its port finalised.
    Source: internal/config/config.go:684-743 (buildMergeCmd). *)
Definition buildMergeCmd (portEnv : string) (m : Merge) : res merge_error (string * Merge) :=
  let routeMode := 0 <? length (m_Routes m) in
  let simpleMode := negb (m_Client m =? 0)%Z || negb (m_Server m =? 0)%Z
                    || (0 <? length (m_ApiPrefixes m)) in
  return_if routeMode && simpleMode
    with MergePlain "merge: routes cannot be combined with client, server, or api_prefixes" [] ;;
  return_if negb routeMode && negb simpleMode
    with MergePlain "merge: must specify client/server or routes" [] ;;
  parts ← (if routeMode then
             check as_field (each_res (λ ir : nat * string, checkRouteTarget (Z.of_nat ir.1) ir.2)
                               (imap pair (m_Routes m))) ;;
             Ok ("merge-port" :: ((λ r, "--route " +:+ r) <$> m_Routes m))
           else
             return_if (m_Client m =? 0)%Z with MergePlain "merge.client port is required" [] ;;
             return_if (m_Server m =? 0)%Z with MergePlain "merge.server port is required" [] ;;
             check as_field (checkPortRange "client" (m_Client m)) ;;
             check as_field (checkPortRange "server" (m_Server m)) ;;
             Ok (["merge-port"; "--client " +:+ itoa (m_Client m); "--server " +:+ itoa (m_Server m)]
                   ++ ((λ p, "--api-prefix " +:+ p) <$> m_ApiPrefixes m)));
  let m := set_Port (merge_port portEnv m) m in
  check as_field (checkPortRange "port" (m_Port m)) ;;
  Ok (join " " (parts ++ ["--port " +:+ itoa (m_Port m)]), m).

(** ** The ports processes serve *)

(** Source: internal/config/config.go:1006-1019 (ServedPort). *)
Record ServedPort : Type := mkServedPort {
  sp_Port : Z;
  sp_Named : list string;
  sp_declared : string * list arg;
}.

(** The entry [servedPorts] makes for one process.
    Source: internal/config/config.go:1039-1065 (servedPorts, loop body). *)
Definition servedPort (procs : gmap string Process) (envFiles : gmap string envFile)
    (name : string) (proc : Process) : option ServedPort :=
  let '(value, whr) :=
    match p_Env proc !! "PORT" with
    | Some v => (Some v, "")
    | None => (ef_vars (env_at envFiles name) !! "PORT", " in its env_file")
    end in
  match value with
  | None =>
      let preferred := default 0%Z (p_Ports proc !! "http") in
      if (1 <=? preferred)%Z && (preferred <=? 65535)%Z
      then Some (mkServedPort preferred [name +:+ ".http"]
                   ("is given PORT %d by ports.http", [AInt preferred]))
      else None
  | Some value =>
      let '(resolved, named, ok) := resolvePortReferences procs value in
      let resolved := trim_space resolved in
      if negb ok || bool_decide (resolved = "") then None else
      let port := match atoi resolved with
                  | Some port => if (0 <? port)%Z then port else 0%Z
                  | None => 0%Z
                  end in
      let declared :=
        if bool_decide (resolved = trim_space value)
        then ("declares PORT %q%s", [AStr value; AStr whr])
        else ("declares PORT %q (%s)%s", [AStr value; AStr resolved; AStr whr]) in
      Some (mkServedPort port named declared)
  end.

(** Source: internal/config/config.go:1029-1068 (servedPorts). *)
Definition servedPorts (procs : gmap string Process) (envFiles : gmap string envFile)
    : gmap string ServedPort :=
  map_imap (servedPort procs envFiles) procs.

(** Source: internal/config/config.go:1021-1027 (ServedPorts). *)
Definition ServedPorts (procs : gmap string Process) : gmap string ServedPort :=
  servedPorts procs ∅.

(** Source: internal/config/config.go:1111-1125 (checkUpstreamPort). *)
Definition checkUpstreamPort (field name : string) (served : gmap string ServedPort)
    (mergePort : Z) : res ValidationError unit :=
  match served !! name with
  | None => Ok tt
  | Some s =>
      return_if negb (sp_Port s =? mergePort)%Z
        with invalid CodeInvalidMerge [SKey "merge"; SKey field] None
               ("process %q " +:+ (sp_declared s).1 +:+
                " but merge.%s is %d: the proxy and its readiness probe target the merge port")
               (AStr name :: (sp_declared s).2 ++ [AStr field; AInt mergePort]) ;;
      Ok tt
  end.

(** ** Selecting the upstreams *)

(** Source: internal/config/config.go:980-991 (serviceUpstreams). *)
Definition serviceUpstreams (procs : gmap string Process) : gmap string Process :=
  filter (λ kv, EffectiveMode kv.2 = ProcessModeService) procs.

(** Source: internal/config/config.go:993-1004 (checkClientProcess). *)
Definition checkClientProcess (procs : gmap string Process) (m : Merge)
    : res ValidationError unit :=
  match (if bool_decide (m_ClientProcess m = "") then None else procs !! m_ClientProcess m) with
  | None => Ok tt
  | Some proc =>
      return_if negb (bool_decide (EffectiveMode proc = ProcessModeService))
        with invalid CodeInvalidMerge [SKey "merge"; SKey "client_process"] None
               "merge.client_process names %q, a %s process: only a service can be the merge client"
               [AStr (m_ClientProcess m); AStr (EffectiveMode proc)] ;;
      Ok tt
  end.

(** The first name of a list with a property; [""] when there is none. *)
Definition first_name (P : string → bool) (l : list string) : string :=
  match list_find (λ n, P n = true) l with Some (_, n) => n | None => "" end.

Definition serves (served : gmap string ServedPort) (port : Z) (name : string) : bool :=
  match served !! name with Some s => (sp_Port s =? port)%Z | None => false end.

(** Source: internal/config/config.go:1151-1168 (procWithPort). *)
Definition procWithPort (procs : gmap string Process) (served : gmap string ServedPort)
    (port : Z) : string :=
  if (port <=? 0)%Z then ""
  else first_name (λ name, negb (bool_decide (name = MergePortProcessName)) && serves served port name)
         (SortedProcessNames procs).

Definition configured (procs : gmap string Process) (name : string) : bool :=
  bool_decide (is_Some (procs !! name)).

(** Source: internal/config/config.go:1170-1183 (findServerProc). *)
Definition findServerProc (procs : gmap string Process) (served : gmap string ServedPort)
    (m : Merge) : string :=
  let name := procWithPort procs served (m_Server m) in
  if negb (bool_decide (name = "")) then name
  else first_name (configured procs) ["server"; "backend"; "api"].

(** Source: internal/config/config.go:1202-1220 (findClientProc). *)
Definition findClientProc (procs : gmap string Process) (served : gmap string ServedPort)
    (m : Merge) : string :=
  if negb (bool_decide (m_ClientProcess m = "")) && configured procs (m_ClientProcess m)
  then m_ClientProcess m
  else
    let name := procWithPort procs served (m_Client m) in
    if negb (bool_decide (name = "")) then name
    else first_name (configured procs) ["client"; "frontend"; "web"; "ui"; "app"].

(** One route of the route mode.
    Source: internal/config/config.go:954-962 (resolveUpstreamProcesses, route loop). *)
Definition route_upstream (procs : gmap string Process) (served : gmap string ServedPort)
    (out : gmap string Z) (route : string) : gmap string Z :=
  let port := parseRoutePort route in
  if (port =? 0)%Z then out
  else let name := procWithPort procs served port in
       if negb (bool_decide (name = "")) then <[name := port]> out else out.

(** Source: internal/config/config.go:937-978 (resolveUpstreamProcesses). *)
Definition resolveUpstreamProcesses (procs : gmap string Process)
    (served : gmap string ServedPort) (m : Merge) : res ValidationError (gmap string Z) :=
  if 0 <? length (m_Routes m)
  then Ok (fold_left (route_upstream procs served) (m_Routes m) ∅)
  else
    let client := findClientProc procs served m in
    let server := findServerProc procs served m in
    out ← (if negb (bool_decide (client = "")) && (0 <? m_Client m)%Z
           then check checkUpstreamPort "client" client served (m_Client m) ;;
                Ok (<[client := m_Client m]> (∅ : gmap string Z))
           else Ok (∅ : gmap string Z));
    if negb (bool_decide (server = "")) && (0 <? m_Server m)%Z
    then check checkUpstreamPort "server" server served (m_Server m) ;;
         Ok (<[server := m_Server m]> out)
    else Ok out.

(** Source: internal/config/config.go:1185-1200 (injectTCPReadyIfMissing). *)
Definition injectTCPReadyIfMissing (procs : gmap string Process) (name : string) (port : Z)
    : gmap string Process :=
  if bool_decide (name = "") || (port =? 0)%Z then procs
  else match procs !! name with
       | None => procs
       | Some p =>
           if bool_decide (p_ReadyWhen p ≠ None) then procs
           else <[name := set_ReadyWhen
                            (Some (mkReadyWhen "" ("localhost:" +:+ itoa port) "" "")) p]> procs
       end.

(** The error of [resolveUpstreamProcesses] is discarded, with its nil map.
    Source: internal/config/config.go:1090-1109 (MergeUpstreamPorts). *)
Definition MergeUpstreamPorts (cfg : Config) : list string :=
  match c_Merge cfg with
  | None => []
  | Some m =>
      let served := ServedPorts (c_Processes cfg) in
      let upstreams := match resolveUpstreamProcesses (serviceUpstreams (c_Processes cfg)) served m with
                       | Ok u => u
                       | Err _ => ∅
                       end in
      compact (sort_strings
        (name ← keys upstreams; match served !! name with Some s => sp_Named s | None => [] end))
  end.

(** ** The client environment *)

Section files.
(** [filepath.IsAbs], [filepath.Join] of two elements, whether [os.Stat]
    succeeds, reading a file, and [url.Parse] as host and path. *)
Context (is_abs : string → bool) (path_join : string → string → string)
        (stat_ok : string → bool) (read_file : string → file_read)
        (url_parse : string → option (string * string)).

(** Source: internal/config/config.go:1222-1231 (procDir). *)
Definition procDir (dir configDir : string) : string :=
  if bool_decide (dir = "") then configDir
  else if is_abs dir then dir else path_join configDir dir.

(** Source: internal/config/config.go:921-933 (rebaseURL). *)
Definition rebaseURL (exampleVal mergeBase : string) : string :=
  if bool_decide (exampleVal = "") then mergeBase
  else match url_parse exampleVal with
       | None => mergeBase
       | Some (host, path) =>
           if bool_decide (host = "") then mergeBase
           else mergeBase +:+ trim_right_byte "/"%char path
       end.

(** Source: internal/config/config.go:868-880 (apiEnvVars). *)
Definition apiEnvVars : list string :=
  ["VITE_API_BASE_URL"; "VITE_API_URL"; "VITE_SERVER_URL"; "REACT_APP_API_URL";
   "REACT_APP_BASE_URL"; "REACT_APP_API_BASE_URL"; "NEXT_PUBLIC_API_URL";
   "NEXT_PUBLIC_API_BASE_URL"; "NUXT_PUBLIC_API_BASE"; "PUBLIC_API_URL"].

(** The loop over the variable names.
    Source: internal/config/config.go:895-914 (injectClientAPIEnv, loop). *)
Definition inject_vars (fileEnv env : gmap string string) (mergeBase : string)
    : gmap string string :=
  fold_left (λ env varName,
      match env !! varName with
      | Some _ => env
      | None => match fileEnv !! varName with
                | None => env
                | Some exampleVal => <[varName := rebaseURL exampleVal mergeBase]> env
                end
      end) apiEnvVars env.

(** Source: internal/config/config.go:882-919 (injectClientAPIEnv). *)
Definition injectClientAPIEnv (procs : gmap string Process) (clientName clientDir : string)
    (m : Merge) : gmap string Process :=
  let proc := proc_at procs clientName in
  let envFile := path_join clientDir ".env.example" in
  let envFile := if stat_ok envFile then envFile else path_join clientDir ".env" in
  let fileEnv := match parseEnvFile envFile (read_file envFile) with
                 | Ok vars => vars
                 | Err _ => ∅
                 end in
  let mergeBase := "http://localhost:" +:+ itoa (m_Port m) in
  let env := inject_vars fileEnv (p_Env proc) mergeBase in
  if bool_decide (env = p_Env proc) then procs
  else <[clientName := set_Env env proc]> procs.

(** Source: internal/config/config.go:1241-1257 (readEnvFiles). *)
Definition readEnvFiles (procs : gmap string Process) (configDir : string)
    : gmap string envFile :=
  map_imap (λ _ proc,
    if bool_decide (p_EnvFile proc = "") then None
    else let path := if is_abs (p_EnvFile proc) then p_EnvFile proc
                     else path_join configDir (p_EnvFile proc) in
         Some (match parseEnvFile path (read_file path) with
               | Ok vars => mkEnvFile vars None
               | Err err => mkEnvFile ∅ (Some err)
               end)) procs.
End files.

(** Source: internal/config/config.go:856-864 (topPrefix). *)
Definition topPrefix (path : string) : string :=
  let trimmed := match path with String "/" t => t | _ => path end in
  let first := match cut_byte "/"%char trimmed with Some (a, _) => a | None => trimmed end in
  if bool_decide (first = "") then "/" else "/" +:+ first.

(** ** Lemmas *)

Lemma checkPortRange_Ok field port :
  checkPortRange field port = Ok tt ↔ (1 ≤ port ≤ 65535)%Z.
Proof. unfold checkPortRange. rewrite return_if_Ok. gobool. naive_solver lia. Qed.

Lemma as_field_Ok {A} (r : res ValidationError A) a : as_field r = Ok a ↔ r = Ok a.
Proof. destruct r; cbn; naive_solver. Qed.

Lemma first_name_spec P l :
  first_name P l ≠ "" → first_name P l ∈ l ∧ P (first_name P l) = true.
Proof.
  unfold first_name. destruct (list_find _ l) as [[i n]|] eqn:E; [|done].
  apply list_find_Some in E as (H1 & H2 & _). intros _. split; [|done].
  by eapply list_elem_of_lookup_2.
Qed.

Lemma procWithPort_spec procs served port :
  procWithPort procs served port ≠ "" →
  is_Some (procs !! procWithPort procs served port) ∧ (0 < port)%Z ∧
  procWithPort procs served port ≠ MergePortProcessName ∧
  ∃ s, served !! procWithPort procs served port = Some s ∧ sp_Port s = port.
Proof.
  unfold procWithPort. case_match eqn:Hp; [done|]. intros H.
  apply first_name_spec in H as [Hin HP]. apply elem_of_SortedProcessNames in Hin.
  unfold serves in HP. apply andb_true_iff in HP as [Hn Hs].
  split; [done|]. split; [by apply Z.leb_gt|].
  split; [by apply negb_true_iff, bool_decide_eq_false in Hn|].
  destruct (served !! _) as [s|]; [|done]. exists s. split; [done|]. by apply Z.eqb_eq.
Qed.

Lemma findClientProc_configured procs served m :
  findClientProc procs served m ≠ "" → is_Some (procs !! findClientProc procs served m).
Proof.
  unfold findClientProc, configured. case_match eqn:Hc.
  - intros _. apply andb_true_iff in Hc as [_ Hc]. by apply bool_decide_eq_true in Hc.
  - case_match eqn:Hn; intros H.
    + apply negb_true_iff, bool_decide_eq_false in Hn. by apply procWithPort_spec.
    + apply first_name_spec in H as [_ H]. by apply bool_decide_eq_true in H.
Qed.

Lemma findServerProc_configured procs served m :
  findServerProc procs served m ≠ "" → is_Some (procs !! findServerProc procs served m).
Proof.
  unfold findServerProc, configured. case_match eqn:Hn; intros H.
  - apply negb_true_iff, bool_decide_eq_false in Hn. by apply procWithPort_spec.
  - apply first_name_spec in H as [_ H]. by apply bool_decide_eq_true in H.
Qed.

Lemma checkUpstreamPort_Ok field name served port :
  checkUpstreamPort field name served port = Ok tt ↔
  ∀ s, served !! name = Some s → sp_Port s = port.
Proof.
  unfold checkUpstreamPort. destruct (served !! name) as [s|]; [|naive_solver].
  rewrite return_if_Ok, negb_false_iff, Z.eqb_eq. naive_solver.
Qed.

(** An upstream and its port agree with what is known of the process. *)
Definition upstream_ok (procs : gmap string Process) (served : gmap string ServedPort)
    (out : gmap string Z) : Prop :=
  ∀ name port, out !! name = Some port →
    name ≠ "" ∧ is_Some (procs !! name) ∧ (0 < port)%Z ∧
    ∀ s, served !! name = Some s → sp_Port s = port.

Lemma upstream_ok_insert procs served out name port :
  upstream_ok procs served out → name ≠ "" → is_Some (procs !! name) → (0 < port)%Z →
  (∀ s, served !! name = Some s → sp_Port s = port) →
  upstream_ok procs served (<[name := port]> out).
Proof.
  intros Hout Hne Hn Hp Hs n p. rewrite lookup_insert. case_decide; [|apply Hout].
  intros [= <-]. by subst.
Qed.

Lemma upstream_ok_empty procs served : upstream_ok procs served ∅.
Proof. intros n p. by rewrite lookup_empty. Qed.

Lemma route_upstream_ok procs served out route :
  upstream_ok procs served out → upstream_ok procs served (route_upstream procs served out route).
Proof.
  intros Hout. unfold route_upstream. case_match; [done|]. case_match eqn:Hn; [|done].
  apply negb_true_iff, bool_decide_eq_false in Hn.
  pose proof Hn as (? & ? & _ & s & Hs & Hp)%procWithPort_spec.
  apply upstream_ok_insert; [done..|]. intros s' Hs'. congruence.
Qed.

Lemma resolveUpstreamProcesses_ok procs served m out :
  resolveUpstreamProcesses procs served m = Ok out → upstream_ok procs served out.
Proof.
  unfold resolveUpstreamProcesses. case_match.
  { intros [= <-]. apply fold_left_invariant; [apply upstream_ok_empty|].
    intros o r _. apply route_upstream_ok. }
  intros Hres. apply res_bind_Ok in Hres as (out1 & H1 & H2).
  assert (upstream_ok procs served out1) as Hout1.
  { destruct (negb (bool_decide (findClientProc procs served m = "")) && (0 <? m_Client m)%Z)
      eqn:Hc; [|simplify_eq; apply upstream_ok_empty].
    apply andb_true_iff in Hc as [Hn%negb_true_iff%bool_decide_eq_false Hp%Z.ltb_lt].
    apply check_Ok in H1 as [Hu [= <-]]. rewrite checkUpstreamPort_Ok in Hu.
    apply upstream_ok_insert; [apply upstream_ok_empty|done|by apply findClientProc_configured|done..]. }
  destruct (negb (bool_decide (findServerProc procs served m = "")) && (0 <? m_Server m)%Z)
    eqn:Hc; [|by simplify_eq].
  apply andb_true_iff in Hc as [Hn%negb_true_iff%bool_decide_eq_false Hp%Z.ltb_lt].
  apply check_Ok in H2 as [Hu [= <-]]. rewrite checkUpstreamPort_Ok in Hu.
  apply upstream_ok_insert; [done|done|by apply findServerProc_configured|done..].
Qed.

Lemma itoa_digits z : (0 ≤ z)%Z → str_all is_digit (itoa z) = true ∧ itoa z ≠ "".
Proof.
  intros Hz. unfold itoa. rewrite (proj2 (Z.ltb_ge z 0)) by lia. split.
  - assert (∀ f n acc, (0 ≤ n)%Z → str_all is_digit acc = true →
      str_all is_digit (digits f n acc) = true) as H; [|by apply H].
    induction f as [|f IH]; intros n acc Hn Hacc; cbn [digits]; [done|].
    assert (str_all is_digit (String (digit_of (n mod 10)) acc) = true).
    { unfold str_all in *. cbn [bytes forallb]. rewrite Hacc.
      assert (0 ≤ n mod 10 < 10)%Z as Hd by (apply Z.mod_pos_bound; lia).
      by destruct (digit_char _ Hd) as [-> _]. }
    case_match; [done|]. apply IH; [apply Z.div_pos; lia|done].
  - destruct (digits_head (digit_fuel z) z "") as (d & t & _ & ->); [lia|done|done].
Qed.

Lemma digit_plain c : is_digit c = true → plain_byte c = true.
Proof.
  unfold is_digit, plain_byte, in_range. rewrite !andb_true_iff, !Nat.leb_le. intros [H1 H2].
  split_and!; [lia|lia|..]; apply negb_true_iff, bool_decide_eq_false;
    intros ->; vm_compute in H1; vm_compute in H2; lia.
Qed.

Lemma str_all_impl f g s :
  (∀ c, f c = true → g c = true) → str_all f s = true → str_all g s = true.
Proof. unfold str_all. rewrite !forallb_forall. eauto. Qed.

Lemma trim_itoa z : (0 ≤ z)%Z → trim_space (itoa z) = itoa z.
Proof.
  intros Hz. apply trim_space_plain. eapply str_all_impl; [apply digit_plain|].
  by apply itoa_digits.
Qed.

Lemma digits_no_eq s : str_all is_digit s = true → str_mem "="%char s = false.
Proof.
  intros H. unfold str_mem, str_has. apply not_true_iff_false. intros (c & Hc & He)%existsb_exists.
  apply bool_decide_eq_true in He as ->. unfold str_all in H. rewrite forallb_forall in H.
  apply H in Hc. by vm_compute in Hc.
Qed.

Lemma routeTarget_port prefix port :
  (0 ≤ port)%Z → routeTarget (prefix +:+ "=" +:+ itoa port) = Some (itoa port).
Proof.
  intros Hp. unfold routeTarget.
  rewrite (proj2 (cut_last_Some "="%char _ prefix (itoa port))); [by rewrite trim_itoa|].
  split; [done|]. by apply digits_no_eq, itoa_digits.
Qed.

Lemma integerRe_itoa z : (0 ≤ z)%Z → integerRe (itoa z) = true.
Proof.
  intros Hz. destruct (itoa_digits z Hz) as [Hd Hne]. unfold integerRe, str_all in *.
  destruct (itoa z) as [|c s]; [done|]. cbn [bytes forallb] in *.
  rewrite bool_decide_eq_false_2; [done|]. intros Hc.
  apply andb_true_iff in Hd as [Hd _].
  apply elem_of_cons in Hc as [->|Hc]; [by vm_compute in Hd|].
  apply list_elem_of_singleton in Hc as ->. by vm_compute in Hd.
Qed.

Lemma inject_vars_lookup url_parse fileEnv env base k :
  inject_vars url_parse fileEnv env base !! k =
  match env !! k with
  | Some v => Some v
  | None => if bool_decide (k ∈ apiEnvVars)
            then (λ v, rebaseURL url_parse v base) <$> fileEnv !! k else None
  end.
Proof.
  unfold inject_vars. generalize apiEnvVars. intros l. revert env.
  induction l as [|x l IH]; intros env; cbn [fold_left].
  { destruct (env !! k); [done|]. rewrite bool_decide_eq_false_2; [done|]. apply not_elem_of_nil. }
  rewrite IH. destruct (decide (x = k)) as [<-|Hne].
  - rewrite (bool_decide_eq_true_2 (x ∈ x :: l)) by apply list_elem_of_here.
    destruct (env !! x) as [vx|] eqn:Hx; [by rewrite Hx|].
    destruct (fileEnv !! x) as [fx|] eqn:Hf; [by rewrite lookup_insert_eq|].
    rewrite Hx. by case_match.
  - rewrite (bool_decide_ext (k ∈ x :: l) (k ∈ l)) by (rewrite elem_of_cons; naive_solver).
    destruct (env !! x) as [vx|] eqn:Hx; [done|].
    destruct (fileEnv !! x) as [fx|] eqn:Hf; [by rewrite lookup_insert_ne|done].
Qed.

Lemma join_last sep l x : l ≠ [] → join sep (l ++ [x]) = join sep l +:+ sep +:+ x.
Proof.
  induction l as [|a [|b l] IH]; [done|done|]. intros _.
  change ((a :: b :: l) ++ [x]) with (a :: b :: (l ++ [x])).
  change (join sep (a :: b :: l ++ [x])) with (a +:+ sep +:+ join sep ((b :: l) ++ [x])).
  rewrite IH by done. change (join sep (a :: b :: l)) with (a +:+ sep +:+ join sep (b :: l)).
  by rewrite !str_app_assoc.
Qed.
Lemma injectClientAPIEnv_lookup path_join stat_ok read_file url_parse procs name dir m n p :
  let procs' := injectClientAPIEnv path_join stat_ok read_file url_parse procs name dir m in
  is_Some (procs !! name) → procs !! n = Some p →
  ∃ env, procs' !! n = Some (set_Env env p) ∧ (n ≠ name → env = p_Env p) ∧
    ∀ k, match p_Env p !! k with
         | Some v => env !! k = Some v
         | None => is_Some (env !! k) → k ∈ apiEnvVars
         end.
Proof.
  intros procs' [q Hq] Hn. unfold procs', injectClientAPIEnv.
  assert (proc_at procs name = q) as -> by (unfold proc_at; by rewrite Hq).
  assert (set_Env (p_Env p) p = p) as Hp by by destruct p.
  set (fileEnv := match parseEnvFile _ _ with Ok vars => vars | Err _ => ∅ end).
  set (env := inject_vars _ _ _ _). 
  assert (∀ k, match p_Env q !! k with
         | Some v => env !! k = Some v
         | None => is_Some (env !! k) → k ∈ apiEnvVars
         end) as Hk.
  { intros k. unfold env. rewrite inject_vars_lookup. destruct (p_Env q !! k); [done|].
    case_bool_decide; [done|]. by intros [? ?]. }
  assert (∀ k, match p_Env p !! k with
         | Some v => p_Env p !! k = Some v
         | None => is_Some (p_Env p !! k) → k ∈ apiEnvVars
         end) as Hk'.
  { intros k. destruct (p_Env p !! k) eqn:E; [done|]. by intros [? ?]. }
  case_bool_decide as He.
  { exists (p_Env p). by rewrite Hp. }
  destruct (decide (n = name)) as [->|Hnn].
  - simplify_eq. exists env. by rewrite lookup_insert_eq.
  - exists (p_Env p). by rewrite lookup_insert_ne, Hp.
Qed.

(** ** Properties *)

(** The command is built only in one of the two modes, with both ports or
    routes given and every port in range; the section handed back differs
    only in its finalised port, which is the one the command names. *)
Theorem buildMergeCmd_sound portEnv m cmd m' :
  buildMergeCmd portEnv m = Ok (cmd, m') →
  m' = set_Port (m_Port m') m ∧ (m_Port m ≠ 0%Z → m' = m) ∧ (1 ≤ m_Port m' ≤ 65535)%Z ∧
  (∃ pre, cmd = pre +:+ " --port " +:+ itoa (m_Port m')) ∧
  ((m_Routes m ≠ [] ∧ m_Client m = 0%Z ∧ m_Server m = 0%Z ∧ m_ApiPrefixes m = [] ∧
    ∀ i r, m_Routes m !! i = Some r → checkRouteTarget (Z.of_nat i) r = Ok tt) ∨
   (m_Routes m = [] ∧ (1 ≤ m_Client m ≤ 65535)%Z ∧ (1 ≤ m_Server m ≤ 65535)%Z)).
Proof.
  unfold buildMergeCmd. intros H. rewrite !return_if_Ok in H.
  destruct H as (Hex & Hone & Hb). apply res_bind_Ok in Hb as (parts & Hparts & Hb).
  rewrite check_Ok in Hb. destruct Hb as (Hport & Hb). rewrite as_field_Ok in Hport.
  rewrite checkPortRange_Ok in Hport. injection Hb as <- <-. cbn in Hport.
  split; [done|]. split.
  { intros Hm. unfold merge_port. apply Z.eqb_neq in Hm as ->. by destruct m. }
  split; [done|].
  assert (parts ≠ [] ∧
    ((m_Routes m ≠ [] ∧ m_Client m = 0%Z ∧ m_Server m = 0%Z ∧ m_ApiPrefixes m = [] ∧
    ∀ i r, m_Routes m !! i = Some r → checkRouteTarget (Z.of_nat i) r = Ok tt) ∨
   (m_Routes m = [] ∧ (1 ≤ m_Client m ≤ 65535)%Z ∧ (1 ≤ m_Server m ≤ 65535)%Z))) as [Hne ?].
  2:{ split; [|done]. rewrite join_last by done. by eexists. }
  destruct (0 <? length (m_Routes m)) eqn:Hr.
  - rewrite check_Ok, as_field_Ok, each_res_Ok in Hparts. destruct Hparts as [Hrs [= <-]].
    split; [done|]. left. rewrite andb_true_l in Hex. gobool.
    destruct Hex as [[Hc Hs] Ha]. apply Nat.ltb_lt in Hr. apply Nat.ltb_ge in Ha.
    split_and!; [by destruct (m_Routes m); [cbn in Hr; lia|]|done|done|
      by destruct (m_ApiPrefixes m); [|cbn in Ha; lia]|].
    intros i r Hi. apply (Hrs (i, r)). apply elem_of_lookup_imap. by exists i, r.
  - rewrite !return_if_Ok, !check_Ok, !as_field_Ok, !checkPortRange_Ok in Hparts.
    destruct Hparts as (_ & _ & ? & ? & [= <-]). split; [done|]. right.
    apply Nat.ltb_ge in Hr. split; [by destruct (m_Routes m); [|cbn in Hr; lia]|done].
Qed.

(** Every upstream the proxy is wired to is a configured process with a
    positive port, and never one the process is known not to serve. *)
Theorem resolveUpstreamProcesses_sound procs served m out name port :
  resolveUpstreamProcesses procs served m = Ok out → out !! name = Some port →
  name ≠ "" ∧ is_Some (procs !! name) ∧ (0 < port)%Z ∧
  ∀ s, served !! name = Some s → sp_Port s = port.
Proof. intros H. by apply (resolveUpstreamProcesses_ok _ _ _ _ H). Qed.

(** A route written [prefix=port] is read back as that port, and accepted
    exactly when it is in range. *)
Theorem parseRoutePort_roundtrip i prefix port :
  (0 ≤ port)%Z → int_range port = true →
  parseRoutePort (prefix +:+ "=" +:+ itoa port) = port ∧
  (checkRouteTarget i (prefix +:+ "=" +:+ itoa port) = Ok tt ↔ (1 ≤ port ≤ 65535)%Z).
Proof.
  intros Hp Hi. unfold parseRoutePort, checkRouteTarget. rewrite !routeTarget_port by lia.
  rewrite integerRe_itoa by lia. rewrite !atoi_itoa by done. cbn [negb]. split.
  - case_match eqn:E; [apply Z.leb_le in E; lia|done].
  - rewrite return_if_Ok. gobool. naive_solver lia.
Qed.

(** Wiring the client to the proxy only ever adds variables: what the
    process sets itself keeps its value, and the rest of it and every other
    process are untouched. *)
Theorem injectClientAPIEnv_preserves path_join stat_ok read_file url_parse procs name dir m n p :
  let procs' := injectClientAPIEnv path_join stat_ok read_file url_parse procs name dir m in
  is_Some (procs !! name) → procs !! n = Some p →
  ∃ env, procs' !! n = Some (set_Env env p) ∧ (n ≠ name → env = p_Env p) ∧
    ∀ k, match p_Env p !! k with
         | Some v => env !! k = Some v
         | None => is_Some (env !! k) → k ∈ apiEnvVars
         end.
Proof. apply injectClientAPIEnv_lookup. Qed.

(** ** Witnesses *)

Lemma buildMergeCmd_sound_witness :
  let m := mkMerge 3000 8000 0 ["/api"] [] "" in
  let m' := set_Port 8080 m in
  buildMergeCmd "" m = Ok (join " " ["merge-port"; "--client 3000"; "--server 8000";
                                     "--api-prefix /api"; "--port 8080"], m') ∧
  (1 ≤ m_Port m' ≤ 65535)%Z.
Proof.
  intros m m'. assert (buildMergeCmd "" m = Ok (join " " ["merge-port"; "--client 3000";
    "--server 8000"; "--api-prefix /api"; "--port 8080"], m')) as H by (vm_compute; reflexivity).
  split; [exact H|]. exact (proj1 (proj2 (proj2 (buildMergeCmd_sound _ _ _ _ H)))).
Defined.

Lemma resolveUpstreamProcesses_sound_witness :
  let procs := <["api" := set_Env {["PORT" := "8000"]} zero_process]>
               {["web" := zero_process]} in
  let m := mkMerge 3000 8000 0 [] [] "web" in
  (0 < 8000)%Z ∧ ∀ s, servedPorts procs ∅ !! "api" = Some s → sp_Port s = 8000%Z.
Proof.
  intros procs m.
  destruct (resolveUpstreamProcesses_sound procs (servedPorts procs ∅) m
    (<["api" := 8000%Z]> {["web" := 3000%Z]}) "api" 8000) as (_ & _ & H1 & H2);
    [vm_compute; reflexivity|vm_compute; reflexivity|]. split; [exact H1|exact H2].
Defined.

Lemma parseRoutePort_roundtrip_witness : parseRoutePort "/api=8000" = 8000%Z.
Proof.
  destruct (parseRoutePort_roundtrip 0 "/api" 8000) as [H _]; [lia|vm_compute; reflexivity|].
  exact H.
Defined.

Lemma injectClientAPIEnv_preserves_witness :
  let web := set_Env {["VITE_API_URL" := "mine"]} zero_process in
  ∃ env : gmap string string,
    injectClientAPIEnv (λ a b, a +:+ "/" +:+ b) (λ _, true)
      (λ _, Ok ("VITE_API_URL=x", None)) (λ _, None) {["web" := web]} "web" "."
      (mkMerge 3000 8000 8080 [] [] "") !! "web" = Some (set_Env env web) ∧
    env !! "VITE_API_URL" = Some "mine".
Proof.
  intros web.
  destruct (injectClientAPIEnv_preserves (λ a b, a +:+ "/" +:+ b) (λ _, true)
    (λ _, Ok ("VITE_API_URL=x", None)) (λ _, None) {["web" := web]} "web" "."
    (mkMerge 3000 8000 8080 [] [] "") "web" web) as (env & H1 & _ & H2);
    [eexists; vm_compute; reflexivity|vm_compute; reflexivity|].
  exists env. split; [exact H1|exact (H2 "VITE_API_URL")].
Defined.
