(* ===== verification/ConfigLoad.v ===== *)
(** * Loading a configuration

    [Load] as the composition of its steps: reading and decoding, directories,
    env files, the merge wiring, validation, the collision safety net, the
    dependency checks, cycle detection and the resource labels.  File access,
    the YAML decoder, path functions, the route scan and the PORT of the
    environment are arguments.  The main result is that a loaded configuration
    is well formed, whatever the input. *)

From S2P Require Import Prelude GoStrings ConfigTypes ConfigValidate ConfigGraph References EnvFile ConfigMerge.

(** Source: internal/config/config.go:541-547 (HasRuntimeTemplate). *)
Definition HasRuntimeTemplate (dir : string) : bool :=
  str_contains "${session." dir || str_contains "${config." dir.

(** An error of [Load]: an unreadable file, a YAML error, or a validation
    error. *)
Inductive load_error : Type :=
  | LoadRead (path err : string)
  | LoadYAML (path err : string)
  | LoadInvalid (e : ValidationError).

(** ** Dependencies and resources *)

(** One entry of [depends_on].
    Source: internal/config/config.go:385-396 (Load, dependency checks). *)
Definition checkDependency (procs : gmap string Process) (name : string) (idep : nat * string)
    : res ValidationError unit :=
  let path := [SKey "processes"; SKey name; SKey "depends_on"; SIdx (Z.of_nat idep.1)] in
  return_if bool_decide (idep.2 = name)
    with invalid CodeSelfDependency path None "process %q cannot depend on itself" [AStr name] ;;
  match procs !! idep.2 with
  | None => Err (invalid CodeUnknownDependency path None
                   "process %q depends_on unknown process %q" [AStr name; AStr idep.2])
  | Some depProc =>
      return_if bool_decide (p_Mode depProc = ProcessModeTeardown)
        with invalid CodeTeardownDependency path None
          "process %q depends_on teardown process %q, which runs only after the stack stops"
          [AStr name; AStr idep.2] ;;
      Ok tt
  end.

(** Source: internal/config/config.go:383-397 (Load, dependency checks). *)
Definition checkDependencies (procs : gmap string Process) : res ValidationError unit :=
  each_res (λ name, each_res (checkDependency procs name)
                      (imap pair (p_DependsOn (proc_at procs name))))
    (SortedProcessNames procs).

(** The state of the resource loop. *)
Record resources_state : Type := mkResources {
  rs_seen : gset string;
  rs_trimmed : gset string;
  rs_normalized : list string;
}.

(** Source: internal/config/config.go:411-423 (Load, resource loop). *)
Definition resource_step (s : resources_state) (ir : nat * string)
    : res ValidationError resources_state :=
  let resource := ir.2 in
  let bad := invalid CodeInvalidResource [SKey "resources"; SIdx (Z.of_nat ir.1)] None
               "invalid or duplicate resource label %q" [AStr resource] in
  return_if bool_decide (resource ∈ rs_seen s) with bad ;;
  let seen := {[resource]} ∪ rs_seen s in
  let trimmed := trim_space resource in
  return_if bool_decide (trimmed = "") || (maxResourceLabel <? str_len trimmed)%Z
            || contains_any trimmed [chr 13; chr 10; chr 0] with bad ;;
  if bool_decide (trimmed ∈ rs_trimmed s) then Ok (mkResources seen (rs_trimmed s) (rs_normalized s))
  else Ok (mkResources seen ({[trimmed]} ∪ rs_trimmed s) (rs_normalized s ++ [trimmed])).

(** Source: internal/config/config.go:402-427 (Load, resource labels). *)
Definition normalizeResources (resources : list string) : res ValidationError (list string) :=
  s ← fold_res resource_step (imap pair resources) (mkResources ∅ ∅ []);
  Ok (if 0 <? length resources then rs_normalized s else resources).

Section load.
(** The environment of [Load]. *)
Context (is_abs : string → bool) (path_join : string → string → string)
        (path_clean : string → string) (abs_dir : string → string)
        (stat_ok : string → bool) (read_file : string → file_read)
        (url_parse : string → option (string * string))
        (regexp_error : string → option string)
        (scanRoutes : string → list string) (portEnv : string)
        (read_config : string → res string string)
        (decode_yaml : string → res string Config).

(** Source: internal/config/config.go:549-561 (normalizeProcessDirs). *)
Definition normalizeProcessDirs (processes : gmap string Process) (configDir : string)
    : gmap string Process :=
  (λ proc,
     if bool_decide (p_Dir proc = "") || HasRuntimeTemplate (p_Dir proc) then proc
     else if is_abs (p_Dir proc) then set_Dir (path_clean (p_Dir proc)) proc
     else set_Dir (path_clean (path_join configDir (p_Dir proc))) proc) <$> processes.

(** The generated proxy process.
    Source: internal/config/config.go:245-261 (Load, mergeProc). *)
Definition mergeProc (cmd : string) (port : Z) (upstreams : list string) : Process :=
  set_DependsOn (sort_strings upstreams)
    (set_ReadyWhen (Some (mkReadyWhen "" ("localhost:" +:+ itoa port) "" ""))
      (set_Restart "on-failure" (set_Cmd cmd zero_process))).

(** The wiring of the proxy, with the processes and the merge section after it.
    The upstreams are configured names, and each is written on its own, so the
    order of the map iteration plays no role.
    Source: internal/config/config.go:188-269 (Load, merge section). *)
Definition load_merge (configDir : string) (envFiles : gmap string envFile)
    (procs : gmap string Process) (m : Merge)
    : res ValidationError (gmap string Process * Merge) :=
  return_if bool_decide (is_Some (procs !! MergePortProcessName))
    with invalid CodeReservedProcessName [SKey "processes"; SKey MergePortProcessName] None
      "process name %q is reserved for the proxy the merge section generates; rename the process"
      [AStr MergePortProcessName] ;;
  let candidates := serviceUpstreams procs in
  check checkClientProcess procs m ;;
  let served := servedPorts procs envFiles in
  let m := if bool_decide (m_ApiPrefixes m = []) && bool_decide (m_Routes m = [])
           then let server := findServerProc candidates served m in
                if bool_decide (server = "") then m
                else match scanRoutes (procDir is_abs path_join
                                         (p_Dir (proc_at candidates server)) configDir) with
                     | [] => m
                     | detected => set_ApiPrefixes detected m
                     end
           else m in
  match buildMergeCmd portEnv m with
  | Err (MergeField e) => Err e
  | Err (MergePlain format args) =>
      Err (invalid CodeInvalidMerge [SKey "merge"] (Some format) "%s" [AStr format])
  | Ok (cmd, m) =>
      upstreams ← resolveUpstreamProcesses candidates served m;
      let procs := fold_left (λ procs np, injectTCPReadyIfMissing procs np.1 np.2)
                     (map_to_list upstreams) procs in
      let procs := <[MergePortProcessName := mergeProc cmd (m_Port m) (keys upstreams)]> procs in
      let clientName := findClientProc candidates served m in
      Ok (if bool_decide (clientName = "") then procs
          else injectClientAPIEnv path_join stat_ok read_file url_parse procs clientName
                 (procDir is_abs path_join (p_Dir (proc_at procs clientName)) configDir) m, m)
  end.

(** [Load] on the decoded configuration.
    Source: internal/config/config.go:169-430 (Load, after decoding). *)
Definition load_config (path : string) (cfg : Config) : res ValidationError Config :=
  return_if match c_Merge cfg with
            | None => bool_decide (size (c_Processes cfg) = 0)
            | Some _ => false
            end
    with invalid CodeNoProcesses [] None "no processes defined in %s" [AStr path] ;;
  let configDir := abs_dir path in
  let procs := normalizeProcessDirs (c_Processes cfg) configDir in
  let envFiles := readEnvFiles is_abs path_join read_file procs configDir in
  pm ← match c_Merge cfg with
       | None => Ok (procs, None)
       | Some m => pm ← load_merge configDir envFiles procs m; Ok (pm.1, Some pm.2)
       end;
  procs ← validateProcesses regexp_error envFiles pm.1;
  check checkReferenceCollisions procs ;;
  check checkDependencies procs ;;
  check detectCycles procs ;;
  resources ← normalizeResources (c_Resources cfg);
  Ok (mkConfig pm.2 procs resources).

(** Source: internal/config/config.go:156-430 (Load). *)
Definition Load (path : string) : res load_error Config :=
  match read_config path with
  | Err err => Err (LoadRead path err)
  | Ok data =>
      match decode_yaml data with
      | Err err => Err (LoadYAML path err)
      | Ok cfg =>
          match load_config path cfg with
          | Err e => Err (LoadInvalid e)
          | Ok cfg => Ok cfg
          end
      end
  end.

End load.

(** ** Resource labels *)

(** What a label must satisfy once trimmed. *)
Definition label_ok (label : string) : Prop :=
  label ≠ "" ∧ (str_len label ≤ maxResourceLabel)%Z ∧
  contains_any label [chr 13; chr 10; chr 0] = false.

(** The first occurrences of a list. *)
Fixpoint first_occurrences (seen : gset string) (l : list string) : list string :=
  match l with
  | [] => []
  | x :: l => if bool_decide (x ∈ seen) then first_occurrences seen l
              else x :: first_occurrences ({[x]} ∪ seen) l
  end.

Lemma elem_of_first_occurrences seen l x :
  x ∈ first_occurrences seen l ↔ x ∈ l ∧ x ∉ seen.
Proof.
  revert seen; induction l as [|y l IH]; intros seen; cbn; [set_solver|].
  case_bool_decide as Hy; rewrite ?elem_of_cons, IH; [set_solver|].
  destruct (decide (x = y)); set_solver.
Qed.

Lemma NoDup_first_occurrences seen l : NoDup (first_occurrences seen l).
Proof.
  revert seen; induction l as [|y l IH]; intros seen; cbn; [constructor|].
  case_bool_decide; [done|]. constructor; [|done].
  rewrite elem_of_first_occurrences. set_solver.
Qed.

Lemma resource_step_Ok s i r s' :
  resource_step s (i, r) = Ok s' ↔
  r ∉ rs_seen s ∧ label_ok (trim_space r) ∧
  s' = mkResources ({[r]} ∪ rs_seen s)
         (if bool_decide (trim_space r ∈ rs_trimmed s) then rs_trimmed s
          else {[trim_space r]} ∪ rs_trimmed s)
         (if bool_decide (trim_space r ∈ rs_trimmed s) then rs_normalized s
          else rs_normalized s ++ [trim_space r]).
Proof.
  unfold resource_step, label_ok. cbn [snd]. rewrite !return_if_Ok.
  rewrite !orb_false_iff, !bool_decide_eq_false, Z.ltb_ge.
  case_bool_decide; intuition congruence.
Qed.

Lemma resource_loop (il : list (nat * string)) s s' :
  fold_res resource_step il s = Ok s' ↔
  NoDup il.*2 ∧ (∀ r, r ∈ il.*2 → r ∉ rs_seen s ∧ label_ok (trim_space r)) ∧
  s' = mkResources (list_to_set il.*2 ∪ rs_seen s)
         (list_to_set (trim_space <$> il.*2) ∪ rs_trimmed s)
         (rs_normalized s ++ first_occurrences (rs_trimmed s) (trim_space <$> il.*2)).
Proof.
  revert s; induction il as [|[i r] il IH]; intros s.
  { cbn. rewrite !(left_id_L ∅ (∪)), app_nil_r. destruct s; cbn. split.
    - intros [= <-]. split; [constructor|]. split; [set_solver|done].
    - by intros (_ & _ & ->). }
  cbn [fold_res]. rewrite res_bind_Ok. setoid_rewrite resource_step_Ok.
  cbn [fmap list_fmap snd first_occurrences]. rewrite NoDup_cons. split.
  - intros (s1 & (Hr & Hl & ->) & (Hnd & Hall & ->)%IH). cbn in *. split_and!; [|done|..].
    + intros Hin. destruct (Hall r Hin) as [Hn _]. apply Hn. set_unfold. by left.
    + intros x [->|Hx]%elem_of_cons; [done|]. destruct (Hall x Hx) as [Hn ?]. split; [|done].
      intros Hs. apply Hn. set_unfold. by right.
    + rewrite !(assoc_L (∪)), (comm_L (∪) (list_to_set _) {[r]}). clear. f_equal;
      case_bool_decide as Ht; rewrite <-?(assoc_L (++)); [set_solver|set_solver|done|done].
  - intros ([Hr Hnd] & Hall & ->). eexists. split.
    { destruct (Hall r (list_elem_of_here _ _)). split_and!; [done..|reflexivity]. }
    apply IH. cbn. split_and!; [done|..].
    + intros x Hx. destruct (Hall x) as [Hn ?]; [by apply list_elem_of_further|]. split; [|done].
      intros [->%elem_of_singleton|?]%elem_of_union; done.
    + rewrite !(assoc_L (∪)), (comm_L (∪) (list_to_set _) {[r]}). clear. f_equal;
      case_bool_decide as Ht; rewrite <-?(assoc_L (++)); [set_solver|set_solver|done|done].
Qed.

Lemma imap_pair_snd {A} (l : list A) : (imap pair l).*2 = l.
Proof.
  apply list_eq. intros i. rewrite list_lookup_fmap, list_lookup_imap. by destruct (l !! i).
Qed.

Lemma normalizeResources_Ok resources out :
  normalizeResources resources = Ok out ↔
  NoDup resources ∧ (∀ r, r ∈ resources → label_ok (trim_space r)) ∧
  out = first_occurrences ∅ (trim_space <$> resources).
Proof.
  unfold normalizeResources.
  assert (∀ s, (if 0 <? length resources then rs_normalized s else resources) = 
    if 0 <? length resources then rs_normalized s else []) as Hs.
  { intros s. by destruct resources. }
  change (mbind ?f ?r) with (res_bind f r). rewrite res_bind_Ok. setoid_rewrite resource_loop.
  rewrite imap_pair_snd. cbn [rs_seen rs_normalized rs_trimmed]. setoid_rewrite Hs. split.
  - intros (s & (Hnd & Hall & ->) & [= <-]). split; [done|]. split; [by intros r Hr; apply Hall|].
    by destruct resources.
  - intros (Hnd & Hall & ->). eexists. split; [split_and!; [done| |reflexivity]|by destruct resources].
    intros r Hr. split; [apply not_elem_of_empty|auto].
Qed.

(** The resource labels are accepted exactly when none repeats verbatim and
    each one, trimmed, is non-empty, short enough and on one line; the result
    holds each trimmed label once, in the order of its first occurrence. *)
Theorem normalizeResources_spec resources out :
  normalizeResources resources = Ok out ↔
  NoDup resources ∧ (∀ r, r ∈ resources → label_ok (trim_space r)) ∧
  out = first_occurrences ∅ (trim_space <$> resources).
Proof. apply normalizeResources_Ok. Qed.

(** ** Dependencies *)

Lemma checkDependency_Ok procs name i dep :
  checkDependency procs name (i, dep) = Ok tt ↔
  dep ≠ name ∧ ∃ p, procs !! dep = Some p ∧ p_Mode p ≠ ProcessModeTeardown.
Proof.
  unfold checkDependency. cbn [snd]. rewrite return_if_Ok, bool_decide_eq_false.
  destruct (procs !! dep) as [p|]; [rewrite return_if_Ok, bool_decide_eq_false|]; naive_solver.
Qed.

Lemma checkDependencies_Ok procs :
  checkDependencies procs = Ok tt ↔
  ∀ a b, edge procs a b → b ≠ a ∧ ∃ p, procs !! b = Some p ∧ p_Mode p ≠ ProcessModeTeardown.
Proof.
  unfold checkDependencies. rewrite each_res_Ok. split.
  - intros H a b Hab. assert (is_Some (procs !! a)) as Ha.
    { unfold edge, proc_at in Hab. destruct (procs !! a); [done|]. by apply not_elem_of_nil in Hab. }
    specialize (H a (proj2 (elem_of_SortedProcessNames _ _) Ha)). rewrite each_res_Ok in H.
    apply list_elem_of_lookup in Hab as [i Hi]. apply (checkDependency_Ok procs a i b), H.
    apply elem_of_lookup_imap. by exists i, b.
  - intros H a _. apply each_res_Ok. intros [i b] Hb.
    apply elem_of_lookup_imap in Hb as (i' & b' & [= -> ->] & Hi).
    apply checkDependency_Ok, H. by eapply list_elem_of_lookup_2.
Qed.

(** ** Normalised processes *)

Lemma normalise_fields envFiles name p :
  ∃ env, normalise envFiles name p = set_Restart (EffectiveRestart p) (set_Env env p) ∧
         p_Env p ⊆ env.
Proof.
  unfold normalise. rewrite !default_restart_eq.
  assert (set_Env (p_Env p) p = p) as Hp by by destruct p.
  case_bool_decide.
  - exists (p_Env p). by rewrite Hp.
  - eexists. split; [reflexivity|]. change (p_Env p ⊆ p_Env p ∪ ef_vars (env_at envFiles name)).
    apply map_union_subseteq_l.
Qed.

Lemma EffectiveRestart_idemp p q :
  EffectiveRestart (set_Restart (EffectiveRestart p) q) = EffectiveRestart p.
Proof. unfold EffectiveRestart at 1. cbn. unfold EffectiveRestart. by repeat case_bool_decide. Qed.

Lemma normalise_valid re envFiles name p :
  ProcessValid re envFiles name p → ProcessValid re envFiles name (normalise envFiles name p).
Proof.
  destruct (normalise_fields envFiles name p) as (env & -> & _).
  intros [H1 H2 H3 H4 H5 H6 H7 H8 H9 H10 H11 H12 H13 H14 H15 H16 H17].
  constructor; rewrite ?EffectiveRestart_idemp; try done.
  intros Hs. destruct (H7 Hs) as [? ? Hro]. constructor; try done. cbn.
  unfold EffectiveRestart. rewrite !elem_of_cons in *. case_bool_decide; naive_solver.
Qed.

Lemma normalise_idemp envFiles name p :
  normalise envFiles name (normalise envFiles name p) = normalise envFiles name p.
Proof.
  assert (∀ e q, EffectiveRestart (set_Env e q) = EffectiveRestart q) as Henv by done.
  unfold normalise. rewrite !default_restart_eq. set (vars := ef_vars _).
  destruct (bool_decide (p_EnvFile (set_Restart (EffectiveRestart p) p) = "")) eqn:He;
    cbn in He |- *; rewrite He, ?Henv, EffectiveRestart_idemp; [done|].
  unfold set_Env, set_Restart. cbn. f_equal. apply map_eq. intros k. rewrite !lookup_union.
  by destruct (p_Env p !! k), (vars !! k).
Qed.


(** ** The merge wiring *)

(** A process whose readiness may have been filled in, and nothing else. *)
Definition readied (p q : Process) : Prop :=
  q = set_ReadyWhen (p_ReadyWhen q) p ∧ (p_ReadyWhen p ≠ None → q = p).

Lemma readied_refl p : readied p p.
Proof. split; [by destruct p|done]. Qed.

Lemma readied_trans p q r : readied p q → readied q r → readied p r.
Proof.
  intros [Hq Hpq] [Hr Hqr]. split; [rewrite Hr, Hq at 1; done|].
  intros Hp. rewrite Hpq in Hqr by done. auto.
Qed.

Lemma injectTCPReady_lookup procs name port n p :
  procs !! n = Some p →
  ∃ q, injectTCPReadyIfMissing procs name port !! n = Some q ∧ readied p q ∧
       (n = name → name ≠ "" → port ≠ 0%Z → p_ReadyWhen q ≠ None).
Proof.
  intros Hp. unfold injectTCPReadyIfMissing.
  destruct (bool_decide (name = "") || (port =? 0)%Z) eqn:H0.
  { exists p. split; [done|]. split; [apply readied_refl|]. intros _ Hn Hz.
    apply orb_true_iff in H0 as [H0%bool_decide_eq_true|H0%Z.eqb_eq]; done. }
  destruct (procs !! name) as [r|] eqn:Hr.
  2:{ exists p. split; [done|]. split; [apply readied_refl|]. intros ->. congruence. }
  destruct (bool_decide (p_ReadyWhen r ≠ None)) eqn:Hrw; gobool.
  { exists p. split; [done|]. split; [apply readied_refl|]. intros ->. congruence. }
  destruct (decide (n = name)) as [->|Hne].
  - rewrite Hp in Hr. injection Hr as <-. eexists. split; [apply lookup_insert_eq|].
    split; [by split|done].
  - rewrite lookup_insert_ne by done. exists p. split; [done|]. split; [apply readied_refl|done].
Qed.

Lemma inject_all_lookup ups procs n p :
  procs !! n = Some p →
  ∃ q, fold_left (λ procs np, injectTCPReadyIfMissing procs np.1 np.2) ups procs !! n = Some q ∧
       readied p q ∧
       (∀ port, (n, port) ∈ ups → n ≠ "" → port ≠ 0%Z → p_ReadyWhen q ≠ None).
Proof.
  revert procs p; induction ups as [|[n' port'] ups IH]; intros procs p Hp; cbn [fold_left fst snd].
  { exists p. split; [done|]. split; [apply readied_refl|]. intros port H.
    by apply not_elem_of_nil in H. }
  destruct (injectTCPReady_lookup procs n' port' n p Hp) as (q & Hq & Hpq & Hrq).
  destruct (IH _ _ Hq) as (r & Hr & Hqr & Hrr). exists r. split; [done|].
  split; [by eapply readied_trans|]. intros port [[= <- <-]|Hin]%elem_of_cons Hne Hz; [|by eauto].
  destruct Hqr as [_ Hqr]. specialize (Hrq eq_refl Hne Hz). by rewrite Hqr.
Qed.

(** What the wiring promises of the proxy. *)
Definition merge_wired (procs : gmap string Process) (m : Merge) : Prop :=
  (1 ≤ m_Port m ≤ 65535)%Z ∧ ∃ p, procs !! MergePortProcessName = Some p ∧
    p_ReadyWhen p = Some (mkReadyWhen "" ("localhost:" +:+ itoa (m_Port m)) "" "") ∧
    p_Restart p = "on-failure" ∧
    ∀ d, d ∈ p_DependsOn p →
      ∃ q, procs !! d = Some q ∧ p_ReadyWhen q ≠ None ∧ EffectiveMode q = ProcessModeService.

Lemma candidates_lookup procs n p :
  serviceUpstreams procs !! n = Some p ↔ procs !! n = Some p ∧ EffectiveMode p = ProcessModeService.
Proof. unfold serviceUpstreams. by rewrite map_lookup_filter_Some. Qed.

(** Every change the client wiring makes is to an env block. *)
Lemma merge_wired_env procs procs' m :
  (∀ n p, procs !! n = Some p → ∃ env, procs' !! n = Some (set_Env env p)) →
  merge_wired procs m → merge_wired procs' m.
Proof.
  intros Hsub (Hport & p & Hp & Hr & Hrs & Hd). split; [done|].
  destruct (Hsub _ _ Hp) as [env Hp']. exists (set_Env env p). split_and!; [done..|].
  intros d Hdin. destruct (Hd d Hdin) as (q & Hq & ? & ?). destruct (Hsub _ _ Hq) as [env' Hq'].
  by exists (set_Env env' q).
Qed.

Lemma buildMergeCmd_port portEnv m cmd m' :
  buildMergeCmd portEnv m = Ok (cmd, m') → (1 ≤ m_Port m' ≤ 65535)%Z.
Proof.
  unfold buildMergeCmd. rewrite !return_if_Ok. intros (_ & _ & Hb).
  apply res_bind_Ok in Hb as (parts & _ & Hb). rewrite check_Ok, as_field_Ok in Hb.
  destruct Hb as [Hb [= _ <-]]. by apply checkPortRange_Ok in Hb.
Qed.

Section wiring.
Context (is_abs : string → bool) (path_join : string → string → string)
        (stat_ok : string → bool) (read_file : string → file_read)
        (url_parse : string → option (string * string)) (scanRoutes : string → list string).

Lemma load_merge_wired portEnv dir envFiles procs m procs' m' :
  load_merge is_abs path_join stat_ok read_file url_parse scanRoutes portEnv
    dir envFiles procs m = Ok (procs', m') →
  merge_wired procs' m'.
Proof.
  unfold load_merge. rewrite return_if_Ok, check_Ok, bool_decide_eq_false, <-eq_None_not_Some.
  intros (Hres & _ & H). set (served := servedPorts _ _) in *.
  destruct (buildMergeCmd _ _) as [[cmd m1]|[]] eqn:Hcmd; [|done..].
  apply buildMergeCmd_port in Hcmd. clear m.
  apply res_bind_Ok in H as (ups & Hups%resolveUpstreamProcesses_ok & H).
  set (procs1 := fold_left _ _ procs) in H. set (procs2 := <[_ := _]> procs1) in H.
  assert (merge_wired procs2 m1) as Hw.
  { split; [done|]. eexists. split; [apply lookup_insert_eq|]. split; [done|]. split; [done|].
    cbn. intros d. rewrite elem_of_sort_strings, elem_of_keys. intros [port Hd].
    pose proof (Hups _ _ Hd) as (Hne & [p Hp] & Hpos & _).
    apply candidates_lookup in Hp as [Hp Hmode].
    destruct (inject_all_lookup (map_to_list ups) procs d p Hp) as (q & Hq & [Hq1 _] & Hr).
    exists q. unfold procs2. rewrite lookup_insert_ne by (intros <-; unfold MergePortProcessName in Hres; congruence). split; [done|].
    split; [|by rewrite Hq1].
    apply (Hr port); [by apply elem_of_map_to_list|done|lia]. }
  injection H as H <-. case_bool_decide as Hc; subst procs'; [done|].
  eapply merge_wired_env, Hw. intros n p Hn.
  destruct (injectClientAPIEnv_lookup path_join stat_ok read_file url_parse procs2
    (findClientProc (serviceUpstreams procs) served m1)
    (procDir is_abs path_join (p_Dir (proc_at procs2 (findClientProc (serviceUpstreams procs) served m1))) dir)
    m1 n p) as (env & Henv & _); [|done|by exists env].
  apply findClientProc_configured in Hc as [c Hcl]. apply candidates_lookup in Hcl as [Hcl _].
  destruct (inject_all_lookup (map_to_list ups) procs _ _ Hcl) as (q & Hq & _).
  unfold procs2. rewrite lookup_insert. case_decide; [done|]. by exists q.
Qed.
End wiring.

(** ** Well-formed configurations *)

(** The invariant of a loaded configuration. *)
Record WellFormed (regexp_error : string → option string) (cfg : Config) : Prop := {
  wf_nonempty : c_Processes cfg ≠ ∅;
  wf_processes : ∃ envFiles, ∀ name p, c_Processes cfg !! name = Some p →
    ProcessValid regexp_error envFiles name p ∧ normalise envFiles name p = p;
  wf_references : ∀ ns n1 pn1 n2 pn2, str_mem dot ns = false →
    (n1, pn1) ∈ endpoints (c_Processes cfg) → (n2, pn2) ∈ endpoints (c_Processes cfg) →
    ref_name ns n1 pn1 = ref_name ns n2 pn2 → n1 = n2 ∧ pn1 = pn2;
  wf_dependencies : ∀ a b, edge (c_Processes cfg) a b →
    b ≠ a ∧ ∃ p, c_Processes cfg !! b = Some p ∧ p_Mode p ≠ ProcessModeTeardown;
  wf_acyclic : acyclic (c_Processes cfg);
  wf_resources : NoDup (c_Resources cfg) ∧ ∀ r, r ∈ c_Resources cfg → label_ok r;
  wf_merge : ∀ m, c_Merge cfg = Some m → merge_wired (c_Processes cfg) m;
}.

Lemma merge_wired_normalise envFiles procs m :
  merge_wired procs m →
  merge_wired (map_imap (λ name p, Some (normalise envFiles name p)) procs) m.
Proof.
  intros (Hport & p & Hp & Hr & Hrs & Hd). split; [done|].
  exists (normalise envFiles MergePortProcessName p).
  rewrite map_lookup_imap, Hp. cbn.
  destruct (normalise_fields envFiles MergePortProcessName p) as (env & -> & _).
  split_and!; [done|done| |].
  - cbn. unfold EffectiveRestart. by rewrite Hrs.
  - intros d Hdin. destruct (Hd d Hdin) as (q & Hq & ? & ?).
    exists (normalise envFiles d q). rewrite map_lookup_imap, Hq. cbn.
    by destruct (normalise_fields envFiles d q) as (env' & -> & _).
Qed.

Lemma map_imap_total_empty {A} (f : string → A → A) (m : gmap string A) :
  map_imap (λ k x, Some (f k x)) m = ∅ → m = ∅.
Proof.
  intros He. apply map_empty. intros k.
  assert (map_imap (λ k x, Some (f k x)) m !! k = None) as Hk by (rewrite He; apply lookup_empty).
  rewrite map_lookup_imap in Hk. by destruct (m !! k).
Qed.


(** ** Witnesses *)

(** A client and a server behind the proxy; the client depends on the server. *)
Definition example_cfg : Config :=
  mkConfig (Some (mkMerge 3000 8000 0 ["/api"] [] "web"))
    (<["web" := set_DependsOn ["api"] (set_Cmd "npm start" zero_process)]>
     {["api" := set_Env {["PORT" := "8000"]} (set_Cmd "go run ." zero_process)]})
    [" db "; "db"; "cache"].

Definition example_load : res load_error Config :=
  Load (λ _, false) (λ a b, a +:+ "/" +:+ b) (λ s, s) (λ _, "/srv") (λ _, false)
    (λ _, Err "missing") (λ _, None) (λ _, None) (λ _, []) "" (λ _, Ok "text")
    (λ _, Ok example_cfg) "proc-compose.yml".

