(* ===== verification/ConfigPlan.v ===== *)
(** * The startup plan

    [Plan] resolves a selection into topological start levels.  The memoised
    recursion [depth] is fuelled; running out of fuel stands for a recursion
    that does not return, and the theorems show that it cannot happen for a
    configuration [Load] accepts. *)

From S2P Require Import Prelude GoStrings ConfigTypes ConfigGraph References ConfigMerge ConfigLoad.

(** ** Levels *)

(** The recursion does not return. *)
Inductive stuck : Type := OutOfFuel.

(** Source: internal/config/explain.go:661-673 (Plan, depth). *)
Fixpoint depth (fuel : nat) (procs : gmap string Process) (level : gmap string nat)
    (name : string) : res stuck (nat * gmap string nat) :=
  match level !! name with
  | Some l => Ok (l, level)
  | None =>
      match fuel with
      | O => Err OutOfFuel
      | S fuel =>
          r ← fold_res (λ (acc : nat * gmap string nat) dep,
                r ← depth fuel procs acc.2 dep; Ok (max acc.1 (r.1 + 1), r.2))
              (p_DependsOn (proc_at procs name)) (0, level);
          Ok (r.1, <[name := r.1]> r.2)
      end
  end.

(** The levels grow until [l] exists, and the name goes to the end of level
    [l].
    Source: internal/config/explain.go:678-681 (Plan, levels loop). *)
Definition place (levels : list (list string)) (l : nat) (name : string) : list (list string) :=
  alter (λ g, g ++ [name]) l (levels ++ replicate (S l - length levels) []).

(** Source: internal/config/explain.go:674-682 (Plan, levels loop). *)
Definition plan_levels (procs : gmap string Process) (names : list string)
    : res stuck (list (list string)) :=
  r ← fold_res (λ (acc : list (list string) * gmap string nat) name,
        r ← depth (S (size (graph_nodes procs))) procs acc.2 name;
        Ok (place acc.1 r.1 name, r.2)) names ([], ∅);
  Ok r.1.

(** ** Processes of the plan *)

(** Source: internal/config/explain.go:599-600 (ReferenceTreatment). *)
Definition ReferenceTreatment : string := "resolved at session acquisition".

(** Source: internal/config/explain.go:602-608 (EndpointReference). *)
Record EndpointReference : Type := mkEndpointReference {
  er_Field : string;
  er_Ref : string;
  er_Resolvable : bool;
  er_Treatment : string;
}.

(** Source: internal/config/explain.go:623-629 (PlannedHealth). *)
Record PlannedHealth : Type := mkPlannedHealth {
  ph_Probe : string;
  ph_Target : string;
  ph_Interval : Z;
  ph_Action : string;
}.

(** Source: internal/config/explain.go:610-621 (PlannedProcess). *)
Record PlannedProcess : Type := mkPlannedProcess {
  pp_Name : string;
  pp_Level : nat;
  pp_Mode : string;
  pp_Readiness : string;
  pp_Probe : string;
  pp_DependsOn : list string;
  pp_Ports : gmap string Z;
  pp_Health : option PlannedHealth;
  pp_References : list EndpointReference;
}.

(** Source: internal/config/explain.go:631-643 (StartupPlan). *)
Record StartupPlan : Type := mkStartupPlan {
  sp_SchemaVersion : Z;
  sp_Kind : string;
  sp_Live : bool;
  sp_Note : string;
  sp_Levels : list (list string);
  sp_Processes : list PlannedProcess;
  sp_Teardown : list string;
}.

(** The fields references are looked for in.
    Source: internal/config/explain.go:723-738 (processReferences, fields). *)
Definition reference_fields (proc : Process) : list (string * string) :=
  [("cmd", p_Cmd proc); ("dir", p_Dir proc)]
  ++ ((λ key, ("env." +:+ key, default "" (p_Env proc !! key))) <$> sort_strings (keys (p_Env proc)))
  ++ match p_ReadyWhen proc with
     | Some rw => [("ready_when.http", rw_HTTP rw); ("ready_when.tcp", rw_TCP rw);
                   ("ready_when.cmd", rw_Cmd rw)]
     | None => []
     end
  ++ match p_HealthWhen proc with
     | Some hw => [("health_when.http", rw_HTTP hw); ("health_when.tcp", rw_TCP hw);
                   ("health_when.cmd", rw_Cmd hw)]
     | None => []
     end.

(** Source: internal/config/explain.go:721-750 (processReferences). *)
Definition processReferences (cfg : Config) (proc : Process) (selected : gset string)
    : list EndpointReference :=
  field ← reference_fields proc;
  ref ← find_references field.2;
  let ok := referenceResolvable cfg ref selected in
  [mkEndpointReference field.1 ref ok
     (if ok then ReferenceTreatment
      else "unresolved: select its dependency or declare its named port")].

(** The probe kind and its target, with the log probe or without.
    Source: internal/config/explain.go:689-699 (Plan, readiness switch). *)
Definition probe_summary (rw : ReadyWhen) : string * string :=
  if negb (bool_decide (rw_HTTP rw = "")) then ("http", rw_HTTP rw)
  else if negb (bool_decide (rw_TCP rw = "")) then ("tcp", rw_TCP rw)
  else if negb (bool_decide (rw_Cmd rw = "")) then ("cmd", rw_Cmd rw)
  else if negb (bool_decide (rw_Log rw = "")) then ("log", rw_Log rw)
  else ("none", "").

(** Source: internal/config/explain.go:700-712 (Plan, health). *)
Definition planned_health (proc : Process) : option PlannedHealth :=
  (λ hw,
     let '(probe, target) :=
       if negb (bool_decide (rw_HTTP hw = "")) then ("http", rw_HTTP hw)
       else if negb (bool_decide (rw_TCP hw = "")) then ("tcp", rw_TCP hw)
       else if negb (bool_decide (rw_Cmd hw = "")) then ("cmd", rw_Cmd hw)
       else ("", "") in
     mkPlannedHealth probe target (EffectiveHealthInterval proc) (EffectiveHealthAction proc))
  <$> p_HealthWhen proc.

(** Source: internal/config/explain.go:683-716 (Plan, process loop body). *)
Definition planned_process (cfg : Config) (selected : gset string) (l : nat) (name : string)
    : PlannedProcess :=
  let proc := proc_at (c_Processes cfg) name in
  let '(readiness, probe) :=
    if bool_decide (EffectiveMode proc = ProcessModeTask) then ("exit", "")
    else match p_ReadyWhen proc with
         | Some rw => probe_summary rw
         | None => ("none", "")
         end in
  mkPlannedProcess name l (EffectiveMode proc) readiness probe (p_DependsOn proc) (p_Ports proc)
    (planned_health proc) (processReferences cfg proc selected).

(** An error of [Plan]: a refused selector; the other constructor is a
    recursion that does not return. *)
Inductive plan_error : Type :=
  | PlanSelector (format : string) (args : list arg)
  | PlanStuck (s : stuck).

(** Source: internal/config/explain.go:647-719 (Plan). *)
Definition Plan (order : list string) (cfg : Config) (filter : list string)
    : res plan_error StartupPlan :=
  check each_res (λ name, match CheckSelector cfg name with
                          | Some (format, args) => Err (PlanSelector format args)
                          | None => Ok tt
                          end) filter ;;
  let names := SelectedNames order cfg filter in
  let selected : gset string := list_to_set names in
  match plan_levels (c_Processes cfg) names with
  | Err s => Err (PlanStuck s)
  | Ok levels =>
      Ok (mkStartupPlan 1 "config.plan" false
            ("static plan from configuration; no process was started and endpoint references are "
             +:+ ReferenceTreatment)
            levels
            (mjoin (imap (λ l, fmap (planned_process cfg selected l)) levels))
            (TeardownNames order cfg))
  end.

(** ** Correctness of the levels *)

Section levels.
Context (procs : gmap string Process).

(** The start level of a name is one more than the highest of its
    dependencies, and zero without any. *)
Inductive is_level : string → nat → Prop :=
  | is_level_intro name ls :
      Forall2 is_level (p_DependsOn (proc_at procs name)) ls →
      is_level name (foldr (λ d l, max (d + 1) l) 0 ls).

Lemma is_level_ind' (P : string → nat → Prop) :
  (∀ name ls, Forall2 is_level (p_DependsOn (proc_at procs name)) ls →
     Forall2 P (p_DependsOn (proc_at procs name)) ls →
     P name (foldr (λ d l, max (d + 1) l) 0 ls)) →
  ∀ name l, is_level name l → P name l.
Proof.
  intros HP. fix IH 3. intros _ _ [name ls Hls]. apply HP; [done|].
  clear HP. induction Hls; constructor; auto.
Qed.

Lemma is_level_fun name l1 l2 : is_level name l1 → is_level name l2 → l1 = l2.
Proof.
  intros H1. revert l2. induction H1 as [name ls Hls IH] using is_level_ind'.
  intros l2 H2. destruct H2 as [name ls2 Hls2]. f_equal. clear Hls.
  revert ls2 Hls2. induction IH; intros ls2 Hls2; inversion Hls2; subst; [done|].
  f_equal; auto.
Qed.

Lemma is_level_edge a b l : is_level a l → edge procs a b → ∃ lb, is_level b lb ∧ lb < l.
Proof.
  intros [name ls Hls]. unfold edge. generalize (p_DependsOn (proc_at procs name)) Hls.
  clear Hls. intros deps Hls. induction Hls as [|d l' deps ls Hd Hls IH]; cbn.
  - by intros ?%not_elem_of_nil.
  - intros [->|H]%elem_of_cons; [exists l'; split; [done|lia]|].
    destruct (IH H) as (lb & ? & ?). exists lb. split; [done|lia].
Qed.

Lemma is_level_tight a l : is_level a (S l) → ∃ b, edge procs a b ∧ is_level b l.
Proof.
  intros H. inversion H as [name ls Hls Hn Hl]. subst. unfold edge.
  clear H. revert l Hl. generalize (p_DependsOn (proc_at procs a)) Hls. clear Hls. intros deps Hls.
  induction Hls as [|d l' deps ls Hd Hls IH]; cbn; intros l Hl; [done|].
  destruct (decide (l' = l)) as [->|]; [by exists d; split; [apply list_elem_of_here|]|].
  destruct (IH l) as (b & ? & ?); [lia|]. exists b. split; [by apply list_elem_of_further|done].
Qed.

(** What [depth] maintains: the memo holds levels. *)
Definition memo_ok (level : gmap string nat) : Prop :=
  ∀ n l, level !! n = Some l → is_level n l.

Lemma depth_deps fuel deps acc level :
  (∀ n level, n ∈ deps → memo_ok level → ∃ l level', depth fuel procs level n = Ok (l, level') ∧
     is_level n l ∧ memo_ok level') →
  memo_ok level →
  ∃ ls level', Forall2 is_level deps ls ∧ memo_ok level' ∧
    fold_res (λ (acc : nat * gmap string nat) dep,
                r ← depth fuel procs acc.2 dep; Ok (max acc.1 (r.1 + 1), r.2))
      deps (acc, level) = Ok (max acc (foldr (λ d l, max (d + 1) l) 0 ls), level').
Proof.
  revert acc level; induction deps as [|d deps IH]; intros acc level Hdep Hm.
  { exists [], level. split; [constructor|]. split; [done|]. cbn. by rewrite Nat.max_0_r. }
  destruct (Hdep d level (list_elem_of_here _ _) Hm) as (l & level1 & Hd & Hl & Hm1).
  destruct (IH (max acc (l + 1)) level1) as (ls & level' & Hls & Hm' & Hf); [|done|].
  { intros n lv Hn. apply Hdep. by apply list_elem_of_further. }
  exists (l :: ls), level'. split; [by constructor|]. split; [done|].
  cbn [fold_res snd fst foldr]. rewrite Hd. cbn. rewrite Nat.max_assoc. exact Hf.
Qed.

Lemma depth_ok fuel (P : gset string) level name :
  acyclic procs → memo_ok level → name ∈ graph_nodes procs →
  (∀ p, p ∈ P → tc (edge procs) p name) → size (graph_nodes procs ∖ P) < fuel →
  ∃ l level', depth fuel procs level name = Ok (l, level') ∧ is_level name l ∧ memo_ok level'.
Proof.
  intros Hac. revert P level name; induction fuel as [|fuel IH];
    intros P level name Hm Hname HP Hfuel; [lia|].
  cbn [depth]. destruct (level !! name) as [l|] eqn:Hl; [exists l, level; eauto|].
  assert (name ∉ P) as HnP by (intros Hin; apply (Hac name), HP, Hin).
  assert (size (graph_nodes procs ∖ ({[name]} ∪ P)) < fuel) as Hlt.
  { assert (size (graph_nodes procs ∖ ({[name]} ∪ P)) < size (graph_nodes procs ∖ P)); [|lia].
    apply size_strict_subset with name; set_solver. }
  destruct (depth_deps fuel (p_DependsOn (proc_at procs name)) 0 level) as (ls & lv & Hls & Hm' & Hf);
    [|done|].
  { intros n lv Hn Hlv. apply (IH ({[name]} ∪ P)); [done|by eapply graph_nodes_edge| |done].
    intros p [->%elem_of_singleton|Hp]%elem_of_union; [by apply tc_once|].
    eapply tc_r; [by apply HP|done]. }
  change (mbind ?f ?r) with (res_bind f r). rewrite Hf. cbn [res_bind fst snd max].
  eexists _, _. split; [done|]. split; [by constructor|].
  intros n l. rewrite lookup_insert. case_decide as Hn; [|apply Hm'].
  intros [= <-]. subst. by constructor.
Qed.

(** The names of each level, in the order they were placed. *)
Definition levels_ok (names : list string) (levels : list (list string)) : Prop :=
  mjoin levels ≡ₚ names ∧
  ∀ l g n, levels !! l = Some g → n ∈ g → is_level n l.

Lemma place_lookup levels l name i :
  place levels l name !! i =
  if decide (i = l) then Some (default [] (levels !! l) ++ [name])
  else if decide (i < S l) then Some (default [] (levels !! i)) else levels !! i.
Proof.
  unfold place.
  assert (∀ j, (levels ++ replicate (S l - length levels) []) !! j =
    if decide (j < S l) then Some (default [] (levels !! j)) else levels !! j) as Hext.
  { intros j. destruct (levels !! j) as [g|] eqn:Hj.
    - rewrite (lookup_app_l_Some _ _ _ _ Hj). by case_decide.
    - pose proof (lookup_ge_None_1 _ _ Hj). rewrite lookup_app_r by done. case_decide.
      + apply lookup_replicate_2. lia.
      + apply lookup_ge_None_2. rewrite length_replicate. lia. }
  case_decide as Hi.
  - subst. rewrite list_lookup_alter_eq, Hext. by rewrite decide_True by lia.
  - by rewrite list_lookup_alter_ne, Hext.
Qed.

Lemma mjoin_alter {A} (L : list (list A)) l x :
  l < length L → mjoin (alter (λ g, g ++ [x]) l L) ≡ₚ x :: mjoin L.
Proof.
  revert l; induction L as [|g L IH]; intros [|l] Hl; cbn in *; [lia|lia| |].
  - rewrite <-(assoc_L (++)). cbn. symmetry. apply Permutation_middle.
  - rewrite IH by lia. symmetry. apply Permutation_middle.
Qed.

Lemma mjoin_pad {A} n : mjoin (replicate n ([] : list A)) = [].
Proof. by induction n. Qed.

Lemma place_perm levels l name : mjoin (place levels l name) ≡ₚ name :: mjoin levels.
Proof.
  unfold place. rewrite mjoin_alter.
  - by rewrite join_app, mjoin_pad, app_nil_r.
  - rewrite length_app, length_replicate. lia.
Qed.

Lemma plan_loop names names0 levels level :
  acyclic procs → (∀ n, n ∈ names → n ∈ graph_nodes procs) →
  memo_ok level → levels_ok names0 levels →
  ∃ levels' level', fold_res (λ (acc : list (list string) * gmap string nat) name,
      r ← depth (S (size (graph_nodes procs))) procs acc.2 name;
      Ok (place acc.1 r.1 name, r.2)) names (levels, level) = Ok (levels', level') ∧
    levels_ok (rev names ++ names0) levels'.
Proof.
  intros Hac. revert names0 levels level; induction names as [|n names IH];
    intros names0 levels level Hin Hm Hlv.
  { by exists levels, level. }
  destruct (depth_ok (S (size (graph_nodes procs))) ∅ level n) as (l & level1 & Hd & Hl & Hm1);
    [done|done|apply Hin, list_elem_of_here|by intros p ?%not_elem_of_empty| |].
  { rewrite difference_empty_L. lia. }
  destruct (IH (n :: names0) (place levels l n) level1) as (levels' & level' & Hf & Hok);
    [by intros x Hx; apply Hin, list_elem_of_further|done| |].
  - destruct Hlv as [Hp Hlv]. split; [by rewrite place_perm, Hp|].
    intros i g x. rewrite place_lookup. repeat case_decide.
    + subst. intros [= <-]. rewrite elem_of_app, list_elem_of_singleton. intros [Hx| ->]; [|done].
      destruct (levels !! l) eqn:E; [by eapply Hlv|by apply not_elem_of_nil in Hx].
    + intros [= <-] Hx. destruct (levels !! i) eqn:E; [by eapply Hlv|by apply not_elem_of_nil in Hx].
    + apply Hlv.
  - exists levels', level'. cbn [fold_res snd fst]. change (mbind ?f ?r) with (res_bind f r).
    rewrite Hd. cbn [res_bind fst snd]. split; [exact Hf|]. cbn [rev].
    by rewrite <-(assoc_L (++)).
Qed.

Lemma plan_levels_ok names :
  acyclic procs → (∀ n, n ∈ names → n ∈ graph_nodes procs) →
  ∃ levels, plan_levels procs names = Ok levels ∧ levels_ok names levels.
Proof.
  intros Hac Hin. unfold plan_levels.
  destruct (plan_loop names [] [] ∅) as (levels & level & Hf & Hp & Hlv); [done|done| | |].
  - intros n l. by rewrite lookup_empty.
  - split; [done|]. intros l g n. by rewrite lookup_nil.
  - change (mbind ?f ?r) with (res_bind f r). rewrite Hf. exists levels. split; [done|].
    split; [|done]. rewrite Hp, app_nil_r. symmetry. apply Permutation_rev.
Qed.
End levels.

Lemma CheckSelector_None cfg name :
  CheckSelector cfg name = None ↔ selectable (c_Processes cfg) name.
Proof.
  unfold CheckSelector, selectable. destruct (c_Processes cfg !! name) as [p|]; [|naive_solver].
  case_bool_decide; naive_solver.
Qed.

Lemma Plan_selectors cfg (filter : list string) :
  each_res (λ name, match CheckSelector cfg name with
                    | Some (format, args) => Err (PlanSelector format args)
                    | None => Ok tt
                    end) filter = Ok tt ↔
  ∀ name, name ∈ filter → selectable (c_Processes cfg) name.
Proof.
  rewrite each_res_Ok. setoid_rewrite <-CheckSelector_None.
  split; intros H name Hn; specialize (H name Hn); by destruct (CheckSelector cfg name) as [[]|].
Qed.

Lemma planned_names (f : nat → string → PlannedProcess) L :
  (∀ l n, pp_Name (f l n) = n) → pp_Name <$> mjoin (imap (λ l, fmap (f l)) L) = mjoin L.
Proof.
  revert f; induction L as [|g L IH]; intros f Hf; [done|].
  rewrite imap_cons. cbn [mjoin list_join]. rewrite fmap_app. f_equal.
  - rewrite <-list_fmap_compose. rewrite <-(list_fmap_id g) at 2. apply list_fmap_ext. intros. apply Hf.
  - apply (IH (λ l, f (S l))). intros. apply Hf.
Qed.

(** On an acyclic configuration with known dependencies (what [Load]
    returns) [Plan] always returns when the selectors can be selected, and its
    levels are a topological order of the selection: every selected name is on
    exactly one level, every dependency on a strictly lower one, and a name is
    not above level 0 without a dependency right below it; the processes of
    the plan are those of the levels, in that order. *)
Theorem Plan_topological order cfg filter :
  acyclic (c_Processes cfg) →
  (∀ a b, edge (c_Processes cfg) a b → selectable (c_Processes cfg) b) →
  (∀ n, n ∈ filter → selectable (c_Processes cfg) n) →
  ∃ plan, Plan order cfg filter = Ok plan ∧
    mjoin (sp_Levels plan) ≡ₚ SelectedNames order cfg filter ∧
    pp_Name <$> sp_Processes plan = mjoin (sp_Levels plan) ∧
    ∀ l g n, sp_Levels plan !! l = Some g → n ∈ g →
      (∀ d, edge (c_Processes cfg) n d → ∃ l' g', l' < l ∧ sp_Levels plan !! l' = Some g' ∧ d ∈ g') ∧
      (∀ k, l = S k → ∃ d g', edge (c_Processes cfg) n d ∧ sp_Levels plan !! k = Some g' ∧ d ∈ g').
Proof.
  intros Hac Hknown Hsel. unfold Plan.
  assert (∀ n, n ∈ SelectedNames order cfg filter → n ∈ graph_nodes (c_Processes cfg)) as Hnodes.
  { intros n Hn. apply elem_of_SelectedNames in Hn.
    apply elem_of_union_l, selectable_dom. by destruct Hn. }
  destruct (plan_levels_ok (c_Processes cfg) (SelectedNames order cfg filter)) as
    (levels & -> & Hp & Hlv); [done|done|].
  rewrite (proj2 (Plan_selectors cfg filter)) by done. cbn [res_bind].
  eexists. split; [reflexivity|]. cbn [sp_Levels sp_Processes]. split; [done|].
  assert (∀ d l, is_level (c_Processes cfg) d l → d ∈ SelectedNames order cfg filter →
    ∃ g, levels !! l = Some g ∧ d ∈ g) as Hfind.
  { intros d l Hd Hin. rewrite <-Hp in Hin. apply list_elem_of_join in Hin as (g & Hdg & Hg).
    apply list_elem_of_lookup in Hg as [l' Hl']. 
    rewrite (is_level_fun _ _ _ _ Hd (Hlv _ _ _ Hl' Hdg)). by exists g. }
  split.
  - apply planned_names. intros l n. unfold planned_process. by case_match.
  - intros l g n Hl Hn. pose proof (Hlv _ _ _ Hl Hn) as Hlevel.
    assert (n ∈ SelectedNames order cfg filter) as Hns.
    { rewrite <-Hp. apply list_elem_of_join. exists g. split; [done|]. by eapply list_elem_of_lookup_2. }
    split.
    + intros d Hd. destruct (is_level_edge _ _ _ _ Hlevel Hd) as (l' & Hl' & ?).
      destruct (Hfind d l' Hl') as (g' & ? & ?); [by eapply SelectedNames_closed; eauto|].
      by exists l', g'.
    + intros k ->. destruct (is_level_tight _ _ _ Hlevel) as (d & Hd & Hk).
      destruct (Hfind d k Hk) as (g' & ? & ?); [by eapply SelectedNames_closed; eauto|].
      by exists d, g'.
Qed.

(** ** Witnesses *)

Lemma Plan_topological_witness :
  let procs := <["web" := set_DependsOn ["api"] zero_process]> {["api" := zero_process]} in
  let cfg := mkConfig None procs [] in
  ∃ plan, Plan ["web"; "api"] cfg ["web"] = Ok plan ∧
    mjoin (sp_Levels plan) ≡ₚ ["api"; "web"].
Proof.
  intros procs cfg.
  assert (detectCycles procs = Ok tt) as Hac by (vm_compute; reflexivity).
  assert (∀ n, n ∈ ["api"; "web"] → selectable procs n) as Hsel.
  { intros n [->|[->|H]%elem_of_cons]%elem_of_cons; [eexists; split; [reflexivity|discriminate]..|].
    exfalso. exact (not_elem_of_nil _ H). }
  destruct (Plan_topological ["web"; "api"] cfg ["web"]) as (plan & Hplan & Hp & _).
  - apply detectCycles_acyclic. exact Hac.
  - intros a b Hab. apply Hsel. apply checkDependencies_Ok in Hab as [_ (p & Hp & _)];
      [|vm_compute; reflexivity]. cbn in Hp.
    destruct (decide (b = "api")) as [->|]; [apply list_elem_of_here|].
    destruct (decide (b = "web")) as [->|]; [apply list_elem_of_further, list_elem_of_here|].
    unfold procs in Hp. rewrite lookup_insert_ne, lookup_singleton_ne in Hp by congruence. discriminate Hp.
  - intros n [->|H]%elem_of_cons; [apply Hsel, list_elem_of_further, list_elem_of_here|].
    exfalso. exact (not_elem_of_nil _ H).
  - exists plan. split; [exact Hplan|]. rewrite Hp. vm_compute. reflexivity.
Defined.
