(* ===== verification/RunnerState.v ===== *)
(** * Process state and readiness

    The state of one managed process, as the runner's worker, its probes and
    the dependents share it.  Every exported operation holds the state's mutex
    for its whole duration, so a history of a process is a sequence of these
    operations; goroutines interleave them in any order.  Readiness cycles are
    shared: a waiter keeps a pointer to the cycle it waits on.  They are a
    store indexed by allocation order, a pointer is an index, and closing a
    cycle's channel is counted, because closing it twice panics. *)

From S2P Require Import Prelude GoStrings ConfigTypes.

(** ** Owners of an answer *)

(** Source: internal/ipc/ipc.go:74-76 (OwnerOwned). *)
Definition OwnerOwned : string := "owned".
(** Source: internal/ipc/ipc.go:77-79 (OwnerForeign). *)
Definition OwnerForeign : string := "foreign".
(** Source: internal/ipc/ipc.go:80-82 (OwnerUnattributable). *)
Definition OwnerUnattributable : string := "unattributable".

(** Source: internal/ipc/ipc.go:128-140 (OwnerSession). *)
Record OwnerSession : Type := mkOwnerSession {
  os_Name : string;
  os_RunID : string;
  os_ConfigPath : string;
  os_Worktree : string;
  os_Process : string;
  os_Port : string;
  os_Evidence : string;
}.

(** Source: internal/ipc/ipc.go:107-126 (EndpointOwner). *)
Record EndpointOwner : Type := mkEndpointOwner {
  eo_Result : string;
  eo_Address : string;
  eo_PID : Z;
  eo_Command : string;
  eo_Reason : string;
  eo_Scope : string;
  eo_Session : option OwnerSession;
}.

(** ** Readiness cycles *)

(** Source: internal/runner/state.go:90-112 (readyOutcome). *)
Inductive readyOutcome : Type :=
  | readyUnset | readySatisfied | readyTerminal | readyAgain | readyStopped.

#[export] Instance readyOutcome_eq_dec : EqDecision readyOutcome.
Proof. solve_decision. Defined.

(** [rc_closes] counts the [close(ch)] calls.
    Source: internal/runner/state.go:114-123 (readyCycle). *)
Record readyCycle : Type := mkReadyCycle {
  rc_closes : nat;
  rc_outcome : readyOutcome;
}.

(** Source: internal/runner/state.go:125-126 (newReadyCycle). *)
Definition newReadyCycle : readyCycle := mkReadyCycle 0 readyUnset.

(** A waiter on the channel is woken. *)
Definition rc_closed (c : readyCycle) : bool := 0 <? rc_closes c.

(** ** The state *)

(** The cycles ever allocated come first, then the pointer to the current one.
    The two metrics are floats the runner only stores: their bits.  The
    restart channel holds at most one signal.
    Source: internal/runner/state.go:13-64 (procState). *)
Record procState : Type := mkProcState {
  st_state : string;
  st_pid : Z;
  st_restarts : Z;
  st_startedAt : Z;
  st_colorIndex : Z;
  st_cpuPercent : Z;
  st_memoryMB : Z;
  st_generation : Z;
  st_lastError : string;
  st_exitCode : option Z;
  st_active : bool;
  st_cycles : list readyCycle;
  st_readyCycle : option nat;
  st_readyDisposition : readyOutcome;
  st_probeFailed : bool;
  st_health : string;
  st_healthFailures : Z;
  st_healthError : string;
  st_readinessOwner : option EndpointOwner;
  st_healthOwner : option EndpointOwner;
  st_restartCh : bool;
}.

(** Field updates. *)
Definition set_state (x : string) (st : procState) : procState :=
  mkProcState x (st_pid st) (st_restarts st) (st_startedAt st) (st_colorIndex st)
    (st_cpuPercent st) (st_memoryMB st) (st_generation st) (st_lastError st) (st_exitCode st)
    (st_active st) (st_cycles st) (st_readyCycle st) (st_readyDisposition st)
    (st_probeFailed st) (st_health st) (st_healthFailures st) (st_healthError st)
    (st_readinessOwner st) (st_healthOwner st) (st_restartCh st).
Definition set_pid (x : Z) (st : procState) : procState :=
  mkProcState (st_state st) x (st_restarts st) (st_startedAt st) (st_colorIndex st)
    (st_cpuPercent st) (st_memoryMB st) (st_generation st) (st_lastError st) (st_exitCode st)
    (st_active st) (st_cycles st) (st_readyCycle st) (st_readyDisposition st)
    (st_probeFailed st) (st_health st) (st_healthFailures st) (st_healthError st)
    (st_readinessOwner st) (st_healthOwner st) (st_restartCh st).
Definition set_restarts (x : Z) (st : procState) : procState :=
  mkProcState (st_state st) (st_pid st) x (st_startedAt st) (st_colorIndex st)
    (st_cpuPercent st) (st_memoryMB st) (st_generation st) (st_lastError st) (st_exitCode st)
    (st_active st) (st_cycles st) (st_readyCycle st) (st_readyDisposition st)
    (st_probeFailed st) (st_health st) (st_healthFailures st) (st_healthError st)
    (st_readinessOwner st) (st_healthOwner st) (st_restartCh st).
Definition set_startedAt (x : Z) (st : procState) : procState :=
  mkProcState (st_state st) (st_pid st) (st_restarts st) x (st_colorIndex st) (st_cpuPercent st)
    (st_memoryMB st) (st_generation st) (st_lastError st) (st_exitCode st) (st_active st)
    (st_cycles st) (st_readyCycle st) (st_readyDisposition st) (st_probeFailed st)
    (st_health st) (st_healthFailures st) (st_healthError st) (st_readinessOwner st)
    (st_healthOwner st) (st_restartCh st).
Definition set_colorIndex (x : Z) (st : procState) : procState :=
  mkProcState (st_state st) (st_pid st) (st_restarts st) (st_startedAt st) x (st_cpuPercent st)
    (st_memoryMB st) (st_generation st) (st_lastError st) (st_exitCode st) (st_active st)
    (st_cycles st) (st_readyCycle st) (st_readyDisposition st) (st_probeFailed st)
    (st_health st) (st_healthFailures st) (st_healthError st) (st_readinessOwner st)
    (st_healthOwner st) (st_restartCh st).
Definition set_cpuPercent (x : Z) (st : procState) : procState :=
  mkProcState (st_state st) (st_pid st) (st_restarts st) (st_startedAt st) (st_colorIndex st) x
    (st_memoryMB st) (st_generation st) (st_lastError st) (st_exitCode st) (st_active st)
    (st_cycles st) (st_readyCycle st) (st_readyDisposition st) (st_probeFailed st)
    (st_health st) (st_healthFailures st) (st_healthError st) (st_readinessOwner st)
    (st_healthOwner st) (st_restartCh st).
Definition set_memoryMB (x : Z) (st : procState) : procState :=
  mkProcState (st_state st) (st_pid st) (st_restarts st) (st_startedAt st) (st_colorIndex st)
    (st_cpuPercent st) x (st_generation st) (st_lastError st) (st_exitCode st) (st_active st)
    (st_cycles st) (st_readyCycle st) (st_readyDisposition st) (st_probeFailed st)
    (st_health st) (st_healthFailures st) (st_healthError st) (st_readinessOwner st)
    (st_healthOwner st) (st_restartCh st).
Definition set_generation (x : Z) (st : procState) : procState :=
  mkProcState (st_state st) (st_pid st) (st_restarts st) (st_startedAt st) (st_colorIndex st)
    (st_cpuPercent st) (st_memoryMB st) x (st_lastError st) (st_exitCode st) (st_active st)
    (st_cycles st) (st_readyCycle st) (st_readyDisposition st) (st_probeFailed st)
    (st_health st) (st_healthFailures st) (st_healthError st) (st_readinessOwner st)
    (st_healthOwner st) (st_restartCh st).
Definition set_lastError (x : string) (st : procState) : procState :=
  mkProcState (st_state st) (st_pid st) (st_restarts st) (st_startedAt st) (st_colorIndex st)
    (st_cpuPercent st) (st_memoryMB st) (st_generation st) x (st_exitCode st) (st_active st)
    (st_cycles st) (st_readyCycle st) (st_readyDisposition st) (st_probeFailed st)
    (st_health st) (st_healthFailures st) (st_healthError st) (st_readinessOwner st)
    (st_healthOwner st) (st_restartCh st).
Definition set_exitCode (x : option Z) (st : procState) : procState :=
  mkProcState (st_state st) (st_pid st) (st_restarts st) (st_startedAt st) (st_colorIndex st)
    (st_cpuPercent st) (st_memoryMB st) (st_generation st) (st_lastError st) x (st_active st)
    (st_cycles st) (st_readyCycle st) (st_readyDisposition st) (st_probeFailed st)
    (st_health st) (st_healthFailures st) (st_healthError st) (st_readinessOwner st)
    (st_healthOwner st) (st_restartCh st).
Definition set_active (x : bool) (st : procState) : procState :=
  mkProcState (st_state st) (st_pid st) (st_restarts st) (st_startedAt st) (st_colorIndex st)
    (st_cpuPercent st) (st_memoryMB st) (st_generation st) (st_lastError st) (st_exitCode st) x
    (st_cycles st) (st_readyCycle st) (st_readyDisposition st) (st_probeFailed st)
    (st_health st) (st_healthFailures st) (st_healthError st) (st_readinessOwner st)
    (st_healthOwner st) (st_restartCh st).
Definition set_cycles (x : list readyCycle) (st : procState) : procState :=
  mkProcState (st_state st) (st_pid st) (st_restarts st) (st_startedAt st) (st_colorIndex st)
    (st_cpuPercent st) (st_memoryMB st) (st_generation st) (st_lastError st) (st_exitCode st)
    (st_active st) x (st_readyCycle st) (st_readyDisposition st) (st_probeFailed st)
    (st_health st) (st_healthFailures st) (st_healthError st) (st_readinessOwner st)
    (st_healthOwner st) (st_restartCh st).
Definition set_readyCycle (x : option nat) (st : procState) : procState :=
  mkProcState (st_state st) (st_pid st) (st_restarts st) (st_startedAt st) (st_colorIndex st)
    (st_cpuPercent st) (st_memoryMB st) (st_generation st) (st_lastError st) (st_exitCode st)
    (st_active st) (st_cycles st) x (st_readyDisposition st) (st_probeFailed st) (st_health st)
    (st_healthFailures st) (st_healthError st) (st_readinessOwner st) (st_healthOwner st)
    (st_restartCh st).
Definition set_readyDisposition (x : readyOutcome) (st : procState) : procState :=
  mkProcState (st_state st) (st_pid st) (st_restarts st) (st_startedAt st) (st_colorIndex st)
    (st_cpuPercent st) (st_memoryMB st) (st_generation st) (st_lastError st) (st_exitCode st)
    (st_active st) (st_cycles st) (st_readyCycle st) x (st_probeFailed st) (st_health st)
    (st_healthFailures st) (st_healthError st) (st_readinessOwner st) (st_healthOwner st)
    (st_restartCh st).
Definition set_probeFailed (x : bool) (st : procState) : procState :=
  mkProcState (st_state st) (st_pid st) (st_restarts st) (st_startedAt st) (st_colorIndex st)
    (st_cpuPercent st) (st_memoryMB st) (st_generation st) (st_lastError st) (st_exitCode st)
    (st_active st) (st_cycles st) (st_readyCycle st) (st_readyDisposition st) x (st_health st)
    (st_healthFailures st) (st_healthError st) (st_readinessOwner st) (st_healthOwner st)
    (st_restartCh st).
Definition set_health (x : string) (st : procState) : procState :=
  mkProcState (st_state st) (st_pid st) (st_restarts st) (st_startedAt st) (st_colorIndex st)
    (st_cpuPercent st) (st_memoryMB st) (st_generation st) (st_lastError st) (st_exitCode st)
    (st_active st) (st_cycles st) (st_readyCycle st) (st_readyDisposition st)
    (st_probeFailed st) x (st_healthFailures st) (st_healthError st) (st_readinessOwner st)
    (st_healthOwner st) (st_restartCh st).
Definition set_healthFailures (x : Z) (st : procState) : procState :=
  mkProcState (st_state st) (st_pid st) (st_restarts st) (st_startedAt st) (st_colorIndex st)
    (st_cpuPercent st) (st_memoryMB st) (st_generation st) (st_lastError st) (st_exitCode st)
    (st_active st) (st_cycles st) (st_readyCycle st) (st_readyDisposition st)
    (st_probeFailed st) (st_health st) x (st_healthError st) (st_readinessOwner st)
    (st_healthOwner st) (st_restartCh st).
Definition set_healthError (x : string) (st : procState) : procState :=
  mkProcState (st_state st) (st_pid st) (st_restarts st) (st_startedAt st) (st_colorIndex st)
    (st_cpuPercent st) (st_memoryMB st) (st_generation st) (st_lastError st) (st_exitCode st)
    (st_active st) (st_cycles st) (st_readyCycle st) (st_readyDisposition st)
    (st_probeFailed st) (st_health st) (st_healthFailures st) x (st_readinessOwner st)
    (st_healthOwner st) (st_restartCh st).
Definition set_readinessOwner (x : option EndpointOwner) (st : procState) : procState :=
  mkProcState (st_state st) (st_pid st) (st_restarts st) (st_startedAt st) (st_colorIndex st)
    (st_cpuPercent st) (st_memoryMB st) (st_generation st) (st_lastError st) (st_exitCode st)
    (st_active st) (st_cycles st) (st_readyCycle st) (st_readyDisposition st)
    (st_probeFailed st) (st_health st) (st_healthFailures st) (st_healthError st) x
    (st_healthOwner st) (st_restartCh st).
Definition set_healthOwner (x : option EndpointOwner) (st : procState) : procState :=
  mkProcState (st_state st) (st_pid st) (st_restarts st) (st_startedAt st) (st_colorIndex st)
    (st_cpuPercent st) (st_memoryMB st) (st_generation st) (st_lastError st) (st_exitCode st)
    (st_active st) (st_cycles st) (st_readyCycle st) (st_readyDisposition st)
    (st_probeFailed st) (st_health st) (st_healthFailures st) (st_healthError st)
    (st_readinessOwner st) x (st_restartCh st).
Definition set_restartCh (x : bool) (st : procState) : procState :=
  mkProcState (st_state st) (st_pid st) (st_restarts st) (st_startedAt st) (st_colorIndex st)
    (st_cpuPercent st) (st_memoryMB st) (st_generation st) (st_lastError st) (st_exitCode st)
    (st_active st) (st_cycles st) (st_readyCycle st) (st_readyDisposition st)
    (st_probeFailed st) (st_health st) (st_healthFailures st) (st_healthError st)
    (st_readinessOwner st) (st_healthOwner st) x.

(** The uint64 successor. *)
Definition uint64_succ (x : Z) : Z := ((x + 1) mod 2 ^ 64)%Z.

(** Source: internal/runner/state.go:72-88 (newStateStore, entry). *)
Definition new_procState (colorIndex : Z) : procState :=
  mkProcState "starting" 0 0 0 colorIndex 0 0 0 "" None true [newReadyCycle] (Some 0) readyUnset
    false "" 0 "" None None false.

(** The cycle a pointer names. *)
Definition cycle_at (st : procState) (i : nat) : readyCycle :=
  default newReadyCycle (st_cycles st !! i).

(** [cycle.outcome = outcome; close(cycle.ch)] *)
Definition settle_cycle (i : nat) (outcome : readyOutcome) (st : procState) : procState :=
  set_cycles (alter (λ c, mkReadyCycle (S (rc_closes c)) outcome) i (st_cycles st)) st.

(** The current cycle, when there is one and it has not settled. *)
Definition open_cycle (st : procState) : option nat :=
  match st_readyCycle st with
  | Some i => if bool_decide (rc_outcome (cycle_at st i) = readyUnset) then Some i else None
  | None => None
  end.

(** ** Readiness operations *)

(** [accept] reads and may write the state under the lock.
    Source: internal/runner/state.go:144-159 (latchReady). *)
Definition latchReady (outcome : readyOutcome) (accept : procState → option procState)
    (st : procState) : bool * procState :=
  match open_cycle st with
  | None => (false, st)
  | Some i =>
      match accept st with
      | None => (false, st)
      | Some st => (true, settle_cycle i outcome st)
      end
  end.

(** Source: internal/runner/state.go:132-142 (markReady). *)
Definition markReady (ok : bool) (st : procState) : bool * procState :=
  if ok then latchReady readySatisfied Some st else latchReady readyTerminal Some st.

(** [cancelled] is whether the incarnation's context has ended.
    Source: internal/runner/state.go:161-182 (markReadyFor). *)
Definition markReadyFor (cancelled : bool) (gen : Z) (ok : bool) (owner : option EndpointOwner)
    (st : procState) : bool * procState :=
  latchReady (if ok then readySatisfied else readyTerminal)
    (λ st, if st_probeFailed st || cancelled || negb (st_generation st =? gen)%Z then None
           else Some (set_readinessOwner owner st)) st.

(** Source: internal/runner/state.go:328-332 (readySettled). *)
Definition readySettled (st : procState) : bool :=
  match st_readyCycle st with
  | Some i => bool_decide (rc_outcome (cycle_at st i) = readySatisfied)
  | None => false
  end.

(** Source: internal/runner/state.go:184-200 (recordRefusedOwner). *)
Definition recordRefusedOwner (gen : Z) (owner : option EndpointOwner) (st : procState)
    : bool * procState :=
  if negb (st_generation st =? gen)%Z || readySettled st then (false, st)
  else (true, set_readinessOwner owner st).

(** The guard shared by the health operations: the incarnation is live,
    current, running and not yet reaped. *)
Definition health_live (cancelled : bool) (gen : Z) (st : procState) : bool :=
  negb (cancelled || negb (st_generation st =? gen)%Z || negb (bool_decide (st_state st = "running"))
        || bool_decide (is_Some (st_exitCode st))).

(** Source: internal/runner/state.go:202-215 (recordHealthOwner). *)
Definition recordHealthOwner (cancelled : bool) (gen : Z) (owner : option EndpointOwner)
    (st : procState) : bool * procState :=
  match owner with
  | None => (false, st)
  | Some o =>
      if negb (health_live cancelled gen st) then (false, st)
      else let known := match st_healthOwner st with
                        | Some h => bool_decide (eo_Result h = OwnerForeign) && (eo_PID h =? eo_PID o)%Z
                        | None => false
                        end in
           (bool_decide (eo_Result o = OwnerForeign) && negb known, set_healthOwner (Some o) st)
  end.

(** Source: internal/runner/state.go:217-231 (failReadinessFor). *)
Definition failReadinessFor (cancelled : bool) (gen : Z) (msg : string) (st : procState)
    : bool * procState :=
  if cancelled || negb (st_generation st =? gen)%Z || readySettled st then (false, st)
  else (true, set_lastError msg (set_probeFailed true st)).

(** ** Health operations *)

(** Source: internal/runner/state.go:233-238 (healthUnknown). *)
Definition healthUnknown : string := "unknown".
(** Source: internal/runner/state.go:233-238 (healthHealthy). *)
Definition healthHealthy : string := "healthy".
(** Source: internal/runner/state.go:233-238 (healthUnhealthy). *)
Definition healthUnhealthy : string := "unhealthy".
(** Source: internal/runner/state.go:240-242 (healthThreshold). *)
Definition healthThreshold : Z := 3.

(** Source: internal/runner/state.go:244-253 (healthTransition). *)
Inductive healthTransition : Type :=
  | healthNone | healthCheckFailed | healthBecameHealthy | healthBecameUnhealthy | healthRecovered.

(** Source: internal/runner/state.go:255-291 (recordHealth). *)
Definition recordHealth (cancelled : bool) (gen : Z) (ok : bool) (detail : string) (restart : bool)
    (st : procState) : healthTransition * procState :=
  if negb (health_live cancelled gen st) then (healthNone, st)
  else if ok then
    (if bool_decide (st_health st = healthHealthy) then healthNone
     else if bool_decide (st_health st = healthUnhealthy) then healthRecovered
     else healthBecameHealthy,
     set_healthError "" (set_healthFailures 0 (set_health healthHealthy st)))
  else
    let st := set_healthError detail (set_healthFailures (st_healthFailures st + 1) st) in
    if (st_healthFailures st <? healthThreshold)%Z || bool_decide (st_health st = healthUnhealthy)
    then (healthCheckFailed, st)
    else
      let st := set_health healthUnhealthy st in
      (healthBecameUnhealthy,
       if restart
       then set_lastError ("health check failed (" +:+ itoa healthThreshold +:+ " consecutive): "
                           +:+ detail) (set_probeFailed true st)
       else st).

(** Source: internal/runner/state.go:293-309 (recordHealthSkipped). *)
Definition recordHealthSkipped (cancelled : bool) (gen : Z) (detail : string) (st : procState)
    : bool * procState :=
  if negb (health_live cancelled gen st) then (false, st)
  else if bool_decide (st_health st = healthUnknown) && bool_decide (st_healthError st = detail)
  then (false, st)
  else (true, set_healthError detail (set_health healthUnknown st)).

(** ** Lifecycle operations *)

(** Source: internal/runner/state.go:378-387 (settleLocked). *)
Definition settleLocked (outcome : readyOutcome) (st : procState) : procState :=
  match open_cycle st with
  | None => st
  | Some i => settle_cycle i outcome st
  end.

(** Source: internal/runner/state.go:357-376 (resetReady). *)
Definition resetReady (st : procState) : procState :=
  let st := settleLocked readyAgain st in
  set_readyDisposition readyUnset
    (set_readyCycle (Some (length (st_cycles st)))
      (set_cycles (st_cycles st ++ [newReadyCycle]) st)).

(** Source: internal/runner/state.go:418-433 (failProcess). *)
Definition failProcess (msg : string) (st : procState) : procState :=
  let st := set_state "failed" st in
  let st := if bool_decide (msg = "") then st else set_lastError msg st in
  settleLocked readyTerminal (set_readyDisposition readyTerminal st).

(** Source: internal/runner/state.go:435-448 (endProcess). *)
Definition endProcess (st : procState) : procState :=
  settleLocked readyTerminal (set_readyDisposition readyTerminal (set_state "exited" st)).

(** Source: internal/runner/state.go:450-462 (stopProcess). *)
Definition stopProcess (msg : string) (st : procState) : procState :=
  let st := set_state "exited" st in
  let st := if bool_decide (msg = "") then st else set_lastError msg st in
  settleLocked readyStopped (set_readyDisposition readyStopped st).

(** Source: internal/runner/state.go:349-355 (requestRestart). *)
Definition requestRestart (st : procState) : procState := set_restartCh true st.

(** The start of an incarnation of a service.
    Source: internal/runner/lifecycle.go:151-168 (runProcess, start of an incarnation). *)
Definition start_incarnation (now : Z) (has_health : bool) (st : procState) : procState :=
  let st := set_startedAt now st in
  let st := set_pid 0 (set_state "starting" st) in
  let st := set_generation (uint64_succ (st_generation st)) st in
  let st := set_probeFailed false (set_exitCode None (set_lastError "" st)) in
  let st := set_healthOwner None (set_readinessOwner None st) in
  let st := set_healthError "" (set_healthFailures 0 (set_health "" st)) in
  let st := set_readyDisposition readyUnset st in
  if has_health then set_health healthUnknown st else st.

(** The start of a task's only incarnation.
    Source: internal/runner/lifecycle.go:373-378 (runTaskProcess, start). *)
Definition start_task (now : Z) (st : procState) : procState :=
  let st := set_pid 0 (set_state "starting" (set_startedAt now st)) in
  set_generation (uint64_succ (st_generation st)) st.

(** Source: internal/runner/lifecycle.go:622-625 (exec, running). *)
Definition mark_running (pid : Z) (st : procState) : procState :=
  set_state "running" (set_pid pid st).

(** Source: internal/runner/lifecycle.go:894-896 (exec, exit code). *)
Definition record_exit (code : Z) (st : procState) : procState := set_exitCode (Some code) st.

(** Source: internal/runner/lifecycle.go:242-245 (runProcess, restarting). *)
Definition mark_restarting (st : procState) : procState :=
  set_state "restarting" (set_restarts (st_restarts st + 1) st).

(** Source: internal/runner/lifecycle.go:266-268 (runProcess, exited before a restart). *)
Definition mark_exited (st : procState) : procState := set_state "exited" st.

(** Source: internal/runner/lifecycle.go:301-305 (runProcess, last error). *)
Definition keep_error (err : string) (st : procState) : procState :=
  if bool_decide (st_lastError st = "") then set_lastError err st else st.

(** ** What is reported *)

(** Source: internal/runner/state.go:311-326 (currentlyReady). *)
Definition currentlyReady (st : procState) : bool :=
  readySettled st && bool_decide (st_state st ∈ ["running"; "completed"]).

(** Source: internal/runner/state.go:334-347 (currentHealth). *)
Definition currentHealth (st : procState) : string * string :=
  if bool_decide (st_state st = "running") then (st_health st, st_healthError st)
  else if bool_decide (st_health st = "") then ("", "")
  else (healthUnknown, "").

(** Source: internal/runner/state.go:543-548 (healthOwnerIf). *)
Definition healthOwnerIf (owner : option EndpointOwner) (running : bool) : option EndpointOwner :=
  if negb running then None else owner.

(** Source: internal/ipc/ipc.go:42-70 (ProcState). *)
Record ProcState : Type := mkIPCState {
  ps_Name : string;
  ps_State : string;
  ps_Mode : string;
  ps_Ready : bool;
  ps_PID : Z;
  ps_Restarts : Z;
  ps_StartedAt : Z;
  ps_ColorIndex : Z;
  ps_CPUPercent : Z;
  ps_MemoryMB : Z;
  ps_Generation : Z;
  ps_LastError : string;
  ps_ExitCode : option Z;
  ps_DependsOn : list string;
  ps_Health : string;
  ps_HealthError : string;
  ps_ReadinessOwner : option EndpointOwner;
  ps_HealthOwner : option EndpointOwner;
}.

(** Source: internal/runner/state.go:511-541 (ipcStateLocked). *)
Definition ipcStateLocked (name : string) (proc : Process) (st : procState) : ProcState :=
  let '(health, healthError) := currentHealth st in
  mkIPCState name (st_state st) (EffectiveMode proc) (currentlyReady st) (st_pid st)
    (st_restarts st) (st_startedAt st) (st_colorIndex st) (st_cpuPercent st) (st_memoryMB st)
    (st_generation st) (st_lastError st) (st_exitCode st) (p_DependsOn proc) health healthError
    (st_readinessOwner st)
    (healthOwnerIf (st_healthOwner st) (bool_decide (st_state st = "running"))).

(** Source: internal/runner/state.go:389-397 (currentReadyCycle). *)
Definition currentReadyCycle (st : procState) : option nat := st_readyCycle st.

(** [None] is the cycle whose channel never closes.
    Source: internal/runner/state.go:399-407 (outcomeOf). *)
Definition outcomeOf (cycle : option nat) (st : procState) : readyOutcome :=
  match cycle with
  | Some i => rc_outcome (cycle_at st i)
  | None => readyUnset
  end.

(** ** The store of a run *)

(** What a worker knows of its process.  [argv] and [capture] are set only for
    one-shot checks.
    Source: internal/runner/runner.go:251-274 (procInfo). *)
Record procInfo : Type := mkProcInfo {
  pi_name : string;
  pi_proc : Process;
  pi_colorIndex : Z;
  pi_argv : list string;
  pi_teardown : bool;
  pi_quiet : bool;
}.

(** Source: internal/runner/state.go:66-70 (stateStore). *)
Record stateStore : Type := mkStateStore {
  ss_procs : gmap string procState;
  ss_infoByName : gmap string procInfo;
}.

(** Source: internal/runner/state.go:72-88 (newStateStore). *)
Definition newStateStore (infos : list procInfo) : stateStore :=
  fold_left (λ s p,
      mkStateStore (<[pi_name p := new_procState (pi_colorIndex p)]> (ss_procs s))
        (<[pi_name p := p]> (ss_infoByName s))) infos (mkStateStore ∅ ∅).

(** Source: internal/runner/state.go:464-468 (get). *)
Definition store_get (s : stateStore) (name : string) : option procState := ss_procs s !! name.

(** Source: internal/runner/state.go:550-560 (setProc). *)
Definition setProc (name : string) (proc : Process) (s : stateStore) : stateStore :=
  match ss_infoByName s !! name with
  | Some info =>
      mkStateStore (ss_procs s)
        (<[name := mkProcInfo (pi_name info) proc (pi_colorIndex info) (pi_argv info)
                     (pi_teardown info) (pi_quiet info)]> (ss_infoByName s))
  | None => s
  end.

(** [order] is the order in which the map is iterated.
    Source: internal/runner/state.go:498-509 (snapshot). *)
Definition snapshot (order : list string) (s : stateStore) : list ProcState :=
  omap (λ name, st ← ss_procs s !! name;
          Some (ipcStateLocked name (default zero_process (pi_proc <$> ss_infoByName s !! name)) st))
    order.

(** Source: internal/runner/state.go:562-574 (anyActive). *)
Definition anyActive (s : stateStore) : bool :=
  existsb (λ kv : string * procState, st_active kv.2) (map_to_list (ss_procs s)).

(** What is measured for a pid.
    Source: internal/runner/state.go:478-496 (updateMetrics, loop body). *)
Definition update_metrics (measure : Z → Z * Z) (st : procState) : procState :=
  if bool_decide (st_state st = "running") && (0 <? st_pid st)%Z
  then let '(cpu, mem) := measure (st_pid st) in set_memoryMB mem (set_cpuPercent cpu st)
  else st.

(** ** Histories *)

(** One critical section on a process state. *)
Inductive op : Type :=
  | OMarkReady (ok : bool)
  | OMarkReadyFor (cancelled : bool) (gen : Z) (ok : bool) (owner : option EndpointOwner)
  | ORefusedOwner (gen : Z) (owner : option EndpointOwner)
  | OHealthOwner (cancelled : bool) (gen : Z) (owner : option EndpointOwner)
  | OFailReadiness (cancelled : bool) (gen : Z) (msg : string)
  | OHealth (cancelled : bool) (gen : Z) (ok : bool) (detail : string) (restart : bool)
  | OHealthSkipped (cancelled : bool) (gen : Z) (detail : string)
  | OReset
  | OFail (msg : string)
  | OEnd
  | OStop (msg : string)
  | OStart (now : Z) (has_health : bool)
  | OStartTask (now : Z)
  | ORunning (pid : Z)
  | OExit (code : Z)
  | ORestarting
  | OExited
  | OKeepError (err : string)
  | OTaskReaped
  | OComplete
  | ORestartSignal (pending : bool)
  | OActive (active : bool)
  | OMetrics (cpu mem : Z).

Definition apply_op (o : op) (st : procState) : procState :=
  match o with
  | OMarkReady ok => (markReady ok st).2
  | OMarkReadyFor cancelled gen ok owner => (markReadyFor cancelled gen ok owner st).2
  | ORefusedOwner gen owner => (recordRefusedOwner gen owner st).2
  | OHealthOwner cancelled gen owner => (recordHealthOwner cancelled gen owner st).2
  | OFailReadiness cancelled gen msg => (failReadinessFor cancelled gen msg st).2
  | OHealth cancelled gen ok detail restart => (recordHealth cancelled gen ok detail restart st).2
  | OHealthSkipped cancelled gen detail => (recordHealthSkipped cancelled gen detail st).2
  | OReset => resetReady st
  | OFail msg => failProcess msg st
  | OEnd => endProcess st
  | OStop msg => stopProcess msg st
  | OStart now has_health => start_incarnation now has_health st
  | OStartTask now => start_task now st
  | ORunning pid => mark_running pid st
  | OExit code => record_exit code st
  | ORestarting => mark_restarting st
  | OExited => mark_exited st
  | OKeepError err => keep_error err st
  | OTaskReaped => set_pid 0 st
  | OComplete => set_state "completed" st
  | ORestartSignal pending => set_restartCh pending st
  | OActive active => set_active active st
  | OMetrics cpu mem => set_memoryMB mem (set_cpuPercent cpu st)
  end.

Definition apply_ops (ops : list op) (st : procState) : procState := fold_left (flip apply_op) ops st.

(** The states of a run's store, whatever the goroutines do. *)
Inductive reachable : procState → Prop :=
  | reachable_new color : reachable (new_procState color)
  | reachable_op o st : reachable st → reachable (apply_op o st).

(** ** How an operation acts on the cycles *)

(** Nothing happens, the open cycle settles, or it settles with no verdict and
    a fresh one takes its place. *)
Inductive cycle_step (st st' : procState) : Prop :=
  | cycle_same :
      st_cycles st' = st_cycles st → st_readyCycle st' = st_readyCycle st → cycle_step st st'
  | cycle_settle i outcome :
      open_cycle st = Some i → outcome ≠ readyUnset →
      st_cycles st' = st_cycles (settle_cycle i outcome st) →
      st_readyCycle st' = st_readyCycle st → cycle_step st st'
  | cycle_reset :
      st_cycles st' = st_cycles (settleLocked readyAgain st) ++ [newReadyCycle] →
      st_readyCycle st' = Some (length (st_cycles st)) → cycle_step st st'.

Lemma settleLocked_step outcome st st' :
  outcome ≠ readyUnset →
  st_cycles st' = st_cycles (settleLocked outcome st) →
  st_readyCycle st' = st_readyCycle st → cycle_step st st'.
Proof.
  unfold settleLocked. destruct (open_cycle st) eqn:Ho; [|by constructor].
  intros. by eapply cycle_settle.
Qed.

Lemma latchReady_step outcome accept st :
  outcome ≠ readyUnset →
  (∀ st st', accept st = Some st' → st_cycles st' = st_cycles st ∧ st_readyCycle st' = st_readyCycle st) →
  cycle_step st (latchReady outcome accept st).2.
Proof.
  intros Ho Ha. unfold latchReady. destruct (open_cycle st) as [i|] eqn:Hi; [|by constructor].
  destruct (accept st) as [st'|] eqn:He; [|by constructor]. destruct (Ha _ _ He) as [Hc Hr].
  apply (cycle_settle _ _ i outcome); [done..| |]; cbn; congruence.
Qed.

Lemma settle_cycle_length i outcome st : length (st_cycles (settle_cycle i outcome st)) = length (st_cycles st).
Proof. cbn. apply length_alter. Qed.

Lemma apply_op_step o st : cycle_step st (apply_op o st).
Proof.
  destruct o; cbn [apply_op]; try by constructor.
  - destruct ok; apply latchReady_step; naive_solver.
  - apply latchReady_step; [by destruct ok|]. intros s s'. case_match; [done|]. by intros [= <-].
  - unfold recordRefusedOwner. case_match; by constructor.
  - unfold recordHealthOwner. repeat case_match; by constructor.
  - unfold failReadinessFor. case_match; by constructor.
  - unfold recordHealth. repeat case_match; by constructor.
  - unfold recordHealthSkipped. repeat case_match; by constructor.
  - apply cycle_reset; [done|]. cbn. unfold settleLocked. case_match; [|done].
    by rewrite settle_cycle_length.
  - unfold failProcess. destruct (bool_decide (msg = ""));
      (apply (settleLocked_step readyTerminal); [done| |]; unfold settleLocked, open_cycle, cycle_at; cbn;
       repeat case_match; done).
  - unfold endProcess. apply (settleLocked_step readyTerminal); [done| |];
      unfold settleLocked, open_cycle, cycle_at; cbn; repeat case_match; done.
  - unfold stopProcess. destruct (bool_decide (msg = ""));
      (apply (settleLocked_step readyStopped); [done| |]; unfold settleLocked, open_cycle, cycle_at; cbn;
       repeat case_match; done).
  - unfold start_incarnation. case_match; by constructor.
  - unfold keep_error. case_match; by constructor.
Qed.

(** ** The cycle invariant *)

(** Every cycle is closed exactly when it has an outcome, and once; the current
    cycle is the last one; no earlier cycle is still open. *)
Record cycles_ok (st : procState) : Prop := {
  co_current : st_readyCycle st = Some (pred (length (st_cycles st)));
  co_nonempty : 0 < length (st_cycles st);
  co_closes : ∀ i c, st_cycles st !! i = Some c →
    rc_closes c = if bool_decide (rc_outcome c = readyUnset) then 0 else 1;
  co_past : ∀ i c, st_cycles st !! i = Some c → S i < length (st_cycles st) →
    rc_outcome c ≠ readyUnset;
}.

Lemma open_cycle_Some st i :
  open_cycle st = Some i → st_readyCycle st = Some i ∧ rc_outcome (cycle_at st i) = readyUnset.
Proof. unfold open_cycle. case_match; [|done]. case_bool_decide; naive_solver. Qed.

Lemma settle_lookup i outcome st j c :
  st_cycles (settle_cycle i outcome st) !! j = Some c ↔
  ∃ c0, st_cycles st !! j = Some c0 ∧ c = if decide (j = i) then mkReadyCycle (S (rc_closes c0)) outcome else c0.
Proof.
  cbn. destruct (decide (j = i)) as [->|Hne].
  - rewrite list_lookup_alter_eq. destruct (st_cycles st !! i); cbn; naive_solver.
  - rewrite list_lookup_alter_ne by done. naive_solver.
Qed.

Lemma cycles_ok_settle st i outcome :
  cycles_ok st → open_cycle st = Some i → outcome ≠ readyUnset → cycles_ok (settle_cycle i outcome st).
Proof.
  intros [Hcur Hne Hcl Hpast] [Hr Hun]%open_cycle_Some Ho. split.
  - by rewrite settle_cycle_length.
  - by rewrite settle_cycle_length.
  - intros j c (c0 & Hj & ->)%settle_lookup. case_decide as Hd; [|by apply (Hcl j)].
    subst. cbn. rewrite (bool_decide_eq_false_2 (outcome = _)) by done.
    rewrite (Hcl _ _ Hj). unfold cycle_at in Hun. rewrite Hj in Hun. cbn in Hun. by rewrite Hun.
  - rewrite settle_cycle_length. intros j c (c0 & Hj & ->)%settle_lookup Hlt.
    case_decide; [done|]. by apply (Hpast j).
Qed.

Lemma cycles_ok_eq st st' :
  st_cycles st' = st_cycles st → st_readyCycle st' = st_readyCycle st → cycles_ok st → cycles_ok st'.
Proof. intros Hc Hr [H1 H2 H3 H4]. split; rewrite ?Hc, ?Hr; done. Qed.

Lemma cycles_ok_settleLocked st outcome :
  outcome ≠ readyUnset → cycles_ok st → cycles_ok (settleLocked outcome st).
Proof. intros Ho H. unfold settleLocked. case_match; [by apply cycles_ok_settle|done]. Qed.

(** After settling, the current cycle has an outcome. *)
Lemma settleLocked_settled st outcome i :
  outcome ≠ readyUnset → st_readyCycle st = Some i → i < length (st_cycles st) →
  rc_outcome (cycle_at (settleLocked outcome st) i) ≠ readyUnset.
Proof.
  intros Ho Hi Hlt. unfold settleLocked, open_cycle. rewrite Hi. case_bool_decide as Hb; [|done].
  unfold cycle_at. cbn. rewrite list_lookup_alter_eq.
  destruct (lookup_lt_is_Some_2 _ _ Hlt) as [c ->]. done.
Qed.

Lemma cycles_ok_step st st' : cycles_ok st → cycle_step st st' → cycles_ok st'.
Proof.
  intros Hok [Hc Hr|i outcome Hi Ho Hc Hr|Hc Hr].
  - by eapply cycles_ok_eq.
  - eapply cycles_ok_eq, cycles_ok_settle; done.
  - pose proof Hok as [Hcur Hne _ _].
    pose proof (cycles_ok_settleLocked st readyAgain ltac:(done) Hok) as [Hcur' Hne' Hcl' Hpast'].
    pose proof (settleLocked_settled st readyAgain _ ltac:(done) Hcur ltac:(lia)) as Hset.
    assert (length (st_cycles (settleLocked readyAgain st)) = length (st_cycles st)) as Hlen.
    { unfold settleLocked. case_match; [apply settle_cycle_length|done]. }
    split.
    + rewrite Hr, Hc, length_app, Hlen. cbn. f_equal. lia.
    + rewrite Hc, length_app. cbn. lia.
    + intros j c. rewrite Hc. intros [Hj|[? Hj]]%lookup_app_Some; [by apply (Hcl' j)|].
      apply list_lookup_singleton_Some in Hj as [_ <-]. done.
    + intros j c. rewrite Hc, length_app, Hlen. cbn. intros Hj Hlt.
      rewrite lookup_app_l in Hj by lia.
      destruct (decide (S j < length (st_cycles st))); [by apply (Hpast' j); [|lia]|].
      assert (j = pred (length (st_cycles st))) as -> by lia.
      unfold cycle_at in Hset. by rewrite Hj in Hset.
Qed.

Lemma reachable_cycles_ok st : reachable st → cycles_ok st.
Proof.
  induction 1 as [color|o st _ IH]; [|by eapply cycles_ok_step, apply_op_step].
  split; [done|cbn; lia| |].
  - intros [|i] c [= <-]; done.
  - intros i c _ Hlt. cbn in Hlt. lia.
Qed.

(** The readiness protocol is safe under every interleaving of the worker,
    the probes, the health checks and the commands: the channel of a cycle is
    closed exactly once, when its outcome is published (never twice, which
    would panic), the current cycle is the last one, and no cycle a waiter may
    still hold is replaced without an outcome. *)
Theorem readiness_cycles_safe st : reachable st → cycles_ok st.
Proof. apply reachable_cycles_ok. Qed.

Lemma outcome_kept o st i c :
  st_cycles st !! i = Some c → rc_outcome c ≠ readyUnset → st_cycles (apply_op o st) !! i = Some c.
Proof.
  intros Hi Hc.
  assert (∀ outcome, st_cycles (settleLocked outcome st) !! i = Some c) as Hs.
  { intros outcome. unfold settleLocked. destruct (open_cycle st) as [k|] eqn:Hk; [|done].
    apply settle_lookup. exists c. split; [done|]. case_decide as Hd; [|done]. subst k.
    apply open_cycle_Some in Hk as [_ Hk]. unfold cycle_at in Hk. by rewrite Hi in Hk. }
  destruct (apply_op_step o st) as [He _|k outcome Hk Ho He _|He _]; rewrite He; [done| |].
  - specialize (Hs outcome). unfold settleLocked in Hs. by rewrite Hk in Hs.
  - apply lookup_app_l_Some, Hs.
Qed.

(** A published outcome is immutable: whatever the operation and the state,
    a cycle that has an outcome keeps it. *)
Theorem outcome_immutable o st i c :
  st_cycles st !! i = Some c → rc_outcome c ≠ readyUnset → st_cycles (apply_op o st) !! i = Some c.
Proof. apply outcome_kept. Qed.

(** ** Operations bound to an incarnation *)

(** A probe or a health check that outlived its incarnation (its context
    has ended, or its generation is no longer the current one) changes
    nothing, whatever its result. *)
Theorem stale_probe_dropped st cancelled gen ok owner msg restart :
  cancelled = true ∨ gen ≠ st_generation st →
  markReadyFor cancelled gen ok owner st = (false, st) ∧
  failReadinessFor cancelled gen msg st = (false, st) ∧
  recordHealth cancelled gen ok msg restart st = (healthNone, st) ∧
  recordHealthSkipped cancelled gen msg st = (false, st) ∧
  recordHealthOwner cancelled gen owner st = (false, st).
Proof.
  intros Hstale.
  assert (cancelled || negb (st_generation st =? gen)%Z = true) as Hg.
  { destruct Hstale as [->|Hne]; [done|]. apply orb_true_iff. right.
    by apply negb_true_iff, Z.eqb_neq. }
  assert (health_live cancelled gen st = false) as Hl.
  { unfold health_live. by rewrite Hg. }
  unfold markReadyFor, latchReady, failReadinessFor, recordHealth, recordHealthSkipped,
    recordHealthOwner. rewrite <-(orb_assoc (st_probeFailed st)), Hg, Hl, orb_true_r. cbn.
  split_and!; [by case_match|done..|by case_match].
Qed.

(** The operations of the probes and the health checks of an incarnation. *)
Definition probe_op (o : op) : bool :=
  match o with
  | OMarkReadyFor _ _ _ _ | ORefusedOwner _ _ | OHealthOwner _ _ _ | OFailReadiness _ _ _
  | OHealth _ _ _ _ _ | OHealthSkipped _ _ _ | OMetrics _ _ | ORestartSignal _ => true
  | _ => false
  end.

Lemma apply_ops_cons o ops st : apply_ops (o :: ops) st = apply_ops ops (apply_op o st).
Proof. done. Qed.

Lemma readySettled_iff st :
  readySettled st = true ↔ ∃ i, st_readyCycle st = Some i ∧ rc_outcome (cycle_at st i) = readySatisfied.
Proof.
  unfold readySettled. destruct (st_readyCycle st); [rewrite bool_decide_eq_true|]; naive_solver.
Qed.

(** A settled current cycle stays settled as long as it is current. *)
Lemma readySettled_mono o st :
  readySettled st = true → st_readyCycle (apply_op o st) = st_readyCycle st →
  readySettled (apply_op o st) = true.
Proof.
  rewrite !readySettled_iff. intros (i & Hi & Ho) ->. exists i. split; [done|].
  unfold cycle_at in *. destruct (st_cycles st !! i) as [c|] eqn:Hc; [|done].
  cbn in Ho. by rewrite (outcome_kept o st i c Hc ltac:(congruence)).
Qed.

Lemma probe_op_readyCycle o st : probe_op o = true → st_readyCycle (apply_op o st) = st_readyCycle st.
Proof.
  destruct o; try done; intros _; cbn [apply_op];
    unfold markReadyFor, latchReady, recordRefusedOwner, recordHealthOwner, failReadinessFor,
      recordHealth, recordHealthSkipped; repeat (case_match; simplify_eq/=; try done).
Qed.

Lemma probe_op_generation o st : probe_op o = true → st_generation (apply_op o st) = st_generation st.
Proof.
  destruct o; try done; intros _; cbn [apply_op];
    unfold markReadyFor, latchReady, recordRefusedOwner, recordHealthOwner, failReadinessFor,
      recordHealth, recordHealthSkipped; repeat (case_match; simplify_eq/=; try done).
Qed.

Lemma probe_op_probeFailed o st :
  probe_op o = true → st_probeFailed st = true → st_probeFailed (apply_op o st) = true.
Proof.
  destruct o; try done; intros _ Hf; cbn [apply_op];
    unfold markReadyFor, latchReady, recordRefusedOwner, recordHealthOwner, failReadinessFor,
      recordHealth, recordHealthSkipped; repeat (case_match; simplify_eq/=; try done).
Qed.

(** A failed incarnation does not become ready. *)
Lemma probe_op_not_ready o st :
  probe_op o = true → st_probeFailed st = true → readySettled (apply_op o st) = readySettled st.
Proof.
  intros Hp Hf. destruct o; try done; cbn [apply_op].
  - unfold markReadyFor, latchReady. rewrite Hf. cbn. by case_match.
  - unfold recordRefusedOwner. by case_match.
  - unfold recordHealthOwner. by repeat case_match.
  - unfold failReadinessFor. by case_match.
  - unfold recordHealth. by repeat case_match.
  - unfold recordHealthSkipped. by repeat case_match.
Qed.

Lemma apply_probe_ops (P : procState → Prop) ops st :
  forallb probe_op ops = true → P st →
  (∀ o st, probe_op o = true → P st → P (apply_op o st)) → P (apply_ops ops st).
Proof.
  intros Hops HP Hstep. revert st HP. induction ops as [|o ops IH]; intros st HP; [done|].
  cbn [forallb] in Hops. apply andb_true_iff in Hops as [Ho Hops]. apply IH; [done|]. by apply Hstep.
Qed.

Lemma markReadyFor_settles cancelled gen owner st :
  cycles_ok st → (markReadyFor cancelled gen true owner st).1 = true →
  readySettled (markReadyFor cancelled gen true owner st).2 = true.
Proof.
  intros [Hcur Hne _ _]. unfold markReadyFor, latchReady.
  destruct (open_cycle st) as [i|] eqn:Hi; [|done].
  destruct (st_probeFailed st || cancelled || _); [done|]. intros _. apply readySettled_iff.
  apply open_cycle_Some in Hi as [Hi _]. exists i. split; [done|].
  unfold cycle_at. cbn. rewrite list_lookup_alter_eq. rewrite Hcur in Hi. injection Hi as <-.
  by destruct (lookup_lt_is_Some_2 (st_cycles st) (pred (length (st_cycles st))) ltac:(lia)) as [c ->].
Qed.

(** Readiness and its failure exclude each other within an incarnation,
    and the first verdict wins: after a recorded failure no probe makes the
    incarnation ready, and after it became ready no probe fails its readiness,
    whatever probes and health checks run in between. *)
Theorem first_verdict_wins st gen msg owner ops cancelled' gen' ok' msg' owner' :
  reachable st → forallb probe_op ops = true →
  ((failReadinessFor false gen msg st).1 = true →
     let st' := apply_ops ops (failReadinessFor false gen msg st).2 in
     readySettled st' = false ∧ (markReadyFor cancelled' gen' ok' owner' st').1 = false) ∧
  ((markReadyFor false gen true owner st).1 = true →
     let st' := apply_ops ops (markReadyFor false gen true owner st).2 in
     readySettled st' = true ∧ (failReadinessFor cancelled' gen' msg' st').1 = false).
Proof.
  intros Hreach Hops. split.
  - intros Hfail st'.
    assert (st_probeFailed st' = true ∧ readySettled st' = false) as [Hf' Hr'].
    { apply (apply_probe_ops (λ s, st_probeFailed s = true ∧ readySettled s = false)); [done| |].
      - unfold failReadinessFor in *. case_match eqn:Hg; [done|].
        apply orb_false_iff in Hg as [_ Hr]. by split.
      - intros o s Ho [Hf Hs]. split; [by apply probe_op_probeFailed|]. by rewrite probe_op_not_ready. }
    split; [done|]. unfold markReadyFor, latchReady. rewrite Hf'. cbn. by case_match.
  - intros Hm st'.
    assert (readySettled st' = true) as Hr'.
    { apply (apply_probe_ops (λ s, readySettled s = true)); [done| |].
      - apply markReadyFor_settles; [by apply reachable_cycles_ok|done].
      - intros o s Ho Hs. apply readySettled_mono; [done|]. by apply probe_op_readyCycle. }
    split; [done|]. unfold failReadinessFor. rewrite Hr', orb_true_r. done.
Qed.

(** ** The health verdict *)

(** The result of one health check. *)
Inductive check_result : Type := Pass | Failure (detail : string) | Skip (detail : string).

(** The results since the last pass, latest first. *)
Fixpoint since_pass (revs : list check_result) : list check_result :=
  match revs with
  | Pass :: _ | [] => []
  | e :: revs => e :: since_pass revs
  end.

Definition is_failure (e : check_result) : bool := if e is Failure _ then true else false.

(** Failed checks since the last pass; a check that could not run does not
    interrupt the streak. *)
Definition streak (revs : list check_result) : nat := length (List.filter is_failure (since_pass revs)).

(** Some check passed, and none was skipped since. *)
Fixpoint passed (revs : list check_result) : bool :=
  match revs with
  | Pass :: _ => true
  | Failure _ :: revs => passed revs
  | _ => false
  end.

(** The verdict the results of an incarnation amount to, latest first. *)
Definition verdict (revs : list check_result) : string :=
  match revs with
  | Skip _ :: _ => healthUnknown
  | _ => if 3 <=? streak revs then healthUnhealthy
         else if passed revs then healthHealthy else healthUnknown
  end.

(** The result an operation applies to incarnation [gen]. *)
Definition result_of (gen : Z) (o : op) : option check_result :=
  match o with
  | OHealth false g ok detail _ => if (g =? gen)%Z then Some (if ok then Pass else Failure detail) else None
  | OHealthSkipped false g detail => if (g =? gen)%Z then Some (Skip detail) else None
  | _ => None
  end.

(** What the state holds after the results [revs]. *)
Definition health_inv (gen : Z) (revs : list check_result) (st : procState) : Prop :=
  health_live false gen st = true ∧ st_health st = verdict revs ∧
  st_healthFailures st = Z.of_nat (streak revs).

Lemma health_live_gen gen g st :
  health_live false gen st = true → health_live false g st = (g =? gen)%Z.
Proof.
  unfold health_live. cbn. rewrite negb_true_iff, !orb_false_iff, negb_false_iff, Z.eqb_eq.
  intros [[Hg Hs] He]. rewrite Hs, He, !orb_false_r, negb_involutive, Hg. apply Z.eqb_sym.
Qed.

Lemma health_live_op gen o st :
  probe_op o = true → health_live false gen (apply_op o st) = health_live false gen st.
Proof.
  intros Hp. assert (st_state (apply_op o st) = st_state st ∧ st_exitCode (apply_op o st) = st_exitCode st)
    as [Hs He].
  { destruct o; try done; cbn [apply_op];
      unfold markReadyFor, latchReady, recordRefusedOwner, recordHealthOwner, failReadinessFor,
        recordHealth, recordHealthSkipped; repeat (case_match; simplify_eq/=; try done). }
  unfold health_live. by rewrite Hs, He, probe_op_generation.
Qed.

Lemma streak_cons e revs :
  streak (e :: revs) = match e with
                       | Pass => 0 | Failure _ => S (streak revs) | Skip _ => streak revs
                       end.
Proof. by destruct e. Qed.

Lemma verdict_short revs :
  streak revs < 3 → verdict revs = if passed revs then healthHealthy else healthUnknown.
Proof.
  intros Hs. unfold verdict. rewrite (proj2 (Nat.leb_gt 3 (streak revs))) by done.
  by destruct revs as [|[] revs].
Qed.

Lemma verdict_failure d revs :
  verdict (Failure d :: revs) =
  if 3 <=? S (streak revs) then healthUnhealthy else verdict revs.
Proof.
  destruct (3 <=? S (streak revs)) eqn:Hs.
  - unfold verdict. by rewrite streak_cons, Hs.
  - apply Nat.leb_gt in Hs. rewrite !verdict_short by (rewrite ?streak_cons; lia). done.
Qed.

(** Operations that are not a result for [gen] leave its health alone. *)
Lemma health_untouched gen o st :
  probe_op o = true → health_live false gen st = true → result_of gen o = None →
  st_health (apply_op o st) = st_health st ∧
  st_healthFailures (apply_op o st) = st_healthFailures st.
Proof.
  intros Hp Hl Hr. destruct o; try done; cbn [apply_op];
    try (unfold markReadyFor, latchReady, recordRefusedOwner, recordHealthOwner, failReadinessFor;
         repeat (case_match; simplify_eq/=; try done)).
  - unfold recordHealth. destruct cancelled; [done|]. cbn in Hr.
    rewrite (health_live_gen gen) by done. by destruct (gen0 =? gen)%Z.
  - unfold recordHealthSkipped. destruct cancelled; [done|]. cbn in Hr.
    rewrite (health_live_gen gen) by done. by destruct (gen0 =? gen)%Z.
Qed.

Lemma health_step gen revs o st :
  probe_op o = true → health_inv gen revs st →
  health_inv gen (match result_of gen o with Some e => e :: revs | None => revs end) (apply_op o st).
Proof.
  intros Hp (Hl & Hh & Hf). destruct (result_of gen o) as [e|] eqn:Hr.
  2:{ destruct (health_untouched gen o st) as [H1 H2]; [done..|].
      split; [by rewrite health_live_op|]. by rewrite H1, H2. }
  split; [by rewrite health_live_op|].
  destruct o as [| | | | |[] g ok d r|[] g d| | | | | | | | | | | | | | | |]; try done;
    cbn [result_of] in Hr; destruct (g =? gen)%Z eqn:Hg; try done; injection Hr as <-;
    cbn [apply_op].
  - unfold recordHealth. rewrite (health_live_gen gen), Hg by done. cbn [negb].
    destruct ok; [done|]. rewrite verdict_failure, streak_cons.
    cbn [set_healthFailures set_healthError st_healthFailures st_health].
    rewrite Hf, Hh. destruct (3 <=? S (streak revs)) eqn:Hs.
    + apply Nat.leb_le in Hs. rewrite (proj2 (Z.ltb_ge _ _)) by (unfold healthThreshold; lia).
      cbn [orb]. case_bool_decide as Hu; [cbn; split; [congruence|lia]|].
      destruct r; cbn; (split; [done|lia]).
    + apply Nat.leb_gt in Hs. rewrite (proj2 (Z.ltb_lt _ _)) by (unfold healthThreshold; lia).
      cbn. split; [done|lia].
  - unfold recordHealthSkipped. rewrite (health_live_gen gen), Hg by done. cbn [negb].
    rewrite streak_cons. case_match eqn:Hsame; [|done]. cbn. split; [|done].
    by apply andb_true_iff in Hsame as [Hsame%bool_decide_eq_true _].
Qed.

Lemma health_run gen ops revs st :
  forallb probe_op ops = true → health_inv gen revs st →
  health_inv gen (rev (omap (result_of gen) ops) ++ revs) (apply_ops ops st).
Proof.
  revert revs st; induction ops as [|o ops IH]; intros revs st Hops Hinv; [done|].
  cbn [forallb] in Hops. apply andb_true_iff in Hops as [Ho Hops].
  pose proof (IH _ _ Hops (health_step gen revs o st Ho Hinv)) as H.
  rewrite apply_ops_cons. cbn [omap list_omap]. destruct (result_of gen o); [|done].
  cbn [rev]. by rewrite <-(assoc_L (++)).
Qed.

(** The health of a running incarnation is the verdict of its own check
    results, latest first: unknown after a check that could not run, unhealthy
    once three checks have failed since the last pass, healthy when the last
    pass is not followed by either, and unknown before.  Results of other
    incarnations, readiness probes and metrics do not affect it. *)
Theorem health_verdict ops st now :
  let st1 := mark_running (st_pid st) (start_incarnation now true st) in
  let gen := st_generation st1 in
  let st2 := apply_ops ops st1 in
  forallb probe_op ops = true →
  currentHealth st2 = (verdict (rev (omap (result_of gen) ops)), st_healthError st2) ∧
  st_healthFailures st2 = Z.of_nat (streak (rev (omap (result_of gen) ops))).
Proof.
  intros st1 gen st2 Hops.
  assert (health_inv gen [] st1) as H0.
  { split; [|done]. unfold health_live. by rewrite Z.eqb_refl. }
  destruct (health_run gen ops [] st1 Hops H0) as (Hl & Hh & Hf). rewrite app_nil_r in Hh, Hf.
  split; [|done]. unfold currentHealth. fold st2 in Hl, Hh.
  unfold health_live in Hl. apply negb_true_iff in Hl.
  rewrite !orb_false_iff, !negb_false_iff in Hl. destruct Hl as [[_ ->] _]. by rewrite Hh.
Qed.

(** ** Witnesses *)

(** A started, running service with a health check. *)
Definition example_state : procState :=
  mark_running 4242 (start_incarnation 7 true (new_procState 0)).

Lemma example_reachable : reachable example_state.
Proof. apply (reachable_op (ORunning 4242)), (reachable_op (OStart 7 true)), reachable_new. Defined.

Lemma readiness_cycles_safe_witness : cycles_ok (resetReady (stopProcess "" example_state)).
Proof.
  apply readiness_cycles_safe. apply (reachable_op OReset), (reachable_op (OStop "")), example_reachable.
Defined.

Lemma outcome_immutable_witness :
  st_cycles (resetReady (stopProcess "" example_state)) !! 0 = Some (mkReadyCycle 1 readyStopped).
Proof.
  apply (outcome_immutable OReset (stopProcess "" example_state) 0 (mkReadyCycle 1 readyStopped));
    [vm_compute; reflexivity|discriminate].
Defined.

Lemma stale_probe_dropped_witness :
  markReadyFor false 2 true None example_state = (false, example_state).
Proof.
  assert (false = true ∨ 2%Z ≠ st_generation example_state) as H
    by (right; vm_compute; discriminate).
  exact (proj1 (stale_probe_dropped example_state false 2 true None "" false H)).
Defined.

Lemma first_verdict_wins_witness :
  readySettled (apply_ops [OHealth false 1 false "down" false; OMarkReadyFor false 1 true None]
                  (failReadinessFor false 1 "timed out" example_state).2) = false.
Proof.
  destruct (first_verdict_wins example_state 1 "timed out" None
    [OHealth false 1 false "down" false; OMarkReadyFor false 1 true None] false 1 true "" None
    example_reachable) as [H _]; [vm_compute; reflexivity|].
  assert ((failReadinessFor false 1 "timed out" example_state).1 = true) as Hf
    by (vm_compute; reflexivity).
  exact (proj1 (H Hf)).
Defined.

Lemma health_verdict_witness :
  (currentHealth (apply_ops [OHealth false 1 true "" false; OHealth false 1 false "a" false;
                             OHealth false 1 false "b" false; OHealth false 1 false "c" false]
                    (mark_running 0 (start_incarnation 7 true (new_procState 0))))).1 = healthUnhealthy.
Proof.
  destruct (health_verdict [OHealth false 1 true "" false; OHealth false 1 false "a" false;
    OHealth false 1 false "b" false; OHealth false 1 false "c" false] (new_procState 0) 7)
    as [H _]; [vm_compute; reflexivity|].
  change (mark_running 0 ?x) with (mark_running (st_pid (new_procState 0)) x).
  rewrite H. vm_compute. reflexivity.
Defined.
