(* ===== verification/Lifecycle.v ===== *)
(** * The lifecycle of a process

    Waiting for dependencies, the run loop of a service with its restart
    policy, the run of a task, and the worker that keeps a finished service
    controllable.  What the outside does (exits, stops, requested restarts,
    timers, the other goroutines' operations on the process state) is a script
    given to the functions, one entry per turn of a loop; a loop whose script
    is used up is still running. *)

From S2P Require Import Prelude GoStrings ConfigTypes RunnerState.

(** ** Durations *)

(** The int64 a Go expression wraps to. *)
Definition int64 (z : Z) : Z := ((z + 2 ^ 63) mod 2 ^ 64 - 2 ^ 63)%Z.

(** [time.Second], in nanoseconds. *)
Definition Second : Z := 1000000000.

(** Source: internal/runner/lifecycle.go:94-102 (nextBackoff). *)
Definition nextBackoff (cur : Z) : Z := Z.min (int64 (2 * cur)) (30 * Second).

(** Source: internal/runner/lifecycle.go:1510-1521 (resolveReadyTimeout). *)
Definition resolveReadyTimeout (seconds : Z) : Z :=
  if (seconds <? 0)%Z then 0
  else if (seconds =? 0)%Z then 60 * Second
  else int64 (seconds * Second).

(** ** Waiting for a dependency *)

(** Source: internal/runner/lifecycle.go:39-47 (dependencyVerdict). *)
Record dependencyVerdict : Type := mkVerdict {
  dv_verdict : readyOutcome;
  dv_quiesced : bool;
}.

(** Which case of the [select] fires. *)
Inductive wake : Type := WakeHandoff | WakeCancelled | WakeSettled.

(** One turn of the wait: the dependency's state when the current cycle is
    read, when the [select] fires, and when the cycle is read again. *)
Record wait_round : Type := mkWait {
  wr_start : procState;
  wr_wake : wake;
  wr_end : procState;
  wr_again : procState;
}.

(** Source: internal/runner/lifecycle.go:60-91 (waitForDependency, loop body). *)
Definition wait_step (r : wait_round) : option dependencyVerdict :=
  let cycle := currentReadyCycle (wr_start r) in
  match wr_wake r with
  | WakeHandoff => Some (mkVerdict readyUnset true)
  | WakeCancelled =>
      if bool_decide (st_readyDisposition (wr_end r) = readyTerminal)
      then Some (mkVerdict readyTerminal false) else Some (mkVerdict readyStopped false)
  | WakeSettled =>
      match outcomeOf cycle (wr_end r) with
      | readySatisfied => Some (mkVerdict readySatisfied false)
      | readyTerminal => Some (mkVerdict readyTerminal false)
      | readyStopped => Some (mkVerdict readyStopped false)
      | readyAgain =>
          if bool_decide (currentReadyCycle (wr_again r) = cycle)
          then Some (mkVerdict readyStopped false) else None
      | readyUnset => None
      end
  end.

(** Source: internal/runner/lifecycle.go:49-92 (waitForDependency). *)
Fixpoint waitForDependency (rounds : list wait_round) : option dependencyVerdict :=
  match rounds with
  | [] => None
  | r :: rounds => match wait_step r with
                   | Some v => Some v
                   | None => waitForDependency rounds
                   end
  end.

(** ** The run loop of a service *)

(** Source: internal/runner/lifecycle.go:24-28 (processRunResult). *)
Record processRunResult : Type := mkResult {
  pr_failed : bool;
  pr_failFast : bool;
  pr_quiesced : bool;
}.

(** An error of [exec]; [ee_unconfirmed] is [errors.Is(err, errTreeUnconfirmed)]. *)
Record exec_error : Type := mkExecError {
  ee_message : string;
  ee_unconfirmed : bool;
}.

(** What [exec] returns. *)
Inductive exec_result : Type :=
  | ExecHandoff
  | ExecReturned (err : option exec_error).

(** How the wait before a restart ends. *)
Inductive wait_end : Type := WaitStopped | WaitRestart | WaitTimer.

(** One turn of the run loop: the definition [refreshProc] finds, the clock,
    everything that happens to the state until [exec] returns, its result and
    duration, whether the run is stopping, whether a restart was requested,
    and the end of the backoff wait. *)
Record incarnation : Type := mkIncarnation {
  in_proc : option Process;
  in_now : Z;
  in_ops : list op;
  in_result : exec_result;
  in_elapsed : Z;
  in_stopped : bool;
  in_triggered : bool;
  in_reloaded : option Process;
  in_wait : wait_end;
}.

(** Source: internal/runner/runner.go:237-249 (refreshProc). *)
Definition refreshProc (updated : option Process) (p : procInfo) : procInfo :=
  match updated with
  | None => p
  | Some proc => mkProcInfo (pi_name p) proc (pi_colorIndex p) (pi_argv p) (pi_teardown p) (pi_quiet p)
  end.

(** Source: internal/runner/lifecycle.go:1523-1531 (giveUp). *)
Definition giveUp (p : procInfo) (st : procState) : bool * procState :=
  (true, failProcess ("max restarts (" +:+ itoa (p_MaxRestarts (pi_proc p)) +:+ ") reached, giving up") st).

(** The restart budget is used up. *)
Definition over_budget (p : procInfo) (st : procState) : bool :=
  let max := p_MaxRestarts (pi_proc p) in
  (0 <? max)%Z && (max <? st_restarts st + 1)%Z.

(** [None] when the run was stopped during the wait.
    Source: internal/runner/lifecycle.go:340-370 (waitBeforeRestart). *)
Definition waitBeforeRestart (w : wait_end) (backoff : Z) (st : procState) : option Z * procState :=
  match w with
  | WaitStopped => (None, stopProcess "" st)
  | WaitRestart => (Some Second, set_restartCh false st)
  | WaitTimer => (Some (nextBackoff backoff), st)
  end.

(** What a turn of the loop leads to. *)
Inductive turn : Type :=
  | Return (r : processRunResult) (st : procState)
  | Continue (p : procInfo) (backoff : Z) (st : procState).

(** The common end of both automatic restarts.
    Source: internal/runner/lifecycle.go:323-336 (runProcess, restart). *)
Definition restart_after_backoff (i : incarnation) (p : procInfo) (backoff : Z) (st : procState) : turn :=
  let st := mark_restarting (resetReady st) in
  match waitBeforeRestart (in_wait i) backoff st with
  | (None, st) => Return (mkResult false false false) st
  | (Some backoff, st) => Continue p backoff st
  end.

(** Source: internal/runner/lifecycle.go:251-262 (runProcess, effective error). *)
Definition effective_error (err : option exec_error) (st : procState) : option exec_error :=
  match err with
  | None => if st_probeFailed st then Some (mkExecError (st_lastError st) false) else None
  | Some _ => err
  end.

(** The state when [exec] has returned.
    Source: internal/runner/lifecycle.go:144-211 (runProcess, one incarnation). *)
Definition started (i : incarnation) (p : procInfo) (st : procState) : procState :=
  apply_ops (in_ops i)
    (start_incarnation (in_now i)
       (bool_decide (is_Some (p_HealthWhen (pi_proc (refreshProc (in_proc i) p))))) st).

(** Source: internal/runner/lifecycle.go:143-338 (runProcess, loop body). *)
Definition incarnation_turn (i : incarnation) (p : procInfo) (backoff : Z) (st : procState) : turn :=
  let st := started i p st in
  let p := refreshProc (in_proc i) p in
  match in_result i with
  | ExecHandoff => Return (mkResult false false true) st
  | ExecReturned err =>
      let backoff := if (backoff <? in_elapsed i)%Z then Second else backoff in
      if in_stopped i then Return (mkResult false false false) (stopProcess "" st)
      else if in_triggered i then
        let p := refreshProc (in_reloaded i) p in
        Continue p Second (mark_restarting (resetReady st))
      else
        match effective_error err st with
        | None =>
            if bool_decide (p_Restart (pi_proc p) = "always") then
              let st := mark_exited st in
              if over_budget p st
              then let '(failed, st) := giveUp p st in Return (mkResult failed false false) st
              else restart_after_backoff i p backoff st
            else Return (mkResult false false false) (endProcess st)
        | Some err =>
            let st := keep_error (ee_message err) st in
            if bool_decide (p_Restart (pi_proc p) = "never") || ee_unconfirmed err
            then Return (mkResult true false false) (failProcess "" st)
            else if over_budget p st
            then let '(failed, st) := giveUp p st in Return (mkResult failed false false) st
            else restart_after_backoff i p backoff st
        end
  end.

(** [None] when the script ends before the loop does.
    Source: internal/runner/lifecycle.go:143-338 (runProcess, loop). *)
Fixpoint run_loop (script : list incarnation) (p : procInfo) (backoff : Z) (st : procState)
    : option (processRunResult * procState) :=
  match script with
  | [] => None
  | i :: script =>
      match incarnation_turn i p backoff st with
      | Return r st => Some (r, st)
      | Continue p backoff st => run_loop script p backoff st
      end
  end.

(** ** Tasks *)

(** The single run of a task.
    Source: internal/runner/lifecycle.go:372-412 (runTaskProcess). *)
Definition runTaskProcess (now : Z) (ops : list op) (result : exec_result) (stopped : bool)
    (st : procState) : processRunResult * procState :=
  let st := apply_ops ops (start_task now st) in
  match result with
  | ExecHandoff => (mkResult false false true, st)
  | ExecReturned err =>
      let st := set_pid 0 st in
      if stopped then (mkResult false false false, stopProcess "" st)
      else match err with
           | None => (mkResult false false false, (markReady true (set_state "completed" st)).2)
           | Some err => (mkResult true true false, failProcess ("task failed: " +:+ ee_message err) st)
           end
  end.

(** ** A whole run *)

(** The waits of the dependencies, then the incarnations. *)
Record run_script : Type := mkRun {
  rs_waits : list (list wait_round);
  rs_loop : list incarnation;
}.

(** What waiting for all dependencies leads to. *)
Inductive deps_result : Type :=
  | DepsReady
  | DepsReturn (r : processRunResult) (st : procState)
  | DepsWaiting.

(** [known] tells which names the store has; an unknown one is skipped.
    Source: internal/runner/lifecycle.go:108-137 (runProcess, dependencies). *)
Fixpoint wait_dependencies (known : string → bool) (deps : list string)
    (waits : list (list wait_round)) (st : procState) : deps_result :=
  match deps with
  | [] => DepsReady
  | dep :: deps =>
      if negb (known dep) then wait_dependencies known deps waits st
      else match waits with
           | [] => DepsWaiting
           | rounds :: waits =>
               match waitForDependency rounds with
               | None => DepsWaiting
               | Some wait =>
                   if dv_quiesced wait then DepsReturn (mkResult false false true) st
                   else match dv_verdict wait with
                        | readyTerminal =>
                            DepsReturn (mkResult true false false)
                              (failProcess ("dependency " +:+ quote dep +:+ " failed") st)
                        | readyStopped =>
                            DepsReturn (mkResult false false false)
                              (stopProcess ("stopped while waiting for dependency " +:+ quote dep) st)
                        | _ => wait_dependencies known deps waits st
                        end
               end
           end
  end.

(** Source: internal/runner/lifecycle.go:104-338 (runProcess). *)
Definition runProcess (known : string → bool) (s : run_script) (p : procInfo) (st : procState)
    : option (processRunResult * procState) :=
  match wait_dependencies known (p_DependsOn (pi_proc p)) (rs_waits s) st with
  | DepsReturn r st => Some (r, st)
  | DepsWaiting => None
  | DepsReady =>
      if bool_decide (EffectiveMode (pi_proc p) = ProcessModeTask) then
        match rs_loop s with
        | [] => None
        | i :: _ => Some (runTaskProcess (in_now i) (in_ops i) (in_result i) (in_stopped i) st)
        end
      else run_loop (rs_loop s) p Second st
  end.

(** ** The worker of a process *)

(** One turn of a worker: the run, what the run context and the other
    processes are like when it has returned, and the signal that ends the
    idle wait. *)
Record worker_round : Type := mkWorkerRound {
  wk_run : run_script;
  wk_cancelled : bool;
  wk_others_active : bool;
  wk_checks : nat;
  wk_restarted : bool;
  wk_reloaded : option Process;
}.

(** What a turn of the worker leads to; [cancel] tells whether it cancelled
    the run. *)
Inductive worker_turn_result : Type :=
  | WorkerRunning
  | WorkerReturn (cancel : bool) (st : procState)
  | WorkerAgain (p : procInfo) (st : procState).

(** Source: internal/runner/runner.go:370-411 (Run, worker loop body). *)
Definition worker_turn (ipc : bool) (known : string → bool) (r : worker_round) (p : procInfo)
    (st : procState) : worker_turn_result :=
  match runProcess known (wk_run r) p st with
  | None => WorkerRunning
  | Some (result, st) =>
      if pr_quiesced result then WorkerReturn false st
      else
        let cancelled := wk_cancelled r || pr_failFast result in
        let st := set_active (st_restartCh st && negb cancelled) st in
        let idle := ipc && negb (wk_others_active r || st_active st) && (wk_checks r =? 0) in
        let cancelled := cancelled || idle in
        if (negb ipc && (wk_checks r =? 0))
           || bool_decide (EffectiveMode (pi_proc p) = ProcessModeTask) || cancelled
        then WorkerReturn (pr_failFast result || idle) st
        else if negb (wk_restarted r) then WorkerReturn false st
        else let p := refreshProc (wk_reloaded r) p in
             let st := resetReady (set_restartCh false st) in
             WorkerAgain p (set_active true (set_restarts (st_restarts st + 1) st))
  end.

(** ** Histories between two observations *)

(** [st'] is a later state of the same process. *)
Definition evolves (st st' : procState) : Prop := ∃ ops, st' = apply_ops ops st.

Lemma evolves_refl st : evolves st st.
Proof. by exists []. Qed.

Lemma evolves_trans st1 st2 st3 : evolves st1 st2 → evolves st2 st3 → evolves st1 st3.
Proof.
  intros [ops1 ->] [ops2 ->]. exists (ops1 ++ ops2). unfold apply_ops. by rewrite fold_left_app.
Qed.

Lemma evolves_ind (P : procState → Prop) st st' :
  (∀ o st, P st → P (apply_op o st)) → P st → evolves st st' → P st'.
Proof.
  intros Hstep HP [ops ->]. unfold apply_ops. apply fold_left_invariant; [done|].
  intros s o _ Hs. by apply Hstep.
Qed.

Lemma evolves_reachable st st' : reachable st → evolves st st' → reachable st'.
Proof. intros H He. eapply (evolves_ind reachable); [|done|done]. intros. by constructor. Qed.

Lemma evolves_outcome st st' i c :
  evolves st st' → st_cycles st !! i = Some c → rc_outcome c ≠ readyUnset → st_cycles st' !! i = Some c.
Proof.
  intros He Hi Hc. eapply (evolves_ind (λ s, st_cycles s !! i = Some c)); [|done|done].
  intros o s Hs. by apply outcome_kept.
Qed.

Lemma cycle_step_length st st' : cycle_step st st' → length (st_cycles st) <= length (st_cycles st').
Proof.
  intros [Hc _|i outcome _ _ Hc _|Hc _]; rewrite Hc; [done|by rewrite settle_cycle_length|].
  rewrite length_app. unfold settleLocked. case_match; [rewrite settle_cycle_length|]; lia.
Qed.

Lemma evolves_length st st' : evolves st st' → length (st_cycles st) <= length (st_cycles st').
Proof.
  intros He. eapply (evolves_ind (λ s, length (st_cycles st) <= length (st_cycles s))); [|done|done].
  intros o s Hs. etrans; [exact Hs|]. apply cycle_step_length, apply_op_step.
Qed.

(** A cycle has an outcome exactly when its channel is closed. *)
Lemma closed_iff st i : reachable st → i < length (st_cycles st) →
  rc_closed (cycle_at st i) = true ↔ rc_outcome (cycle_at st i) ≠ readyUnset.
Proof.
  intros [_ _ Hcl _]%reachable_cycles_ok Hi. unfold cycle_at, rc_closed.
  destruct (lookup_lt_is_Some_2 _ _ Hi) as [c Hc]. rewrite Hc. cbn [default from_option id].
  rewrite (Hcl _ _ Hc). by case_bool_decide.
Qed.

(** ** Waiting *)

(** A possible turn from state [st]: the observations come in order, and the
    channel case fires only when the cycle read at the start is closed. *)
Record round_from (st : procState) (r : wait_round) : Prop := {
  rf_start : evolves st (wr_start r);
  rf_end : evolves (wr_start r) (wr_end r);
  rf_again : evolves (wr_end r) (wr_again r);
  rf_closed : wr_wake r = WakeSettled → ∃ i, currentReadyCycle (wr_start r) = Some i ∧
    rc_closed (cycle_at (wr_end r) i) = true;
}.

(** A possible wait, from [st] to [st']. *)
Inductive waits : procState → list wait_round → procState → Prop :=
  | waits_nil st : waits st [] st
  | waits_cons st r rounds st' : round_from st r → waits (wr_again r) rounds st' → waits st (r :: rounds) st'.

(** A turn that goes on: the cycle it waited for ended without a verdict and a
    later one is current. *)
Lemma wait_step_None st r :
  reachable st → round_from st r → wait_step r = None →
  length (st_cycles (wr_start r)) < length (st_cycles (wr_again r)).
Proof.
  intros Hst [Hs He Ha Hcl] Hnone. unfold wait_step in Hnone.
  destruct (wr_wake r); [done|by case_match|].
  destruct (Hcl eq_refl) as (i & Hi & Hclosed). rewrite Hi in Hnone. cbn [outcomeOf] in Hnone.
  pose proof (evolves_reachable _ _ Hst Hs) as Hrs.
  pose proof (evolves_reachable _ _ Hrs He) as Hre.
  pose proof (evolves_reachable _ _ Hre Ha) as Hra.
  pose proof (co_current _ (reachable_cycles_ok _ Hrs)) as Hcur.
  pose proof (co_nonempty _ (reachable_cycles_ok _ Hrs)) as Hne.
  unfold currentReadyCycle in *. rewrite Hcur in Hi. injection Hi as <-.
  pose proof (evolves_length _ _ He) as Hle. pose proof (evolves_length _ _ Ha) as Hla.
  apply closed_iff in Hclosed; [|done|lia].
  destruct (rc_outcome _); [done..| |done]. case_bool_decide as Hd; [done|].
  rewrite (co_current _ (reachable_cycles_ok _ Hra)) in Hd.
  destruct (decide (length (st_cycles (wr_start r)) = length (st_cycles (wr_again r)))) as [Heq|]; [|lia].
  by rewrite Heq in Hd.
Qed.

(** Waiting for a dependency ends: every turn that goes on has seen a new
    readiness cycle, so a wait of more turns than the dependency has cycles
    returns a verdict. *)
Theorem wait_terminates st rounds st' :
  reachable st → waits st rounds st' → length (st_cycles st') < length rounds →
  is_Some (waitForDependency rounds).
Proof.
  intros Hst Hw Hlen.
  assert (∀ st rounds st', waits st rounds st' → reachable st → waitForDependency rounds = None →
    length (st_cycles st) + length rounds <= length (st_cycles st')) as Hcount.
  { clear. induction 1 as [st|st r rounds st' Hr Hw IH]; intros Hst Hnone; [cbn; lia|].
    cbn [waitForDependency] in Hnone. destruct (wait_step r) eqn:Hstep; [done|].
    pose proof (wait_step_None _ _ Hst Hr Hstep) as Hlt. destruct Hr as [Hs He Ha _].
    pose proof (evolves_length _ _ Hs).
    assert (reachable (wr_again r)) as Hra by (repeat (eapply evolves_reachable; [|done]); done).
    specialize (IH Hra Hnone). cbn [length]. lia. }
  destruct (waitForDependency rounds) eqn:Hnone; [done|].
  specialize (Hcount _ _ _ Hw Hst Hnone). lia.
Qed.

Lemma waits_evolves st rounds st' : waits st rounds st' → evolves st st'.
Proof.
  induction 1 as [st|st r rounds st' [Hs He Ha _] _ IH]; [apply evolves_refl|].
  eapply evolves_trans; [exact Hs|]. eapply evolves_trans; [exact He|]. by eapply evolves_trans.
Qed.

(** A dependent starts only on real readiness: the wait reports the
    dependency ready only when one of its cycles has been published as ready,
    reports it failed only when its lifecycle is over, and reports a handoff
    only on a handoff. *)
Theorem wait_verdict_sound st rounds st' v :
  reachable st → waits st rounds st' → waitForDependency rounds = Some v →
  (dv_quiesced v = true ∧ ∃ r, r ∈ rounds ∧ wr_wake r = WakeHandoff) ∨
  (dv_quiesced v = false ∧ ∃ r, r ∈ rounds ∧
     match dv_verdict v with
     | readySatisfied => ∃ i c, st_cycles st' !! i = Some c ∧ rc_outcome c = readySatisfied
     | readyTerminal => (∃ i c, st_cycles st' !! i = Some c ∧ rc_outcome c = readyTerminal) ∨
                        (wr_wake r = WakeCancelled ∧ st_readyDisposition (wr_end r) = readyTerminal)
     | readyStopped => True
     | _ => False
     end).
Proof.
  intros Hst Hw. induction Hw as [st|st r rounds st' Hr Hw IH]; [done|].
  cbn [waitForDependency]. pose proof Hr as [Hs He Ha Hcl].
  assert (reachable (wr_again r)) as Hra by (repeat (eapply evolves_reachable; [|done]); done).
  destruct (wait_step r) as [v'|] eqn:Hstep.
  2:{ intros Hv. destruct (IH Hra Hv) as [(? & x & Hx & ?)|(? & x & Hx & ?)]; [left|right];
      (split; [done|]); exists x; (split; [by apply list_elem_of_further|done]). }
  intros [= ->]. unfold wait_step in Hstep.
  pose proof (evolves_trans _ _ _ Ha (waits_evolves _ _ _ Hw)) as Hend.
  destruct (wr_wake r) eqn:Hwake.
  - injection Hstep as <-. left. split; [done|]. exists r. split; [apply list_elem_of_here|done].
  - right. case_bool_decide as Hd; injection Hstep as <-; (split; [done|]); exists r;
      (split; [apply list_elem_of_here|]); cbn; [by right|done].
  - right. destruct (Hcl eq_refl) as (i & Hi & Hclosed). rewrite Hi in Hstep. cbn [outcomeOf] in Hstep.
    assert (∀ o, rc_outcome (cycle_at (wr_end r) i) = o → o ≠ readyUnset →
      ∃ c, st_cycles st' !! i = Some c ∧ rc_outcome c = o) as Hkeep.
    { intros o Ho Hne. unfold cycle_at in Ho. destruct (st_cycles (wr_end r) !! i) as [c|] eqn:Hc;
        [|by subst o]. exists c. split; [|done]. eapply evolves_outcome; [done..|]. cbn in Ho. congruence. }
    destruct (rc_outcome (cycle_at (wr_end r) i)) eqn:Ho; try done;
      try (case_bool_decide; [|done]); injection Hstep as <-; (split; [done|]); exists r;
      (split; [apply list_elem_of_here|]); cbn; try exact I.
    + exists i. by apply Hkeep.
    + left. exists i. by apply Hkeep.
Qed.

(** ** The end of a lifecycle *)

(** Whoever waits on the current cycle is woken. *)
Definition dependents_released (st : procState) : Prop :=
  ∃ i, currentReadyCycle st = Some i ∧ i < length (st_cycles st) ∧
       rc_outcome (cycle_at st i) ≠ readyUnset.

Lemma settleLocked_released outcome st :
  outcome ≠ readyUnset → cycles_ok st → dependents_released (settleLocked outcome st).
Proof.
  intros Ho [Hcur Hne _ _]. exists (pred (length (st_cycles st))). split_and!.
  - unfold settleLocked, currentReadyCycle. by case_match.
  - unfold settleLocked. case_match; [rewrite settle_cycle_length|]; lia.
  - apply settleLocked_settled; [done..|lia].
Qed.

Lemma settleLocked_fields outcome st :
  st_state (settleLocked outcome st) = st_state st ∧
  st_readyDisposition (settleLocked outcome st) = st_readyDisposition st ∧
  st_restarts (settleLocked outcome st) = st_restarts st ∧
  st_generation (settleLocked outcome st) = st_generation st.
Proof. unfold settleLocked. by case_match. Qed.

Lemma failProcess_end msg st : cycles_ok st →
  dependents_released (failProcess msg st) ∧ st_state (failProcess msg st) = "failed" ∧
  st_readyDisposition (failProcess msg st) = readyTerminal.
Proof.
  intros Hok. unfold failProcess. set (s := set_readyDisposition _ _).
  destruct (settleLocked_fields readyTerminal s) as (-> & -> & _). split_and!.
  - apply settleLocked_released; [done|]. eapply cycles_ok_eq, Hok; unfold s; by case_match.
  - unfold s. by case_match.
  - done.
Qed.

Lemma endProcess_end st : cycles_ok st →
  dependents_released (endProcess st) ∧ st_state (endProcess st) = "exited" ∧
  st_readyDisposition (endProcess st) = readyTerminal.
Proof.
  intros Hok. unfold endProcess. set (s := set_readyDisposition _ _).
  destruct (settleLocked_fields readyTerminal s) as (-> & -> & _). split_and!; [|done..].
  apply settleLocked_released; [done|]. by eapply cycles_ok_eq, Hok.
Qed.

Lemma stopProcess_end msg st : cycles_ok st →
  dependents_released (stopProcess msg st) ∧ st_state (stopProcess msg st) = "exited" ∧
  st_readyDisposition (stopProcess msg st) = readyStopped.
Proof.
  intros Hok. unfold stopProcess. set (s := set_readyDisposition _ _).
  destruct (settleLocked_fields readyStopped s) as (-> & -> & _). split_and!.
  - apply settleLocked_released; [done|]. eapply cycles_ok_eq, Hok; unfold s; by case_match.
  - unfold s. by case_match.
  - done.
Qed.

(** What a run that returned has published: nothing on a cleanup handoff, which
    releases every waiter itself; otherwise a final state, its lifecycle
    verdict and the readiness outcome, and the result agrees with them. *)
Definition published (r : processRunResult) (st : procState) : Prop :=
  pr_quiesced r = true ∨
  pr_quiesced r = false ∧ dependents_released st ∧
  ((pr_failed r = true ∧ st_state st = "failed" ∧ st_readyDisposition st = readyTerminal) ∨
   (pr_failed r = false ∧ st_state st = "exited" ∧ st_readyDisposition st ≠ readyUnset) ∨
   (pr_failed r = false ∧ st_state st = "completed")).

Lemma published_fail msg st b : cycles_ok st → published (mkResult true b false) (failProcess msg st).
Proof. intros H. destruct (failProcess_end msg st H) as (? & ? & ?). right. tauto. Qed.

Lemma published_end st : cycles_ok st → published (mkResult false false false) (endProcess st).
Proof.
  intros H. destruct (endProcess_end st H) as (? & ? & Hd). right. cbn. rewrite Hd.
  split_and!; [done..|]. right. left. done.
Qed.

Lemma published_stop msg st : cycles_ok st → published (mkResult false false false) (stopProcess msg st).
Proof.
  intros H. destruct (stopProcess_end msg st H) as (? & ? & Hd). right. cbn. rewrite Hd.
  split_and!; [done..|]. right. left. done.
Qed.

(** ** One turn of the run loop *)

Lemma evolves_op o st : evolves st (apply_op o st).
Proof. by exists [o]. Qed.

Lemma started_evolves i p st : evolves st (started i p st).
Proof.
  by exists (OStart (in_now i) (bool_decide (is_Some (p_HealthWhen (pi_proc (refreshProc (in_proc i) p)))))
             :: in_ops i).
Qed.

Lemma restart_after_backoff_cases i p backoff st t :
  restart_after_backoff i p backoff st = t →
  let st1 := mark_restarting (resetReady st) in
  (in_wait i = WaitStopped ∧ t = Return (mkResult false false false) (stopProcess "" st1)) ∨
  (in_wait i = WaitRestart ∧ t = Continue p Second (set_restartCh false st1)) ∨
  (in_wait i = WaitTimer ∧ t = Continue p (nextBackoff backoff) st1).
Proof. unfold restart_after_backoff. intros <-. destruct (in_wait i); cbn; tauto. Qed.

Lemma restarting_evolves st : evolves st (mark_restarting (resetReady st)).
Proof. by exists [OReset; ORestarting]. Qed.

Lemma keep_error_evolves err st : evolves st (keep_error err st).
Proof. exact (evolves_op (OKeepError err) st). Qed.

(** The state an automatic restart decision is made in. *)
Definition decided (i : incarnation) (p : procInfo) (st : procState) (st0 : procState) : Prop :=
  evolves (started i p st) st0 ∧ st_restarts st0 = st_restarts (started i p st).

Lemma turn_cases i p backoff st :
  let p1 := refreshProc (in_proc i) p in
  let st1 := started i p st in
  let b := match in_result i with
           | ExecHandoff => backoff
           | ExecReturned _ => if (backoff <? in_elapsed i)%Z then Second else backoff
           end in
  (in_result i = ExecHandoff ∧ incarnation_turn i p backoff st = Return (mkResult false false true) st1) ∨
  (∃ err, in_result i = ExecReturned err ∧
    ((in_stopped i = true ∧
        incarnation_turn i p backoff st = Return (mkResult false false false) (stopProcess "" st1)) ∨
     (in_stopped i = false ∧ in_triggered i = true ∧
        incarnation_turn i p backoff st =
          Continue (refreshProc (in_reloaded i) p1) Second (mark_restarting (resetReady st1))) ∨
     (in_stopped i = false ∧ in_triggered i = false ∧ effective_error err st1 = None ∧
        p_Restart (pi_proc p1) ≠ "always" ∧
        incarnation_turn i p backoff st = Return (mkResult false false false) (endProcess st1)) ∨
     (in_stopped i = false ∧ in_triggered i = false ∧ ∃ st0, decided i p st st0 ∧
        ((∃ msg, incarnation_turn i p backoff st = Return (mkResult true false false) (failProcess msg st0)) ∨
         (over_budget p1 st0 = false ∧
          match effective_error err st1 with
          | None => p_Restart (pi_proc p1) = "always"
          | Some e => p_Restart (pi_proc p1) ≠ "never" ∧ ee_unconfirmed e = false
          end ∧
          incarnation_turn i p backoff st = restart_after_backoff i p1 b st0))))).
Proof.
  intros p1 st1 b. unfold incarnation_turn. fold p1 st1.
  destruct (in_result i) as [|err] eqn:Hres; [by left|]. right. exists err. split; [done|].
  destruct (in_stopped i); [left; done|].
  destruct (in_triggered i); [right; left; split_and!; reflexivity|].
  destruct (effective_error err st1) as [e|] eqn:Herr.
  - right. right. right. split; [done|]. split; [done|]. exists (keep_error (ee_message e) st1).
    split. { split; [apply keep_error_evolves|]. unfold keep_error. by case_match. }
    destruct (bool_decide (p_Restart (pi_proc p1) = "never") || ee_unconfirmed e) eqn:Hn.
    { left. exists "". reflexivity. }
    apply orb_false_iff in Hn as [Hn%bool_decide_eq_false Hu].
    destruct (over_budget p1 _) eqn:Hb; [left; by eexists|]. right. done.
  - case_bool_decide as Ha.
    + right. right. right. split; [done|]. split; [done|]. exists (mark_exited st1).
      split. { split; [exact (evolves_op OExited st1)|done]. }
      destruct (over_budget p1 _) eqn:Hb; [left; by eexists|]. right. done.
    + right. right. left. done.
Qed.

(** ** Backoff *)

Lemma nextBackoff_range b :
  (Second ≤ b ≤ 30 * Second)%Z → (Second ≤ nextBackoff b ≤ 30 * Second)%Z.
Proof.
  unfold nextBackoff, int64, Second. intros Hb. rewrite Z.mod_small by lia. lia.
Qed.

(** The backoff sequence: after [n] timed waits the wait is [2^n] seconds,
    clamped to exactly 30; doubling never overflows. *)
Theorem nextBackoff_sequence n :
  Nat.iter n nextBackoff Second = (Z.min (2 ^ Z.of_nat n) 30 * Second)%Z.
Proof.
  induction n as [|n IH]; [done|]. rewrite Nat.iter_succ, IH, Nat2Z.inj_succ, Z.pow_succ_r by lia.
  assert (0 < 2 ^ Z.of_nat n)%Z by (apply Z.pow_pos_nonneg; lia).
  unfold nextBackoff, int64, Second. rewrite Z.mod_small by lia. lia.
Qed.

Definition backoff_ok (b : Z) : Prop := (Second ≤ b ≤ 30 * Second)%Z.

Lemma turn_backoff i p b st p' b' st' :
  backoff_ok b → incarnation_turn i p b st = Continue p' b' st' → backoff_ok b'.
Proof.
  intros Hb Ht.
  assert (backoff_ok Second) as Hs by (unfold backoff_ok, Second; lia).
  destruct (turn_cases i p b st) as [[_ H]|(err & Hres & [(_ & H)|[(_ & _ & H)|[(_ & _ & _ & _ & H)|
    (_ & _ & st0 & _ & [[msg H]|(_ & _ & H)])]]])]; rewrite H in Ht; try done.
  - by injection Ht as <- <- <-.
  - rewrite Hres in Ht.
    destruct (restart_after_backoff_cases _ _ _ _ _ Ht) as [[_ ?]|[[_ Heq]|[_ Heq]]]; [done|..];
      injection Heq as -> -> ->; [done|]. apply nextBackoff_range. destruct (b <? in_elapsed i)%Z; [exact Hs|exact Hb].
Qed.

(** ** When an incarnation follows another *)

(** What may happen to the state of a running incarnation besides the worker's
    own steps. *)
Definition exec_op (o : op) : bool :=
  probe_op o || match o with ORunning _ | OExit _ | OActive _ => true | _ => false end.

Lemma exec_op_restarts o st : exec_op o = true → st_restarts (apply_op o st) = st_restarts st.
Proof.
  destruct o; try done; intros _; cbn [apply_op];
    unfold markReadyFor, latchReady, recordRefusedOwner, recordHealthOwner, failReadinessFor,
      recordHealth, recordHealthSkipped; repeat (case_match; simplify_eq/=; try done).
Qed.

Lemma started_restarts i p st :
  forallb exec_op (in_ops i) = true → st_restarts (started i p st) = st_restarts st.
Proof.
  intros Hops. unfold started, apply_ops.
  apply (fold_left_invariant (λ s, st_restarts s = st_restarts st)).
  - unfold start_incarnation. by case_match.
  - intros s o Ho Hs. cbn. rewrite exec_op_restarts; [done|].
    rewrite forallb_forall in Hops. by apply Hops, list_elem_of_In.
Qed.

Lemma resetReady_fresh st :
  open_cycle (resetReady st) = Some (length (st_cycles st)) ∧
  st_restarts (resetReady st) = st_restarts st.
Proof.
  assert (length (st_cycles (settleLocked readyAgain st)) = length (st_cycles st)) as Hlen.
  { unfold settleLocked. case_match; [apply settle_cycle_length|done]. }
  split.
  - unfold open_cycle, resetReady, cycle_at. cbn. rewrite Hlen.
    rewrite lookup_app_r by lia. by rewrite Hlen, Nat.sub_diag.
  - cbn. apply settleLocked_fields.
Qed.

Lemma restarting_fields st :
  st_restarts (mark_restarting st) = (st_restarts st + 1)%Z ∧
  st_state (mark_restarting st) = "restarting" ∧ open_cycle (mark_restarting st) = open_cycle st.
Proof. done. Qed.

(** What a turn that goes on hands to the next one. *)
Lemma turn_continue i p b st p' b' st' :
  incarnation_turn i p b st = Continue p' b' st' →
  let p1 := refreshProc (in_proc i) p in
  let st1 := started i p st in
  evolves st st' ∧ st_restarts st' = (st_restarts st1 + 1)%Z ∧ st_state st' = "restarting" ∧
  is_Some (open_cycle st') ∧
  ∃ err, in_result i = ExecReturned err ∧ in_stopped i = false ∧
    ((in_triggered i = true ∧ p' = refreshProc (in_reloaded i) p1) ∨
     (p' = p1 ∧
      ((0 < p_MaxRestarts (pi_proc p1))%Z → (st_restarts st1 < p_MaxRestarts (pi_proc p1))%Z) ∧
      match effective_error err st1 with
      | None => p_Restart (pi_proc p1) = "always"
      | Some e => p_Restart (pi_proc p1) ≠ "never" ∧ ee_unconfirmed e = false
      end)).
Proof.
  intros Ht p1 st1. pose proof (started_evolves i p st) as Hev. fold st1 in Hev.
  destruct (turn_cases i p b st) as [[_ H]|(err & Hres & [(_ & H)|[(Hs & Htr & H)|[(_ & _ & _ & _ & H)|
    (Hs & _ & st0 & [Hev0 Hr0] & [[msg H]|(Hb & Hpol & H)])]]])]; rewrite H in Ht; try done.
  - injection Ht as <- <- <-. fold st1. destruct (resetReady_fresh st1) as [Ho Hr].
    split; [eapply evolves_trans; [done|apply restarting_evolves]|].
    split; [cbn; by rewrite <-Hr|]. split; [done|]. split; [by exists (length (st_cycles st1))|].
    exists err. split_and!; [done..|]. by left.
  - rewrite Hres in Ht. fold st1 in Hev0, Hr0, Hpol. destruct (resetReady_fresh st0) as [Ho Hr].
    pose proof (restarting_evolves st0) as Hre. destruct (restarting_fields (resetReady st0)) as (Hr1 & Hs1 & Ho1).
    set (st2 := mark_restarting (resetReady st0)) in *.
    assert (p' = p1 ∧ (st' = set_restartCh false st2 ∨ st' = st2)) as [-> Hst'].
    { destruct (restart_after_backoff_cases _ _ _ _ _ Ht) as [[_ ?]|[[_ Heq]|[_ Heq]]]; [done|..];
        injection Heq as -> -> ->; split; [reflexivity|by left|reflexivity|by right]. }
    clearbody st2.
    assert (evolves st2 st' ∧ st_restarts st' = st_restarts st2 ∧ st_state st' = st_state st2 ∧
            open_cycle st' = open_cycle st2) as (He & Hr' & Hst & Hop).
    { destruct Hst' as [-> | ->]; [|split; [apply evolves_refl|done]].
      split; [exact (evolves_op (ORestartSignal false) st2)|done]. }
    rewrite Hs1 in Hst. rewrite Ho1 in Hop. rewrite Hr1, Hr in Hr'.
    split. { eapply evolves_trans; [done|]. eapply evolves_trans; [done|].
             eapply evolves_trans; [exact Hre|done]. }
    split; [by rewrite Hr', Hr0|].
    split; [done|]. split; [rewrite Hop; by eexists|].
    exists err. split_and!; [done..|]. right. split; [done|]. split; [|done].
    intros Hm. unfold over_budget in Hb. fold p1 in Hb. rewrite Hr0 in Hb.
    apply andb_false_iff in Hb as [Hb%Z.ltb_ge|Hb%Z.ltb_ge]; lia.
Qed.

(** An incarnation is followed by another only when that is allowed: the
    run is not stopping, and either a restart was requested, or the budget is
    not used up and the policy covers the way it ended; a process tree that
    could not be proven gone is never restarted, a failed readiness counts as
    a failure whatever the exit status, and the restart is counted.  The next
    incarnation starts with a fresh, open readiness cycle. *)
Theorem restart_only_when_allowed i p b st p' b' st' :
  incarnation_turn i p b st = Continue p' b' st' →
  let p1 := refreshProc (in_proc i) p in
  let st1 := started i p st in
  st_restarts st' = (st_restarts st1 + 1)%Z ∧ is_Some (open_cycle st') ∧
  ∃ err, in_result i = ExecReturned err ∧ in_stopped i = false ∧
    (in_triggered i = true ∨
     ((0 < p_MaxRestarts (pi_proc p1))%Z → (st_restarts st1 < p_MaxRestarts (pi_proc p1))%Z) ∧
     match effective_error err st1 with
     | None => p_Restart (pi_proc p1) = "always" ∧ st_probeFailed st1 = false
     | Some e => p_Restart (pi_proc p1) ≠ "never" ∧ ee_unconfirmed e = false
     end).
Proof.
  intros (_ & Hr & _ & Ho & err & Hres & Hs & Hcase)%turn_continue. split_and!; [done..|].
  exists err. split_and!; [done..|]. destruct Hcase as [[? _]|(_ & Hb & Hpol)]; [by left|].
  right. split; [done|]. destruct (effective_error err _) eqn:He; [done|]. split; [done|].
  unfold effective_error in He. by repeat case_match.
Qed.

(** ** Runs *)

Lemma turn_return i p b st r st' :
  reachable st → incarnation_turn i p b st = Return r st' → published r st'.
Proof.
  intros Hst Ht. pose proof (evolves_reachable _ _ Hst (started_evolves i p st)) as Hst1.
  destruct (turn_cases i p b st) as [[_ H]|(err & Hres & [(_ & H)|[(_ & _ & H)|[(_ & _ & _ & _ & H)|
    (_ & _ & st0 & [Hev0 _] & [[msg H]|(_ & _ & H)])]]])]; rewrite H in Ht; try done.
  - injection Ht as <- <-. by left.
  - injection Ht as <- <-. by apply published_stop, reachable_cycles_ok.
  - injection Ht as <- <-. by apply published_end, reachable_cycles_ok.
  - injection Ht as <- <-. eapply published_fail, reachable_cycles_ok, evolves_reachable; done.
  - pose proof (evolves_reachable _ _ (evolves_reachable _ _ Hst1 Hev0) (restarting_evolves st0)).
    destruct (restart_after_backoff_cases _ _ _ _ _ Ht) as [[_ Heq]|[[_ ?]|[_ ?]]]; [|done..].
    injection Heq as -> ->. by apply published_stop, reachable_cycles_ok.
Qed.

Lemma run_loop_published script p b st r st' :
  reachable st → run_loop script p b st = Some (r, st') → published r st'.
Proof.
  revert p b st; induction script as [|i script IH]; intros p b st Hst; [done|]. cbn.
  destruct (incarnation_turn i p b st) as [r0 s0|p0 b0 s0] eqn:Ht.
  - intros [= -> ->]. by eapply turn_return.
  - apply IH. eapply evolves_reachable; [done|]. by apply turn_continue in Ht as [? _].
Qed.

Lemma runTask_published now ops result stopped st :
  reachable st → published (runTaskProcess now ops result stopped st).1 (runTaskProcess now ops result stopped st).2.
Proof.
  intros Hst. unfold runTaskProcess.
  set (st1 := apply_ops ops (start_task now st)).
  assert (reachable st1) as H1.
  { eapply evolves_reachable; [exact Hst|]. by exists (OStartTask now :: ops). }
  destruct result as [|err]; [by left|].
  assert (reachable (set_pid 0 st1)) as H2 by exact (reachable_op OTaskReaped _ H1).
  destruct stopped; [by apply published_stop, reachable_cycles_ok|].
  destruct err as [err|]; [by apply published_fail, reachable_cycles_ok|].
  set (st2 := set_state "completed" (set_pid 0 st1)).
  assert (reachable st2) as H3 by exact (reachable_op OComplete _ H2).
  right. split; [done|]. cbn [fst snd]. unfold markReady, latchReady.
  pose proof (reachable_cycles_ok _ H3) as Hok. pose proof Hok as [Hcur Hne _ _].
  pose proof (settleLocked_released readySatisfied st2 ltac:(done) Hok) as Hrel.
  unfold settleLocked in Hrel.
  destruct (open_cycle st2) as [i|]; cbn; (split; [done|]); right; right; done.
Qed.

(** C33: whatever happens to a process, when its run returns its fate has been
    published: unless a cleanup handoff released the waiters, the current
    readiness cycle is settled, so no dependent waits for ever, the state is
    final, and the result says "failed" exactly for the state "failed", with
    the terminal verdict. *)
Theorem runProcess_published known s p st r st' :
  reachable st → runProcess known s p st = Some (r, st') → published r st'.
Proof.
  intros Hst. unfold runProcess.
  assert (∀ deps ws, match wait_dependencies known deps ws st with
    | DepsReturn r s => published r s | _ => True end) as Hdeps.
  { induction deps as [|d deps IH]; intros ws; cbn; [done|].
    destruct (known d); cbn [negb]; [|apply IH]. destruct ws as [|rounds ws]; [done|].
    destruct (waitForDependency rounds) as [[v []]|]; [by left| |done]. cbn.
    destruct v; try apply IH; [by apply published_fail, reachable_cycles_ok|
      by apply published_stop, reachable_cycles_ok]. }
  specialize (Hdeps (p_DependsOn (pi_proc p)) (rs_waits s)).
  destruct (wait_dependencies _ _ _ _) as [|r0 s0|]; [|by intros [= <- <-]|done].
  case_bool_decide.
  - destruct (rs_loop s) as [|i l]; [done|]. intros [= Heq].
    pose proof (runTask_published (in_now i) (in_ops i) (in_result i) (in_stopped i) st Hst) as Hpub.
    by rewrite Heq in Hpub.
  - by apply run_loop_published.
Qed.

(** ** The restart budget *)

(** Every definition the loop can pick up has the budget [m], nothing but the
    incarnation's own operations touches its state, and no restart is
    requested. *)
Definition budgeted (m : Z) (i : incarnation) : Prop :=
  (∀ proc, in_proc i = Some proc → p_MaxRestarts proc = m) ∧
  forallb exec_op (in_ops i) = true ∧ in_triggered i = false.

(** [max_restarts] is a bound: with a budget [m > 0] and no requested
    restart, a process that keeps ending is launched at most [m + 1] times;
    the run then returns by itself. *)
Theorem max_restarts_bound m script p b st :
  (0 < m)%Z → p_MaxRestarts (pi_proc p) = m → (0 ≤ st_restarts st)%Z →
  (∀ i, i ∈ script → budgeted m i) → (m + 1 - st_restarts st ≤ Z.of_nat (length script))%Z →
  script ≠ [] → is_Some (run_loop script p b st).
Proof.
  intros Hm. revert p b st; induction script as [|i script IH]; intros p b st Hp Hst Hall Hlen Hne;
    [done|].
  destruct (Hall i (list_elem_of_here _ _)) as (Hproc & Hops & Htr). cbn [run_loop].
  destruct (incarnation_turn i p b st) as [r s|p' b' st'] eqn:Ht; [by eexists|].
  apply turn_continue in Ht as (_ & Hr & _ & _ & err & _ & _ & [[? _]|(-> & Hb & _)]); [congruence|].
  rewrite started_restarts in Hr, Hb by done.
  assert (p_MaxRestarts (pi_proc (refreshProc (in_proc i) p)) = m) as Hp'.
  { unfold refreshProc. destruct (in_proc i) eqn:Hi; [by apply Hproc|done]. }
  rewrite Hp' in Hb. specialize (Hb Hm). cbn [length] in Hlen.
  apply IH; [done|lia|intros; apply Hall; by apply list_elem_of_further|lia|].
  intros ->. cbn in Hlen. lia.
Qed.

(** ** Dependencies before the first incarnation *)

Lemma wait_verdicts rounds v :
  waitForDependency rounds = Some v →
  dv_quiesced v = true ∨ dv_quiesced v = false ∧ dv_verdict v ∈ [readySatisfied; readyTerminal; readyStopped].
Proof.
  induction rounds as [|r rounds IH]; [done|]. cbn [waitForDependency].
  destruct (wait_step r) as [v'|] eqn:Hs; [|done]. intros [= ->]. unfold wait_step in Hs.
  rewrite !elem_of_cons. repeat case_match; simplify_eq/=; tauto.
Qed.

Lemma failProcess_generation msg st : st_generation (failProcess msg st) = st_generation st.
Proof.
  unfold failProcess. destruct (settleLocked_fields readyTerminal (set_readyDisposition readyTerminal
    (if bool_decide (msg = "") then set_state "failed" st
     else set_lastError msg (set_state "failed" st)))) as (_ & _ & _ & ->). by case_match.
Qed.

Lemma stopProcess_generation msg st : st_generation (stopProcess msg st) = st_generation st.
Proof.
  unfold stopProcess. destruct (settleLocked_fields readyStopped (set_readyDisposition readyStopped
    (if bool_decide (msg = "") then set_state "exited" st
     else set_lastError msg (set_state "exited" st)))) as (_ & _ & _ & ->). by case_match.
Qed.


(** ** The worker *)

(** A finished process runs again only on request: the worker goes on only
    for a service (a task runs once), while the run is live and something
    keeps it open, and only on a restart signal; a failed task cancels the
    whole run, and so does the last active process of a controllable run. *)
Theorem worker_again_only_on_restart ipc known r p st :
  match worker_turn ipc known r p st with
  | WorkerAgain _ st' =>
      EffectiveMode (pi_proc p) ≠ ProcessModeTask ∧ wk_restarted r = true ∧ wk_cancelled r = false ∧
      (ipc = true ∨ wk_checks r ≠ 0) ∧ is_Some (open_cycle st') ∧ st_active st' = true
  | WorkerReturn cancel _ =>
      ∀ result st', runProcess known (wk_run r) p st = Some (result, st') →
        pr_quiesced result = false →
        (pr_failFast result = true → cancel = true) ∧
        (ipc = true → wk_others_active r = false → wk_checks r = 0 → st_restartCh st' = false →
         cancel = true)
  | WorkerRunning => True
  end.
Proof.
  unfold worker_turn. destruct (runProcess known (wk_run r) p st) as [[result s]|]; [|done].
  destruct (pr_quiesced result) eqn:Hq; [intros ? ? [= <- <-] Hq'; congruence|].
  set (c := wk_cancelled r || pr_failFast result).
  set (idle := ipc && _ && _).
  destruct (_ || _ || (c || idle)) eqn:Hret.
  { intros res s' [= <- <-] _. split; [by intros ->|].
    intros -> Ho Hch Hrc. apply orb_true_iff. right. unfold idle. cbn.
    by rewrite Ho, Hch, Hrc. }
  rewrite !orb_false_iff in Hret. destruct Hret as [[Hipc Htask%bool_decide_eq_false] [Hc Hidle]].
  unfold c in Hc. apply orb_false_iff in Hc as [Hcan Hff].
  destruct (wk_restarted r) eqn:Hr; cbn [negb].
  - split_and!; try done.
    + destruct ipc; [by left|right]. cbn in Hipc. by apply Nat.eqb_neq.
    + set (s' := set_restartCh false _). eexists. exact (proj1 (resetReady_fresh s')).
  - intros res s' [= <- <-] _. split; [congruence|]. intros -> Ho Hch Hrc.
    unfold idle in Hidle. cbn in Hidle. by rewrite Ho, Hch, Hrc in Hidle.
Qed.

(** ** Witnesses *)

Definition example_proc (restart : string) (max : Z) : procInfo :=
  mkProcInfo "api" (mkProcess "run" "" "" ∅ "" restart max 0 None 0 ["db"] ∅ None 0 "" "") 0 [] false false.

Definition example_crash : incarnation :=
  mkIncarnation None 0 [ORunning 77; OExit 1] (ExecReturned (Some (mkExecError "exit status 1" false)))
    Second false false None WaitTimer.

Definition example_waits : list (list wait_round) :=
  let st := (markReady true (new_procState 1)).2 in
  [[mkWait (new_procState 1) WakeSettled st st]].

Lemma example_waits_possible :
  waits (new_procState 1) [mkWait (new_procState 1) WakeSettled (markReady true (new_procState 1)).2
    (markReady true (new_procState 1)).2] (markReady true (new_procState 1)).2.
Proof.
  eapply waits_cons; [|apply waits_nil]. split; cbn.
  - apply evolves_refl.
  - exact (evolves_op (OMarkReady true) (new_procState 1)).
  - apply evolves_refl.
  - intros _. exists 0. split; vm_compute; reflexivity.
Defined.

Lemma wait_terminates_witness :
  is_Some (waitForDependency
    (let st := (markReady true (new_procState 1)).2 in
     [mkWait (new_procState 1) WakeSettled st st; mkWait st WakeSettled st st])).
Proof.
  intros. eapply (wait_terminates (new_procState 1) _ (markReady true (new_procState 1)).2).
  - apply reachable_new.
  - eapply waits_cons; [|eapply waits_cons; [|apply waits_nil]]; split; cbn; try apply evolves_refl.
    + exact (evolves_op (OMarkReady true) (new_procState 1)).
    + intros _. exists 0. split; vm_compute; reflexivity.
    + intros _. exists 0. split; vm_compute; reflexivity.
  - vm_compute. lia.
Defined.

Lemma wait_verdict_sound_witness :
  ∃ i c, st_cycles (markReady true (new_procState 1)).2 !! i = Some c ∧ rc_outcome c = readySatisfied.
Proof.
  destruct (wait_verdict_sound _ _ _ (mkVerdict readySatisfied false) (reachable_new 1)
    example_waits_possible) as [[H _]|(_ & r & _ & H)]; [vm_compute; reflexivity|discriminate H|exact H].
Defined.

Lemma restart_only_when_allowed_witness :
  ∃ p' b' st', incarnation_turn example_crash (example_proc "on-failure" 5) Second (new_procState 0)
                 = Continue p' b' st' ∧ st_restarts st' = 1%Z.
Proof.
  destruct (incarnation_turn example_crash (example_proc "on-failure" 5) Second (new_procState 0))
    as [r s|p' b' st'] eqn:H.
  - exfalso. vm_compute in H. discriminate H.
  - exists p', b', st'. split; [reflexivity|].
    rewrite (proj1 (restart_only_when_allowed _ _ _ _ _ _ _ H)). vm_compute. reflexivity.
Defined.

Lemma runProcess_published_witness :
  ∃ r st', runProcess (λ _, true) (mkRun example_waits [example_crash; example_crash])
             (example_proc "on-failure" 1) (new_procState 0) = Some (r, st') ∧
    published r st' ∧ pr_failed r = true.
Proof.
  destruct (runProcess (λ _, true) (mkRun example_waits [example_crash; example_crash])
             (example_proc "on-failure" 1) (new_procState 0)) as [[r st']|] eqn:H.
  - exists r, st'. split; [reflexivity|].
    split; [exact (runProcess_published _ _ _ _ _ _ (reachable_new 0) H)|].
    vm_compute in H. injection H as <- <-. reflexivity.
  - exfalso. vm_compute in H. discriminate H.
Defined.

Lemma max_restarts_bound_witness :
  is_Some (run_loop [example_crash; example_crash; example_crash]
             (example_proc "on-failure" 2) Second (new_procState 0)).
Proof.
  apply (max_restarts_bound 2); [lia|reflexivity|cbn; lia| |cbn; lia|discriminate].
  intros i Hi. assert (i = example_crash) as ->.
  { rewrite !elem_of_cons, elem_of_nil in Hi. tauto. }
  split; [discriminate|]. split; vm_compute; reflexivity.
Defined.

