(* ===== verification/Groups.v ===== *)
(** * Process groups: registry, on-disk record and shutdown verdict

    Every launched command has a process group, the handle the runner uses to
    prove that it stopped what it started.  The registry maps a process name to
    its live group; the record mirrors, in the PID file, every launched group
    not proven empty; the verdict accumulates everything that could not be
    proven stopped.  What the platform reports (the state of a group, the
    result of a seal, of a write or of a start) is an argument of the
    operations.  A group is a number, given out in launch order, that stands
    for the identity of its handle and of its record entry. *)

From S2P Require Import Prelude GoStrings ConfigTypes.

(** ** Group states and reports *)

(** Source: internal/runner/processgroup.go:17-43 (GroupState). *)
Inductive GroupState : Type := GroupEmpty | GroupOwned | GroupUnavailable.

#[export] Instance GroupState_eq_dec : EqDecision GroupState.
Proof. solve_decision. Defined.

(** Source: internal/runner/processgroup.go:45-56 (GroupState.String). *)
Definition GroupState_String (s : GroupState) : string :=
  match s with
  | GroupEmpty => "empty"
  | GroupOwned => "owned"
  | GroupUnavailable => "unavailable"
  end.

(** Source: internal/runner/processgroup.go:114-125 (SealObservation). *)
Record SealObservation : Type := mkSeal {
  so_State : GroupState;
  so_Identity : string;
  so_Members : list string;
  so_Reason : string;
}.

(** Source: internal/runner/processgroup.go:127-150 (GroupResult). *)
Record GroupResult : Type := mkGroupResult {
  gr_Name : string;
  gr_PGID : Z;
  gr_Identity : string;
  gr_State : GroupState;
  gr_Members : list string;
  gr_Reason : string;
}.

(** Source: internal/runner/processgroup.go:243-254 (describeGroup). *)
Definition describeGroup (r : GroupResult) : string :=
  if negb (bool_decide (gr_Identity r = "")) && negb (bool_decide (gr_Identity r = "unknown"))
  then gr_Identity r
  else if (1 <? gr_PGID r)%Z then itoa (gr_PGID r)
  else "(identifier unavailable)".

(** A line break and the indentation of a report. *)
Definition newline (indent : string) : string := String (chr 10) indent.

(** Source: internal/runner/processgroup.go:171-196 (survivorsError, loop body). *)
Definition survivor_text (r : GroupResult) : string :=
  if bool_decide (gr_Members r = []) && bool_decide (gr_State r = GroupEmpty) then ""
  else newline "  " +:+ gr_Name r +:+ ":" +:+
    match gr_State r with
    | GroupUnavailable =>
        newline "    " +:+ "process group containment was unavailable, so termination could not be attempted"
        +:+ (if bool_decide (gr_Reason r = "") then "" else ": " +:+ gr_Reason r)
    | GroupOwned =>
        newline "    " +:+ "process group " +:+ describeGroup r
        +:+ (if bool_decide (gr_Members r = [])
             then " still has a live member that could not be enumerated"
             else ": " +:+ join ", " (gr_Members r) +:+ " still running")
        +:+ newline "    " +:+ "could not terminate"
    | s => newline "    " +:+ "process group " +:+ describeGroup r +:+ " reported " +:+ GroupState_String s
    end.

(** Source: internal/runner/processgroup.go:165-201 (survivorsError). *)
Definition survivorsError (results : list GroupResult) : option string :=
  let b := fold_left (λ b r, b +:+ survivor_text r) results "" in
  if bool_decide (b = "") then None
  else Some ("managed process tree could not be verified as terminated:" +:+ b).

(** [fmt] of an error value. *)
Definition error_text (e : option string) : string := default "<nil>" e.

(** What a group reports about itself outside a seal. *)
Record observation : Type := mkObservation {
  ob_State : GroupState;
  ob_PGID : Z;
  ob_Identity : string;
  ob_Members : list string;
  ob_Reason : string;
}.

(** Source: internal/runner/lifecycle.go:965-979 (groupResult). *)
Definition groupResult (name : string) (o : observation) : list GroupResult :=
  [mkGroupResult name (ob_PGID o) (ob_Identity o) (ob_State o) (ob_Members o) (ob_Reason o)].

(** Source: internal/runner/lifecycle.go:981-989 (sealedGroupResult). *)
Definition sealedGroupResult (name : string) (o : SealObservation) : list GroupResult :=
  [mkGroupResult name 0 (so_Identity o) (so_State o) (so_Members o) (so_Reason o)].

(** ** State *)

(** [re_pg] identifies the entry and its group in memory; the file holds the
    other three.
    Source: internal/runner/lifecycle.go:1078-1083 (recEntry). *)
Record recEntry : Type := mkRecEntry {
  re_pg : nat;
  re_Name : string;
  re_PGID : Z;
  re_LeaderStart : Z;
}.

(** The fields of [Runner] the registry, the record, the verdict and the
    admission use; [g_disk] is what the PID file records.
    Source: internal/runner/runner.go:96-149 (Runner). *)
Record gstate : Type := mkG {
  g_groups : gmap string nat;
  g_records : list recEntry;
  g_recordOn : bool;
  g_disk : list recEntry;
  g_unresolved : list (string * string);
  g_problems : list string;
  g_stopping : bool;
  g_sealing : bool;
  g_teardownOpen : bool;
  g_next : nat;
}.

(** Field updates. *)
Definition set_groups (x : gmap string nat) (s : gstate) : gstate :=
  mkG x (g_records s) (g_recordOn s) (g_disk s) (g_unresolved s) (g_problems s) (g_stopping s)
    (g_sealing s) (g_teardownOpen s) (g_next s).
Definition set_records (x : list recEntry) (s : gstate) : gstate :=
  mkG (g_groups s) x (g_recordOn s) (g_disk s) (g_unresolved s) (g_problems s) (g_stopping s)
    (g_sealing s) (g_teardownOpen s) (g_next s).
Definition set_recordOn (x : bool) (s : gstate) : gstate :=
  mkG (g_groups s) (g_records s) x (g_disk s) (g_unresolved s) (g_problems s) (g_stopping s)
    (g_sealing s) (g_teardownOpen s) (g_next s).
Definition set_disk (x : list recEntry) (s : gstate) : gstate :=
  mkG (g_groups s) (g_records s) (g_recordOn s) x (g_unresolved s) (g_problems s) (g_stopping s)
    (g_sealing s) (g_teardownOpen s) (g_next s).
Definition set_unresolved (x : list (string * string)) (s : gstate) : gstate :=
  mkG (g_groups s) (g_records s) (g_recordOn s) (g_disk s) x (g_problems s) (g_stopping s)
    (g_sealing s) (g_teardownOpen s) (g_next s).
Definition set_problems (x : list string) (s : gstate) : gstate :=
  mkG (g_groups s) (g_records s) (g_recordOn s) (g_disk s) (g_unresolved s) x (g_stopping s)
    (g_sealing s) (g_teardownOpen s) (g_next s).
Definition set_stopping (x : bool) (s : gstate) : gstate :=
  mkG (g_groups s) (g_records s) (g_recordOn s) (g_disk s) (g_unresolved s) (g_problems s) x
    (g_sealing s) (g_teardownOpen s) (g_next s).
Definition set_sealing (x : bool) (s : gstate) : gstate :=
  mkG (g_groups s) (g_records s) (g_recordOn s) (g_disk s) (g_unresolved s) (g_problems s)
    (g_stopping s) x (g_teardownOpen s) (g_next s).
Definition set_teardownOpen (x : bool) (s : gstate) : gstate :=
  mkG (g_groups s) (g_records s) (g_recordOn s) (g_disk s) (g_unresolved s) (g_problems s)
    (g_stopping s) (g_sealing s) x (g_next s).
Definition set_next (x : nat) (s : gstate) : gstate :=
  mkG (g_groups s) (g_records s) (g_recordOn s) (g_disk s) (g_unresolved s) (g_problems s)
    (g_stopping s) (g_sealing s) (g_teardownOpen s) x.

(** ** The verdict *)

(** Source: internal/runner/lifecycle.go:1232-1244 (recordUnresolved). *)
Definition recordUnresolved (name identity : string) (s : gstate) : gstate :=
  let identity := if bool_decide (identity = "") || bool_decide (identity = "unknown")
                  then "unavailable" else identity in
  if bool_decide ((name, identity) ∈ g_unresolved s) then s
  else set_unresolved (g_unresolved s ++ [(name, identity)]) s.

(** Source: internal/runner/lifecycle.go:1254-1263 (recordShutdownProblem). *)
Definition recordShutdownProblem (msg : string) (s : gstate) : gstate :=
  set_problems (g_problems s ++ [msg]) s.

(** Source: internal/runner/lifecycle.go:1208-1213 (recordSurvivor). *)
Definition recordSurvivor (name identity : string) (err : string) (s : gstate) : gstate :=
  recordShutdownProblem ("could not terminate " +:+ name +:+ ": " +:+ err)
    (recordUnresolved name identity s).

(** Source: internal/runner/lifecycle.go:1215-1222 (recordUnverified). *)
Definition recordUnverified (name identity msg : string) (s : gstate) : gstate :=
  recordShutdownProblem msg (recordUnresolved name identity s).

(** Source: internal/runner/lifecycle.go:1468-1477 (ShutdownResult). *)
Definition ShutdownResult (s : gstate) : option string :=
  if bool_decide (g_problems s = []) then None
  else Some (join (String (chr 10) "") (g_problems s)).

(** ** The record *)

(** How a write of the PID file ends; [WriteLost] is a file that has
    disappeared or names another daemon. *)
Inductive write_result : Type := WriteOK | WriteLost (err : string) | WriteFailed (err : string).

(** Source: internal/runner/lifecycle.go:1198-1206 (writeRecordLocked). *)
Definition writeRecordLocked (w : write_result) (s : gstate) : gstate :=
  match w with WriteOK => set_disk (g_records s) s | _ => s end.

(** [wanted] is a record path on a platform that records.
    Source: internal/runner/lifecycle.go:1085-1100 (beginRecord). *)
Definition beginRecord (wanted : bool) (w : write_result) (s : gstate) : gstate :=
  let s := set_recordOn wanted (set_records [] s) in
  if negb wanted then s
  else match w with
       | WriteOK => writeRecordLocked w s
       | _ => set_recordOn false s
       end.

(** The entry, or the error that refuses the launch; with recording off there
    is no entry.
    Source: internal/runner/lifecycle.go:1119-1138 (recordPendingLocked). *)
Definition recordPending (name : string) (pg : nat) (w : write_result) (s : gstate)
    : res string (option nat) * gstate :=
  if negb (g_recordOn s) then (Ok None, s)
  else
    let added := set_records (g_records s ++ [mkRecEntry pg name 0 0]) s in
    match w with
    | WriteOK => (Ok (Some pg), writeRecordLocked w added)
    | WriteLost _ => (Ok None, set_records [] (set_recordOn false s))
    | WriteFailed err => (Err err, s)
    end.

(** Source: internal/runner/lifecycle.go:1140-1159 (recordTracked). *)
Definition recordTracked (entry : option nat) (pid start : Z) (w : write_result) (s : gstate) : gstate :=
  match entry with
  | None => s
  | Some pg =>
      if negb (g_recordOn s) then s
      else writeRecordLocked w
             (set_records ((λ e, if bool_decide (re_pg e = pg)
                                 then mkRecEntry pg (re_Name e) pid start else e) <$> g_records s) s)
  end.

(** Source: internal/runner/lifecycle.go:1179-1196 (removeRecordsLocked). *)
Definition removeRecordsLocked (keep : recEntry → bool) (w : write_result) (s : gstate) : gstate :=
  if negb (g_recordOn s) then s
  else let kept := List.filter keep (g_records s) in
       if length kept =? length (g_records s) then s
       else writeRecordLocked w (set_records kept s).

(** Source: internal/runner/lifecycle.go:1172-1177 (recordDropGroup). *)
Definition recordDropGroup (pg : nat) (w : write_result) (s : gstate) : gstate :=
  removeRecordsLocked (λ e, negb (bool_decide (re_pg e = pg))) w s.

(** Source: internal/runner/lifecycle.go:1161-1170 (recordDrop). *)
Definition recordDrop (entry : option nat) (w : write_result) (s : gstate) : gstate :=
  match entry with
  | None => s
  | Some pg => recordDropGroup pg w s
  end.

(** ** The registry *)

(** [prev] is what the group it replaces reports.
    Source: internal/runner/lifecycle.go:998-1033 (trackGroup). *)
Definition trackGroup (name : string) (pg : nat) (prev : observation) (w : write_result) (s : gstate)
    : gstate :=
  let old := g_groups s !! name in
  let s := set_groups (<[name := pg]> (g_groups s)) s in
  match old with
  | None => s
  | Some p =>
      if p =? pg then s
      else if negb (bool_decide (ob_State prev = GroupEmpty))
      then recordSurvivor name (ob_Identity prev)
             ("previous incarnation: " +:+ error_text (survivorsError (groupResult name prev))) s
      else recordDropGroup p w s
  end.

(** Source: internal/runner/lifecycle.go:1035-1044 (untrackGroup). *)
Definition untrackGroup (name : string) (pg : nat) (s : gstate) : gstate :=
  if bool_decide (g_groups s !! name = Some pg) then set_groups (delete name (g_groups s)) s else s.

(** ** Launching *)

(** Source: internal/runner/runner.go:538-546 (closeAdmission). *)
Definition closeAdmission (s : gstate) : gstate := set_stopping true s.

(** How a launch the admission let through goes. *)
Inductive start_result : Type :=
  | StartFailed (err : string)
  | TrackFailed (seal : SealObservation) (sealErr : option string) (err : string)
  | Started (identity : string) (pid start : Z) (prev : observation).

(** What [exec] goes on with. *)
Inductive launch_result : Type :=
  | LaunchRefused
  | LaunchError (err : string)
  | LaunchRunning (pg : nat).

(** The launch, from the admission check to the release of the lifecycle lock.
    [w1], [w2] and [w3] are the writes of the record, in order.
    Source: internal/runner/lifecycle.go:550-620 (exec, launch). *)
Definition launch (name : string) (teardown cancelled : bool) (w1 w2 w3 : write_result)
    (start : start_result) (s : gstate) : launch_result * gstate :=
  if (g_stopping s && negb (teardown && g_teardownOpen s)) || cancelled then (LaunchRefused, s)
  else
    let pg := g_next s in
    let s := set_next (S pg) s in
    match recordPending name pg w1 s with
    | (Err err, s) => (LaunchError ("record process group: " +:+ err), s)
    | (Ok entry, s) =>
        match start with
        | StartFailed err => (LaunchError ("start: " +:+ err), recordDrop entry w2 s)
        | TrackFailed seal sealErr err =>
            let clean := bool_decide (so_State seal = GroupEmpty) && bool_decide (sealErr = None) in
            let s := if clean then recordDrop entry w2 s else s in
            (LaunchError ("track: " +:+ err),
             if clean then s
             else recordUnverified name (so_Identity seal)
                    (name +:+ ": failed to establish process-group tracking; seal state="
                     +:+ GroupState_String (so_State seal) +:+ " identity=" +:+ so_Identity seal
                     +:+ " error=" +:+ error_text sealErr) s)
        | Started identity pid started prev =>
            (LaunchRunning pg, recordTracked entry pid started w3 (trackGroup name pg prev w2 s))
        end
    end.

(** ** The end of an incarnation *)

(** No signal could be sent, because the leader's identity was lost.
    Source: internal/runner/lifecycle.go:798-803 (exec, unsignalled group). *)
Definition record_unsignalled (name identity exit_observation : string) (s : gstate) : gstate :=
  recordUnverified name identity
    (name +:+ ": the command leader's identity could not be established (" +:+ exit_observation
     +:+ "), so no process group signal was sent; its descendants could not be terminated by proc-compose") s.

(** The verification after the reap: [true] is the cleanup handoff.
    Source: internal/runner/lifecycle.go:898-930 (exec, verification). *)
Definition finish_group (name : string) (pg : nat) (teardown has_handoff escaped : bool)
    (o : observation) (w : write_result) (s : gstate) : bool * gstate :=
  if has_handoff && g_sealing s && negb teardown then (true, s)
  else if negb (bool_decide (ob_State o = GroupEmpty))
  then (false, recordSurvivor name (ob_Identity o) (error_text (survivorsError (groupResult name o))) s)
  else
    let s := if escaped
             then recordUnverified name (ob_Identity o)
                    (name +:+ ": a descendant still held the command's output after the process group was "
                     +:+ "force-killed, so it had left the group and its termination could not be "
                     +:+ "verified; check for detached children of " +:+ name) s
             else s in
    (false, recordDropGroup pg w (untrackGroup name pg s)).

(** [true] in the first component is the handoff, in the second
    [errTreeUnconfirmed].
    Source: internal/runner/lifecycle.go:933-963 (settleUnobserved). *)
Definition settleUnobserved (name : string) (pg : nat) (teardown has_handoff signalled : bool)
    (err : string) (o : observation) (w : write_result) (s : gstate) : bool * bool * gstate :=
  if has_handoff && g_sealing s && negb teardown then (true, false, s)
  else if negb (bool_decide (ob_State o = GroupEmpty))
  then
    let what := if signalled then "its process group was killed"
                else "the leader's identity could not be established, so no process group signal was sent" in
    (false, true, recordUnverified name (ob_Identity o)
      (name +:+ ": " +:+ err +:+ "; " +:+ what +:+ ", and the group could not be proven empty afterwards ("
       +:+ GroupState_String (ob_State o) +:+ "), so " +:+ name +:+ " is not restarted") s)
  else (false, false, recordDropGroup pg w (untrackGroup name pg s)).

(** ** Sealing *)

(** What the sweep learns of one group: the seal's observation and error, and
    the write of the record. *)
Record seal_report : Type := mkSealReport {
  sr_seal : SealObservation;
  sr_err : option string;
  sr_write : write_result;
}.

(** Source: internal/runner/lifecycle.go:1338-1357 (sealGroups, loop body). *)
Definition seal_group (report : nat → seal_report) (s : gstate) (np : string * nat) : gstate :=
  let '(name, pg) := np in
  let o := sr_seal (report pg) in
  let s := if bool_decide (so_State o = GroupEmpty) && bool_decide (sr_err (report pg) = None)
           then recordDropGroup pg (sr_write (report pg)) s else s in
  let s := if negb (bool_decide (so_State o = GroupEmpty))
           then recordSurvivor name (so_Identity o)
                  (error_text (survivorsError (sealedGroupResult name o))) s
           else s in
  match sr_err (report pg) with
  | Some err => recordUnverified name (so_Identity o)
                  (name +:+ ": process-group seal failed: " +:+ err) s
  | None => s
  end.

(** Source: internal/runner/lifecycle.go:1321-1358 (sealGroups). *)
Definition sealGroups (report : nat → seal_report) (s : gstate) : gstate :=
  let groups := g_groups s in
  let s := set_groups ∅ (set_sealing true (set_stopping true s)) in
  fold_left (seal_group report)
    (omap (λ name, pair name <$> groups !! name) (sort_strings (keys groups))) s.

(** Source: internal/runner/lifecycle.go:1265-1277 (sweepGroups). *)
Definition sweepGroups (cancelled : bool) (report : nat → seal_report) (s : gstate) : gstate :=
  if negb cancelled then s else sealGroups report s.

(** The reaps that were not taken, as process and identity.
    Source: internal/runner/lifecycle.go:1401-1412 (reportPendingReaps). *)
Definition reportPendingReaps (pending : list (string * string)) (s : gstate) : gstate :=
  fold_left (λ s pi, recordUnverified pi.1 pi.2
      (pi.1 +:+ ": process leader " +:+ pi.2 +:+ " was not reaped before cleanup handoff") s) pending s.

(** The start of a run.
    Source: internal/runner/runner.go:503-536 (beginRun). *)
Definition beginRun (wanted : bool) (w : write_result) (s : gstate) : gstate :=
  let s := set_problems [] (set_unresolved [] (set_sealing false (set_stopping false s))) in
  beginRecord wanted w s.

(** ** Histories *)

(** A state with two observations about its past: the groups whose command was
    started, and those that have been observed empty. *)
Record history : Type := mkHistory {
  h_s : gstate;
  h_started : gset nat;
  h_empty : gset nat;
}.

(** One operation on the state, with what the platform reports. *)
Inductive gevent : Type :=
  | ELaunch (name : string) (teardown cancelled : bool) (w1 w2 w3 : write_result) (start : start_result)
  | EUnsignalled (name identity exit_observation : string)
  | EFinish (name : string) (pg : nat) (teardown has_handoff escaped : bool) (o : observation) (w : write_result)
  | ESettle (name : string) (pg : nat) (teardown has_handoff signalled : bool) (err : string)
      (o : observation) (w : write_result)
  | EClose
  | ETeardown (opened : bool)
  | ESweep (cancelled : bool) (report : nat → seal_report)
  | ESeal (report : nat → seal_report)
  | EReaps (pending : list (string * string)).

(** The command of a launch was started. *)
Definition launch_started (name : string) (teardown cancelled : bool) (w1 : write_result)
    (start : start_result) (s : gstate) : bool :=
  negb ((g_stopping s && negb (teardown && g_teardownOpen s)) || cancelled)
  && is_ok (recordPending name (g_next s) w1 s).1
  && (if start is StartFailed _ then false else true).

(** The groups a launch has seen empty: its own when tracking failed, the one
    it replaces otherwise. *)
Definition launch_empty (name : string) (start : start_result) (s : gstate) : gset nat :=
  match start with
  | StartFailed _ => ∅
  | TrackFailed seal _ _ => if bool_decide (so_State seal = GroupEmpty) then {[g_next s]} else ∅
  | Started _ _ _ prev =>
      match g_groups s !! name with
      | Some p => if bool_decide (ob_State prev = GroupEmpty) then {[p]} else ∅
      | None => ∅
      end
  end.

Definition sealed_empty (report : nat → seal_report) (s : gstate) : gset nat :=
  list_to_set (List.filter (λ pg, bool_decide (so_State (sr_seal (report pg)) = GroupEmpty))
    ((map_to_list (g_groups s)).*2)).

Definition apply_event (e : gevent) (h : history) : history :=
  let s := h_s h in
  match e with
  | ELaunch name teardown cancelled w1 w2 w3 start =>
      let s' := (launch name teardown cancelled w1 w2 w3 start s).2 in
      if launch_started name teardown cancelled w1 start s
      then mkHistory s' ({[g_next s]} ∪ h_started h) (launch_empty name start s ∪ h_empty h)
      else mkHistory s' (h_started h) (h_empty h)
  | EUnsignalled name identity obs =>
      mkHistory (record_unsignalled name identity obs s) (h_started h) (h_empty h)
  | EFinish name pg teardown has_handoff escaped o w =>
      let r := finish_group name pg teardown has_handoff escaped o w s in
      mkHistory r.2 (h_started h)
        (if negb r.1 && bool_decide (ob_State o = GroupEmpty) then {[pg]} ∪ h_empty h else h_empty h)
  | ESettle name pg teardown has_handoff signalled err o w =>
      let r := settleUnobserved name pg teardown has_handoff signalled err o w s in
      mkHistory r.2 (h_started h)
        (if negb r.1.1 && bool_decide (ob_State o = GroupEmpty) then {[pg]} ∪ h_empty h else h_empty h)
  | EClose => mkHistory (closeAdmission s) (h_started h) (h_empty h)
  | ETeardown opened => mkHistory (set_teardownOpen opened s) (h_started h) (h_empty h)
  | ESweep cancelled report =>
      mkHistory (sweepGroups cancelled report s) (h_started h)
        (if cancelled then sealed_empty report s ∪ h_empty h else h_empty h)
  | ESeal report =>
      mkHistory (sealGroups report s) (h_started h) (sealed_empty report s ∪ h_empty h)
  | EReaps pending => mkHistory (reportPendingReaps pending s) (h_started h) (h_empty h)
  end.

(** The histories of a run. *)
Inductive run_history : history → Prop :=
  | run_begin wanted w : run_history (mkHistory (beginRun wanted w (mkG ∅ [] false [] [] [] false false false 0)) ∅ ∅)
  | run_event e h : run_history h → run_history (apply_event e h).

(** ** Effects of the operations *)

Lemma recordUnverified_fields name identity msg s :
  let s' := recordUnverified name identity msg s in
  g_groups s' = g_groups s ∧ g_records s' = g_records s ∧ g_recordOn s' = g_recordOn s ∧
  g_disk s' = g_disk s ∧ g_next s' = g_next s ∧ g_problems s' ≠ [].
Proof.
  cbn zeta. unfold recordUnverified, recordShutdownProblem, recordUnresolved.
  case_match; cbn; (split_and!; [done..|]); intros [_ Hn]%app_nil; discriminate Hn.
Qed.

Lemma recordSurvivor_fields name identity err s :
  let s' := recordSurvivor name identity err s in
  g_groups s' = g_groups s ∧ g_records s' = g_records s ∧ g_recordOn s' = g_recordOn s ∧
  g_disk s' = g_disk s ∧ g_next s' = g_next s ∧ g_problems s' ≠ [].
Proof. apply recordUnverified_fields. Qed.

Lemma removeRecords_fields keep w s :
  let s' := removeRecordsLocked keep w s in
  g_groups s' = g_groups s ∧ g_problems s' = g_problems s ∧ g_next s' = g_next s ∧
  g_recordOn s' = g_recordOn s.
Proof. unfold removeRecordsLocked, writeRecordLocked. cbn. repeat case_match; done. Qed.

Lemma recordPending_fields name pg w s :
  let s' := (recordPending name pg w s).2 in
  g_groups s' = g_groups s ∧ g_problems s' = g_problems s ∧ g_next s' = g_next s.
Proof. unfold recordPending. cbn. repeat case_match; done. Qed.

Lemma recordTracked_fields entry pid start w s :
  let s' := recordTracked entry pid start w s in
  g_groups s' = g_groups s ∧ g_problems s' = g_problems s ∧ g_next s' = g_next s ∧
  g_recordOn s' = g_recordOn s.
Proof. unfold recordTracked, writeRecordLocked. cbn. repeat case_match; done. Qed.

(** ** The verdict accounts for every started group *)

(** A started group is proven empty, still registered, or a problem has been
    recorded. *)
Definition accounted (s : gstate) (started empty : gset nat) : Prop :=
  ∀ pg, pg ∈ started → pg ∈ empty ∨ (∃ n, g_groups s !! n = Some pg) ∨ g_problems s ≠ [].

Lemma accounted_mono s s' started empty empty' :
  g_groups s' = g_groups s → (g_problems s ≠ [] → g_problems s' ≠ []) → empty ⊆ empty' →
  accounted s started empty → accounted s' started empty'.
Proof.
  intros Hg Hp He H pg Hpg. rewrite Hg. destruct (H pg Hpg) as [?|[?|?]]; [left; set_solver|tauto..].
Qed.

Lemma accounted_problem s started empty : g_problems s ≠ [] → accounted s started empty.
Proof. intros H pg _. tauto. Qed.

Lemma accounted_untrack name pg s started empty :
  accounted s started empty → accounted (untrackGroup name pg s) started ({[pg]} ∪ empty).
Proof.
  intros H q Hq. destruct (H q Hq) as [?|[[n Hn]|?]].
  - left. set_solver.
  - destruct (decide (q = pg)) as [->|Hne]; [left; set_solver|]. right. left. exists n.
    unfold untrackGroup. case_bool_decide as Ht; [|done]. cbn.
    rewrite lookup_delete_ne; [done|]. intros ->. congruence.
  - right. right. unfold untrackGroup. by case_match.
Qed.

Lemma drop_fields pg w s :
  let s' := recordDropGroup pg w s in
  g_groups s' = g_groups s ∧ g_problems s' = g_problems s ∧ g_next s' = g_next s ∧
  g_recordOn s' = g_recordOn s.
Proof. apply removeRecords_fields. Qed.

Lemma recordDrop_fields entry w s :
  let s' := recordDrop entry w s in
  g_groups s' = g_groups s ∧ g_problems s' = g_problems s ∧ g_next s' = g_next s ∧
  g_recordOn s' = g_recordOn s.
Proof. destruct entry; [apply removeRecords_fields|done]. Qed.

(** ** The record covers every group that may run *)

(** While recording is on, every group of [live] has an entry, and the PID file
    holds at least the entries in memory. *)
Definition covers (s : gstate) (live : gset nat) : Prop :=
  g_recordOn s = true →
  (∀ pg, pg ∈ live → ∃ e, e ∈ g_records s ∧ re_pg e = pg) ∧
  (∀ e, e ∈ g_records s → ∃ e', e' ∈ g_disk s ∧ re_pg e' = re_pg e ∧ re_Name e' = re_Name e).

Lemma covers_sub s live live' : live' ⊆ live → covers s live → covers s live'.
Proof. intros Hs H Hon. destruct (H Hon) as [H1 H2]. split; [|done]. intros pg Hpg. apply H1. set_solver. Qed.

Lemma covers_eq s s' live :
  g_recordOn s' = g_recordOn s → g_records s' = g_records s → g_disk s' = g_disk s →
  covers s live → covers s' live.
Proof. unfold covers. intros -> -> ->. done. Qed.

Lemma covers_drop pg w s live :
  covers s live → covers (recordDropGroup pg w s) (live ∖ {[pg]}).
Proof.
  intros H. unfold recordDropGroup, removeRecordsLocked.
  destruct (g_recordOn s) eqn:Hon; cbn [negb]; [|intros Hon'; congruence].
  destruct (H Hon) as [H1 H2].
  assert (∀ e, e ∈ List.filter (λ e, negb (bool_decide (re_pg e = pg))) (g_records s) ↔
    e ∈ g_records s ∧ re_pg e ≠ pg) as Hin.
  { intros e. rewrite !list_elem_of_In, filter_In, negb_true_iff, bool_decide_eq_false. done. }
  case_match eqn:Hlen.
  { apply (covers_sub _ live); [set_solver|done]. }
  clear Hlen. intros Hon'.
  assert (∀ s', g_records s' = List.filter (λ e, negb (bool_decide (re_pg e = pg))) (g_records s) →
    (g_disk s' = g_disk s ∨ g_disk s' = g_records s') →
    (∀ q, q ∈ live ∖ {[pg]} → ∃ e, e ∈ g_records s' ∧ re_pg e = q) ∧
    (∀ e, e ∈ g_records s' → ∃ e', e' ∈ g_disk s' ∧ re_pg e' = re_pg e ∧ re_Name e' = re_Name e)) as Hs.
  { intros s' Hr Hd. rewrite Hr. split.
    - intros q [Hq Hne]%elem_of_difference. destruct (H1 q Hq) as (e & He & <-). exists e.
      split; [|done]. apply Hin. split; [done|].
      intros Heq. apply Hne, elem_of_singleton. done.
    - intros e He. destruct Hd as [-> | ->]; [apply H2; by apply Hin|]. rewrite Hr. by exists e. }
  apply Hs; unfold writeRecordLocked; case_match; cbn; tauto.
Qed.

Lemma covers_pending name pg w s live entry s' :
  covers s live → recordPending name pg w s = (Ok entry, s') → covers s' ({[pg]} ∪ live) ∧
  (g_recordOn s' = true → entry = Some pg).
Proof.
  intros H. unfold recordPending. destruct (g_recordOn s) eqn:Hon; cbn [negb].
  2:{ intros [= <- <-]. split; intros Hon'; congruence. }
  destruct (H Hon) as [H1 H2]. destruct w; [|intros [= <- <-]; split; intros Hon'; done|done].
  intros [= <- <-]. split; [|done]. intros _. cbn. split.
  - intros q [->%elem_of_singleton|Hq]%elem_of_union.
    + exists (mkRecEntry pg name 0 0). split; [|done]. apply elem_of_app. right. apply list_elem_of_here.
    + destruct (H1 q Hq) as (e & He & <-). exists e. split; [|done]. apply elem_of_app. by left.
  - intros e He. by exists e.
Qed.

Lemma covers_tracked entry pid start w s live :
  covers s live → covers (recordTracked entry pid start w s) live.
Proof.
  intros H. unfold recordTracked. destruct entry as [pg|]; [|done].
  destruct (g_recordOn s) eqn:Hon; cbn [negb]; [|intros Hon'; congruence].
  destruct (H Hon) as [H1 H2]. intros _.
  set (f := λ e, if bool_decide (re_pg e = pg) then mkRecEntry pg (re_Name e) pid start else e).
  assert (∀ e, re_pg (f e) = re_pg e ∧ re_Name (f e) = re_Name e) as Hf.
  { intros e. unfold f. case_bool_decide; [by subst|done]. }
  assert (∀ s', g_records s' = f <$> g_records s →
    (g_disk s' = g_disk s ∨ g_disk s' = g_records s') →
    (∀ q, q ∈ live → ∃ e, e ∈ g_records s' ∧ re_pg e = q) ∧
    (∀ e, e ∈ g_records s' → ∃ e', e' ∈ g_disk s' ∧ re_pg e' = re_pg e ∧ re_Name e' = re_Name e)) as Hs.
  { intros s' Hr Hd. rewrite Hr. split.
    - intros q Hq. destruct (H1 q Hq) as (e & He & <-). exists (f e). split; [|apply Hf].
      by apply list_elem_of_fmap_2.
    - intros e He. destruct Hd as [-> | ->]; [|rewrite Hr; by exists e].
      apply list_elem_of_fmap in He as (e0 & -> & He0). destruct (H2 e0 He0) as (e' & ? & ? & ?).
      destruct (Hf e0) as [-> ->]. by exists e'. }
  apply Hs; unfold writeRecordLocked; case_match; cbn; tauto.
Qed.

Lemma covers_unverified name identity msg s live :
  covers s live → covers (recordUnverified name identity msg s) live.
Proof.
  destruct (recordUnverified_fields name identity msg s) as (_ & Hr & Ho & Hd & _). by apply covers_eq.
Qed.

Lemma covers_survivor name identity err s live :
  covers s live → covers (recordSurvivor name identity err s) live.
Proof. apply covers_unverified. Qed.

(** ** Sealing *)

(** What sealing one group leaves. *)
Lemma seal_group_spec report s np live :
  let '(name, pg) := np in
  let s' := seal_group report s np in
  g_groups s' = g_groups s ∧ g_next s' = g_next s ∧
  (g_problems s ≠ [] → g_problems s' ≠ []) ∧
  (so_State (sr_seal (report pg)) = GroupEmpty ∨ g_problems s' ≠ []) ∧
  (covers s live → covers s' (if bool_decide (so_State (sr_seal (report pg)) = GroupEmpty)
                              then live ∖ {[pg]} else live)).
Proof.
  destruct np as [name pg]. unfold seal_group. set (o := sr_seal (report pg)).
  set (s1 := if bool_decide (so_State o = GroupEmpty) && _ then _ else s).
  set (s2 := if negb _ then _ else s1).
  assert (g_groups s1 = g_groups s ∧ g_next s1 = g_next s ∧ g_problems s1 = g_problems s ∧
    (covers s live → covers s1 (if bool_decide (so_State o = GroupEmpty) then live ∖ {[pg]} else live)))
    as (Hg1 & Hn1 & Hp1 & Hc1).
  { unfold s1. destruct (bool_decide (so_State o = GroupEmpty)); cbn [andb]; [|done].
    case_bool_decide.
    - destruct (drop_fields pg (sr_write (report pg)) s) as (? & ? & ? & _).
      split_and!; [done..|apply covers_drop].
    - split_and!; [done..|apply covers_sub; set_solver]. }
  assert (g_groups s2 = g_groups s1 ∧ g_next s2 = g_next s1 ∧
    (g_problems s1 ≠ [] → g_problems s2 ≠ []) ∧ (so_State o = GroupEmpty ∨ g_problems s2 ≠ []) ∧
    (∀ l, covers s1 l → covers s2 l)) as (Hg2 & Hn2 & Hp2 & He2 & Hc2).
  { unfold s2. case_bool_decide; cbn [negb]; [split_and!; try done; by left|].
    edestruct recordSurvivor_fields as (? & _ & _ & _ & ? & ?).
    split_and!; [done|done|done|by right|]. intros l. apply covers_survivor. }
  clearbody s1 s2. destruct (sr_err (report pg)) as [err|].
  - edestruct (recordUnverified_fields name (so_Identity o) (name +:+ ": process-group seal failed: " +:+ err) s2)
      as (Hg3 & _ & _ & _ & Hn3 & Hp3).
    split_and!; [congruence|congruence|done|by right|].
    intros Hc. apply covers_unverified. auto.
  - split_and!; [congruence|congruence|rewrite <-Hp1; auto|done|auto].
Qed.

(** ** The invariant *)

Record inv (h : history) : Prop := {
  inv_fresh : ∀ pg, pg ∈ h_started h → pg < g_next (h_s h);
  inv_accounted : accounted (h_s h) (h_started h) (h_empty h);
  inv_covers : covers (h_s h) (h_started h ∖ h_empty h);
}.

(** An operation that starts nothing and sees nothing. *)
Lemma inv_keep h s' :
  g_groups s' = g_groups (h_s h) → g_next s' = g_next (h_s h) →
  (g_problems (h_s h) ≠ [] → g_problems s' ≠ []) →
  (covers (h_s h) (h_started h ∖ h_empty h) → covers s' (h_started h ∖ h_empty h)) →
  inv h → inv (mkHistory s' (h_started h) (h_empty h)).
Proof.
  intros Hg Hn Hp Hc [H1 H2 H3]. split; cbn.
  - by rewrite Hn.
  - by eapply accounted_mono; [..|exact H2].
  - auto.
Qed.

Lemma inv_verdict h name identity msg :
  inv h → inv (mkHistory (recordUnverified name identity msg (h_s h)) (h_started h) (h_empty h)).
Proof.
  destruct (recordUnverified_fields name identity msg (h_s h)) as (Hg & _ & _ & _ & Hn & Hp).
  apply inv_keep; [done..|]. apply covers_unverified.
Qed.

Lemma inv_more_empty s started empty empty' :
  empty ⊆ empty' → inv (mkHistory s started empty) → inv (mkHistory s started empty').
Proof.
  intros He [H1 H2 H3]. split; cbn in *; [done| |].
  - by eapply accounted_mono; [..|exact H2].
  - eapply covers_sub; [|done]. set_solver.
Qed.

(** A group seen empty is released. *)
Lemma inv_release h name pg w :
  inv h →
  inv (mkHistory (recordDropGroup pg w (untrackGroup name pg (h_s h))) (h_started h) ({[pg]} ∪ h_empty h)).
Proof.
  intros [H1 H2 H3]. destruct (drop_fields pg w (untrackGroup name pg (h_s h))) as (Hg & Hp & Hn & _).
  assert (g_next (untrackGroup name pg (h_s h)) = g_next (h_s h)) as Hn'
    by (unfold untrackGroup; by case_match).
  split; cbn -[recordDropGroup].
  - intros q Hq. rewrite Hn, Hn'. auto.
  - eapply accounted_mono; [exact Hg|by rewrite Hp|reflexivity|]. by apply accounted_untrack.
  - eapply covers_sub; [|apply covers_drop]; [|eapply covers_eq; [..|exact H3];
      unfold untrackGroup; by case_match]. set_solver.
Qed.

Lemma inv_seal report h :
  inv h → inv (mkHistory (sealGroups report (h_s h)) (h_started h) (sealed_empty report (h_s h) ∪ h_empty h)).
Proof.
  intros [H1 H2 H3]. unfold sealGroups. set (s := h_s h) in *.
  set (s0 := set_groups ∅ _). set (l := omap _ _).
  assert (∀ name pg, (name, pg) ∈ l ↔ g_groups s !! name = Some pg) as Hl.
  { intros name pg. unfold l. rewrite list_elem_of_omap. split.
    - intros (n & _ & Hn). destruct (g_groups s !! n) eqn:E; cbn in Hn; [|done]. by simplify_eq.
    - intros Hn. exists name. rewrite elem_of_sort_strings, elem_of_keys, Hn. done. }
  assert (∀ l' live, (∀ np, np ∈ l' → np ∈ l) → ∀ s1, covers s1 live → g_next s1 = g_next s →
    let s2 := fold_left (seal_group report) l' s1 in
    g_next s2 = g_next s ∧ (g_problems s1 ≠ [] → g_problems s2 ≠ []) ∧
    (g_problems s2 ≠ [] ∨ ∀ np, np ∈ l' → so_State (sr_seal (report np.2)) = GroupEmpty) ∧
    covers s2 (live ∖ sealed_empty report s)) as Hfold.
  { induction l' as [|[name pg] l' IH]; intros live Hsub s1 Hc Hn; cbn [fold_left].
    - split_and!; [done|done|right; by intros np ?%not_elem_of_nil|].
      eapply covers_sub; [|done]. set_solver.
    - pose proof (seal_group_spec report s1 (name, pg) live) as (_ & Hn1 & Hp1 & He1 & Hc1).
      specialize (Hc1 Hc). set (s1' := seal_group report s1 (name, pg)) in *. clearbody s1'.
      destruct (IH _ ltac:(intros; apply Hsub; by apply list_elem_of_further) s1' Hc1 ltac:(congruence))
        as (Hn2 & Hp2 & He2 & Hc2).
      split_and!; [done|auto| |].
      + destruct He1 as [He1|He1]; [|left; auto]. destruct He2 as [He2|He2]; [by left|]. right.
        intros np [->|Hnp]%elem_of_cons; [done|auto].
      + case_bool_decide as Hst; [|done]. eapply covers_sub; [|exact Hc2].
        assert (pg ∈ sealed_empty report s); [|set_solver].
        unfold sealed_empty. apply elem_of_list_to_set, list_elem_of_In, filter_In.
        rewrite bool_decide_eq_true. split; [|done]. apply list_elem_of_In, list_elem_of_fmap.
        exists (name, pg). split; [done|]. apply elem_of_map_to_list, Hl, Hsub, list_elem_of_here. }
  destruct (Hfold l (h_started h ∖ h_empty h) ltac:(done) s0) as (Hn & Hp & He & Hc); [done|done|].
  split; cbn -[seal_group].
  - intros pg Hpg. rewrite Hn. auto.
  - destruct He as [He|He]; [by apply accounted_problem|]. intros pg Hpg.
    destruct (H2 pg Hpg) as [?|[[n Hg]|?]]; [left; set_solver| |right; right; auto].
    left. apply elem_of_union_l. unfold sealed_empty.
    apply elem_of_list_to_set, list_elem_of_In, filter_In. rewrite bool_decide_eq_true.
    split; [|apply (He (n, pg)), Hl, Hg]. apply list_elem_of_In, list_elem_of_fmap.
    exists (n, pg). split; [done|]. by apply elem_of_map_to_list.
  - eapply covers_sub; [|exact Hc]. set_solver.
Qed.

Lemma inv_reaps pending h :
  inv h → inv (mkHistory (reportPendingReaps pending (h_s h)) (h_started h) (h_empty h)).
Proof.
  intros Hinv. unfold reportPendingReaps.
  assert (∀ s, inv (mkHistory s (h_started h) (h_empty h)) →
    inv (mkHistory (fold_left (λ s pi, recordUnverified pi.1 pi.2
      (pi.1 +:+ ": process leader " +:+ pi.2 +:+ " was not reaped before cleanup handoff") s) pending s)
      (h_started h) (h_empty h))) as H.
  { induction pending as [|pi pending IH]; intros s Hs; [done|]. apply IH, (inv_verdict _ _ _ _ Hs). }
  apply H. by destruct h.
Qed.

Lemma trackGroup_spec name pg prev w s :
  let s' := trackGroup name pg prev w s in
  g_groups s' = <[name := pg]> (g_groups s) ∧ g_next s' = g_next s ∧
  (g_problems s ≠ [] → g_problems s' ≠ []) ∧
  (∀ p, g_groups s !! name = Some p → p = pg ∨ ob_State prev = GroupEmpty ∨ g_problems s' ≠ []) ∧
  (∀ live, covers s live →
     covers s' (match g_groups s !! name with
                | Some p => if bool_decide (ob_State prev = GroupEmpty) then live ∖ {[p]} else live
                | None => live
                end)).
Proof.
  unfold trackGroup. destruct (g_groups s !! name) as [p|] eqn:Hold; [|done].
  set (s0 := set_groups _ s).
  assert (∀ live, covers s live → covers s0 live) as Hc0 by (intros live; by apply covers_eq).
  destruct (p =? pg) eqn:Heq.
  { apply Nat.eqb_eq in Heq. split_and!; [done..|naive_solver|].
    intros live Hc. case_bool_decide; [|auto]. apply (covers_sub _ live); [set_solver|auto]. }
  case_bool_decide as Hst; cbn [negb].
  - destruct (drop_fields p w s0) as (-> & -> & -> & _). split_and!; [done..|naive_solver|].
    intros live Hc. apply covers_drop. auto.
  - edestruct (recordSurvivor_fields name (ob_Identity prev)) as (Hg & _ & _ & _ & Hn & Hp).
    split_and!; [exact Hg|exact Hn|done|intros ? _; right; right; exact Hp|].
    intros live Hc. apply covers_survivor. auto.
Qed.

Lemma recordPending_next name pg w x s :
  (recordPending name pg w (set_next x s)).1 = (recordPending name pg w s).1.
Proof. unfold recordPending. cbn. by repeat case_match. Qed.

Lemma accounted_launch name pg prev w s started empty :
  accounted s started empty →
  accounted (trackGroup name pg prev w s) ({[pg]} ∪ started)
    (match g_groups s !! name with
     | Some p => if bool_decide (ob_State prev = GroupEmpty) then {[p]} else ∅
     | None => ∅
     end ∪ empty).
Proof.
  intros H. destruct (trackGroup_spec name pg prev w s) as (Hg & _ & Hp & Hold & _).
  intros q Hq. rewrite Hg. destruct (decide (q = pg)) as [->|Hne].
  { right. left. exists name. apply lookup_insert_eq. }
  assert (q ∈ started) as Hq' by set_solver.
  destruct (H q Hq') as [?|[[n Hn]|?]]; [left; set_solver| |right; right; auto].
  destruct (decide (n = name)) as [->|Hnn].
  - rewrite Hn. destruct (Hold q Hn) as [?|[Hst|?]]; [done| |right; right; done].
    left. rewrite bool_decide_eq_true_2 by done. set_solver.
  - right. left. exists n. by rewrite lookup_insert_ne.
Qed.

Lemma inv_launch name teardown cancelled w1 w2 w3 start h :
  inv h → inv (apply_event (ELaunch name teardown cancelled w1 w2 w3 start) h).
Proof.
  intros Hinv. pose proof Hinv as [H1 H2 H3]. cbn [apply_event].
  set (s := h_s h) in *. unfold launch_started, launch.
  destruct ((g_stopping s && _) || cancelled); cbn [negb andb].
  { cbn. by destruct h. }
  set (pg := g_next s). set (s0 := set_next (S pg) s).
  assert (pg ∉ h_started h) as Hfresh by (intros Hin%H1; unfold pg in Hin; lia).
  pose proof (recordPending_fields name pg w1 s0) as (Hg1 & Hp1 & Hn1).
  pose proof (recordPending_next name pg w1 (S pg) s) as Hres. fold s0 in Hres.
  destruct (recordPending name pg w1 s0) as [r s1] eqn:Hpend. cbn [fst snd] in *. rewrite <-Hres.
  assert (covers s0 (h_started h ∖ h_empty h)) as Hc0 by by eapply covers_eq.
  assert (∀ s', g_groups s' = g_groups s1 → g_problems s' = g_problems s1 ∨ g_problems s' ≠ [] →
    ∀ st em, accounted s1 st em → accounted s' st em) as Hacc.
  { intros s' Hg Hp st em. apply accounted_mono; [done| |done]. destruct Hp as [->|?]; done. }
  assert (accounted s1 (h_started h) (h_empty h)) as Ha1.
  { eapply accounted_mono; [exact Hg1|by rewrite Hp1|reflexivity|]. exact H2. }
  destruct r as [entry|err]; cbn [is_ok andb].
  2:{ cbn. split; cbn.
      - rewrite Hn1. cbn. intros q Hq%H1. unfold pg. lia.
      - exact Ha1.
      - unfold recordPending in Hpend. destruct (g_recordOn s0); cbn [negb] in Hpend; [|done].
        destruct w1; [done|done|]. injection Hpend as _ <-. exact Hc0. }
  destruct (covers_pending _ _ _ _ _ _ _ Hc0 Hpend) as [Hc1 Hentry].
  assert (∀ w live, covers s1 live → covers (recordDrop entry w s1) (live ∖ {[pg]})) as Hdrop.
  { intros w live Hc. destruct entry as [e|]; cbn [recordDrop].
    - intros Hon. assert (e = pg) as ->; [|by apply covers_drop].
      destruct (drop_fields e w s1) as (_ & _ & _ & Hon'). rewrite Hon' in Hon. naive_solver.
    - apply (covers_sub _ live); [set_solver|done]. }
  destruct start as [err|seal sealErr err|identity pid began prev]; cbn [snd].
  - destruct (recordDrop_fields entry w2 s1) as (Hg & Hp & Hn & _). split; cbn -[recordDrop].
    + rewrite Hn, Hn1. cbn. intros q Hq%H1. unfold pg. lia.
    + eapply Hacc; [done|by left|done].
    + eapply covers_sub; [|by apply Hdrop]. set_solver.
  - set (clean := _ && _).
    destruct (recordDrop_fields entry w2 s1) as (Hg & Hp & Hn & _).
    destruct clean eqn:Hclean; cbn [launch_empty].
    + apply andb_true_iff in Hclean as [Hst _]. rewrite Hst. split; cbn -[recordDrop].
      * rewrite Hn, Hn1. cbn. intros q [->%elem_of_singleton|Hq%H1]%elem_of_union; unfold pg; lia.
      * eapply Hacc; [done|by left|]. intros q [Hq%elem_of_singleton|Hq]%elem_of_union;
          [left; set_solver|]. destruct (Ha1 q Hq) as [?|?]; [left; set_solver|tauto].
      * eapply covers_sub; [|by apply Hdrop]. set_solver.
    + edestruct (recordUnverified_fields name (so_Identity seal)) as (Hg' & _ & _ & _ & Hn' & Hp').
      split; cbn -[recordUnverified].
      * rewrite Hn', Hn1. cbn. intros q [->%elem_of_singleton|Hq%H1]%elem_of_union; unfold pg; lia.
      * by apply accounted_problem.
      * apply covers_unverified. eapply covers_sub; [|exact Hc1]. set_solver.
  - destruct (trackGroup_spec name pg prev w2 s1) as (Hg & Hn & Hp & _ & Hc).
    destruct (recordTracked_fields entry pid began w3 (trackGroup name pg prev w2 s1))
      as (Hg' & Hp' & Hn' & _).
    split; cbn -[recordTracked trackGroup].
    + rewrite Hn', Hn, Hn1. cbn. intros q [->%elem_of_singleton|Hq%H1]%elem_of_union; unfold pg; lia.
    + pose proof (accounted_launch name pg prev w2 s1 _ _ Ha1) as Ha. rewrite Hg1 in Ha. cbn in Ha.
      eapply accounted_mono; [exact Hg'|by rewrite Hp'|reflexivity|exact Ha].
    + apply covers_tracked. eapply covers_sub; [|exact (Hc _ Hc1)]. rewrite Hg1. cbn.
      repeat case_match; set_solver.
Qed.

Lemma inv_step e h : inv h → inv (apply_event e h).
Proof.
  intros Hinv. destruct e as [name teardown cancelled w1 w2 w3 start|name identity obs|
    name pg teardown has_handoff escaped o w|name pg teardown has_handoff signalled err o w| | |
    cancelled report|report|pending].
  - by apply inv_launch.
  - by apply inv_verdict.
  - cbn [apply_event]. unfold finish_group. case_match; [|case_bool_decide as Hst; cbn [negb fst snd andb]].
    + by destruct h.
    + destruct escaped; [|by apply inv_release].
      pose proof (inv_verdict h name (ob_Identity o)) as Hv. 
      exact (inv_release _ name pg w (Hv _ Hinv)).
    + by apply inv_verdict.
  - cbn [apply_event]. unfold settleUnobserved. case_match; [|case_bool_decide as Hst; cbn [negb fst snd andb]].
    + by destruct h.
    + by apply inv_release.
    + by apply inv_verdict.
  - by apply inv_keep.
  - by apply inv_keep.
  - cbn [apply_event]. unfold sweepGroups. destruct cancelled; cbn [negb]; [by apply inv_seal|by destruct h].
  - by apply inv_seal.
  - by apply inv_reaps.
Qed.

Lemma run_history_inv h : run_history h → inv h.
Proof.
  induction 1 as [wanted w|e h _ IH]; [|by apply inv_step]. split; cbn.
  - set_solver.
  - intros pg Hpg. set_solver.
  - intros Hon. split; [set_solver|]. unfold beginRun, beginRecord in *. 
    destruct wanted; cbn in *; [destruct w; cbn in *|]; set_solver.
Qed.

(** C3: a shutdown is reported as verified only when it is: after the registry
    has been sealed, [ShutdownResult] is nil only if every group whose command
    was ever started in this run has been observed empty, whatever the order
    of launches, exits, restarts, failures and earlier sweeps. *)
Theorem shutdown_verdict_sound h report :
  run_history h → ShutdownResult (sealGroups report (h_s h)) = None →
  ∀ pg, pg ∈ h_started h → pg ∈ h_empty h ∨ pg ∈ sealed_empty report (h_s h).
Proof.
  intros Hrun Hres pg Hpg. pose proof (inv_seal report h (run_history_inv h Hrun)) as [_ Hacc _].
  cbn in Hacc. destruct (Hacc pg Hpg) as [Hin|[[n Hn]|Hp]].
  - apply elem_of_union in Hin. tauto.
  - assert (g_groups (sealGroups report (h_s h)) = ∅) as Hempty; [|by rewrite Hempty, lookup_empty in Hn].
    unfold sealGroups. apply (fold_left_invariant (λ s, g_groups s = ∅)); [done|].
    intros s np _ Hs. pose proof (seal_group_spec report s np ∅) as Hspec.
    destruct np. destruct Hspec as (-> & _). done.
  - unfold ShutdownResult in Hres. by case_bool_decide.
Qed.


(** ** Witnesses *)

Definition owned_group : observation := mkObservation GroupOwned 11 "11" ["11"] "".
Definition empty_seal : seal_report := mkSealReport (mkSeal GroupEmpty "11" [] "") None WriteOK.

Definition example_history : history :=
  apply_event (ELaunch "api" false false WriteOK WriteOK WriteOK (Started "11" 11 500 owned_group))
    (mkHistory (beginRun true WriteOK (mkG ∅ [] false [] [] [] false false false 0)) ∅ ∅).

Lemma example_history_run : run_history example_history.
Proof. apply run_event, run_begin. Defined.

Lemma shutdown_verdict_sound_witness :
  0 ∈ h_started example_history ∧
  (0 ∈ h_empty example_history ∨ 0 ∈ sealed_empty (λ _, empty_seal) (h_s example_history)).
Proof.
  assert (0 ∈ h_started example_history) as H0 by (apply elem_of_union_l, elem_of_singleton; reflexivity).
  split; [exact H0|].
  apply (shutdown_verdict_sound example_history (λ _, empty_seal) example_history_run);
    [vm_compute; reflexivity|exact H0].
Defined.

