(* ===== verification/Reload.v ===== *)
(** * Reloading the configuration of a running stack

    [Reload] as a function of the new configuration, the live definitions, the
    processes the run manages and the moment admission closes.  The order in
    which the new definitions are visited is an argument. *)

From S2P Require Import Prelude GoStrings ConfigTypes RunnerState.

(** ** Comparing definitions *)

(** Source: internal/runner/reload.go:202-210 (readyWhenEqual). *)
Definition readyWhenEqual (a b : option ReadyWhen) : bool :=
  match a, b with
  | None, None => true
  | Some a, Some b => bool_decide (a = b)
  | _, _ => false
  end.

(** Source: internal/runner/reload.go:183-190 (procChanged, env). *)
Definition env_changed (a b : gmap string string) : bool :=
  negb (size a =? size b)
  || existsb (λ kv : string * string, match b !! kv.1 with
                    | Some other => negb (bool_decide (other = kv.2))
                    | None => true
                    end) (map_to_list a).

(** Source: internal/runner/reload.go:191-198 (procChanged, depends_on). *)
Fixpoint deps_changed (a b : list string) : bool :=
  match a, b with
  | [], [] => false
  | x :: a, y :: b => negb (bool_decide (x = y)) || deps_changed a b
  | _, _ => true
  end.

(** Source: internal/runner/reload.go:172-200 (procChanged). *)
Definition procChanged (a b : Process) : bool :=
  if negb (bool_decide (p_Cmd a = p_Cmd b)) || negb (bool_decide (p_Dir a = p_Dir b))
     || negb (bool_decide (p_Restart a = p_Restart b))
     || negb (p_MaxRestarts a =? p_MaxRestarts b)%Z
     || negb (p_ShutdownTimeout a =? p_ShutdownTimeout b)%Z
     || negb (bool_decide (p_EnvFile a = p_EnvFile b)) || negb (bool_decide (p_Mode a = p_Mode b))
     || negb (p_ReadyTimeout a =? p_ReadyTimeout b)%Z
  then true
  else if negb (readyWhenEqual (p_ReadyWhen a) (p_ReadyWhen b))
     || negb (readyWhenEqual (p_HealthWhen a) (p_HealthWhen b))
     || negb (p_HealthInterval a =? p_HealthInterval b)%Z
     || negb (bool_decide (p_HealthAction a = p_HealthAction b))
     || negb (bool_decide (p_ForeignListener a = p_ForeignListener b))
  then true
  else if env_changed (p_Env a) (p_Env b) then true
  else deps_changed (p_DependsOn a) (p_DependsOn b).

(** ** Reload *)

(** Source: internal/ipc/ipc.go:258-271 (CommandResult). *)
Record CommandResult : Type := mkCommandResult {
  cr_Status : string;
  cr_Message : string;
  cr_Generation : Z;
}.

(** What a reload leaves: the live definitions, the restarts requested, the
    processes whose change was skipped, and how many teardown definitions were
    replaced. *)
Record reload_state : Type := mkReload {
  rl_procs : gmap string Process;
  rl_restarted : list string;
  rl_skipped : list string;
  rl_updated : nat;
}.

Definition shutting_down : CommandResult := mkCommandResult "error" "daemon is shutting down" 0.

(** One change.  [managed] tells which names the run's store has; [closed]
    whether admission is closed when the name's turn comes.
    Source: internal/runner/reload.go:78-123 (Reload, changes loop body). *)
Definition apply_change (managed closed : string → bool) (s : reload_state) (c : string * Process)
    : res CommandResult reload_state :=
  let '(name, proc) := c in
  if bool_decide (EffectiveMode proc = ProcessModeTeardown) then
    if closed name then Err shutting_down
    else Ok (mkReload (<[name := proc]> (rl_procs s)) (rl_restarted s) (rl_skipped s) (S (rl_updated s)))
  else if bool_decide (EffectiveMode proc = ProcessModeTask) then
    Ok (mkReload (rl_procs s) (rl_restarted s) (rl_skipped s ++ [name]) (rl_updated s))
  else if managed name then
    if closed name then Err shutting_down
    else Ok (mkReload (<[name := proc]> (rl_procs s)) (rl_restarted s ++ [name]) (rl_skipped s) (rl_updated s))
  else Ok (mkReload (rl_procs s) (rl_restarted s) (rl_skipped s ++ [name]) (rl_updated s)).

(** The changes one by one, up to a refusal.
    Source: internal/runner/reload.go:78-123 (Reload, changes loop). *)
Fixpoint apply_changes (managed closed : string → bool) (cs : list (string * Process))
    (s : reload_state) : option CommandResult * reload_state :=
  match cs with
  | [] => (None, s)
  | c :: cs => match apply_change managed closed s c with
               | Err r => (Some r, s)
               | Ok s => apply_changes managed closed cs s
               end
  end.

(** Source: internal/runner/reload.go:58-60 (Reload, changed definitions). *)
Definition changed_in (old : gmap string Process) (np : string * Process) : bool :=
  match old !! np.1 with Some oldProc => procChanged oldProc np.2 | None => false end.

(** A definition whose mode or dependencies change.
    Source: internal/runner/reload.go:36-42 (Reload, immutable semantics). *)
Definition immutable_change (old : gmap string Process) (np : string * Process) : bool :=
  match old !! np.1 with
  | Some oldProc => negb (bool_decide (EffectiveMode oldProc = EffectiveMode np.2))
                    || negb (bool_decide (p_DependsOn oldProc = p_DependsOn np.2))
  | None => false
  end.

(** The definitions of the new configuration, in the order they are visited. *)
Definition visited (order : list string) (procs : gmap string Process) : list (string * Process) :=
  omap (λ name, pair name <$> procs !! name) order.

(** Source: internal/runner/reload.go:131-139 (Reload, applied). *)
Definition applied (restarted updated : Z) (parts : list string) : list string :=
  parts ++ (if (0 <? restarted)%Z then ["restarted " +:+ itoa restarted] else [])
        ++ (if (0 <? updated)%Z then ["updated " +:+ itoa updated +:+ " teardown"] else []).

(** The result and the state it leaves; the live definitions change as the
    changes are applied, also when the reload stops half way.
    Source: internal/runner/reload.go:20-158 (Reload). *)
Definition Reload (configPath : string) (loaded : res string Config) (order old_order : list string)
    (managed closed : string → bool) (old : gmap string Process) : CommandResult * reload_state :=
  let start := mkReload old [] [] 0 in
  if bool_decide (configPath = "") then (mkCommandResult "error" "no config path set" 0, start)
  else match loaded with
  | Err err => (mkCommandResult "error" err 0, start)
  | Ok newCfg =>
      let news := visited order (c_Processes newCfg) in
      match list_find (λ np, immutable_change old np = true) news with
      | Some (_, (name, _)) =>
          (mkCommandResult "error" ("process " +:+ quote name +:+
             " changes mode or dependencies; restart the stack to apply this change") 0, start)
      | None =>
          let changes := List.filter (changed_in old) news in
          let added := (List.filter (λ np, negb (bool_decide (is_Some (old !! np.1)))) news).*1 in
          let removed := List.filter (λ name, negb (bool_decide (is_Some (c_Processes newCfg !! name))))
                           old_order in
          match apply_changes managed closed changes start with
          | (Some r, s) => (r, s)
          | (None, s) =>
              let restarted := (Z.of_nat (length changes) - Z.of_nat (length (rl_skipped s))
                                - Z.of_nat (rl_updated s))%Z in
              let updated := Z.of_nat (rl_updated s) in
              (if negb (bool_decide (added = [])) || negb (bool_decide (removed = [])) then
                 let parts := (if bool_decide (added = []) then []
                               else ["ignored added: " +:+ join ", " added])
                              ++ (if bool_decide (removed = []) then []
                                  else ["ignored removed: " +:+ join ", " removed]) in
                 mkCommandResult "partial" (join "; " (applied restarted updated parts)
                   +:+ " (restart the daemon to apply add/remove)") 0
               else if negb (bool_decide (rl_skipped s = [])) then
                 let parts := applied restarted updated []
                              ++ ["skipped " +:+ itoa (Z.of_nat (length (rl_skipped s))) +:+ " completed"] in
                 mkCommandResult "partial" (join "; " parts
                   +:+ " (restart the daemon to apply changes to completed tasks)") 0
               else if bool_decide (changes = []) then mkCommandResult "ok" "no changes detected" 0
               else mkCommandResult "ok" (join "; " (applied restarted updated [])) 0, s)
          end
      end
  end.

(** ** Lemmas *)

Lemma readyWhenEqual_true a b : readyWhenEqual a b = true ↔ a = b.
Proof. destruct a, b; cbn; rewrite ?bool_decide_eq_true; naive_solver. Qed.

Lemma env_changed_false a b : env_changed a b = false ↔ a = b.
Proof.
  unfold env_changed. rewrite orb_false_iff, negb_false_iff, Nat.eqb_eq. split.
  - intros [Hs He]. apply map_subseteq_size_eq; [|lia].
    apply map_subseteq_spec. intros k v Hk. apply not_true_iff_false in He.
    destruct (b !! k) as [v'|] eqn:Hb.
    + destruct (decide (v' = v)) as [->|Hne]; [done|]. exfalso. apply He, existsb_exists.
      exists (k, v). split; [by apply list_elem_of_In, elem_of_map_to_list|]. cbn. rewrite Hb.
      by apply negb_true_iff, bool_decide_eq_false.
    + exfalso. apply He, existsb_exists. exists (k, v).
      split; [by apply list_elem_of_In, elem_of_map_to_list|]. cbn. by rewrite Hb.
  - intros ->. split; [done|]. apply not_true_iff_false. intros ([k v] & Hin & Hk)%existsb_exists.
    apply list_elem_of_In, elem_of_map_to_list in Hin. cbn in Hk. rewrite Hin in Hk.
    rewrite bool_decide_eq_true_2 in Hk by done. discriminate Hk.
Qed.

Lemma deps_changed_false a b : deps_changed a b = false ↔ a = b.
Proof.
  revert b; induction a as [|x a IH]; intros [|y b]; cbn; [done..|].
  rewrite orb_false_iff, negb_false_iff, bool_decide_eq_true, IH. naive_solver.
Qed.

(** A definition counts as changed exactly when some field other than its
    named ports differs; a change of the ports alone goes unnoticed here. *)
Theorem procChanged_exact a b :
  procChanged a b = false ↔
  mkProcess (p_Cmd a) (p_Dir a) (p_EnvFile a) (p_Env a) (p_Mode a) (p_Restart a) (p_MaxRestarts a)
    (p_ShutdownTimeout a) (p_ReadyWhen a) (p_ReadyTimeout a) (p_DependsOn a) (p_Ports b)
    (p_HealthWhen a) (p_HealthInterval a) (p_HealthAction a) (p_ForeignListener a) = b.
Proof.
  unfold procChanged. destruct b as [cmd dir ef env mode rs mr sdt rw rt dep ports hw hi ha fl]. cbn.
  case_match eqn:H1; [|case_match eqn:H2; [|case_match eqn:H3]].
  - split; [done|]. intros [=]. subst. exfalso.
    by rewrite !bool_decide_eq_true_2, !Z.eqb_refl in H1 by done.
  - split; [done|]. intros [=]. subst. exfalso.
    rewrite (proj2 (readyWhenEqual_true _ _) eq_refl), (proj2 (readyWhenEqual_true _ _) eq_refl) in H2.
    by rewrite !bool_decide_eq_true_2, !Z.eqb_refl in H2 by done.
  - split; [done|]. intros [=]. subst. by rewrite (proj2 (env_changed_false _ _) eq_refl) in H3.
  - rewrite deps_changed_false. apply env_changed_false in H3.
    rewrite !orb_false_iff, !negb_false_iff, !bool_decide_eq_true, !Z.eqb_eq in H1.
    rewrite !orb_false_iff, !negb_false_iff, !bool_decide_eq_true, !Z.eqb_eq, !readyWhenEqual_true in H2.
    naive_solver.
Qed.

Lemma elem_of_visited order procs name p :
  (name, p) ∈ visited order procs ↔ name ∈ order ∧ procs !! name = Some p.
Proof.
  unfold visited. rewrite list_elem_of_omap. split.
  - intros (n & Hn & Hp). destruct (procs !! n) eqn:E; cbn in Hp; [|done]. by simplify_eq.
  - intros [Hn Hp]. exists name. by rewrite Hp.
Qed.

Lemma visited_names order procs name : name ∈ (visited order procs).*1 ↔ name ∈ order ∧ is_Some (procs !! name).
Proof.
  rewrite list_elem_of_fmap. split.
  - intros ([n p] & -> & [? Hp]%elem_of_visited). split; [done|by eexists].
  - intros [? [p Hp]]. exists (name, p). by rewrite elem_of_visited.
Qed.

Lemma NoDup_visited order procs : NoDup order → NoDup (visited order procs).*1.
Proof.
  induction order as [|n order IH]; intros Hnd; [constructor|].
  apply NoDup_cons in Hnd as [Hn Hnd]. unfold visited. cbn.
  destruct (procs !! n) eqn:E; cbn; [|by apply IH]. constructor; [|by apply IH].
  intros [Hin _]%visited_names. done.
Qed.

(** What one change may do. *)
Lemma apply_change_Ok managed closed s name p s' :
  apply_change managed closed s (name, p) = Ok s' →
  (rl_skipped s' = rl_skipped s ++ [name] ∧ rl_procs s' = rl_procs s ∧
   rl_restarted s' = rl_restarted s) ∨
  (rl_skipped s' = rl_skipped s ∧ rl_procs s' = <[name := p]> (rl_procs s) ∧
   EffectiveMode p ≠ ProcessModeTask ∧
   rl_restarted s' = if bool_decide (EffectiveMode p = ProcessModeTeardown) then rl_restarted s
                     else rl_restarted s ++ [name]).
Proof.
  unfold apply_change. destruct (bool_decide (EffectiveMode p = ProcessModeTeardown)) eqn:Htd.
  - destruct (closed name); [done|]. intros [= <-]. right. split_and!; [done|done| |done].
    apply bool_decide_eq_true in Htd. by rewrite Htd.
  - destruct (bool_decide (EffectiveMode p = ProcessModeTask)) eqn:Htk; [intros [= <-]; by left|].
    apply bool_decide_eq_false in Htk.
    destruct (managed name); [destruct (closed name); [done|]|]; intros [= <-]; [|by left].
    right. by split_and!.
Qed.

Lemma apply_changes_invariant (P : reload_state → Prop) managed closed cs s :
  P s → (∀ s c s', c ∈ cs → P s → apply_change managed closed s c = Ok s' → P s') →
  P (apply_changes managed closed cs s).2.
Proof.
  revert s; induction cs as [|c cs IH]; intros s Hs Hstep; [done|]. cbn.
  destruct (apply_change managed closed s c) as [s'|r] eqn:Hc; [|done].
  apply IH; [eapply Hstep; [apply list_elem_of_here|done..]|].
  intros; eapply Hstep; [by apply list_elem_of_further|done..].
Qed.

(** A pass that skips nothing applies everything. *)
Lemma apply_changes_all managed closed cs s s' :
  NoDup cs.*1 → apply_changes managed closed cs s = (None, s') → rl_skipped s' = [] →
  (∀ name p, (name, p) ∈ cs → rl_procs s' !! name = Some p) ∧
  (∀ name, name ∉ cs.*1 → rl_procs s' !! name = rl_procs s !! name) ∧
  (∀ name, name ∈ rl_restarted s' ↔ name ∈ rl_restarted s ∨
     ∃ p, (name, p) ∈ cs ∧ EffectiveMode p ≠ ProcessModeTeardown).
Proof.
  revert s; induction cs as [|[n p] cs IH]; intros s Hnd Hrun Hskip.
  { cbn in Hrun. injection Hrun as <-. split_and!; [by intros ? ? ?%not_elem_of_nil|done|].
    intros name. split; [by left|]. intros [?|(? & ?%not_elem_of_nil & _)]; done. }
  cbn [apply_changes] in Hrun. destruct (apply_change managed closed s (n, p)) as [s1|] eqn:Hc; [|done].
  apply NoDup_cons in Hnd as [Hn Hnd].
  destruct (IH s1 Hnd Hrun Hskip) as (H1 & H2 & H3).
  assert (rl_skipped s1 = []) as Hs1.
  { pose proof (apply_changes_invariant (λ x, rl_skipped x ≠ []) managed closed cs s1) as Hinv.
    rewrite Hrun in Hinv. destruct (rl_skipped s1) eqn:E; [done|]. exfalso. apply Hinv; [congruence| |done].
    intros x [n' p'] x' _ Hx [(-> & _)|(-> & _)]%apply_change_Ok; [by intros [_ ?]%app_nil|done]. }
  apply apply_change_Ok in Hc as [(Hs & _)|(_ & Hp & _ & Hr)].
  { exfalso. rewrite Hs1 in Hs. symmetry in Hs. by apply app_nil in Hs as [_ ?]. }
  split_and!.
  - intros name q [[= -> ->]|Hin]%elem_of_cons; [|by apply H1].
    rewrite H2 by done. rewrite Hp. apply lookup_insert_eq.
  - cbn. intros name Hname. rewrite not_elem_of_cons in Hname. destruct Hname as [Hne Hnin].
    rewrite H2 by done. rewrite Hp. by rewrite lookup_insert_ne.
  - intros name. rewrite H3, Hr. setoid_rewrite elem_of_cons. case_bool_decide.
    + split; [intros [?|(q & ? & ?)]; [by left|right; eauto]|].
      intros [?|(q & [[= -> ->]|?] & ?)]; [by left|done|right; eauto].
    + rewrite elem_of_app, list_elem_of_singleton. split.
      * intros [[?| ->]|(q & ? & ?)]; [by left|right; exists p; eauto|right; eauto].
      * intros [?|(q & [[= -> ->]|?] & ?)]; [by left; left|by left; right|right; eauto].
Qed.

Lemma apply_changes_error managed closed cs s e s' :
  apply_changes managed closed cs s = (Some e, s') → cr_Status e = "error".
Proof.
  revert s; induction cs as [|[n p] cs IH]; intros s; [done|].
  cbn. unfold apply_change. repeat case_match; simplify_eq/=; try (by intros [= <-]); apply IH.
Qed.

Lemma elem_of_changes old news name q :
  (name, q) ∈ List.filter (changed_in old) news ↔ (name, q) ∈ news ∧ changed_in old (name, q) = true.
Proof. by rewrite !list_elem_of_In, filter_In. Qed.

Lemma NoDup_filter_names {A} (f : string * A → bool) (l : list (string * A)) :
  NoDup l.*1 → NoDup (List.filter f l).*1.
Proof.
  induction l as [|x l IH]; cbn; [done|]. intros [Hx Hl]%NoDup_cons.
  destruct (f x); [|auto]. cbn. constructor; [|auto]. intros Hin. apply Hx.
  apply list_elem_of_fmap in Hin as (y & -> & [Hy _]%list_elem_of_In%filter_In).
  apply list_elem_of_fmap. exists y. split; [done|by apply list_elem_of_In].
Qed.

(** No name added and none removed: the two configurations have the same names. *)
Lemma same_names (order old_order : list string) (procs old : gmap string Process) :
  order ≡ₚ keys procs → old_order ≡ₚ keys old →
  (List.filter (λ np, negb (bool_decide (is_Some (old !! np.1)))) (visited order procs)).*1 = [] →
  List.filter (λ name, negb (bool_decide (is_Some (procs !! name)))) old_order = [] →
  dom procs = dom old.
Proof.
  intros Hord Hold Ha Hr. apply set_eq. intros name. rewrite !elem_of_dom. split.
  - intros [q Hq]. destruct (old !! name) eqn:E; [done|]. exfalso.
    apply (not_elem_of_nil name). rewrite <-Ha. apply list_elem_of_fmap. exists (name, q). split; [done|].
    apply list_elem_of_In, filter_In. split; [|cbn; by rewrite E].
    apply list_elem_of_In, elem_of_visited. split; [|done]. rewrite Hord. apply elem_of_keys. by eexists.
  - intros [p Hp]. destruct (procs !! name) eqn:E; [done|]. exfalso.
    apply (not_elem_of_nil name). rewrite <-Hr. apply list_elem_of_In, filter_In.
    split; [|by rewrite E]. apply list_elem_of_In. rewrite Hold. apply elem_of_keys. by eexists.
Qed.

(** A reload never changes what is fixed at startup: whatever the new
    file, and however far the reload gets, no process is added or removed, and
    every process keeps its mode and its dependencies. *)
Theorem Reload_keeps_structure path loaded order old_order managed closed old :
  let s := (Reload path loaded order old_order managed closed old).2 in
  dom (rl_procs s) = dom old ∧
  ∀ name p p', old !! name = Some p → rl_procs s !! name = Some p' →
    EffectiveMode p' = EffectiveMode p ∧ p_DependsOn p' = p_DependsOn p.
Proof.
  set (P := λ s, dom (rl_procs s) = dom old ∧
    ∀ name p p', old !! name = Some p → rl_procs s !! name = Some p' →
    EffectiveMode p' = EffectiveMode p ∧ p_DependsOn p' = p_DependsOn p).
  assert (P (mkReload old [] [] 0)) as H0 by (split; [done|]; cbn; intros; by simplify_eq).
  intros s. change (P s). unfold s, Reload. case_bool_decide; [exact H0|].
  destruct loaded as [cfg|]; [|exact H0].
  destruct (list_find _ _) as [[i [n p]]|] eqn:Hfind; [exact H0|].
  apply list_find_None in Hfind. rewrite Forall_forall in Hfind.
  set (changes := List.filter _ _).
  pose proof (apply_changes_invariant P managed closed changes (mkReload old [] [] 0) H0) as Hinv.
  destruct (apply_changes _ _ _ _) as [[r|] s']; cbn [snd] in *; apply Hinv; clear Hinv;
    (intros x [n p] x' [Hin Hch]%list_elem_of_In%filter_In [Hdom Hsame] Hx; unfold changed_in in Hch; cbn in Hch;
     apply list_elem_of_In in Hin; specialize (Hfind _ Hin); unfold immutable_change in Hfind; cbn in Hfind;
     destruct (old !! n) as [q|] eqn:Hq; [|done];
     apply not_true_iff_false in Hfind;
     apply orb_false_iff in Hfind as [Hm%negb_false_iff%bool_decide_eq_true
                                      Hd%negb_false_iff%bool_decide_eq_true];
     apply apply_change_Ok in Hx as [(_ & Hp & _)|(_ & Hp & _)]; split; rewrite Hp; [done|done| |];
     [rewrite dom_insert_L, Hdom; apply elem_of_dom_2 in Hq; set_solver|];
     intros name p0 p' Hp0; rewrite lookup_insert; case_decide; [intros [= <-]; subst; naive_solver|by apply Hsame]).
Qed.


(** ** Witnesses *)

