(* ===== verification/Teardown.v ===== *)
(** * One-shot executions, the teardown phase and the published verdict

    What is concluded from one runner-owned execution (a check, a command
    probe, a teardown process), the bounded capture of its output, the phase
    that runs the teardown processes once the stack is verified stopped, and
    the verdict the client reads. *)

From S2P Require Import Prelude GoStrings ConfigTypes ConfigGraph RunnerState Lifecycle Groups.

(** ** Captured output *)

(** Source: internal/runner/check.go:239-246 (cappedBuffer). *)
Record cappedBuffer : Type := mkCapped {
  cb_limit : Z;
  cb_data : string;
  cb_truncated : bool;
}.

(** [line[cut]&0xC0 == 0x80] *)
Definition continuation (line : string) (cut : nat) : bool :=
  match bytes line !! cut with Some c => (128 <=? code c) && (code c <? 192) | None => false end.

(** Source: internal/runner/check.go:256-259 (writeLine, cut). *)
Fixpoint cut_back (line : string) (cut : nat) : nat :=
  match cut with
  | O => O
  | S n => if continuation line cut then cut_back line n else cut
  end.

(** Source: internal/runner/check.go:248-265 (writeLine). *)
Definition writeLine (line : string) (b : cappedBuffer) : cappedBuffer :=
  if cb_truncated b then b
  else
    let line := line +:+ String (chr 10) "" in
    let room := (cb_limit b - str_len (cb_data b))%Z in
    if (room <? str_len line)%Z
    then mkCapped (cb_limit b) (cb_data b +:+ str_take (cut_back line (Z.to_nat room)) line) true
    else mkCapped (cb_limit b) (cb_data b +:+ line) false.

(** ** One execution *)

(** Source: internal/runner/check.go:32-47 (CheckResult). *)
Record CheckResult : Type := mkCheckResult {
  ck_Started : bool;
  ck_Generation : Z;
  ck_PID : Z;
  ck_StartedAt : Z;
  ck_FinishedAt : Z;
  ck_ExitCode : option Z;
  ck_Signal : option string;
  ck_Stdout : string;
  ck_Stderr : string;
  ck_OutputTruncated : bool;
  ck_HandedOff : bool;
  ck_Err : option string;
  ck_AdmissionRefused : bool;
}.

(** The errors of [exec] that [runOwned] tells apart: the cleanup handoff, a
    cancelled context, an exit status with its code and description, and any
    other. *)
Inductive owned_error : Type :=
  | OwnedHandoff
  | OwnedCanceled (msg : string)
  | OwnedExit (exit_code : Z) (state : string)
  | OwnedOther (msg : string).

(** [strings.TrimPrefix] *)
Fixpoint trim_prefix (p s : string) : string :=
  match p, s with
  | EmptyString, _ => s
  | String a p', String b s' => if bool_decide (a = b) then
                                  if has_prefix p' s' then trim_prefix p' s' else s
                                else s
  | _, _ => s
  end.

(** [onStart] is whether the start callback ran; [began] and [finished] are the
    clock before and after.
    Source: internal/runner/check.go:161-237 (runOwned). *)
Definition runOwned (onStart : bool) (began finished : Z) (stdout stderr : cappedBuffer)
    (err : option owned_error) (st : procState) : CheckResult * procState :=
  let Started := onStart || negb (st_pid st =? 0)%Z || bool_decide (is_Some (st_exitCode st)) in
  let '(exitCode, signal, handedOff, e, refused) :=
    match err with
    | Some OwnedHandoff => (None, None, true, None, false)
    | Some (OwnedCanceled msg) =>
        if negb Started then (st_exitCode st, None, false, Some msg, true)
        else (st_exitCode st, None, false, Some msg, false)
    | Some (OwnedOther msg) => (st_exitCode st, None, false, Some msg, false)
    | Some (OwnedExit c state) =>
        if negb Started then (st_exitCode st, None, false, Some state, false)
        else if (c =? -1)%Z then (None, Some (trim_prefix "signal: " state), false, None, false)
        else (st_exitCode st, None, false, None, false)
    | None => (st_exitCode st, None, false, None, false)
    end in
  let r := mkCheckResult Started (st_generation st) (st_pid st) (if Started then began else 0)
             finished exitCode signal (cb_data stdout) (cb_data stderr)
             (cb_truncated stdout || cb_truncated stderr) handedOff e refused in
  let final := if bool_decide (exitCode = Some 0%Z) then "completed" else "failed" in
  (r, set_pid 0 (set_state final st)).

(** [ended] is the error of the attempt's context.
    Source: internal/runner/probe.go:474-491 (exitedZeroInTime). *)
Definition exitedZeroInTime (ended : option string) (res : CheckResult) : bool * CheckResult :=
  if negb (bool_decide (ck_ExitCode res = Some 0%Z)) then (false, res)
  else match ended with
       | None => (true, res)
       | Some err =>
           (false, mkCheckResult (ck_Started res) (ck_Generation res) (ck_PID res) (ck_StartedAt res)
                     (ck_FinishedAt res) (ck_ExitCode res) (ck_Signal res) (ck_Stdout res)
                     (ck_Stderr res) (ck_OutputTruncated res) (ck_HandedOff res) (Some err)
                     (ck_AdmissionRefused res))
       end.

(** Source: internal/runner/probe.go:493-511 (cmdProbeFailure). *)
Definition cmdProbeFailure (res : CheckResult) : string :=
  let detail := match ck_Err res, ck_Signal res, ck_ExitCode res with
                | Some err, _, _ => err
                | None, Some signal, _ => "killed by " +:+ signal
                | None, None, Some c => "exit " +:+ itoa c
                | None, None, None => "no exit status"
                end in
  let stderr := trim_space (ck_Stderr res) in
  if bool_decide (stderr = "") then detail else detail +:+ ": " +:+ stderr.

(** ** The teardown phase *)

(** Source: internal/runner/teardown.go:14-18 (TeardownBudget). *)
Definition TeardownBudget : Z := 15 * Second.
(** Source: internal/runner/teardown.go:20-22 (teardownMinStart). *)
Definition teardownMinStart : Z := Second.
(** Source: internal/runner/processgroup.go:155-157 (defaultShutdownGrace). *)
Definition defaultShutdownGrace : Z := 5 * Second.

(** Source: internal/runner/processgroup.go:259-266 (shutdownGrace). *)
Definition shutdownGrace (timeout : Z) : Z :=
  if (0 <? timeout)%Z then int64 (timeout * Second) else defaultShutdownGrace.

(** Outcomes of a teardown process.
    Source: internal/runner/teardown.go:24-32 (teardown outcomes). *)
Inductive TeardownStatus : Type :=
  | TeardownPassed | TeardownFailed | TeardownTimedOut | TeardownHandedOff | TeardownNotRun
  | TeardownSkipped.

#[export] Instance TeardownStatus_eq_dec : EqDecision TeardownStatus.
Proof. solve_decision. Defined.

(** Source: internal/runner/teardown.go:24-32 (teardown outcomes). *)
Definition status_string (s : TeardownStatus) : string :=
  match s with
  | TeardownPassed => "passed"
  | TeardownFailed => "failed"
  | TeardownTimedOut => "timed_out"
  | TeardownHandedOff => "handed_off"
  | TeardownNotRun => "not_run"
  | TeardownSkipped => "skipped"
  end.

(** Source: internal/runner/teardown.go:34-38 (TeardownSkipUnverified). *)
Definition TeardownSkipUnverified : string := "managed_processes_unverified".
(** Source: internal/runner/teardown.go:34-38 (TeardownSkipHandoff). *)
Definition TeardownSkipHandoff : string := "cleanup_handoff".

(** Source: internal/runner/teardown.go:40-49 (TeardownResult). *)
Record TeardownResult : Type := mkTeardownResult {
  tr_Name : string;
  tr_Status : TeardownStatus;
  tr_ExitCode : option Z;
  tr_StartedAt : Z;
  tr_FinishedAt : Z;
  tr_Error : string;
}.

(** Source: internal/ipc/ipc.go:21-25 (TeardownPrefix). *)
Definition TeardownPrefix : string := "teardown: ".

(** The line break of a verdict. *)
Definition nl : string := String (chr 10) "".

(** Source: internal/runner/teardown.go:58-72 (TeardownError). *)
Definition TeardownError (results : list TeardownResult) : option string :=
  let lines := omap (λ res, if bool_decide (tr_Status res = TeardownPassed) then None
                            else Some (TeardownPrefix +:+ tr_Name res +:+ " "
                                       +:+ status_string (tr_Status res) +:+ ": " +:+ tr_Error res))
                 results in
  if bool_decide (lines = []) then None else Some (join nl lines).

(** What happens to one teardown process: the time left when its turn comes,
    the execution, whether its context has ended, and the rendering of its
    share of the budget. *)
Record teardown_run : Type := mkTeardownRun {
  td_remaining : Z;
  td_result : CheckResult;
  td_ended : option string;
  td_share : string;
}.

(** Source: internal/runner/teardown.go:145-191 (runTeardownProcess). *)
Definition runTeardownProcess (p : procInfo) (run : teardown_run) : TeardownResult :=
  let grace := shutdownGrace (p_ShutdownTimeout (pi_proc p)) in
  if (td_remaining run <=? int64 (grace + teardownMinStart))%Z
  then mkTeardownResult (pi_name p) TeardownNotRun None 0 0 "the teardown budget ran out before it could start"
  else
    let '(passed, res) := exitedZeroInTime (td_ended run) (td_result run) in
    let mk status err := mkTeardownResult (pi_name p) status (ck_ExitCode res) (ck_StartedAt res)
                           (ck_FinishedAt res) err in
    if passed then mk TeardownPassed ""
    else if ck_HandedOff res
    then mk TeardownHandedOff "its process group was not reaped within the teardown budget"
    else if ck_Started res && bool_decide (is_Some (td_ended run))
    then mk TeardownTimedOut ("still running when the teardown budget (" +:+ td_share run +:+ ") ran out")
    else mk TeardownFailed (cmdProbeFailure res).

(** The phase.  [runs] tells what happens to each process; [exec] what its
    execution does to the groups.
    Source: internal/runner/teardown.go:80-143 (runTeardown). *)
Definition runTeardown (handedOff : bool) (colorBase : nat) (order : list string) (cfg : Config)
    (runs : string → teardown_run) (exec : procInfo → gstate → gstate)
    (report : nat → seal_report) (pending : list (string * string)) (s : gstate)
    : list TeardownResult * gstate :=
  let names := TeardownNames order cfg in
  if bool_decide (names = []) then ([], s)
  else
    let s := closeAdmission s in
    let skip := if handedOff then TeardownSkipHandoff
                else if bool_decide (is_Some (ShutdownResult s)) then TeardownSkipUnverified
                else "" in
    if negb (bool_decide (skip = ""))
    then ((λ name, mkTeardownResult name TeardownSkipped None 0 0 skip) <$> names, s)
    else
      let s := set_teardownOpen true s in
      let procs := imap (λ i name, mkProcInfo name (proc_at (c_Processes cfg) name)
                                     (Z.of_nat (colorBase + i)) [] true false) names in
      let results := (λ p, runTeardownProcess p (runs (pi_name p))) <$> procs in
      let s := fold_left (λ s p, exec p s) procs s in
      let s := set_teardownOpen false s in
      (results, reportPendingReaps pending (sealGroups report s)).

(** ** The published verdict *)

(** [errors.Join] of two errors. *)
Definition errors_join (a b : option string) : option string :=
  match a, b with
  | Some a, Some b => Some (a +:+ nl +:+ b)
  | Some a, None => Some a
  | None, b => b
  end.

(** Source: internal/runner/runner.go:562-571 (endRun, verdict). *)
Definition endRun_verdict (s : gstate) (results : list TeardownResult) : option string :=
  errors_join (ShutdownResult s) (TeardownError results).

(** [strings.Split] at line breaks. *)
Fixpoint split_lines (s : string) : list string :=
  match s with
  | EmptyString => [""]
  | String c s' =>
      if bool_decide (c = chr 10) then "" :: split_lines s'
      else match split_lines s' with
           | l :: ls => String c l :: ls
           | [] => [String c ""]
           end
  end.

(** Source: cmd/proc-compose/helpers.go:418-430 (teardownOnly). *)
Definition teardownOnly (detail : string) : bool :=
  if bool_decide (detail = "") then false
  else forallb (has_prefix TeardownPrefix) (split_lines detail).

(** ** The captured output *)

Lemma cut_back_le line n : cut_back line n <= n.
Proof. induction n as [|n IH]; cbn [cut_back]; [done|]. case_match; lia. Qed.

Lemma cut_back_boundary line n :
  cut_back line n = 0 ∨ continuation line (cut_back line n) = false.
Proof. induction n as [|n IH]; cbn [cut_back]; [by left|]. destruct (continuation line (S n)) eqn:E; [done|by right]. Qed.

(** All that was written, one line break after each line. *)
Fixpoint written (lines : list string) : string :=
  match lines with
  | [] => ""
  | line :: lines => line +:+ String (chr 10) "" +:+ written lines
  end.

Lemma written_app l1 l2 : written (l1 ++ l2) = written l1 +:+ written l2.
Proof. induction l1 as [|x l1 IH]; cbn [app written]; [done|]. by rewrite IH, !str_app_assoc. Qed.

(** The capture after [lines]. *)
Definition captured (limit : Z) (lines : list string) : cappedBuffer :=
  fold_left (flip writeLine) lines (mkCapped limit "" false).

(** The capture of an execution's output is bounded and honest: it never
    exceeds its limit, it holds a prefix of what was written, it says
    "truncated" exactly when something is missing, and it does not end in the
    middle of a UTF-8 sequence of a line (the first dropped byte is not a
    continuation byte, unless the whole line was dropped). *)
Theorem capture_bounded limit lines :
  (0 ≤ limit)%Z →
  let b := captured limit lines in
  (str_len (cb_data b) ≤ limit)%Z ∧
  ∃ rest, written lines = cb_data b +:+ rest ∧ (cb_truncated b = false ↔ rest = "") ∧
    (rest ≠ "" → (∃ before, cb_data b = written before) ∨ continuation rest 0 = false).
Proof.
  intros Hl. unfold captured.
  assert (cb_limit (fold_left (flip writeLine) lines (mkCapped limit "" false)) = limit) as Hlim.
  { apply (fold_left_invariant (λ b, cb_limit b = limit)); [done|]. intros b line _ Hb.
    unfold flip, writeLine. by repeat case_match. }
  revert Hlim. induction lines as [|line lines IH] using rev_ind; intros Hlim.
  { cbn. split; [done|]. exists "". split_and!; done. }
  rewrite fold_left_app in *. cbn [fold_left flip] in *.
  set (b := fold_left (flip writeLine) lines (mkCapped limit "" false)) in *.
  assert (cb_limit b = limit) as Hb.
  { unfold writeLine in Hlim. by repeat case_match. }
  destruct (IH Hb) as (Hlen & rest & Hw & Htr & Hcont). clear IH.
  rewrite written_app. cbn [written]. rewrite str_app_nil. unfold writeLine.
  destruct (cb_truncated b) eqn:Ht.
  { split; [done|]. exists (rest +:+ line +:+ String (chr 10) "").
    rewrite Hw, str_app_assoc. split; [done|].
    assert (rest ≠ "") as Hne by (intros Hr; by pose proof (proj2 Htr Hr)).
    split; [rewrite Ht; split; [done|]; intros Hnil; by destruct rest|].
    intros _. destruct (Hcont Hne) as [?|Hc]; [by left|right]. by destruct rest. }
  rewrite (proj1 Htr eq_refl), str_app_nil in Hw. rewrite Hw, Hb.
  set (full := line +:+ String (chr 10) "").
  destruct (Z.ltb_spec (limit - str_len (cb_data b)) (str_len full)) as [Hlt|Hge]; cbn [cb_data cb_truncated].
  - pose proof (cut_back_le full (Z.to_nat (limit - str_len (cb_data b)))) as Hcut.
    pose proof (cut_back_boundary full (Z.to_nat (limit - str_len (cb_data b)))) as Hbound.
    revert Hcut Hbound. generalize (cut_back full (Z.to_nat (limit - str_len (cb_data b)))).
    intros cut Hcut Hbound. pose proof (str_take_length cut full) as Htake.
    split; [rewrite str_len_app; lia|].
    exists (of_bytes (drop cut (bytes full))). rewrite str_app_assoc.
    split. { f_equal. unfold str_take. by rewrite <-of_bytes_app, take_drop, of_bytes_bytes. }
    assert (cut < length (bytes full)) as Hc.
    { rewrite length_bytes. unfold str_len at 2 in Hlt. lia. }
    split.
    + split; [done|]. intros Hnil. apply (f_equal bytes) in Hnil. rewrite bytes_of_bytes in Hnil.
      apply (f_equal length) in Hnil. rewrite length_drop in Hnil. cbn in Hnil. lia.
    + intros _. destruct Hbound as [->|Hb0].
      * left. exists lines. unfold str_take. cbn. by rewrite str_app_nil.
      * right. unfold continuation in *. rewrite bytes_of_bytes, lookup_drop, Nat.add_0_r. exact Hb0.
  - split; [rewrite str_len_app; lia|]. exists "". rewrite str_app_nil. by split_and!.
Qed.

(** ** Reading the verdict *)

Lemma split_lines_app a b : split_lines (a +:+ nl +:+ b) = split_lines a ++ split_lines b.
Proof.
  induction a as [|c a IH]; [done|]. cbn [String.append split_lines].
  change (String.append a (nl +:+ b)) with (a +:+ nl +:+ b). case_bool_decide; rewrite IH; [done|].
  destruct (split_lines a) eqn:E; [|done]. destruct a; cbn in E; [done|]. by repeat case_match.
Qed.

Lemma split_lines_one a : str_mem (chr 10) a = false → split_lines a = [a].
Proof.
  induction a as [|c a IH]; [done|]. rewrite str_mem_cons, orb_false_iff, bool_decide_eq_false.
  intros [Hc Ha]. cbn [split_lines]. rewrite bool_decide_eq_false_2 by done. by rewrite IH.
Qed.

Lemma split_lines_join ls :
  ls ≠ [] → (∀ l, l ∈ ls → str_mem (chr 10) l = false) → split_lines (join nl ls) = ls.
Proof.
  induction ls as [|l ls IH]; intros Hne Hls; [done|]. destruct ls as [|l2 ls].
  { cbn. apply split_lines_one, Hls, list_elem_of_here. }
  change (join nl (l :: l2 :: ls)) with (l +:+ nl +:+ join nl (l2 :: ls)).
  rewrite split_lines_app, IH, split_lines_one; [done|apply Hls, list_elem_of_here|done|].
  intros x Hx. apply Hls. by apply list_elem_of_further.
Qed.

(** The line of one failed teardown. *)
Definition teardown_line (res : TeardownResult) : string :=
  TeardownPrefix +:+ tr_Name res +:+ " " +:+ status_string (tr_Status res) +:+ ": " +:+ tr_Error res.

Lemma omap_if {A B} (P : A → Prop) `{!∀ x, Decision (P x)} (f : A → B) l :
  omap (λ x, if bool_decide (P x) then None else Some (f x)) l =
  f <$> List.filter (λ x, negb (bool_decide (P x))) l.
Proof.
  induction l as [|x l IH]; [done|]. cbn [List.filter].
  change (omap ?g (x :: l)) with (match g x with Some y => y :: omap g l | None => omap g l end).
  cbv beta. case_bool_decide; rewrite IH; done.
Qed.

Lemma TeardownError_spec results :
  TeardownError results =
  let failed := List.filter (λ r, negb (bool_decide (tr_Status r = TeardownPassed))) results in
  if bool_decide (failed = []) then None else Some (join nl (teardown_line <$> failed)).
Proof.
  unfold TeardownError. rewrite omap_if. fold teardown_line. cbn zeta.
  change (λ x : TeardownResult, TeardownPrefix +:+ tr_Name x +:+ " " +:+ status_string (tr_Status x)
            +:+ ": " +:+ tr_Error x) with teardown_line.
  by destruct (List.filter _ results).
Qed.

(** One line of text. *)
Definition one_line (s : string) : Prop := str_mem (chr 10) s = false.

Lemma teardown_line_one r : one_line (tr_Name r) → one_line (tr_Error r) → one_line (teardown_line r).
Proof.
  unfold one_line, teardown_line. intros Hn He. rewrite !str_mem_app, Hn, He. by destruct (tr_Status r).
Qed.

Lemma split_lines_nonempty s : split_lines s ≠ [].
Proof. destruct s; cbn; [done|]. by repeat case_match. Qed.

Lemma forallb_prefixed results :
  (∀ r, r ∈ results → one_line (tr_Name r) ∧ one_line (tr_Error r)) →
  ∀ e, TeardownError results = Some e → e ≠ "" ∧ forallb (has_prefix TeardownPrefix) (split_lines e) = true.
Proof.
  intros Hone e. rewrite TeardownError_spec. cbn zeta. set (failed := List.filter _ results).
  case_bool_decide as Hf; [done|]. intros [= <-].
  assert (split_lines (join nl (teardown_line <$> failed)) = teardown_line <$> failed) as Hs.
  { apply split_lines_join; [by destruct failed|]. intros l (r & -> & Hr)%list_elem_of_fmap.
    apply list_elem_of_In, filter_In in Hr as [Hr _]. apply list_elem_of_In in Hr.
    destruct (Hone r Hr). by apply teardown_line_one. }
  split.
  - intros He. rewrite He in Hs. destruct failed as [|r l]; [done|]. by destruct l.
  - rewrite Hs. apply forallb_forall. intros l Hl.
    apply list_elem_of_In, list_elem_of_fmap in Hl as (r & -> & _). apply has_prefix_app.
Qed.

(** A text whose first line lacks the prefix. *)
Lemma not_prefixed_first p rest :
  has_prefix TeardownPrefix p = false →
  forallb (has_prefix TeardownPrefix) (split_lines p ++ rest) = false.
Proof.
  intros Hp. destruct (split_lines p) as [|l ls] eqn:E; [by destruct (split_lines_nonempty p)|].
  cbn [app forallb]. assert (has_prefix TeardownPrefix l = false) as ->; [|done].
  apply not_true_iff_false. intros [t ->]%has_prefix_spec. apply not_true_iff_false in Hp. apply Hp.
  assert (∃ t', p = (TeardownPrefix +:+ t) +:+ t') as [t' ->].
  2:{ rewrite str_app_assoc. apply has_prefix_app. }
  clear Hp. revert E. generalize (TeardownPrefix +:+ t). intros l. revert l ls.
  induction p as [|c p IH]; intros l ls; cbn; [intros [= <- <-]; by exists ""|].
  case_bool_decide; [intros [= <- <-]; by eexists|].
  destruct (split_lines p) as [|l' ls'] eqn:E; [by destruct (split_lines_nonempty p)|].
  intros [= <- <-]. destruct (IH _ _ eq_refl) as [t' Ht']. exists t'. cbn. by f_equal.
Qed.

(** ** The phase *)

Lemma seal_group_gate report s np :
  g_stopping (seal_group report s np) = g_stopping s ∧
  g_teardownOpen (seal_group report s np) = g_teardownOpen s ∧
  g_groups (seal_group report s np) = g_groups s.
Proof.
  destruct np as [name pg]. unfold seal_group, recordDropGroup, removeRecordsLocked, recordSurvivor,
    recordUnverified, recordShutdownProblem, recordUnresolved, writeRecordLocked.
  by repeat case_match.
Qed.

Lemma sealGroups_gate report s :
  let s' := sealGroups report s in
  g_stopping s' = true ∧ g_teardownOpen s' = g_teardownOpen s ∧ g_groups s' = ∅.
Proof.
  unfold sealGroups. cbn zeta.
  apply (fold_left_invariant (λ s', g_stopping s' = true ∧ g_teardownOpen s' = g_teardownOpen s ∧
                                    g_groups s' = ∅)); [done|].
  intros s1 np _ (H1 & H2 & H3). destruct (seal_group_gate report s1 np) as (-> & -> & ->). done.
Qed.

Lemma reportPendingReaps_gate pending s :
  let s' := reportPendingReaps pending s in
  g_stopping s' = g_stopping s ∧ g_teardownOpen s' = g_teardownOpen s ∧ g_groups s' = g_groups s.
Proof.
  unfold reportPendingReaps. cbn zeta.
  apply (fold_left_invariant (λ s', g_stopping s' = g_stopping s ∧
     g_teardownOpen s' = g_teardownOpen s ∧ g_groups s' = g_groups s)); [done|].
  intros s1 [n i] _ (H1 & H2 & H3). unfold recordUnverified, recordShutdownProblem, recordUnresolved.
  by repeat case_match.
Qed.

Lemma runTeardownProcess_name p run : tr_Name (runTeardownProcess p run) = pi_name p.
Proof. unfold runTeardownProcess. by repeat case_match. Qed.

Lemma runTeardownProcess_runs p run : tr_Status (runTeardownProcess p run) ≠ TeardownSkipped.
Proof. unfold runTeardownProcess. by repeat case_match. Qed.

Lemma runTeardownProcess_passed p run :
  tr_Status (runTeardownProcess p run) = TeardownPassed ↔
  (int64 (shutdownGrace (p_ShutdownTimeout (pi_proc p)) + teardownMinStart) < td_remaining run)%Z ∧
  ck_ExitCode (td_result run) = Some 0%Z ∧ td_ended run = None.
Proof.
  unfold runTeardownProcess, exitedZeroInTime.
  destruct (Z.leb_spec (td_remaining run)
    (int64 (shutdownGrace (p_ShutdownTimeout (pi_proc p)) + teardownMinStart))) as [Hle|Hlt].
  { split; [done|]. intros [? _]. lia. }
  destruct (bool_decide (ck_ExitCode (td_result run) = Some 0%Z)) eqn:Hc; cbn [negb].
  - apply bool_decide_eq_true in Hc. destruct (td_ended run); cbn; [|naive_solver].
    split; [|by intros (_ & _ & ?)]. by repeat case_match.
  - apply bool_decide_eq_false in Hc. split; [by repeat case_match|]. by intros (_ & ? & _).
Qed.

Lemma runTeardown_names handedOff colorBase order cfg runs exec report pending s :
  tr_Name <$> (runTeardown handedOff colorBase order cfg runs exec report pending s).1 =
  TeardownNames order cfg.
Proof.
  unfold runTeardown. case_bool_decide as Hn; [by rewrite Hn|].
  destruct (negb _); cbn [fst].
  - rewrite <-list_fmap_compose. apply list_fmap_id.
  - rewrite <-list_fmap_compose. apply list_eq. intros i.
    rewrite list_lookup_fmap, list_lookup_imap.
    destruct (TeardownNames order cfg !! i); [|done]. cbn. by rewrite runTeardownProcess_name.
Qed.

(** The teardown phase runs only after a verified stop.  Every configured
    teardown process gets exactly one result, in name order.  With a cleanup
    handoff under way, or any problem recorded, nothing is executed: each is
    reported as skipped with the reason, and only admission is closed.
    Otherwise each of them is run, and when the phase returns its groups are
    all swept and the admission gate is closed for everything. *)
Theorem runTeardown_spec handedOff colorBase order cfg runs exec report pending s :
  let '(results, s') := runTeardown handedOff colorBase order cfg runs exec report pending s in
  tr_Name <$> results = TeardownNames order cfg ∧
  (handedOff = true ∨ ShutdownResult s ≠ None →
     s' = (if bool_decide (TeardownNames order cfg = []) then s else closeAdmission s) ∧
     ∀ r, r ∈ results → tr_Status r = TeardownSkipped ∧
       tr_Error r = if handedOff then TeardownSkipHandoff else TeardownSkipUnverified) ∧
  (handedOff = false → ShutdownResult s = None → TeardownNames order cfg ≠ [] →
     (∀ r, r ∈ results → tr_Status r ≠ TeardownSkipped) ∧
     g_stopping s' = true ∧ g_teardownOpen s' = false ∧ g_groups s' = ∅).
Proof.
  pose proof (runTeardown_names handedOff colorBase order cfg runs exec report pending s) as Hnames.
  destruct (runTeardown _ _ _ _ _ _ _ _ _) as [results s'] eqn:Hrun. cbn [fst] in Hnames.
  split; [done|]. unfold runTeardown in Hrun.
  change (ShutdownResult (closeAdmission s)) with (ShutdownResult s) in Hrun.
  destruct (decide (TeardownNames order cfg = [])) as [Hn|Hn].
  { rewrite bool_decide_eq_true_2 in Hrun |- * by done. injection Hrun as <- <-.
    split; [|done]. intros _. split; [done|]. by intros r ?%elem_of_nil. }
  rewrite bool_decide_eq_false_2 in Hrun |- * by done. split.
  - intros Hwhy.
    assert ((results, s') =
      ((λ name, mkTeardownResult name TeardownSkipped None 0 0
          (if handedOff then TeardownSkipHandoff else TeardownSkipUnverified))
         <$> TeardownNames order cfg, closeAdmission s)) as Heq.
    { rewrite <-Hrun. destruct handedOff; [done|]. destruct Hwhy as [?|Hp]; [done|].
      by destruct (ShutdownResult s). }
    injection Heq as -> ->. split; [done|]. by intros r (name & -> & _)%list_elem_of_fmap.
  - intros -> Hres _. rewrite Hres in Hrun.
    rewrite (bool_decide_eq_false_2 (is_Some (@None string))) in Hrun by (by intros [? ?]).
    rewrite (bool_decide_eq_true_2 (@eq string "" "")) in Hrun by done. cbn [negb] in Hrun.
    injection Hrun as <- <-. split.
    + intros r (p & -> & _)%list_elem_of_fmap. apply runTeardownProcess_runs.
    + destruct (reportPendingReaps_gate pending
        (sealGroups report (set_teardownOpen false (fold_left (λ s p, exec p s)
          (imap (λ i name, mkProcInfo name (proc_at (c_Processes cfg) name)
             (Z.of_nat (colorBase + i)) [] true false) (TeardownNames order cfg))
          (set_teardownOpen true (closeAdmission s)))))) as (-> & -> & ->).
      apply (sealGroups_gate report (set_teardownOpen false _)).
Qed.

(** The published verdict is clean exactly when nothing is left to say: no
    shutdown problem is recorded and every teardown process passed, where a
    teardown process passes exactly when it was started with time to spare for
    its own shutdown, exited zero, and did so before its budget ended. *)
Theorem verdict_clean_exact s (ran : list (procInfo * teardown_run)) :
  endRun_verdict s ((λ pr, runTeardownProcess pr.1 pr.2) <$> ran) = None ↔
  g_problems s = [] ∧
  ∀ p run, (p, run) ∈ ran →
    (int64 (shutdownGrace (p_ShutdownTimeout (pi_proc p)) + teardownMinStart) < td_remaining run)%Z ∧
    ck_ExitCode (td_result run) = Some 0%Z ∧ td_ended run = None.
Proof.
  unfold endRun_verdict. rewrite TeardownError_spec. cbn zeta. unfold ShutdownResult.
  set (failed := List.filter _ _).
  assert (failed = [] ↔ ∀ p run, (p, run) ∈ ran →
    tr_Status (runTeardownProcess p run) = TeardownPassed) as Hf.
  { unfold failed. clear failed. induction ran as [|[p run] ran IH].
    - split; [|done]. intros _ p run ?%elem_of_nil. done.
    - rewrite fmap_cons. cbn [List.filter fst snd].
      destruct (bool_decide (tr_Status (runTeardownProcess p run) = TeardownPassed)) eqn:E; cbn [negb].
      + apply bool_decide_eq_true in E. rewrite IH. split.
        * intros H p' run' [[= -> ->]|Hin]%elem_of_cons; auto.
        * intros H p' run' Hin. apply H. by apply list_elem_of_further.
      + apply bool_decide_eq_false in E. split; [done|].
        intros H. destruct E. apply H, list_elem_of_here. }
  assert ((∀ p run, (p, run) ∈ ran → tr_Status (runTeardownProcess p run) = TeardownPassed) ↔
    ∀ p run, (p, run) ∈ ran →
    (int64 (shutdownGrace (p_ShutdownTimeout (pi_proc p)) + teardownMinStart) < td_remaining run)%Z ∧
    ck_ExitCode (td_result run) = Some 0%Z ∧ td_ended run = None) as Hp.
  { split; intros H p run Hin; apply runTeardownProcess_passed, H, Hin. }
  rewrite <-Hp, <-Hf. do 2 case_bool_decide; cbn [errors_join]; naive_solver.
Qed.

(** ** The client's reading of the verdict *)

Lemma split_problems problems :
  problems ≠ [] → (∀ p, p ∈ problems → has_prefix TeardownPrefix p = false) →
  ∀ rest, forallb (has_prefix TeardownPrefix) (split_lines (join nl problems) ++ rest) = false.
Proof.
  destruct problems as [|p ps]; [done|]. intros _ Hp rest.
  pose proof (Hp p (list_elem_of_here _ _)) as Hpre. destruct ps as [|p2 ps]; [by apply not_prefixed_first|].
  change (join nl (p :: p2 :: ps)) with (p +:+ nl +:+ join nl (p2 :: ps)).
  rewrite split_lines_app, <-app_assoc. by apply not_prefixed_first.
Qed.

(** The client tells a stop whose only failures are teardown processes from
    one that was not verified by the prefix of the verdict's lines, and it is
    right whenever no shutdown problem starts with that prefix and every
    teardown process's name and error is one line. *)
Theorem teardownOnly_exact s results v :
  endRun_verdict s results = Some v →
  (∀ p, p ∈ g_problems s → has_prefix TeardownPrefix p = false) →
  (∀ r, r ∈ results → one_line (tr_Name r) ∧ one_line (tr_Error r)) →
  teardownOnly v = true ↔ ShutdownResult s = None.
Proof.
  intros Hv Hp Hone. unfold endRun_verdict in Hv. unfold ShutdownResult in *.
  pose proof (forallb_prefixed results Hone) as Hpre. unfold teardownOnly.
  case_bool_decide as Hnil.
  - destruct (TeardownError results) as [e|]; [|done]. destruct (Hpre e eq_refl) as [Hne Hall].
    injection Hv as <-. rewrite bool_decide_eq_false_2 by done. by rewrite Hall.
  - split; [|done]. pose proof (split_problems _ Hnil Hp) as Hno.
    destruct (bool_decide (v = "")); [done|].
    destruct (TeardownError results) as [e|].
    + change (Some (join nl (g_problems s) +:+ nl +:+ e) = Some v) in Hv. apply (inj Some) in Hv as <-.
      rewrite split_lines_app, Hno. done.
    + change (Some (join nl (g_problems s)) = Some v) in Hv. apply (inj Some) in Hv as <-.
      specialize (Hno []). rewrite app_nil_r in Hno. by rewrite Hno.
Qed.

(** ** Two ways the client is wrong *)

Definition chatty_failure : CheckResult :=
  mkCheckResult true 1 42 0 10 (Some 1%Z) None "" ("cannot drop database" +:+ nl +:+ "still in use")
    false false None false.

Definition teardown_proc (name : string) : procInfo := mkProcInfo name zero_process 0 [] true false.

Definition chatty_teardown : TeardownResult :=
  runTeardownProcess (teardown_proc "dropdb") (mkTeardownRun (15 * Second) chatty_failure None "15s").

Definition empty_gstate : gstate := mkG ∅ [] false [] [] [] false false false 0.

(** A teardown process that fails with two lines on its standard error
    makes a verified stop look unverified to the client: the second line of
    the verdict has no prefix. *)
Theorem teardown_stderr_misread :
  ShutdownResult empty_gstate = None ∧ tr_Status chatty_teardown = TeardownFailed ∧
  ∃ v, endRun_verdict empty_gstate [chatty_teardown] = Some v ∧ teardownOnly v = false.
Proof.
  split; [done|]. split; [vm_compute; reflexivity|]. eexists. split; [vm_compute; reflexivity|].
  vm_compute. reflexivity.
Qed.

(** A managed process named "teardown", a valid name, whose leader was not
    reaped makes an unverified stop look verified to the client: the problem
    line begins with the prefix of a teardown failure. *)
Theorem process_named_teardown_misread :
  processNameRe "teardown" = true ∧
  let s := reportPendingReaps [("teardown", "123")] empty_gstate in
  ShutdownResult s ≠ None ∧
  ∃ v, endRun_verdict s [] = Some v ∧ teardownOnly v = true.
Proof.
  split; [vm_compute; reflexivity|]. split; [vm_compute; discriminate|].
  eexists. split; [vm_compute; reflexivity|]. vm_compute. reflexivity.
Qed.

(** ** Witnesses *)

Lemma capture_bounded_witness :
  let b := captured 10 ["hello"; "world wide"] in
  (str_len (cb_data b) ≤ 10)%Z ∧
  ∃ rest, written ["hello"; "world wide"] = cb_data b +:+ rest ∧ (cb_truncated b = false ↔ rest = "") ∧
    (rest ≠ "" → (∃ before, cb_data b = written before) ∨ continuation rest 0 = false).
Proof. apply (capture_bounded 10 ["hello"; "world wide"]). lia. Defined.

Definition quiet_teardown : TeardownResult :=
  mkTeardownResult "dropdb" TeardownTimedOut None 0 10 "still running".

Lemma teardownOnly_exact_witness :
  teardownOnly "teardown: dropdb timed_out: still running" = true ↔ ShutdownResult empty_gstate = None.
Proof.
  apply (teardownOnly_exact empty_gstate [quiet_teardown]).
  - vm_compute. reflexivity.
  - intros p H. by apply elem_of_nil in H.
  - intros r H. apply elem_of_cons in H as [->|H]; [|by apply elem_of_nil in H].
    split; vm_compute; reflexivity.
Defined.
