(* ===== verification/Recovery.v ===== *)
(** * Recovery of the process groups of a crashed daemon

    [RecoverGroups] decides, for every process group a crashed daemon recorded,
    whether it is empty, ours or unknown, and ends the ones it proves ours.
    Between any two system calls every process of the machine may fork, exit,
    be reaped, change its group, or be replaced by another one with the same
    pid: the kernel is one state per system call, with the call's failure if it
    fails.  A pidfd names a process, not a pid.  This is the Linux build. *)

From S2P Require Import Prelude GoStrings Groups.

(** ** The machine *)

(** A process that has not been reaped.  It has an identity of its own, the key
    it is stored under. *)
Record kproc : Type := mkKproc {
  kp_pid : Z;
  kp_pgid : Z;
  kp_start : Z;
  kp_state : ascii;
  kp_tasks : nat;
}.

(** How a call fails.  A file of procfs that is missing or hidden is
    [ENOENT]. *)
Inductive errno : Type := ESRCH | EPERM | ENOSYS | ENOENT | EBADF | ENOTSUP | EIO.

#[export] Instance errno_eq_dec : EqDecision errno.
Proof. solve_decision. Defined.

(** Source: internal/daemon/daemon.go:29-36 (Host). *)
Record Host : Type := mkHost {
  ho_BootID : string;
  ho_PIDNS : string;
  ho_TimeNS : string;
}.

(** The calls that may fail. *)
Inductive kcall : Type := COpen (pid : Z) | CSend (fd : nat) | CStat (pid : Z) | CTasks (pid : Z) | CKill (pid : Z).

(** At the [n]-th system call: the processes, the failure the call meets, what
    [/proc] lists, and the clock.  The rest does not change. *)
Record world : Type := mkWorld {
  w_kernel : nat → gmap nat kproc;
  w_fault : nat → kcall → option errno;
  w_listing : nat → option (list Z);
  w_now : nat → Z;
  w_self : Z;
  w_pgrp : Z;
  w_host : Host;
  w_procOwn : bool;
}.

(** The calls made so far, the open pidfds and the processes they name, and
    every signal delivered: when, to which process, and what. *)
Record kstate : Type := mkK {
  k_t : nat;
  k_fds : gmap nat nat;
  k_next : nat;
  k_sent : list (nat * nat * string);
}.

Definition sys (A : Type) : Type := world → kstate → A * kstate.
#[export] Instance sys_ret : MRet sys := λ A a w s, (a, s).
#[export] Instance sys_bind : MBind sys := λ A B f m w s, let '(a, s) := m w s in f a w s.

Definition tick (s : kstate) : kstate := mkK (S (k_t s)) (k_fds s) (k_next s) (k_sent s).

(** What a call sees. *)
Definition observe {A} (f : world → nat → A) : sys A := λ w s, (f w (k_t s), tick s).

Definition find_pid (k : gmap nat kproc) (pid : Z) : option (nat * kproc) :=
  List.find (λ x, (kp_pid x.2 =? pid)%Z) (map_to_list k).

(** [pidfd_open] *)
Definition pidfdOpen (pid : Z) : sys (res errno nat) := λ w s,
  match w_fault w (k_t s) (COpen pid), find_pid (w_kernel w (k_t s)) pid with
  | Some e, _ => (Err e, tick s)
  | None, None => (Err ESRCH, tick s)
  | None, Some (p, _) =>
      (Ok (k_next s), mkK (S (k_t s)) (<[k_next s := p]> (k_fds s)) (S (k_next s)) (k_sent s))
  end.

(** [pidfd_send_signal]: [""] is signal 0.  A process that is not reaped accepts
    it. *)
Definition pidfdSend (fd : nat) (sig : string) : sys (option errno) := λ w s,
  match w_fault w (k_t s) (CSend fd), k_fds s !! fd with
  | Some e, _ => (Some e, tick s)
  | None, None => (Some EBADF, tick s)
  | None, Some p =>
      match w_kernel w (k_t s) !! p with
      | None => (Some ESRCH, tick s)
      | Some _ => (None, mkK (S (k_t s)) (k_fds s) (k_next s)
                     (k_sent s ++ (if bool_decide (sig = "") then [] else [(k_t s, p, sig)])))
      end
  end.

Definition close_fd (fd : nat) : sys unit := λ w s,
  (tt, mkK (S (k_t s)) (delete fd (k_fds s)) (k_next s) (k_sent s)).

(** [kill(-pgid, 0)]: a fault is a permission that is missing. *)
Definition groupKill (pgid : Z) : sys (option errno) := observe (λ w t,
  if existsb (λ x, (kp_pgid x.2 =? pgid)%Z) (map_to_list (w_kernel w t))
  then match w_fault w t (CKill (- pgid)) with Some _ => Some EPERM | None => None end
  else Some ESRCH).

(** Source: internal/daemon/daemon.go:51-56 (ProcInfo). *)
Record ProcInfo : Type := mkProcInfo_ {
  in_State : ascii;
  in_PGID : Z;
  in_StartTime : Z;
}.

(** *** [/proc/<pid>/stat] *)

(** [strings.Fields] on text whose spaces are single bytes: the word the text
    starts with, and the following ones. *)
Fixpoint split_fields (s : string) : string * list string :=
  match s with
  | EmptyString => ("", [])
  | String c t =>
      let '(word, words) := split_fields t in
      if space1 c then ("", if bool_decide (word = "") then words else word :: words)
      else (String c word, words)
  end.

Definition Fields (s : string) : list string :=
  let '(word, words) := split_fields s in if bool_decide (word = "") then words else word :: words.

(** Source: internal/daemon/daemon_unix.go:91-111 (ProcStat, parse). *)
Definition parse_stat (data : string) : option ProcInfo :=
  match cut_last ")"%char data with
  | None | Some (_, EmptyString) => None
  | Some (_, String _ rest) =>
      let rest := Fields rest in
      if length rest <? 20 then None
      else
        st ← rest !! 0; state ← String.get 0 st;
        pgid ← rest !! 2 ≫= atoi;
        start ← rest !! 19 ≫= parse_uint64;
        Some (mkProcInfo_ state pgid start)
  end.

(** The file is read in one call, and parses ([parse_stat_line]).
    Source: internal/daemon/daemon_unix.go:80-90 (ProcStat). *)
Definition ProcStat (pid : Z) : sys (res errno ProcInfo) := observe (λ w t,
  match w_fault w t (CStat pid), find_pid (w_kernel w t) pid with
  | Some e, _ => Err e
  | None, None => Err ENOENT
  | None, Some (_, p) => Ok (mkProcInfo_ (kp_state p) (kp_pgid p) (kp_start p))
  end).

(** Source: internal/runner/recover_unix.go:528-532 (countProcTasks). *)
Definition countProcTasks (pid : Z) : sys (res errno nat) := observe (λ w t,
  match w_fault w t (CTasks pid), find_pid (w_kernel w t) pid with
  | Some e, _ => Err e
  | None, None => Err ENOENT
  | None, Some (_, p) => Ok (kp_tasks p)
  end).

Definition listing : sys (option (list Z)) := observe w_listing.
Definition now : sys Z := observe w_now.
Definition sleep : sys unit := observe (λ _ _, tt).

Fixpoint mapM_sys {A B} (f : A → sys B) (l : list A) : sys (list B) :=
  match l with
  | [] => mret []
  | x :: l => y ← f x; ys ← mapM_sys f l; mret (y :: ys)
  end.

(** ** Membership *)

(** Source: internal/daemon/daemon.go:58-64 (ExitedState). *)
Definition ExitedState (state : ascii) : bool :=
  bool_decide (state = "Z"%char) || bool_decide (state = "X"%char) || bool_decide (state = "x"%char).

(** Source: internal/runner/processgroup_unix.go:268-274 (isZombieState). *)
Definition isZombieState (state : ascii) : bool := ExitedState state.

(** Source: internal/runner/recover_unix.go:515-526 (recoveryLive). *)
Definition recoveryLive (pid : Z) (state : ascii) : sys bool :=
  if negb (isZombieState state) then mret true
  else
    n ← countProcTasks pid;
    mret (match n with Err _ => true | Ok n => 1 <? n end).

(** Source: internal/runner/processgroup_linux.go:77-84 (procStat). *)
Definition procStat (pid : Z) : sys (option (Z * ascii)) :=
  r ← ProcStat pid;
  mret (match r with Ok info => Some (in_PGID info, in_State info) | Err _ => None end).

(** One entry: the member it is, if any.
    Source: internal/runner/processgroup_linux.go:62-72 (walkGroupMembers, entry). *)
Definition walk_entry (pgid : Z) (live : Z → ascii → sys bool) (pid : Z) : sys (list Z) :=
  r ← procStat pid;
  match r with
  | None => mret []
  | Some (gid, state) =>
      if negb (gid =? pgid)%Z then mret []
      else alive ← live pid state; mret (if alive : bool then [pid] else [])
  end.

(** The entries whose names are positive numbers are the listing.
    Source: internal/runner/processgroup_linux.go:52-75 (walkGroupMembers). *)
Definition walkGroupMembers (pgid : Z) (live : Z → ascii → sys bool) : sys (option (list Z)) :=
  entries ← listing;
  match entries with
  | None => mret None
  | Some pids => members ← mapM_sys (walk_entry pgid live) (List.filter (λ pid, (0 <? pid)%Z) pids);
                 mret (Some (mjoin members))
  end.

(** Source: internal/runner/processgroup_linux.go:40-40 (recoveryMemberPIDs). *)
Definition recoveryMemberPIDs (pgid : Z) : sys (option (list Z)) := walkGroupMembers pgid recoveryLive.

(** Source: internal/runner/processgroup_linux.go:42-46 (recoveryGroupHolders). *)
Definition recoveryGroupHolders (pgid : Z) : sys (option nat) :=
  r ← walkGroupMembers pgid (λ _ _, mret true);
  mret (length <$> r).

(** What a probe concludes.  [ProvenEmpty] and [Members l] are known. *)
Inductive probe_result : Type := ProvenEmpty | Members (pids : list Z) | NotKnown.

(** One scan: the conclusion, or none.
    Source: internal/runner/recover_unix.go:496-505 (groupProvenEmpty, scan). *)
Definition empty_scan (pgid : Z) (hiddenMember : bool) : sys (option probe_result) :=
  r ← recoveryMemberPIDs pgid;
  mret (match r with
        | None => Some NotKnown
        | Some [] => if hiddenMember then Some NotKnown else None
        | Some pids => Some (Members pids)
        end).

(** Source: internal/runner/recover_unix.go:466-513 (groupProvenEmpty). *)
Definition groupProvenEmpty (pgid : Z) : sys probe_result :=
  if (pgid <=? 1)%Z then mret NotKnown
  else
    probe ← groupKill pgid;
    if bool_decide (probe = Some ESRCH) then mret ProvenEmpty
    else
      let hiddenMember := bool_decide (probe = Some EPERM) in
      first ← empty_scan pgid hiddenMember;
      match first with
      | Some r => mret r
      | None =>
          _ ← sleep;
          second ← empty_scan pgid hiddenMember;
          match second with
          | Some r => mret r
          | None =>
              if bool_decide (probe = None) then
                n ← recoveryGroupHolders pgid;
                mret (match n with Some (S _) => ProvenEmpty | _ => NotKnown end)
              else mret ProvenEmpty
          end
      end.

(** ** Recovered groups *)

(** Source: internal/runner/processgroup.go:337-349 (RecoveryMode). *)
Inductive RecoveryMode : Type := RecoverGraceful | RecoverForce | RecoverAssessOnly.

#[export] Instance RecoveryMode_eq_dec : EqDecision RecoveryMode.
Proof. solve_decision. Defined.

(** Source: internal/runner/processgroup.go:351-357 (outcomes). *)
Inductive Outcome : Type := OutcomeNone | OutcomeEmpty | OutcomeTerminated | OutcomeUnknown | OutcomeLive.

#[export] Instance Outcome_eq_dec : EqDecision Outcome.
Proof. solve_decision. Defined.

(** Source: internal/daemon/daemon.go:38-49 (Group). *)
Record Group : Type := mkGroup {
  g_Name : string;
  g_PGID : Z;
  g_LeaderStart : Z;
}.

(** A pidfd and the pid it was opened for.
    Source: internal/runner/recover_unix.go:41-46 (pinnedProcess). *)
Record pinnedProcess : Type := mkPin {
  pin_fd : nat;
  pin_pid : Z;
}.

(** With the fields of [RecoveredGroup] that are used.
    Source: internal/runner/recover_unix.go:48-55 (recovery). *)
Record recovery : Type := mkRecovery {
  r_Name : string;
  r_PGID : Z;
  r_LeaderStart : Z;
  r_State : GroupState;
  r_Outcome : Outcome;
  r_Reason : string;
  r_Signals : list string;
  r_PIDs : list Z;
  r_LiveMembers : nat;
  r_leader : option nat;
  r_pins : list pinnedProcess;
  r_proven : bool;
  r_emptied : bool;
}.

Definition new_recovery (g : Group) : recovery :=
  mkRecovery (g_Name g) (g_PGID g) (g_LeaderStart g) GroupEmpty OutcomeNone "" [] [] 0 None [] false false.

Definition set_verdict (st : GroupState) (o : Outcome) (reason : string) (r : recovery) : recovery :=
  mkRecovery (r_Name r) (r_PGID r) (r_LeaderStart r) st o reason (r_Signals r) (r_PIDs r) (r_LiveMembers r)
    (r_leader r) (r_pins r) (r_proven r) (r_emptied r).
(** [r.PIDs, r.LiveMembers = pids, len(pids)] *)
Definition set_members (pids : list Z) (r : recovery) : recovery :=
  mkRecovery (r_Name r) (r_PGID r) (r_LeaderStart r) (r_State r) (r_Outcome r) (r_Reason r) (r_Signals r)
    pids (length pids) (r_leader r) (r_pins r) (r_proven r) (r_emptied r).
Definition set_handles (leader : option nat) (pins : list pinnedProcess) (r : recovery) : recovery :=
  mkRecovery (r_Name r) (r_PGID r) (r_LeaderStart r) (r_State r) (r_Outcome r) (r_Reason r) (r_Signals r)
    (r_PIDs r) (r_LiveMembers r) leader pins (r_proven r) (r_emptied r).
Definition set_proven (r : recovery) : recovery :=
  mkRecovery (r_Name r) (r_PGID r) (r_LeaderStart r) (r_State r) (r_Outcome r) "leader_proven" (r_Signals r)
    [] 0 (r_leader r) (r_pins r) true (r_emptied r).
Definition set_emptied (r : recovery) : recovery :=
  mkRecovery (r_Name r) (r_PGID r) (r_LeaderStart r) (r_State r) (r_Outcome r) (r_Reason r) (r_Signals r)
    (r_PIDs r) (r_LiveMembers r) (r_leader r) (r_pins r) (r_proven r) true.
(** [r.emptied, r.LiveMembers = true, 0] *)
Definition set_ended (r : recovery) : recovery :=
  mkRecovery (r_Name r) (r_PGID r) (r_LeaderStart r) (r_State r) (r_Outcome r) (r_Reason r) (r_Signals r)
    (r_PIDs r) 0 (r_leader r) (r_pins r) (r_proven r) true.
Definition set_signalled (signals : list string) (pids : list Z) (r : recovery) : recovery :=
  mkRecovery (r_Name r) (r_PGID r) (r_LeaderStart r) (r_State r) (r_Outcome r) (r_Reason r) signals
    pids (r_LiveMembers r) (r_leader r) (r_pins r) (r_proven r) (r_emptied r).

(** Source: internal/runner/recover_unix.go:534-544 (recovery.finish). *)
Definition finish (outcome : Outcome) (reason : string) (r : recovery) : recovery :=
  set_verdict
    (if bool_decide (outcome = OutcomeEmpty) || bool_decide (outcome = OutcomeTerminated) then GroupEmpty
     else if 0 <? r_LiveMembers r then GroupOwned else GroupUnavailable) outcome reason r.

(** Source: internal/runner/recover_unix.go:556-560 (closePins). *)
Definition closePins (pins : list pinnedProcess) : sys unit :=
  _ ← mapM_sys (λ p, close_fd (pin_fd p)) pins; mret tt.

(** Source: internal/runner/recover_unix.go:546-554 (recovery.release). *)
Definition release (r : recovery) : sys recovery :=
  _ ← match r_leader r with Some fd => close_fd fd | None => mret tt end;
  _ ← closePins (r_pins r);
  mret (set_handles None [] r).

(** [""] is proven.
    Source: internal/runner/recover_unix.go:299-320 (recovery.leaderIdentity). *)
Definition leaderIdentity (r : recovery) : sys string :=
  st ← ProcStat (r_PGID r);
  mret (match st with
        | Err e => if bool_decide (e = ENOENT) then "leader_gone"
                   else if bool_decide (e = ENOTSUP) then "leader_start_unknown" else "enumeration_failed"
        | Ok info => if negb (in_StartTime info =? r_LeaderStart r)%Z then "pgid_reused"
                     else if negb (in_PGID info =? r_PGID r)%Z then "leader_left_group" else ""
        end).

(** Source: internal/runner/recover_unix.go:322-343 (recovery.finishUnproven). *)
Definition finishUnproven (reason : string) (r : recovery) : sys recovery :=
  r ← release r;
  if bool_decide (reason = "pgid_reused") then mret (finish OutcomeEmpty reason (set_members [] r))
  else
    e ← groupProvenEmpty (r_PGID r);
    mret (match e with
          | ProvenEmpty => finish OutcomeEmpty "no_members" (set_members [] r)
          | NotKnown => finish OutcomeUnknown "enumeration_failed" r
          | Members pids => finish OutcomeUnknown reason (set_members pids r)
          end).

(** One member: its pin, or none.
    Source: internal/runner/recover_unix.go:356-370 (pinMembers, loop body). *)
Definition pin_member (pgid : Z) (have : list pinnedProcess) (pid : Z) : sys (list pinnedProcess) := λ w,
  (if (pid =? w_self w)%Z || existsb (λ p, (pin_pid p =? pid)%Z) have then mret []
   else
     o ← pidfdOpen pid;
     match o with
     | Err _ => mret []
     | Ok fd =>
         st ← ProcStat pid;
         ok ← match st with
              | Err _ => mret false
              | Ok info => if negb (in_PGID info =? pgid)%Z then mret false
                           else live ← recoveryLive pid (in_State info);
                                if negb live then mret false
                                else e ← pidfdSend fd ""; mret (bool_decide (e = None))
              end;
         if ok : bool then mret [mkPin fd pid] else _ ← close_fd fd; mret []
     end) w.

(** Source: internal/runner/recover_unix.go:345-372 (pinMembers). *)
Definition pinMembers (pgid : Z) (have : list pinnedProcess) : sys (option (list pinnedProcess)) :=
  pids ← recoveryMemberPIDs pgid;
  match pids with
  | None => mret None
  | Some pids => pins ← mapM_sys (pin_member pgid have) pids; mret (Some (mjoin pins))
  end.

(** The identity check once the pidfd pins the leader, and the pinning of its
    members; [None] continues with no conclusion.
    Source: internal/runner/recover_unix.go:271-296 (recovery.classify, pinning). *)
Definition classify_pin (r : recovery) (lfd : nat) : sys (bool * recovery) :=
  reason ← leaderIdentity r;
  if negb (bool_decide (reason = "")) then r ← finishUnproven reason r; mret (false, r)
  else
    e ← pidfdSend lfd "";
    if negb (bool_decide (e = None)) then r ← finishUnproven "leader_gone" r; mret (false, r)
    else
      pins ← pinMembers (r_PGID r) [];
      match pins with
      | None => mret (false, finish OutcomeUnknown "enumeration_failed" r)
      | Some pins =>
          e ← pidfdSend lfd "";
          if negb (bool_decide (e = None)) then
            _ ← closePins pins;
            r ← finishUnproven "leader_gone" r; mret (false, r)
          else mret (true, set_proven (set_handles (Some lfd) pins r))
      end.

(** Source: internal/runner/recover_unix.go:240-296 (recovery.classify, identity). *)
Definition classify_identity (mode : RecoveryMode) (r : recovery) : sys (bool * recovery) := λ w,
  (if (r_LeaderStart r =? 0)%Z then mret (false, finish OutcomeUnknown "leader_start_unknown" r)
   else
     reason ← leaderIdentity r;
     if negb (bool_decide (reason = "")) then r ← finishUnproven reason r; mret (false, r)
     else if (r_PGID r =? w_pgrp w)%Z then mret (false, finish OutcomeUnknown "own_group" r)
     else if bool_decide (mode = RecoverAssessOnly) then mret (false, finish OutcomeLive "leader_proven" r)
     else
       lfd ← pidfdOpen (r_PGID r);
       match lfd with
       | Err e => if bool_decide (e = ESRCH) then r ← finishUnproven "leader_gone" r; mret (false, r)
                  else mret (false, finish OutcomeUnknown "signal_unavailable" r)
       | Ok lfd => classify_pin (set_handles (Some lfd) (r_pins r) r) lfd
       end) w.

(** Source: internal/runner/recover_unix.go:215-297 (recovery.classify). *)
Definition classify (mode : RecoveryMode) (r : recovery) : sys (bool * recovery) :=
  if (r_PGID r =? 0)%Z then mret (false, finish OutcomeUnknown "launch_pending" r)
  else if (r_PGID r <=? 1)%Z then mret (false, finish OutcomeUnknown "invalid_pgid" r)
  else
    e ← groupProvenEmpty (r_PGID r);
    match e with
    | ProvenEmpty => mret (false, finish OutcomeEmpty "no_members" r)
    | NotKnown => mret (false, finish OutcomeUnknown "enumeration_failed" r)
    | Members pids => classify_identity mode (set_members pids r)
    end.

(** The pins that still answer; the others are closed.
    Source: internal/runner/recover_unix.go:379-387 (recovery.repin, loop). *)
Fixpoint keep_alive (pins : list pinnedProcess) : sys (list pinnedProcess) :=
  match pins with
  | [] => mret []
  | p :: pins =>
      e ← pidfdSend (pin_fd p) "";
      if bool_decide (e = None) then alive ← keep_alive pins; mret (p :: alive)
      else _ ← close_fd (pin_fd p); keep_alive pins
  end.

(** Source: internal/runner/recover_unix.go:374-397 (recovery.repin). *)
Definition repin (r : recovery) : sys recovery :=
  alive ← keep_alive (r_pins r);
  let r := set_handles (r_leader r) alive r in
  match r_leader r with
  | None => mret r
  | Some lfd =>
      e ← pidfdSend lfd "";
      if negb (bool_decide (e = None)) then mret r
      else
        reason ← leaderIdentity r;
        if negb (bool_decide (reason = "")) then mret r
        else
          fresh ← pinMembers (r_PGID r) alive;
          match fresh with
          | None => mret r
          | Some fresh =>
              e ← pidfdSend lfd "";
              if negb (bool_decide (e = None)) then _ ← closePins fresh; mret r
              else mret (set_handles (Some lfd) (alive ++ fresh) r)
          end
  end.

(** The pids that accepted the signal.
    Source: internal/runner/recover_unix.go:402-410 (recovery.signal, loop). *)
Fixpoint signal_pins (sig : string) (pins : list pinnedProcess) : sys (list Z) :=
  match pins with
  | [] => mret []
  | p :: pins =>
      e ← pidfdSend (pin_fd p) sig;
      rest ← signal_pins sig pins;
      mret ((if bool_decide (e = None) then [pin_pid p] else []) ++ rest)
  end.

(** Source: internal/runner/recover_unix.go:399-414 (recovery.signal). *)
Definition signal (sig : string) (r : recovery) : sys recovery :=
  delivered ← signal_pins sig (r_pins r);
  mret (set_signalled (r_Signals r ++ (if bool_decide (delivered = []) then [] else [sig]))
          (fold_left (λ pids pid, if bool_decide (pid ∈ pids) then pids else pids ++ [pid]) delivered (r_PIDs r)) r).

(** Source: internal/runner/recover_unix.go:562-569 (allPinned). *)
Definition allPinned (pids : list Z) (pins : list pinnedProcess) : bool :=
  forallb (λ pid, existsb (λ p, (pin_pid p =? pid)%Z) pins) pids.

(** Source: internal/runner/recover_unix.go:416-443 (recovery.conclude). *)
Definition conclude (r : recovery) : sys recovery :=
  e ← (if r_emptied r then mret ProvenEmpty else groupProvenEmpty (r_PGID r));
  mret (match e with
        | ProvenEmpty =>
            let r := set_ended r in
            if 0 <? length (r_Signals r) then finish OutcomeTerminated (r_Reason r) r
            else finish OutcomeEmpty "no_members" r
        | NotKnown => finish OutcomeUnknown "enumeration_failed" (set_members [] r)
        | Members pids =>
            let r := set_members pids r in
            finish OutcomeUnknown (if allPinned pids (r_pins r) then "survived_sigkill" else "unproven_members") r
        end).

(** One group polled; the flag tells that it is not empty.
    Source: internal/runner/recover_unix.go:452-457 (awaitEmpty, poll). *)
Definition poll_one (awaited : recovery → bool) (r : recovery) : sys (recovery * bool) :=
  if awaited r && negb (r_emptied r) then
    e ← groupProvenEmpty (r_PGID r);
    mret (match e with ProvenEmpty => (set_emptied r, false) | _ => (r, true) end)
  else mret (r, false).

(** Source: internal/runner/recover_unix.go:450-458 (awaitEmpty, round). *)
Fixpoint poll_round (awaited : recovery → bool) (rs : list recovery) : sys (list recovery * bool) :=
  match rs with
  | [] => mret ([], false)
  | r :: rs =>
      x ← poll_one awaited r;
      rest ← poll_round awaited rs;
      mret (x.1 :: rest.1, x.2 || rest.2)
  end.

(** One round per poll: the deadline passes after a bounded number of sleeps.
    Source: internal/runner/recover_unix.go:445-464 (awaitEmpty). *)
Fixpoint awaitEmpty (polls : nat) (awaited : recovery → bool) (deadline : Z) (rs : list recovery) : sys (list recovery) :=
  x ← poll_round awaited rs;
  let '(rs, pending) := x in
  if negb pending then mret rs
  else
    t ← now;
    if negb (t <? deadline)%Z then mret rs
    else
      match polls with
      | O => mret rs
      | S polls => _ ← sleep; awaitEmpty polls awaited deadline rs
      end.

(** Source: internal/runner/recover_unix.go:121-145 (hostVerdict). *)
Definition hostVerdict (host : Host) : world → option (Outcome * string) := λ w,
  let current := w_host w in
  let set x := negb (bool_decide (x = "")) in
  if negb (set (ho_BootID host)) || negb (set (ho_BootID current)) then Some (OutcomeUnknown, "boot_unknown")
  else if negb (bool_decide (ho_BootID host = ho_BootID current)) then Some (OutcomeEmpty, "rebooted")
  else if negb (bool_decide (ho_PIDNS host = ho_PIDNS current)) || negb (bool_decide (ho_TimeNS host = ho_TimeNS current))
          || negb (w_procOwn w) then Some (OutcomeUnknown, "namespace_mismatch")
  else None.

(** Every process ends within this after a SIGKILL, in nanoseconds.
    Source: internal/runner/processgroup.go:159-162 (killSettle). *)
Definition killSettle : Z := 2 * 10 ^ 9.

Definition on_proven (f : recovery → sys recovery) (rs : list recovery) : sys (list recovery) :=
  mapM_sys (λ r, if r_proven r then f r else mret r) rs.

(** The phases after classification.
    Source: internal/runner/recover_unix.go:98-117 (RecoverGroups, signalling). *)
Definition end_groups (polls : nat) (mode : RecoveryMode) (deadline : Z) (rs : list recovery) : sys (list recovery) :=
  rs ← (if bool_decide (mode = RecoverGraceful) then
          rs ← on_proven (signal "SIGTERM") rs; awaitEmpty polls r_proven deadline rs
        else mret rs);
  rs ← on_proven (λ r, if r_emptied r then mret r else r ← repin r; signal "SIGKILL" r) rs;
  t ← now;
  rs ← awaitEmpty polls r_proven (t + killSettle) rs;
  on_proven conclude rs.

(** What is reported of a group.
    Source: internal/runner/processgroup.go:359-380 (RecoveredGroup). *)
Record RecoveredGroup : Type := mkRecovered {
  rg_Name : string;
  rg_PGID : Z;
  rg_State : GroupState;
  rg_LeaderStart : Z;
  rg_Outcome : Outcome;
  rg_Reason : string;
  rg_Signals : list string;
  rg_PIDs : list Z;
  rg_LiveMembers : nat;
}.

Definition recovered (r : recovery) : RecoveredGroup :=
  mkRecovered (r_Name r) (r_PGID r) (r_State r) (r_LeaderStart r) (r_Outcome r) (r_Reason r) (r_Signals r)
    (merge_sort Z.le (r_PIDs r)) (r_LiveMembers r).

Definition rg_le (x y : RecoveredGroup) : Prop :=
  if bool_decide (rg_Name x = rg_Name y) then (rg_PGID x ≤ rg_PGID y)%Z else str_le (rg_Name x) (rg_Name y).

#[export] Instance rg_le_dec : RelDecision rg_le.
Proof. intros x y. unfold rg_le. case_bool_decide; apply _. Defined.

(** Source: internal/runner/recover_unix.go:571-584 (recoveryResults). *)
Definition recoveryResults (rs : list recovery) : list RecoveredGroup := merge_sort rg_le (recovered <$> rs).

(** Source: internal/runner/recover_unix.go:57-119 (RecoverGroups). *)
Definition RecoverGroups (polls : nat) (groups : list Group) (host : Host) (mode : RecoveryMode) (deadline : Z)
    : sys (list RecoveredGroup) := λ w,
  (let rs := new_recovery <$> groups in
   match hostVerdict host w with
   | Some (outcome, reason) =>
       let rs := finish outcome reason <$> rs in
       _ ← mapM_sys release rs; mret (recoveryResults rs)
   | None =>
       classified ← mapM_sys (classify mode) rs;
       let rs := classified.*2 in
       rs ← (if bool_decide (mode = RecoverAssessOnly) || negb (existsb fst classified) then mret rs
             else end_groups polls mode deadline rs);
       _ ← mapM_sys release rs;
       mret (recoveryResults rs)
   end) w.

(** Source: internal/runner/recover_unix.go:147-175 (recordedGroupOf). *)
Definition recordedGroupOf (pid : Z) (groups : list Group) (host : Host) : sys (option Group) := λ w,
  (if (pid <=? 0)%Z || bool_decide (length groups = 0) then mret None
   else match hostVerdict host w with
        | Some _ => mret None
        | None =>
            info ← ProcStat pid;
            match info with
            | Err _ => mret None
            | Ok info =>
                if (in_PGID info <=? 1)%Z then mret None
                else (fix search groups := match groups with
                      | [] => mret None
                      | g :: groups =>
                          if negb (g_PGID g =? in_PGID info)%Z || (g_LeaderStart g =? 0)%Z then search groups
                          else reason ← leaderIdentity (new_recovery g);
                               if bool_decide (reason = "") then mret (Some g) else search groups
                      end) groups
            end
        end) w.

(** ** The PID file of a daemon that is gone *)

(** [None] groups were not recorded.
    Source: internal/daemon/daemon.go:15-27 (Record). *)
Record DaemonRecord : Type := mkDaemonRecord {
  dr_PID : Z;
  dr_Addr : string;
  dr_StartedAt : Z;
  dr_Host : Host;
  dr_Groups : option (list Group);
}.

(** Signal 0 reaches the process.
    Source: internal/daemon/daemon_unix.go:20-27 (IsAlive). *)
Definition IsAlive (pid : Z) : sys bool := observe (λ w t,
  match w_fault w t (CKill pid), find_pid (w_kernel w t) pid with None, Some _ => true | _, _ => false end).

(** Source: internal/daemon/daemon_unix.go:50-63 (procStartTime). *)
Definition procStartTime (pid : Z) : sys (res errno Z) :=
  r ← ProcStat pid;
  mret (match r with Ok info => Ok (in_StartTime info) | Err e => Err e end).

(** Source: internal/daemon/daemon_unix.go:65-78 (procRunningStart). *)
Definition procRunningStart (pid : Z) : sys (res errno (Z * bool)) :=
  r ← ProcStat pid;
  mret (match r with Ok info => Ok (in_StartTime info, negb (ExitedState (in_State info))) | Err e => Err e end).

(** The file as [ReadRecord] reads it: the error tells whether it is missing.
    Source: internal/daemon/daemon.go:236-256 (IsAliveFromPIDFile). *)
Definition IsAliveFromPIDFile (file : res bool DaemonRecord) : sys (bool * Z) :=
  match file with
  | Err _ => mret (false, 0%Z)
  | Ok rec =>
      let pid := dr_PID rec in
      if (pid <=? 0)%Z then mret (false, 0%Z)
      else
        alive ← IsAlive pid;
        if negb alive then mret (false, pid)
        else if (dr_StartedAt rec =? 0)%Z then mret (true, pid)
        else
          cur ← procStartTime pid;
          mret (match cur with
                | Err _ => (true, pid)
                | Ok cur => if (cur =? 0)%Z then (true, pid) else ((cur =? dr_StartedAt rec)%Z, pid)
                end)
  end.

(** Source: internal/daemon/daemon.go:258-273 (StartProven). *)
Definition StartProven (rec : DaemonRecord) : sys bool :=
  if (dr_PID rec <=? 0)%Z || (dr_StartedAt rec =? 0)%Z then mret false
  else
    alive ← IsAlive (dr_PID rec);
    if negb alive then mret false
    else
      r ← procRunningStart (dr_PID rec);
      mret (match r with Ok (cur, running) => running && (cur =? dr_StartedAt rec)%Z | Err _ => false end).

Inductive crash_error : Type :=
  | AlreadyRunning (pid : Z)
  | UnreadablePIDFile
  | CrashedRunError (pid : Z) (groups : list RecoveredGroup).

(** The file is read twice, for the daemon and for its groups.
    Source: internal/runner/recover_unix.go:177-213 (assessCrashedRun). *)
Definition assessCrashedRun (polls : nat) (present : bool) (file1 file2 : res bool DaemonRecord)
    : sys (res crash_error bool) :=
  if negb present then mret (Ok false)
  else
    x ← IsAliveFromPIDFile file1;
    let '(alive, pid) := x in
    if alive : bool then mret (Err (AlreadyRunning pid))
    else match file2 with
         | Err missing => mret (if missing : bool then Ok false else Err UnreadablePIDFile)
         | Ok rec =>
             match dr_Groups rec with
             | None => mret (Ok true)
             | Some groups =>
                 t ← now;
                 results ← RecoverGroups polls groups (dr_Host rec) RecoverAssessOnly t;
                 mret (if forallb (λ rg, bool_decide (rg_Outcome rg = OutcomeEmpty)) results
                       then Ok true else Err (CrashedRunError (dr_PID rec) results))
             end
         end.

Inductive stop_error : Type :=
  | LeaseHeld
  | LeaseFailed
  | NowRunning (pid : Z)
  | NoDaemon
  | NotVerified (groups : list RecoveredGroup).

(** Whether the PID file is removed, and the verdict.
    Source: cmd/proc-compose/helpers.go:637-660 (stopUnrecordedDeadDaemon). *)
Definition stopUnrecordedDeadDaemon (force unreadable : bool) : bool * option stop_error :=
  if negb force then (false, Some (NotVerified []))
  else (true, if unreadable then Some (NotVerified []) else None).

(** [lease] is the error of taking the session's lease: held by another, or not.
    Source: cmd/proc-compose/helpers.go:559-635 (stopDeadDaemon). *)
Definition stopDeadDaemon (polls : nat) (lease : option bool) (file1 file2 : res bool DaemonRecord)
    (force : bool) (timeout : Z) : sys (bool * option stop_error) :=
  match lease with
  | Some held => mret (false, Some (if held : bool then LeaseHeld else LeaseFailed))
  | None =>
      x ← IsAliveFromPIDFile file1;
      let '(alive, pid) := x in
      if alive : bool then mret (false, Some (NowRunning pid))
      else match file2 with
           | Err true => mret (false, Some NoDaemon)
           | Err false => mret (stopUnrecordedDeadDaemon force true)
           | Ok rec =>
               match dr_Groups rec with
               | None => mret (stopUnrecordedDeadDaemon force false)
               | Some groups =>
                   t ← now;
                   results ← RecoverGroups polls groups (dr_Host rec)
                               (if force then RecoverForce else RecoverGraceful) (t + timeout);
                   let verified := forallb (λ rg, bool_decide (rg_Outcome rg = OutcomeEmpty) ||
                                                  bool_decide (rg_Outcome rg = OutcomeTerminated)) results in
                   mret (if verified then (true, None)
                         else if negb force then (false, Some (NotVerified results))
                         else (true, Some (NotVerified results)))
               end
           end
  end.

(** ** What a computation may do to the machine's view *)

(** Handles are never reused: an open one that was there before names the same
    process. *)
Record step (s s' : kstate) : Prop := {
  st_t : k_t s <= k_t s';
  st_next : k_next s <= k_next s';
  st_fds : ∀ fd p, k_fds s' !! fd = Some p → fd < k_next s → k_fds s !! fd = Some p;
}.

#[export] Instance step_preorder : PreOrder step.
Proof.
  split; [by split|]. intros s1 s2 s3 [a1 b1 c1] [a2 b2 c2]. split; [lia|lia|].
  intros fd p H Hlt. apply c1; [apply c2; [done|lia]|done].
Qed.

(** No signal is sent. *)
Definition quiet (s s' : kstate) : Prop := step s s' ∧ k_sent s' = k_sent s.

#[export] Instance quiet_preorder : PreOrder quiet.
Proof.
  split; [by split|]. intros s1 s2 s3 [a1 b1] [a2 b2]. split; [by etrans|congruence].
Qed.

Class Silent {A} (m : sys A) : Prop := silent : ∀ w s, quiet s (m w s).2.

#[export] Instance silent_ret {A} (a : A) : Silent (mret a).
Proof. intros w s. done. Qed.

#[export] Instance silent_bind {A B} (m : sys A) (f : A → sys B) :
  Silent m → (∀ a, Silent (f a)) → Silent (m ≫= f).
Proof.
  intros Hm Hf w s. unfold mbind, sys_bind. specialize (Hm w s). destruct (m w s) as [a s1]. cbn in Hm.
  etrans; [exact Hm|]. apply Hf.
Qed.

Lemma silent_world {A} (f : world → sys A) : (∀ w, Silent (f w)) → Silent (λ w, f w w).
Proof. intros H w s. apply (H w). Qed.

Lemma quiet_tick s : quiet s (tick s).
Proof. split; [|done]. split; cbn; [lia|lia|done]. Qed.

#[export] Instance silent_observe {A} (f : world → nat → A) : Silent (observe f).
Proof. intros w s. apply quiet_tick. Qed.

#[export] Instance silent_open pid : Silent (pidfdOpen pid).
Proof.
  intros w s. unfold pidfdOpen. destruct (w_fault w (k_t s) _); [apply quiet_tick|].
  destruct (find_pid _ _) as [[p kp]|]; [|apply quiet_tick].
  split; [|done]. split; cbn; [lia|lia|]. intros fd q H Hlt. by rewrite lookup_insert_ne in H by lia.
Qed.

#[export] Instance silent_probe fd : Silent (pidfdSend fd "").
Proof.
  intros w s. unfold pidfdSend. destruct (w_fault w (k_t s) _); [apply quiet_tick|].
  destruct (k_fds s !! fd); [|apply quiet_tick]. destruct (w_kernel w (k_t s) !! n); [|apply quiet_tick].
  split; [|by cbn; rewrite app_nil_r]. split; cbn; [lia|lia|done].
Qed.

#[export] Instance silent_close fd : Silent (close_fd fd).
Proof.
  intros w s. split; [|done]. split; cbn; [lia|lia|]. intros fd' p H _. by apply lookup_delete_Some in H as [_ ?].
Qed.

#[export] Instance silent_mapM {A B} (f : A → sys B) l : (∀ a, Silent (f a)) → Silent (mapM_sys f l).
Proof. intros Hf. induction l as [|x l IH]; cbn; apply _. Qed.

(** Structural search for [Silent]. *)
Ltac solve_silent :=
  cbv beta zeta;
  lazymatch goal with
  | |- ∀ _, _ => intros; solve_silent
  | |- Silent (mret _) => apply silent_ret
  | |- Silent (mbind _ _) => apply silent_bind; solve_silent
  | |- Silent (mapM_sys _ _) => apply silent_mapM; solve_silent
  | |- Silent (match ?x with _ => _ end) => destruct x; solve_silent
  | |- _ => first [ assumption | solve [apply _] | (apply silent_world; intros; solve_silent) ]
  end.

#[export] Instance silent_live pid st : Silent (recoveryLive pid st).
Proof. unfold recoveryLive, countProcTasks. solve_silent. Qed.

#[export] Instance silent_ProcStat pid : Silent (ProcStat pid).
Proof. unfold ProcStat. apply _. Qed.

#[export] Instance silent_walk pgid live : (∀ pid st, Silent (live pid st)) → Silent (walkGroupMembers pgid live).
Proof. intros H. unfold walkGroupMembers, listing, walk_entry, procStat. solve_silent. Qed.

#[export] Instance silent_members pgid : Silent (recoveryMemberPIDs pgid).
Proof. unfold recoveryMemberPIDs. apply _. Qed.

#[export] Instance silent_empty pgid : Silent (groupProvenEmpty pgid).
Proof. unfold groupProvenEmpty, groupKill, empty_scan, sleep, recoveryGroupHolders. solve_silent. Qed.

#[export] Instance silent_closePins pins : Silent (closePins pins).
Proof. unfold closePins. solve_silent. Qed.

#[export] Instance silent_release r : Silent (release r).
Proof. unfold release. solve_silent. Qed.

#[export] Instance silent_identity r : Silent (leaderIdentity r).
Proof. unfold leaderIdentity. solve_silent. Qed.

#[export] Instance silent_unproven reason r : Silent (finishUnproven reason r).
Proof. unfold finishUnproven. solve_silent. Qed.

#[export] Instance silent_pin pgid have pid : Silent (pin_member pgid have pid).
Proof. unfold pin_member. solve_silent. Qed.

#[export] Instance silent_pinMembers pgid have : Silent (pinMembers pgid have).
Proof. unfold pinMembers. solve_silent. Qed.

#[export] Instance silent_keep pins : Silent (keep_alive pins).
Proof. induction pins as [|p pins IH]; cbn; solve_silent. Qed.

#[export] Instance silent_repin r : Silent (repin r).
Proof. unfold repin. solve_silent. Qed.

#[export] Instance silent_classify mode r : Silent (classify mode r).
Proof. unfold classify, classify_identity, classify_pin. solve_silent. Qed.

#[export] Instance silent_conclude r : Silent (conclude r).
Proof. unfold conclude. solve_silent. Qed.

#[export] Instance silent_poll_one awaited r : Silent (poll_one awaited r).
Proof. unfold poll_one. solve_silent. Qed.

#[export] Instance silent_poll awaited rs : Silent (poll_round awaited rs).
Proof. induction rs as [|r rs IH]; cbn; solve_silent. Qed.

#[export] Instance silent_await polls awaited deadline rs : Silent (awaitEmpty polls awaited deadline rs).
Proof. revert rs; induction polls as [|polls IH]; intros rs; cbn; unfold now, sleep; solve_silent. Qed.

(** ** What a proof of identity shows *)

(** What the kernel guarantees: at any moment a pid names one process, and a
    process that is there at two moments was there in between, with the same
    pid and start time. *)
Record kernel_ok (w : world) : Prop := {
  ko_pid : ∀ t p1 p2 x1 x2, w_kernel w t !! p1 = Some x1 → w_kernel w t !! p2 = Some x2 →
    kp_pid x1 = kp_pid x2 → p1 = p2;
  ko_life : ∀ t1 t t2 p x1 x2, t1 <= t <= t2 → w_kernel w t1 !! p = Some x1 → w_kernel w t2 !! p = Some x2 →
    ∃ x, w_kernel w t !! p = Some x ∧ kp_pid x = kp_pid x1 ∧ kp_start x = kp_start x1;
}.

Section identity.
Context (w : world) (Hw : kernel_ok w).

Lemma find_pid_Some k pid p x : find_pid k pid = Some (p, x) → k !! p = Some x ∧ kp_pid x = pid.
Proof.
  unfold find_pid. intros [Hin Heq]%find_some. apply Z.eqb_eq in Heq. split; [|done].
  apply elem_of_map_to_list. by apply list_elem_of_In.
Qed.

(** A file of procfs read as a process with that pid. *)
Lemma ProcStat_spec pid s info s' : ProcStat pid w s = (Ok info, s') →
  s' = tick s ∧ ∃ p x, w_kernel w (k_t s) !! p = Some x ∧ kp_pid x = pid ∧ kp_pgid x = in_PGID info ∧ kp_start x = in_StartTime info.
Proof.
  unfold ProcStat, observe. destruct (w_fault w (k_t s) _); [done|].
  destruct (find_pid _ pid) as [[p x]|] eqn:Hf; [|done]. intros [= <- <-]. apply find_pid_Some in Hf as [? ?].
  split; [done|]. by exists p, x.
Qed.

Lemma pidfdOpen_spec pid s fd s' : pidfdOpen pid w s = (Ok fd, s') →
  fd = k_next s ∧ k_t s' = S (k_t s) ∧ k_next s' = S (k_next s) ∧
  ∃ p x, k_fds s' !! fd = Some p ∧ w_kernel w (k_t s) !! p = Some x ∧ kp_pid x = pid.
Proof.
  unfold pidfdOpen. destruct (w_fault w (k_t s) _); [done|].
  destruct (find_pid _ pid) as [[p x]|] eqn:Hf; [|done]. intros [= <- <-]. apply find_pid_Some in Hf as [? ?].
  split_and!; [done..|]. exists p, x. cbn. by rewrite lookup_insert_eq.
Qed.

(** An answer to a signal proves the process is there. *)
Lemma pidfdSend_spec fd sig s s' : pidfdSend fd sig w s = (None, s') →
  k_t s' = S (k_t s) ∧ k_next s' = k_next s ∧ k_fds s' = k_fds s ∧
  ∃ p x, k_fds s !! fd = Some p ∧ w_kernel w (k_t s) !! p = Some x ∧
    k_sent s' = k_sent s ++ (if bool_decide (sig = "") then [] else [(k_t s, p, sig)]).
Proof.
  unfold pidfdSend. destruct (w_fault w (k_t s) _); [done|]. destruct (k_fds s !! fd) as [p|] eqn:Hp; [|done].
  destruct (w_kernel w (k_t s) !! p) as [x|] eqn:Hx; [|done]. intros [= <-]. split_and!; [done..|]. by exists p, x.
Qed.

Lemma silent_step {A} (m : sys A) `{!Silent m} s a s' : m w s = (a, s') → step s s'.
Proof. intros H. pose proof (silent (m:=m) w s) as [Hs _]. by rewrite H in Hs. Qed.

(** A pin taken between [s] and [s']: the process behind it was seen in the
    group in the meantime, and is not this one. *)
Definition seen_in (pgid : Z) (s s' : kstate) (pin : pinnedProcess) : Prop :=
  pin_pid pin ≠ w_self w ∧ k_next s <= pin_fd pin < k_next s' ∧
  ∀ p, k_fds s' !! pin_fd pin = Some p → ∃ t x, k_t s <= t < k_t s' ∧
    w_kernel w t !! p = Some x ∧ kp_pid x = pin_pid pin ∧ kp_pgid x = pgid.

Lemma seen_in_step pgid s0 s s' s1 pin : step s0 s → step s' s1 → seen_in pgid s s' pin → seen_in pgid s0 s1 pin.
Proof.
  intros [a1 b1 c1] [a2 b2 c2] (H1 & H2 & H3). split_and!; [done|lia|lia|]. intros p Hp.
  destruct (H3 p) as (t & x & Ht & Hx); [apply c2; [done|lia]|]. exists t, x. split; [lia|done].
Qed.

(** The process behind a pidfd that still answers is the one its pid named in
    between. *)
Lemma handle_pid s1 s2 fd p x pid q y t : k_fds s1 !! fd = Some p → fd < k_next s1 → step s1 s2 →
  (∃ t0, t0 <= t ∧ w_kernel w t0 !! p = Some x) → kp_pid x = pid → t <= k_t s2 →
  w_kernel w t !! q = Some y → kp_pid y = pid →
  (∃ p2 x2, k_fds s2 !! fd = Some p2 ∧ w_kernel w (k_t s2) !! p2 = Some x2) →
  q = p.
Proof using Hw.
  intros Hp Hfd Hstep (t0 & Ht0 & Hx) Hpid Ht Hq Hqpid (p2 & x2 & Hp2 & Hx2).
  assert (p2 = p) as -> by (pose proof (st_fds _ _ Hstep fd p2 Hp2 Hfd); congruence).
  destruct (ko_life w Hw t0 t (k_t s2) p x x2) as (z & Hz & Hzpid & _); [lia|done|done|].
  eapply (ko_pid w Hw); [exact Hq|exact Hz|congruence].
Qed.

Lemma pin_member_spec pgid have pid s pins s' : pin_member pgid have pid w s = (pins, s') →
  step s s' ∧ Forall (seen_in pgid s s') pins.
Proof using Hw.
  intros Hrun. split; [by eapply silent_step; [|exact Hrun]; apply _|]. revert Hrun. unfold pin_member.
  destruct ((pid =? w_self w)%Z || _) eqn:Hself; [by intros [= <- <-]|]. apply orb_false_iff in Hself as [Hself%Z.eqb_neq _].
  unfold mbind, sys_bind. destruct (pidfdOpen pid w s) as [[fd|e] s1] eqn:Hopen; [|by intros [= <- <-]].
  destruct (pidfdOpen_spec _ _ _ _ Hopen) as (-> & Ht1 & Hn1 & p & x & Hp & Hx & Hpid).
  destruct (ProcStat pid w s1) as [[info|e] s2] eqn:Hstat; [|by intros [= <- <-]].
  destruct (ProcStat_spec _ _ _ _ Hstat) as (-> & q & y & Hq & Hqpid & Hqpgid & _).
  destruct (negb _) eqn:Hg; [by intros [= <- <-]|]. apply negb_false_iff, Z.eqb_eq in Hg.
  destruct (recoveryLive pid (in_State info) w (tick s1)) as [[] s3] eqn:Hlive; cbn [negb]; [|by intros [= <- <-]].
  destruct (pidfdSend (k_next s) "" w s3) as [[e|] s4] eqn:Hsend; [by intros [= <- <-]|]. cbn. intros [= <- <-].
  destruct (pidfdSend_spec _ _ _ _ Hsend) as (Ht4 & Hn4 & Hf4 & p2 & x2 & Hp2 & Hx2 & _).
  assert (Hs3 : step (tick s1) s3) by (eapply silent_step; [|exact Hlive]; apply _).
  assert (Hs1 : step s1 s3) by (etrans; [apply quiet_tick|done]).
  pose proof (st_t _ _ Hs1) as Ht3. pose proof (st_next _ _ Hs1) as Hn3. pose proof (st_t _ _ Hs3) as Ht3'. cbn in Ht3'.
  assert (q = p) as ->.
  { apply (handle_pid s1 s3 (k_next s) p x pid q y (k_t s1)); try done; [lia|exists (k_t s); split; [lia|done]|by exists p2, x2]. }
  apply Forall_singleton. split_and!; [done|cbn; lia|cbn; lia|]. cbn. intros p' Hp'.
  assert (p' = p) as -> by (rewrite Hf4 in Hp'; pose proof (st_fds _ _ Hs1 _ _ Hp'); naive_solver lia).
  exists (k_t s1), y. split; [lia|]. by rewrite Hqpgid.
Qed.

Lemma mapM_seen {A} (f : A → sys (list pinnedProcess)) pgid l :
  (∀ a s r s', f a w s = (r, s') → step s s' ∧ Forall (seen_in pgid s s') r) →
  ∀ s r s', mapM_sys f l w s = (r, s') → step s s' ∧ Forall (seen_in pgid s s') (mjoin r).
Proof.
  intros Hf. induction l as [|x l IH]; intros s r s'; cbn; [by intros [= <- <-]|].
  unfold mbind, sys_bind. destruct (f x w s) as [y s1] eqn:Hy. destruct (mapM_sys f l w s1) as [ys s2] eqn:Hys.
  intros [= <- <-]. destruct (Hf _ _ _ _ Hy) as [H1 H2]. destruct (IH _ _ _ Hys) as [H3 H4].
  split; [by etrans|]. cbn. apply Forall_app. split; (eapply Forall_impl; [eassumption|]); intros pin.
  - by apply seen_in_step.
  - by apply seen_in_step.
Qed.

Lemma pinMembers_spec pgid have s pins s' : pinMembers pgid have w s = (Some pins, s') →
  step s s' ∧ Forall (seen_in pgid s s') pins.
Proof using Hw.
  unfold pinMembers, mbind, sys_bind. destruct (recoveryMemberPIDs pgid w s) as [[pids|] s1] eqn:Hm; [|done].
  destruct (mapM_sys _ pids w s1) as [r s2] eqn:Hr. intros [= <- <-].
  assert (Hs : step s s1) by (eapply silent_step; [|exact Hm]; apply _).
  destruct (mapM_seen _ pgid pids (λ pid s r s', pin_member_spec pgid have pid s r s') _ _ _ Hr) as [Hs2 Hall].
  split; [by etrans|]. eapply Forall_impl; [exact Hall|]. intros pin. by apply seen_in_step.
Qed.

(** *** What a group's handles are worth *)

(** At [t] the recorded leader, not yet reaped, holds the group's number. *)
Definition leads (pgid start : Z) (t : nat) : Prop :=
  ∃ p x, w_kernel w t !! p = Some x ∧ kp_pid x = pgid ∧ kp_start x = start.

(** At [t], while the recorded leader holds the group's number, process [p] is
    in the group, and is not this one. *)
Definition member_at (pgid start : Z) (t p : nat) : Prop :=
  (∃ x, w_kernel w t !! p = Some x ∧ kp_pgid x = pgid ∧ kp_pid x ≠ w_self w) ∧ leads pgid start t.

Definition pin_ok (r : recovery) (s : kstate) (pin : pinnedProcess) : Prop :=
  pin_fd pin < k_next s ∧
  ∀ p, k_fds s !! pin_fd pin = Some p → ∃ t, t < k_t s ∧ member_at (r_PGID r) (r_LeaderStart r) t p.

Definition leader_ok (r : recovery) (s : kstate) (fd : nat) : Prop :=
  fd < k_next s ∧
  ∀ p, k_fds s !! fd = Some p → ∃ t x, t < k_t s ∧ w_kernel w t !! p = Some x ∧
    kp_pid x = r_PGID r ∧ kp_start x = r_LeaderStart r.

(** Only a recorded group that is not this process's own is ever proven. *)
Definition eligible (r : recovery) : Prop :=
  (1 < r_PGID r)%Z ∧ r_PGID r ≠ w_pgrp w ∧ r_LeaderStart r ≠ 0%Z.

Record handled (r : recovery) (s : kstate) : Prop := {
  ha_pins : Forall (pin_ok r s) (r_pins r);
  ha_leader : r_proven r = true → ∀ fd, r_leader r = Some fd → leader_ok r s fd;
  ha_eligible : r_proven r = true → eligible r;
}.

Definition same_group (r r' : recovery) : Prop :=
  r_Name r' = r_Name r ∧ r_PGID r' = r_PGID r ∧ r_LeaderStart r' = r_LeaderStart r.

Lemma pin_ok_step r s s' pin : step s s' → pin_ok r s pin → pin_ok r s' pin.
Proof using.
  intros [H1 H2 H3] [Hfd Hp]. split; [lia|]. intros p Hs'. destruct (Hp p) as (t & Ht & Hm); [by apply H3|].
  exists t. split; [lia|done].
Qed.

Lemma leader_ok_step r s s' fd : step s s' → leader_ok r s fd → leader_ok r s' fd.
Proof using.
  intros [H1 H2 H3] [Hfd Hp]. split; [lia|]. intros p Hs'. destruct (Hp p) as (t & x & Ht & Hm); [by apply H3|].
  exists t, x. split; [lia|done].
Qed.

Lemma handled_step r s s' : step s s' → handled r s → handled r s'.
Proof using.
  intros Hs [H1 H2 H3]. split; [|by intros; eapply leader_ok_step; eauto|done].
  eapply Forall_impl; [exact H1|]. intros pin. by apply pin_ok_step.
Qed.

(** Without handles and unproven there is nothing to show. *)
Lemma handled_none r s : r_pins r = [] → r_proven r = false → handled r s.
Proof using. intros Hp Hf. split; [by rewrite Hp|congruence..]. Qed.

Lemma leaderIdentity_spec r s s' : leaderIdentity r w s = ("", s') →
  s' = tick s ∧ ∃ p x, w_kernel w (k_t s) !! p = Some x ∧ kp_pid x = r_PGID r ∧ kp_start x = r_LeaderStart r.
Proof using.
  unfold leaderIdentity, mbind, sys_bind. destruct (ProcStat (r_PGID r) w s) as [[info|e] s1] eqn:Hstat; cbn;
    [|by repeat case_bool_decide].
  apply ProcStat_spec in Hstat as (-> & p & x & Hx & Hpid & Hpgid & Hstart).
  destruct (Z.eqb_spec (in_StartTime info) (r_LeaderStart r)) as [Hs|]; cbn; [|done].
  destruct (negb _); [done|]. intros [= <-]. split; [done|]. exists p, x. split_and!; [done..|congruence].
Qed.

(** A leader that still answers after the scan was there during it: what the
    scan found are members. *)
Lemma pins_are_members r lfd s s2 s3 s4 pins : leader_ok r s lfd → step s s2 → step s2 s3 →
  Forall (seen_in (r_PGID r) s2 s3) pins → pidfdSend lfd "" w s3 = (None, s4) →
  Forall (pin_ok r s4) pins ∧ leader_ok r s4 lfd.
Proof using Hw.
  intros Hl Hs2 Hs3 Hpins Hsend. apply pidfdSend_spec in Hsend as (Ht4 & Hn4 & Hf4 & L & y & HL & Hy & _).
  assert (Hl3 : leader_ok r s3 lfd) by (eapply leader_ok_step; [|exact Hl]; by etrans).
  assert (Hstep4 : step s3 s4) by (split; [lia|lia|intros; by rewrite <-Hf4]).
  split; [|by eapply leader_ok_step].
  destruct Hl as [Hlfd Hl]. assert (HL0 : k_fds s !! lfd = Some L) by (apply (st_fds s s3); [by etrans|done|done]).
  destruct (Hl L HL0) as (t0 & x0 & Ht0 & Hx0 & Hpid0 & Hst0).
  eapply Forall_impl; [exact Hpins|]. intros pin (Hself & Hfd & Hseen). split; [lia|].
  intros p Hp. rewrite Hf4 in Hp. destruct (Hseen p Hp) as (t & x & Ht & Hx & Hpid & Hpgid).
  exists t. split; [lia|]. split; [exists x; split_and!; [done|done|congruence]|].
  destruct (ko_life w Hw t0 t (k_t s3) L x0 y) as (z & Hz & Hzpid & Hzst); [|done|done|].
  { pose proof (st_t _ _ Hs2). lia. }
  exists L, z. split_and!; [done|congruence|congruence].
Qed.

Lemma silent_run {A} (m : sys A) `{!Silent m} s a s' : m w s = (a, s') → quiet s s'.
Proof using. intros H. pose proof (silent (m:=m) w s) as Hs. by rewrite H in Hs. Qed.

Lemma finishUnproven_spec reason r s r' s' : finishUnproven reason r w s = (r', s') →
  same_group r r' ∧ r_pins r' = [] ∧ r_proven r' = r_proven r.
Proof using.
  unfold finishUnproven, release, mbind, sys_bind.
  destruct ((match r_leader r with Some fd => close_fd fd | None => mret tt end) w s) as [? s1].
  destruct (closePins (r_pins r) w s1) as [? s2]. cbn. case_bool_decide; [by intros [= <- <-]|].
  destruct (groupProvenEmpty _ w s2) as [[| |] s3]; by intros [= <- <-].
Qed.

Lemma classify_pin_spec r lfd s b r' s' : r_pins r = [] → r_proven r = false → eligible r →
  lfd < k_next s → (∃ L x t, k_fds s !! lfd = Some L ∧ t < k_t s ∧ w_kernel w t !! L = Some x ∧ kp_pid x = r_PGID r) →
  classify_pin r lfd w s = ((b, r'), s') → same_group r r' ∧ handled r' s' ∧ r_proven r' = b.
Proof using Hw.
  intros Hnopins Hunproven Helig Hlfd (L & x & t & HL & Ht & Hx & Hpid).
  unfold classify_pin, mbind, sys_bind. destruct (leaderIdentity r w s) as [reason s1] eqn:Hid.
  destruct (bool_decide (reason = "")) eqn:Hr; cbn [negb].
  2: { destruct (finishUnproven reason r w s1) as [r1 s2] eqn:Hfin. intros [= <- <- <-].
       apply finishUnproven_spec in Hfin as (Hsame & Hp & Hv). split_and!; [done|by apply handled_none; congruence|congruence]. }
  apply bool_decide_eq_true in Hr as ->. apply leaderIdentity_spec in Hid as (-> & q & y & Hq & Hqpid & Hqstart).
  destruct (pidfdSend lfd "" w (tick s)) as [[e|] s2] eqn:Hsend; cbn.
  { destruct (finishUnproven _ r w s2) as [r1 s3] eqn:Hfin. intros [= <- <- <-].
    apply finishUnproven_spec in Hfin as (Hsame & Hp & Hv). split_and!; [done|by apply handled_none; congruence|congruence]. }
  pose proof (silent_step (pidfdSend lfd "") _ _ _ Hsend) as Hs2.
  apply pidfdSend_spec in Hsend as (Ht2 & Hn2 & Hf2 & L' & y' & HL' & Hy' & _).
  assert (q = L) as ->.
  { apply (handle_pid s (tick s) lfd L x (r_PGID r) q y (k_t s)); try done.
    - apply quiet_tick.
    - exists t. split; [lia|done].
    - cbn. lia.
    - by exists L', y'. }
  assert (Hl : leader_ok r s2 lfd).
  { cbn in *. split; [lia|]. intros p Hp. rewrite Hf2, HL in Hp. injection Hp as <-. exists (k_t s), y. split_and!; [lia|done..]. }
  destruct (pinMembers (r_PGID r) [] w s2) as [[pins|] s3] eqn:Hpin.
  2: { cbn. intros [= <- <- <-]. split_and!; [done|by apply handled_none|done]. }
  apply pinMembers_spec in Hpin as [Hs3 Hseen].
  destruct (pidfdSend lfd "" w s3) as [[e|] s4] eqn:Hsend4; cbn.
  { destruct (closePins pins w s4) as [? s5]. destruct (finishUnproven _ r w s5) as [r1 s6] eqn:Hfin. intros [= <- <- <-].
    apply finishUnproven_spec in Hfin as (Hsame & Hp & Hv). split_and!; [done|by apply handled_none; congruence|congruence]. }
  intros [= <- <- <-].
  destruct (pins_are_members r lfd s2 s2 s3 s4 pins Hl (reflexivity _) Hs3 Hseen Hsend4) as [Hall Hl4].
  split; [done|]. split; [|done]. split; [exact Hall|intros _ fd [= <-]; exact Hl4|done].
Qed.

Lemma classify_spec mode r s b r' s' : r_pins r = [] → r_proven r = false →
  classify mode r w s = ((b, r'), s') →
  same_group r r' ∧ handled r' s' ∧ r_proven r' = b ∧ (b = true → mode ≠ RecoverAssessOnly).
Proof using Hw.
  intros Hp Hv. unfold classify, mbind, sys_bind.
  destruct (Z.eqb_spec (r_PGID r) 0); [intros [= <- <- <-]; split_and!; [done|by apply handled_none|done|done]|].
  destruct (Z.leb_spec (r_PGID r) 1) as [|Hgt]; [intros [= <- <- <-]; split_and!; [done|by apply handled_none|done|done]|].
  destruct (groupProvenEmpty (r_PGID r) w s) as [[|pids|] s1];
    [intros [= <- <- <-]; split_and!; [done|by apply handled_none|done|done]|
    |intros [= <- <- <-]; split_and!; [done|by apply handled_none|done|done]].
  unfold classify_identity, mbind, sys_bind. cbn [r_LeaderStart r_PGID set_members r_pins].
  destruct (Z.eqb_spec (r_LeaderStart r) 0) as [|Hstart]; [intros [= <- <- <-]; split_and!; [done|by apply handled_none|done|done]|].
  assert (Hfail : ∀ reason s0 b' r2 s2, (let '(a, s1) := finishUnproven reason (set_members pids r) w s0 in (mret (false, a) : sys (bool * recovery)) w s1) = ((b', r2), s2) →
    same_group r r2 ∧ handled r2 s2 ∧ r_proven r2 = b' ∧ (b' = true → mode ≠ RecoverAssessOnly)).
  { intros reason s0 b' r2 s2. destruct (finishUnproven reason _ w s0) as [r1 s3] eqn:Hfin. intros [= <- <- <-].
    apply finishUnproven_spec in Hfin as (Hsame & Hp' & Hv'). cbn in Hv'. split_and!; [done|by apply handled_none; congruence|congruence|done]. }
  destruct (leaderIdentity _ w s1) as [reason s2]. destruct (negb _); [apply Hfail|].
  destruct (Z.eqb_spec (r_PGID r) (w_pgrp w)) as [|Hown]; [intros [= <- <- <-]; split_and!; [done|by apply handled_none|done|done]|].
  case_bool_decide as Hmode; [intros [= <- <- <-]; split_and!; [done|by apply handled_none|done|done]|].
  destruct (pidfdOpen (r_PGID r) w s2) as [[lfd|e] s3] eqn:Hopen.
  - apply pidfdOpen_spec in Hopen as (-> & Ht & Hn & L & x & HL & Hx & Hpid). intros Hrun.
    apply classify_pin_spec in Hrun as (Hsame & Hh & Hb); [|done|done|done|lia|by exists L, x, (k_t s2); split_and!; [|lia|..]].
    split_and!; done.
  - case_bool_decide; [apply Hfail|]. intros [= <- <- <-]. split_and!; [done|by apply handled_none|done|done].
Qed.

(** *** Signals *)

(** Why a delivered signal was allowed: some recorded group, not this process's
    own, had the process as a member at an earlier moment at which the group's
    number was still held by its recorded leader. *)
Definition justified (groups : list Group) (d : nat * nat * string) : Prop :=
  let '(t, p, sig) := d in
  (sig = "SIGTERM" ∨ sig = "SIGKILL") ∧
  ∃ g, g ∈ groups ∧ (1 < g_PGID g)%Z ∧ g_PGID g ≠ w_pgrp w ∧ g_LeaderStart g ≠ 0%Z ∧
    ∃ t', t' < t ∧ member_at (g_PGID g) (g_LeaderStart g) t' p.

(** A group being recovered, with what its handles are worth. *)
Definition sound (groups : list Group) (r : recovery) (s : kstate) : Prop :=
  handled r s ∧ ∃ g, g ∈ groups ∧ r_PGID r = g_PGID g ∧ r_LeaderStart r = g_LeaderStart g.

Definition sent_ok (groups : list Group) (s : kstate) : Prop := Forall (justified groups) (k_sent s).

Lemma sound_step groups r s s' : step s s' → sound groups r s → sound groups r s'.
Proof using. intros Hs [H Hg]. split; [by eapply handled_step|done]. Qed.

(** Changes that leave the identity and the handles alone. *)
Lemma sound_keep groups r r' s : sound groups r s → r_PGID r' = r_PGID r → r_LeaderStart r' = r_LeaderStart r →
  r_leader r' = r_leader r → r_pins r' = r_pins r → r_proven r' = r_proven r → sound groups r' s.
Proof using.
  intros [[H1 H2 H3] Hg] E1 E2 E3 E4 E5. destruct r, r'; cbn in *; subst. by split; [split|].
Qed.

Lemma keep_alive_sub pins s alive s' : keep_alive pins w s = (alive, s') → ∀ p, p ∈ alive → p ∈ pins.
Proof using.
  revert s alive s'. induction pins as [|x pins IH]; intros s alive s'; cbn; unfold mbind, sys_bind; [intros [= <- <-]; by intros p|].
  destruct (pidfdSend _ "" w s) as [[e|] s1]; cbn.
  - intros Hrun p Hp. apply list_elem_of_further. by eapply IH.
  - destruct (keep_alive pins w s1) as [al s2] eqn:Hal. intros [= <- <-] p [->|Hp]%elem_of_cons;
      [apply list_elem_of_here|apply list_elem_of_further; by eapply IH].
Qed.

Lemma repin_spec groups r s r' s' : sound groups r s → r_proven r = true → repin r w s = (r', s') →
  step s s' ∧ sound groups r' s' ∧ r_proven r' = true.
Proof using Hw.
  intros Hsound Hproven Hrun. assert (Hstep : step s s') by (eapply silent_step; [|exact Hrun]; apply _).
  split; [done|]. revert Hrun. unfold repin, mbind, sys_bind. destruct (keep_alive (r_pins r) w s) as [alive s1] eqn:Hal.
  assert (Hs1 : step s s1) by (eapply silent_step; [|exact Hal]; apply _).
  pose proof (keep_alive_sub _ _ _ _ Hal) as Hsub.
  assert (Hr1 : ∀ s0, step s s0 → sound groups (set_handles (r_leader r) alive r) s0).
  { intros s0 Hs0. destruct (sound_step groups r s s0 Hs0 Hsound) as [[H1 H2 H3] Hg]. split; [|done].
    split; [|exact H2|exact H3]. cbn. rewrite Forall_forall in *. intros p Hp. by apply H1, Hsub. }
  cbn [r_leader set_handles r_PGID r_Name]. destruct (r_leader r) as [lfd|] eqn:Hlfd; [|intros [= <- <-]; by split; [apply Hr1|]].
  destruct (pidfdSend lfd "" w s1) as [[e|] s2] eqn:Hsend; cbn; [intros [= <- <-]|].
  { split; [apply Hr1|done]. etrans; [exact Hs1|]. eapply silent_step; [|exact Hsend]. apply _. }
  destruct (leaderIdentity (set_handles (Some lfd) alive r) w s2) as [reason s3] eqn:Hid.
  assert (Hs3 : step s s3).
  { etrans; [exact Hs1|]. etrans; [eapply silent_step; [|exact Hsend]; apply _|]. eapply silent_step; [|exact Hid]. apply _. }
  destruct (bool_decide (reason = "")); cbn [negb]; [|intros [= <- <-]; by split; [apply Hr1|]].
  destruct (pinMembers (r_PGID r) alive w s3) as [[fresh|] s4] eqn:Hpin.
  2: { intros [= <- <-]. split; [apply Hr1|done]. etrans; [exact Hs3|]. eapply silent_step; [|exact Hpin]. apply _. }
  apply pinMembers_spec in Hpin as [Hs4 Hseen].
  destruct (pidfdSend lfd "" w s4) as [[e|] s5] eqn:Hsend5; cbn.
  { destruct (closePins fresh w s5) as [? s6] eqn:Hc. intros [= <- <-]. split; [apply Hr1|done].
    etrans; [exact Hs3|]. etrans; [exact Hs4|]. etrans; [eapply silent_step; [|exact Hsend5]; apply _|].
    eapply silent_step; [|exact Hc]. apply _. }
  intros [= <- <-]. split; [|done].
  destruct (Hr1 s1 Hs1) as [[_ Hl1 _] _]. specialize (Hl1 Hproven lfd eq_refl).
  destruct (pins_are_members r lfd s1 s3 s4 s5 fresh) as [Hfresh Hl5]; [exact Hl1| |exact Hs4|exact Hseen|exact Hsend5|].
  { etrans; [eapply silent_step; [|exact Hsend]; apply _|]. eapply silent_step; [|exact Hid]. apply _. }
  destruct (Hr1 s5 Hstep) as [[H1 H2 H3] Hg]. split; [|exact Hg]. split; [|exact H2|exact H3].
  cbn. apply Forall_app. split; [exact H1|exact Hfresh].
Qed.

Lemma signal_pins_spec groups r sig : (sig = "SIGTERM" ∨ sig = "SIGKILL") → r_proven r = true →
  ∀ pins s delivered s', sound groups r s → Forall (pin_ok r s) pins → signal_pins sig pins w s = (delivered, s') →
  sent_ok groups s → step s s' ∧ sent_ok groups s'.
Proof using.
  intros Hsig Hproven. induction pins as [|p pins IH]; intros s delivered s' Hsound Hpins; cbn; unfold mbind, sys_bind;
    [by intros [= <- <-]|].
  destruct (pidfdSend (pin_fd p) sig w s) as [e s1] eqn:Hsend. destruct (signal_pins sig pins w s1) as [rest s2] eqn:Hrest.
  intros [= <- <-] Hsent. apply Forall_cons in Hpins as [Hp Hpins].
  assert (H1 : step s s1 ∧ sent_ok groups s1).
  { destruct e as [e|].
    - assert (quiet s s1) as [Hst Hq]; [|split; [done|]; unfold sent_ok in *; by rewrite Hq].
      revert Hsend. unfold pidfdSend. destruct (w_fault w (k_t s) _); [intros [= _ <-]; apply quiet_tick|].
      destruct (k_fds s !! pin_fd p) as [q|]; [|intros [= _ <-]; apply quiet_tick].
      destruct (w_kernel w (k_t s) !! q); [done|intros [= _ <-]; apply quiet_tick].
    - apply pidfdSend_spec in Hsend as (Ht & Hn & Hf & q & x & Hq & Hx & Hs). split; [split; [lia|lia|intros; by rewrite <-Hf]|].
      unfold sent_ok. rewrite Hs. apply Forall_app. split; [exact Hsent|]. case_bool_decide; [by apply Forall_nil|].
      apply Forall_singleton. split; [done|]. destruct Hsound as [Hh (g & Hg & Hpg & Hst)].
      destruct (ha_eligible _ _ Hh Hproven) as (He1 & He2 & He3). rewrite Hpg in He1, He2. rewrite Hst in He3.
      exists g. split_and!; [done..|]. destruct Hp as [_ Hp]. specialize (Hp q Hq). rewrite Hpg, Hst in Hp. done. }
  destruct H1 as [Hs1 Hsent1].
  destruct (IH s1 rest s2) as [Hs2 Hsent2]; [by eapply sound_step| |done|done|].
  { eapply Forall_impl; [exact Hpins|]. intros pin. by apply pin_ok_step. }
  split; [by etrans|done].
Qed.

Lemma signal_spec groups sig r s r' s' : (sig = "SIGTERM" ∨ sig = "SIGKILL") → r_proven r = true →
  sound groups r s → signal sig r w s = (r', s') → sent_ok groups s →
  step s s' ∧ sound groups r' s' ∧ sent_ok groups s'.
Proof using.
  intros Hsig Hproven Hsound. unfold signal, mbind, sys_bind.
  destruct (signal_pins sig (r_pins r) w s) as [delivered s1] eqn:Hrun. intros [= <- <-] Hsent.
  destruct (signal_pins_spec groups r sig Hsig Hproven _ _ _ _ Hsound (ha_pins _ _ (proj1 Hsound)) Hrun Hsent) as [Hs Hok].
  split_and!; [done| |done]. eapply sound_keep; [by eapply sound_step|done..].
Qed.

(** *** The phases *)

(** A computation on a list of groups that keeps them sound. *)
Definition keeps (groups : list Group) (m : sys (list recovery)) (s : kstate) : Prop :=
  ∀ rs' s', m w s = (rs', s') → step s s' ∧ Forall (λ r, sound groups r s') rs' ∧ sent_ok groups s'.

Lemma mapM_keeps groups (f : recovery → sys recovery) rs :
  (∀ r s r' s', sound groups r s → sent_ok groups s → f r w s = (r', s') →
     step s s' ∧ sound groups r' s' ∧ sent_ok groups s') →
  ∀ s, Forall (λ r, sound groups r s) rs → sent_ok groups s → keeps groups (mapM_sys f rs) s.
Proof using.
  intros Hf. induction rs as [|r rs IH]; intros s Hrs Hsent rs' s'; cbn; [intros [= <- <-]; split_and!; [done|by constructor|done]|].
  unfold mbind, sys_bind. destruct (f r w s) as [r1 s1] eqn:Hr. destruct (mapM_sys f rs w s1) as [rs1 s2] eqn:Hrs1.
  intros [= <- <-]. apply Forall_cons in Hrs as [Hr0 Hrs].
  destruct (Hf _ _ _ _ Hr0 Hsent Hr) as (Hs1 & Hr1 & Hsent1).
  destruct (IH s1 ltac:(eapply Forall_impl; [exact Hrs|]; intros ?; by apply sound_step) Hsent1 _ _ Hrs1) as (Hs2 & Hall & Hsent2).
  split_and!; [by etrans| |done]. constructor; [by eapply sound_step|done].
Qed.

Lemma quiet_sent groups s s' : quiet s s' → sent_ok groups s → sent_ok groups s'.
Proof using. intros [_ H]. unfold sent_ok. by rewrite H. Qed.

Lemma poll_keep awaited rs s rs' p s' : poll_round awaited rs w s = ((rs', p), s') →
  Forall2 (λ r r', r' = r ∨ r' = set_emptied r) rs rs'.
Proof using.
  revert s rs' p s'. induction rs as [|r rs IH]; intros s rs' p s'; cbn; unfold mbind, sys_bind; [intros [= <- _ _]; constructor|].
  destruct (poll_one awaited r w s) as [[r1 b1] s1] eqn:Hr.
  destruct (poll_round awaited rs w s1) as [[rs1 p1] s2] eqn:Hrs. cbn. intros [= <- _ _].
  constructor; [|by eapply IH]. unfold poll_one, mbind, sys_bind in Hr.
  destruct (awaited r && negb (r_emptied r)); [|injection Hr as <- _ _; by left]. destruct (groupProvenEmpty (r_PGID r) w s) as [[| |] s3]; injection Hr as <- _ _; auto.
Qed.

Lemma await_keeps groups polls awaited deadline : ∀ rs s, Forall (λ r, sound groups r s) rs → sent_ok groups s →
  keeps groups (awaitEmpty polls awaited deadline rs) s.
Proof using.
  assert (Hpoll : ∀ rs s rs' p s', Forall (λ r, sound groups r s) rs → poll_round awaited rs w s = ((rs', p), s') →
    quiet s s' ∧ Forall (λ r, sound groups r s') rs').
  { intros rs s rs' p s' Hrs Hrun. assert (Hq : quiet s s') by (eapply silent_run; [|exact Hrun]; apply _).
    split; [done|]. apply poll_keep in Hrun. induction Hrun as [|r r' rs rs' Hr Hrun IH]; [constructor|].
    apply Forall_cons in Hrs as [Hr0 Hrs]. constructor; [|by apply IH].
    assert (sound groups r s') by (by eapply sound_step; [apply Hq|]). destruct Hr as [->| ->]; [done|]. by eapply sound_keep. }
  induction polls as [|polls IH]; intros rs s Hrs Hsent rs' s'; cbn; unfold mbind, sys_bind;
    destruct (poll_round awaited rs w s) as [[rs1 p] s1] eqn:Hround;
    destruct (Hpoll _ _ _ _ _ Hrs Hround) as [Hq Hrs1]; pose proof (quiet_sent groups _ _ Hq Hsent) as Hsent1;
    destruct Hq as [Hs1 _]; (destruct (negb p); [intros [= <- <-]; by split_and!|]);
    cbn; destruct (negb (w_now w (k_t s1) <? deadline)%Z).
  1,2,3: intros [= <- <-]; split_and!; [etrans; [exact Hs1|apply quiet_tick]|
    eapply Forall_impl; [exact Hrs1|]; intros ?; apply sound_step; apply quiet_tick|by eapply quiet_sent; [apply quiet_tick|]].
  intros Hrun. destruct (IH rs1 (tick (tick s1))) with (rs' := rs') (s' := s') as (Hs & Hall & Hok); [| |exact Hrun|].
  - eapply Forall_impl; [exact Hrs1|]. intros ?. apply sound_step. etrans; apply quiet_tick.
  - by eapply quiet_sent; [etrans; apply quiet_tick|].
  - split_and!; [|done|done]. etrans; [exact Hs1|]. etrans; [|exact Hs]. etrans; apply quiet_tick.
Qed.

Lemma on_proven_keeps groups (f : recovery → sys recovery) rs :
  (∀ r s r' s', r_proven r = true → sound groups r s → sent_ok groups s → f r w s = (r', s') →
     step s s' ∧ sound groups r' s' ∧ sent_ok groups s') →
  ∀ s, Forall (λ r, sound groups r s) rs → sent_ok groups s → keeps groups (on_proven f rs) s.
Proof using.
  intros Hf. apply mapM_keeps. intros r s r' s' Hr Hsent. destruct (r_proven r) eqn:Hp; [by apply Hf|]. by intros [= <- <-].
Qed.

Lemma recoveries_bind groups (m : sys (list recovery)) (f : list recovery → sys (list recovery)) s :
  keeps groups m s →
  (∀ rs s', Forall (λ r, sound groups r s') rs → sent_ok groups s' → keeps groups (f rs) s') →
  keeps groups (m ≫= f) s.
Proof using.
  intros Hm Hf rs' s'. unfold mbind, sys_bind. destruct (m w s) as [rs s1] eqn:Hrun.
  destruct (Hm _ _ Hrun) as (H1 & H2 & H3). intros Hrun'. destruct (Hf rs s1 H2 H3 _ _ Hrun') as (H4 & H5 & H6).
  split_and!; [by etrans|done|done].
Qed.

Lemma kill_keeps groups r s r' s' : r_proven r = true → sound groups r s → sent_ok groups s →
  (if r_emptied r then mret r else r ← repin r; signal "SIGKILL" r) w s = (r', s') →
  step s s' ∧ sound groups r' s' ∧ sent_ok groups s'.
Proof using Hw.
  intros Hp Hr Hsent. destruct (r_emptied r); [by intros [= <- <-]|]. unfold mbind, sys_bind.
  destruct (repin r w s) as [r1 s1] eqn:Hrep. assert (Hq : quiet s s1) by (eapply silent_run; [|exact Hrep]; apply _).
  destruct (repin_spec groups _ _ _ _ Hr Hp Hrep) as (Hs & Hr1 & Hp1). intros Hsig.
  destruct (signal_spec groups "SIGKILL" _ _ _ _ ltac:(by right) Hp1 Hr1 Hsig (quiet_sent _ _ _ Hq Hsent)) as (H1 & H2 & H3).
  split_and!; [by etrans|done|done].
Qed.

Lemma conclude_keeps groups r s r' s' : sound groups r s → sent_ok groups s → conclude r w s = (r', s') →
  step s s' ∧ sound groups r' s' ∧ sent_ok groups s'.
Proof using.
  intros Hr Hsent Hrun. assert (Hq : quiet s s') by (eapply silent_run; [|exact Hrun]; apply _).
  split_and!; [apply Hq| |by eapply quiet_sent]. pose proof (sound_step groups r s s' (proj1 Hq) Hr) as Hr'.
  unfold conclude, mbind, sys_bind in Hrun.
  destruct ((if r_emptied r then mret ProvenEmpty else groupProvenEmpty (r_PGID r)) w s) as [[|pids|] s1];
    injection Hrun as <- <-; [case_match| |]; by eapply sound_keep.
Qed.

Lemma end_groups_keeps groups polls mode deadline rs s : Forall (λ r, sound groups r s) rs → sent_ok groups s →
  keeps groups (end_groups polls mode deadline rs) s.
Proof using Hw.
  intros Hrs Hsent. unfold end_groups. apply recoveries_bind.
  { case_bool_decide; [|by intros rs' s' [= <- <-]]. apply recoveries_bind; [|intros; by apply await_keeps].
    apply on_proven_keeps; [|done|done]. intros r s0 r' s' Hp Hr Hok Hrun. eapply signal_spec; [by left|exact Hp|exact Hr|exact Hrun|exact Hok]. }
  clear s rs Hrs Hsent. intros rs s Hrs Hsent. apply recoveries_bind; [apply on_proven_keeps; [apply kill_keeps|done|done]|].
  clear s rs Hrs Hsent. intros rs s Hrs Hsent. unfold now, observe.
  intros rs' s' Hrun. change (((awaitEmpty polls r_proven (w_now w (k_t s) + killSettle) rs) ≫= on_proven conclude) w (tick s) = (rs', s')) in Hrun.
  assert (Hkeep : keeps groups (awaitEmpty polls r_proven (w_now w (k_t s) + killSettle) rs ≫= on_proven conclude) (tick s)).
  { apply recoveries_bind; [apply await_keeps|intros rs1 s1 H1 H2; apply on_proven_keeps; [|done|done]].
    - eapply Forall_impl; [exact Hrs|]. intros ?. apply sound_step, quiet_tick.
    - eapply quiet_sent; [apply quiet_tick|done].
    - intros r s2 r' s3 _. apply conclude_keeps. }
  destruct (Hkeep _ _ Hrun) as (H1 & H2 & H3). split_and!; [etrans; [apply quiet_tick|done]|done|done].
Qed.

Lemma classify_keeps groups mode rs s cl s' : Forall (λ r, r_pins r = [] ∧ r_proven r = false ∧
    ∃ g, g ∈ groups ∧ r_PGID r = g_PGID g ∧ r_LeaderStart r = g_LeaderStart g) rs →
  mapM_sys (classify mode) rs w s = (cl, s') → quiet s s' ∧ Forall (λ x, sound groups x.2 s') cl.
Proof using Hw.
  revert s cl s'. induction rs as [|r rs IH]; intros s cl s' Hrs; cbn; [intros [= <- <-]; by split; [|constructor]|].
  apply Forall_cons in Hrs as [(Hp & Hv & g & Hg & Hpg & Hst) Hrs].
  unfold mbind, sys_bind. destruct (classify mode r w s) as [[b r1] s1] eqn:Hr.
  destruct (mapM_sys (classify mode) rs w s1) as [cl1 s2] eqn:Hcl. intros [= <- <-].
  assert (Hq : quiet s s1) by (eapply silent_run; [|exact Hr]; apply _).
  destruct (classify_spec mode r s b r1 s1 Hp Hv Hr) as ((_ & Hs1 & Hs2) & Hh & _).
  destruct (IH s1 cl1 s2 Hrs Hcl) as [Hq2 Hall]. split; [by etrans|]. constructor; [|exact Hall].
  apply (sound_step groups r1 s1 s2); [apply Hq2|]. split; [exact Hh|]. exists g. split_and!; [done|congruence|congruence].
Qed.
End identity.

(** The state before the first call. *)
Definition fresh_state : kstate := mkK 0 ∅ 0 [].

Lemma sent_release groups w s rs : Forall (justified w groups) (k_sent s) →
  Forall (justified w groups) (k_sent (mapM_sys release rs w s).2).
Proof. intros H. destruct (silent (m:=mapM_sys release rs) w s) as [_ ->]. done. Qed.

(** C4: however the processes of the machine change between the calls of a
    recovery, and whichever calls fail: every signal it delivers reaches a
    process that it had seen, earlier in the same recovery, as a member of a
    recorded group while the group's number was still held by the leader with
    the recorded start time, that is never the recovering process nor in its
    own group; and nothing is signalled at all when only an assessment is asked
    for, or when the record comes from another boot, another namespace, or a
    boot that cannot be told. *)
Theorem RecoverGroups_signals_justified w polls groups host mode deadline : kernel_ok w →
  let s := (RecoverGroups polls groups host mode deadline w fresh_state).2 in
  Forall (justified w groups) (k_sent s) ∧
  (mode = RecoverAssessOnly ∨ hostVerdict host w ≠ None → k_sent s = []).
Proof.
  intros Hw. unfold RecoverGroups. destruct (hostVerdict host w) as [[outcome reason]|]; unfold mbind, sys_bind.
  { destruct (mapM_sys release _ w fresh_state) as [? s1] eqn:Hrel. cbn.
    assert (Hq : quiet fresh_state s1) by (eapply silent_run; [|exact Hrel]; apply _).
    destruct Hq as [_ Hq]. rewrite Hq. split; [constructor|done]. }
  destruct (mapM_sys (classify mode) (new_recovery <$> groups) w fresh_state) as [cl s1] eqn:Hcl.
  apply (classify_keeps w Hw groups) in Hcl as [[Hst Hq] Hall].
  2: { apply Forall_fmap, Forall_forall. intros g Hg. cbn. split_and!; [done|done|]. by exists g. }
  assert (Hnil : k_sent s1 = []) by exact Hq.
  destruct (bool_decide (mode = RecoverAssessOnly) || negb (existsb fst cl)) eqn:Hskip; cbv beta iota.
  - destruct (mapM_sys release cl.*2 w s1) as [? s2] eqn:Hrel. unfold mret, sys_ret. rewrite Hrel.
    assert (Hq2 : quiet s1 s2) by (eapply silent_run; [|exact Hrel]; apply _). destruct Hq2 as [_ Hq2]. cbn.
    rewrite Hq2, Hnil. split; [constructor|done].
  - destruct (end_groups polls mode deadline cl.*2 w s1) as [rs s2] eqn:Hend.
    destruct (end_groups_keeps w Hw groups polls mode deadline cl.*2 s1) with (rs' := rs) (s' := s2) as (_ & _ & Hsent);
      [by apply Forall_fmap|unfold sent_ok; rewrite Hnil; constructor|exact Hend|].
    pose proof (sent_release groups w s2 rs Hsent) as Hfin. destruct (mapM_sys release rs w s2) as [? s3]. cbn in *.
    split; [exact Hfin|]. intros [->|?]; [|done]. by rewrite bool_decide_true in Hskip.
Qed.

(** ** Every pidfd is closed *)

(** The computation opens no handle. *)
Class NoOpen {A} (m : sys A) : Prop :=
  no_open : ∀ w s fd, is_Some (k_fds (m w s).2 !! fd) → is_Some (k_fds s !! fd).

#[export] Instance no_open_ret {A} (a : A) : NoOpen (mret a).
Proof. by intros w s fd. Qed.

#[export] Instance no_open_bind {A B} (m : sys A) (f : A → sys B) :
  NoOpen m → (∀ a, NoOpen (f a)) → NoOpen (m ≫= f).
Proof.
  intros Hm Hf w s fd. unfold mbind, sys_bind. specialize (Hm w s fd). destruct (m w s) as [a s1]. cbn in Hm.
  intros H. apply Hm, (Hf a w s1), H.
Qed.

#[export] Instance no_open_observe {A} (f : world → nat → A) : NoOpen (observe f).
Proof. by intros w s fd. Qed.

#[export] Instance no_open_send fd sig : NoOpen (pidfdSend fd sig).
Proof.
  intros w s fd'. unfold pidfdSend. destruct (w_fault w (k_t s) _); [done|]. destruct (k_fds s !! fd); [|done].
  by destruct (w_kernel w (k_t s) !! n).
Qed.

#[export] Instance no_open_close fd : NoOpen (close_fd fd).
Proof. intros w s fd'. cbn. intros [p Hp]. apply lookup_delete_Some in Hp as [_ Hp]. by exists p. Qed.

#[export] Instance no_open_mapM {A B} (f : A → sys B) l : (∀ a, NoOpen (f a)) → NoOpen (mapM_sys f l).
Proof. intros Hf. induction l as [|x l IH]; cbn; apply _. Qed.

(** Structural search for [NoOpen]. *)
Ltac solve_no_open :=
  cbv beta zeta;
  lazymatch goal with
  | |- ∀ _, _ => intros; solve_no_open
  | |- NoOpen (mret _) => apply no_open_ret
  | |- NoOpen (mbind _ _) => apply no_open_bind; solve_no_open
  | |- NoOpen (mapM_sys _ _) => apply no_open_mapM; solve_no_open
  | |- NoOpen (match ?x with _ => _ end) => destruct x; solve_no_open
  | |- _ => first [ assumption | solve [apply _] ]
  end.

#[export] Instance no_open_live pid st : NoOpen (recoveryLive pid st).
Proof. unfold recoveryLive, countProcTasks. solve_no_open. Qed.

#[export] Instance no_open_walk pgid live : (∀ pid st, NoOpen (live pid st)) → NoOpen (walkGroupMembers pgid live).
Proof. intros H. unfold walkGroupMembers, listing, walk_entry, procStat, ProcStat. solve_no_open. Qed.

#[export] Instance no_open_members pgid : NoOpen (recoveryMemberPIDs pgid).
Proof. unfold recoveryMemberPIDs. apply _. Qed.

#[export] Instance no_open_ProcStat pid : NoOpen (ProcStat pid).
Proof. unfold ProcStat. apply _. Qed.

#[export] Instance no_open_empty pgid : NoOpen (groupProvenEmpty pgid).
Proof. unfold groupProvenEmpty, groupKill, empty_scan, sleep, recoveryGroupHolders. solve_no_open. Qed.

#[export] Instance no_open_identity r : NoOpen (leaderIdentity r).
Proof. unfold leaderIdentity, ProcStat. solve_no_open. Qed.

#[export] Instance no_open_closePins pins : NoOpen (closePins pins).
Proof. unfold closePins. solve_no_open. Qed.

Lemma no_open_run {A} (m : sys A) `{!NoOpen m} w s a s' fd : m w s = (a, s') →
  is_Some (k_fds s' !! fd) → is_Some (k_fds s !! fd).
Proof. intros H. pose proof (no_open (m:=m) w s fd) as Hs. by rewrite H in Hs. Qed.

(** The handles a group holds. *)
Definition owned (r : recovery) : list nat := option_list (r_leader r) ++ (pin_fd <$> r_pins r).

(** Handles open after an operation are held by its result, or were open before
    and not held by its argument. *)
Definition tidy (r r' : recovery) (s s' : kstate) : Prop :=
  ∀ fd, is_Some (k_fds s' !! fd) → fd ∈ owned r' ∨ is_Some (k_fds s !! fd) ∧ fd ∉ owned r.

(** Nothing opened and nothing given up. *)
Lemma tidy_keep r r' s s' : owned r' = owned r → (∀ fd, is_Some (k_fds s' !! fd) → is_Some (k_fds s !! fd)) → tidy r r' s s'.
Proof. intros E H fd Hfd. rewrite E. destruct (decide (fd ∈ owned r)); auto. Qed.

Lemma closePins_closes pins w s u s' fd : closePins pins w s = (u, s') → is_Some (k_fds s' !! fd) →
  is_Some (k_fds s !! fd) ∧ fd ∉ pin_fd <$> pins.
Proof.
  unfold closePins, mbind, sys_bind. destruct (mapM_sys _ pins w s) as [us s1] eqn:Hrun. intros [= _ <-].
  revert s us Hrun. induction pins as [|p pins IH]; intros s us; cbn; [intros [= _ <-]; by split; [|intros ?%not_elem_of_nil]|].
  unfold mbind, sys_bind. set (s0 := mkK (S (k_t s)) (delete (pin_fd p) (k_fds s)) (k_next s) (k_sent s)).
  change (close_fd (pin_fd p) w s) with (tt, s0). cbv beta iota.
  destruct (mapM_sys (λ p : pinnedProcess, close_fd (pin_fd p)) pins w s0) as [us1 s2] eqn:Hrun.
  intros [= _ <-] Hfd. destruct (IH _ _ Hrun Hfd) as [[q Hq] Hnot]. cbn in Hq.
  apply lookup_delete_Some in Hq as [Hne Hq]. split; [by exists q|]. apply not_elem_of_cons. by split.
Qed.

Lemma release_closes r w s r' s' fd : release r w s = (r', s') → is_Some (k_fds s' !! fd) →
  is_Some (k_fds s !! fd) ∧ fd ∉ owned r.
Proof.
  unfold release, mbind, sys_bind. destruct ((match r_leader r with Some fd => close_fd fd | None => mret tt end) w s) as [u s1] eqn:Hl.
  destruct (closePins (r_pins r) w s1) as [u2 s2] eqn:Hc. intros [= _ <-] Hfd.
  destruct (closePins_closes _ _ _ _ _ _ Hc Hfd) as [Hs1 Hnot]. unfold owned. rewrite not_elem_of_app.
  destruct (r_leader r) as [lfd|]; cbn in *.
  - injection Hl as _ <-. cbn in Hs1. destruct Hs1 as [q [Hne Hq]%lookup_delete_Some].
    split; [by exists q|]. split; [|done]. apply not_elem_of_cons. split; [done|apply not_elem_of_nil].
  - injection Hl as _ <-. split; [done|]. split; [apply not_elem_of_nil|done].
Qed.

Lemma release_owned r w s : owned (release r w s).1 = [].
Proof.
  unfold release, mbind, sys_bind. destruct ((match r_leader r with Some fd => close_fd fd | None => mret tt end) w s) as [u s1].
  by destruct (closePins (r_pins r) w s1).
Qed.

Lemma finishUnproven_closes reason r w s r' s' : finishUnproven reason r w s = (r', s') → tidy r r' s s' ∧ owned r' = [].
Proof.
  unfold finishUnproven, mbind, sys_bind. destruct (release r w s) as [r1 s1] eqn:Hrel.
  pose proof (release_owned r w s) as Ho. rewrite Hrel in Ho. cbn in Ho.
  assert (Hc : ∀ fd, is_Some (k_fds s1 !! fd) → is_Some (k_fds s !! fd) ∧ fd ∉ owned r) by (intros fd; by apply (release_closes r w s r1 s1)).
  case_bool_decide; [intros [= <- <-]; split; [intros fd Hfd; right; by apply Hc|done]|].
  destruct (groupProvenEmpty (r_PGID r1) w s1) as [e s2] eqn:He. intros [= <- <-]. split; [|by destruct e].
  intros fd Hfd. right. apply Hc. eapply no_open_run; [|exact He|exact Hfd]. apply _.
Qed.

(** New handles are those of the pins returned. *)
Definition opens (pins : list pinnedProcess) (s s' : kstate) : Prop :=
  ∀ fd, is_Some (k_fds s' !! fd) → is_Some (k_fds s !! fd) ∨ fd ∈ pin_fd <$> pins.

Lemma sys_bind_eq {A B} (m : sys A) (f : A → sys B) w s : (m ≫= f) w s = f (m w s).1 w (m w s).2.
Proof. unfold mbind, sys_bind. by destruct (m w s). Qed.

Lemma pin_member_opens pgid have pid w s pins s' : pin_member pgid have pid w s = (pins, s') → opens pins s s'.
Proof.
  unfold pin_member. destruct (_ || _); [intros [= <- <-] fd; by left|]. rewrite sys_bind_eq.
  destruct (pidfdOpen pid w s) as [[fd|e] s1] eqn:Hopen; cbn [fst snd].
  2: { intros [= <- <-] fd. unfold pidfdOpen in Hopen. destruct (w_fault _ _ _); [injection Hopen as _ <-; by left|].
       destruct (find_pid _ _) as [[]|]; [done|injection Hopen as _ <-; by left]. }
  assert (Hs1 : ∀ f, is_Some (k_fds s1 !! f) → is_Some (k_fds s !! f) ∨ f = fd).
  { intros f. unfold pidfdOpen in Hopen. destruct (w_fault _ _ _); [done|]. destruct (find_pid _ _) as [[p x]|]; [|done].
    injection Hopen as <- <-. cbn. destruct (decide (f = k_next s)); [by right|]. rewrite lookup_insert_ne by done. by left. }
  rewrite sys_bind_eq. destruct (ProcStat pid w s1) as [st s2] eqn:Hstat; cbn [fst snd]. rewrite sys_bind_eq.
  match goal with |- (if (?m w s2).1 then _ else _) _ _ = _ → _ => assert (NoOpen m) as Hno by (destruct st; solve_no_open); destruct (m w s2) as [ok s3] eqn:Hok end.
  assert (Hs3 : ∀ f, is_Some (k_fds s3 !! f) → is_Some (k_fds s !! f) ∨ f = fd).
  { intros f Hf. apply Hs1. apply (no_open_run (ProcStat pid) w _ _ _ f Hstat). eapply no_open_run; [exact Hno|exact Hok|exact Hf]. }
  destruct ok; [intros [= <- <-] f Hf; destruct (Hs3 f Hf) as [| ->]; [by left|right; apply list_elem_of_here]|].
  unfold close_fd. intros [= <- <-] f Hf. cbn in Hf. destruct Hf as [q [Hne Hq]%lookup_delete_Some]. left.
  destruct (Hs3 f (mk_is_Some _ _ Hq)); [done|]. by subst.
Qed.

Lemma opens_app p1 p2 s s1 s2 : opens p1 s s1 → opens p2 s1 s2 → opens (p1 ++ p2) s s2.
Proof. intros H1 H2 fd Hfd. rewrite fmap_app, elem_of_app. destruct (H2 fd Hfd) as [H|]; [destruct (H1 fd H)|]; auto. Qed.

Lemma pinMembers_opens pgid have w s pins s' : pinMembers pgid have w s = (pins, s') → opens (default [] pins) s s'.
Proof.
  unfold pinMembers, mbind, sys_bind. destruct (recoveryMemberPIDs pgid w s) as [[pids|] s1] eqn:Hm.
  - destruct (mapM_sys (pin_member pgid have) pids w s1) as [r s2] eqn:Hr. intros [= <- <-]. cbn.
    apply (opens_app [] (mjoin r) s s1); [intros fd Hfd; left; eapply no_open_run; [|exact Hm|exact Hfd]; apply _|].
    clear Hm. revert s1 r s2 Hr. induction pids as [|pid pids IH]; intros s1 r s2; cbn; [intros [= <- <-] fd; by left|].
    unfold mbind, sys_bind. destruct (pin_member pgid have pid w s1) as [p1 s3] eqn:Hp.
    destruct (mapM_sys _ pids w s3) as [ps s4] eqn:Hps. intros [= <- <-]. cbn.
    eapply opens_app; [by eapply pin_member_opens|by apply IH].
  - intros [= <- <-] fd Hfd. left. eapply no_open_run; [|exact Hm|exact Hfd]. apply _.
Qed.

Lemma tidy_refl r s : tidy r r s s.
Proof. apply tidy_keep; [done|auto]. Qed.

Lemma tidy_trans r1 r2 r3 s1 s2 s3 : tidy r1 r2 s1 s2 → tidy r2 r3 s2 s3 → tidy r1 r3 s1 s3.
Proof. intros H1 H2 fd Hfd. destruct (H2 fd Hfd) as [|[H Hn]]; [by left|]. destruct (H1 fd H) as [|]; [done|by right]. Qed.

Lemma no_open_quiet {A} (m : sys A) `{!NoOpen m} w s : ∀ fd, is_Some (k_fds (m w s).2 !! fd) → is_Some (k_fds s !! fd).
Proof. intros fd. apply no_open. Qed.

Lemma unproven_tidy r reason w s s0 : (∀ fd, is_Some (k_fds s !! fd) → is_Some (k_fds s0 !! fd) ∨ fd ∈ owned r) →
  tidy r (finishUnproven reason r w s).1 s0 (finishUnproven reason r w s).2.
Proof.
  intros H. destruct (finishUnproven reason r w s) as [r' s'] eqn:E. apply finishUnproven_closes in E as [Ht Ho].
  intros fd Hfd. destruct (Ht fd Hfd) as [|[Hs Hn]]; [by left|]. right. destruct (H fd Hs); done.
Qed.

(** Reading an unproven conclusion. *)
Ltac unproven_end H :=
  rewrite sys_bind_eq in H; cbn [mret sys_ret] in H; injection H as <- <- <-; apply unproven_tidy.

Lemma classify_pin_tidy r lfd w s b r' s' : r_pins r = [] → r_leader r = Some lfd →
  classify_pin r lfd w s = ((b, r'), s') → tidy r r' s s'.
Proof.
  intros Hp Hl. unfold classify_pin. rewrite sys_bind_eq. destruct (leaderIdentity r w s) as [reason s1] eqn:Hid. cbn [fst snd].
  assert (H1 : ∀ fd, is_Some (k_fds s1 !! fd) → is_Some (k_fds s !! fd)) by (intros fd; by apply (no_open_run (leaderIdentity r) w s reason)).
  destruct (negb _); [intros H; unproven_end H; auto|].
  rewrite sys_bind_eq. destruct (pidfdSend lfd "" w s1) as [e s2] eqn:Hsend. cbn [fst snd].
  assert (H2 : ∀ fd, is_Some (k_fds s2 !! fd) → is_Some (k_fds s !! fd)) by (intros fd H; apply H1; by apply (no_open_run (pidfdSend lfd "") w s1 e s2)).
  destruct (negb _); [intros H; unproven_end H; auto|].
  rewrite sys_bind_eq. destruct (pinMembers (r_PGID r) [] w s2) as [pins s3] eqn:Hpin. apply pinMembers_opens in Hpin. cbn [fst snd].
  destruct pins as [pins|]; cbn [default] in Hpin.
  2: { intros [= <- <- <-]. apply tidy_keep; [done|]. intros fd Hfd. destruct (Hpin fd Hfd) as [|Hn]; [auto|by apply not_elem_of_nil in Hn]. }
  rewrite sys_bind_eq. destruct (pidfdSend lfd "" w s3) as [e4 s4] eqn:Hsend4. cbn [fst snd].
  assert (H4 : ∀ fd, is_Some (k_fds s4 !! fd) → is_Some (k_fds s !! fd) ∨ fd ∈ pin_fd <$> pins).
  { intros fd H. destruct (Hpin fd) as [|]; [by apply (no_open_run (pidfdSend lfd "") w s3 e4 s4)|auto|auto]. }
  destruct (negb _).
  - rewrite sys_bind_eq. destruct (closePins pins w s4) as [u s5] eqn:Hc. cbn [fst snd]. intros H. unproven_end H.
    intros fd Hfd. destruct (closePins_closes _ _ _ _ _ _ Hc Hfd) as [H5 Hn]. destruct (H4 fd H5); [by left|done].
  - intros [= <- <- <-]. intros fd Hfd. unfold owned. cbn. rewrite Hl, Hp.
    destruct (H4 fd Hfd) as [|]; [|left; by apply list_elem_of_further]. destruct (decide (fd = lfd)) as [->|].
    + left. apply list_elem_of_here.
    + right. split; [done|]. cbn. apply not_elem_of_cons. split; [done|apply not_elem_of_nil].
Qed.

Lemma classify_tidy mode r w s b r' s' : r_pins r = [] → r_leader r = None →
  classify mode r w s = ((b, r'), s') → tidy r r' s s'.
Proof.
  intros Hp Hl. assert (Ho : owned r = []) by (unfold owned; by rewrite Hp, Hl).
  assert (Hnil : ∀ fd, fd ∉ owned r) by (intros fd; rewrite Ho; apply not_elem_of_nil).
  unfold classify. destruct (_ =? 0)%Z; [intros [= <- <- <-]; by apply tidy_keep|].
  destruct (_ <=? 1)%Z; [intros [= <- <- <-]; by apply tidy_keep|].
  rewrite sys_bind_eq. destruct (groupProvenEmpty (r_PGID r) w s) as [e s1] eqn:He. cbn [fst snd].
  assert (H1 : ∀ fd, is_Some (k_fds s1 !! fd) → is_Some (k_fds s !! fd)) by (intros fd; by apply (no_open_run (groupProvenEmpty (r_PGID r)) w s e)).
  destruct e as [|pids|]; [intros [= <- <- <-]; by apply tidy_keep| |intros [= <- <- <-]; by apply tidy_keep].
  unfold classify_identity. set (rm := set_members pids r). assert (Hrm : owned rm = owned r) by done.
  assert (Hfail : ∀ reason s0 b0 r2 s2, (∀ fd, is_Some (k_fds s0 !! fd) → is_Some (k_fds s !! fd)) →
    (r ← finishUnproven reason rm; mret (false, r)) w s0 = ((b0, r2), s2) → tidy r r2 s s2).
  { intros reason s0 b0 r2 s2 H0. rewrite sys_bind_eq. intros [= <- <- <-]. apply (unproven_tidy rm). auto. }
  destruct (_ =? 0)%Z; [intros [= <- <- <-]; by apply tidy_keep|].
  rewrite sys_bind_eq. destruct (leaderIdentity rm w s1) as [reason s2] eqn:Hid. cbn [fst snd].
  assert (H2 : ∀ fd, is_Some (k_fds s2 !! fd) → is_Some (k_fds s !! fd)) by (intros fd H; apply H1; by apply (no_open_run (leaderIdentity rm) w s1 reason s2)).
  destruct (negb _); [by apply Hfail|].
  destruct (_ =? w_pgrp w)%Z; [intros [= <- <- <-]; by apply tidy_keep|].
  case_bool_decide; [intros [= <- <- <-]; by apply tidy_keep|].
  rewrite sys_bind_eq. destruct (pidfdOpen (r_PGID rm) w s2) as [lfd s3] eqn:Hopen. cbn [fst snd].
  destruct lfd as [lfd|e].
  - intros Hrun. apply classify_pin_tidy in Hrun; [|done|done]. intros fd Hfd. destruct (Hrun fd Hfd) as [|[H3 Hn]]; [by left|].
    right. split; [|apply Hnil]. apply H2. revert H3. unfold pidfdOpen in Hopen. destruct (w_fault _ _ _); [done|].
    destruct (find_pid _ _) as [[p x]|]; [|done]. injection Hopen as <- <-. cbn. rewrite lookup_insert_ne; [done|].
    intros <-. apply Hn. unfold owned. cbn. apply list_elem_of_here.
  - assert (H3 : ∀ fd, is_Some (k_fds s3 !! fd) → is_Some (k_fds s !! fd)).
    { intros fd H3. apply H2. unfold pidfdOpen in Hopen. destruct (w_fault _ _ _); [injection Hopen as _ <-; done|].
      destruct (find_pid _ _) as [[]|]; [done|injection Hopen as _ <-; done]. }
    case_bool_decide; [by apply Hfail|]. intros [= <- <- <-]. by apply tidy_keep.
Qed.

Lemma keep_alive_closes pins w s alive s' fd : keep_alive pins w s = (alive, s') → is_Some (k_fds s' !! fd) →
  is_Some (k_fds s !! fd) ∧ (fd ∈ pin_fd <$> pins → fd ∈ pin_fd <$> alive).
Proof.
  revert s alive s'. induction pins as [|p pins IH]; intros s alive s'; cbn [keep_alive].
  { intros [= <- <-]. split; [done|auto]. }
  rewrite sys_bind_eq. destruct (pidfdSend (pin_fd p) "" w s) as [e s1] eqn:Hsend. cbn [fst snd].
  assert (H1 : is_Some (k_fds s1 !! fd) → is_Some (k_fds s !! fd)) by (by apply (no_open_run (pidfdSend (pin_fd p) "") w s e s1)).
  case_bool_decide.
  - rewrite sys_bind_eq. destruct (keep_alive pins w s1) as [al s2] eqn:Hal. cbn [fst snd]. intros [= <- <-] Hfd.
    destruct (IH _ _ _ Hal Hfd) as [Hs Hin]. split; [auto|]. rewrite !fmap_cons, !elem_of_cons. naive_solver.
  - rewrite sys_bind_eq. cbn [fst snd close_fd]. intros Hrun Hfd. destruct (IH _ _ _ Hrun Hfd) as [[q Hq] Hin]. cbn in Hq.
    apply lookup_delete_Some in Hq as [Hne Hq]. split; [by apply H1; exists q|]. rewrite fmap_cons, elem_of_cons. naive_solver.
Qed.

Lemma repin_tidy r w s : tidy r (repin r w s).1 s (repin r w s).2.
Proof.
  unfold repin. rewrite sys_bind_eq. destruct (keep_alive (r_pins r) w s) as [alive s1] eqn:Hal. cbn [fst snd].
  set (r1 := set_handles (r_leader r) alive r).
  assert (H1 : tidy r r1 s s1).
  { intros fd Hfd. destruct (keep_alive_closes _ _ _ _ _ _ Hal Hfd) as [Hs Hin]. unfold owned. rewrite !elem_of_app. cbn.
    destruct (decide (fd ∈ option_list (r_leader r))); [auto|]. destruct (decide (fd ∈ pin_fd <$> r_pins r)); [auto|].
    right. split; [done|]. by intros [|]. }
  eapply tidy_trans; [exact H1|]. change (r_leader r1) with (r_leader r). destruct (r_leader r) as [lfd|] eqn:Hl; [|apply tidy_refl].
  rewrite sys_bind_eq. destruct (pidfdSend lfd "" w s1) as [e s2] eqn:Hsend. cbn [fst snd].
  assert (H2 : ∀ fd, is_Some (k_fds s2 !! fd) → is_Some (k_fds s1 !! fd)) by (intros fd; by apply (no_open_run (pidfdSend lfd "") w s1 e)).
  destruct (negb _); [by apply tidy_keep|].
  rewrite sys_bind_eq. destruct (leaderIdentity r1 w s2) as [reason s3] eqn:Hid. cbn [fst snd].
  assert (H3 : ∀ fd, is_Some (k_fds s3 !! fd) → is_Some (k_fds s1 !! fd)) by (intros fd H; apply H2; by apply (no_open_run (leaderIdentity r1) w s2 reason s3)).
  destruct (negb _); [by apply tidy_keep|].
  rewrite sys_bind_eq. destruct (pinMembers (r_PGID r1) alive w s3) as [fresh s4] eqn:Hpin. apply pinMembers_opens in Hpin. cbn [fst snd].
  destruct fresh as [fresh|]; cbn [default] in Hpin.
  2: { apply tidy_keep; [done|]. intros fd Hfd. destruct (Hpin fd Hfd) as [|Hn]; [auto|by apply not_elem_of_nil in Hn]. }
  rewrite sys_bind_eq. destruct (pidfdSend lfd "" w s4) as [e5 s5] eqn:Hsend5. cbn [fst snd].
  assert (H5 : ∀ fd, is_Some (k_fds s5 !! fd) → is_Some (k_fds s1 !! fd) ∨ fd ∈ pin_fd <$> fresh).
  { intros fd H. destruct (Hpin fd) as [|]; [by apply (no_open_run (pidfdSend lfd "") w s4 e5 s5)|auto|auto]. }
  destruct (negb _).
  - rewrite sys_bind_eq. destruct (closePins fresh w s5) as [u s6] eqn:Hc. cbn. apply tidy_keep; [done|].
    intros fd Hfd. destruct (closePins_closes _ _ _ _ _ _ Hc Hfd) as [H6 Hn]. destruct (H5 fd H6); done.
  - assert (Ho : owned r1 = [lfd] ++ (pin_fd <$> alive)) by (unfold owned, r1; cbn; by rewrite ?Hl).
    intros fd Hfd. rewrite Ho. unfold owned. cbn. rewrite fmap_app. destruct (H5 fd Hfd) as [|].
    + destruct (decide (fd ∈ [lfd] ++ (pin_fd <$> alive))) as [Hin|]; [left|by right].
      rewrite app_comm_cons. apply elem_of_app. by left.
    + left. rewrite app_comm_cons. apply elem_of_app. by right.
Qed.

(** *** All the groups *)

Definition tidy_all (rs rs' : list recovery) (s s' : kstate) : Prop :=
  ∀ fd, is_Some (k_fds s' !! fd) → fd ∈ rs' ≫= owned ∨ is_Some (k_fds s !! fd) ∧ fd ∉ rs ≫= owned.

Lemma tidy_all_refl rs s : tidy_all rs rs s s.
Proof. intros fd Hfd. destruct (decide (fd ∈ rs ≫= owned)); auto. Qed.

Lemma tidy_all_trans r1 r2 r3 s1 s2 s3 : tidy_all r1 r2 s1 s2 → tidy_all r2 r3 s2 s3 → tidy_all r1 r3 s1 s3.
Proof. intros H1 H2 fd Hfd. destruct (H2 fd Hfd) as [|[H Hn]]; [by left|]. destruct (H1 fd H) as [|]; [done|by right]. Qed.

Lemma tidy_all_cons r r' rs rs' s s1 s2 : tidy r r' s s1 → tidy_all rs rs' s1 s2 → tidy_all (r :: rs) (r' :: rs') s s2.
Proof.
  intros H1 H2 fd Hfd. cbn. rewrite !elem_of_app. destruct (H2 fd Hfd) as [|[Hs Hn]]; [auto|].
  destruct (H1 fd Hs) as [|[Hs0 Hn0]]; [auto|]. right. split; [done|]. by intros [|].
Qed.

Lemma mapM_tidy (f : recovery → sys recovery) w rs : (∀ r s, tidy r (f r w s).1 s (f r w s).2) →
  ∀ s, tidy_all rs (mapM_sys f rs w s).1 s (mapM_sys f rs w s).2.
Proof.
  intros Hf. induction rs as [|r rs IH]; intros s; cbn [mapM_sys]; [apply tidy_all_refl|].
  rewrite !sys_bind_eq. cbn. eapply tidy_all_cons; [apply Hf|apply IH].
Qed.

(** Handles kept, nothing opened. *)
Lemma same_tidy (m : sys recovery) `{!NoOpen m} r w s : owned (m w s).1 = owned r → tidy r (m w s).1 s (m w s).2.
Proof. intros Ho. apply tidy_keep; [done|]. apply no_open. Qed.

#[export] Instance no_open_signal_pins sig pins : NoOpen (signal_pins sig pins).
Proof. induction pins as [|p pins IH]; cbn; solve_no_open. Qed.

Lemma signal_tidy sig r w s : tidy r (signal sig r w s).1 s (signal sig r w s).2.
Proof. assert (NoOpen (signal sig r)) by (unfold signal; solve_no_open). apply same_tidy; [done|]. unfold signal. by rewrite sys_bind_eq. Qed.

Lemma conclude_tidy r w s : tidy r (conclude r w s).1 s (conclude r w s).2.
Proof.
  assert (NoOpen (conclude r)) by (unfold conclude; solve_no_open). apply same_tidy; [done|]. unfold conclude.
  rewrite sys_bind_eq. unfold mret, sys_ret. cbn [fst snd].
  lazymatch goal with |- owned (match ?x with _ => _ end) = _ => destruct x end; [|done..].
  by destruct (0 <? length (r_Signals (set_ended r))).
Qed.

Lemma poll_one_tidy awaited r w s : tidy r (poll_one awaited r w s).1.1 s (poll_one awaited r w s).2.
Proof.
  assert (NoOpen (poll_one awaited r)) as Hno by (unfold poll_one; solve_no_open). apply tidy_keep; [|apply Hno].
  unfold poll_one. destruct (_ && _); [|done]. rewrite sys_bind_eq. cbn. by destruct (groupProvenEmpty (r_PGID r) w s).1.
Qed.

Lemma poll_tidy awaited rs w s : tidy_all rs (poll_round awaited rs w s).1.1 s (poll_round awaited rs w s).2.
Proof.
  revert s. induction rs as [|r rs IH]; intros s; cbn [poll_round]; [apply tidy_all_refl|].
  rewrite !sys_bind_eq. cbn. eapply tidy_all_cons; [apply poll_one_tidy|apply IH].
Qed.

Lemma await_tidy polls awaited deadline rs w s :
  tidy_all rs (awaitEmpty polls awaited deadline rs w s).1 s (awaitEmpty polls awaited deadline rs w s).2.
Proof.
  revert rs s. induction polls as [|polls IH]; intros rs s; cbn [awaitEmpty]; rewrite sys_bind_eq;
    pose proof (poll_tidy awaited rs w s) as Hp; destruct (poll_round awaited rs w s) as [[rs1 p] s1]; cbn [fst snd] in *;
    (destruct (negb p); [exact Hp|]); rewrite sys_bind_eq; cbn [fst snd now observe];
    (destruct (negb _); [exact Hp|]); [exact Hp|].
  rewrite sys_bind_eq. cbn [fst snd sleep observe]. eapply tidy_all_trans; [exact Hp|]. apply (IH rs1 (tick (tick s1))).
Qed.

Lemma tidy_all_bind (m : sys (list recovery)) (f : list recovery → sys (list recovery)) rs w s :
  tidy_all rs (m w s).1 s (m w s).2 → (∀ rs1 s1, tidy_all rs1 (f rs1 w s1).1 s1 (f rs1 w s1).2) →
  tidy_all rs ((m ≫= f) w s).1 s ((m ≫= f) w s).2.
Proof. intros Hm Hf. rewrite sys_bind_eq. eapply tidy_all_trans; [exact Hm|apply Hf]. Qed.

Lemma end_groups_tidy polls mode deadline rs w s :
  tidy_all rs (end_groups polls mode deadline rs w s).1 s (end_groups polls mode deadline rs w s).2.
Proof.
  assert (Hon : ∀ f rs s, (∀ r s, tidy r (f r w s).1 s (f r w s).2) → tidy_all rs (on_proven f rs w s).1 s (on_proven f rs w s).2).
  { intros f rs0 s0 Hf. apply mapM_tidy. intros r s1. destruct (r_proven r); [apply Hf|apply tidy_refl]. }
  unfold end_groups. apply tidy_all_bind.
  { case_bool_decide; [|apply tidy_all_refl]. apply tidy_all_bind; [apply Hon; intros; apply signal_tidy|intros; apply await_tidy]. }
  clear rs s. intros rs s. apply tidy_all_bind.
  { apply Hon. intros r s1. destruct (r_emptied r); [apply tidy_refl|].
    pose proof (repin_tidy r w s1) as Hrep. rewrite sys_bind_eq. destruct (repin r w s1) as [r1 s2]. cbn [fst snd] in *.
    eapply tidy_trans; [exact Hrep|apply signal_tidy]. }
  clear rs s. intros rs s. rewrite sys_bind_eq. cbn [fst snd now observe].
  apply (tidy_all_bind (awaitEmpty polls r_proven (w_now w (k_t s) + killSettle) rs) (on_proven conclude) rs w (tick s));
    [apply await_tidy|intros; apply Hon; intros; apply conclude_tidy].
Qed.

Lemma classify_all_tidy mode rs w s : Forall (λ r, r_pins r = [] ∧ r_leader r = None) rs →
  tidy_all rs (mapM_sys (classify mode) rs w s).1.*2 s (mapM_sys (classify mode) rs w s).2.
Proof.
  intros Hrs. revert s. induction Hrs as [|r rs [Hp Hl] Hrs IH]; intros s; cbn [mapM_sys]; [apply tidy_all_refl|].
  rewrite !sys_bind_eq. cbn. eapply tidy_all_cons; [|apply IH].
  destruct (classify mode r w s) as [[b r'] s'] eqn:Hr. by eapply classify_tidy.
Qed.

Lemma release_all rs w s : (∀ fd, is_Some (k_fds s !! fd) → fd ∈ rs ≫= owned) →
  k_fds (mapM_sys release rs w s).2 = ∅.
Proof.
  intros H. apply map_empty. intros fd. apply eq_None_not_Some. intros Hfd.
  assert (Ho : (mapM_sys release rs w s).1 ≫= owned = []).
  { clear H Hfd. revert s. induction rs as [|r rs IH]; intros s; cbn [mapM_sys]; [done|].
    rewrite !sys_bind_eq. cbn. by rewrite release_owned, IH. }
  destruct (mapM_tidy release w rs) with (s := s) (fd := fd) as [Hin|[Hs Hn]]; [|exact Hfd| |by apply Hn, H].
  - intros r s0. destruct (release r w s0) as [r' s'] eqn:Hr. intros f Hf. right. by eapply release_closes.
  - rewrite Ho in Hin. by apply not_elem_of_nil in Hin.
Qed.

(** A recovery leaks no handle: however it ends, every pidfd it opened, of
    leaders and of members, pinned or discarded, has been closed when it
    returns. *)
Theorem RecoverGroups_closes_handles w polls groups host mode deadline :
  k_fds (RecoverGroups polls groups host mode deadline w fresh_state).2 = ∅.
Proof.
  unfold RecoverGroups. destruct (hostVerdict host w) as [[outcome reason]|]; rewrite sys_bind_eq.
  { apply release_all. intros fd [p Hp]. by apply (lookup_empty_Some fd p) in Hp. }
  assert (Hcl : ∀ fd, is_Some (k_fds (mapM_sys (classify mode) (new_recovery <$> groups) w fresh_state).2 !! fd) →
    fd ∈ (mapM_sys (classify mode) (new_recovery <$> groups) w fresh_state).1.*2 ≫= owned).
  { intros fd Hfd. destruct (classify_all_tidy mode (new_recovery <$> groups) w fresh_state) with (fd := fd) as [|[Hs _]]; [|done|done|].
    - by apply Forall_fmap, Forall_true.
    - destruct Hs as [p Hp]. by apply (lookup_empty_Some fd p) in Hp. }
  destruct (mapM_sys (classify mode) (new_recovery <$> groups) w fresh_state) as [cl s1]. cbn [fst snd] in *.
  rewrite sys_bind_eq. destruct (_ || _); rewrite sys_bind_eq; [by apply release_all|].
  apply release_all. intros fd Hfd. destruct (end_groups_tidy polls mode deadline cl.*2 w s1 fd Hfd) as [|[Hs Hn]]; [done|].
  by apply Hcl in Hs.
Qed.

(** ** A group that lives on is never declared ended *)

(** A process of the recorded group that stays alive, in the group and visible
    in [/proc] during the whole recovery; the group's number, being in use, is
    not given to another leader. *)
Record lasting (w : world) (g : Group) (p : nat) (pid : Z) : Prop := {
  la_pid : (0 < pid)%Z;
  la_member : ∀ t, ∃ x, w_kernel w t !! p = Some x ∧ kp_pid x = pid ∧ kp_pgid x = g_PGID g;
  la_alive : (∀ t x, w_kernel w t !! p = Some x → ExitedState (kp_state x) = false) ∨
             (∀ t x, w_kernel w t !! p = Some x → 1 < kp_tasks x);
  la_listed : ∀ t l, w_listing w t = Some l → pid ∈ l;
  la_read : ∀ t, w_fault w t (CStat pid) = None;
  la_number : ∀ t q y, w_kernel w t !! q = Some y → kp_pid y = g_PGID g → kp_start y = g_LeaderStart g;
}.

Section lasting.
Context (w : world) (Hw : kernel_ok w) (g : Group) (p : nat) (pid : Z) (Hl : lasting w g p pid).

Lemma find_lasting t : ∃ x, find_pid (w_kernel w t) pid = Some (p, x) ∧ w_kernel w t !! p = Some x ∧ kp_pgid x = g_PGID g.
Proof using Hw Hl.
  destruct (la_member _ _ _ _ Hl t) as (x & Hx & Hpid & Hpg).
  destruct (find_pid (w_kernel w t) pid) as [[q y]|] eqn:Hf.
  - apply (find_pid_Some) in Hf as [Hq Hqpid]. assert (q = p) as -> by (eapply (ko_pid w Hw); [exact Hq|exact Hx|congruence]).
    exists x. split_and!; [congruence|done|done].
  - unfold find_pid in Hf. pose proof (find_none _ _ Hf (p, x)) as Hn. cbn in Hn. apply Z.eqb_neq in Hn; [done|].
    apply list_elem_of_In. by apply elem_of_map_to_list.
Qed.

Lemma walk_lasting s : (walk_entry (g_PGID g) recoveryLive pid w s).1 = [pid].
Proof using Hw Hl.
  unfold walk_entry, procStat. rewrite !sys_bind_eq. unfold ProcStat, observe. cbn [fst snd].
  rewrite (la_read _ _ _ _ Hl). destruct (find_lasting (k_t s)) as (x & -> & Hx & Hpg). cbn. rewrite Hpg, Z.eqb_refl. cbn.
  unfold recoveryLive. destruct (la_alive _ _ _ _ Hl) as [Ha|Ha].
  - unfold isZombieState. by rewrite (Ha _ _ Hx).
  - destruct (negb (isZombieState (kp_state x))); [done|]. rewrite !sys_bind_eq. unfold countProcTasks, observe. cbn.
    destruct (w_fault w _ _); [done|]. destruct (find_lasting (S (k_t s))) as (y & -> & Hy & _). cbn.
    specialize (Ha _ _ Hy). destruct (kp_tasks y) as [|[|n]]; [lia|lia|done].
Qed.

Lemma members_lasting s : match (recoveryMemberPIDs (g_PGID g) w s).1 with Some l => pid ∈ l | None => True end.
Proof using Hw Hl.
  unfold recoveryMemberPIDs, walkGroupMembers. rewrite sys_bind_eq. unfold listing, observe. cbn [fst snd].
  destruct (w_listing w (k_t s)) as [l|] eqn:Hlist; [|done]. rewrite sys_bind_eq. cbn [mret sys_ret fst].
  assert (Hin : pid ∈ List.filter (λ pid, (0 <? pid)%Z) l).
  { apply list_elem_of_In, List.filter_In. split; [|apply Z.ltb_lt, (la_pid _ _ _ _ Hl)].
    apply list_elem_of_In. eapply (la_listed _ _ _ _ Hl). exact Hlist. }
  clear Hlist. generalize (tick s) as s0. induction (List.filter _ l) as [|x xs IH]; intros s0; [by apply not_elem_of_nil in Hin|].
  cbn [mapM_sys]. rewrite !sys_bind_eq. cbn. apply elem_of_app. apply elem_of_cons in Hin as [<-|Hin].
  - left. rewrite walk_lasting. apply list_elem_of_here.
  - right. apply (IH Hin).
Qed.

Lemma not_proven_empty s : (groupProvenEmpty (g_PGID g) w s).1 ≠ ProvenEmpty.
Proof using Hw Hl.
  unfold groupProvenEmpty. destruct (_ <=? 1)%Z; [done|]. rewrite sys_bind_eq.
  assert ((groupKill (g_PGID g) w s).1 ≠ Some ESRCH) as Hk.
  { unfold groupKill, observe. cbn. destruct (la_member _ _ _ _ Hl (k_t s)) as (x & Hx & _ & Hpg).
    assert (existsb (λ x, (kp_pgid x.2 =? g_PGID g)%Z) (map_to_list (w_kernel w (k_t s))) = true) as ->.
    { apply existsb_exists. exists (p, x). split; [apply list_elem_of_In; by apply elem_of_map_to_list|]. cbn. by apply Z.eqb_eq. }
    by destruct (w_fault _ _ _). }
  rewrite bool_decide_false by done. cbv zeta.
  assert (Hscan : ∀ hidden s0, match (empty_scan (g_PGID g) hidden w s0).1 with Some r => r ≠ ProvenEmpty | None => False end).
  { intros hidden s0. unfold empty_scan. rewrite sys_bind_eq. cbn. pose proof (members_lasting s0) as Hm.
    destruct (recoveryMemberPIDs (g_PGID g) w s0).1 as [[|]|]; [by apply not_elem_of_nil in Hm|done|done]. }
  rewrite sys_bind_eq. specialize (Hscan (bool_decide ((groupKill (g_PGID g) w s).1 = Some EPERM)) (groupKill (g_PGID g) w s).2).
  destruct (empty_scan _ _ w _) as [[r|] s1]; [exact Hscan|done].
Qed.

Lemma not_reused r s : r_PGID r = g_PGID g → r_LeaderStart r = g_LeaderStart g → (leaderIdentity r w s).1 ≠ "pgid_reused".
Proof using Hl.
  intros Hpg Hst. unfold leaderIdentity. rewrite sys_bind_eq. cbn. unfold ProcStat, observe. cbn. rewrite Hpg, Hst.
  destruct (w_fault w (k_t s) _); [by repeat case_bool_decide|].
  destruct (find_pid _ _) as [[q y]|] eqn:Hf; [|by repeat case_bool_decide]. cbn.
  apply find_pid_Some in Hf as [Hq Hqpid]. rewrite (la_number _ _ _ _ Hl _ _ _ Hq Hqpid), Z.eqb_refl. cbn.
  by destruct (negb _).
Qed.

(** What is never concluded of the group. *)
Definition spared (r : recovery) : Prop :=
  r_PGID r = g_PGID g → r_LeaderStart r = g_LeaderStart g →
  r_emptied r = false ∧ r_Outcome r ≠ OutcomeEmpty ∧ r_Outcome r ≠ OutcomeTerminated.

Lemma spared_finish outcome reason r : spared r → outcome ≠ OutcomeEmpty → outcome ≠ OutcomeTerminated →
  spared (finish outcome reason r).
Proof using. intros H H1 H2 Hpg Hst. destruct (H Hpg Hst) as (He & _). done. Qed.

Lemma spared_same r r' : spared r → r_PGID r' = r_PGID r → r_LeaderStart r' = r_LeaderStart r →
  r_emptied r' = r_emptied r → r_Outcome r' = r_Outcome r → spared r'.
Proof using. unfold spared. intros H -> -> -> ->. exact H. Qed.

Lemma release_same r s : let r' := (release r w s).1 in
  r_PGID r' = r_PGID r ∧ r_LeaderStart r' = r_LeaderStart r ∧ r_emptied r' = r_emptied r ∧ r_Outcome r' = r_Outcome r.
Proof using. cbv zeta. unfold release. by rewrite !sys_bind_eq. Qed.

Lemma spared_empty r r' s : spared r → r_PGID r' = r_PGID r → r_LeaderStart r' = r_LeaderStart r →
  (groupProvenEmpty (r_PGID r) w s).1 = ProvenEmpty → spared r'.
Proof using Hw Hl. intros H Hpg Hst He Hpg' Hst'. rewrite Hpg in Hpg'. rewrite Hpg' in He. by apply not_proven_empty in He. Qed.

Lemma spared_unproven reason r s : spared r → (reason = "pgid_reused" → r_PGID r = g_PGID g → r_LeaderStart r ≠ g_LeaderStart g) →
  spared (finishUnproven reason r w s).1.
Proof using Hw Hl.
  intros H Hreason. unfold finishUnproven. rewrite sys_bind_eq. pose proof (release_same r s) as (Hp & Hs & He & Ho).
  destruct (release r w s) as [r1 s1]. cbn [fst snd] in *. assert (H1 : spared r1) by (by eapply spared_same).
  case_bool_decide as Hr.
  - intros Hpg Hst. cbn in *. destruct (Hreason Hr); congruence.
  - rewrite sys_bind_eq. cbn [mret sys_ret fst]. destruct (groupProvenEmpty (r_PGID r1) w s1).1 eqn:Hg.
    + by eapply spared_empty.
    + apply spared_finish; [|done|done]. by eapply spared_same.
    + by apply spared_finish.
Qed.

Lemma spared_classify mode r s : spared r → spared (classify mode r w s).1.2.
Proof using Hw Hl.
  intros H. unfold classify. destruct (_ =? 0)%Z; [by apply spared_finish|]. destruct (_ <=? 1)%Z; [by apply spared_finish|].
  rewrite sys_bind_eq. destruct (groupProvenEmpty (r_PGID r) w s) as [[|pids|] s1] eqn:Hg; cbn [fst snd].
  { eapply (spared_empty r _ s); [done..|]. by rewrite Hg. }
  2: { by apply spared_finish. }
  unfold classify_identity. set (rm := set_members pids r). assert (Hm : spared rm) by (by eapply spared_same).
  destruct (_ =? 0)%Z; [by apply spared_finish|]. rewrite sys_bind_eq.
  assert (Hreused : ∀ r0 s0, r_PGID r0 = r_PGID r → r_LeaderStart r0 = r_LeaderStart r →
    (leaderIdentity r0 w s0).1 = "pgid_reused" → r_PGID r0 = g_PGID g → r_LeaderStart r0 ≠ g_LeaderStart g).
  { intros r0 s0 _ _ Hid Hpg Hst. by apply (not_reused r0 s0). }
  pose proof (Hreused rm s1 eq_refl eq_refl) as Hre. destruct (leaderIdentity rm w s1) as [reason s2]. cbn [fst snd] in *.
  destruct (negb _); [rewrite sys_bind_eq; by apply spared_unproven|].
  destruct (_ =? w_pgrp w)%Z; [by apply spared_finish|]. case_bool_decide; [by apply spared_finish|].
  rewrite sys_bind_eq. destruct (pidfdOpen _ w s2) as [[lfd|e] s3]; cbn [fst snd].
  2: { case_bool_decide; [rewrite sys_bind_eq; by apply spared_unproven|by apply spared_finish]. }
  set (rl := set_handles _ _ rm). assert (Hrl : spared rl) by (by eapply spared_same).
  unfold classify_pin. rewrite sys_bind_eq. pose proof (Hreused rl s3 eq_refl eq_refl) as Hre2.
  destruct (leaderIdentity rl w s3) as [reason2 s4]. cbn [fst snd] in *.
  destruct (negb _); [rewrite sys_bind_eq; by apply spared_unproven|].
  rewrite sys_bind_eq. destruct (negb _); [rewrite sys_bind_eq; by apply spared_unproven|].
  rewrite sys_bind_eq. destruct (pinMembers _ _ w _) as [[pins|] s5]; cbn [fst snd]; [|by apply spared_finish].
  rewrite sys_bind_eq. destruct (negb _); [rewrite !sys_bind_eq; by apply spared_unproven|]. by eapply spared_same.
Qed.

Lemma spared_signal sig r s : spared r → spared (signal sig r w s).1.
Proof using. intros H. unfold signal. rewrite sys_bind_eq. by eapply spared_same. Qed.

Lemma spared_repin r s : spared r → spared (repin r w s).1.
Proof using.
  intros H. unfold repin. rewrite sys_bind_eq. cbv zeta. cbn [r_leader set_handles].
  destruct (r_leader r) as [lfd|]; [|by eapply spared_same]. rewrite sys_bind_eq. destruct (negb _); [by eapply spared_same|].
  rewrite sys_bind_eq. destruct (negb _); [by eapply spared_same|]. rewrite sys_bind_eq.
  destruct (pinMembers _ _ w _) as [[fresh|] s5]; cbn [fst snd]; [|by eapply spared_same].
  rewrite sys_bind_eq. destruct (negb _); [rewrite sys_bind_eq; by eapply spared_same|by eapply spared_same].
Qed.

Lemma spared_conclude r s : spared r → spared (conclude r w s).1.
Proof using Hw Hl.
  intros H. unfold conclude. rewrite sys_bind_eq. cbn [mret sys_ret fst].
  destruct (r_emptied r) eqn:He.
  - intros Hpg Hst. exfalso. destruct (H) as (He' & _); [|  |congruence]; revert Hpg Hst; cbn; by case_match.
  - destruct (groupProvenEmpty (r_PGID r) w s) as [[|pids|] s1] eqn:Hg; cbn [fst].
    + eapply (spared_empty r _ s); [done|by case_match..|by rewrite Hg].
    + apply spared_finish; [|done|done]. by eapply spared_same.
    + apply spared_finish; [|done|done]. by eapply spared_same.
Qed.

Lemma spared_poll awaited r s : spared r → spared (poll_one awaited r w s).1.1.
Proof using Hw Hl.
  intros H. unfold poll_one. destruct (_ && _); [|done]. rewrite sys_bind_eq. cbn [mret sys_ret fst].
  destruct (groupProvenEmpty (r_PGID r) w s) as [[|pids|] s1] eqn:Hg; cbn [fst]; [|done|done].
  eapply (spared_empty r _ s); [done..|by rewrite Hg].
Qed.
End lasting.

(** *** Every group is reported *)

(** What the record says of a group. *)
Definition ident (r : recovery) : string * Z * Z := (r_Name r, r_PGID r, r_LeaderStart r).

Lemma ident_unproven reason r w s : ident (finishUnproven reason r w s).1 = ident r.
Proof.
  unfold finishUnproven. rewrite sys_bind_eq. assert (ident (release r w s).1 = ident r) as Hi by (unfold release; by rewrite !sys_bind_eq).
  case_bool_decide; [exact Hi|]. rewrite sys_bind_eq. cbn [mret sys_ret fst]. by destruct (groupProvenEmpty _ w _).1.
Qed.

Lemma ident_classify mode r w s : ident (classify mode r w s).1.2 = ident r.
Proof.
  unfold classify. destruct (_ =? 0)%Z; [done|]. destruct (_ <=? 1)%Z; [done|]. rewrite sys_bind_eq.
  destruct (groupProvenEmpty _ w s) as [[|pids|] s1]; cbn [fst snd]; [done| |done]. unfold classify_identity.
  assert (Hu : ∀ reason r0 s0, ident (((r ← finishUnproven reason r0; mret (false, r)) : sys (bool * recovery)) w s0).1.2 = ident r0)
    by (intros; rewrite sys_bind_eq; apply ident_unproven).
  destruct (_ =? 0)%Z; [done|]. rewrite sys_bind_eq. destruct (negb _); [(etrans; [apply Hu|done])|]. destruct (_ =? w_pgrp w)%Z; [done|].
  case_bool_decide; [done|]. rewrite sys_bind_eq. destruct (pidfdOpen _ w _) as [[lfd|e] s2]; cbn [fst snd].
  2: { case_bool_decide; [(etrans; [apply Hu|done])|done]. }
  unfold classify_pin. rewrite sys_bind_eq. destruct (negb _); [(etrans; [apply Hu|done])|]. rewrite sys_bind_eq. destruct (negb _); [(etrans; [apply Hu|done])|].
  rewrite sys_bind_eq. destruct (pinMembers _ _ w _) as [[pins|] s3]; cbn [fst snd]; [|done]. rewrite sys_bind_eq.
  destruct (negb _); [rewrite sys_bind_eq; (etrans; [apply Hu|done])|done].
Qed.

Lemma ident_signal sig r w s : ident (signal sig r w s).1 = ident r.
Proof. unfold signal. by rewrite sys_bind_eq. Qed.

Lemma ident_repin r w s : ident (repin r w s).1 = ident r.
Proof.
  unfold repin. rewrite sys_bind_eq. cbv zeta. cbn [r_leader set_handles]. destruct (r_leader r) as [lfd|]; [|done].
  rewrite sys_bind_eq. destruct (negb _); [done|]. rewrite sys_bind_eq. destruct (negb _); [done|]. rewrite sys_bind_eq.
  destruct (pinMembers _ _ w _) as [[fresh|] s5]; cbn [fst snd]; [|done]. rewrite sys_bind_eq.
  destruct (negb _); [by rewrite sys_bind_eq|done].
Qed.

Lemma ident_conclude r w s : ident (conclude r w s).1 = ident r.
Proof.
  unfold conclude. rewrite sys_bind_eq. unfold mret, sys_ret. cbn [fst].
  lazymatch goal with |- ident (match ?x with _ => _ end) = _ => destruct x end; [|done..].
  by destruct (0 <? length (r_Signals (set_ended r))).
Qed.

(** A property of each group that every phase keeps, kept by all of them. *)
Lemma mapM_all {A} (P : A → recovery → Prop) (f : recovery → sys recovery) w rs (l : list A) :
  (∀ a r s, P a r → P a (f r w s).1) → ∀ s, Forall2 P l rs → Forall2 P l (mapM_sys f rs w s).1.
Proof.
  intros Hf s H. revert s. induction H as [|a r l rs Hr H IH]; intros s; cbn [mapM_sys]; [constructor|].
  rewrite !sys_bind_eq. cbn. constructor; [by apply Hf|apply IH].
Qed.

Lemma await_all {A} (P : A → recovery → Prop) polls awaited deadline w :
  (∀ a r s, P a r → P a (poll_one awaited r w s).1.1) →
  ∀ rs (l : list A) s, Forall2 P l rs → Forall2 P l (awaitEmpty polls awaited deadline rs w s).1.
Proof.
  intros Hf. assert (Hpoll : ∀ rs (l : list A) s, Forall2 P l rs → Forall2 P l (poll_round awaited rs w s).1.1).
  { intros rs l s H. revert s. induction H as [|a r l rs Hr H IH]; intros s; cbn [poll_round]; [constructor|].
    rewrite !sys_bind_eq. cbn. constructor; [by apply Hf|apply IH]. }
  induction polls as [|polls IH]; intros rs l s H; cbn [awaitEmpty]; rewrite sys_bind_eq;
    pose proof (Hpoll rs l s H) as Hp; destruct (poll_round awaited rs w s) as [[rs1 b] s1]; cbn [fst snd] in *;
    (destruct (negb b); [exact Hp|]); rewrite sys_bind_eq; (destruct (negb _); [exact Hp|]); [exact Hp|].
  rewrite sys_bind_eq. by apply IH.
Qed.

Lemma end_groups_all {A} (P : A → recovery → Prop) polls mode deadline w :
  (∀ a r s, P a r → P a (poll_one r_proven r w s).1.1) → (∀ a sig r s, P a r → P a (signal sig r w s).1) →
  (∀ a r s, P a r → P a (repin r w s).1) → (∀ a r s, P a r → P a (conclude r w s).1) →
  ∀ rs (l : list A) s, Forall2 P l rs → Forall2 P l (end_groups polls mode deadline rs w s).1.
Proof.
  intros Hpoll Hsig Hrep Hcon rs l s H.
  assert (Hon : ∀ f rs s, (∀ a r s, P a r → P a (f r w s).1) → Forall2 P l rs → Forall2 P l (on_proven f rs w s).1).
  { intros f rs0 s0 Hf. apply mapM_all. intros a r s1 Ha. by destruct (r_proven r); [apply Hf|]. }
  unfold end_groups. rewrite sys_bind_eq.
  match goal with |- Forall2 P l ((_ ← on_proven _ (?m w s).1; _) w _).1 => assert (H1 : Forall2 P l (m w s).1) end.
  { case_bool_decide; [|done]. rewrite sys_bind_eq. apply await_all; [done|]. apply Hon; [intros; by apply Hsig|done]. }
  match goal with |- Forall2 P l ((_ ← on_proven _ (?m w s).1; _) w _).1 => destruct (m w s) as [rs1 s1] end. cbn [fst snd] in *.
  rewrite sys_bind_eq. match goal with |- Forall2 P l ((_ ← now; _) w ?s0).1 => idtac end.
  match goal with |- context [(on_proven ?f rs1 w s1).1] => assert (H2 : Forall2 P l (on_proven f rs1 w s1).1) end.
  { apply Hon; [|done]. intros a r s2 Ha. destruct (r_emptied r); [done|]. rewrite sys_bind_eq. by apply Hsig, Hrep. }
  rewrite sys_bind_eq. rewrite sys_bind_eq. apply Hon; [done|]. by apply await_all.
Qed.

(** What holds of every group from its verdict or its classification on holds
    of what is reported. *)
Lemma RecoverGroups_all (P : Group → recovery → Prop) polls groups host mode deadline w s0 :
  (∀ g outcome reason, hostVerdict host w = Some (outcome, reason) → P g (finish outcome reason (new_recovery g))) →
  (∀ g s, P g (classify mode (new_recovery g) w s).1.2) →
  (∀ g r s, P g r → P g (poll_one r_proven r w s).1.1) → (∀ g sig r s, P g r → P g (signal sig r w s).1) →
  (∀ g r s, P g r → P g (repin r w s).1) → (∀ g r s, P g r → P g (conclude r w s).1) →
  ∃ rs, (RecoverGroups polls groups host mode deadline w s0).1 = recoveryResults rs ∧ Forall2 P groups rs.
Proof.
  intros Hhost Hcl Hpoll Hsig Hrep Hcon. unfold RecoverGroups.
  destruct (hostVerdict host w) as [[outcome reason]|]; rewrite sys_bind_eq.
  { eexists. split; [done|]. rewrite <-list_fmap_compose. apply Forall2_fmap_r, Forall_Forall2_diag, Forall_true. cbn. intros g. by apply Hhost. }
  assert (H : ∀ s, Forall2 P groups (mapM_sys (classify mode) (new_recovery <$> groups) w s).1.*2).
  { clear -Hcl. induction groups as [|g groups IH]; intros s; cbn [fmap list_fmap mapM_sys]; [constructor|].
    rewrite !sys_bind_eq. cbn. constructor; [apply Hcl|apply IH]. }
  specialize (H s0). destruct (mapM_sys (classify mode) (new_recovery <$> groups) w s0) as [cl s1]. cbn [fst snd] in *.
  rewrite sys_bind_eq. destruct (_ || _); rewrite sys_bind_eq; eexists; (split; [done|]); [exact H|]. by apply end_groups_all.
Qed.

Lemma Forall2_elem_of_l {A B} (P : A → B → Prop) l k x : Forall2 P l k → x ∈ l → ∃ y, y ∈ k ∧ P x y.
Proof.
  induction 1 as [|a b l k Hab H IH]; [by intros ?%not_elem_of_nil|]. intros [->|Hx]%elem_of_cons.
  - exists b. split; [apply list_elem_of_here|done].
  - destruct (IH Hx) as (y & Hy & HP). exists y. split; [by apply list_elem_of_further|done].
Qed.

Lemma Forall2_elem_of_r {A B} (P : A → B → Prop) l k y : Forall2 P l k → y ∈ k → ∃ x, x ∈ l ∧ P x y.
Proof. intros H Hy. by apply Forall2_flip in H; eapply Forall2_elem_of_l in H. Qed.

Definition report_of (g : Group) : string * Z * Z := (g_Name g, g_PGID g, g_LeaderStart g).

(** What is reported of a group that lives on. *)
Lemma living_reported w g p pid polls groups host mode deadline s0 :
  kernel_ok w → lasting w g p pid → g ∈ groups → ho_BootID host = ho_BootID (w_host w) →
  let results := (RecoverGroups polls groups host mode deadline w s0).1 in
  (∃ rg, rg ∈ results ∧ (rg_Name rg, rg_PGID rg, rg_LeaderStart rg) = report_of g) ∧
  ∀ rg, rg ∈ results → rg_PGID rg = g_PGID g → rg_LeaderStart rg = g_LeaderStart g →
    rg_Outcome rg ≠ OutcomeEmpty ∧ rg_Outcome rg ≠ OutcomeTerminated.
Proof.
  intros Hw Hl Hg Hboot.
  destruct (RecoverGroups_all (λ g' r, ident r = report_of g' ∧ spared g r) polls groups host mode deadline w s0) as (rs & -> & Hall).
  - intros g' outcome reason. unfold hostVerdict. rewrite Hboot, (bool_decide_true (ho_BootID (w_host w) = ho_BootID (w_host w))) by done. cbn [negb].
    destruct (_ || _); [intros [= <- <-]; done|]. destruct (_ || _); [intros [= <- <-]; done|done].
  - intros g' s. split; [apply ident_classify|]. by eapply spared_classify.
  - intros g' r s [Hi Hs]. split; [|by eapply spared_poll]. unfold poll_one. destruct (_ && _); [|done].
    rewrite sys_bind_eq. cbn [mret sys_ret fst]. by destruct (groupProvenEmpty _ w s).1.
  - intros g' sig r s [Hi Hs]. split; [by rewrite ident_signal|by apply spared_signal].
  - intros g' r s [Hi Hs]. split; [by rewrite ident_repin|by apply spared_repin].
  - intros g' r s [Hi Hs]. split; [by rewrite ident_conclude|by eapply spared_conclude].
  - unfold recoveryResults. split.
    + destruct (Forall2_elem_of_l _ _ _ _ Hall Hg) as (r & Hr & Hi & _). exists (recovered r). split; [|exact Hi].
      rewrite merge_sort_Permutation. by apply list_elem_of_fmap_2.
    + intros rg. rewrite merge_sort_Permutation. intros (r & -> & Hr)%list_elem_of_fmap Hpg Hst.
      destruct (Forall2_elem_of_r _ _ _ _ Hall Hr) as (g' & _ & _ & Hs). destruct (Hs Hpg Hst) as (_ & H1 & H2). done.
Qed.

(** C9: a recovery never declares a living group gone: if a process of a
    recorded group stays alive, in the group and visible during the whole
    recovery, whatever else happens and whichever other calls fail, the report
    of a record of this boot lists that group, and neither as empty nor as
    terminated. *)
Theorem RecoverGroups_spares_living w g p pid polls groups host mode deadline :
  kernel_ok w → lasting w g p pid → g ∈ groups → ho_BootID host = ho_BootID (w_host w) →
  let results := (RecoverGroups polls groups host mode deadline w fresh_state).1 in
  (∃ rg, rg ∈ results ∧ (rg_Name rg, rg_PGID rg, rg_LeaderStart rg) = report_of g) ∧
  ∀ rg, rg ∈ results → rg_PGID rg = g_PGID g → rg_LeaderStart rg = g_LeaderStart g →
    rg_Outcome rg ≠ OutcomeEmpty ∧ rg_Outcome rg ≠ OutcomeTerminated.
Proof. apply living_reported. Qed.

(** A crashed run is not forgotten while something of it lives: if the PID
    file records, from this boot, a group of which a process stays alive and
    visible, a new run is never allowed to take the file over, and [stop] never
    succeeds, nor removes the file unless forced to. *)
Theorem crashed_run_not_forgotten w g p pid polls file1 rec groups force timeout s :
  kernel_ok w → lasting w g p pid → dr_Groups rec = Some groups → g ∈ groups →
  ho_BootID (dr_Host rec) = ho_BootID (w_host w) →
  (assessCrashedRun polls true file1 (Ok rec) w s).1 ≠ Ok true ∧
  ∀ lease, let '(removed, err) := (stopDeadDaemon polls lease file1 (Ok rec) force timeout w s).1 in
    is_Some err ∧ (removed = true → force = true).
Proof.
  intros Hw Hl Hgroups Hg Hboot.
  assert (Hliving : ∀ mode deadline s0 (ok : RecoveredGroup → bool),
    (∀ rg, ok rg = true → rg_Outcome rg = OutcomeEmpty ∨ rg_Outcome rg = OutcomeTerminated) →
    forallb ok (RecoverGroups polls groups (dr_Host rec) mode deadline w s0).1 = false).
  { intros mode deadline s0 ok Hok.
    destruct (living_reported w g p pid polls groups (dr_Host rec) mode deadline s0 Hw Hl Hg Hboot) as [(rg & Hin & Hid) Hno].
    apply not_true_iff_false. intros Hall. rewrite forallb_forall in Hall. injection Hid as _ Hpg Hst.
    destruct (Hno rg Hin Hpg Hst) as [H1 H2]. destruct (Hok rg) as [|]; [apply Hall; by apply list_elem_of_In|done|done]. }
  split.
  - unfold assessCrashedRun. cbn [negb]. rewrite sys_bind_eq. destruct (IsAliveFromPIDFile file1 w s) as [[[] pid1] s1]; cbn [fst snd]; [done|].
    rewrite Hgroups, sys_bind_eq. cbn [now observe fst snd]. rewrite sys_bind_eq. cbn [mret sys_ret fst].
    rewrite Hliving; [done|]. intros rg H. left. by apply bool_decide_eq_true in H.
  - intros lease. unfold stopDeadDaemon. destruct lease as [held|]; [done|]. rewrite sys_bind_eq.
    destruct (IsAliveFromPIDFile file1 w s) as [[[] pid1] s1]; cbn [fst snd]; [done|].
    rewrite Hgroups, sys_bind_eq. cbn [now observe fst snd]. rewrite sys_bind_eq. cbn [mret sys_ret fst].
    rewrite Hliving; [by destruct force|]. intros rg [H|H]%orb_true_iff; apply bool_decide_eq_true in H; auto.
Qed.

(** ** Waiting ends *)

(** On a clock that advances with every call, as many polls as the wait has
    nanoseconds are enough: more change nothing. *)
Lemma awaitEmpty_enough w polls more awaited deadline : (∀ t, w_now w t < w_now w (S t))%Z →
  ∀ rs s, Z.to_nat (deadline - w_now w (k_t s)) <= polls →
  awaitEmpty (polls + more) awaited deadline rs w s = awaitEmpty polls awaited deadline rs w s.
Proof.
  intros Hclock. assert (Hmono : ∀ t t', t <= t' → (w_now w t ≤ w_now w t')%Z).
  { intros t t'. induction 1 as [|t' _ IH]; [done|]. specialize (Hclock t'). lia. }
  assert (Hround : ∀ rs s, k_t s <= k_t (poll_round awaited rs w s).2).
  { intros rs s. apply (silent (m:=poll_round awaited rs) w s). }
  induction polls as [|polls IH]; intros rs s Hp; cbn [awaitEmpty Nat.add].
  - destruct more; [done|]. cbn [awaitEmpty]. rewrite !sys_bind_eq. specialize (Hround rs s).
    destruct (poll_round awaited rs w s) as [[rs1 b] s1]. cbn [fst snd] in *. destruct (negb b); [done|]. rewrite !sys_bind_eq.
    cbn [now observe fst snd]. specialize (Hmono _ _ Hround). rewrite (proj2 (Z.ltb_ge _ _)) by lia. done.
  - rewrite !sys_bind_eq. specialize (Hround rs s).
    destruct (poll_round awaited rs w s) as [[rs1 b] s1]. cbn [fst snd] in *. destruct (negb b); [done|]. rewrite !sys_bind_eq.
    cbn [now observe fst snd]. specialize (Hmono _ _ Hround). destruct (Z.ltb_spec (w_now w (k_t s1)) deadline); [|done]. cbn [negb].
    rewrite !sys_bind_eq. cbn [sleep observe fst snd]. apply IH. cbn [tick k_t].
    pose proof (Hclock (k_t s1)). pose proof (Hclock (S (k_t s1))). lia.
Qed.

(** A recovery ends: on a clock that advances with every call, a number of
    polls that covers the time to the deadline and the settling time is enough
    for both waits, and more polls change neither the report nor what is
    signalled. *)
Theorem RecoverGroups_polls_enough w polls more groups host mode deadline :
  (∀ t, w_now w t < w_now w (S t))%Z →
  Z.to_nat (deadline - w_now w 0) <= polls → Z.to_nat killSettle <= polls →
  RecoverGroups (polls + more) groups host mode deadline w fresh_state =
  RecoverGroups polls groups host mode deadline w fresh_state.
Proof.
  intros Hclock Hd Hk. assert (Hmono : ∀ t t', t <= t' → (w_now w t ≤ w_now w t')%Z).
  { intros t t'. induction 1 as [|t' _ IH]; [done|]. specialize (Hclock t'). lia. }
  assert (Hend : ∀ rs s, end_groups (polls + more) mode deadline rs w s = end_groups polls mode deadline rs w s).
  { intros rs s. unfold end_groups.
    assert (H1 : (if bool_decide (mode = RecoverGraceful)
      then rs ← on_proven (signal "SIGTERM") rs; awaitEmpty (polls + more) r_proven deadline rs else mret rs) w s =
      (if bool_decide (mode = RecoverGraceful)
      then rs ← on_proven (signal "SIGTERM") rs; awaitEmpty polls r_proven deadline rs else mret rs) w s).
    { case_bool_decide; [|done]. rewrite !sys_bind_eq. apply awaitEmpty_enough; [done|].
      specialize (Hmono 0 (k_t (on_proven (signal "SIGTERM") rs w s).2) ltac:(lia)). lia. }
    rewrite !sys_bind_eq, H1. 
    match goal with |- context [(if ?b then ?x else ?y) w s] => destruct ((if b then x else y) w s) as [rs1 s1] end. cbn [fst snd].
    destruct (on_proven _ rs1 w s1) as [rs2 s2]. cbn [fst snd]. rewrite ?sys_bind_eq. cbn [now observe fst snd]. rewrite ?sys_bind_eq.
    rewrite awaitEmpty_enough; [done|done|]. cbn [tick k_t]. specialize (Hclock (k_t s2)). lia. }
  unfold RecoverGroups. destruct (hostVerdict host w) as [[outcome reason]|]; [done|]. rewrite !sys_bind_eq.
  destruct (_ || _); [done|]. by rewrite Hend.
Qed.

(** ** Reading a process's line *)

(** A word of the line: not empty, without spaces or parentheses. *)
Definition stat_word (x : string) : Prop := x ≠ "" ∧ str_all (λ c, negb (space1 c) && negb (bool_decide (c = ")"%char))) x = true.

Lemma split_fields_word x t : str_all (λ c, negb (space1 c) && negb (bool_decide (c = ")"%char))) x = true →
  split_fields (x +:+ t) = (x +:+ (split_fields t).1, (split_fields t).2).
Proof.
  induction x as [|c x IH]; intros Hx; cbn [String.append]; [by destruct (split_fields t)|].
  unfold str_all in Hx. cbn in Hx. apply andb_true_iff in Hx as [[Hc _]%andb_true_iff Hx]. apply negb_true_iff in Hc.
  cbn [split_fields]. rewrite (IH Hx). cbn. by rewrite Hc.
Qed.

Lemma Fields_join ws : Forall stat_word ws → Fields (join " " ws) = ws.
Proof.
  induction 1 as [|x ws [Hne Hx] Hws IH]; [done|]. unfold Fields in *. destruct ws as [|y ws].
  - cbn [join]. rewrite <-(str_app_nil x), split_fields_word by done. cbn. rewrite str_app_nil, bool_decide_false by done. done.
  - cbn [join] in *. rewrite split_fields_word by done. change (" " +:+ ?s) with (String " "%char s).
    cbn [split_fields fst snd]. change (space1 " "%char) with true. cbv iota.
    destruct (split_fields _) as [word words]. cbn [fst snd]. rewrite str_app_nil, bool_decide_false by done.
    f_equal. exact IH.
Qed.

Lemma join_no_byte ws : Forall stat_word ws → str_mem ")"%char (join " " ws) = false.
Proof.
  assert (Hw : ∀ x, stat_word x → str_mem ")"%char x = false).
  { intros x [_ Hx]. apply str_all_not_mem. unfold str_all in *. rewrite forallb_forall in *. intros c Hc.
    specialize (Hx c Hc). by apply andb_true_iff in Hx as [_ ?]. }
  induction 1 as [|x ws Hx Hws IH]; [done|]. destruct ws as [|y ws]; [by apply Hw|].
  cbn [join] in *. by rewrite !str_mem_app, Hw, IH.
Qed.

Lemma itoa_word z : stat_word (itoa z).
Proof.
  split; [apply itoa_nonempty|]. apply str_all_itoa; [|done]. intros c Hc. unfold is_digit, in_range in Hc.
  apply andb_true_iff in Hc as [H1%Nat.leb_le H2%Nat.leb_le].
  apply andb_true_iff. split; apply negb_true_iff.
  - unfold space1. apply orb_false_iff. split; [|apply bool_decide_eq_false; lia].
    unfold in_range. apply andb_false_iff. right. apply Nat.leb_gt. lia.
  - apply bool_decide_eq_false. intros ->. change (code ")"%char) with 41 in H1. lia.
Qed.

(** The line of a process is read back whatever the process calls itself:
    with spaces, parentheses or numbers in its name, the state, the group and
    the start time are those the kernel wrote. *)
Theorem parse_stat_line pid comm state ppid pgid others start tail :
  stat_word (String state "") → length others = 16 → int_range pgid = true → (0 ≤ start < 2 ^ 64)%Z →
  parse_stat (itoa pid +:+ " (" +:+ comm +:+ ") " +:+
    join " " (String state "" :: itoa ppid :: itoa pgid :: (itoa <$> others) ++ itoa start :: (itoa <$> tail)))
  = Some (mkProcInfo_ state pgid start).
Proof.
  intros Hst Hlen Hpg Hstart. set (ws := String state "" :: _).
  assert (Hws : Forall stat_word ws).
  { do 3 (apply Forall_cons; split; [by try apply itoa_word|]).
    apply Forall_app. split; [apply Forall_fmap, Forall_true; intros; apply itoa_word|].
    constructor; [apply itoa_word|]. apply Forall_fmap, Forall_true. intros; apply itoa_word. }
  unfold parse_stat.
  rewrite (proj2 (cut_last_Some ")"%char _ (itoa pid +:+ " (" +:+ comm) (" " +:+ join " " ws))).
  2: { split; [by rewrite !str_app_assoc|]. by rewrite str_mem_app, join_no_byte. }
  change (" " +:+ join " " ws) with (String " "%char (join " " ws)). cbv beta iota zeta. rewrite Fields_join by done.
  assert (Hl : length ws = 20 + length tail) by (cbn; rewrite length_app, length_fmap; cbn; rewrite length_fmap; lia).
  rewrite (proj2 (Nat.ltb_ge _ _)) by lia.
  assert (H19 : ws !! 19 = Some (itoa start)).
  { change (ws !! 19) with (((itoa <$> others) ++ itoa start :: (itoa <$> tail)) !! 16).
    rewrite lookup_app_r by (rewrite length_fmap; lia). by rewrite length_fmap, Hlen. }
  rewrite H19. cbn. rewrite atoi_itoa by done. cbn. by rewrite parse_uint64_itoa.
Qed.

Lemma parse_stat_line_witness :
  parse_stat "42 (a) R 9 (b) S 1 40 40 0 -1 4194304 0 0 0 0 0 0 0 0 20 0 1 0 12345 100" = Some (mkProcInfo_ "S" 40 12345).
Proof.
  apply (parse_stat_line 42 "a) R 9 (b" "S" 1 40 [40; 0; -1; 4194304; 0; 0; 0; 0; 0; 0; 0; 0; 20; 0; 1; 0]%Z 12345 [100%Z]);
    [by split; [|vm_compute]|done|done|lia].
Defined.

(** ** Witnesses: a machine where the recorded group lives on *)

Definition example_kernel : gmap nat kproc :=
  <[0 := mkKproc 100 100 7 "S" 1]> (<[1 := mkKproc 101 100 9 "R" 1]> ∅).
Definition example_world : world :=
  mkWorld (λ _, example_kernel) (λ _ _, None) (λ _, Some [50; 100; 101]%Z) Z.of_nat 50 50 (mkHost "boot" "pid" "time") true.
Definition example_group : Group := mkGroup "web" 100 7.

Lemma example_processes p x : example_kernel !! p = Some x →
  p = 0 ∧ x = mkKproc 100 100 7 "S" 1 ∨ p = 1 ∧ x = mkKproc 101 100 9 "R" 1.
Proof.
  unfold example_kernel. intros [[<- <-]|[_ [[<- <-]|[_ H]]%lookup_insert_Some]]%lookup_insert_Some; [by left|by right|].
  by apply lookup_empty_Some in H.
Qed.

Lemma example_ok : kernel_ok example_world.
Proof.
  split.
  - intros t p1 p2 x1 x2 [[-> ->]|[-> ->]]%example_processes [[-> ->]|[-> ->]]%example_processes; done.
  - intros t1 t t2 p x1 x2 _ H1 _. by exists x1.
Qed.

Lemma example_lasting : lasting example_world example_group 1 101.
Proof.
  split.
  - done.
  - intros t. by eexists.
  - left. by intros t x [[-> ->]|[_ ->]]%example_processes.
  - intros t l [= <-]. by apply (bool_decide_unpack _).
  - done.
  - by intros t q y [[_ ->]|[_ ->]]%example_processes.
Qed.

Lemma RecoverGroups_signals_justified_witness :
  let s := (RecoverGroups 1 [example_group] (mkHost "boot" "pid" "time") RecoverForce 0 example_world fresh_state).2 in
  (λ d, (d.1.2, d.2)) <$> k_sent s = [(0, "SIGKILL"); (1, "SIGKILL")] ∧ Forall (justified example_world [example_group]) (k_sent s).
Proof.
  split; [by vm_compute|].
  exact (proj1 (RecoverGroups_signals_justified example_world 1 [example_group] (mkHost "boot" "pid" "time") RecoverForce 0 example_ok)).
Defined.

Lemma RecoverGroups_spares_living_witness :
  let results := (RecoverGroups 1 [example_group] (mkHost "boot" "pid" "time") RecoverForce 0 example_world fresh_state).1 in
  rg_Reason <$> results = ["survived_sigkill"] ∧ ∃ rg, rg ∈ results ∧ (rg_Name rg, rg_PGID rg, rg_LeaderStart rg) = report_of example_group.
Proof.
  split; [by vm_compute|].
  exact (proj1 (RecoverGroups_spares_living example_world example_group 1 101 1 [example_group] (mkHost "boot" "pid" "time")
    RecoverForce 0 example_ok example_lasting (list_elem_of_here _ _) eq_refl)).
Defined.

Definition example_record : DaemonRecord :=
  mkDaemonRecord 40 "" 3 (mkHost "boot" "pid" "time") (Some [example_group]).

Lemma crashed_run_not_forgotten_witness :
  (assessCrashedRun 1 true (Ok example_record) (Ok example_record) example_world fresh_state).1 ≠ Ok true ∧
  ∀ lease, let '(removed, err) := (stopDeadDaemon 1 lease (Ok example_record) (Ok example_record) false 0 example_world fresh_state).1 in
    is_Some err ∧ (removed = true → false = true).
Proof.
  exact (crashed_run_not_forgotten example_world example_group 1 101 1 (Ok example_record) example_record [example_group]
    false 0 fresh_state example_ok example_lasting eq_refl (list_elem_of_here _ _) eq_refl).
Defined.

Lemma RecoverGroups_polls_enough_witness :
  RecoverGroups (Z.to_nat killSettle + 5) [example_group] (mkHost "boot" "pid" "time") RecoverForce 0 example_world fresh_state =
  RecoverGroups (Z.to_nat killSettle) [example_group] (mkHost "boot" "pid" "time") RecoverForce 0 example_world fresh_state.
Proof.
  apply RecoverGroups_polls_enough; [|apply Nat.le_0_l|apply Nat.le_refl].
  intros t. cbn [w_now example_world]. lia.
Defined.
