(* ===== verification/Logrotate.v ===== *)
(** * The rotating log writer

    [internal/logrotate] on a file system whose calls may fail, or at which the
    process may die.  A directory maps names to files and an open handle is a
    file, so a rename moves a name and never the bytes behind a handle.  What
    the calls do beyond their specification is a script of faults, one per
    call, so a theorem for every script covers every sequence of failures. *)

From S2P Require Import Prelude GoStrings.

(** ** The file system *)

(** What happens at one call: it works; it fails with a message (a write then
    stores its first [short] bytes); the process dies before it. *)
Inductive fault : Type :=
  | Works
  | Fails (msg : string) (short : nat)
  | Dies.

Record fs : Type := mkFs {
  fs_dir : gmap string nat;
  fs_data : gmap nat string;
  fs_next : nat;
  fs_faults : list fault;
}.

(** An error: whether it is [fs.ErrNotExist], and its text. *)
Record ferr : Type := mkFerr { e_notexist : bool; e_text : string }.

(** Code that makes file system calls; [None] is the death of the process. *)
Definition io (A : Type) : Type := fs → option A * fs.

Definition io_ret {A} (a : A) : io A := λ s, (Some a, s).
Definition io_bind {A B} (m : io A) (f : A → io B) : io B :=
  λ s, match m s with (Some a, s') => f a s' | (None, s') => (None, s') end.

Notation "x <-- m ;; k" := (io_bind m (λ x, k))
  (at level 100, m at next level, right associativity) : go_scope.

(** A call: [works] and [fails] are its two outcomes. *)
Definition call {A} (works : fs → A * fs) (fails : string → nat → fs → A * fs) : io A :=
  λ s, match fs_faults s with
       | [] => let '(a, s') := works s in (Some a, s')
       | f :: l =>
           let s := mkFs (fs_dir s) (fs_data s) (fs_next s) l in
           match f with
           | Works => let '(a, s') := works s in (Some a, s')
           | Fails msg short => let '(a, s') := fails msg short s in (Some a, s')
           | Dies => (None, s)
           end
       end.

Definition set_dir (x : gmap string nat) (s : fs) : fs :=
  mkFs x (fs_data s) (fs_next s) (fs_faults s).
Definition set_data (x : gmap nat string) (s : fs) : fs :=
  mkFs (fs_dir s) x (fs_next s) (fs_faults s).

(** The bytes of a file, and of a name. *)
Definition content (s : fs) (ino : nat) : string := default "" (fs_data s !! ino).
Definition named (s : fs) (name : string) : string :=
  match fs_dir s !! name with Some ino => content s ino | None => "" end.

(** [os.Rename] of two different names. *)
Definition rename (old new : string) : io (option ferr) :=
  call (λ s, match fs_dir s !! old with
             | None => (Some (mkFerr true ("rename " +:+ old +:+ " " +:+ new +:+ ": no such file or directory")), s)
             | Some ino => (None, set_dir (<[new := ino]> (delete old (fs_dir s))) s)
             end)
       (λ msg _ s, (Some (mkFerr false msg), s)).

(** [sharedfile.OpenAppend]: the existing file, or a new empty one. *)
Definition openFile (path : string) : io (res ferr nat) :=
  call (λ s, match fs_dir s !! path with
             | Some ino => (Ok ino, s)
             | None => (Ok (fs_next s), mkFs (<[path := fs_next s]> (fs_dir s))
                                          (<[fs_next s := ""]> (fs_data s)) (S (fs_next s)) (fs_faults s))
             end)
       (λ msg _ s, (Err (mkFerr false msg), s)).

(** [os.Remove] *)
Definition remove (name : string) : io (option ferr) :=
  call (λ s, match fs_dir s !! name with
             | None => (Some (mkFerr true ("remove " +:+ name +:+ ": no such file or directory")), s)
             | Some _ => (None, set_dir (delete name (fs_dir s)) s)
             end)
       (λ msg _ s, (Some (mkFerr false msg), s)).

(** [file.Write]: appends, and tells how many bytes it stored. *)
Definition append (ino : nat) (p : string) : io (nat * option ferr) :=
  call (λ s, ((String.length p, None), set_data (<[ino := content s ino +:+ p]> (fs_data s)) s))
       (λ msg short s, ((min short (String.length p), Some (mkFerr false msg)),
          set_data (<[ino := content s ino +:+ str_take (min short (String.length p)) p]> (fs_data s)) s)).

(** [os.Lstat] and [file.Stat] of files in a directory the writer can search:
    whether the name exists, and the size of an open file. *)
Definition exists_name (name : string) : io bool :=
  λ s, (Some (bool_decide (is_Some (fs_dir s !! name))), s).
Definition size_of (ino : nat) : io Z := λ s, (Some (str_len (content s ino)), s).

(** ** The writer *)

(** Source: internal/logrotate/logrotate.go:14-21 (StagingSuffix). *)
Definition StagingSuffix : string := ".staging".

(** Source: internal/logrotate/logrotate.go:31-47 (Writer). *)
Record Writer : Type := mkWriter {
  w_path : string;
  w_maxSize : Z;
  w_maxFiles : Z;
  w_file : nat;
  w_written : Z;
  w_displaced : string;
}.

Definition set_file (ino : nat) (written : Z) (w : Writer) : Writer :=
  mkWriter (w_path w) (w_maxSize w) (w_maxFiles w) ino written (w_displaced w).
Definition set_displaced (d : string) (w : Writer) : Writer :=
  mkWriter (w_path w) (w_maxSize w) (w_maxFiles w) (w_file w) (w_written w) d.

(** Source: internal/logrotate/logrotate.go:224-226 (copyName). *)
Definition copyName (path : string) (i : Z) : string := path +:+ "." +:+ itoa i.

(** Source: internal/logrotate/logrotate.go:49-79 (New). *)
Definition New (path : string) (maxSize maxFiles : Z) : io (res string Writer) :=
  live <-- exists_name path ;;
  restored <-- (if negb live then rename (path +:+ StagingSuffix) path else io_ret None) ;;
  match restored with
  | Some (mkFerr false text) => io_ret (Err ("restore staged log " +:+ path +:+ ": " +:+ text))
  | _ =>
      f <-- openFile path ;;
      match f with
      | Err e => io_ret (Err (e_text e))
      | Ok f =>
          size <-- size_of f ;;
          io_ret (Ok (mkWriter path maxSize maxFiles f size ""))
      end
  end.

(** [warn] prints the error and returns it.
    Source: internal/logrotate/logrotate.go:228-233 (warn). *)
Definition warn (err : string) : option string := Some err.

(** Source: internal/logrotate/logrotate.go:215-222 (install). *)
Definition install (f : nat) (w : Writer) : Writer := set_file f 0 w.

(** Source: internal/logrotate/logrotate.go:203-213 (recreate). *)
Definition recreate (w : Writer) : io (option string * Writer) :=
  f <-- openFile (w_path w) ;;
  match f with
  | Err e => io_ret (warn ("recreate removed log " +:+ w_path w +:+ ": " +:+ e_text e), w)
  | Ok f => io_ret (warn ("log " +:+ w_path w +:+ " was removed while it was written: recreated it, but the bytes written to the removed file are not in the log"),
                    install f w)
  end.

(** Source: internal/logrotate/logrotate.go:191-201 (rollback). *)
Definition rollback (name cause : string) (w : Writer) : io (option string * Writer) :=
  e <-- rename name (w_path w) ;;
  match e with
  | Some e => io_ret (warn (cause +:+ String (chr 10) "" +:+ "restore live log " +:+ w_path w
                              +:+ " from " +:+ name +:+ ": " +:+ e_text e),
                      set_displaced name w)
  | None => io_ret (warn cause, w)
  end.

(** The first free slot from [i] on, or 0; [n] counts the slots left.
    Source: internal/logrotate/logrotate.go:171-176 (shift, free slot). *)
Fixpoint first_free (path : string) (n : nat) (i : Z) : io Z :=
  match n with
  | O => io_ret 0%Z
  | S n => taken <-- exists_name (copyName path i) ;;
           if taken then first_free path n (i + 1) else io_ret i
  end.

(** The copies from [i] down to 1 move up one slot.
    Source: internal/logrotate/logrotate.go:183-187 (shift, moves). *)
Fixpoint move_up (path : string) (i : nat) : io (option string) :=
  match i with
  | O => io_ret None
  | S n =>
      let old := copyName path (Z.of_nat i) in
      let new := copyName path (Z.of_nat i + 1) in
      e <-- rename old new ;;
      match e with
      | Some e => io_ret (Some ("rotate log " +:+ old +:+ " -> " +:+ new +:+ ": " +:+ e_text e))
      | None => move_up path n
      end
  end.

Definition slots (w : Writer) : Z := Z.max (w_maxFiles w) 1.

(** Source: internal/logrotate/logrotate.go:161-189 (shift). *)
Definition shift (w : Writer) : io (option string) :=
  let slots := slots w in
  free <-- first_free (w_path w) (Z.to_nat slots) 1 ;;
  removed <-- (if (free =? 0)%Z then remove (copyName (w_path w) slots) else io_ret None) ;;
  match removed with
  | Some (mkFerr false text) =>
      io_ret (Some ("remove old log " +:+ copyName (w_path w) slots +:+ ": " +:+ text))
  | _ => move_up (w_path w) (Z.to_nat ((if (free =? 0)%Z then slots else free) - 1))
  end.

(** The steps of a rotation once a displaced file is back at the live path.
    Source: internal/logrotate/logrotate.go:136-158 (rotate, staging). *)
Definition rotate_staged (w : Writer) : io (option string * Writer) :=
  let staging := w_path w +:+ StagingSuffix in
  e <-- rename (w_path w) staging ;;
  match e with
  | Some (mkFerr true _) => recreate w
  | Some (mkFerr false text) => io_ret (warn ("stage current log " +:+ w_path w +:+ ": " +:+ text), w)
  | None =>
      e <-- shift w ;;
      match e with
      | Some e => rollback staging e w
      | None =>
          let rotated := copyName (w_path w) 1 in
          e <-- rename staging rotated ;;
          match e with
          | Some e => rollback staging ("rotate current log to " +:+ rotated +:+ ": " +:+ e_text e) w
          | None =>
              f <-- openFile (w_path w) ;;
              match f with
              | Err e => rollback rotated ("reopen log file " +:+ w_path w +:+ ": " +:+ e_text e) w
              | Ok f => io_ret (None, install f w)
              end
          end
      end
  end.

(** Source: internal/logrotate/logrotate.go:112-159 (rotate). *)
Definition rotate (w : Writer) : io (option string * Writer) :=
  if bool_decide (w_displaced w = "") then rotate_staged w
  else
    e <-- rename (w_displaced w) (w_path w) ;;
    match e with
    | Some e => io_ret (warn ("restore live log " +:+ w_path w +:+ " from " +:+ w_displaced w +:+ ": "
                                +:+ e_text e), w)
    | None => rotate_staged (set_displaced "" w)
    end.

(** Source: internal/logrotate/logrotate.go:81-103 (Write). *)
Definition Write (p : string) (w : Writer) : io (nat * option string * Writer) :=
  r <-- append (w_file w) p ;;
  let '(n, err) := r in
  let w := set_file (w_file w) (w_written w + Z.of_nat n) w in
  let err := e_text <$> err in
  if (w_maxSize w <=? w_written w)%Z then
    r <-- rotate w ;;
    let '(rerr, w) := r in
    io_ret (n, (match err with Some e => Some e | None => rerr end), w)
  else io_ret (n, err, w).

(** ** Names and what a reader sees *)

Lemma copyName_inj path i j : (0 ≤ i)%Z → (0 ≤ j)%Z → copyName path i = copyName path j → i = j.
Proof.
  intros Hi Hj H. unfold copyName in H. apply str_app_inj, str_app_inj in H.
  apply (f_equal (parse_digits 0)) in H. rewrite !parse_itoa in H by done. congruence.
Qed.

Lemma copyName_staging path i : (0 ≤ i)%Z → copyName path i ≠ path +:+ StagingSuffix.
Proof.
  intros Hi H. unfold copyName in H. apply str_app_inj in H. pose proof (parse_itoa i Hi) as Hp.
  unfold StagingSuffix in H. cbn in H. injection H as H. rewrite H in Hp. discriminate Hp.
Qed.

Lemma app_ne_self (p : string) c s : p +:+ String c s ≠ p.
Proof.
  intros H. apply (f_equal bytes), (f_equal length) in H. rewrite bytes_app, length_app in H.
  cbn in H. lia.
Qed.

Lemma copyName_path path i : copyName path i ≠ path.
Proof. apply app_ne_self. Qed.

Lemma staging_path path : path +:+ StagingSuffix ≠ path.
Proof. apply app_ne_self. Qed.

(** The copies from [n] down to 1. *)
Definition copies (path : string) (n : nat) : list string :=
  (λ i, copyName path (Z.of_nat i)) <$> rev (seq 1 n).

(** Every name of a log with [n] copies, oldest first. *)
Definition family (path : string) (n : nat) : list string :=
  copies path n ++ [path +:+ StagingSuffix; path].

(** The concatenation of what the names hold. *)
Fixpoint cat (f : string → string) (l : list string) : string :=
  match l with [] => "" | n :: l => f n +:+ cat f l end.

(** What a reader of the log sees: the rotated copies, oldest first, the
    staged file and the live one. *)
Definition reader_log (path : string) (n : nat) (s : fs) : string := cat (named s) (family path n).

Lemma cat_app f l1 l2 : cat f (l1 ++ l2) = cat f l1 +:+ cat f l2.
Proof. induction l1; cbn; [done|]. by rewrite IHl1, str_app_assoc. Qed.

Lemma cat_ext f g l : (∀ n, n ∈ l → f n = g n) → cat f l = cat g l.
Proof.
  induction l as [|n l IH]; intros H; cbn; [done|].
  rewrite H by apply list_elem_of_here. f_equal. apply IH. intros; apply H. by apply list_elem_of_further.
Qed.

Lemma cat_empty f l : (∀ n, n ∈ l → f n = "") → cat f l = "".
Proof.
  intros H. rewrite (cat_ext f (λ _, "")) by done. clear H. induction l; [done|]. cbn. done.
Qed.

(** Moving the content of one of two names to the other changes nothing when
    nothing is between them. *)
Lemma cat_move f g l1 a mid b l2 :
  (∀ n, n ∈ mid → f n = "" ∧ g n = "") → (∀ n, n ∈ l1 ++ l2 → f n = g n) →
  (f a = g b ∧ f b = "" ∧ g a = "" ∨ f b = g a ∧ f a = "" ∧ g b = "") →
  cat f (l1 ++ a :: mid ++ b :: l2) = cat g (l1 ++ a :: mid ++ b :: l2).
Proof.
  intros Hmid Hout Hab. rewrite !cat_app. cbn [cat]. rewrite !cat_app. cbn [cat].
  rewrite (cat_empty f mid), (cat_empty g mid) by (intros; by apply Hmid).
  rewrite (cat_ext f g l1), (cat_ext f g l2)
    by (intros; apply Hout; rewrite elem_of_app; auto). cbn.
  destruct Hab as [(-> & -> & ->)|(-> & -> & ->)]; cbn; by rewrite ?str_app_nil.
Qed.

Lemma elem_of_copies path n x :
  x ∈ copies path n ↔ ∃ i, (1 ≤ i ≤ Z.of_nat n)%Z ∧ x = copyName path i.
Proof.
  unfold copies. rewrite list_elem_of_fmap.
  split.
  - intros (i & -> & Hi). apply list_elem_of_In, in_rev, in_seq in Hi. exists (Z.of_nat i). split; [lia|done].
  - intros (i & Hi & ->). exists (Z.to_nat i). rewrite Z2Nat.id by lia. split; [done|].
    apply list_elem_of_In, in_rev. rewrite rev_involutive. apply in_seq. lia.
Qed.

(** The family around the copies [i+1] and [i]. *)
Lemma family_split path n i : (1 ≤ i)%Z → (i + 1 ≤ Z.of_nat n)%Z →
  ∃ l1 l2, family path n = l1 ++ copyName path (i + 1) :: [] ++ copyName path i :: l2 ∧
    copyName path (i + 1) ∉ l1 ++ l2 ∧ copyName path i ∉ l1 ++ l2.
Proof.
  intros Hi Hn. set (k := Z.to_nat i).
  assert (rev (seq 1 n) = rev (seq (k + 2) (n - k - 1)) ++ (k + 1) :: k :: rev (seq 1 (k - 1))) as Hseq.
  { replace n with ((k - 1) + (1 + (1 + (n - k - 1)))) at 1 by lia.
    rewrite !seq_app, !rev_app_distr. cbn [seq rev app]. rewrite <-!app_assoc. cbn [app].
    replace (1 + (k - 1)) with k by lia. by replace (k + 1 + 1) with (k + 2) by lia. }
  unfold family, copies. rewrite Hseq, fmap_app. cbn [fmap list_fmap].
  change (list_fmap nat string ?f ?l) with (f <$> l).
  exists ((λ i, copyName path (Z.of_nat i)) <$> rev (seq (k + 2) (n - k - 1))),
    (((λ i, copyName path (Z.of_nat i)) <$> rev (seq 1 (k - 1))) ++ [path +:+ StagingSuffix; path]).
  replace (Z.of_nat (k + 1)) with (i + 1)%Z by lia. replace (Z.of_nat k) with i by lia.
  rewrite <-app_assoc. split; [done|].
  assert (∀ j, (j = i ∨ j = i + 1)%Z → copyName path j ∉
    ((λ i, copyName path (Z.of_nat i)) <$> rev (seq (k + 2) (n - k - 1))) ++
    (((λ i, copyName path (Z.of_nat i)) <$> rev (seq 1 (k - 1))) ++ [path +:+ StagingSuffix; path])) as Hno.
  { intros j Hj. rewrite !elem_of_app, !list_elem_of_fmap, elem_of_cons, list_elem_of_singleton.
    intros [(x & Hx & Hin)|[(x & Hx & Hin)|[Hx|Hx]]].
    - apply copyName_inj in Hx; [|lia..]. apply list_elem_of_In, in_rev, in_seq in Hin. lia.
    - apply copyName_inj in Hx; [|lia..]. apply list_elem_of_In, in_rev, in_seq in Hin. lia.
    - by apply copyName_staging in Hx; [|lia].
    - by apply copyName_path in Hx. }
  split; apply Hno; auto.
Qed.

Lemma family_last path n : (1 ≤ n) →
  ∃ l1, family path n = l1 ++ [copyName path 1; path +:+ StagingSuffix; path] ∧
    ∀ x, x ∈ l1 → ∃ i, (2 ≤ i ≤ Z.of_nat n)%Z ∧ x = copyName path i.
Proof.
  intros Hn. destruct n as [|n]; [lia|]. unfold family, copies. cbn [seq rev].
  rewrite fmap_app, <-app_assoc. eexists. split; [reflexivity|].
  intros x (i & -> & Hi)%list_elem_of_fmap. apply list_elem_of_In, in_rev, in_seq in Hi.
  exists (Z.of_nat i). split; [lia|done].
Qed.

(** ** The states of a log *)

Section log.
Context (path : string) (K : nat) (maxSize : Z) (HK : 1 <= K).
Local Notation staging := (path +:+ StagingSuffix).
Local Notation log := (reader_log path K).

(** The directory is sound: no file has two names, and a new file is none of
    those named; every rotated copy reached the size that rotates it. *)
Record sound (s : fs) : Prop := {
  sd_inj : ∀ a b ino, fs_dir s !! a = Some ino → fs_dir s !! b = Some ino → a = b;
  sd_next : ∀ a ino, fs_dir s !! a = Some ino → ino < fs_next s;
  sd_copies : ∀ i ino, (1 ≤ i ≤ Z.of_nat K)%Z → fs_dir s !! copyName path i = Some ino →
    (maxSize ≤ str_len (content s ino))%Z;
}.

(** The state of the directory between runs: a live file or a staged one, not
    both. *)
Definition quiet (s : fs) : Prop :=
  sound s ∧ (fs_dir s !! path = None ∨ fs_dir s !! staging = None).

(** The open file [f] has the name [loc], the newest one of the log. *)
Definition open_at (f : nat) (loc : string) (s : fs) : Prop :=
  sound s ∧ fs_dir s !! loc = Some f ∧
  (loc = path ∨ loc = staging ∨ loc = copyName path 1) ∧
  (loc ≠ path → fs_dir s !! path = None) ∧ (loc ≠ staging → fs_dir s !! staging = None).

(** [L] has lost nothing but oldest bytes, and none of those before the log
    holds [K] times the rotation size. *)
Definition kept (L : string) (s : fs) : Prop :=
  ∃ dropped, L = dropped +:+ log s ∧ (dropped = "" ∨ (Z.of_nat K * maxSize ≤ str_len (log s))%Z).

Lemma open_at_quiet f loc s : open_at f loc s → quiet s.
Proof.
  intros (Hs & _ & _ & Hp & Hst). split; [done|]. destruct (decide (loc = path)) as [->|]; [|auto].
  right. apply Hst. intros H. by symmetry in H; apply staging_path in H.
Qed.

Lemma kept_refl s : kept (log s) s.
Proof. exists "". by split; [|left]. Qed.

Lemma kept_same L s s' : log s' = log s → kept L s → kept L s'.
Proof. intros H (d & -> & Hd). exists d. by rewrite H. Qed.

Lemma kept_trans L q s1 s2 : kept L s1 → kept (log s1 +:+ q) s2 → kept (L +:+ q) s2.
Proof.
  intros (d1 & -> & H1) (d2 & Heq & H2). exists (d1 +:+ d2). rewrite !str_app_assoc, Heq.
  split; [done|]. destruct H2 as [->|H2]; [|by right].
  destruct H1 as [->|H1]; [by left|right]. apply (f_equal str_len) in Heq.
  rewrite !str_len_app in Heq. unfold str_len at 3 in Heq. cbn in Heq. unfold str_len in *. lia.
Qed.

Lemma named_None s n : fs_dir s !! n = None → named s n = "".
Proof. unfold named. by intros ->. Qed.

(** *** Renaming *)

Definition renamed (old new : string) (ino : nat) (s : fs) : fs :=
  set_dir (<[new := ino]> (delete old (fs_dir s))) s.

Lemma named_renamed old new ino s n :
  fs_dir s !! old = Some ino → old ≠ new → fs_dir s !! new = None →
  named (renamed old new ino s) n =
    (if bool_decide (n = new) then named s old else if bool_decide (n = old) then "" else named s n).
Proof.
  intros Ho Hne Hn. unfold named, renamed. cbn. repeat case_bool_decide; subst.
  - by rewrite lookup_insert_eq, Ho.
  - by rewrite lookup_insert_ne, lookup_delete_eq by done.
  - by rewrite lookup_insert_ne, lookup_delete_ne by done.
Qed.

Lemma lookup_renamed old new ino s n :
  fs_dir (renamed old new ino s) !! n =
    (if bool_decide (n = new) then Some ino else if bool_decide (n = old) then None else fs_dir s !! n).
Proof.
  unfold renamed. cbn. repeat case_bool_decide; subst.
  - by rewrite lookup_insert_eq.
  - by rewrite lookup_insert_ne, lookup_delete_eq by done.
  - by rewrite lookup_insert_ne, lookup_delete_ne by done.
Qed.

Lemma sound_renamed old new ino s :
  sound s → fs_dir s !! old = Some ino →
  (∀ i, (1 ≤ i ≤ Z.of_nat K)%Z → new = copyName path i → (maxSize ≤ str_len (content s ino))%Z) →
  sound (renamed old new ino s).
Proof.
  intros [Hinj Hnext Hcop] Ho Hsize. split.
  - intros a b i. rewrite !lookup_renamed. repeat case_bool_decide; try congruence; intros Ha Hb; simplify_eq.
    + by destruct (Hinj _ _ _ Hb Ho).
    + by destruct (Hinj _ _ _ Ha Ho).
    + by eapply Hinj.
  - intros a i. rewrite lookup_renamed. repeat case_bool_decide; intros ?; simplify_eq; by eapply Hnext.
  - intros i ino' Hi. rewrite lookup_renamed. change (content (renamed old new ino s) ino') with (content s ino').
    repeat case_bool_decide; intros ?; simplify_eq; [by eapply Hsize|by eapply Hcop].
Qed.

(** A name and a free one next to it in the log can be exchanged. *)
Definition adjacent (s : fs) (a b : string) : Prop :=
  ∃ l1 mid l2, family path K = l1 ++ a :: mid ++ b :: l2 ∧ a ∉ l1 ++ mid ++ l2 ∧ b ∉ l1 ++ mid ++ l2 ∧
    ∀ n, n ∈ mid → fs_dir s !! n = None.

Lemma log_renamed old new ino s :
  fs_dir s !! old = Some ino → fs_dir s !! new = None → (adjacent s old new ∨ adjacent s new old) →
  log (renamed old new ino s) = log s.
Proof.
  intros Ho Hn Hadj. assert (old ≠ new) as Hne by congruence. symmetry. unfold reader_log.
  pose proof (named_renamed old new ino s) as Hren.
  destruct Hadj as [(l1 & mid & l2 & -> & Ha & Hb & Hmid)|(l1 & mid & l2 & -> & Ha & Hb & Hmid)];
    rewrite !elem_of_app in Ha, Hb; apply cat_move.
  1,4: intros n Hin; split; [by apply named_None, Hmid|];
    rewrite Hren by done; repeat case_bool_decide; subst; [naive_solver..|by apply named_None, Hmid].
  1,3: intros n Hin; rewrite Hren by done; repeat case_bool_decide; subst; try done;
    rewrite elem_of_app in Hin; naive_solver.
  1: left. 2: right. all: rewrite !Hren by done; repeat case_bool_decide; try done;
    by rewrite (named_None s new).
Qed.

Lemma adjacent_copies s i : (1 ≤ i)%Z → (i + 1 ≤ Z.of_nat K)%Z →
  adjacent s (copyName path (i + 1)) (copyName path i).
Proof.
  intros Hi Hk. destruct (family_split path K i Hi Hk) as (l1 & l2 & Hf & H1 & H2).
  exists l1, [], l2. split; [done|]. cbn [app]. split; [done|]. split; [done|].
  intros n H. by apply not_elem_of_nil in H.
Qed.

Lemma family_last_out (l1 : list string) : 
  (∀ x, x ∈ l1 → ∃ i, (2 ≤ i ≤ Z.of_nat K)%Z ∧ x = copyName path i) →
  copyName path 1 ∉ l1 ∧ staging ∉ l1 ∧ path ∉ l1.
Proof.
  intros H. split_and!; intros (i & Hi & Hx)%H.
  - apply copyName_inj in Hx; lia.
  - symmetry in Hx. apply copyName_staging in Hx; [done|lia].
  - symmetry in Hx. by apply copyName_path in Hx.
Qed.

Lemma adjacent_staging s : adjacent s (copyName path 1) staging.
Proof.
  destruct (family_last path K HK) as (l1 & Hf & Hl). apply family_last_out in Hl as (H1 & H2 & H3).
  exists l1, [], [path]. split; [by rewrite Hf|]. cbn [app].
  rewrite !elem_of_app, !list_elem_of_singleton. split_and!.
  - intros [?|?]; [done|]. by eapply copyName_path.
  - intros [?|?]; [done|]. by eapply staging_path.
  - intros n H. by apply not_elem_of_nil in H.
Qed.

Lemma adjacent_live s : adjacent s staging path.
Proof.
  destruct (family_last path K HK) as (l1 & Hf & Hl). apply family_last_out in Hl as (H1 & H2 & H3).
  exists (l1 ++ [copyName path 1]), [], []. split; [by rewrite Hf, <-app_assoc|]. cbn [app].
  rewrite !elem_of_app, !list_elem_of_singleton. split_and!.
  - intros [[?|H]|?%not_elem_of_nil]; try done.
    symmetry in H. by apply copyName_staging in H.
  - intros [[?|H]|?%not_elem_of_nil]; try done. symmetry in H. by apply copyName_path in H.
  - intros n H. by apply not_elem_of_nil in H.
Qed.

Lemma adjacent_copy_live s : fs_dir s !! staging = None → adjacent s (copyName path 1) path.
Proof.
  intros Hst.
  destruct (family_last path K HK) as (l1 & Hf & Hl). apply family_last_out in Hl as (H1 & H2 & H3).
  exists l1, [staging], []. split; [by rewrite Hf|]. rewrite !elem_of_app, !list_elem_of_singleton.
  split_and!.
  - intros [?|[H|?%not_elem_of_nil]]; try done. by apply copyName_staging in H.
  - intros [?|[H|?%not_elem_of_nil]]; try done. symmetry in H. by apply staging_path in H.
  - by intros n ->%list_elem_of_singleton.
Qed.

(** *** States that differ in what is still to fail *)

Definition same_files (s s' : fs) : Prop :=
  fs_dir s = fs_dir s' ∧ fs_data s = fs_data s' ∧ fs_next s = fs_next s'.

#[local] Instance same_files_equiv : Equivalence same_files.
Proof. split; [done|by intros ? ? (?&?&?)|]. intros ??? (?&?&?) (?&?&?). split_and!; congruence. Qed.

#[local] Instance sound_proper : Proper (same_files ==> iff) sound.
Proof.
  assert (∀ s s', same_files s s' → sound s → sound s') as H.
  { intros s s' (Hd & Ha & Hn) [H1 H2 H3].
    split; unfold content; rewrite <-?Hd, <-?Ha, <-?Hn; eauto. }
  intros s s' Hs. split; apply H; by try symmetry.
Qed.

#[local] Instance fs_dir_proper : Proper (same_files ==> eq) fs_dir.
Proof. by intros s s' (? & _). Qed.

#[local] Instance content_proper : Proper (same_files ==> eq ==> eq) content.
Proof. intros s s' (_ & H & _) f ? <-. unfold content. by rewrite H. Qed.

#[local] Instance log_proper : Proper (same_files ==> eq) log.
Proof.
  intros s s' (Hd & Ha & _). unfold reader_log. apply cat_ext. intros n _.
  unfold named, content. by rewrite Hd, Ha.
Qed.

#[local] Instance kept_proper : Proper (eq ==> same_files ==> iff) kept.
Proof. intros L ? <- s s' Hs. unfold kept. by setoid_rewrite Hs. Qed.

#[local] Instance quiet_proper : Proper (same_files ==> iff) quiet.
Proof. intros s s' Hs. unfold quiet. by rewrite Hs. Qed.

#[local] Instance open_at_proper : Proper (eq ==> eq ==> same_files ==> iff) open_at.
Proof. intros f ? <- loc ? <- s s' Hs. unfold open_at. by rewrite Hs. Qed.

(** *** What holds after a piece of code, and where the process may die *)

Definition post {A} (m : io A) (s : fs) (Q : A → fs → Prop) (D : fs → Prop) : Prop :=
  match m s with (Some a, s') => Q a s' | (None, s') => D s' end.

Lemma post_bind {A B} (m : io A) (f : A → io B) s Q D :
  post m s (λ a s', post (f a) s' Q D) D → post (io_bind m f) s Q D.
Proof. unfold post, io_bind. by destruct (m s) as [[a|] s']. Qed.

Lemma post_mono {A} (m : io A) s (Q Q' : A → fs → Prop) D :
  post m s Q D → (∀ a s', Q a s' → Q' a s') → post m s Q' D.
Proof. unfold post. destruct (m s) as [[a|] s']; auto. Qed.

Lemma post_call {A} (works : fs → A * fs) fails s Q (D : fs → Prop) :
  (∀ s', same_files s s' → D s' ∧ Q (works s').1 (works s').2 ∧
     ∀ msg short, Q (fails msg short s').1 (fails msg short s').2) →
  post (call works fails) s Q D.
Proof.
  intros H. unfold post, call. destruct (fs_faults s) as [|flt l].
  - destruct (H s) as (_ & Hw & _); [done|]. by destruct (works s).
  - destruct (H (mkFs (fs_dir s) (fs_data s) (fs_next s) l)) as (Hd & Hw & Hf); [done|].
    destruct flt as [|msg short|]; [by destruct (works _)| |done].
    specialize (Hf msg short). by destruct (fails _ _ _).
Qed.

(** The process may die here: nothing is lost. *)
Definition crashed (L : string) (s : fs) : Prop := quiet s ∧ kept L s.

Definition legal_move (s : fs) (loc new : string) : Prop :=
  loc = path ∧ new = staging ∨ loc = staging ∧ new = path ∨
  loc = staging ∧ new = copyName path 1 ∧ fs_dir s !! copyName path 1 = None ∨
  loc = copyName path 1 ∧ new = path.

Lemma legal_adjacent f loc new s : open_at f loc s → legal_move s loc new →
  loc ≠ new ∧ fs_dir s !! new = None ∧ (adjacent s loc new ∨ adjacent s new loc) ∧
  (new = path ∨ new = staging ∨ new = copyName path 1).
Proof.
  pose proof (staging_path path) as Hsp. pose proof (copyName_path path 1) as Hcp.
  pose proof (copyName_staging path 1 ltac:(lia)) as Hcs.
  intros (_ & _ & _ & Hp & Hst) [[-> -> ] |[[-> -> ] |[(-> & -> & H1)|[-> ->]]]]; split_and!; auto.
  - right. apply adjacent_live.
  - left. apply adjacent_live.
  - right. apply adjacent_staging.
  - left. apply adjacent_copy_live. auto.
Qed.

Lemma open_at_renamed f loc new s :
  open_at f loc s → loc ≠ new → (new = path ∨ new = staging ∨ new = copyName path 1) →
  (new = copyName path 1 → (maxSize ≤ str_len (content s f))%Z) →
  open_at f new (renamed loc new f s).
Proof.
  intros (Hs & Hloc & _ & Hp & Hst) Hne Hnew Hsize. split; [|split; [|split; [done|split]]].
  - apply sound_renamed; [done..|]. intros i Hi Hn. apply Hsize.
    destruct Hnew as [-> | [-> | ->]]; [|symmetry in Hn|done]; [|by apply copyName_staging in Hn; [|lia]].
    symmetry in Hn. by apply copyName_path in Hn.
  - rewrite lookup_renamed by done. by rewrite bool_decide_eq_true_2.
  - intros Hn. rewrite lookup_renamed by done. repeat case_bool_decide; subst; try done. auto.
  - intros Hn. rewrite lookup_renamed by done. repeat case_bool_decide; subst; try done. auto.
Qed.

Lemma post_move L f loc new s (Q : option ferr → fs → Prop) :
  open_at f loc s → kept L s → legal_move s loc new →
  (new = copyName path 1 → (maxSize ≤ str_len (content s f))%Z) →
  (∀ s', open_at f new s' → log s' = log s → content s' f = content s f → Q None s') →
  (∀ e s', e_notexist e = false → open_at f loc s' → log s' = log s → content s' f = content s f →
     Q (Some e) s') →
  post (rename loc new) s Q (crashed L).
Proof.
  intros Hopen Hkept Hlegal Hsize Hok Herr.
  destruct (legal_adjacent _ _ _ _ Hopen Hlegal) as (Hne & Hfree & Hadj & Hnew).
  apply post_call. intros s' Hs. 
  assert (open_at f loc s') as Hopen' by by rewrite <-Hs.
  assert (log s' = log s) as Hlog by by rewrite <-Hs.
  assert (content s' f = content s f) as Hc by (unfold content; by rewrite (proj1 (proj2 Hs))).
  split; [split; [by eapply open_at_quiet|by rewrite <-Hs]|].
  split; [|intros msg short; by apply Herr].
  assert (fs_dir s' !! loc = Some f) as Hloc by apply Hopen'. rewrite Hloc. cbn [fst snd].
  change (Q None (renamed loc new f s')). apply Hok.
  - apply open_at_renamed; [done..|]. by rewrite Hc.
  - rewrite <-Hlog. apply log_renamed; [done|by rewrite <-(proj1 Hs)|].
    unfold adjacent in *. by rewrite <-(proj1 Hs).
  - done.
Qed.

(** *** The rotation *)

(** A rotation is under way: the open file is [loc] and holds [c], it reached
    the rotation size, and [L] was kept. *)
Definition rotating (L : string) (f : nat) (c : string) (loc : string) (s : fs) : Prop :=
  open_at f loc s ∧ kept L s ∧ content s f = c ∧ (maxSize ≤ str_len c)%Z.

#[local] Instance rotating_proper :
  Proper (eq ==> eq ==> eq ==> eq ==> same_files ==> iff) rotating.
Proof.
  intros L ? <- f ? <- c ? <- loc ? <- s s' Hs. unfold rotating. by rewrite Hs.
Qed.

Lemma rotating_crashed L f c loc s : rotating L f c loc s → crashed L s.
Proof. intros (Ho & Hk & _). split; [by eapply open_at_quiet|done]. Qed.

Lemma post_rotating_move L f c loc new s Q :
  rotating L f c loc s → legal_move s loc new →
  (∀ s', rotating L f c new s' → log s' = log s → Q None s') →
  (∀ e s', e_notexist e = false → rotating L f c loc s' → Q (Some e) s') →
  post (rename loc new) s Q (crashed L).
Proof.
  intros (Ho & Hk & Hc & Hb) Hl Hok Herr. eapply post_move; [done..| | |]; [by rewrite Hc| |].
  - intros s' Ho' Hl' Hc'. apply Hok; [|done]. split; [done|]. split; [by eapply kept_same|].
    by rewrite Hc', Hc.
  - intros e s' He Ho' Hl' Hc'. apply Herr; [done|]. split; [done|]. split; [by eapply kept_same|].
    by rewrite Hc', Hc.
Qed.

Lemma first_free_spec n i s :
  ∃ r, first_free path n i s = (Some r, s) ∧
    (r = 0%Z ∧ (∀ j, (i ≤ j < i + Z.of_nat n)%Z → is_Some (fs_dir s !! copyName path j)) ∨
     (i ≤ r < i + Z.of_nat n)%Z ∧ fs_dir s !! copyName path r = None ∧
     ∀ j, (i ≤ j < r)%Z → is_Some (fs_dir s !! copyName path j)).
Proof.
  revert i; induction n as [|n IH]; intros i; cbn [first_free].
  { exists 0%Z. split; [done|]. left. split; [done|]. lia. }
  unfold io_bind, exists_name. case_bool_decide as Hex.
  - destruct (IH (i + 1)%Z) as (r & -> & Hr). exists r. split; [done|].
    assert (∀ k, (∀ j, (i + 1 ≤ j < k)%Z → is_Some (fs_dir s !! copyName path j)) →
      ∀ j, (i ≤ j < k)%Z → is_Some (fs_dir s !! copyName path j)) as Hmore.
    { intros k Hall j Hj. destruct (decide (j = i)) as [->|]; [done|]. apply Hall. lia. }
    destruct Hr as [[-> Hall]|(Hr & Hn & Hall)]; [left|right; split; [lia|split; [done|by apply Hmore]]].
    split; [done|]. apply Hmore. intros j Hj. apply Hall. lia.
  - exists i. split; [done|]. right. split; [lia|]. split; [by apply eq_None_not_Some|lia].
Qed.

(** Freeing a slot: the copy below it moves up. *)
Lemma rotating_shift L f c i ino s :
  rotating L f c staging s → (1 ≤ i)%Z → (i + 1 ≤ Z.of_nat K)%Z →
  fs_dir s !! copyName path i = Some ino → fs_dir s !! copyName path (i + 1) = None →
  rotating L f c staging (renamed (copyName path i) (copyName path (i + 1)) ino s) ∧
  fs_dir (renamed (copyName path i) (copyName path (i + 1)) ino s) !! copyName path i = None.
Proof.
  intros (Ho & Hk & Hb) Hi HiK Hino Hfree.
  assert (copyName path i ≠ copyName path (i + 1)) as Hne by congruence.
  assert (∀ j, (0 ≤ j)%Z → staging ≠ copyName path j) as Hst.
  { intros j Hj H. symmetry in H. by apply copyName_staging in H. }
  assert (∀ j, path ≠ copyName path j) as Hp.
  { intros j H. symmetry in H. by apply copyName_path in H. }
  destruct Ho as (Hs & Hloc & _ & Hpath & _). split.
  - split; [|split; [|done]].
    + split; [|split; [|split; [auto|split; [|done]]]].
      * apply sound_renamed; [done..|]. intros j Hj Hn. apply copyName_inj in Hn; [|lia..].
        eapply sd_copies; [done|split; [|]|done]; lia.
      * rewrite lookup_renamed, !bool_decide_eq_false_2 by (done || apply Hst; lia). done.
      * intros _. rewrite lookup_renamed, !bool_decide_eq_false_2 by (done || apply Hp).
        apply Hpath. intros H. by apply staging_path in H.
    + eapply kept_same; [|done]. apply log_renamed; [done..|]. right. by apply adjacent_copies.
  - rewrite lookup_renamed by done. by rewrite bool_decide_eq_false_2, bool_decide_eq_true_2 by done.
Qed.

Lemma post_move_up L f c n s :
  rotating L f c staging s → (Z.of_nat n + 1 ≤ Z.of_nat K)%Z →
  fs_dir s !! copyName path (Z.of_nat n + 1) = None →
  post (move_up path n) s
    (λ e s', rotating L f c staging s' ∧ (e = None → fs_dir s' !! copyName path 1 = None)) (crashed L).
Proof.
  revert s; induction n as [|n IH]; intros s Hrot Hn Hfree; cbn [move_up]; [done|].
  apply post_bind, post_call. intros s' Hs. rewrite Hs in Hrot, Hfree.
  split; [by eapply rotating_crashed|]. split; [|done].
  destruct (fs_dir s' !! copyName path (Z.of_nat (S n))) as [ino|] eqn:Hino; cbn [fst snd]; [|done].
  destruct (rotating_shift L f c (Z.of_nat (S n)) ino s') as [H1 H2]; [done|lia..|done|done|].
  apply IH; [done|lia|]. by replace (Z.of_nat n + 1)%Z with (Z.of_nat (S n)) by lia.
Qed.

(** Dropping the oldest copy, when every slot is taken. *)
Lemma copies_length s n : sound s → n <= K →
  (∀ j, (1 ≤ j ≤ Z.of_nat n)%Z → is_Some (fs_dir s !! copyName path j)) →
  (Z.of_nat n * maxSize ≤ str_len (cat (named s) (copies path n)))%Z.
Proof.
  intros Hs. induction n as [|n IH]; intros Hn Hall; [cbn; unfold str_len; cbn; lia|].
  unfold copies. rewrite seq_S, rev_unit. cbn [fmap list_fmap cat]. rewrite str_len_app.
  change (list_fmap nat string ?f ?l) with (f <$> l). fold (copies path n).
  assert (Z.of_nat n * maxSize ≤ str_len (cat (named s) (copies path n)))%Z.
  { apply IH; [lia|]. intros j Hj. apply Hall. lia. }
  destruct (Hall (Z.of_nat (S n))) as [ino Hino]; [lia|].
  assert (maxSize ≤ str_len (named s (copyName path (Z.of_nat (1 + n)))))%Z; [|lia].
  unfold named. replace (1 + n) with (S n) by lia. rewrite Hino.
  eapply sd_copies; [done| |done]. lia.
Qed.

Lemma named_deleted x s n :
  named (set_dir (delete x (fs_dir s)) s) n = if bool_decide (n = x) then "" else named s n.
Proof.
  unfold named. cbn. case_bool_decide; subst; [by rewrite lookup_delete_eq|by rewrite lookup_delete_ne].
Qed.

Lemma family_head s s' :
  (∀ n, n ≠ copyName path (Z.of_nat K) → named s' n = named s n) →
  named s' (copyName path (Z.of_nat K)) = "" →
  log s = named s (copyName path (Z.of_nat K)) +:+ log s'.
Proof.
  intros Hsame Hgone. unfold reader_log. destruct K as [|k]; [lia|].
  unfold family, copies. rewrite seq_S, rev_unit. cbn [fmap list_fmap app cat].
  change (1 + k) with (S k). rewrite Hgone. cbn [String.append]. f_equal. apply cat_ext.
  intros n Hn. symmetry. apply Hsame. intros ->. change (list_fmap nat string ?f ?l) with (f <$> l) in Hn.
  rewrite elem_of_app, list_elem_of_fmap, elem_of_cons, list_elem_of_singleton in Hn.
  destruct Hn as [(j & Hj & Hin)|[Hst|Hp]].
  - apply copyName_inj in Hj; [|lia..]. apply list_elem_of_In, in_rev, in_seq in Hin. lia.
  - by apply copyName_staging in Hst; [|lia].
  - by apply copyName_path in Hp.
Qed.

Lemma rotating_drop L f c s :
  rotating L f c staging s → log s = L →
  (∀ j, (1 ≤ j ≤ Z.of_nat K)%Z → is_Some (fs_dir s !! copyName path j)) →
  let x := copyName path (Z.of_nat K) in
  rotating L f c staging (set_dir (delete x (fs_dir s)) s).
Proof.
  intros (Ho & _ & Hc & Hb) HL Hall x. set (s' := set_dir _ s).
  assert (staging ≠ x) as Hx.
  { intros H. symmetry in H. apply copyName_staging in H; [done|lia]. }
  destruct Ho as (Hs & Hloc & _ & Hpath & _).
  assert (sound s') as Hs'.
  { destruct Hs as [H1 H2 H3]. split; unfold s'; cbn.
    - intros a b ino [_ Ha]%lookup_delete_Some [_ Hb']%lookup_delete_Some. by eapply H1.
    - intros a ino [_ Ha]%lookup_delete_Some. by eapply H2.
    - intros i ino Hi [_ Ha]%lookup_delete_Some. by eapply H3. }
  split; [|split; [|done]].
  - split; [done|]. split; [by cbn; rewrite lookup_delete_ne by done|]. split; [auto|].
    split; [|done]. intros H. cbn. apply lookup_delete_None. right. by apply Hpath.
  - assert (log s = named s x +:+ log s') as Hcat.
    { apply family_head; intros; unfold s'; rewrite named_deleted; [by rewrite bool_decide_eq_false_2|].
      by rewrite bool_decide_eq_true_2. }
    exists (named s x). split; [by rewrite <-HL|]. right.
    unfold reader_log, family. rewrite cat_app, str_len_app. cbn [cat].
    assert (named s' staging = c) as ->.
    { unfold s'. rewrite named_deleted, bool_decide_eq_false_2 by done. unfold named. by rewrite Hloc. }
    rewrite !str_len_app.
    assert (∀ t, 0 ≤ str_len t)%Z as Hpos by (intros; unfold str_len; lia).
    assert (Z.of_nat (K - 1) * maxSize ≤ str_len (cat (named s') (copies path (K - 1))))%Z as Hlen.
    { apply copies_length; [done|lia|]. intros j Hj. cbn.
      rewrite lookup_delete_ne; [apply Hall; lia|]. intros H. apply copyName_inj in H; lia. }
    assert (str_len (cat (named s') (copies path (K - 1))) ≤ str_len (cat (named s') (copies path K)))%Z.
    { replace K with (S (K - 1)) at 2 by lia. unfold copies. rewrite seq_S, rev_unit.
      cbn [fmap list_fmap cat]. change (list_fmap nat string ?f ?l) with (f <$> l).
      rewrite str_len_app. pose proof (Hpos (named s' (copyName path (Z.of_nat (1 + (K - 1)))))). lia. }
    pose proof (Hpos (named s' path)). pose proof (Hpos "").
    replace (Z.of_nat K) with (Z.of_nat (K - 1) + 1)%Z by lia. rewrite Z.mul_add_distr_r, Z.mul_1_l. lia.
Qed.

Lemma post_shift L f c s w :
  rotating L f c staging s → log s = L → w_path w = path → slots w = Z.of_nat K →
  post (shift w) s
    (λ e s', rotating L f c staging s' ∧ (e = None → fs_dir s' !! copyName path 1 = None)) (crashed L).
Proof.
  intros Hrot HL Hp Hk. unfold shift. rewrite Hk, Hp, Nat2Z.id.
  destruct (first_free_spec K 1 s) as (r & Hff & Hr). apply post_bind. unfold post at 1. rewrite Hff.
  apply post_bind. destruct Hr as [[-> Hall]|(Hr & Hfree & _)].
  - cbn [Z.eqb]. rewrite (Z2Nat.inj_sub _ 1), Nat2Z.id by lia. change (Z.to_nat 1) with 1.
    apply post_call. intros s' Hs. rewrite Hs in Hrot, HL.
    assert (∀ j, (1 ≤ j ≤ Z.of_nat K)%Z → is_Some (fs_dir s' !! copyName path j)) as Hall'.
    { intros j Hj. rewrite <-Hs. apply Hall. lia. }
    split; [by eapply rotating_crashed|]. split; [|done].
    destruct (Hall' (Z.of_nat K)) as [ino Hino]; [lia|]. rewrite Hino. cbn [fst snd].
    apply (post_move_up L f c).
    + by apply rotating_drop.
    + lia.
    + replace (Z.of_nat (K - 1) + 1)%Z with (Z.of_nat K) by lia. cbn. apply lookup_delete_eq.
  - rewrite (proj2 (Z.eqb_neq r 0)) by lia. cbn [post io_ret].
    apply (post_move_up L f c); [done|lia|]. by replace (Z.of_nat (Z.to_nat (r - 1)) + 1)%Z with r by lia.
Qed.

(** The writer and the files agree. *)
Definition wf (w : Writer) (s : fs) : Prop :=
  w_path w = path ∧ slots w = Z.of_nat K ∧ w_maxSize w = maxSize ∧
  w_written w = str_len (content s (w_file w)) ∧
  (w_displaced w = "" ∨ w_displaced w = staging ∨ w_displaced w = copyName path 1) ∧
  open_at (w_file w) (if bool_decide (w_displaced w = "") then path else w_displaced w) s.

Definition rotated (L : string) (r : option string * Writer) (s : fs) : Prop :=
  wf r.2 s ∧ kept L s.

Lemma staging_nonempty : staging ≠ "".
Proof. by destruct path. Qed.
Lemma copyName_nonempty i : copyName path i ≠ "".
Proof. unfold copyName. by destruct path. Qed.

(** A writer whose open file is at the live path. *)
Definition at_path (w : Writer) : Prop :=
  w_path w = path ∧ slots w = Z.of_nat K ∧ w_maxSize w = maxSize ∧ w_displaced w = "".

Lemma post_rollback L c name cause w s :
  at_path w → name = staging ∨ name = copyName path 1 →
  rotating L (w_file w) c name s → w_written w = str_len c →
  post (rollback name cause w) s (rotated L) (crashed L).
Proof.
  intros (Hp & Hk & Hm & Hd) Hname (Ho & Hkept & Hc0 & Hb) Hw. unfold rollback. rewrite Hp.
  assert (name ≠ "") as Hne by (destruct Hname as [-> | ->]; [apply staging_nonempty|apply copyName_nonempty]).
  apply post_bind. eapply post_move; [done..| | | |].
  - unfold legal_move. tauto.
  - intros H. symmetry in H. by apply copyName_path in H.
  - intros s' Ho' Hl' Hc. cbn. split; [|by eapply kept_same]. cbn. unfold wf. rewrite Hd, bool_decide_eq_true_2, Hc, Hc0 by done.
    split_and!; auto.
  - intros e s' _ Ho' Hl' Hc. cbn. split; [|by eapply kept_same]. unfold wf. cbn.
    rewrite bool_decide_eq_false_2, Hc, Hc0 by done. split_and!; tauto.
Qed.

Lemma open_at_create s :
  sound s → fs_dir s !! path = None → fs_dir s !! staging = None →
  let s' := mkFs (<[path := fs_next s]> (fs_dir s)) (<[fs_next s := ""]> (fs_data s)) (S (fs_next s)) (fs_faults s) in
  open_at (fs_next s) path s' ∧ log s' = log s ∧ content s' (fs_next s) = "".
Proof.
  intros Hs Hpath Hstag s'.
  assert (∀ a ino, fs_dir s !! a = Some ino → ino ≠ fs_next s) as Hfresh.
  { intros a ino Ha. pose proof (sd_next _ Hs a ino Ha). lia. }
  assert (∀ a ino, fs_dir s !! a = Some ino → content s' ino = content s ino) as Hcont.
  { intros a ino Ha. unfold content, s'. cbn. rewrite lookup_insert_ne; [done|].
    intros H. by eapply Hfresh. }
  split; [|split].
  - split; [|split; [|split; [auto|split; [done|]]]].
    + split; unfold s'; cbn.
      * intros a b ino. rewrite !lookup_insert. repeat case_decide; subst; intros Ha Hb; simplify_eq; try done.
        -- by destruct (Hfresh _ _ Hb).
        -- by destruct (Hfresh _ _ Ha).
        -- by eapply sd_inj.
      * intros a ino. rewrite lookup_insert. case_decide; intros Ha; simplify_eq; [lia|].
        pose proof (sd_next _ Hs a ino Ha). lia.
      * intros i ino Hi. rewrite lookup_insert_ne by (intros H; symmetry in H; by apply copyName_path in H).
        intros Ha. fold s'. rewrite (Hcont _ _ Ha). by eapply sd_copies.
    + unfold s'. cbn. apply lookup_insert_eq.
    + intros _. unfold s'. cbn. rewrite lookup_insert_ne; [done|]. intros H. symmetry in H. by apply staging_path in H.
  - unfold reader_log. apply cat_ext. intros n _. unfold named.
    destruct (decide (n = path)) as [->|Hn].
    + rewrite Hpath. unfold s' at 1. cbn. rewrite lookup_insert_eq. unfold content. cbn.
      by rewrite lookup_insert_eq.
    + unfold s' at 1. cbn. rewrite lookup_insert_ne by done.
      destruct (fs_dir s !! n) eqn:Hx; [|done]. by eapply Hcont.
  - unfold content, s'. cbn. by rewrite lookup_insert_eq.
Qed.

Lemma at_path_install w f : at_path w → at_path (install f w).
Proof. done. Qed.

Lemma post_rotate_staged L c w s :
  at_path w → rotating L (w_file w) c path s → log s = L → w_written w = str_len c →
  post (rotate_staged w) s (rotated L) (crashed L).
Proof.
  intros Hw Hrot HL Hwr. destruct (id Hw) as (Hp & Hk & Hm & Hd). unfold rotate_staged. rewrite Hp.
  apply post_bind, (post_rotating_move L (w_file w) c path staging s); [done|unfold legal_move; tauto| |].
  2:{ intros e s' He (Ho' & Hk' & Hc' & _). destruct e as [b text]. cbn in He. subst b. cbn.
      split; [|done]. cbn. unfold wf. rewrite Hd, bool_decide_eq_true_2, Hc' by done. split_and!; auto. }
  intros s1 Hrot1 Hl1. rewrite HL in Hl1. cbn [post].
  apply post_bind. eapply post_mono; [by apply (post_shift L (w_file w) c)|].
  intros [e|] s2 [Hrot2 Hfree]; [by eapply post_rollback; [|left|..]|].
  apply post_bind, (post_rotating_move L (w_file w) c staging (copyName path 1) s2);
    [done|unfold legal_move; by auto 10| |].
  2:{ intros e s3 He Hrot3. eapply post_rollback; [done|by left|done..]. }
  intros s3 Hrot3 _. apply post_bind, post_call. intros s4 Hs. rewrite Hs in Hrot3.
  split; [by eapply rotating_crashed|]. split.
  2:{ intros msg short. cbn [fst snd]. eapply post_rollback; [done|by right|done..]. }
  destruct (id Hrot3) as (Ho & Hkept & _ & _).
  assert (fs_dir s4 !! path = None) as Hpath by (apply Ho, copyName_path).
  assert (fs_dir s4 !! staging = None) as Hst by (apply Ho, copyName_staging; lia).
  rewrite Hpath. cbn [fst snd].
  destruct (open_at_create s4 (proj1 Ho) Hpath Hst) as (Ho' & Hl' & Hc').
  split; [|by eapply kept_same]. unfold wf. cbn [snd install set_file w_path w_maxSize w_written w_file w_displaced].
  rewrite Hd, bool_decide_eq_true_2, Hc' by done. split_and!; auto.
Qed.

Lemma post_rotate L c w s :
  wf w s → content s (w_file w) = c → (maxSize ≤ str_len c)%Z → log s = L →
  post (rotate w) s (rotated L) (crashed L).
Proof.
  intros (Hp & Hk & Hm & Hwr & Hd & Ho) Hc Hb HL. rewrite Hc in Hwr. unfold rotate.
  assert (kept L s) as Hkept by (rewrite <-HL; apply kept_refl).
  destruct (decide (w_displaced w = "")) as [He|He].
  - rewrite bool_decide_eq_true_2 in * by done. by eapply post_rotate_staged.
  - rewrite bool_decide_eq_false_2 in * by done. rewrite Hp.
    apply post_bind, (post_rotating_move L (w_file w) c (w_displaced w) path s); [done| | |].
    + unfold legal_move. tauto.
    + intros s' Hrot Hl. eapply post_rotate_staged; [done|done|by rewrite Hl|done].
    + intros e s' _ (Ho' & Hk' & Hc' & _). cbn. split; [|done]. unfold wf. cbn.
      rewrite bool_decide_eq_false_2, Hc' by done. split_and!; tauto.
Qed.

(** *** Writing and opening *)

(** The bytes a write stores before anything else happens. *)
Definition stored (p : string) (w : Writer) (s : fs) : string :=
  match (append (w_file w) p s).1 with Some (n, _) => str_take n p | None => "" end.

Lemma str_take_all p : str_take (String.length p) p = p.
Proof.
  unfold str_take. rewrite <-length_bytes, take_ge by done. apply of_bytes_bytes.
Qed.

(** The names after the open file are empty, so what is written is at the end
    of the log. *)
Lemma log_append f loc s q :
  open_at f loc s →
  let s' := set_data (<[f := content s f +:+ q]> (fs_data s)) s in
  open_at f loc s' ∧ log s' = log s +:+ q ∧ content s' f = content s f +:+ q.
Proof.
  intros Ho s'. destruct (id Ho) as (Hs & Hloc & Hcase & Hp & Hst).
  assert (content s' f = content s f +:+ q) as Hc.
  { unfold content at 1, s'. cbn. by rewrite lookup_insert_eq. }
  assert (∀ ino, ino ≠ f → content s' ino = content s ino) as Hother.
  { intros ino Hne. unfold content, s'. cbn. by rewrite lookup_insert_ne. }
  assert (∀ n, n ≠ loc → named s' n = named s n) as Hnamed.
  { intros n Hn. unfold named. change (fs_dir s') with (fs_dir s). destruct (fs_dir s !! n) as [ino|] eqn:E; [|done].
    apply Hother. intros ->. apply Hn. by eapply sd_inj. }
  assert (named s' loc = named s loc +:+ q) as Hn.
  { unfold named. change (fs_dir s') with (fs_dir s). by rewrite Hloc. }
  split; [|split; [|done]].
  - split; [|done]. destruct Hs as [H1 H2 H3]. split; [done..|]. intros i ino Hi Hino.
    specialize (H3 i ino Hi Hino). destruct (decide (ino = f)) as [->|]; [|by rewrite Hother].
    rewrite Hc, str_len_app. unfold str_len at 2. lia.
  - unfold reader_log. destruct (family_last path K HK) as (l1 & -> & Hl).
    apply family_last_out in Hl as (H1 & H2 & H3). rewrite !cat_app. cbn [cat].
    assert (named s' path = if bool_decide (loc = path) then named s path +:+ q else "") as Hpath.
    { case_bool_decide as H; [by rewrite <-H, Hn|]. rewrite Hnamed by congruence. apply named_None; auto. }
    assert (loc ≠ path → named s path = "") as Hpath0 by (intros; apply named_None; auto).
    assert (loc ≠ staging → named s staging = "") as Hst0 by (intros; apply named_None; auto).
    rewrite (cat_ext (named s') (named s) l1)
      by (intros n Hin; apply Hnamed; intros ->; destruct Hcase as [-> | [-> | ->]]; done).
    destruct Hcase as [-> | [-> | ->]].
    + rewrite bool_decide_eq_true_2 in Hpath by done.
      rewrite Hpath, !Hnamed by (apply staging_path || apply copyName_path).
      by rewrite !str_app_nil, !str_app_assoc.
    + pose proof (staging_path path) as Hne. rewrite bool_decide_eq_false_2 in Hpath by done.
      rewrite Hpath, Hn, (Hpath0 Hne), Hnamed by (apply copyName_staging; lia).
      by rewrite !str_app_nil, !str_app_assoc.
    + pose proof (copyName_path path 1) as Hne.
      assert (copyName path 1 ≠ staging) as Hne' by (apply copyName_staging; lia).
      rewrite bool_decide_eq_false_2 in Hpath by done.
      rewrite Hpath, Hn, (Hpath0 Hne), Hnamed, (Hst0 Hne') by done. cbn.
      by rewrite !str_app_nil, !str_app_assoc.
Qed.

Lemma post_Write p w s :
  wf w s →
  post (Write p w) s
    (λ r s', wf r.2 s' ∧ kept (log s +:+ stored p w s) s' ∧ stored p w s = str_take r.1.1 p ∧
             (r.1.2 = None → r.1.1 = String.length p))
    (crashed (log s +:+ stored p w s)).
Proof.
  intros Hwf. destruct (id Hwf) as (Hp & Hk & Hm & Hwr & Hd & Ho). unfold Write.
  set (T := stored p w s). assert (T = stored p w s) as HT by done. clearbody T.
  unfold stored, append in HT. apply post_bind. unfold append, post at 1. unfold call in *.
  assert (∀ n err s1, same_files s s1 → n <= String.length p → T = str_take n p → (err = None → n = String.length p) →
    post (let '(n, err) := (n, err) in
          let w := set_file (w_file w) (w_written w + Z.of_nat n) w in
          let err := e_text <$> err in
          if (w_maxSize w <=? w_written w)%Z then
            io_bind (rotate w) (λ r, let '(rerr, w) := r in
              io_ret (n, (match err with Some e => Some e | None => rerr end), w))
          else io_ret (n, err, w))
      (set_data (<[w_file w := content s1 (w_file w) +:+ T]> (fs_data s1)) s1)
      (λ r s', wf r.2 s' ∧ kept (log s +:+ T) s' ∧ T = str_take r.1.1 p ∧
         (r.1.2 = None → r.1.1 = String.length p))
      (crashed (log s +:+ T))) as Hafter.
  { intros n err s1 Hs Hn HTn Herr. assert (log s1 = log s) as Hls by by rewrite Hs.
    rewrite Hs in Ho, Hwr. rewrite <-Hls.
    destruct (log_append _ _ _ T Ho) as (Ho' & Hl' & Hc'). set (s2 := set_data _ s1) in *.
    assert (str_len T = Z.of_nat n) as Hlen.
    { rewrite HTn. unfold str_len, str_take. rewrite <-length_bytes, bytes_of_bytes, length_take, length_bytes. lia. }
    assert (wf (set_file (w_file w) (w_written w + Z.of_nat n) w) s2) as Hwf'.
    { unfold wf. cbn. rewrite Hc', str_len_app, Hlen, Hwr. split_and!; auto. }
    cbn [set_file w_maxSize w_written]. destruct (Z.leb_spec (w_maxSize w) (w_written w + Z.of_nat n)).
    - apply post_bind. eapply post_mono.
      + eapply post_rotate; [exact Hwf'|exact Hc'| |exact Hl']. rewrite str_len_app, Hlen. lia.
      + intros [rerr w'] s3 [Hwf3 Hk3]. cbn. split; [done|]. split; [done|]. split; [done|].
        destruct err; cbn; [done|]. auto.
    - cbn. split; [done|]. split; [rewrite <-Hl'; apply kept_refl|]. split; [done|].
      destruct err; cbn; [done|auto]. }
  destruct (fs_faults s) as [|flt l] eqn:Hflt; cbn [fst] in HT.
  - specialize (Hafter (String.length p) None s). rewrite str_take_all in *. subst T. by apply Hafter.
  - destruct flt as [|msg short|]; cbn [fst] in HT.
    + specialize (Hafter (String.length p) None (mkFs (fs_dir s) (fs_data s) (fs_next s) l)).
      rewrite str_take_all in *. subst T. by apply Hafter.
    + subst T. apply (Hafter (min short (String.length p)) (Some (mkFerr false msg))
        (mkFs (fs_dir s) (fs_data s) (fs_next s) l)); [done|lia|done|done].
    + subst T. rewrite str_app_nil. assert (same_files s (mkFs (fs_dir s) (fs_data s) (fs_next s) l)) as Hs by done.
      split; rewrite <-Hs; [by eapply open_at_quiet|apply kept_refl].
Qed.

Lemma post_New maxFiles s :
  quiet s → Z.max maxFiles 1 = Z.of_nat K →
  post (New path maxSize maxFiles) s
    (λ r s', kept (log s) s' ∧ match r with Ok w => wf w s' | Err _ => quiet s' end) (crashed (log s)).
Proof.
  intros [Hs Hone] Hk. unfold New. apply post_bind. unfold post at 1, exists_name.
  set (openit := io_bind (openFile path) _).
  assert (∀ s1, sound s1 → fs_dir s1 !! staging = None → log s1 = log s →
    post openit s1 (λ r s', kept (log s) s' ∧ match r with Ok w => wf w s' | Err _ => quiet s' end)
      (crashed (log s))) as Hopen.
  { intros s1 Hs1 Hst1 Hl1. unfold openit. apply post_bind, post_call. intros s2 Hs2.
    rewrite Hs2 in Hs1, Hst1, Hl1. assert (kept (log s) s2) as Hkept by (rewrite <-Hl1; apply kept_refl).
    split; [by split; [split; [|right]|]|]. split; [|by intros; cbn; split; [|split; [|right]]].
    destruct (fs_dir s2 !! path) as [ino|] eqn:Hino; cbn [fst snd].
    - unfold io_bind, size_of, io_ret, post. split; [done|]. unfold wf. cbn.
      rewrite bool_decide_eq_true_2 by done. split_and!; auto. split; [done|]. split_and!; auto; done.
    - destruct (open_at_create s2 Hs1 Hino Hst1) as (Ho' & Hl' & Hc').
      unfold io_bind, size_of, io_ret, post. split; [by eapply kept_same|]. unfold wf. cbn.
      rewrite bool_decide_eq_true_2 by done. split_and!; auto. }
  apply post_bind. case_bool_decide as Hlive; cbn [negb].
  - cbn. apply Hopen; [done| |done]. destruct Hone as [Hn|]; [|done]. destruct Hlive as [? Hl]. congruence.
  - apply post_call. intros s1 Hs1. rewrite <-eq_None_not_Some in Hlive. rewrite Hs1 in Hs, Hlive.
    assert (log s1 = log s) as Hl by by rewrite Hs1.
    assert (kept (log s) s1) as Hkept by (rewrite <-Hl; apply kept_refl).
    split; [by split; [split; [|left]|]|]. split.
    2:{ intros msg short. cbn. split; [done|]. split; [done|by left]. }
    destruct (fs_dir s1 !! staging) as [ino|] eqn:Hst; cbn [fst snd]; [|by apply Hopen].
    change (set_dir _ s1) with (renamed staging path ino s1).
    pose proof (staging_path path) as Hne. apply Hopen.
    + apply sound_renamed; [done..|]. intros i Hi H. symmetry in H. by apply copyName_path in H.
    + rewrite lookup_renamed by done. by rewrite bool_decide_eq_false_2, bool_decide_eq_true_2.
    + rewrite <-Hl. apply log_renamed; [done..|]. left. apply adjacent_live.
Qed.

(** *** Without failures *)

Lemma rename_works old new ino s : fs_faults s = [] → fs_dir s !! old = Some ino →
  rename old new s = (Some None, renamed old new ino s).
Proof. intros Hf Ho. unfold rename, call. by rewrite Hf, Ho. Qed.

Lemma move_up_works n s :
  fs_faults s = [] → (∀ j, (1 ≤ j ≤ Z.of_nat n)%Z → is_Some (fs_dir s !! copyName path j)) →
  ∃ s', move_up path n s = (Some None, s') ∧ fs_faults s' = [].
Proof.
  revert s; induction n as [|n IH]; intros s Hf Hall; cbn [move_up]; [by exists s|].
  destruct (Hall (Z.of_nat (S n))) as [ino Hino]; [lia|]. unfold io_bind.
  rewrite (rename_works _ _ ino) by done. apply IH; [done|]. intros j Hj.
  unfold renamed. cbn. rewrite lookup_insert_ne by (intros H; apply copyName_inj in H; lia).
  rewrite lookup_delete_ne by (intros H; apply copyName_inj in H; lia). apply Hall. lia.
Qed.

Lemma shift_works w s : fs_faults s = [] → w_path w = path → slots w = Z.of_nat K →
  ∃ s', shift w s = (Some None, s') ∧ fs_faults s' = [].
Proof.
  intros Hf Hp Hk. unfold shift. rewrite Hk, Hp, Nat2Z.id. unfold io_bind.
  destruct (first_free_spec K 1 s) as (r & -> & [[-> Hall]|(Hr & Hn & Hall)]).
  - cbn [Z.eqb]. unfold remove, call. rewrite Hf.
    destruct (Hall (Z.of_nat K)) as [ino ->]; [lia|]. apply move_up_works; [done|].
    intros j Hj. cbn. rewrite lookup_delete_ne; [apply Hall; lia|]. intros H. apply copyName_inj in H; lia.
  - rewrite (proj2 (Z.eqb_neq r 0)) by lia. cbn [io_ret]. apply move_up_works; [done|].
    intros j Hj. apply Hall. lia.
Qed.

Lemma rotate_staged_works w s :
  at_path w → fs_faults s = [] → (∃ L c, rotating L (w_file w) c path s ∧ log s = L) →
  ∃ f s', rotate_staged w s = (Some (None, install f w), s').
Proof.
  intros Hw Hf (L & c & Hrot & HL). destruct (id Hw) as (Hp & Hk & _). unfold rotate_staged. rewrite Hp.
  assert (post (rename path staging) s
    (λ e s', e = None → rotating L (w_file w) c staging s' ∧ log s' = log s) (crashed L)) as H1.
  { eapply post_rotating_move; [done|by left|by auto|done]. }
  assert (fs_dir s !! path = Some (w_file w)) as Hlive by apply Hrot.
  unfold io_bind, post in *. rewrite (rename_works _ _ (w_file w)) in H1 |- * by done.
  destruct (H1 eq_refl) as [Hrot1 Hl1].
  destruct (shift_works w (renamed path staging (w_file w) s)) as (s2 & Hs2 & Hf2); [done..|].
  pose proof (post_shift L (w_file w) c _ w Hrot1 ltac:(congruence) Hp Hk) as H2.
  unfold post in H2. rewrite Hs2 in H2 |- *. destruct H2 as [(Ho2 & _) _].
  rewrite (rename_works _ _ (w_file w)) by (done || apply Ho2).
  unfold openFile, call. change (fs_faults (renamed ?a ?b ?c s2)) with (fs_faults s2). rewrite Hf2.
  destruct (fs_dir (renamed _ _ _ s2) !! path); cbn; do 2 eexists; reflexivity.
Qed.

(** ** Histories of a log *)

(** A log that is opened, written and closed, by a process that may fail or
    die at any call and be started again; [T] is all that was stored in it. *)
Inductive history (maxFiles : Z) : option Writer → fs → string → Prop :=
  | hist_start s : quiet s → history maxFiles None s (log s)
  | hist_open s T r s' : history maxFiles None s T → New path maxSize maxFiles s = (r, s') →
      history maxFiles (match r with Some (Ok w) => Some w | _ => None end) s' T
  | hist_write w s T p r s' : history maxFiles (Some w) s T → Write p w s = (r, s') →
      history maxFiles (snd <$> r) s' (T +:+ stored p w s)
  | hist_stop w s T : history maxFiles (Some w) s T → history maxFiles None s T.

Lemma history_invariant maxFiles x s T :
  Z.max maxFiles 1 = Z.of_nat K → history maxFiles x s T →
  kept T s ∧ match x with Some w => wf w s | None => quiet s end.
Proof.
  intros Hk. induction 1 as [s Hq|s T r s' _ [IH1 IH2] Hnew|w s T p r s' _ [IH1 IH2] Hwrite|w s T _ [IH1 IH2]].
  - split; [apply kept_refl|done].
  - pose proof (post_New maxFiles s IH2 Hk) as Hpost. unfold post in Hpost. rewrite Hnew in Hpost.
    assert (kept (log s) s' → kept T s') as Hkept.
    { intros H. rewrite <-(str_app_nil T). eapply kept_trans; [done|]. by rewrite str_app_nil. }
    destruct r as [[w|e]|]; destruct Hpost; auto.
  - pose proof (post_Write p w s IH2) as Hpost. unfold post in Hpost. rewrite Hwrite in Hpost.
    destruct r as [r|].
    + destruct Hpost as (Hwf & Hkept & _). split; [by eapply kept_trans|done].
    + destruct Hpost as (Hq & Hkept). split; [by eapply kept_trans|done].
  - split; [done|]. by destruct IH2 as (_ & _ & _ & _ & _ & Ho%open_at_quiet).
Qed.

End log.

(** C2: rotation loses nothing but the oldest bytes, and those only when more
    than [maxFiles] times the rotation size is retained: whatever calls fail
    in whatever order, and wherever the process dies and is started again,
    what a reader of the journal sees is a suffix of all that was stored in
    it, and it is all of it until the log holds that much. *)
Theorem rotation_keeps_log path maxSize maxFiles x s T :
  let K := Z.to_nat (Z.max maxFiles 1) in
  history path K maxSize maxFiles x s T →
  ∃ dropped, T = dropped +:+ reader_log path K s ∧
    (dropped = "" ∨ (Z.max maxFiles 1 * maxSize ≤ str_len (reader_log path K s))%Z).
Proof.
  intros K Hh. assert (Z.max maxFiles 1 = Z.of_nat K) as HK by (unfold K; lia). rewrite HK.
  by eapply (history_invariant path K maxSize); [lia|..].
Qed.

(** A write reports what it stored: it stores a prefix of what it was
    given, of the length it returns, at the end of the log, and all of it when
    it returns no error; without failures it returns none, and the live file
    it leaves is below the rotation size. *)
Theorem Write_reports path K maxSize p w s :
  1 <= K → wf path K maxSize w s →
  match Write p w s with
  | (Some (n, err, w'), s') =>
      wf path K maxSize w' s' ∧ kept path K maxSize (reader_log path K s +:+ str_take n p) s' ∧
      (err = None → n = String.length p)
  | (None, s') => quiet path K maxSize s' ∧ ∃ n, kept path K maxSize (reader_log path K s +:+ str_take n p) s'
  end ∧
  (fs_faults s = [] → w_displaced w = "" → (0 < maxSize)%Z →
   ∃ w' s', Write p w s = (Some (String.length p, None, w'), s') ∧ (w_written w' < maxSize)%Z).
Proof.
  intros HK Hwf. split.
  - pose proof (post_Write path K maxSize HK p w s Hwf) as H. unfold post in H.
    destruct (Write p w s) as [[[[n err] w']|] s'].
    + destruct H as (H1 & H2 & H3 & H4). cbn [fst snd] in *. rewrite <-H3. by split_and!.
    + destruct H as (H1 & H2). split; [done|].
      unfold stored in H2. destruct (append _ _ _).1 as [[n ?]|]; [by exists n|]. by exists 0.
  - intros Hf Hd Hpos. unfold Write, io_bind, append, call. rewrite Hf. cbn zeta.
    destruct (id Hwf) as (Hp & Hk & Hm & Hwr & _ & Ho). rewrite Hd, bool_decide_eq_true_2 in Ho by done.
    destruct (log_append path K maxSize HK _ _ _ p Ho) as (Ho' & Hl' & Hc').
    set (s1 := set_data _ s) in *. cbn [set_file w_maxSize w_written].
    destruct (Z.leb_spec (w_maxSize w) (w_written w + Z.of_nat (String.length p))).
    + set (w1 := set_file (w_file w) _ w).
      destruct (rotate_staged_works path K maxSize HK w1 s1) as (f & s' & Hrot); [by split_and!|done| |].
      { eexists _, _. split; [|reflexivity]. split; [done|]. split; [apply kept_refl|]. split; [done|].
        rewrite str_len_app, <-Hwr. unfold str_len. lia. }
      unfold rotate. change (w_displaced w1) with (w_displaced w). rewrite Hd, bool_decide_eq_true_2 by done.
      rewrite Hrot. eexists _, _. split; [reflexivity|done].
    + eexists _, _. split; [reflexivity|]. cbn. lia.
Qed.

(** ** Witnesses *)

Definition empty_fs (faults : list fault) : fs := mkFs ∅ ∅ 0 faults.

Lemma empty_quiet path K maxSize faults : quiet path K maxSize (empty_fs faults).
Proof. split; [|by left]. split; by intros. Qed.

(** Two writes of ten bytes at a rotation size of 8: at the second rotation the
    move of the staged file fails, and so does putting it back; then the
    process stops and starts again. *)
Definition example_faults : list fault :=
  [Works; Works; Works; Works; Works; Works; Works; Works; Works; Fails "busy" 0; Fails "busy" 0].

Definition opened (s : fs) : option Writer :=
  match (New "j" 8 2 s).1 with Some (Ok w) => Some w | _ => None end.

Lemma rotation_keeps_log_witness :
  ∃ x s T, history "j" 2 8 2 x s T ∧ T = "0123456789abcdefghij" ∧
    ∃ dropped, T = dropped +:+ reader_log "j" 2 s.
Proof.
  pose (s0 := empty_fs example_faults). pose (r1 := New "j" 8 2 s0).
  pose proof (hist_start "j" 2 8 2 s0 (empty_quiet "j" 2 8 example_faults)) as H0.
  pose proof (hist_open "j" 2 8 2 _ _ r1.1 r1.2 H0 (surjective_pairing r1)) as H1.
  pose (w1 := default (mkWriter "" 0 0 0 0 "") (opened s0)).
  change (history "j" 2 8 2 (Some w1) r1.2 (reader_log "j" 2 s0)) in H1.
  pose (r2 := Write "0123456789" w1 r1.2).
  pose proof (hist_write "j" 2 8 2 _ _ _ "0123456789" r2.1 r2.2 H1 (surjective_pairing r2)) as H2.
  pose (w2 := default w1 (snd <$> r2.1)).
  change (history "j" 2 8 2 (Some w2) r2.2 (reader_log "j" 2 s0 +:+ stored "0123456789" w1 r1.2)) in H2.
  pose (r3 := Write "abcdefghij" w2 r2.2).
  pose proof (hist_write "j" 2 8 2 _ _ _ "abcdefghij" r3.1 r3.2 H2 (surjective_pairing r3)) as H3.
  eexists _, _, _. split; [exact H3|]. split; [vm_compute; reflexivity|].
  destruct (rotation_keeps_log "j" 8 2 _ _ _ H3) as (dropped & Hd & _). exists dropped. exact Hd.
Defined.

Lemma Write_reports_witness :
  ∃ w' s', Write "0123456789" (mkWriter "j" 8 2 0 0 "") (mkFs {["j" := 0]} {[0 := ""]} 1 []) =
             (Some (10, None, w'), s') ∧ (w_written w' < 8)%Z.
Proof.
  apply (Write_reports "j" 2 8 "0123456789").
  - lia.
  - split; [reflexivity|]. split; [reflexivity|]. split; [reflexivity|]. split; [reflexivity|].
    split; [left; reflexivity|]. split; [|split; [reflexivity|split; [left; reflexivity|]]].
    + split.
      * intros a b ino Ha Hb. cbn [fs_dir] in *. apply lookup_singleton_Some in Ha as [<- _].
        apply lookup_singleton_Some in Hb as [<- _]. reflexivity.
      * intros a ino Ha. cbn [fs_dir] in Ha. apply lookup_singleton_Some in Ha as [_ <-]. apply Nat.lt_0_1.
      * intros i ino Hi Ha. cbn [fs_dir] in Ha. apply lookup_singleton_Some in Ha as [Ha _]. symmetry in Ha.
        by apply copyName_path in Ha.
    + split; [intros H; destruct (H eq_refl)|reflexivity].
  - reflexivity.
  - reflexivity.
  - lia.
Defined.
