(* ===== verification/Ipc.v ===== *)
(** * The daemon's event server

    The bounded history of log entries, the server that publishes logs and
    states to every connected monitor, and the run identifiers.  A publication
    takes effect in two moments: the registry and the history are updated under
    the server's lock, then each client found there is sent the event outside
    it; the second part of several publications, connections and disconnections
    interleave as they may. *)

From S2P Require Import Prelude GoStrings ConfigTypes RunnerState Lifecycle Groups Reload.

(** ** Log entries *)

(** A time is a number of nanoseconds, 0 when unset.
    Source: internal/ipc/ipc.go:167-189 (LogEntry). *)
Record LogEntry : Type := mkLogEntry {
  le_Version : Z;
  le_ID : string;
  le_RunID : string;
  le_AttemptID : string;
  le_Sequence : Z;
  le_Session : string;
  le_Time : Z;
  le_Process : string;
  le_Line : string;
  le_Kind : string;
  le_Level : string;
  le_Code : string;
  le_Stream : string;
  le_PID : Z;
  le_Generation : Z;
  le_State : option ProcState;
  le_Truncated : bool;
  le_OriginalBytes : Z;
  le_IsEvent : bool;
  le_IsError : bool;
}.

Definition zero_entry : LogEntry :=
  mkLogEntry 0 "" "" "" 0 "" 0 "" "" "" "" "" "" 0 0 None false 0 false false.

(** ** The history ring *)

(** Source: internal/ipc/ringbuf.go:5-17 (logRing). *)
Record logRing : Type := mkRing {
  lr_buf : list LogEntry;
  lr_head : nat;
  lr_n : nat;
  lr_sizes : list Z;
  lr_bytes : Z;
}.

(** Source: internal/ipc/ringbuf.go:19-21 (newLogRing). *)
Definition newLogRing (capacity : nat) : logRing :=
  mkRing (replicate capacity zero_entry) 0 0 (replicate capacity 0%Z) 0.

(** 256 << 10 *)
Definition budget : Z := Z.shiftl 256 10.

(** [(head - n + capacity) % capacity]: [head + capacity] is never below [n]. *)
Definition oldest (r : logRing) : nat :=
  (lr_head r + length (lr_buf r) - lr_n r) mod length (lr_buf r).

(** Source: internal/ipc/ringbuf.go:39-44 (push, loop body). *)
Definition drop_oldest (r : logRing) : logRing :=
  mkRing (<[oldest r := zero_entry]> (lr_buf r)) (lr_head r) (lr_n r - 1) (lr_sizes r)
    (lr_bytes r - default 0%Z (lr_sizes r !! oldest r)).

(** The loop runs at most once per valid entry.
    Source: internal/ipc/ringbuf.go:39-44 (push, loop). *)
Fixpoint make_room (fuel : nat) (size : Z) (r : logRing) : logRing :=
  match fuel with
  | O => r
  | S fuel =>
      if (0 <? lr_n r) && ((lr_n r =? length (lr_buf r)) || (budget <? lr_bytes r + size)%Z)
      then make_room fuel size (drop_oldest r)
      else r
  end.

(** Source: internal/ipc/ringbuf.go:23-50 (push). *)
Definition push (e : LogEntry) (size : Z) (r : logRing) : logRing :=
  let capacity := length (lr_buf r) in
  if capacity =? 0 then r
  else if (budget <? size)%Z then r
  else
    let r := make_room (lr_n r) size r in
    mkRing (<[lr_head r := e]> (lr_buf r)) ((lr_head r + 1) mod capacity) (lr_n r + 1)
      (<[lr_head r := size]> (lr_sizes r)) (lr_bytes r + size).

(** Source: internal/ipc/ringbuf.go:52-62 (snapshot). *)
Definition ring_snapshot (r : logRing) : list LogEntry :=
  if lr_n r =? 0 then []
  else (λ i, default zero_entry (lr_buf r !! ((oldest r + i) mod length (lr_buf r)))) <$> seq 0 (lr_n r).

(** ** What the ring promises: a queue bounded in entries and in bytes *)

Definition total_size (q : list (LogEntry * Z)) : Z := foldr (λ e a, (e.2 + a)%Z) 0%Z q.

(** Drop from the front until one more entry of [size] fits. *)
Fixpoint fit_queue (capacity : nat) (size : Z) (q : list (LogEntry * Z)) : list (LogEntry * Z) :=
  match q with
  | [] => []
  | _ :: q' => if (length q =? capacity) || (budget <? total_size q + size)%Z
               then fit_queue capacity size q' else q
  end.

Definition push_queue (capacity : nat) (e : LogEntry) (size : Z) (q : list (LogEntry * Z))
    : list (LogEntry * Z) :=
  if (capacity =? 0) || (budget <? size)%Z then q else fit_queue capacity size q ++ [(e, size)].

(** The ring [r] holds the queue [q]. *)
Record represents (r : logRing) (q : list (LogEntry * Z)) : Prop := {
  rp_sizes : length (lr_sizes r) = length (lr_buf r);
  rp_n : lr_n r = length q;
  rp_le : length q <= length (lr_buf r);
  rp_head : lr_head r < length (lr_buf r) ∨ length (lr_buf r) = 0 ∧ lr_head r = 0;
  rp_bytes : lr_bytes r = total_size q;
  rp_at : ∀ i x, q !! i = Some x →
    lr_buf r !! ((oldest r + i) mod length (lr_buf r)) = Some x.1 ∧
    lr_sizes r !! ((oldest r + i) mod length (lr_buf r)) = Some x.2;
}.

Lemma mod_once a n : n ≠ 0 → a < 2 * n → a mod n = if a <? n then a else a - n.
Proof.
  intros Hn Ha. destruct (Nat.ltb_spec a n); [by apply Nat.mod_small|].
  replace a with (a - n + 1 * n) at 1 by lia. rewrite Nat.Div0.mod_add. apply Nat.mod_small. lia.
Qed.

(** Compute the positions of a ring. *)
Ltac ring_arith :=
  unfold oldest in *; cbn [lr_buf lr_head lr_n lr_sizes lr_bytes] in *;
  rewrite ?length_insert in *;
  repeat match goal with
    | |- context [?a mod ?n] => rewrite (mod_once a n) by (repeat case_match; gobool; lia)
    | H : context [?a mod ?n] |- _ => rewrite (mod_once a n) in H by (repeat case_match; gobool; lia)
    end;
  repeat match goal with
    | |- context [?a <? ?n] => destruct (Nat.ltb_spec a n)
    | H : context [?a <? ?n] |- _ => destruct (Nat.ltb_spec a n)
    end; try lia.

Lemma represents_new capacity : represents (newLogRing capacity) [].
Proof.
  split; cbn; rewrite ?length_replicate; try done; [lia|]. destruct capacity; [by right|left; lia].
Qed.

Lemma represents_drop r x q : represents r (x :: q) → represents (drop_oldest r) q.
Proof.
  intros [H1 H2 H3 H4 H5 H6]. cbn [length] in *.
  assert (lr_head r < length (lr_buf r)) as Hh by (destruct H4 as [|[H _]]; lia).
  split; cbn [drop_oldest lr_buf lr_head lr_n lr_sizes lr_bytes]; rewrite ?length_insert; try lia.
  - destruct (H6 0 x eq_refl) as [_ Hs]. 
    replace ((oldest r + 0) mod length (lr_buf r)) with (oldest r) in Hs by ring_arith.
    rewrite Hs, H5. cbn [total_size foldr default]. fold (total_size q). cbn. lia.
  - intros i y Hy. pose proof (lookup_lt_Some _ _ _ Hy) as Hi.
    destruct (H6 (S i) y Hy) as [Hb Hs].
    assert ((oldest (drop_oldest r) + i) mod length (lr_buf r) = (oldest r + S i) mod length (lr_buf r)) as ->.
    { unfold drop_oldest. ring_arith. }
    rewrite list_lookup_insert_ne; [done|]. ring_arith.
Qed.

Lemma make_room_capacity fuel size r : length (lr_buf (make_room fuel size r)) = length (lr_buf r).
Proof.
  revert r; induction fuel as [|fuel IH]; intros r; cbn [make_room]; [done|].
  case_match; [|done]. rewrite IH. apply length_insert.
Qed.

Lemma represents_room size r q :
  represents r q →
  represents (make_room (length q) size r) (fit_queue (length (lr_buf r)) size q).
Proof.
  revert r; induction q as [|x q IH]; intros r Hr; cbn [length make_room fit_queue]; [done|].
  destruct (id Hr) as [H1 H2 H3 H4 H5 H6]. rewrite H2, H5. cbn [length].
  assert ((0 <? S (length q)) = true) as -> by (apply Nat.ltb_lt; lia). cbn [andb].
  destruct ((S (length q) =? length (lr_buf r)) || (budget <? total_size (x :: q) + size)%Z); [|done].
  specialize (IH (drop_oldest r) (represents_drop r x q Hr)). cbn [drop_oldest lr_buf] in IH.
  rewrite length_insert in IH. exact IH.
Qed.

Lemma fit_queue_suffix capacity size q : ∃ dropped, q = dropped ++ fit_queue capacity size q.
Proof.
  induction q as [|x q [d IH]]; cbn [fit_queue]; [by exists []|].
  case_match; [exists (x :: d); cbn; by f_equal|by exists []].
Qed.

Lemma fit_queue_fits capacity size q :
  capacity ≠ 0 → length q <= capacity → (size ≤ budget)%Z →
  length (fit_queue capacity size q) < capacity ∧
  (total_size (fit_queue capacity size q) + size ≤ budget)%Z.
Proof.
  intros Hc Hq Hs. induction q as [|x q IH]; cbn [fit_queue]; [cbn; lia|].
  destruct ((length (x :: q) =? capacity) || (budget <? total_size (x :: q) + size)%Z) eqn:E.
  - apply IH. cbn in *. lia.
  - apply orb_false_iff in E as [E1%Nat.eqb_neq E2%Z.ltb_ge]. lia.
Qed.

Lemma total_size_app q1 q2 : total_size (q1 ++ q2) = (total_size q1 + total_size q2)%Z.
Proof. induction q1 as [|x q1 IH]; [done|]. cbn. fold (total_size (q1 ++ q2)). fold (total_size q1). lia. Qed.

Lemma represents_add r q e size :
  represents r q → length q < length (lr_buf r) →
  represents (mkRing (<[lr_head r := e]> (lr_buf r)) ((lr_head r + 1) mod length (lr_buf r)) (lr_n r + 1)
    (<[lr_head r := size]> (lr_sizes r)) (lr_bytes r + size)) (q ++ [(e, size)]).
Proof.
  intros [H1 H2 H3 H4 H5 H6] Hlt.
  assert (lr_head r < length (lr_buf r)) as Hh by (destruct H4 as [|[? _]]; lia).
  split; cbn [lr_buf lr_head lr_n lr_sizes lr_bytes]; rewrite ?length_insert, ?length_app; cbn [length]; try lia.
  - left. apply Nat.mod_upper_bound. lia.
  - rewrite total_size_app, H5. cbn. lia.
  - intros i x Hx.
    assert ((oldest (mkRing (<[lr_head r := e]> (lr_buf r)) ((lr_head r + 1) mod length (lr_buf r)) (lr_n r + 1)
      (<[lr_head r := size]> (lr_sizes r)) (lr_bytes r + size)) + i) mod length (lr_buf r) =
      (oldest r + i) mod length (lr_buf r)) as ->.
    { apply lookup_lt_Some in Hx. rewrite length_app in Hx. cbn in Hx. ring_arith. }
    apply lookup_app_Some in Hx as [Hx|[Hge Hx]].
    + pose proof (lookup_lt_Some _ _ _ Hx). destruct (H6 i x Hx) as [Hb Hs].
      rewrite !list_lookup_insert_ne by ring_arith. done.
    + assert (i = length q) as ->.
      { apply lookup_lt_Some in Hx. cbn in Hx. lia. }
      replace (length q - length q) with 0 in Hx by lia. injection Hx as <-.
      assert ((oldest r + length q) mod length (lr_buf r) = lr_head r) as -> by ring_arith.
      rewrite !list_lookup_insert_eq by lia. done.
Qed.

Lemma represents_push r q e size :
  represents r q → represents (push e size r) (push_queue (length (lr_buf r)) e size q).
Proof.
  intros Hr. unfold push, push_queue. destruct (Nat.eqb_spec (length (lr_buf r)) 0) as [|Hc]; [done|].
  cbn [orb]. destruct (Z.ltb_spec budget size) as [|Hs]; [done|].
  destruct (fit_queue_fits (length (lr_buf r)) size q Hc (rp_le _ _ Hr) Hs) as [Hfit _].
  rewrite (rp_n _ _ Hr). rewrite <-(make_room_capacity (length q) size r) at 1.
  apply represents_add; [by apply represents_room|]. by rewrite make_room_capacity.
Qed.

Lemma represents_snapshot r q : represents r q → ring_snapshot r = q.*1.
Proof.
  intros Hr. unfold ring_snapshot. rewrite (rp_n _ _ Hr). destruct (Nat.eqb_spec (length q) 0) as [Hq|Hq].
  { by destruct q. }
  apply list_eq. intros i. rewrite !list_lookup_fmap.
  destruct (q !! i) as [x|] eqn:Hx; cbn.
  - rewrite lookup_seq_lt by (by eapply lookup_lt_Some). cbn.
    by destruct (rp_at _ _ Hr i x Hx) as [-> _].
  - apply lookup_ge_None in Hx. by rewrite lookup_seq_ge.
Qed.

(** The ring after pushing [entries] into an empty one. *)
Definition pushed (capacity : nat) (entries : list (LogEntry * Z)) : logRing :=
  fold_left (λ r e, push e.1 e.2 r) entries (newLogRing capacity).

Lemma push_capacity e size r : length (lr_buf (push e size r)) = length (lr_buf r).
Proof.
  unfold push. case_match; [done|]. case_match; [done|]. cbn. by rewrite length_insert, make_room_capacity.
Qed.

Lemma pushed_represents capacity entries :
  represents (pushed capacity entries)
    (fold_left (λ q e, push_queue capacity e.1 e.2 q) entries []) ∧
  length (lr_buf (pushed capacity entries)) = capacity.
Proof.
  induction entries as [|e entries [IH Hc]] using rev_ind.
  { split; [apply represents_new|]. apply length_replicate. }
  unfold pushed. rewrite !fold_left_app. cbn [fold_left]. fold (pushed capacity entries).
  split; [|by rewrite push_capacity]. rewrite <-Hc at 2. by apply represents_push.
Qed.

(** The ring buffer refines a queue: after any pushes its snapshot, oldest
    first, is that of a queue that drops its oldest entries until the new one
    fits and ignores an entry over the byte budget; it is a run of the accepted
    entries ending with the last, never holds more than its capacity nor more
    than the budget, and its counters agree with what it holds. *)
Theorem logRing_refines_queue capacity entries :
  let q := fold_left (λ q e, push_queue capacity e.1 e.2 q) entries [] in
  let r := pushed capacity entries in
  ring_snapshot r = q.*1 ∧ lr_n r = length q ∧ lr_bytes r = total_size q ∧
  length q <= capacity ∧ (total_size q ≤ budget)%Z ∧
  ∃ dropped, List.filter (λ e, negb (capacity =? 0) && (e.2 <=? budget)%Z) entries = dropped ++ q.
Proof.
  intros q r. destruct (pushed_represents capacity entries) as [Hr Hc]. fold q r in Hr, Hc.
  split; [by apply represents_snapshot|]. split; [apply Hr|]. split; [apply Hr|].
  split; [rewrite <-Hc; apply Hr|]. clear r Hr Hc.
  assert (length q <= capacity ∧ (total_size q ≤ budget)%Z ∧
    ∃ dropped, List.filter (λ e, negb (capacity =? 0) && (e.2 <=? budget)%Z) entries = dropped ++ q) as H;
    [|tauto].
  unfold q. clear q. induction entries as [|e entries (IH1 & IH2 & d & IH3)] using rev_ind.
  { split_and!; [cbn; lia|done|by exists []]. }
  rewrite fold_left_app, List.filter_app. cbn [fold_left List.filter].
  set (q := fold_left _ entries []) in *. unfold push_queue.
  destruct (Nat.eqb_spec capacity 0) as [Hc|Hc]; cbn [negb andb orb].
  { split_and!; [done..|]. exists d. by rewrite app_nil_r. }
  rewrite Z.leb_antisym. destruct (Z.ltb_spec budget e.2) as [Hb|Hb]; cbn [negb].
  { split_and!; [done..|]. exists d. by rewrite app_nil_r. }
  destruct (fit_queue_fits capacity e.2 q Hc IH1 Hb) as [Hf1 Hf2].
  destruct (fit_queue_suffix capacity e.2 q) as [d' Hd'].
  split_and!.
  - rewrite length_app. cbn. lia.
  - rewrite total_size_app. cbn. lia.
  - exists (d ++ d'). rewrite IH3, Hd' at 1. rewrite <-!app_assoc. by destruct e.
Qed.

(** ** The server *)

(** Source: internal/ipc/ipc.go:247-256 (Owner). *)
Record Owner : Type := mkOwner {
  ow_PID : Z;
  ow_Command : string;
  ow_Label : string;
  ow_Worktree : string;
  ow_StartedAt : Z;
}.

(** Source: internal/ipc/ipc.go:231-245 (Project). *)
Record Project : Type := mkProject {
  pj_Session : string;
  pj_RunID : string;
  pj_ConfigPath : string;
  pj_Directory : string;
  pj_Ports : gmap string (gmap string Z);
  pj_URLs : gmap string (gmap string string);
  pj_Resources : list string;
  pj_LogPath : string;
  pj_JournalPath : string;
  pj_Owner : option Owner;
  pj_Teardown : list string;
}.

(** What is fanned out to the monitors.
    Source: internal/ipc/ipc.go:339-366 (Event). *)
Inductive event : Type :=
  | EvLog (e : LogEntry)
  | EvState (st : ProcState)
  | EvTunnel (url : string).

(** The first frame of a connection.
    Source: internal/ipc/ipc.go:339-366 (Event, snapshot). *)
Record snapshot_event : Type := mkSnapshot {
  sn_Processes : list ProcState;
  sn_RecentLogs : list LogEntry;
  sn_TunnelURL : string;
  sn_Project : option Project;
}.

(** A connection: its queue, whether the queue is closed, the snapshot taken
    for it, whether its frames are being written, and the events written.
    Source: internal/ipc/server.go:71-83 (serverClient). *)
Record serverClient : Type := mkClient {
  cl_send : list event;
  cl_closed : bool;
  cl_snapshot : snapshot_event;
  cl_served : bool;
  cl_wire : list event;
}.

(** [sv_conns] are all connections, [sv_clients] those registered, and
    [sv_fanouts] the publications some clients are still to be sent.
    Source: internal/ipc/server.go:51-69 (Server). *)
Record Server : Type := mkServer {
  sv_conns : gmap nat serverClient;
  sv_clients : gset nat;
  sv_history : logRing;
  sv_states : gmap string ProcState;
  sv_tunnelURL : string;
  sv_project : option Project;
  sv_fanouts : list (event * list nat);
}.

Definition set_conns (x : gmap nat serverClient) (s : Server) : Server :=
  mkServer x (sv_clients s) (sv_history s) (sv_states s) (sv_tunnelURL s) (sv_project s) (sv_fanouts s).
Definition set_clients (x : gset nat) (s : Server) : Server :=
  mkServer (sv_conns s) x (sv_history s) (sv_states s) (sv_tunnelURL s) (sv_project s) (sv_fanouts s).
Definition set_fanouts (x : list (event * list nat)) (s : Server) : Server :=
  mkServer (sv_conns s) (sv_clients s) (sv_history s) (sv_states s) (sv_tunnelURL s) (sv_project s) x.

(** maxHistory *)
Definition maxHistory : nat := 500.
(** The capacity of [send]. *)
Definition send_capacity : nat := 64.

(** Source: internal/ipc/server.go:93-103 (NewServer). *)
Definition NewServer : Server := mkServer ∅ ∅ (newLogRing maxHistory) ∅ "" None [].

(** Source: internal/ipc/server.go:160-165 (SetState). *)
Definition SetState (st : ProcState) (s : Server) : Server :=
  mkServer (sv_conns s) (sv_clients s) (sv_history s) (<[ps_Name st := st]> (sv_states s))
    (sv_tunnelURL s) (sv_project s) (sv_fanouts s).

(** Source: internal/ipc/server.go:167-171 (SetProject). *)
Definition SetProject (p : option Project) (s : Server) : Server :=
  mkServer (sv_conns s) (sv_clients s) (sv_history s) (sv_states s) (sv_tunnelURL s) p (sv_fanouts s).

(** What a publication leaves in the server; [size] is the length of the
    encoded event. *)
Definition store (ev : event) (size : Z) (s : Server) : Server :=
  match ev with
  | EvLog e => mkServer (sv_conns s) (sv_clients s) (push e size (sv_history s)) (sv_states s)
                 (sv_tunnelURL s) (sv_project s) (sv_fanouts s)
  | EvState st => SetState st s
  | EvTunnel url => mkServer (sv_conns s) (sv_clients s) (sv_history s) (sv_states s) url
                      (sv_project s) (sv_fanouts s)
  end.

(** The part of the three publications under the lock; [order] is the
    iteration order of the registry.
    Source: internal/ipc/server.go:173-223 (BroadcastLog, BroadcastTunnelURL, BroadcastState). *)
Definition Broadcast (ev : event) (size : Z) (order : list nat) (s : Server) : Server :=
  let s := store ev size s in
  set_fanouts (sv_fanouts s ++ [(ev, order)]) s.

(** Source: internal/ipc/server.go:131-141 (shutdown). *)
Definition shutdown_client (c : serverClient) : serverClient :=
  mkClient (cl_send c) true (cl_snapshot c) (cl_served c) (cl_wire c).

(** Source: internal/ipc/server.go:143-158 (trySend). *)
Definition trySend (ev : event) (c : serverClient) : bool * serverClient :=
  if cl_closed c then (false, c)
  else if length (cl_send c) <? send_capacity
       then (true, mkClient (cl_send c ++ [ev]) false (cl_snapshot c) (cl_served c) (cl_wire c))
       else (false, c).

(** One iteration of the fan-out of [ev].
    Source: internal/ipc/server.go:454-459 (fanOut, loop body). *)
Definition fan_one (ev : event) (c : serverClient) : serverClient :=
  let '(sent, c) := trySend ev c in
  if sent then c else shutdown_client c.

(** The [i]-th fan-out takes one step.
    Source: internal/ipc/server.go:453-468 (fanOut). *)
Definition fanOut (i : nat) (s : Server) : Server :=
  match sv_fanouts s !! i with
  | Some (ev, id :: ids) =>
      set_fanouts (<[i := (ev, ids)]> (sv_fanouts s))
        (set_conns (alter (fan_one ev) id (sv_conns s)) s)
  | Some (_, []) => set_fanouts (delete i (sv_fanouts s)) s
  | None => s
  end.

(** Source: internal/ipc/server.go:470-477 (snapshot). *)
Definition snapshot (order : list string) (s : Server) : snapshot_event :=
  mkSnapshot (omap (λ name, sv_states s !! name) order) (ring_snapshot (sv_history s))
    (sv_tunnelURL s) (sv_project s).

(** A new connection [id]: registered, and its snapshot taken, at once.
    Source: internal/ipc/server.go:235-257 (handle). *)
Definition handle (id : nat) (order : list string) (s : Server) : Server :=
  let c := mkClient [] false (snapshot order s) false [] in
  set_clients ({[id]} ∪ sv_clients s) (set_conns (<[id := c]> (sv_conns s)) s).

(** Source: internal/ipc/server.go:301-307 (drop). *)
Definition drop_client (id : nat) (s : Server) : Server :=
  set_clients (sv_clients s ∖ {[id]}) (set_conns (alter shutdown_client id (sv_conns s)) s).

(** How the write of a snapshot ends: written, nothing written, cut short. *)
Inductive snapshot_write : Type := SnapWritten | SnapNothing | SnapPartial.

(** Source: internal/ipc/server.go:259-299 (serveWrites and writeSnapshot). *)
Definition serveWrites (id : nat) (w : snapshot_write) (s : Server) : Server :=
  match w with
  | SnapPartial => drop_client id s
  | _ => set_conns (alter (λ c, mkClient (cl_send c) (cl_closed c) (cl_snapshot c) true (cl_wire c)) id
                      (sv_conns s)) s
  end.

(** One message of a served client; a failed write closes the queue and drains
    it.
    Source: internal/ipc/server.go:439-451 (writeLoop). *)
Definition writeLoop (ok : bool) (c : serverClient) : serverClient :=
  if cl_served c then
    match cl_send c with
    | [] => c
    | ev :: l => if ok then mkClient l (cl_closed c) (cl_snapshot c) true (cl_wire c ++ [ev])
                 else mkClient [] true (cl_snapshot c) false (cl_wire c)
    end
  else c.

(** Source: internal/ipc/server.go:119-129 (Shutdown). *)
Definition Shutdown (s : Server) : Server :=
  set_conns (map_imap (λ id c, Some (if bool_decide (id ∈ sv_clients s) then shutdown_client c else c))
    (sv_conns s)) s.

(** ** Commands *)

(** What became of one acknowledgment: the acknowledgment, and why the
    runner's verdict was not delivered.  [queued] is whether the command
    channel had room, [verdict] the runner's reply unless it timed out.
    Source: internal/ipc/server.go:369-418 (handleCommand). *)
Definition handleCommand (queued : bool) (verdict : option CommandResult) (timeout : string)
    (write : option string) : (string * string * Z) * option string :=
  let '(ack, undelivered) :=
    if queued then
      match verdict with
      | Some res => ((cr_Status res, cr_Message res, cr_Generation res), None)
      | None => (("error", "timed out waiting for runner reply", 0%Z),
                 Some ("the client was answered with a timeout after " +:+ timeout
                         +:+ ", before the runner's verdict arrived"))
      end
    else (("busy", "", 0%Z), None) in
  (ack, match undelivered with Some e => Some e | None => write end).

(** ** Run identifiers *)

(** The timestamp of the next run identifier, from the clock and the last one
    issued; [last + 1] wraps at 64 bits.
    Source: internal/ipc/ipc.go:221-229 (newRunID). *)
Definition newRunID (now last : Z) : Z := Z.max now (int64 (last + 1)).

Lemma newRunID_increases now last :
  (min_int ≤ last < max_int)%Z → (last < newRunID now last)%Z.
Proof. intros H. unfold newRunID, int64, min_int, max_int in *. rewrite Z.mod_small by lia. lia. Qed.

(** ** Publications, connections and disconnections, interleaved *)

(** The states of a server started as [s0] and what has been published. *)
Inductive running (s0 : Server) : Server → list (event * Z) → Prop :=
  | run_start : sv_conns s0 = ∅ → sv_clients s0 = ∅ → sv_fanouts s0 = [] → running s0 s0 []
  | run_broadcast s pubs ev size order : running s0 s pubs →
      order ≡ₚ elements (sv_clients s) → running s0 (Broadcast ev size order s) (pubs ++ [(ev, size)])
  | run_fan s pubs i : running s0 s pubs → running s0 (fanOut i s) pubs
  | run_handle s pubs id order : running s0 s pubs → sv_conns s !! id = None →
      order ≡ₚ keys (sv_states s) → running s0 (handle id order s) pubs
  | run_serve s pubs id w : running s0 s pubs → running s0 (serveWrites id w s) pubs
  | run_write s pubs id ok : running s0 s pubs →
      running s0 (set_conns (alter (writeLoop ok) id (sv_conns s)) s) pubs
  | run_drop s pubs id : running s0 s pubs → running s0 (drop_client id s) pubs
  | run_shutdown s pubs : running s0 s pubs → running s0 (Shutdown s) pubs.

(** The server's contents after some publications. *)
Definition replay (s0 : Server) (pubs : list (event * Z)) : Server :=
  fold_left (λ s p, store p.1 p.2 s) pubs s0.

(** What the connection [id] is still to be sent. *)
Definition pending (id : nat) (fs : list (event * list nat)) : list event :=
  (base.filter (λ f : event * list nat, id ∈ f.2) fs).*1.

Lemma pending_app id l1 l2 : pending id (l1 ++ l2) = pending id l1 ++ pending id l2.
Proof. unfold pending. by rewrite filter_app, fmap_app. Qed.

Lemma pending_cons id ev ids l :
  pending id ((ev, ids) :: l) = (if decide (id ∈ ids) then [ev] else []) ++ pending id l.
Proof. unfold pending. rewrite filter_cons. cbn. by case_decide. Qed.

Definition same_content (s s' : Server) : Prop :=
  sv_history s = sv_history s' ∧ sv_states s = sv_states s' ∧ sv_tunnelURL s = sv_tunnelURL s' ∧
  sv_project s = sv_project s'.

(** A connection and what it was meant to receive: its snapshot is that of the
    server after the first [k] publications and, unless its queue was closed,
    the others are written, queued or about to be sent, each once. *)
Definition client_ok (s0 : Server) (pubs : list (event * Z)) (s : Server) (id : nat) (c : serverClient)
    : Prop :=
  length (cl_send c) <= send_capacity ∧
  ∃ k order, k <= length pubs ∧ order ≡ₚ keys (sv_states (replay s0 (take k pubs))) ∧
    cl_snapshot c = snapshot order (replay s0 (take k pubs)) ∧
    (cl_closed c = false →
     id ∈ sv_clients s ∧ (drop k pubs).*1 ≡ₚ cl_wire c ++ cl_send c ++ pending id (sv_fanouts s)).

Record server_inv (s0 : Server) (pubs : list (event * Z)) (s : Server) : Prop := {
  si_content : same_content s (replay s0 pubs);
  si_fanouts : ∀ ev ids, (ev, ids) ∈ sv_fanouts s →
    NoDup ids ∧ ∀ id, id ∈ ids → is_Some (sv_conns s !! id);
  si_registered : ∀ id, id ∈ sv_clients s → is_Some (sv_conns s !! id);
  si_clients : ∀ id c, sv_conns s !! id = Some c → client_ok s0 pubs s id c;
}.

Lemma replay_snoc s0 pubs p : replay s0 (pubs ++ [p]) = store p.1 p.2 (replay s0 pubs).
Proof. unfold replay. by rewrite fold_left_app. Qed.

Lemma store_content ev size s s' :
  same_content s s' → same_content (store ev size s) (store ev size s').
Proof. unfold same_content. intros (? & ? & ? & ?). destruct ev; cbn; split_and!; congruence. Qed.

Lemma snapshot_content order s s' : same_content s s' → snapshot order s = snapshot order s'.
Proof. unfold snapshot. by intros (-> & -> & -> & ->). Qed.

Lemma store_registry ev size s :
  sv_conns (store ev size s) = sv_conns s ∧ sv_clients (store ev size s) = sv_clients s ∧
  sv_fanouts (store ev size s) = sv_fanouts s.
Proof. by destruct ev. Qed.

(** A change of the connections that only closes them, or moves an event from
    the queue to the wire. *)
Definition gentle (c c' : serverClient) : Prop :=
  length (cl_send c') <= length (cl_send c) ∧ cl_snapshot c' = cl_snapshot c ∧
  (cl_closed c' = false → cl_closed c = false ∧ cl_wire c' ++ cl_send c' = cl_wire c ++ cl_send c).

Lemma client_ok_gentle s0 pubs s s' id c c' :
  gentle c c' → (cl_closed c' = false → id ∈ sv_clients s → id ∈ sv_clients s') →
  pending id (sv_fanouts s') = pending id (sv_fanouts s) →
  client_ok s0 pubs s id c → client_ok s0 pubs s' id c'.
Proof.
  intros (Hlen & Hsnap & Hopen) Hcl Hp (H1 & k & order & Hk & Ho & Hs & H2). split; [lia|].
  exists k, order. split_and!; [done..|congruence|]. intros Hc. destruct (Hopen Hc) as [Hc' Heq].
  destruct (H2 Hc') as [Hin Hperm]. split; [auto|]. by rewrite Hp, app_assoc, Heq, <-app_assoc.
Qed.

(** The steps that change connections gently and nothing else. *)
Lemma server_inv_gentle s0 pubs s s' :
  server_inv s0 pubs s → same_content s' s → sv_fanouts s' = sv_fanouts s →
  sv_clients s' ⊆ sv_clients s →
  (∀ id, sv_conns s' !! id = None ↔ sv_conns s !! id = None) →
  (∀ id c', sv_conns s' !! id = Some c' → ∃ c, sv_conns s !! id = Some c ∧ gentle c c' ∧
     (cl_closed c' = false → id ∈ sv_clients s → id ∈ sv_clients s')) →
  server_inv s0 pubs s'.
Proof.
  intros [H1 H2 H3 H4] Hc Hf Hsub Hdom Hconn.
  assert (∀ id, is_Some (sv_conns s !! id) → is_Some (sv_conns s' !! id)) as Hsome.
  { intros id. rewrite <-!not_eq_None_Some, Hdom. done. }
  split.
  - unfold same_content in *. destruct Hc as (-> & -> & -> & ->). done.
  - rewrite Hf. intros ev ids Hin. destruct (H2 ev ids Hin) as [Hnd Hall]. split; [done|]. auto.
  - intros id Hid. apply Hsome, H3. by apply Hsub.
  - intros id c' Hc'. destruct (Hconn id c' Hc') as (c & Hcs & Hg & Hreg).
    eapply client_ok_gentle; [exact Hg|exact Hreg|by rewrite Hf|]. by apply H4.
Qed.

Lemma gentle_refl c : gentle c c.
Proof. by split_and!. Qed.

Lemma gentle_shutdown c : gentle c (shutdown_client c).
Proof. by split_and!. Qed.

Lemma gentle_write ok c : gentle c (writeLoop ok c).
Proof.
  unfold writeLoop. destruct (cl_served c); [|apply gentle_refl].
  destruct (cl_send c) as [|ev l] eqn:E; [apply gentle_refl|]. unfold gentle. rewrite E.
  destruct ok; cbn; split_and!; try lia; try done. intros ->. split; [done|]. by rewrite <-app_assoc.
Qed.

Lemma server_inv_alter s0 pubs s id f :
  server_inv s0 pubs s → (∀ c, gentle c (f c)) →
  server_inv s0 pubs (set_conns (alter f id (sv_conns s)) s).
Proof.
  intros Hinv Hf. eapply server_inv_gentle; [exact Hinv|done..| |]; cbn.
  - intros x. apply lookup_alter_None.
  - intros x c' Hx. destruct (decide (x = id)) as [->|Hne].
    + rewrite lookup_alter in Hx. rewrite decide_True in Hx by done.
      apply fmap_Some in Hx as (c & Hc & ->). exists c. auto.
    + rewrite lookup_alter_ne in Hx by done. exists c'. split_and!; auto using gentle_refl.
Qed.

Lemma server_inv_drop s0 pubs s id : server_inv s0 pubs s → server_inv s0 pubs (drop_client id s).
Proof.
  intros Hinv. eapply server_inv_gentle; [exact Hinv|done|done| | |]; cbn.
  - set_solver.
  - intros x. apply lookup_alter_None.
  - intros x c' Hx. destruct (decide (x = id)) as [->|Hne].
    + rewrite lookup_alter in Hx. rewrite decide_True in Hx by done.
      apply fmap_Some in Hx as (c & Hc & ->). exists c. split_and!; [done|apply gentle_shutdown|done].
    + rewrite lookup_alter_ne in Hx by done. exists c'. split_and!; [done|apply gentle_refl|set_solver].
Qed.

Lemma server_inv_shutdown s0 pubs s : server_inv s0 pubs s → server_inv s0 pubs (Shutdown s).
Proof.
  intros Hinv. eapply server_inv_gentle; [exact Hinv|done|done|done| |]; cbn.
  - intros x. rewrite map_lookup_imap. destruct (sv_conns s !! x); cbn; naive_solver.
  - intros x c' Hx. rewrite map_lookup_imap in Hx. destruct (sv_conns s !! x) as [c|]; [|done].
    cbn in Hx. injection Hx as <-. exists c. split; [done|]. case_bool_decide; auto using gentle_shutdown, gentle_refl.
Qed.

Lemma server_inv_broadcast s0 pubs s ev size order :
  server_inv s0 pubs s → order ≡ₚ elements (sv_clients s) →
  server_inv s0 (pubs ++ [(ev, size)]) (Broadcast ev size order s).
Proof.
  intros [H1 H2 H3 H4] Ho. destruct (store_registry ev size s) as (Hconn & Hreg & Hfan).
  split; unfold Broadcast; cbn [sv_conns sv_clients sv_fanouts set_fanouts].
  - rewrite replay_snoc. by apply store_content.
  - rewrite Hfan, Hconn. intros ev' ids [Hin|[= -> ->]%list_elem_of_singleton]%elem_of_app; [by eapply H2|].
    split; [rewrite Ho; apply NoDup_elements|]. intros id Hid. apply H3. by rewrite <-elem_of_elements, <-Ho.
  - by rewrite Hreg, Hconn.
  - rewrite Hconn. intros id c Hc. destruct (H4 id c Hc) as (Hlen & k & order' & Hk & Ho' & Hs & Hopen).
    split; [done|]. exists k, order'. rewrite take_app_le by done. split_and!; [rewrite length_app; lia|done..|].
    intros Hcl. destruct (Hopen Hcl) as [Hin Hperm]. cbn [sv_clients sv_fanouts set_fanouts].
    rewrite Hreg, Hfan. split; [done|].
    rewrite drop_app_le, fmap_app, pending_app, Hperm by done. cbn [fmap list_fmap].
    rewrite pending_cons. rewrite decide_True by (by rewrite Ho, elem_of_elements).
    by rewrite <-!app_assoc.
Qed.

(** One client of a fan-out. *)
Lemma fan_one_ok s0 pubs s s' id ev c :
  client_ok s0 pubs s id c → sv_clients s' = sv_clients s →
  pending id (sv_fanouts s) ≡ₚ ev :: pending id (sv_fanouts s') →
  client_ok s0 pubs s' id (fan_one ev c).
Proof.
  intros (Hlen & k & order & Hk & Ho & Hs & Hopen) Hcl Hp. unfold fan_one, trySend, client_ok.
  destruct (cl_closed c) eqn:Hclosed.
  { split; [done|]. exists k, order. by split_and!. }
  destruct (Nat.ltb_spec (length (cl_send c)) send_capacity) as [Hlt|]; cbn.
  - split; [rewrite length_app; cbn; lia|]. exists k, order. split_and!; [done..|]. intros _.
    destruct (Hopen eq_refl) as [Hin Hperm]. rewrite Hcl. split; [done|].
    rewrite Hperm, Hp. by rewrite <-!app_assoc.
  - split; [done|]. exists k, order. by split_and!.
Qed.

Lemma server_inv_fan s0 pubs s i : server_inv s0 pubs s → server_inv s0 pubs (fanOut i s).
Proof.
  intros Hinv. destruct (id Hinv) as [H1 H2 H3 H4]. unfold fanOut.
  destruct (sv_fanouts s !! i) as [[ev [|x ids]]|] eqn:Hi; [|..|done].
  - pose proof (list_elem_of_split_length _ _ _ Hi) as (l1 & l2 & Hl & ->). 
    assert (delete (length l1) (sv_fanouts s) = l1 ++ l2) as Hdel by (by rewrite Hl, delete_middle).
    rewrite Hdel. split; cbn.
    + done.
    + intros ev' ids Hin. apply (H2 ev' ids). rewrite Hl. set_solver.
    + done.
    + intros id c Hc. destruct (H4 id c Hc) as (Hlen & k & order & Hk & Ho & Hs & Hopen). split; [done|].
      exists k, order. split_and!; [done..|]. intros Hcl. destruct (Hopen Hcl) as [Hin Hperm].
      cbn [sv_clients sv_fanouts set_fanouts set_conns].
      split; [done|]. rewrite Hperm, Hl, !pending_app, pending_cons. rewrite decide_False; [done|].
      apply not_elem_of_nil.
  - pose proof (list_elem_of_split_length _ _ _ Hi) as (l1 & l2 & Hl & ->).
    assert (<[length l1:=(ev, ids)]> (sv_fanouts s) = l1 ++ (ev, ids) :: l2) as Hins.
    { rewrite Hl. replace (length l1) with (length l1 + 0) by lia. by rewrite insert_app_r. }
    rewrite Hins. assert ((ev, x :: ids) ∈ sv_fanouts s) as Hfan by (rewrite Hl; set_solver).
    destruct (H2 _ _ Hfan) as [[Hx Hnd]%NoDup_cons Hdom].
    split; cbn [sv_conns sv_clients sv_fanouts set_fanouts set_conns].
    + done.
    + intros ev' ids' Hin.
      assert ((ev', ids') ∈ sv_fanouts s ∨ (ev', ids') = (ev, ids)) as [Hold|[= -> ->]].
      { rewrite Hl. apply elem_of_app in Hin as [Hin|[Hin|Hin]%elem_of_cons]; [|by right|]; left; set_solver. }
      * destruct (H2 _ _ Hold) as [? Hd]. split; [done|]. intros id Hid. rewrite lookup_alter_is_Some. by apply Hd.
      * split; [done|]. intros id Hid. rewrite lookup_alter_is_Some. apply Hdom. by apply list_elem_of_further.
    + intros id Hid. rewrite lookup_alter_is_Some. by apply H3.
    + intros id c Hc. destruct (decide (id = x)) as [->|Hne].
      * rewrite lookup_alter, decide_True in Hc by done. apply fmap_Some in Hc as (c0 & Hc0 & ->).
        eapply fan_one_ok; [by apply H4|done|].
        cbn [sv_fanouts set_fanouts set_conns]. rewrite Hl, !pending_app, !pending_cons.
        destruct (decide (x ∈ x :: ids)) as [_|Hno]; [|destruct Hno; apply list_elem_of_here].
        destruct (decide (x ∈ ids)); [done|]. cbn [app].
        by rewrite Permutation_middle.
      * rewrite lookup_alter_ne in Hc by done.
        destruct (H4 id c Hc) as (Hlen & k & order & Hk & Ho & Hs & Hopen). split; [done|].
        exists k, order. split_and!; [done..|]. intros Hcl. destruct (Hopen Hcl) as [Hin Hperm].
      cbn [sv_clients sv_fanouts set_fanouts set_conns].
        split; [done|]. rewrite Hperm, Hl, !pending_app, !pending_cons.
        destruct (decide (id ∈ x :: ids)) as [Hi1|Hi1], (decide (id ∈ ids)) as [Hi2|Hi2]; try done.
        -- set_solver.
        -- destruct Hi1. by apply list_elem_of_further.
Qed.

Lemma pending_fresh id fs : (∀ ev ids, (ev, ids) ∈ fs → id ∉ ids) → pending id fs = [].
Proof.
  intros H. unfold pending. induction fs as [|[ev ids] fs IH]; [done|]. rewrite filter_cons. cbn.
  rewrite decide_False by (eapply H, list_elem_of_here). apply IH. intros; eapply H. by apply list_elem_of_further.
Qed.

Lemma server_inv_handle s0 pubs s id order :
  server_inv s0 pubs s → sv_conns s !! id = None → order ≡ₚ keys (sv_states s) →
  server_inv s0 pubs (handle id order s).
Proof.
  intros [H1 H2 H3 H4] Hfresh Ho. split; cbn.
  - done.
  - intros ev ids Hin. destruct (H2 ev ids Hin) as [Hnd Hall]. split; [done|].
    intros x Hx. rewrite lookup_insert_is_Some'. auto.
  - intros x [->%elem_of_singleton|Hx]%elem_of_union; rewrite lookup_insert_is_Some'; auto.
  - intros x c Hc. destruct (decide (x = id)) as [->|Hne].
    + rewrite lookup_insert_eq in Hc. injection Hc as <-. split; [cbn; unfold send_capacity; lia|].
      exists (length pubs), order. rewrite firstn_all. split_and!; [done| |by apply snapshot_content|].
      { destruct H1 as (_ & <- & _). done. }
      intros _. split; [cbn; set_solver|]. rewrite drop_all.
      cbn [cl_wire cl_send sv_fanouts set_clients set_conns fmap list_fmap app].
      rewrite pending_fresh; [done|]. intros ev ids Hin Hid. destruct (H2 ev ids Hin) as [_ Hall]. destruct (Hall id Hid). congruence.
    + rewrite lookup_insert_ne in Hc by done.
      destruct (H4 x c Hc) as (Hlen & k & order' & Hk & Ho' & Hs & Hopen). split; [done|].
      exists k, order'. split_and!; [done..|]. intros Hcl. destruct (Hopen Hcl). cbn. split; [set_solver|done].
Qed.

Lemma running_inv s0 s pubs : running s0 s pubs → server_inv s0 pubs s.
Proof.
  induction 1 as [H1 H2 H3|s pubs ev size order _ IH Ho|s pubs i _ IH|s pubs id order _ IH Hf Ho|
                  s pubs id w _ IH|s pubs id ok _ IH|s pubs id _ IH|s pubs _ IH].
  - split; [done|rewrite H3|rewrite H2|rewrite H1]; cbn; intros; set_solver.
  - by apply server_inv_broadcast.
  - by apply server_inv_fan.
  - by apply server_inv_handle.
  - destruct w; [|..|by apply server_inv_drop]; apply server_inv_alter; try done; intros c; by split_and!.
  - apply server_inv_alter; [done|]. apply gentle_write.
  - by apply server_inv_drop.
  - by apply server_inv_shutdown.
Qed.

(** C15: a monitor sees a consistent cut of the run: whatever the interleaving
    of publications, fan-outs, connections and disconnections, the snapshot a
    client gets is that of the server after the first [k] publications and, as
    long as its queue has not been closed, the later ones are exactly what was
    written to it, is queued for it or is about to be sent to it: nothing is
    lost and nothing is delivered twice. *)
Theorem monitor_consistent s0 s pubs id c :
  running s0 s pubs → sv_conns s !! id = Some c →
  length (cl_send c) <= send_capacity ∧
  ∃ k order, k <= length pubs ∧
    cl_snapshot c = snapshot order (replay s0 (take k pubs)) ∧
    (cl_closed c = false →
     (drop k pubs).*1 ≡ₚ cl_wire c ++ cl_send c ++ pending id (sv_fanouts s)).
Proof.
  intros Hrun Hc. destruct (si_clients _ _ _ (running_inv _ _ _ Hrun) id c Hc)
    as (Hlen & k & order & Hk & _ & Hs & Hopen). split; [done|]. exists k, order. naive_solver.
Qed.

(** A command's caller is told apart from its verdict: the delivery record
    is clean only when the acknowledgment was written in full and carries the
    runner's own verdict, or the command never reached the runner. *)
Theorem handleCommand_delivered queued verdict timeout write :
  let '(ack, undelivered) := handleCommand queued verdict timeout write in
  undelivered = None ↔ write = None ∧
    (if queued then ∃ res, verdict = Some res ∧ ack = (cr_Status res, cr_Message res, cr_Generation res)
     else ack = ("busy", "", 0%Z)).
Proof. unfold handleCommand. destruct queued; [destruct verdict|]; cbn; naive_solver. Qed.

(** ** Witnesses *)

Definition example_log (n : Z) : event :=
  EvLog (mkLogEntry 1 (itoa n) "" "" n "" 0 "api" "ready" "output" "info" "" "stdout" 0 0 None false 0 false false).

Lemma monitor_consistent_witness :
  ∃ s c, running NewServer s [(example_log 1, 80%Z); (example_log 2, 80%Z)] ∧ sv_conns s !! 7 = Some c ∧
    cl_closed c = false ∧ 
    ∃ k, (drop k [(example_log 1, 80%Z); (example_log 2, 80%Z)]).*1 ≡ₚ
      cl_wire c ++ cl_send c ++ pending 7 (sv_fanouts s).
Proof.
  pose proof (run_start NewServer eq_refl eq_refl eq_refl) as H0.
  pose proof (run_broadcast NewServer _ _ (example_log 1) 80 [] H0 (Permutation_refl _)) as H1.
  pose proof (run_handle NewServer _ _ 7 [] H1 eq_refl (Permutation_refl _)) as H2.
  assert ([7] ≡ₚ elements (sv_clients (handle 7 [] (Broadcast (example_log 1) 80 [] NewServer)))) as Ho.
  { vm_compute. reflexivity. }
  pose proof (run_broadcast NewServer _ _ (example_log 2) 80 [7] H2 Ho) as H3.
  pose proof (run_fan NewServer _ _ 1 H3) as H4.
  eexists _, _. split; [exact H4|]. split; [vm_compute; reflexivity|]. split; [reflexivity|].
  destruct (monitor_consistent NewServer _ _ 7 _ H4 eq_refl) as (_ & k & order & _ & _ & Hopen).
  exists k. exact (Hopen eq_refl).
Defined.
