(* ===== verification/Session.v ===== *)
(** * Sessions: leases, port assignment and resolution

    [Acquire] leases what a run needs, assigns its ports and keeps them bound;
    [Resolve] expands a configuration against the assignment; [ReleasePorts]
    hands a process its ports and [Close] gives everything back.  Several
    sessions and other programs share the operating system: a lock file is held
    by one owner, a port is bound by one owner, and before every call the
    others may have taken or dropped what is theirs.  What they do, which calls
    fail, and the port the kernel picks when any will do are a script, one
    entry per call. *)

From S2P Require Import Prelude GoStrings ConfigTypes ConfigGraph References Expand ConfigMerge Ipc.

(** ** [hash/fnv] and ["%016x"] *)

Definition fnv64a (s : string) : Z :=
  fold_left (λ h c, (Z.lxor h (Z.of_nat (code c)) * 1099511628211) mod 2 ^ 64)%Z
    (bytes s) 14695981039346656037%Z.

Definition hex_digit (d : Z) : ascii :=
  if (d <? 10)%Z then digit_of d else chr (Z.to_nat (87 + d)).

Definition hex016 (z : Z) : string :=
  of_bytes ((λ i, hex_digit (Z.land (Z.shiftr z (4 * (15 - Z.of_nat i))) 15)) <$> seq 0 16).

(** ** The operating system *)

(** What another owner does. *)
Inductive act : Type :=
  | TakeLock (who : nat) (path : string)
  | DropLock (who : nat) (path : string)
  | TakePort (who : nat) (port : Z)
  | DropPort (who : nat) (port : Z).

Definition actor (a : act) : nat :=
  match a with TakeLock w _ | DropLock w _ | TakePort w _ | DropPort w _ => w end.

(** One call: what the others did before it, the error it fails with, and the
    port the kernel picks if it is asked to. *)
Record call : Type := mkCall {
  ca_others : list act;
  ca_fault : option string;
  ca_port : Z;
}.

(** Who holds a lock file, who has bound a port, and the calls to come. *)
Record os : Type := mkOs {
  os_locks : gmap string nat;
  os_bound : gmap Z nat;
  os_script : list call;
}.

Definition set_locks (x : gmap string nat) (s : os) : os := mkOs x (os_bound s) (os_script s).
Definition set_bound (x : gmap Z nat) (s : os) : os := mkOs (os_locks s) x (os_script s).

Definition release_lock (who : nat) (path : string) (s : os) : os :=
  if bool_decide (os_locks s !! path = Some who) then set_locks (delete path (os_locks s)) s else s.
Definition release_port (who : nat) (port : Z) (s : os) : os :=
  if bool_decide (os_bound s !! port = Some who) then set_bound (delete port (os_bound s)) s else s.

Definition apply_act (a : act) (s : os) : os :=
  match a with
  | TakeLock who path =>
      if bool_decide (os_locks s !! path = None) then set_locks (<[path := who]> (os_locks s)) s else s
  | DropLock who path => release_lock who path s
  | TakePort who port =>
      if bool_decide (os_bound s !! port = None) then set_bound (<[port := who]> (os_bound s)) s else s
  | DropPort who port => release_port who port s
  end.

(** The acts of the others: an owner's own acts are its calls. *)
Definition others (me : nat) (acts : list act) (s : os) : os :=
  fold_left (λ s a, if actor a =? me then s else apply_act a s) acts s.

(** ** The plan *)

(** Source: internal/session/session.go:339-348 (LeaseError). *)
Record LeaseError : Type := mkLeaseError {
  le_Label : string;
  le_Err : string;
  le_Bound : bool;
}.

(** Source: internal/session/session.go:350-355 (LeaseError.Error). *)
Definition LeaseError_Error (e : LeaseError) : string :=
  if le_Bound e
  then "resource " +:+ quote (le_Label e) +:+ " is in use by another program: " +:+ le_Err e
  else "resource " +:+ quote (le_Label e) +:+ " is owned by another session: " +:+ le_Err e.

(** Source: internal/session/session.go:359-361 (LeaseError.Instance). *)
Definition LeaseError_Instance (e : LeaseError) : bool := has_prefix "instance:" (le_Label e).

(** An error, with the contexts it was wrapped in. *)
Inductive session_error : Type :=
  | SelectorError (format : string) (args : list arg)
  | TextError (text : string)
  | Leased (e : LeaseError)
  | Wrapped (context : string) (e : session_error).

(** Source: internal/session/session.go:27-47 (Plan). *)
Record Plan : Type := mkPlan {
  pl_Project : Project;
  pl_Config : option Config;
  pl_leases : list string;
  pl_variables : gmap string string;
  pl_preferred : gmap string (gmap string Z);
  pl_resources : list string;
  pl_names : list string;
  pl_mergePort : Z;
  pl_held : gmap Z Z;
  pl_uses : gmap string (list Z);
}.

Definition set_Project (x : Project) (p : Plan) : Plan :=
  mkPlan x (pl_Config p) (pl_leases p) (pl_variables p) (pl_preferred p) (pl_resources p) (pl_names p)
    (pl_mergePort p) (pl_held p) (pl_uses p).
Definition set_PlanConfig (x : option Config) (p : Plan) : Plan :=
  mkPlan (pl_Project p) x (pl_leases p) (pl_variables p) (pl_preferred p) (pl_resources p) (pl_names p)
    (pl_mergePort p) (pl_held p) (pl_uses p).
Definition set_leases (x : list string) (p : Plan) : Plan :=
  mkPlan (pl_Project p) (pl_Config p) x (pl_variables p) (pl_preferred p) (pl_resources p) (pl_names p)
    (pl_mergePort p) (pl_held p) (pl_uses p).
Definition set_variables (x : gmap string string) (p : Plan) : Plan :=
  mkPlan (pl_Project p) (pl_Config p) (pl_leases p) x (pl_preferred p) (pl_resources p) (pl_names p)
    (pl_mergePort p) (pl_held p) (pl_uses p).
Definition set_preferred (x : gmap string (gmap string Z)) (p : Plan) : Plan :=
  mkPlan (pl_Project p) (pl_Config p) (pl_leases p) (pl_variables p) x (pl_resources p) (pl_names p)
    (pl_mergePort p) (pl_held p) (pl_uses p).
Definition set_mergePort (x : Z) (p : Plan) : Plan :=
  mkPlan (pl_Project p) (pl_Config p) (pl_leases p) (pl_variables p) (pl_preferred p) (pl_resources p)
    (pl_names p) x (pl_held p) (pl_uses p).
Definition set_held (x : gmap Z Z) (p : Plan) : Plan :=
  mkPlan (pl_Project p) (pl_Config p) (pl_leases p) (pl_variables p) (pl_preferred p) (pl_resources p)
    (pl_names p) (pl_mergePort p) x (pl_uses p).
Definition set_uses (x : gmap string (list Z)) (p : Plan) : Plan :=
  mkPlan (pl_Project p) (pl_Config p) (pl_leases p) (pl_variables p) (pl_preferred p) (pl_resources p)
    (pl_names p) (pl_mergePort p) (pl_held p) x.

(** ** Code that changes the plan and makes calls *)

Definition sess (A : Type) : Type := Plan * os → res session_error A * (Plan * os).

Definition ret {A} (a : A) : sess A := λ ps, (Ok a, ps).
Definition fail {A} (e : session_error) : sess A := λ ps, (Err e, ps).
Definition bind {A B} (m : sess A) (f : A → sess B) : sess B :=
  λ ps, match m ps with (Ok a, ps) => f a ps | (Err e, ps) => (Err e, ps) end.
Definition plan : sess Plan := λ ps, (Ok ps.1, ps).
Definition modify (f : Plan → Plan) : sess unit := λ ps, (Ok tt, (f ps.1, ps.2)).
Definition lift {A} (r : res session_error A) : sess A := λ ps, (r, ps).

Notation "x <- m ; k" := (bind m (λ x, k))
  (at level 100, m at next level, right associativity) : go_scope.
Notation "m ';;;' k" := (bind m (λ _, k)) (at level 100, right associativity) : go_scope.

Section session.
(** The owner, the directory of the lease files, and [filepath.Join],
    [filepath.IsAbs], [filepath.Clean] and [filepath.Dir]. *)
Context (me : nat) (LeaseDir : string) (path_join : string → string → string)
        (is_abs : string → bool) (path_clean path_dir : string → string).

(** A call, after what the others did. *)
Definition os_call {A} (f : call → os → A * os) : sess A := λ '(p, s),
  let '(c, rest) := match os_script s with
                    | [] => (mkCall [] None 0, [])
                    | c :: rest => (c, rest)
                    end in
  let s := others me (ca_others c) (mkOs (os_locks s) (os_bound s) rest) in
  let '(a, s) := f c s in (Ok a, (p, s)).

(** [os.MkdirAll] and [os.OpenFile]. *)
Definition mkdir_all : sess (option string) := os_call (λ c s, (ca_fault c, s)).
Definition open_file : sess (option string) := os_call (λ c s, (ca_fault c, s)).

(** The lock of an open lease file, without waiting. *)
Definition flock (path : string) : sess (option string) := os_call (λ c s,
  match ca_fault c with
  | Some e => (Some e, s)
  | None => match os_locks s !! path with
            | Some _ => (Some "resource temporarily unavailable", s)
            | None => (None, set_locks (<[path := me]> (os_locks s)) s)
            end
  end).

(** [net.Listen] on 127.0.0.1, and the port it got. *)
Definition listen (port : Z) : sess (res string Z) := os_call (λ c s,
  match ca_fault c with
  | Some e => (Err e, s)
  | None =>
      let port := if (port =? 0)%Z then ca_port c else port in
      if negb ((1 <=? port)%Z && (port <=? 65535)%Z) then (Err "invalid port", s)
      else match os_bound s !! port with
           | Some _ => (Err "address already in use", s)
           | None => (Ok port, set_bound (<[port := me]> (os_bound s)) s)
           end
  end).

Definition close_listener (port : Z) : sess unit := λ '(p, s), (Ok tt, (p, release_port me port s)).

(** ** Leases *)

(** Source: internal/session/session.go:363-367 (leasePath). *)
Definition leasePath (label : string) : string :=
  path_join LeaseDir (hex016 (fnv64a label) +:+ ".lock").

(** Source: internal/session/session.go:369-385 (acquireLease). *)
Definition acquireLease (label : string) : sess (res session_error string) :=
  err <- mkdir_all ;
  match err with
  | Some err => ret (Err (TextError err))
  | None =>
      err <- open_file ;
      match err with
      | Some err => ret (Err (TextError err))
      | None =>
          err <- flock (leasePath label) ;
          match err with
          | Some err => ret (Err (Leased (mkLeaseError label err false)))
          | None => ret (Ok (leasePath label))
          end
      end
  end.

(** Source: internal/session/session.go:387-394 (Plan.lease). *)
Definition lease (label : string) : sess (option session_error) :=
  file <- acquireLease label ;
  match file with
  | Err err => ret (Some err)
  | Ok file => modify (λ p, set_leases (pl_leases p ++ [file]) p) ;;; ret None
  end.

Definition tcp_label (port : Z) : string := "tcp:127.0.0.1:" +:+ itoa port.

(** The attempts from number [attempt] on.
    Source: internal/session/session.go:427-454 (Plan.allocate). *)
Fixpoint allocate_from (attempts : nat) (attempt preferred : Z) : sess (res session_error Z) :=
  let none := Err (TextError ("no available named port starting at " +:+ itoa preferred)) in
  match attempts with
  | O => ret none
  | S attempts =>
      let candidate := if negb (preferred =? 0)%Z then (preferred + attempt)%Z else preferred in
      if negb (preferred =? 0)%Z && (65535 <? candidate)%Z then ret none
      else
        listener <- listen candidate ;
        match listener with
        | Err _ => allocate_from attempts (attempt + 1) preferred
        | Ok port =>
            err <- lease (tcp_label port) ;
            match err with
            | Some _ => close_listener port ;;; allocate_from attempts (attempt + 1) preferred
            | None => modify (λ p, set_held (<[port := port]> (pl_held p)) p) ;;; ret (Ok port)
            end
        end
  end.

Definition allocate (preferred : Z) : sess (res session_error Z) := allocate_from 128 0 preferred.

(** Source: internal/session/session.go:456-481 (Plan.hold). *)
Definition hold (port : Z) : sess (option session_error) :=
  p <- plan ;
  if bool_decide (is_Some (pl_held p !! port))
  then ret (Some (TextError ("port " +:+ itoa port +:+ " is already held by this session for another use")))
  else
    err <- lease (tcp_label port) ;
    match err with
    | Some err => ret (Some err)
    | None =>
        listener <- listen port ;
        match listener with
        | Err err => ret (Some (Leased (mkLeaseError (tcp_label port) err true)))
        | Ok listener => modify (λ p, set_held (<[port := listener]> (pl_held p)) p) ;;; ret None
        end
    end.

(** [if err := m; err != nil { return nil, wrap(err) }] *)
Definition try (wrap : session_error → session_error) (m : sess (option session_error)) : sess unit :=
  err <- m ; match err with Some err => fail (wrap err) | None => ret tt end.

(** ** Resolution *)

(** Source: internal/session/session.go:285-296 (sameResources). *)
Definition sameResources (a b : list string) : bool :=
  bool_decide (sort_strings a = sort_strings b).

(** Source: internal/session/session.go:298-309 (resourceIdentity). *)
Definition resourceIdentity (label : string) : string :=
  if is_abs label then path_clean label else label.

(** The port a plan assigned to an endpoint. *)
Definition assigned (p : Plan) (process portName : string) : option Z :=
  pj_Ports (pl_Project p) !! process ≫= (.!! portName).

(** Source: internal/session/session.go:270-283 (Plan.referencedPorts). *)
Definition referencedPorts (p : Plan) (value : string) : list Z :=
  '(process, named) ← map_to_list (pj_Ports (pl_Project p));
  '(portName, port) ← map_to_list named;
  let ref := process +:+ "." +:+ portName +:+ "}" in
  if str_contains ("${ports." +:+ ref) value || str_contains ("${urls." +:+ ref) value
  then [port] else [].

(** The closure of [Resolve]: [order] is the iteration order of the variables
    in this expansion, [used] the ports gathered so far.
    Source: internal/session/session.go:212-215 (Plan.Resolve, expand). *)
Definition use_expand (order : list string) (p : Plan) (value : string) (used : list Z)
    : res string (string * list Z) :=
  let used := used ++ referencedPorts p value in
  v ← expand order (pl_variables p) value; Ok (v, used).

Definition context {A} (c : string) (r : res string A) : res session_error A :=
  match r with Ok a => Ok a | Err e => Err (Wrapped c (TextError e)) end.

(** [range] is the iteration order of a map at a place of the code.
    Source: internal/session/session.go:311-325 (expandProbe). *)
Definition expandProbe (range : string → list string → list string) (site : string) (p : Plan)
    (probe : option ReadyWhen) (used : list Z) : res string (option ReadyWhen * list Z) :=
  let go field := use_expand (range (site +:+ field) (keys (pl_variables p))) p in
  match probe with
  | None => Ok (None, used)
  | Some rw =>
      http ← go ".http" (rw_HTTP rw) used;
      tcp ← go ".tcp" (rw_TCP rw) http.2;
      cmd ← go ".cmd" (rw_Cmd rw) tcp.2;
      Ok (Some (mkReadyWhen http.1 tcp.1 cmd.1 (rw_Log rw)), cmd.2)
  end.

(** The variables of a process, expanded in the iteration order of the map.
    Source: internal/session/session.go:225-230 (Plan.Resolve, env). *)
Definition expand_env (range : string → list string → list string) (name : string) (p : Plan)
    (env : gmap string string) (used : list Z) : res session_error (gmap string string * list Z) :=
  fold_res (λ (acc : gmap string string * list Z) key,
    v ← context ("process " +:+ quote name +:+ " env key " +:+ quote key)
          (use_expand (range (name +:+ "/env." +:+ key) (keys (pl_variables p))) p
             (default "" (env !! key)) acc.2);
    Ok (<[key := v.1]> acc.1, v.2)) (range (name +:+ "/env") (keys env)) (env, used).

(** The variables [Resolve] adds.
    Source: internal/session/session.go:231-238 (Plan.Resolve, session env). *)
Definition session_env (p : Plan) (name : string) (env : gmap string string) : gmap string string :=
  let env := match assigned p name "http" with
             | Some port => if bool_decide (is_Some (env !! "PORT")) then env
                            else <["PORT" := itoa port]> env
             | None => env
             end in
  <["PROC_COMPOSE_RUN_ID" := pj_RunID (pl_Project p)]>
    (<["PROC_COMPOSE_SESSION_DIR" := pj_Directory (pl_Project p)]>
      (<["PROC_COMPOSE_SESSION" := default "" (pl_variables p !! "session.name")]> env)).

(** Source: internal/session/session.go:243-248 (Plan.Resolve, dir). *)
Definition resolve_dir (p : Plan) (dir : string) : string :=
  let base := path_dir (pj_ConfigPath (pl_Project p)) in
  let dir := if bool_decide (dir = "") && negb (bool_decide (pj_Session (pl_Project p) = ""))
             then base else dir in
  if negb (bool_decide (dir = "")) && negb (is_abs dir) then path_join base dir else dir.

(** One process, and the ports it uses.
    Source: internal/session/session.go:202-256 (Plan.Resolve, loop body). *)
Definition resolve_process (range : string → list string → list string) (p : Plan) (name : string)
    (proc : Process) : res session_error (Process * list Z) :=
  let go field := use_expand (range (name +:+ field) (keys (pl_variables p))) p in
  return_if negb (bool_decide (p_Ports proc = default ∅ (pl_preferred p !! name)))
    with TextError ("named ports for " +:+ quote name +:+ " changed; restart the session") ;;
  let used := (map_to_list (default ∅ (pj_Ports (pl_Project p) !! name))).*2 in
  let used := if bool_decide (name = MergePortProcessName) && negb (pl_mergePort p =? 0)%Z
              then used ++ [pl_mergePort p] else used in
  cmd ← context ("process " +:+ quote name +:+ " cmd") (go "/cmd" (p_Cmd proc) used);
  env ← expand_env range name p (p_Env proc) cmd.2;
  dir ← context ("process " +:+ quote name +:+ " dir") (go "/dir" (p_Dir proc) env.2);
  ready ← context ("process " +:+ quote name +:+ " probe")
            (expandProbe range (name +:+ "/ready_when") p (p_ReadyWhen proc) dir.2);
  health ← context ("process " +:+ quote name +:+ " health_when")
             (expandProbe range (name +:+ "/health_when") p (p_HealthWhen proc) ready.2);
  Ok (mkProcess cmd.1 (resolve_dir p dir.1) (p_EnvFile proc) (session_env p name env.1) (p_Mode proc)
        (p_Restart proc) (p_MaxRestarts proc) (p_ShutdownTimeout proc) ready.1 (p_ReadyTimeout proc)
        (p_DependsOn proc) (p_Ports proc) health.1 (p_HealthInterval proc) (p_HealthAction proc)
        (p_ForeignListener proc), health.2).

(** [slices.Sort] and [slices.Compact]. *)
Definition sort_compact (l : list Z) : list Z := compact (merge_sort Z.le l).

(** The uses only grow.
    Source: internal/session/session.go:258-266 (Plan.Resolve, uses). *)
Definition merge_uses (old new : gmap string (list Z)) : gmap string (list Z) :=
  map_imap (λ name used, Some (sort_compact (default [] (old !! name) ++ used))) new ∪ old.

(** Source: internal/session/session.go:181-268 (Plan.Resolve). *)
Definition Resolve (range : string → list string → list string) (cfg : Config) (p : Plan)
    : res session_error (Config * Plan) :=
  return_if negb (sameResources (pl_resources p) (c_Resources cfg))
    with TextError "resources changed; restart the session" ;;
  return_if negb (pl_mergePort p =? 0)%Z &&
            match c_Merge cfg with Some m => negb (m_Port m =? pl_mergePort p)%Z | None => false end
    with TextError "merge port changed; restart the session" ;;
  r ← fold_res (λ (acc : gmap string Process * gmap string (list Z)) name,
        match c_Processes cfg !! name with
        | None => Ok acc
        | Some proc => r ← resolve_process range p name proc;
                       Ok (<[name := r.1]> acc.1, <[name := r.2]> acc.2)
        end) (pl_names p) (c_Processes cfg, ∅);
  Ok (mkConfig (c_Merge cfg) r.1 (c_Resources cfg), set_uses (merge_uses (pl_uses p) r.2) p).

(** ** Acquiring a session *)

(** The lease of every resource, each once.
    Source: internal/session/session.go:86-104 (Acquire, resources). *)
Fixpoint lease_resources (range : string → list string → list string) (leased : gset string)
    (labels : list string) : sess unit :=
  match labels with
  | [] => ret tt
  | label :: labels =>
      p <- plan ;
      resolved <- lift (match expand (range ("resource/" +:+ label) (keys (pl_variables p)))
                                (pl_variables p) label with
                        | Ok v => Ok (resourceIdentity v)
                        | Err e => Err (TextError e)
                        end) ;
      if bool_decide (resolved ∈ leased) then lease_resources range leased labels
      else
        try id (lease ("resource:" +:+ resolved)) ;;;
        modify (λ p, let j := pl_Project p in
                  set_Project (mkProject (pj_Session j) (pj_RunID j) (pj_ConfigPath j) (pj_Directory j)
                    (pj_Ports j) (pj_URLs j) (pj_Resources j ++ [resolved]) (pj_LogPath j)
                    (pj_JournalPath j) (pj_Owner j) (pj_Teardown j)) p) ;;;
        lease_resources range ({[resolved]} ∪ leased) labels
  end.

(** The merge proxy's port, when the proxy is selected.
    Source: internal/session/session.go:105-120 (Acquire, merge port). *)
Definition lease_merge (cfg : Config) : sess unit :=
  match c_Merge cfg with
  | None => ret tt
  | Some m =>
      p <- plan ;
      if (0 <? m_Port m)%Z && bool_decide (MergePortProcessName ∈ pl_names p)
      then try (Wrapped ("merge.port " +:+ itoa (m_Port m))) (hold (m_Port m)) ;;;
           modify (set_mergePort (m_Port m))
      else ret tt
  end.

(** Source: internal/session/session.go:128-131 (endpoint). *)
Record endpoint : Type := mkEndpoint {
  ep_process : string;
  ep_portName : string;
  ep_pinned : bool;
}.

#[export] Instance endpoint_eq_dec : EqDecision endpoint.
Proof. solve_decision. Defined.

(** The endpoints of the plan, the pinned ones first.
    Source: internal/session/session.go:127-149 (Acquire, endpoints). *)
Definition session_endpoints (cfg : Config) (names : list string) : list endpoint :=
  let upstreamPorts := MergeUpstreamPorts cfg in
  let all :=
    process ← names;
    (λ portName, mkEndpoint process portName
                   (bool_decide (process +:+ "." +:+ portName ∈ upstreamPorts)))
    <$> sort_strings (keys (p_Ports (proc_at (c_Processes cfg) process))) in
  List.filter ep_pinned all ++ List.filter (λ e, negb (ep_pinned e)) all.

(** What an assignment records.
    Source: internal/session/session.go:165-172 (Acquire, record). *)
Definition record_port (process portName : string) (port : Z) (p : Plan) : Plan :=
  let j := pl_Project p in
  let url := "http://127.0.0.1:" +:+ itoa port in
  let add {A} (x : A) (m : gmap string (gmap string A)) :=
    <[process := <[portName := x]> (default ∅ (m !! process))]> m in
  set_variables (<["urls." +:+ process +:+ "." +:+ portName := url]>
                  (<["ports." +:+ process +:+ "." +:+ portName := itoa port]> (pl_variables p)))
    (set_Project (mkProject (pj_Session j) (pj_RunID j) (pj_ConfigPath j) (pj_Directory j)
       (add port (pj_Ports j)) (add url (pj_URLs j)) (pj_Resources j) (pj_LogPath j)
       (pj_JournalPath j) (pj_Owner j) (pj_Teardown j)) p).

(** Source: internal/session/session.go:149-173 (Acquire, assignment). *)
Definition assign_port (cfg : Config) (e : endpoint) : sess unit :=
  let preferred := default 0%Z (p_Ports (proc_at (c_Processes cfg) (ep_process e)) !! ep_portName e) in
  port <- (if ep_pinned e
           then err <- hold preferred ;
                match err with
                | Some err => ret (Err (Wrapped ("port " +:+ itoa preferred +:+
                    " is a merge upstream's port, which is never moved") err))
                | None => ret (Ok preferred)
                end
           else allocate preferred) ;
  match port with
  | Err err => fail (Wrapped (ep_process e +:+ "." +:+ ep_portName e) err)
  | Ok port => modify (record_port (ep_process e) (ep_portName e) port)
  end.

Fixpoint assign_ports (cfg : Config) (l : list endpoint) : sess unit :=
  match l with
  | [] => ret tt
  | e :: l => assign_port cfg e ;;; assign_ports cfg l
  end.

(** The plan before anything is leased.
    Source: internal/session/session.go:58-64 (Acquire, plan). *)
Definition new_plan (run_id directory journal configPath name : string) (cfg : Config)
    (names : list string) : Plan :=
  mkPlan (mkProject name run_id configPath directory ∅ ∅ [] "" journal None []) None [] ∅ ∅
    (c_Resources cfg) names 0 ∅ ∅.

(** The variables every session has.
    Source: internal/session/session.go:76-83 (Acquire, variables). *)
Definition session_variables (hash directory configPath name : string) : gmap string string :=
  <["config.dir" := path_dir configPath]> (<["session.dir" := directory]>
    (<["session.id" := hash]>
      {["session.name" := if bool_decide (name = "") then "default" else name]})).

(** Everything between the refusal of a selector and the return.
    Source: internal/session/session.go:70-178 (Acquire, body). *)
Definition acquire_body (range : string → list string → list string) (cfg : Config)
    (hash name : string) (teardown : list string) : sess unit :=
  err <- mkdir_all ;
  match err with
  | Some err => fail (TextError err)
  | None =>
      try id (lease ("instance:" +:+ hash)) ;;;
      modify (λ p, let j := pl_Project p in
        set_variables (session_variables hash (pj_Directory j) (pj_ConfigPath j) name)
          (set_Project (mkProject (pj_Session j) (pj_RunID j) (pj_ConfigPath j) (pj_Directory j)
             (pj_Ports j) (pj_URLs j) (pj_Resources j) (pj_LogPath j) (pj_JournalPath j) (pj_Owner j)
             teardown) p)) ;;;
      lease_resources range ∅ (sort_strings (c_Resources cfg)) ;;;
      lease_merge cfg ;;;
      modify (λ p, set_preferred
        (list_to_map ((λ process, (process, p_Ports (proc_at (c_Processes cfg) process))) <$> pl_names p)) p) ;;;
      p <- plan ;
      assign_ports cfg (session_endpoints cfg (pl_names p)) ;;;
      p <- plan ;
      r <- lift (Resolve range cfg p) ;
      modify (λ _, set_PlanConfig (Some r.1) r.2)
  end.

(** Source: internal/session/session.go:501-513 (Plan.Close). *)
Definition Close (ps : Plan * os) : Plan * os :=
  let '(p, s) := ps in
  let s := fold_left (λ s listener, release_port me listener s) (map_to_list (pl_held p)).*2 s in
  let s := fold_left (λ s file, release_lock me file s) (rev (pl_leases p)) s in
  (set_leases [] (set_held ∅ p), s).

(** [order] is the iteration order of the map of processes.
    Source: internal/session/session.go:49-179 (Acquire). *)
Definition Acquire (order : list string) (range : string → list string → list string)
    (cfg : Config) (configPath hash name run_id directory journal : string) (filter : list string)
    (s : os) : res session_error Plan * os :=
  match list_find (λ selector, is_Some (CheckSelector cfg selector)) filter with
  | Some (_, selector) =>
      (Err (match CheckSelector cfg selector with
            | Some (format, args) => SelectorError format args
            | None => TextError ""
            end), s)
  | None =>
      let names := SelectedNames order cfg filter ++ TeardownNames order cfg in
      let p := new_plan run_id directory journal configPath name cfg names in
      match acquire_body range cfg hash name (TeardownNames order cfg) (p, s) with
      | (Ok _, (p, s)) => (Ok p, s)
      | (Err e, ps) => (Err e, (Close ps).2)
      end
  end.

(** Source: internal/session/session.go:483-499 (Plan.ReleasePorts). *)
Definition ReleasePorts (name : string) (ps : Plan * os) : Plan * os :=
  fold_left (λ ps port,
    match pl_held ps.1 !! port with
    | Some listener => (set_held (delete port (pl_held ps.1)) ps.1, release_port me listener ps.2)
    | None => ps
    end) (default [] (pl_uses ps.1 !! name)) ps.

End session.

(** ** What an owner has *)

(** What the owner [who] holds does not change. *)
Definition same_for (who : nat) (s s' : os) : Prop :=
  (∀ path, os_locks s' !! path = Some who ↔ os_locks s !! path = Some who) ∧
  (∀ port, os_bound s' !! port = Some who ↔ os_bound s !! port = Some who).

#[export] Instance same_for_preorder who : PreOrder (same_for who).
Proof.
  split; [done|]. intros a b c [H1 H2] [H3 H4]. split; intros x; [by rewrite H3|by rewrite H4].
Qed.

Lemma release_lock_same who w path s : who ≠ w → same_for who s (release_lock w path s).
Proof.
  intros Hne. unfold release_lock. case_bool_decide as H; [|done]. split; [|done]. intros path'. cbn.
  rewrite lookup_delete. case_decide; [subst path'; rewrite H; naive_solver|done].
Qed.

Lemma release_port_same who w port s : who ≠ w → same_for who s (release_port w port s).
Proof.
  intros Hne. unfold release_port. case_bool_decide as H; [|done]. split; [done|]. intros port'. cbn.
  rewrite lookup_delete. case_decide; [subst port'; rewrite H; naive_solver|done].
Qed.

Lemma apply_act_same who a s : actor a ≠ who → same_for who s (apply_act a s).
Proof.
  intros Hne. destruct a as [w path|w path|w port|w port]; cbn in *.
  - case_bool_decide as H; [|done]. split; [|done]. intros path'. cbn.
    rewrite lookup_insert. case_decide; [subst path'; rewrite H; naive_solver|done].
  - by apply release_lock_same.
  - case_bool_decide as H; [|done]. split; [done|]. intros port'. cbn.
    rewrite lookup_insert. case_decide; [subst port'; rewrite H; naive_solver|done].
  - by apply release_port_same.
Qed.

Lemma others_same me acts s : same_for me s (others me acts s).
Proof.
  unfold others. revert s; induction acts as [|a acts IH]; intros s; cbn; [done|].
  etrans; [|apply IH]. case_match eqn:E; [done|]. apply apply_act_same. by apply Nat.eqb_neq.
Qed.

(** An owner that does nothing keeps what it has, whoever acts. *)
Lemma others_idle me who acts s : Forall (λ a, actor a ≠ who) acts → same_for who s (others me acts s).
Proof.
  unfold others. intros H. revert s; induction H as [|a acts Ha _ IH]; intros s; cbn; [done|].
  etrans; [|apply IH]. case_match; [done|]. by apply apply_act_same.
Qed.

Lemma release_port_mine me port s : os_bound s !! port = Some me →
  ∀ port', os_bound (release_port me port s) !! port' = Some me ↔ port' ≠ port ∧ os_bound s !! port' = Some me.
Proof.
  intros H port'. unfold release_port. rewrite bool_decide_true by done. cbn.
  rewrite lookup_delete. case_decide; naive_solver.
Qed.

(** ** Calls *)

Section calls.
Context (me : nat) (LeaseDir : string) (path_join : string → string → string).

Notation leasePath := (leasePath LeaseDir path_join).
Notation lease := (lease me LeaseDir path_join).
Notation listen := (listen me).
Notation allocate_from := (allocate_from me LeaseDir path_join).
Notation hold := (hold me LeaseDir path_join).

Lemma os_call_inv {A} (f : call → os → A * os) p s r p' s' :
  os_call me f (p, s) = (r, (p', s')) →
  p' = p ∧ ∃ c s1 a, same_for me s s1 ∧ f c s1 = (a, s') ∧ r = Ok a.
Proof.
  unfold os_call. destruct (match os_script s with [] => _ | _ => _ end) as [c rest].
  set (s1 := others me (ca_others c) _). destruct (f c s1) as [a s2] eqn:E. intros [= <- <- <-].
  split; [done|]. exists c, s1, a. split_and!; [|done..]. unfold s1.
  change (same_for me s) with (same_for me (mkOs (os_locks s) (os_bound s) rest)). apply others_same.
Qed.

Lemma bind_inv {A B} (m : sess A) (f : A → sess B) ps r ps' : bind m f ps = (r, ps') →
  (∃ a ps1, m ps = (Ok a, ps1) ∧ f a ps1 = (r, ps')) ∨ (∃ e, m ps = (Err e, ps') ∧ r = Err e).
Proof. unfold bind. destruct (m ps) as [[a|e] ps1]; [left; eauto|intros [= <- <-]; right; eauto]. Qed.

Lemma mkdir_all_inv p s r p' s' : mkdir_all me (p, s) = (r, (p', s')) →
  p' = p ∧ same_for me s s' ∧ ∃ e, r = Ok e.
Proof. intros (-> & c & s1 & a & Hs & [= <- <-] & ->)%os_call_inv. eauto. Qed.

Lemma open_file_inv p s r p' s' : open_file me (p, s) = (r, (p', s')) →
  p' = p ∧ same_for me s s' ∧ ∃ e, r = Ok e.
Proof. intros (-> & c & s1 & a & Hs & [= <- <-] & ->)%os_call_inv. eauto. Qed.

Lemma flock_inv path p s r p' s' : flock me path (p, s) = (r, (p', s')) →
  p' = p ∧ ∃ e, r = Ok e ∧
  (∀ port, os_bound s' !! port = Some me ↔ os_bound s !! port = Some me) ∧
  match e with
  | Some _ => same_for me s s'
  | None => os_locks s !! path ≠ Some me ∧
            ∀ path', os_locks s' !! path' = Some me ↔ path' = path ∨ os_locks s !! path' = Some me
  end.
Proof.
  intros (-> & c & s1 & a & [Hl Hb] & H & ->)%os_call_inv. split; [done|]. exists a. split; [done|].
  destruct (ca_fault c); [by simplify_eq|].
  destruct (os_locks s1 !! path) eqn:E; [by simplify_eq|]. injection H as <- <-. split; [done|].
  split; [rewrite <-Hl; congruence|]. intros path'. cbn. rewrite lookup_insert, <-Hl.
  case_decide; [subst; naive_solver|]. naive_solver.
Qed.

Lemma listen_inv port p s r p' s' : listen port (p, s) = (r, (p', s')) →
  p' = p ∧ ∃ x, r = Ok x ∧
  (∀ path, os_locks s' !! path = Some me ↔ os_locks s !! path = Some me) ∧
  match x with
  | Err _ => same_for me s s'
  | Ok l => (1 ≤ l ≤ 65535)%Z ∧ (port ≠ 0%Z → l = port) ∧ os_bound s !! l ≠ Some me ∧
            ∀ port', os_bound s' !! port' = Some me ↔ port' = l ∨ os_bound s !! port' = Some me
  end.
Proof.
  intros (-> & c & s1 & a & [Hl Hb] & H & ->)%os_call_inv. split; [done|]. exists a. split; [done|].
  destruct (ca_fault c); [by simplify_eq|].
  set (l := if (port =? 0)%Z then ca_port c else port) in *. cbv zeta in H.
  destruct ((1 <=? l)%Z && (l <=? 65535)%Z) eqn:Hr; cbn in H; [|by simplify_eq].
  apply andb_true_iff in Hr as [?%Z.leb_le ?%Z.leb_le].
  destruct (os_bound s1 !! l) eqn:E; [by simplify_eq|]. injection H as <- <-. split; [done|].
  split_and!; [done..| | |].
  - intros Hp. unfold l. by rewrite (proj2 (Z.eqb_neq _ _)).
  - rewrite <-Hb. congruence.
  - intros port'. cbn. rewrite lookup_insert, <-Hb. case_decide; subst; naive_solver.
Qed.

Lemma acquireLease_inv label p s r p' s' :
  acquireLease me LeaseDir path_join label (p, s) = (r, (p', s')) →
  p' = p ∧ ∃ x, r = Ok x ∧
  (∀ port, os_bound s' !! port = Some me ↔ os_bound s !! port = Some me) ∧
  match x with
  | Err _ => same_for me s s'
  | Ok path => path = leasePath label ∧ os_locks s !! path ≠ Some me ∧
      ∀ path', os_locks s' !! path' = Some me ↔ path' = path ∨ os_locks s !! path' = Some me
  end.
Proof.
  unfold acquireLease.
  intros [(a & [p1 s1] & (-> & H1 & _)%mkdir_all_inv & H)|(e & (_ & _ & [? [=]])%mkdir_all_inv & _)]%bind_inv.
  destruct a as [e|]; [injection H as <- <- <-; split; [done|]; eexists; split_and!; [done|apply H1|done]|].
  apply bind_inv in H as [(a & [p2 s2] & (-> & H2 & _)%open_file_inv & H)|(e & (_ & _ & [? [=]])%open_file_inv & _)].
  assert (same_for me s s2) as H12 by (by etrans).
  destruct a as [e|]; [injection H as <- <- <-; split; [done|]; eexists; split_and!; [done|apply H12|done]|].
  apply bind_inv in H as [(a & [p3 s3] & (-> & e & [= <-] & Hb & H3)%flock_inv & H)
                         |(e & (_ & ? & [=] & _)%flock_inv & _)].
  assert (∀ port, os_bound s3 !! port = Some me ↔ os_bound s !! port = Some me) as Hb'
    by (intros port; rewrite Hb; apply H12).
  destruct a as [e|]; injection H as <- <- <-; (split; [done|]); eexists; (split; [done|]); (split; [done|]).
  - by etrans.
  - split_and!; [done|rewrite <-(proj1 H12); apply H3|]. intros path. rewrite <-(proj1 H12). apply H3.
Qed.

Lemma lease_inv label p s r p' s' : lease label (p, s) = (r, (p', s')) →
  ∃ e, r = Ok e ∧
  (∀ port, os_bound s' !! port = Some me ↔ os_bound s !! port = Some me) ∧
  match e with
  | Some _ => p' = p ∧ same_for me s s'
  | None => p' = set_leases (pl_leases p ++ [leasePath label]) p ∧
            os_locks s !! leasePath label ≠ Some me ∧
            ∀ path, os_locks s' !! path = Some me ↔ path = leasePath label ∨ os_locks s !! path = Some me
  end.
Proof.
  intros [(file & [p1 s1] & (-> & x & [= <-] & Hb & H1)%acquireLease_inv & H)
         |(e & (_ & ? & [=] & _)%acquireLease_inv & _)]%bind_inv.
  destruct file as [file|e]; injection H as <- <- <-; eexists; (split; [done|]); (split; [done|]); [|done].
  by destruct H1 as (-> & ? & ?).
Qed.

(** ** Ownership: the plan knows exactly what it holds *)

Record owned (p : Plan) (s : os) : Prop := {
  ow_leases : ∀ path, os_locks s !! path = Some me ↔ path ∈ pl_leases p;
  ow_held : ∀ port, os_bound s !! port = Some me ↔ ∃ key, pl_held p !! key = Some port;
  ow_inj : ∀ k1 k2 port, pl_held p !! k1 = Some port → pl_held p !! k2 = Some port → k1 = k2;
  ow_range : ∀ key port, pl_held p !! key = Some port → (1 ≤ port ≤ 65535)%Z ∧ (key = port ∨ key = 0%Z);
}.

Lemma owned_same p s s' : same_for me s s' → owned p s → owned p s'.
Proof. intros [H1 H2] []. constructor; [intros; by rewrite H1|intros; by rewrite H2|done..]. Qed.

(** Only the leases and the held ports matter. *)
Lemma owned_eq p p' s : pl_leases p' = pl_leases p → pl_held p' = pl_held p → owned p s → owned p' s.
Proof. intros H1 H2 []. constructor; rewrite ?H1, ?H2; done. Qed.

Lemma owned_lease p s s' path :
  owned p s → (∀ port, os_bound s' !! port = Some me ↔ os_bound s !! port = Some me) →
  (∀ path', os_locks s' !! path' = Some me ↔ path' = path ∨ os_locks s !! path' = Some me) →
  owned (set_leases (pl_leases p ++ [path]) p) s'.
Proof.
  intros [H1 H2 H3 H4] Hb Hl. constructor; cbn; [|intros; by rewrite Hb|done..].
  intros path'. rewrite Hl, H1, elem_of_app, list_elem_of_singleton. naive_solver.
Qed.

Lemma owned_hold p s s' key port :
  owned p s → pl_held p !! key = None → (1 ≤ port ≤ 65535)%Z → key = port ∨ key = 0%Z →
  os_bound s !! port ≠ Some me →
  (∀ path, os_locks s' !! path = Some me ↔ os_locks s !! path = Some me) →
  (∀ port', os_bound s' !! port' = Some me ↔ port' = port ∨ os_bound s !! port' = Some me) →
  owned (set_held (<[key := port]> (pl_held p)) p) s'.
Proof.
  intros [H1 H2 H3 H4] Hk Hr Hkp Hfree Hl Hb.
  assert (∀ k, pl_held p !! k ≠ Some port) as Hnew by (intros k Hk'; apply Hfree, H2; eauto).
  constructor; cbn; [intros; by rewrite Hl| | |].
  - intros port'. rewrite Hb, H2. split.
    + intros [->|[k Hk']]; [exists key; apply lookup_insert_eq|].
      exists k. rewrite lookup_insert_ne by congruence. done.
    + intros [k Hk']. rewrite lookup_insert in Hk'. case_decide; naive_solver.
  - intros k1 k2 port'. rewrite !lookup_insert. repeat case_decide; naive_solver.
  - intros k port'. rewrite lookup_insert. case_decide; [naive_solver|apply H4].
Qed.

(** A port just leased and bound: its lease file is new to the plan. *)
Definition leased_port (port : Z) (p p' : Plan) : Prop :=
  (∃ listener, p' = set_held (<[port := listener]> (pl_held p))
                      (set_leases (pl_leases p ++ [leasePath (tcp_label port)]) p)) ∧
  leasePath (tcp_label port) ∉ pl_leases p ∧ pl_held p !! port = None.

Lemma owned_leased_port p s s2 key port path :
  owned p s → (1 ≤ port ≤ 65535)%Z → key = port ∨ key = 0%Z → pl_held p !! key = None →
  os_bound s !! port ≠ Some me →
  (∀ port', os_bound s2 !! port' = Some me ↔ port' = port ∨ os_bound s !! port' = Some me) →
  (∀ path', os_locks s2 !! path' = Some me ↔ path' = path ∨ os_locks s !! path' = Some me) →
  owned (set_held (<[key := port]> (pl_held p)) (set_leases (pl_leases p ++ [path]) p)) s2.
Proof.
  intros Ho Hr Hkp Hk Hfree Hb Hl.
  assert (owned (set_leases (pl_leases p ++ [path]) p) (mkOs (os_locks s2) (os_bound s) [])) as Hmid
    by (by apply (owned_lease p s)).
  by apply (owned_hold _ _ s2 key port) in Hmid.
Qed.

Lemma allocate_from_inv attempts attempt preferred p s r p' s' : (0 ≤ attempt)%Z → (0 ≤ preferred)%Z →
  owned p s → allocate_from attempts attempt preferred (p, s) = (r, (p', s')) →
  owned p' s' ∧ ∃ x, r = Ok x ∧
  match x with
  | Err _ => p' = p
  | Ok port => leased_port port p p' ∧ (1 ≤ port ≤ 65535)%Z ∧
      (preferred ≠ 0 → preferred + attempt ≤ port < preferred + attempt + Z.of_nat attempts)%Z
  end.
Proof.
  revert attempt s; induction attempts as [|attempts IH]; intros attempt s Ha Hp Ho; cbn [Session.allocate_from].
  { intros [= <- <- <-]. split; [done|]. by eexists. }
  destruct (_ && _) eqn:Hbreak; [intros [= <- <- <-]; split; [done|]; by eexists|].
  set (candidate := if negb (preferred =? 0)%Z then _ else _).
  intros [(x & [p1 s1] & (-> & ? & [= <-] & Hl1 & H1)%listen_inv & H)|(e & (_ & ? & [=] & _)%listen_inv & _)]%bind_inv.
  assert (∀ s, owned p s → allocate_from attempts (attempt + 1) preferred (p, s) = (r, (p', s')) →
    owned p' s' ∧ ∃ x, r = Ok x ∧ match x with
    | Err _ => p' = p
    | Ok port => leased_port port p p' ∧ (1 ≤ port ≤ 65535)%Z ∧
        (preferred ≠ 0 → preferred + attempt ≤ port < preferred + attempt + Z.of_nat (S attempts))%Z
    end) as Hnext.
  { intros s2 Ho2 H2. destruct (IH (attempt + 1)%Z s2 ltac:(lia) Hp Ho2 H2) as (Ho' & y & -> & Hy).
    split; [done|]. exists y. split; [done|]. destruct y; [|done]. destruct Hy as (? & ? & Hy).
    split; [done|]. split; [done|]. intros Hne. specialize (Hy Hne). lia. }
  destruct x as [port|]; [|by apply (Hnext s1), H; apply (owned_same p s)].
  destruct H1 as (Hr & Hcand & Hfree & Hb1).
  apply bind_inv in H as [(e & [p2 s2] & (? & [= <-] & Hb2 & H2)%lease_inv & H)|(e & (? & [=] & _)%lease_inv & _)].
  destruct e as [e|].
  - destruct H2 as [-> [Hl2 _]]. apply (Hnext (release_port me port s2)), H.
    assert (os_bound s2 !! port = Some me) as Hmine by (apply Hb2, Hb1; by left).
    destruct Ho as [O1 O2 O3 O4]. constructor; [| |done..].
    + intros path. unfold release_port. case_bool_decide; cbn; by rewrite Hl2, Hl1.
    + intros port'. rewrite (release_port_mine me port s2 Hmine), Hb2, Hb1, <-O2. naive_solver.
  - destruct H2 as (-> & Hnew & Hl2). injection H as <- <- <-.
    assert (pl_held p !! port = None) as Hkey.
    { destruct (pl_held p !! port) as [l|] eqn:E; [|done]. exfalso.
      destruct (ow_range _ _ Ho _ _ E) as [? [->|?]]; [|lia]. apply Hfree, (ow_held _ _ Ho). eauto. }
    split; [|eexists; split; [done|]; split; [split; [by eexists|split; [|done]]|split; [done|]]].
    + apply (owned_leased_port p s s2); [done|lia|by left|done|done| |].
      * intros port'. by rewrite Hb2, Hb1.
      * intros path. by rewrite Hl2, Hl1.
    + intros Hin. apply Hnew. by apply Hl1, (ow_leases _ _ Ho).
    + intros Hne. unfold candidate in Hcand. rewrite (proj2 (Z.eqb_neq _ _)) in Hcand by done. cbn in Hcand. lia.
Qed.

Lemma allocate_inv preferred p s r p' s' : (0 ≤ preferred)%Z → owned p s →
  allocate me LeaseDir path_join preferred (p, s) = (r, (p', s')) →
  owned p' s' ∧ ∃ x, r = Ok x ∧
  match x with
  | Err _ => p' = p
  | Ok port => leased_port port p p' ∧ (1 ≤ port ≤ 65535)%Z ∧
      (preferred ≠ 0 → preferred ≤ port < preferred + 128)%Z
  end.
Proof.
  unfold allocate. generalize (eq_refl (Z.of_nat 128)). generalize 128 at 2 3. intros n Hn Hp Ho H.
  destruct (allocate_from_inv n 0 preferred p s r p' s') as (Ho' & x & -> & Hx); [done..|].
  split; [done|]. exists x. split; [done|]. destruct x; [|done]. destruct Hx as (? & ? & Hx).
  split; [done|]. split; [done|]. intros Hne. specialize (Hx Hne). rewrite <-Hn in Hx.
  change (Z.of_nat 128) with 128%Z in Hx. lia.
Qed.

Lemma hold_inv port p s r p' s' : owned p s → hold port (p, s) = (r, (p', s')) →
  owned p' s' ∧ ∃ e, r = Ok e ∧
  match e with
  | Some _ => ∃ extra, p' = set_leases (pl_leases p ++ extra) p
  | None => leased_port port p p'
  end.
Proof.
  intros Ho. unfold Session.hold.
  intros [(q & ps & [= <- <-] & H)|(e & [=] & _)]%bind_inv. cbv beta in H.
  case_bool_decide as Hk.
  { injection H as <- <- <-. split; [done|]. eexists. split; [done|]. exists []. rewrite app_nil_r. by destruct p. }
  apply eq_None_not_Some in Hk.
  apply bind_inv in H as [(e & [p1 s1] & (? & [= <-] & Hb1 & H1)%lease_inv & H)|(e & (? & [=] & _)%lease_inv & _)].
  destruct e as [e|].
  { injection H as <- <- <-. destruct H1 as [-> Hs]. split; [by apply (owned_same p s)|].
    eexists. split; [done|]. exists []. rewrite app_nil_r. by destruct p. }
  destruct H1 as (-> & Hnew & Hl1).
  assert (owned (set_leases (pl_leases p ++ [leasePath (tcp_label port)]) p) s1) as Ho1 by (by apply (owned_lease p s)).
  apply bind_inv in H as [(x & [p2 s2] & (-> & ? & [= <-] & Hl2 & H2)%listen_inv & H)|(e & (_ & ? & [=] & _)%listen_inv & _)].
  destruct x as [l|e]; injection H as <- <- <-.
  - destruct H2 as (Hr & Hlp & Hfree & Hb2). split.
    + cbn. apply (owned_leased_port p s s2); [done|lia| |done| | |].
      * destruct (decide (port = 0%Z)); [by right|left; symmetry; auto].
      * by rewrite <-Hb1.
      * intros port'. by rewrite Hb2, Hb1.
      * intros path. by rewrite Hl2, Hl1.
    + eexists. split; [done|]. split; [by eexists|]. split; [|done].
      intros Hin. by apply Hnew, (ow_leases _ _ Ho).
  - split; [by apply (owned_same _ s1)|]. eexists. split; [done|]. by eexists.
Qed.
End calls.

(** ** The assignment of ports *)

Definition url_of (port : Z) : string := "http://127.0.0.1:" +:+ itoa port.

Lemma assigned_record process portName port p n pn :
  assigned (record_port process portName port p) n pn =
  if decide (n = process ∧ pn = portName) then Some port else assigned p n pn.
Proof.
  unfold assigned, record_port. cbn. rewrite lookup_insert. case_decide as H1.
  - subst n. cbn. rewrite lookup_insert. case_decide as H2.
    + subst pn. by rewrite decide_True.
    + rewrite decide_False by naive_solver. by destruct (pj_Ports _ !! process); cbn; rewrite ?lookup_empty.
  - rewrite decide_False by naive_solver. done.
Qed.

Section assigning.
Context (me : nat) (LeaseDir : string) (path_join : string → string → string).

Notation leasePath := (leasePath LeaseDir path_join).
Notation hold := (hold me LeaseDir path_join).
Notation allocate := (allocate me LeaseDir path_join).
Notation assign_port := (assign_port me LeaseDir path_join).
Notation assign_ports := (assign_ports me LeaseDir path_join).
Notation owned := (owned me).
Notation leased_port := (leased_port LeaseDir path_join).

(** The variables of the session that are not ports. *)
Context (V0 : gmap string string).

(** The table of variables holds the ports, their URLs, and what it started with. *)
Record vars_ok (A : string → string → option Z) (V : gmap string string) : Prop := {
  v_ports : ∀ n pn, str_mem dot pn = false → V !! ref_name "ports" n pn = itoa <$> A n pn;
  v_urls : ∀ n pn, str_mem dot pn = false → V !! ref_name "urls" n pn = url_of <$> A n pn;
  v_rest : ∀ ref, (∀ n pn, ref ≠ ref_name "ports" n pn ∧ ref ≠ ref_name "urls" n pn) → V !! ref = V0 !! ref;
}.

(** A port of the plan: leased and bound by it. *)
Definition plan_port (p : Plan) (port : Z) : Prop :=
  leasePath (tcp_label port) ∈ pl_leases p ∧ is_Some (pl_held p !! port).

(** The plan's book-keeping agrees with itself. *)
Record good (p : Plan) : Prop := {
  g_ports : ∀ n pn port, assigned p n pn = Some port → plan_port p port;
  g_inj : ∀ n1 pn1 n2 pn2 port, assigned p n1 pn1 = Some port → assigned p n2 pn2 = Some port →
    n1 = n2 ∧ pn1 = pn2;
  g_merge : pl_mergePort p ≠ 0%Z → plan_port p (pl_mergePort p) ∧
    ∀ n pn, assigned p n pn ≠ Some (pl_mergePort p);
  g_dot : ∀ n pn port, assigned p n pn = Some port → str_mem dot pn = false;
  g_vars : vars_ok (assigned p) (pl_variables p);
}.

Lemma plan_port_more p p' port : pl_leases p ⊆ pl_leases p' → pl_held p ⊆ pl_held p' →
  plan_port p port → plan_port p' port.
Proof. intros H1 H2 [? [l ?]]. split; [auto|]. exists l. by eapply lookup_weaken. Qed.

Lemma leased_port_grows port p p' : leased_port port p p' →
  pl_leases p ⊆ pl_leases p' ∧ pl_held p ⊆ pl_held p' ∧ plan_port p' port.
Proof.
  intros ([l ->] & _ & Hk). cbn. split_and!; [set_solver|by apply insert_subseteq|].
  split; cbn; [set_solver|]. rewrite lookup_insert_eq. by eexists.
Qed.

(** A newly leased port is no port of the plan. *)
Lemma leased_port_fresh port p p' : leased_port port p p' → ¬ plan_port p port.
Proof. by intros (_ & Hn & _) [H _]. Qed.

Lemma ref_name_ns ns n pn ns' n' pn' : str_mem dot ns = false → str_mem dot ns' = false →
  str_mem dot pn = false → str_mem dot pn' = false →
  ref_name ns n pn = ref_name ns' n' pn' → ns = ns' ∧ n = n' ∧ pn = pn'.
Proof.
  intros H1 H2 H3 H4 He. pose proof (splitReference_ref_name ns n pn H1 H3) as S.
  rewrite He, splitReference_ref_name in S by done. by simplify_eq.
Qed.

Lemma vars_record process portName port p V :
  str_mem dot portName = false → vars_ok (assigned p) V →
  vars_ok (assigned (record_port process portName port p))
    (<[ref_name "urls" process portName := url_of port]> (<[ref_name "ports" process portName := itoa port]> V)).
Proof.
  intros Hdot [H1 H2 H3]. constructor.
  - intros n pn Hpn. rewrite assigned_record, lookup_insert_ne.
    + rewrite lookup_insert. case_decide as Hr.
      * apply ref_name_ns in Hr as (_ & -> & ->); [|done..]. by rewrite decide_True.
      * rewrite decide_False by (intros [-> ->]; done). by apply H1.
    + intros He. by apply ref_name_ns in He as (? & _).
  - intros n pn Hpn. rewrite assigned_record, lookup_insert. case_decide as Hr.
    + apply ref_name_ns in Hr as (_ & -> & ->); [|done..]. by rewrite decide_True.
    + rewrite decide_False by (intros [-> ->]; done). rewrite lookup_insert_ne; [by apply H2|].
      intros He. by apply ref_name_ns in He as (? & _).
  - intros ref Hr. destruct (Hr process portName) as [? ?]. rewrite !lookup_insert_ne by done. by apply H3.
Qed.

Lemma good_record process portName port p p' :
  good p → leased_port port p p' → str_mem dot portName = false →
  good (record_port process portName port p').
Proof.
  intros Hg Hl Hdot. pose proof (leased_port_grows _ _ _ Hl) as (Hle & Hhe & Hp).
  pose proof (leased_port_fresh _ _ _ Hl) as Hfresh. destruct Hl as ([l ->] & _).
  destruct Hg as [G1 G2 G3 G4 G5]. set (p' := set_held _ _) in *.
  assert (∀ n pn port', assigned p n pn = Some port' → port' ≠ port) as Hne
    by (intros n pn port' ? ->; by eapply Hfresh, G1).
  constructor.
  - intros n pn port'. rewrite assigned_record. case_decide; [intros [= <-]; exact Hp|].
    intros Ha. apply (plan_port_more p); [done..|]. by eapply G1.
  - intros n1 pn1 n2 pn2 port'. rewrite !assigned_record.
    repeat case_decide; [naive_solver| | |apply G2].
    + intros [= <-] Ha. by apply Hne in Ha.
    + intros Ha [= <-]. by apply Hne in Ha.
  - intros Hm. destruct (G3 Hm) as [Hmp Hma]. split; [by apply (plan_port_more p)|].
    intros n pn. rewrite assigned_record. case_decide; [|apply Hma].
    intros [= ->]. by apply Hfresh.
  - intros n pn port'. rewrite assigned_record. case_decide; [naive_solver|apply G4].
  - by apply vars_record.
Qed.
(** What the loops leave alone. *)
Record kept (p p' : Plan) : Prop := {
  k_names : pl_names p' = pl_names p;
  k_labels : pl_resources p' = pl_resources p;
  k_merge : pl_mergePort p' = pl_mergePort p;
  k_resources : pj_Resources (pl_Project p') = pj_Resources (pl_Project p);
  k_leases : pl_leases p ⊆ pl_leases p';
  k_held : pl_held p ⊆ pl_held p';
  k_preferred : pl_preferred p' = pl_preferred p;
}.

#[local] Instance kept_preorder : PreOrder kept.
Proof.
  split; [by constructor|]. intros a b c [] []. constructor; try congruence; by etrans.
Qed.

Lemma kept_record process portName port p p' :
  leased_port port p p' → kept p (record_port process portName port p').
Proof.
  intros Hl. destruct (leased_port_grows _ _ _ Hl) as (? & ? & _). destruct Hl as ([l ->] & _). by constructor.
Qed.

Section config.
Context (cfg : Config).

Definition preferred_of (process portName : string) : Z :=
  default 0%Z (p_Ports (proc_at (c_Processes cfg) process) !! portName).

Definition pinned_of (process portName : string) : bool :=
  bool_decide (process +:+ "." +:+ portName ∈ MergeUpstreamPorts cfg).

(** The port an endpoint may get: its own when it is pinned, else the first
    free one of 128 from the preferred port on. *)
Definition port_ok (process portName : string) (port : Z) : Prop :=
  if pinned_of process portName then port = preferred_of process portName
  else (1 ≤ port ≤ 65535)%Z ∧
       (preferred_of process portName ≠ 0 →
        preferred_of process portName ≤ port < preferred_of process portName + 128)%Z.

Definition endpoint_ok (e : endpoint) : Prop :=
  ep_pinned e = pinned_of (ep_process e) (ep_portName e) ∧
  str_mem dot (ep_portName e) = false ∧ (0 ≤ preferred_of (ep_process e) (ep_portName e))%Z.

Lemma assign_port_inv e p s r p' s' : owned p s → endpoint_ok e →
  assign_port cfg e (p, s) = (r, (p', s')) →
  owned p' s' ∧
  (r = Ok tt → ∃ port p1, leased_port port p p1 ∧ p' = record_port (ep_process e) (ep_portName e) port p1 ∧
     port_ok (ep_process e) (ep_portName e) port).
Proof.
  intros Ho (Hpin & _ & Hpref). unfold Session.assign_port. fold (preferred_of (ep_process e) (ep_portName e)).
  unfold port_ok. rewrite <-Hpin. destruct (ep_pinned e).
  - intros [(port & [p1 s1] & H1 & H2)|(err & H1 & ->)]%bind_inv;
      apply bind_inv in H1 as [(x & [p2 s2] & (Ho2 & ? & [= <-] & Hx)%hold_inv & H1)|(err' & (_ & ? & [=] & _)%hold_inv & _)];
      try done.
    + destruct x as [x|]; injection H1 as <- <- <-; cbn in H2; [by injection H2 as <- <- <-|].
      injection H2 as <- <- <-. split; [|eauto 10]. by apply owned_eq with p2.
    + by destruct x.
  - intros [(port & [p1 s1] & (Ho1 & ? & [= <-] & Hx)%allocate_inv & H2)|(err & (_ & ? & [=] & _)%allocate_inv & _)]%bind_inv;
      [|done..].
    destruct port as [port|err]; injection H2 as <- <- <-; [|done].
    destruct Hx as (Hl & Hr & Hw). split; [by apply owned_eq with p1|]. intros _.
    by exists port, p1.
Qed.

Lemma assign_ports_inv l p s r p' s' : owned p s → good p → Forall endpoint_ok l →
  assign_ports cfg l (p, s) = (r, (p', s')) →
  owned p' s' ∧
  (r = Ok tt → good p' ∧ kept p p' ∧
     (∀ e, e ∈ l → ∃ port, assigned p' (ep_process e) (ep_portName e) = Some port ∧
        port_ok (ep_process e) (ep_portName e) port) ∧
     (∀ n pn, (∀ e, e ∈ l → ¬ (n = ep_process e ∧ pn = ep_portName e)) → assigned p' n pn = assigned p n pn)).
Proof.
  revert p s; induction l as [|e l IH]; intros p s Ho Hg Hl; cbn [Session.assign_ports].
  { intros [= <- <- <-]. split; [done|]. intros _. split_and!; [done|done|by intros ? ?%not_elem_of_nil|done]. }
  apply Forall_cons in Hl as [He Hl].
  intros [([] & [p1 s1] & H1 & H2)|(err & H1 & ->)]%bind_inv;
    apply assign_port_inv in H1 as [Ho1 H1]; try done.
  destruct (H1 eq_refl) as (port & p2 & Hlp & -> & Hok). clear H1.
  assert (good (record_port (ep_process e) (ep_portName e) port p2)) as Hg2
    by (apply (good_record _ _ _ p); [done|done|apply He]).
  destruct (IH _ _ Ho1 Hg2 Hl H2) as [Ho' H'].
  split; [done|]. intros Hr. destruct (H' Hr) as (Hg' & Hk' & Hall & Hother).
  assert (∀ n pn, assigned p2 n pn = assigned p n pn) as Hp2 by (by destruct Hlp as ([lst ->] & _)).
  split_and!; [done|etrans; [by apply kept_record|done]| |].
  - intros e' [->|He']%elem_of_cons; [|by apply Hall].
    destruct (decide (Exists (λ e', ep_process e = ep_process e' ∧ ep_portName e = ep_portName e') l)) as [Hex|Hn].
    + apply Exists_exists in Hex as (e' & He' & -> & ->). by apply Hall.
    + rewrite <-Forall_Exists_neg, Forall_forall in Hn. exists port. split; [|done].
      rewrite Hother by (intros e' He' Heq; by apply (Hn e')). rewrite assigned_record. by rewrite decide_True.
  - intros n pn Hn. rewrite Hother by (intros e' He'; apply Hn; by apply list_elem_of_further).
    rewrite assigned_record, decide_False by (apply Hn, list_elem_of_here). apply Hp2.
Qed.
End config.

(** Only part of the plan matters to its book-keeping. *)
Lemma good_eq p p' :
  pj_Ports (pl_Project p') = pj_Ports (pl_Project p) → pl_mergePort p' = pl_mergePort p →
  pl_variables p' = pl_variables p → pl_leases p ⊆ pl_leases p' → pl_held p ⊆ pl_held p' →
  good p → good p'.
Proof.
  intros Hj Hm Hv Hl Hh [G1 G2 G3 G4 G5].
  assert (∀ n pn, assigned p' n pn = assigned p n pn) as Ha by (intros; unfold assigned; by rewrite Hj).
  constructor.
  - intros n pn port. rewrite Ha. intros H. apply (plan_port_more p); [done..|]. by eapply G1.
  - intros n1 pn1 n2 pn2 port. rewrite !Ha. apply G2.
  - rewrite Hm. intros Hne. destruct (G3 Hne) as [? Hma]. split; [by apply (plan_port_more p)|].
    intros n pn. rewrite Ha. apply Hma.
  - intros n pn port. rewrite Ha. apply G4.
  - rewrite Hv. destruct G5 as [V1 V2 V3]. constructor; [intros; rewrite Ha; auto..|done].
Qed.

(** The resources of the session, each leased once. *)
Record resources_ok (leased : gset string) (p : Plan) : Prop := {
  rs_nodup : NoDup (pj_Resources (pl_Project p));
  rs_leased : ∀ r, r ∈ leased ↔ r ∈ pj_Resources (pl_Project p);
  rs_locked : ∀ r, r ∈ pj_Resources (pl_Project p) → leasePath ("resource:" +:+ r) ∈ pl_leases p;
}.

Lemma try_inv wrap m ps r ps' : try wrap m ps = (r, ps') →
  (r = Ok tt ∧ m ps = (Ok None, ps')) ∨ (∃ e, r = Err e ∧ (m ps = (Err e, ps') ∨ ∃ e', m ps = (Ok (Some e'), ps'))).
Proof.
  intros [(e & ps1 & H1 & H2)|(e & H1 & ->)]%bind_inv; [|eauto].
  destruct e as [e|]; injection H2 as <- <-; [right; eauto|by left].
Qed.

Lemma try_lease_inv wrap label p s r p' s' : owned p s →
  try wrap (lease me LeaseDir path_join label) (p, s) = (r, (p', s')) →
  owned p' s' ∧ (r = Ok tt → p' = set_leases (pl_leases p ++ [leasePath label]) p).
Proof.
  intros Ho [[-> H]|(e & -> & [H|[e' H]])]%try_inv; apply lease_inv in H as (x & Hx & Hb & H); simplify_eq.
  - destruct H as (-> & _ & Hl). split; [by apply owned_lease with s|done].
  - destruct H as [-> Hs]. split; [by apply owned_same with s|done].
Qed.

Lemma lease_resources_inv (is_abs : string → bool) (path_clean : string → string) range labels :
  ∀ leased p s r p' s', owned p s → good p → resources_ok leased p →
  lease_resources me LeaseDir path_join is_abs path_clean range leased labels (p, s) = (r, (p', s')) →
  owned p' s' ∧
  (r = Ok tt → good p' ∧ (∃ leased', resources_ok leased' p') ∧ pl_names p' = pl_names p ∧
     pl_leases p ⊆ pl_leases p' ∧ pl_mergePort p' = pl_mergePort p ∧ pl_held p' = pl_held p ∧
     pj_Ports (pl_Project p') = pj_Ports (pl_Project p) ∧ pl_resources p' = pl_resources p).
Proof.
  induction labels as [|label labels IH]; intros leased p s r p' s' Ho Hg Hr; cbn [lease_resources].
  { intros [= <- <- <-]. split; [done|]. intros _. split_and!; eauto. }
  intros [(q & ps & [= <- <-] & H)|(e & [=] & _)]%bind_inv.
  apply bind_inv in H as [(resolved & ps & [= Hres <-] & H)|(e & [= _ <- <-] & ->)]; [|done].
  case_bool_decide as Hin; [by apply IH in H|].
  apply bind_inv in H as [([] & [p1 s1] & [Ho1 H1]%try_lease_inv & H)|(e & [Ho1 _]%try_lease_inv & ->)]; [|done..].
  specialize (H1 eq_refl). subst p1.
  apply bind_inv in H as [([] & ps & [= <-] & H)|(e & [=] & _)]. cbn [fst snd] in H.
  apply IH in H as [Ho' H'].
  - split; [done|]. intros Hok. destruct (H' Hok) as (? & ? & ? & Hle & ? & ? & ? & ?).
    split_and!; try done. etrans; [|exact Hle]. cbn. set_solver.
  - by apply owned_eq with ((set_leases (pl_leases p ++ [leasePath ("resource:" +:+ resolved)]) p)).
  - apply (good_eq p); cbn; [done..|set_solver|done|done].
  - destruct Hr as [R1 R2 R3]. constructor; cbn.
    + apply NoDup_app. split; [done|]. split; [|apply NoDup_singleton].
      intros x Hx ->%list_elem_of_singleton. by apply Hin, R2.
    + intros x. rewrite elem_of_union, elem_of_singleton, R2, elem_of_app, list_elem_of_singleton. naive_solver.
    + intros x [Hx| ->%list_elem_of_singleton]%elem_of_app; [|set_solver].
      apply elem_of_app. left. by apply R3.
Qed.

Lemma good_set_merge p port : good p → plan_port p port → (∀ n pn, assigned p n pn ≠ Some port) →
  good (set_mergePort port p).
Proof. intros [G1 G2 G3 G4 G5] Hp Ha. by constructor. Qed.

Lemma lease_merge_inv cfg p s r p' s' : owned p s → good p → pj_Ports (pl_Project p) = ∅ → pl_mergePort p = 0%Z →
  lease_merge me LeaseDir path_join cfg (p, s) = (r, (p', s')) →
  owned p' s' ∧
  (r = Ok tt → good p' ∧ pl_names p' = pl_names p ∧ pl_leases p ⊆ pl_leases p' ∧
     pl_Project p' = pl_Project p ∧ pl_resources p' = pl_resources p ∧
     (∀ m, c_Merge cfg = Some m → (0 < m_Port m)%Z → MergePortProcessName ∈ pl_names p →
        pl_mergePort p' = m_Port m)).
Proof.
  intros Ho Hg Hports Hmp. unfold lease_merge. destruct (c_Merge cfg) as [m|].
  2:{ intros [= <- <- <-]. split; [done|]. intros _. by split_and!. }
  intros [(q & ps & [= <- <-] & H)|(e & [=] & _)]%bind_inv. cbv beta in H.
  destruct (_ && _) eqn:Hc.
  2:{ injection H as <- <- <-. split; [done|]. intros _. split_and!; try done.
      intros m' [= <-] Hpos Hin. apply andb_false_iff in Hc as [?%Z.ltb_ge|?%bool_decide_eq_false]; [lia|done]. }
  apply andb_true_iff in Hc as [Hpos%Z.ltb_lt _].
  apply bind_inv in H as [([] & [p1 s1] & H1 & H)|(e & H1 & ->)].
  - injection H as <- <- <-. apply try_inv in H1 as [[_ H1]|(e & [=] & _)].
    apply hold_inv in H1 as (Ho1 & x & [= <-] & Hl); [|done]. cbn [fst snd].
    pose proof (leased_port_grows _ _ _ Hl) as (Hle & Hhe & Hpp).
    split; [by apply owned_eq with p1|]. intros _.
    pose proof Hl as ([lst Hp1] & _).
    assert (pl_Project p1 = pl_Project p) as Hj by (by rewrite Hp1).
    split_and!; [|by rewrite Hp1|done|done|by rewrite Hp1|by intros m' [= <-]].
    apply good_set_merge; [apply (good_eq p); [by rewrite Hj|by rewrite Hp1|by rewrite Hp1|done..]|done|].
    intros n pn. unfold assigned. by rewrite Hj, Hports, lookup_empty.
  - split; [|done]. apply try_inv in H1 as [[[=] _]|(e' & _ & [H1|[e'' H1]])];
      apply hold_inv in H1 as (Ho1 & x & Hx & _); done.
Qed.
End assigning.

(** ** Giving everything back *)

(** The owner holds nothing. *)
Definition idle (me : nat) (s : os) : Prop :=
  (∀ path, os_locks s !! path ≠ Some me) ∧ (∀ port, os_bound s !! port ≠ Some me).

Lemma release_ports_mine me l s port :
  os_bound (fold_left (λ s l, release_port me l s) l s) !! port = Some me ↔
  port ∉ l ∧ os_bound s !! port = Some me.
Proof.
  revert s; induction l as [|x l IH]; intros s; cbn [fold_left]; [split; [by split; [apply not_elem_of_nil|]|naive_solver]|].
  rewrite IH, not_elem_of_cons. unfold release_port. case_bool_decide as Hx; cbn.
  - rewrite lookup_delete. case_decide; naive_solver.
  - naive_solver.
Qed.

Lemma release_ports_locks me l s : os_locks (fold_left (λ s l, release_port me l s) l s) = os_locks s.
Proof.
  revert s; induction l as [|x l IH]; intros s; cbn [fold_left]; [done|]. rewrite IH.
  unfold release_port. by case_bool_decide.
Qed.

Lemma release_locks_mine me l s path :
  os_locks (fold_left (λ s f, release_lock me f s) l s) !! path = Some me ↔
  path ∉ l ∧ os_locks s !! path = Some me.
Proof.
  revert s; induction l as [|x l IH]; intros s; cbn [fold_left]; [split; [by split; [apply not_elem_of_nil|]|naive_solver]|].
  rewrite IH, not_elem_of_cons. unfold release_lock. case_bool_decide as Hx; cbn.
  - rewrite lookup_delete. case_decide; naive_solver.
  - naive_solver.
Qed.

Lemma release_locks_bound me l s : os_bound (fold_left (λ s f, release_lock me f s) l s) = os_bound s.
Proof.
  revert s; induction l as [|x l IH]; intros s; cbn [fold_left]; [done|]. rewrite IH.
  unfold release_lock. by case_bool_decide.
Qed.

Lemma Close_idle me p s : owned me p s → idle me (Close me (p, s)).2.
Proof.
  intros [O1 O2 _ _]. unfold Close. cbn [snd]. split.
  - intros path. rewrite release_locks_mine, release_ports_locks, O1, !list_elem_of_In, <-in_rev. naive_solver.
  - intros port. rewrite release_locks_bound, release_ports_mine, O2. intros [Hn [key Hk]]. apply Hn.
    apply list_elem_of_fmap. exists (key, port). split; [done|]. by apply elem_of_map_to_list.
Qed.

(** ** Acquiring a session *)

Section acquiring.
Context (me : nat) (LeaseDir : string) (path_join : string → string → string)
        (is_abs : string → bool) (path_clean path_dir : string → string).
Context (order : list string) (range : string → list string → list string)
        (cfg : Config) (configPath hash name run_id directory journal : string) (filter : list string).

Notation leasePath := (leasePath LeaseDir path_join).
Notation V0 := (session_variables path_dir hash directory configPath name).
Notation Acquire := (Acquire me LeaseDir path_join is_abs path_clean path_dir order range cfg
                       configPath hash name run_id directory journal filter).

(** What [Load] guarantees of the named ports. *)
Definition ports_valid : Prop := ∀ n p pn port, c_Processes cfg !! n = Some p → p_Ports p !! pn = Some port →
  str_mem dot pn = false ∧ (0 ≤ port ≤ 65535)%Z.

(** An acquired session. *)
Record Acquired (p : Plan) (s : os) : Prop := {
  aq_owned : owned me p s;
  aq_good : good LeaseDir path_join V0 p;
  aq_instance : leasePath ("instance:" +:+ hash) ∈ pl_leases p;
  aq_resources : ∃ leased, resources_ok LeaseDir path_join leased p;
  aq_names : pl_names p = SelectedNames order cfg filter ++ TeardownNames order cfg;
  aq_assigned : ∀ n pn, n ∈ pl_names p → is_Some (p_Ports (proc_at (c_Processes cfg) n) !! pn) →
    ∃ port, assigned p n pn = Some port ∧ port_ok cfg n pn port;
  aq_only : ∀ n pn port, assigned p n pn = Some port →
    n ∈ pl_names p ∧ is_Some (p_Ports (proc_at (c_Processes cfg) n) !! pn);
  aq_merge : ∀ m, c_Merge cfg = Some m → (0 < m_Port m)%Z → MergePortProcessName ∈ pl_names p →
    pl_mergePort p = m_Port m;
}.

Lemma elem_of_session_endpoints names e : e ∈ session_endpoints cfg names ↔
  ep_process e ∈ names ∧ is_Some (p_Ports (proc_at (c_Processes cfg) (ep_process e)) !! ep_portName e) ∧
  ep_pinned e = pinned_of cfg (ep_process e) (ep_portName e).
Proof.
  unfold session_endpoints. set (all := mbind _ names).
  assert (e ∈ all ↔ ep_process e ∈ names ∧
    is_Some (p_Ports (proc_at (c_Processes cfg) (ep_process e)) !! ep_portName e) ∧
    ep_pinned e = pinned_of cfg (ep_process e) (ep_portName e)) as Hall.
  { unfold all. rewrite list_elem_of_bind. setoid_rewrite list_elem_of_fmap.
    setoid_rewrite elem_of_sort_strings. setoid_rewrite elem_of_keys. split.
    - intros (n & (pn & -> & Hpn) & Hn). done.
    - intros (Hn & Hpn & Hp). exists (ep_process e). split; [|done]. exists (ep_portName e). split; [|done].
      destruct e. cbn in *. by rewrite Hp. }
  rewrite <-Hall, elem_of_app, !list_elem_of_In, !filter_In. destruct (ep_pinned e); cbn; naive_solver.
Qed.

Lemma ports_valid_ok names : ports_valid → Forall (endpoint_ok cfg) (session_endpoints cfg names).
Proof.
  intros Hv. apply Forall_forall. intros e (_ & [port Hp] & Hpin)%elem_of_session_endpoints.
  split; [done|]. unfold preferred_of. rewrite Hp. cbn. unfold proc_at in Hp.
  destruct (c_Processes cfg !! ep_process e) as [q|] eqn:Hq; cbn in Hp; [|by rewrite lookup_empty in Hp].
  destruct (Hv _ _ _ _ Hq Hp). lia || (split; [done|lia]).
Qed.

Lemma good_start p : pj_Ports (pl_Project p) = ∅ → pl_mergePort p = 0%Z → pl_variables p = V0 →
  good LeaseDir path_join V0 p.
Proof.
  intros Hj Hm Hv. assert (∀ n pn, assigned p n pn = None) as Ha
    by (intros; unfold assigned; by rewrite Hj, lookup_empty).
  assert (∀ ns n pn, ns ∈ ["ports"; "urls"] → V0 !! ref_name ns n pn = None) as HV.
  { intros ns n pn Hns. unfold session_variables. rewrite !lookup_insert_ne, lookup_singleton_ne; [done|..];
      apply elem_of_cons in Hns as [->|[->|[]%elem_of_nil]%elem_of_cons]; discriminate. }
  constructor.
  - intros n pn port. by rewrite Ha.
  - intros n1 pn1 n2 pn2 port. by rewrite Ha.
  - by rewrite Hm.
  - intros n pn port. by rewrite Ha.
  - rewrite Hv. constructor; [| |done]; intros n pn _; rewrite Ha; apply HV; set_solver.
Qed.

Lemma Resolve_uses p r : Resolve path_join is_abs path_dir range cfg p = Ok r → ∃ uses, r.2 = set_uses uses p.
Proof.
  unfold Resolve. rewrite !return_if_Ok. intros (_ & _ & (x & _ & [= <-])%res_bind_Ok). by eexists.
Qed.

(** The steps after the instance lease and the variables. *)
Lemma acquire_ports_inv p s r p' s' : ports_valid → owned me p s → good LeaseDir path_join V0 p →
  (lease_merge me LeaseDir path_join cfg ;;;
   modify (λ p, set_preferred (list_to_map
     ((λ process, (process, p_Ports (proc_at (c_Processes cfg) process))) <$> pl_names p)) p) ;;;
   p <- plan ;
   assign_ports me LeaseDir path_join cfg (session_endpoints cfg (pl_names p)) ;;;
   p <- plan ;
   r <- lift (Resolve path_join is_abs path_dir range cfg p) ;
   modify (λ _, set_PlanConfig (Some r.1) r.2)) (p, s) = (r, (p', s')) →
  pj_Ports (pl_Project p) = ∅ → pl_mergePort p = 0%Z →
  owned me p' s' ∧
  (r = Ok tt → good LeaseDir path_join V0 p' ∧ pl_names p' = pl_names p ∧ pl_leases p ⊆ pl_leases p' ∧
     pj_Resources (pl_Project p') = pj_Resources (pl_Project p) ∧
     (∀ n pn, n ∈ pl_names p → is_Some (p_Ports (proc_at (c_Processes cfg) n) !! pn) →
        ∃ port, assigned p' n pn = Some port ∧ port_ok cfg n pn port) ∧
     (∀ n pn port, assigned p' n pn = Some port →
        n ∈ pl_names p ∧ is_Some (p_Ports (proc_at (c_Processes cfg) n) !! pn)) ∧
     (∀ m, c_Merge cfg = Some m → (0 < m_Port m)%Z → MergePortProcessName ∈ pl_names p →
        pl_mergePort p' = m_Port m)).
Proof.
  intros Hv Ho Hg H Hports Hmp.
  apply bind_inv in H as [([] & [p1 s1] & H1 & H)|(e & H1 & ->)].
  2:{ apply (lease_merge_inv me LeaseDir path_join V0) in H1 as [? _]; [|done..]. by split. }
  apply (lease_merge_inv me LeaseDir path_join V0) in H1 as [Ho1 H1]; [|done..].
  destruct (H1 eq_refl) as (Hg1 & Hn1 & Hl1 & Hj1 & _ & Hm1). clear H1.
  apply bind_inv in H as [([] & ps & [= <-] & H)|(e & [=] & _)]. cbn [fst snd] in H.
  set (p2 := set_preferred _ p1) in H.
  apply bind_inv in H as [(q & ps & [= <- <-] & H)|(e & [=] & _)]. cbv beta in H.
  assert (owned me p2 s1) as Ho2 by (by apply owned_eq with p1).
  assert (good LeaseDir path_join V0 p2) as Hg2 by (by apply (good_eq _ _ _ p1)).
  pose proof (ports_valid_ok (pl_names p2) Hv) as Hl.
  apply bind_inv in H as [([] & [p3 s3] & H3 & H)|(e & H3 & ->)];
    apply (assign_ports_inv me LeaseDir path_join V0) in H3 as [Ho3 H3]; try done.
  destruct (H3 eq_refl) as (Hg3 & [K1 _ K3 K4 K5 _ _] & Hall & Hother). clear H3.
  apply bind_inv in H as [(q & ps & [= <- <-] & H)|(e & [=] & _)]. cbv beta in H.
  apply bind_inv in H as [([c q] & ps & [= Hres <-] & H)|(e & [= _ <- <-] & ->)]; [|done].
  injection H as <- <- <-. destruct (Resolve_uses _ _ Hres) as [uses Hq]. cbn in Hq. subst q.
  split; [by apply owned_eq with p3|]. intros _. cbn [fst snd].
  assert (pl_names p2 = pl_names p) as Hn2 by done.
  split_and!.
  - by apply (good_eq _ _ _ p3).
  - change (pl_names p3 = pl_names p). congruence.
  - change (pl_leases p ⊆ pl_leases p3). by etrans; [|exact K5].
  - change (pj_Resources (pl_Project p3) = pj_Resources (pl_Project p)). by rewrite K4, <-Hj1.
  - intros n pn Hn Hpn. destruct (Hall (mkEndpoint n pn (pinned_of cfg n pn))) as (port & ? & ?); [|by exists port].
    apply elem_of_session_endpoints. cbn. by rewrite Hn1.
  - intros n pn port Ha. change (assigned p3 n pn = Some port) in Ha.
    destruct (decide (mkEndpoint n pn (pinned_of cfg n pn) ∈ session_endpoints cfg (pl_names p2))) as [Hin|Hn].
    { apply elem_of_session_endpoints in Hin as (? & ? & _). cbn in *. by rewrite <-Hn1. }
    exfalso. rewrite Hother in Ha.
    + unfold assigned in Ha. cbn in Ha. by rewrite Hj1, Hports, lookup_empty in Ha.
    + intros e He [-> ->]. apply Hn, elem_of_session_endpoints.
      by apply elem_of_session_endpoints in He as (? & ? & _).
  - intros m Hm Hpos Hin. change (pl_mergePort p3 = m_Port m). rewrite K3. by apply Hm1.
Qed.

Lemma acquire_body_inv p s r p' s' teardown : ports_valid → owned me p s →
  pl_leases p = [] → pl_held p = ∅ → pl_mergePort p = 0%Z →
  pl_Project p = mkProject name run_id configPath directory ∅ ∅ [] "" journal None [] →
  pl_names p = SelectedNames order cfg filter ++ TeardownNames order cfg →
  acquire_body me LeaseDir path_join is_abs path_clean path_dir range cfg hash name teardown (p, s)
    = (r, (p', s')) →
  owned me p' s' ∧ (r = Ok tt → Acquired p' s').
Proof.
  intros Hv Ho Hle Hhe Hmp Hj Hn H. unfold acquire_body in H.
  apply bind_inv in H as [(e & [p1 s1] & (-> & Hs1 & _)%mkdir_all_inv & H)|(e & (_ & _ & [? [=]])%mkdir_all_inv & _)].
  apply (owned_same me p s s1 Hs1) in Ho.
  destruct e as [e|]; [injection H as <- <- <-; by split|].
  apply bind_inv in H as [([] & [p1 s2] & H1 & H)|(e & H1 & ->)];
    apply try_lease_inv in H1 as [Ho1 H1]; try done.
  specialize (H1 eq_refl). subst p1.
  apply bind_inv in H as [([] & ps & [= <-] & H)|(e & [=] & _)]. cbn [fst snd] in H.
  set (p2 := set_variables _ _) in H.
  assert (owned me p2 s2) as Ho2 by (by eapply owned_eq; [..|exact Ho1]).
  assert (good LeaseDir path_join V0 p2) as Hg2 by (apply good_start; [|done|]; cbn; by rewrite Hj).
  assert (resources_ok LeaseDir path_join ∅ p2) as Hr2.
  { constructor; cbn; rewrite Hj; [constructor|set_solver|]. by intros x ?%not_elem_of_nil. }
  apply bind_inv in H as [([] & [p3 s3] & H3 & H)|(e & H3 & ->)];
    apply (lease_resources_inv me LeaseDir path_join V0) in H3 as [Ho3 H3]; try done.
  destruct (H3 eq_refl) as (Hg3 & [leased Hr3] & Hn3 & Hl3 & Hm3 & _ & Hj3 & _). clear H3.
  apply acquire_ports_inv in H as [Ho' H]; [|done..| |].
  - split; [done|]. intros Hr. destruct (H Hr) as (Hg' & Hn' & Hl' & Hj' & Ha & Hb & Hc).
    assert (pl_names p' = SelectedNames order cfg filter ++ TeardownNames order cfg) as Hnames
      by (by rewrite Hn', Hn3).
    constructor; try done.
    + apply Hl', Hl3. cbn. rewrite Hle. apply list_elem_of_here.
    + exists leased. destruct Hr3 as [R1 R2 R3]. constructor; rewrite Hj'; [done..|]. intros x Hx. by apply Hl', R3.
    + intros n pn. rewrite Hn'. apply Ha.
    + intros n pn port. rewrite Hn'. apply Hb.
    + intros m. rewrite Hn'. apply Hc.
  - rewrite Hj3. cbn. by rewrite Hj.
  - by rewrite Hm3.
Qed.

Lemma Acquire_spec s :
  ports_valid → idle me s →
  match Acquire s with
  | (Ok p, s') => Acquired p s'
  | (Err _, s') => idle me s'
  end.
Proof.
  intros Hv [Hl Hb]. unfold Session.Acquire. destruct (list_find _ _) as [[i sel]|]; [done|].
  set (p0 := new_plan _ _ _ _ _ _ _).
  assert (owned me p0 s) as Ho.
  { constructor; cbn; [| |intros; simplify_map_eq..].
    - intros path. split; [by intros ?%Hl|by intros ?%not_elem_of_nil].
    - intros port. split; [by intros ?%Hb|]. intros [key Hk]. by rewrite lookup_empty in Hk. }
  destruct (acquire_body _ _ _ _ _ _ _ _ _ _ _ (p0, s)) as [[u|e] [p s']] eqn:E;
    apply acquire_body_inv in E as [Ho' H]; try done; [destruct u; by apply H|by apply Close_idle].
Qed.

Lemma Acquire_owned s p s' : ports_valid → idle me s → Acquire s = (Ok p, s') → Acquired p s'.
Proof. intros Hv Hi H. pose proof (Acquire_spec s Hv Hi) as Hs. by rewrite H in Hs. Qed.

(** C8: acquiring a session is all or nothing, whatever the other sessions and
    programs do meanwhile and whichever calls fail.  When it succeeds, every
    named port of the selected processes is assigned: the port itself for one
    a merge upstream is started on, else one of the 128 from the preferred port
    on; distinct endpoints have distinct ports, none is the merge proxy's, and
    each is leased and bound by the session.  When it fails, the session holds
    no lease and no port. *)
Theorem Acquire_all_or_nothing s :
  ports_valid → idle me s →
  match Acquire s with
  | (Ok p, s') => Acquired p s'
  | (Err _, s') => idle me s'
  end.
Proof.
  apply Acquire_spec.
Qed.
End acquiring.

(** ** Sessions beside each other *)

(** In the script, the owner [o] does nothing. *)
Definition quiet (o : nat) (s : os) : Prop :=
  Forall (λ c, Forall (λ a, actor a ≠ o) (ca_others c)) (os_script s).

(** Code of the owner [me] leaves alone what an idle owner [o] has. *)
Definition keeps (o : nat) {A} (m : sess A) : Prop :=
  ∀ p s, quiet o s → quiet o (m (p, s)).2.2 ∧ same_for o s (m (p, s)).2.2.

Create HintDb keeps.

Section keeping.
Context (me o : nat) (Hne : o ≠ me) (LeaseDir : string) (path_join : string → string → string).

Lemma keeps_ret {A} (a : A) : keeps o (ret a). Proof. done. Qed.
Lemma keeps_fail {A} e : keeps o (fail (A:=A) e). Proof. done. Qed.
Lemma keeps_plan : keeps o plan. Proof. done. Qed.
Lemma keeps_modify f : keeps o (modify f). Proof. done. Qed.
Lemma keeps_lift {A} (r : res session_error A) : keeps o (lift r). Proof. done. Qed.

Lemma keeps_bind {A B} (m : sess A) (f : A → sess B) :
  keeps o m → (∀ a, keeps o (f a)) → keeps o (bind m f).
Proof.
  intros Hm Hf p s Hq. unfold bind. destruct (Hm p s Hq) as [Hq1 Hs1].
  destruct (m (p, s)) as [[a|e] [p1 s1]]; [|done]. cbn in *.
  destruct (Hf a p1 s1 Hq1). split; [done|by etrans].
Qed.

Lemma keeps_call {A} (f : call → os → A * os) :
  (∀ c s, os_script (f c s).2 = os_script s ∧ same_for o s (f c s).2) → keeps o (os_call me f).
Proof.
  intros Hf p s Hq. unfold os_call.
  destruct (match os_script s with [] => _ | _ => _ end) as [c rest] eqn:E.
  set (s1 := others _ _ _). pose proof (Hf c s1) as [Hscript Hsame]. destruct (f c s1) as [a s2]. cbn in *.
  assert (Forall (λ c, Forall (λ a, actor a ≠ o) (ca_others c)) rest ∧ Forall (λ a, actor a ≠ o) (ca_others c))
    as [Hrest Hc].
  { unfold quiet in Hq. destruct (os_script s); simplify_eq; [done|]. by apply Forall_cons in Hq as [? ?]. }
  assert (os_script s1 = rest) as Hs1.
  { unfold s1, others. apply (fold_left_invariant (λ s, os_script s = rest)); [done|]. intros x a' _ Hx.
    destruct (actor _ =? me); [done|].
    destruct a'; cbn; unfold release_lock, release_port; by case_bool_decide. }
  split; [unfold quiet; by rewrite Hscript, Hs1|]. etrans; [|exact Hsame]. unfold s1.
  change (same_for o s) with (same_for o (mkOs (os_locks s) (os_bound s) rest)). by apply others_idle.
Qed.

Lemma keeps_mkdir_all : keeps o (mkdir_all me). Proof. by apply keeps_call. Qed.
Lemma keeps_open_file : keeps o (open_file me). Proof. by apply keeps_call. Qed.

Lemma keeps_flock path : keeps o (flock me path).
Proof.
  apply keeps_call. intros c s. destruct (ca_fault c); [done|]. destruct (os_locks s !! path) eqn:E; [done|].
  split; [done|]. split; [|done]. intros path'. cbn. rewrite lookup_insert. case_decide; naive_solver.
Qed.

Lemma keeps_listen port : keeps o (listen me port).
Proof.
  apply keeps_call. intros c s. destruct (ca_fault c); [done|]. cbv zeta. case_match; [done|].
  destruct (os_bound s !! _) eqn:E; [done|].
  split; [done|]. split; [done|]. intros port'. cbn. rewrite lookup_insert. case_decide; naive_solver.
Qed.

Lemma keeps_close_listener port : keeps o (close_listener me port).
Proof.
  intros p s Hq. cbn. split; [|by apply release_port_same].
  unfold release_port, quiet. by case_bool_decide.
Qed.

#[local] Hint Resolve keeps_ret keeps_fail keeps_plan keeps_modify keeps_lift keeps_bind keeps_mkdir_all
  keeps_open_file keeps_flock keeps_listen keeps_close_listener : keeps.

(** One step into the code, by its shape. *)
Ltac keeps := repeat (first [progress auto with keeps | apply keeps_bind; [|intros ?] | progress case_match | progress cbv beta zeta]).

Lemma keeps_lease label : keeps o (lease me LeaseDir path_join label).
Proof. unfold lease, acquireLease. keeps. Qed.
#[local] Hint Resolve keeps_lease : keeps.

Lemma keeps_allocate_from n attempt preferred : keeps o (allocate_from me LeaseDir path_join n attempt preferred).
Proof. revert attempt; induction n; intros attempt; cbn [allocate_from]; keeps. Qed.

Lemma keeps_allocate preferred : keeps o (allocate me LeaseDir path_join preferred).
Proof. apply keeps_allocate_from. Qed.

Lemma keeps_hold port : keeps o (hold me LeaseDir path_join port).
Proof. unfold hold. keeps. Qed.
#[local] Hint Resolve keeps_allocate keeps_hold : keeps.

Lemma keeps_try wrap m : keeps o m → keeps o (try wrap m).
Proof. unfold try. intros. keeps. Qed.
#[local] Hint Resolve keeps_try : keeps.

Lemma keeps_lease_resources is_abs path_clean range leased labels :
  keeps o (lease_resources me LeaseDir path_join is_abs path_clean range leased labels).
Proof. revert leased; induction labels; intros leased; cbn [lease_resources]; keeps. Qed.

Lemma keeps_assign_ports cfg l : keeps o (assign_ports me LeaseDir path_join cfg l).
Proof. induction l; cbn [assign_ports]; unfold assign_port; keeps. Qed.
#[local] Hint Resolve keeps_lease_resources keeps_assign_ports : keeps.

Lemma keeps_acquire_body is_abs path_clean path_dir range cfg hash name teardown :
  keeps o (acquire_body me LeaseDir path_join is_abs path_clean path_dir range cfg hash name teardown).
Proof. unfold acquire_body, lease_merge. keeps. Qed.
End keeping.

(** C28: two sessions never share what they lease.  Once a session is acquired,
    and as long as it keeps its leases (releasing ports to its processes does
    not give them up), a second session that is acquired, whatever third
    parties do meanwhile, has other ports, other resources and another
    identity. *)
Theorem sessions_disjoint me1 me2 LeaseDir path_join is_abs path_clean path_dir
    order1 cfg1 configPath1 hash1 name1 dir1 filter1 p1 s1
    order2 range2 cfg2 configPath2 hash2 name2 run2 dir2 journal2 filter2 p2 s s2 :
  me1 ≠ me2 →
  Acquired me1 LeaseDir path_join path_dir order1 cfg1 configPath1 hash1 name1 dir1 filter1 p1 s1 →
  (∀ path, os_locks s1 !! path = Some me1 → os_locks s !! path = Some me1) → quiet me1 s →
  ports_valid cfg2 → idle me2 s →
  Acquire me2 LeaseDir path_join is_abs path_clean path_dir order2 range2 cfg2 configPath2 hash2 name2
    run2 dir2 journal2 filter2 s = (Ok p2, s2) →
  (∀ n1 pn1 n2 pn2 port, assigned p1 n1 pn1 = Some port → assigned p2 n2 pn2 ≠ Some port) ∧
  (∀ r, r ∈ pj_Resources (pl_Project p1) → r ∉ pj_Resources (pl_Project p2)) ∧
  hash1 ≠ hash2.
Proof.
  intros Hne H1 Hkeep Hq Hv Hidle Hacq.
  pose proof (Acquire_owned me2 LeaseDir path_join is_abs path_clean path_dir order2 range2 cfg2 configPath2
    hash2 name2 run2 dir2 journal2 filter2 s p2 s2 Hv Hidle Hacq) as H2.
  assert (∀ path, path ∈ pl_leases p1 → path ∉ pl_leases p2) as Hdisj.
  { intros path Hin Hin2. apply (ow_leases _ _ _ (aq_owned _ _ _ _ _ _ _ _ _ _ _ _ _ H1)), Hkeep in Hin.
    apply (ow_leases _ _ _ (aq_owned _ _ _ _ _ _ _ _ _ _ _ _ _ H2)) in Hin2.
    unfold Acquire in Hacq. destruct (list_find _ _) as [[? ?]|]; [done|].
    destruct (acquire_body _ _ _ _ _ _ _ _ _ _ _ (_, s)) as [[u|e] [q s']] eqn:E; [|done].
    injection Hacq as <- <-.
    pose proof (keeps_acquire_body me2 me1 Hne LeaseDir path_join is_abs path_clean path_dir range2 cfg2
      hash2 name2 (TeardownNames order2 cfg2)
      (new_plan run2 dir2 journal2 configPath2 name2 cfg2
         (SelectedNames order2 cfg2 filter2 ++ TeardownNames order2 cfg2)) s Hq) as [_ [Hs _]].
    rewrite E in Hs. cbn in Hs. apply Hs in Hin. congruence. }
  destruct H1 as [_ G1 I1 [l1 R1] _ _ _ _], H2 as [_ G2 I2 [l2 R2] _ _ _ _]. split_and!.
  - intros n1 pn1 n2 pn2 port Ha1 Ha2. eapply Hdisj; [eapply (g_ports _ _ _ _ G1 _ _ _ Ha1)|eapply (g_ports _ _ _ _ G2 _ _ _ Ha2)].
  - intros r Hr1 Hr2. eapply Hdisj; [by eapply R1|by eapply R2].
  - intros ->. by eapply Hdisj.
Qed.

(** ** Handing ports to processes *)

Lemma ReleasePorts_step me port p s : owned me p s →
  let ps := match pl_held p !! port with
            | Some listener => (set_held (delete port (pl_held p)) p, release_port me listener s)
            | None => (p, s)
            end in
  owned me ps.1 ps.2 ∧ pl_leases ps.1 = pl_leases p ∧ os_locks ps.2 = os_locks s ∧
  pl_uses ps.1 = pl_uses p ∧ pl_held ps.1 = delete port (pl_held p).
Proof.
  intros Ho. destruct (pl_held p !! port) as [l|] eqn:E; cbn; [|by rewrite delete_id].
  split_and!; [|done|unfold release_port; by case_bool_decide|done|done].
  pose proof (ow_held _ _ _ Ho) as Hh. destruct Ho as [O1 O2 O3 O4].
  assert (os_bound s !! l = Some me) as Hl by (apply Hh; eauto).
  constructor; cbn.
  - intros path. rewrite <-O1. unfold release_port. by case_bool_decide.
  - intros port'. rewrite release_port_mine, O2 by done. split.
    + intros [Hne [key Hk]]. exists key. rewrite lookup_delete_ne; [done|]. intros <-. congruence.
    + intros [key Hk]. rewrite lookup_delete in Hk. case_decide; [done|]. split; [|eauto].
      intros ->. by assert (port = key) by (by eapply O3).
  - intros k1 k2 port' H1 H2. rewrite lookup_delete in H1, H2. repeat case_decide; try done. by eapply O3.
  - intros k port' H1. rewrite lookup_delete in H1. case_decide; [done|]. by apply O4.
Qed.

Lemma ReleasePorts_inv me name p s : owned me p s →
  let ps := ReleasePorts me name (p, s) in
  owned me ps.1 ps.2 ∧ pl_leases ps.1 = pl_leases p ∧ os_locks ps.2 = os_locks s ∧
  ∀ port, pl_held ps.1 !! port =
    if decide (port ∈ default [] (pl_uses p !! name)) then None else pl_held p !! port.
Proof.
  intros Ho. unfold ReleasePorts. cbn [fst]. generalize (default [] (pl_uses p !! name)) as l. intros l.
  revert p s Ho; induction l as [|x l IH]; intros p s Ho; cbn [fold_left].
  { split_and!; [done..|]. intros port. by rewrite decide_False by apply not_elem_of_nil. }
  cbn [fst snd]. pose proof (ReleasePorts_step me x p s Ho) as Hstep. cbv zeta in Hstep.
  set (ps := match pl_held p !! x with Some _ => _ | None => _ end) in *.
  destruct ps as [p1 s1]. cbn [fst snd] in Hstep. destruct Hstep as (Ho1 & Hl1 & Hs1 & _ & Hh1).
  destruct (IH p1 s1 Ho1) as (Ho' & Hl' & Hs' & Hh'). split_and!; [done|congruence|congruence|].
  intros port. rewrite Hh', Hh1, lookup_delete. rewrite decide_elem_of_cons.
  repeat case_decide; naive_solver.
Qed.

(** ** Resolving a configuration *)

(** No placeholder of the session's namespaces. *)
Definition resolved (v : string) : Prop :=
  ∀ ns, ns ∈ namespaces → str_contains ("${" +:+ ns) v = false.

Definition probe_fields (rw : option ReadyWhen) : list string :=
  match rw with Some rw => [rw_HTTP rw; rw_TCP rw; rw_Cmd rw] | None => [] end.

(** The values [Resolve] expands. *)
Definition expanded_fields (proc : Process) : list string :=
  [p_Cmd proc; p_Dir proc] ++ (map_to_list (p_Env proc)).*2 ++
  probe_fields (p_ReadyWhen proc) ++ probe_fields (p_HealthWhen proc).

Lemma elem_of_expanded_fields proc v : v ∈ expanded_fields proc ↔
  v = p_Cmd proc ∨ v = p_Dir proc ∨ (∃ k, p_Env proc !! k = Some v) ∨
  v ∈ probe_fields (p_ReadyWhen proc) ∨ v ∈ probe_fields (p_HealthWhen proc).
Proof.
  unfold expanded_fields. cbn [app]. rewrite !elem_of_cons, !elem_of_app, list_elem_of_fmap.
  assert ((∃ y, v = y.2 ∧ y ∈ map_to_list (p_Env proc)) ↔ ∃ k, p_Env proc !! k = Some v) as ->; [|done].
  split; [intros ([k x] & -> & Hk%elem_of_map_to_list); by exists k|].
  intros [k Hk]. exists (k, v). split; [done|]. by apply elem_of_map_to_list.
Qed.

Section resolving.
Context (path_join : string → string → string) (is_abs : string → bool) (path_dir : string → string).
Context (range : string → list string → list string) (Hrange : ∀ site l, range site l ≡ₚ l).

Lemma use_expand_inv order p value used r : use_expand order p value used = Ok r →
  resolved r.1 ∧ used ⊆ r.2 ∧ referencedPorts p value ⊆ r.2.
Proof.
  unfold use_expand. intros (v & Hv & [= <-])%res_bind_Ok. cbn. split_and!; [|set_solver..].
  intros ns Hns. unfold expand in Hv.
  destruct (list_find _ _) as [[i x]|] eqn:E; [done|]. injection Hv as <-.
  apply list_find_None in E. rewrite Forall_forall in E. by apply not_true_iff_false, E.
Qed.

Lemma context_inv {A} c (r : res string A) a : context c r = Ok a → r = Ok a.
Proof. destruct r; cbn; congruence. Qed.

Lemma expandProbe_inv site p probe used r : expandProbe range site p probe used = Ok r →
  used ⊆ r.2 ∧ Forall resolved (probe_fields r.1) ∧
  (∀ v, v ∈ probe_fields probe → referencedPorts p v ⊆ r.2).
Proof.
  unfold expandProbe. destruct probe as [rw|]; [|intros [= <-]; cbn; split_and!; [done|by constructor|by intros ? ?%not_elem_of_nil]].
  intros (a & (H1 & U1 & R1)%use_expand_inv & H)%res_bind_Ok.
  apply res_bind_Ok in H as (b & (H2 & U2 & R2)%use_expand_inv & H).
  apply res_bind_Ok in H as (c & (H3 & U3 & R3)%use_expand_inv & [= <-]). cbn.
  split_and!; [by do 2 (etrans; [eassumption|])|by repeat constructor|].
  intros v Hv. repeat apply elem_of_cons in Hv as [->|Hv]; [| | |by apply not_elem_of_nil in Hv].
  - etrans; [exact R1|]. by etrans.
  - by etrans.
  - done.
Qed.

Lemma expand_env_loop name p (env : gmap string string) l : ∀ (acc r : gmap string string * list Z),
  fold_res (λ (acc : gmap string string * list Z) key,
    v ← context ("process " +:+ quote name +:+ " env key " +:+ quote key)
          (use_expand (range (name +:+ "/env." +:+ key) (keys (pl_variables p))) p
             (default "" (env !! key)) acc.2);
    Ok (<[key := v.1]> acc.1, v.2)) l acc = Ok r →
  acc.2 ⊆ r.2 ∧ (∀ k, k ∉ l → r.1 !! k = acc.1 !! k) ∧
  (∀ k, k ∈ l → (∃ v, r.1 !! k = Some v ∧ resolved v) ∧ referencedPorts p (default "" (env !! k)) ⊆ r.2).
Proof.
  induction l as [|k l IH]; intros acc r; cbn [fold_res].
  { intros [= <-]. split_and!; [done|done|by intros ? ?%not_elem_of_nil]. }
  intros (a & (v & (Hv & Hu & Hr)%context_inv%use_expand_inv & [= <-])%res_bind_Ok & H)%res_bind_Ok.
  destruct (IH _ _ H) as (U & Hout & Hin). cbn in *. split_and!; [by etrans| |].
  - intros k' [Hne Hk']%not_elem_of_cons. rewrite Hout by done. by rewrite lookup_insert_ne.
  - intros k' Hk'. destruct (decide (k' ∈ l)) as [Hl|Hl]; [by apply Hin|].
    apply elem_of_cons in Hk' as [->|?]; [|done]. split; [|by etrans].
    rewrite Hout by done. rewrite lookup_insert_eq. by eexists.
Qed.

Lemma expand_env_inv name p env used r : expand_env range name p env used = Ok r →
  used ⊆ r.2 ∧ dom r.1 = dom env ∧ (∀ k v, r.1 !! k = Some v → resolved v) ∧
  (∀ k v, env !! k = Some v → referencedPorts p v ⊆ r.2).
Proof.
  intros (U & Hout & Hin)%expand_env_loop. cbn in *.
  assert (∀ k, k ∈ range (name +:+ "/env") (keys env) ↔ is_Some (env !! k)) as Hkeys
    by (intros k; by rewrite Hrange, elem_of_keys).
  assert (∀ k, is_Some (r.1 !! k) ↔ is_Some (env !! k)) as Hdom.
  { intros k. destruct (decide (k ∈ range (name +:+ "/env") (keys env))) as [Hk|Hk].
    - destruct (Hin k Hk) as [(v & -> & _) _]. apply Hkeys in Hk. split; [done|by eexists].
    - by rewrite Hout. }
  split_and!; [done| | |].
  - apply set_eq. intros k. by rewrite !elem_of_dom.
  - intros k v Hk. destruct (Hin k) as [(v' & Hk' & Hv') _]; [apply Hkeys, Hdom; by eexists|]. by simplify_eq.
  - intros k v Hk. destruct (Hin k) as [_ Hr]; [apply Hkeys; by eexists|]. by rewrite Hk in Hr.
Qed.

(** What one process comes out as. *)
Record resolution (p : Plan) (name : string) (proc q : Process) (used : list Z) : Prop := {
  rn_ports : p_Ports proc = default ∅ (pl_preferred p !! name);
  rn_cmd : resolved (p_Cmd q);
  rn_env : ∃ env, p_Env q = session_env p name env ∧ dom env = dom (p_Env proc) ∧
    ∀ k v, env !! k = Some v → resolved v;
  rn_dir : ∃ dir, p_Dir q = resolve_dir path_join is_abs path_dir p dir ∧ resolved dir;
  rn_ready : Forall resolved (probe_fields (p_ReadyWhen q));
  rn_health : Forall resolved (probe_fields (p_HealthWhen q));
  rn_same : p_Mode q = p_Mode proc ∧ p_Restart q = p_Restart proc ∧ p_DependsOn q = p_DependsOn proc ∧
    p_Ports q = p_Ports proc;
  rn_declared : ∀ pn port, assigned p name pn = Some port → port ∈ used;
  rn_merge : name = MergePortProcessName → pl_mergePort p ≠ 0%Z → pl_mergePort p ∈ used;
  rn_referenced : ∀ v port, v ∈ expanded_fields proc → port ∈ referencedPorts p v → port ∈ used;
}.

Lemma resolve_process_inv p name proc q used :
  resolve_process path_join is_abs path_dir range p name proc = Ok (q, used) → resolution p name proc q used.
Proof.
  unfold resolve_process. rewrite return_if_Ok, negb_false_iff, bool_decide_eq_true. intros [Hports H].
  set (used0 := (map_to_list _).*2) in H. set (used1 := if bool_decide (name = MergePortProcessName) && _ then _ else used0) in H.
  apply res_bind_Ok in H as (cmd & (C1 & C2 & C3)%context_inv%use_expand_inv & H).
  apply res_bind_Ok in H as (env & (E1 & E2 & E3 & E4)%expand_env_inv & H).
  apply res_bind_Ok in H as (dir & (D1 & D2 & D3)%context_inv%use_expand_inv & H).
  apply res_bind_Ok in H as (ready & (R1 & R2 & R3)%context_inv%expandProbe_inv & H).
  apply res_bind_Ok in H as (health & (H1 & H2 & H3)%context_inv%expandProbe_inv & [= <- <-]).
  assert (dir.2 ⊆ health.2) as Hd by (by etrans).
  assert (env.2 ⊆ health.2) as He by (by etrans).
  assert (cmd.2 ⊆ health.2) as Hc by (by etrans).
  assert (used1 ⊆ health.2) as Hu by (by etrans).
  assert (used0 ⊆ used1) as Hu0 by (unfold used1; destruct (bool_decide _ && _); set_solver).
  constructor; cbn; try done; [by exists env.1|by exists dir.1| | |].
  - intros pn port Ha. apply Hu, Hu0. unfold used0. unfold assigned in Ha.
    destruct (pj_Ports (pl_Project p) !! name) as [m|]; cbn in *; [|done].
    apply list_elem_of_fmap. exists (pn, port). split; [done|]. by apply elem_of_map_to_list.
  - intros -> Hne. apply Hu. unfold used1. rewrite bool_decide_true by done.
    rewrite (proj2 (Z.eqb_neq _ _)) by done. cbn. set_solver.
  - intros v port Hv%elem_of_expanded_fields Hp.
    destruct Hv as [->|[->|[[k Hk]|[Hv|Hv]]]].
    + by apply Hc, C3.
    + by apply Hd, D3.
    + by eapply He, E4.
    + by eapply H1, R3.
    + by eapply H3.
Qed.

Notation Resolve := (Resolve path_join is_abs path_dir range).

Lemma resolve_loop cfg p l : ∀ (acc r : gmap string Process * gmap string (list Z)),
  fold_res (λ (acc : gmap string Process * gmap string (list Z)) name,
    match c_Processes cfg !! name with
    | None => Ok acc
    | Some proc => r ← resolve_process path_join is_abs path_dir range p name proc;
                   Ok (<[name := r.1]> acc.1, <[name := r.2]> acc.2)
    end) l acc = Ok r →
  (∀ n, n ∉ l → r.1 !! n = acc.1 !! n) ∧
  (∀ n proc, n ∈ l → c_Processes cfg !! n = Some proc →
     ∃ q used, r.1 !! n = Some q ∧ r.2 !! n = Some used ∧ resolution p n proc q used) ∧
  (∀ n, n ∉ l → r.2 !! n = acc.2 !! n).
Proof.
  induction l as [|n l IH]; intros acc r; cbn [fold_res].
  { intros [= <-]. split_and!; [done|by intros ? ? ?%not_elem_of_nil|done]. }
  intros (a & Ha & H)%res_bind_Ok. destruct (IH _ _ H) as (Hout & Hin & Huse).
  destruct (c_Processes cfg !! n) as [proc|] eqn:Hn.
  - apply res_bind_Ok in Ha as ([q used] & Hq%resolve_process_inv & [= <-]). cbn in *. split_and!.
    + intros m [Hne Hm]%not_elem_of_cons. rewrite Hout by done. by rewrite lookup_insert_ne.
    + intros m proc' Hm Hp. destruct (decide (m ∈ l)) as [Hl|Hl]; [by eapply Hin|].
      apply elem_of_cons in Hm as [->|?]; [|done]. simplify_eq. exists q, used.
      rewrite Hout, Huse by done. by rewrite !lookup_insert_eq.
    + intros m [Hne Hm]%not_elem_of_cons. rewrite Huse by done. by rewrite lookup_insert_ne.
  - injection Ha as <-. split_and!.
    + intros m [_ Hm]%not_elem_of_cons. by apply Hout.
    + intros m proc [->|Hm]%elem_of_cons Hp; [congruence|by apply Hin].
    + intros m [_ Hm]%not_elem_of_cons. by apply Huse.
Qed.

Lemma elem_of_sort_compact (l : list Z) x : x ∈ sort_compact l ↔ x ∈ l.
Proof. unfold sort_compact. by rewrite elem_of_compact, merge_sort_Permutation. Qed.

Lemma Resolve_inv cfg p c p' : Resolve cfg p = Ok (c, p') →
  sameResources (pl_resources p) (c_Resources cfg) = true ∧
  (∀ m, c_Merge cfg = Some m → pl_mergePort p ≠ 0%Z → m_Port m = pl_mergePort p) ∧
  (∃ uses, p' = set_uses uses p) ∧
  (∀ n, n ∉ pl_names p → c_Processes c !! n = c_Processes cfg !! n) ∧
  (∀ n proc, n ∈ pl_names p → c_Processes cfg !! n = Some proc →
     ∃ q used, c_Processes c !! n = Some q ∧ resolution p n proc q used ∧
       used ⊆ default [] (pl_uses p' !! n)) ∧
  (∀ n, default [] (pl_uses p !! n) ⊆ default [] (pl_uses p' !! n)).
Proof.
  unfold Session.Resolve. rewrite !return_if_Ok, negb_false_iff. intros (Hr & Hm & H).
  apply res_bind_Ok in H as (r & (Hout & Hin & Huse)%resolve_loop & [= <- <-]). cbn [c_Processes pl_uses set_uses].
  assert (∀ n used, r.2 !! n = Some used →
    merge_uses (pl_uses p) r.2 !! n = Some (sort_compact (default [] (pl_uses p !! n) ++ used))) as Hmu.
  { intros n used Hn. unfold merge_uses. rewrite lookup_union, map_lookup_imap, Hn. cbn.
    by destruct (pl_uses p !! n). }
  split_and!; [done| |by eexists|done| |].
  - intros m Hcm Hne. rewrite Hcm, (proj2 (Z.eqb_neq _ _) Hne) in Hm. cbn in Hm.
    by apply negb_false_iff, Z.eqb_eq in Hm.
  - intros n proc Hn Hp. destruct (Hin n proc Hn Hp) as (q & used & H1 & H2 & H3).
    exists q, used. split_and!; [done|done|]. rewrite (Hmu _ _ H2). cbn.
    intros x Hx. apply elem_of_sort_compact. set_solver.
  - intros n. destruct (r.2 !! n) as [used|] eqn:Hn.
    + rewrite (Hmu _ _ Hn). cbn. intros x Hx. apply elem_of_sort_compact. set_solver.
    + unfold merge_uses. rewrite lookup_union, map_lookup_imap, Hn. cbn. by destruct (pl_uses p !! n).
Qed.

(** A resolved configuration is one the session can run: nothing the
    session leased has changed (the set of resources, the merge port, the named
    ports), no process outside the session is touched, and in every process of
    the session no placeholder is left in its command, its variables, its
    directory or its probes, while its mode, its restart policy, its
    dependencies and its ports are as written; the ports a process may use are
    never forgotten. *)
Theorem Resolve_sound cfg p c p' : Resolve cfg p = Ok (c, p') →
  (pl_resources p ≡ₚ c_Resources cfg ∧
   ∀ m, c_Merge cfg = Some m → pl_mergePort p ≠ 0%Z → m_Port m = pl_mergePort p) ∧
  (∀ n, n ∉ pl_names p → c_Processes c !! n = c_Processes cfg !! n) ∧
  (∀ n proc, n ∈ pl_names p → c_Processes cfg !! n = Some proc →
     ∃ q used, c_Processes c !! n = Some q ∧ resolution p n proc q used) ∧
  (∀ n, default [] (pl_uses p !! n) ⊆ default [] (pl_uses p' !! n)).
Proof.
  intros (Hr & Hm & _ & Hout & Hin & Hgrow)%Resolve_inv. split_and!; [|done|done| |done].
  - apply bool_decide_eq_true in Hr. by rewrite <-(sort_strings_perm (pl_resources p)), Hr, sort_strings_perm.
  - intros n proc Hn Hp. destruct (Hin n proc Hn Hp) as (q & used & ? & ? & _). eauto.
Qed.

(** A process finds its ports free.  Right before it is launched, every
    port it declares, every port one of its expanded fields refers to, and for
    the proxy the merge port, is no longer held by the session; its leases and
    the ports it does not use stay held. *)
Theorem ReleasePorts_frees me cfg p c p' s name proc :
  owned me p s → pl_held p !! 0%Z = None → Resolve cfg p = Ok (c, p') →
  name ∈ pl_names p → c_Processes cfg !! name = Some proc →
  let ps := ReleasePorts me name (p', s) in
  (∀ port, (∃ pn, assigned p name pn = Some port) ∨
           (∃ v, v ∈ expanded_fields proc ∧ port ∈ referencedPorts p v) ∨
           (name = MergePortProcessName ∧ pl_mergePort p ≠ 0%Z ∧ port = pl_mergePort p) →
     os_bound ps.2 !! port ≠ Some me) ∧
  (∀ port, port ∉ default [] (pl_uses p' !! name) → os_bound s !! port = Some me →
     os_bound ps.2 !! port = Some me) ∧
  os_locks ps.2 = os_locks s ∧ owned me ps.1 ps.2.
Proof.
  intros Ho H0 (_ & _ & [uses ->] & _ & Hin & _)%Resolve_inv Hn Hp. cbn zeta.
  destruct (Hin name proc Hn Hp) as (q & used & _ & Hres & Hused).
  assert (owned me (set_uses uses p) s) as Ho' by (by apply owned_eq with p).
  destruct (ReleasePorts_inv me name _ s Ho') as (Hops & _ & Hl & Hh).
  set (ps := ReleasePorts me name (set_uses uses p, s)) in *. cbn [pl_held set_uses] in Hh.
  split_and!; [| |done|done].
  - intros port Hport Hb. assert (port ∈ used) as Hin'.
    { destruct Hport as [[pn Ha]|[(v & Hv & Hr)|(-> & Hm & ->)]];
        [by eapply rn_declared|by eapply rn_referenced|by eapply rn_merge]. }
    apply (ow_held _ _ _ Hops) in Hb as [key Hk]. rewrite Hh in Hk. case_decide as Hd; [done|].
    destruct (ow_range _ _ _ Ho _ _ Hk) as [_ [->| ->]]; [by apply Hd, Hused|congruence].
  - intros port Hport Hb. apply (ow_held _ _ _ Ho) in Hb as [key Hk].
    apply (ow_held _ _ _ Hops). exists key. rewrite Hh.
    destruct (ow_range _ _ _ Ho _ _ Hk) as [_ [->| ->]]; [by rewrite decide_False|congruence].
Qed.
End resolving.

(** ** The plan of a configuration and the session agree *)

Lemma splitReference_other ref ns n pn : ns ∈ ["ports"; "urls"] → ref = ref_name ns n pn →
  ∃ process port, splitReference ref = (ns, process, port, true).
Proof.
  intros Hns ->. unfold splitReference, ref_name.
  assert (str_mem dot ns = false) as Hd by (apply elem_of_cons in Hns as [->|[->|[]%elem_of_nil]%elem_of_cons]; done).
  rewrite (proj2 (cut_byte_Some dot (ns +:+ "." +:+ n +:+ "." +:+ pn) ns (n +:+ "." +:+ pn)) (conj eq_refl Hd)).
  destruct (cut_last dot (n +:+ "." +:+ pn)) as [[x y]|] eqn:E; [by exists x, y|].
  apply cut_last_None in E. pose proof (str_mem_mid dot n pn) as Hmid.
  change (String dot pn) with ("." +:+ pn) in Hmid. congruence.
Qed.

(** The static plan and the running session agree on what can be resolved:
    a reference of one of the placeholder namespaces is reported resolvable for
    the selected processes exactly when the acquired session has a value for
    it. *)
Theorem plan_session_agree me LeaseDir path_join path_dir order cfg configPath hash name directory filter p s ref :
  Acquired me LeaseDir path_join path_dir order cfg configPath hash name directory filter p s →
  is_Some (pl_variables p !! ref) ↔
  referenceResolvable cfg ref (list_to_set (pl_names p)) = true.
Proof.
  intros [_ [_ _ _ Gdot [V1 V2 V3]] _ _ _ Ha Hb _]. unfold referenceResolvable.
  assert (∀ ns n pn, ns ∈ ["ports"; "urls"] → str_mem dot pn = false →
    is_Some (pl_variables p !! ref_name ns n pn) ↔
    n ∈ pl_names p ∧ is_Some (p_Ports (proc_at (c_Processes cfg) n) !! pn)) as Hports.
  { intros ns n pn Hns Hpn. transitivity (is_Some (assigned p n pn)).
    - apply elem_of_cons in Hns as [->|[->|[]%elem_of_nil]%elem_of_cons]; rewrite ?V1, ?V2 by done; apply fmap_is_Some.
    - split; [intros [port Hp]; by eapply Hb|]. intros [Hn Hp]. destruct (Ha n pn Hn Hp) as (port & -> & _). by eexists. }
  case_bool_decide as H4.
  - split; [done|]. intros _. rewrite V3.
    + unfold session_variables. repeat apply elem_of_cons in H4 as [->|H4]; [..|by apply not_elem_of_nil in H4];
        vm_compute; eauto.
    + intros n pn. repeat apply elem_of_cons in H4 as [->|H4]; [..|by apply not_elem_of_nil in H4]; done.
  - destruct (splitReference ref) as [[[ns process] port] ok] eqn:Hs.
    destruct (negb ok || (negb (bool_decide (ns = "ports")) && negb (bool_decide (ns = "urls")))) eqn:Hc.
    + split; [|done]. intros Hv. exfalso. rewrite V3 in Hv.
      * destruct Hv as [v Hv]. apply H4. unfold session_variables in Hv.
        repeat (apply lookup_insert_Some in Hv as [[<- _]|[_ Hv]]; [set_solver|]).
        apply lookup_singleton_Some in Hv as [<- _]. set_solver.
      * assert (∀ ns', ns' ∈ ["ports"; "urls"] → ∀ n pn, ref ≠ ref_name ns' n pn) as Hno.
        { intros ns' Hns' n pn He. destruct (splitReference_other ref ns' n pn Hns' He) as (x & y & Hs').
          rewrite Hs' in Hs. injection Hs as -> -> -> <-. cbn in Hc.
          apply elem_of_cons in Hns' as [->|[->|[]%elem_of_nil]%elem_of_cons]; done. }
        intros n pn. split; apply Hno; set_solver.
    + apply orb_false_iff in Hc as [Hok%negb_false_iff Hns]. subst ok.
      apply splitReference_inv in Hs as (-> & _ & Hdot).
      assert (ns ∈ ["ports"; "urls"]) as Hin.
      { apply andb_false_iff in Hns as [Hns|Hns]; apply negb_false_iff, bool_decide_eq_true in Hns as ->; set_solver. }
      rewrite (Hports ns process port Hin Hdot), andb_true_iff, !bool_decide_eq_true, elem_of_list_to_set. done.
Qed.

(** ** Witnesses *)

Definition ex_process : Process :=
  mkProcess "serve -p ${ports.api.http}" "" "" {["NAME" := "${session.name}"]} "service" "never" 0 0 None 0 []
    {["http" := 8080%Z]} None 0 "" "".

Definition ex_cfg (label : string) : Config := mkConfig None {["api" := ex_process]} [label].

(** Another program takes the preferred port right before it is asked for. *)
Definition ex_os : os :=
  mkOs ∅ ∅ (replicate 7 (mkCall [] None 0) ++ [mkCall [TakePort 7 8080] None 0]).

Definition ex_join (a b : string) : string := a +:+ "/" +:+ b.

Definition ex_acquire (me : nat) (hash label : string) (s : os) : res session_error Plan * os :=
  Acquire me "/leases" ex_join (λ _, true) (λ s, s) (λ _, "/srv") ["api"] (λ _ l, l)
    (ex_cfg label) "/srv/pc.yml" hash "" "run" "/run/d" "/run/j" [] s.

Definition ex_plan (r : res session_error Plan * os) : Plan :=
  match r with (Ok p, _) => p | (Err _, _) => new_plan "" "" "" "" "" (ex_cfg "") [] end.

Definition ex_Acquired (me : nat) (hash label : string) : Plan → os → Prop :=
  Acquired me "/leases" ex_join (λ _, "/srv") ["api"] (ex_cfg label) "/srv/pc.yml" hash "" "/run/d" [].

Lemma ex_valid label : ports_valid (ex_cfg label).
Proof.
  intros n p pn port Hn Hp. unfold ex_cfg in Hn. cbn [c_Processes] in Hn.
  apply lookup_singleton_Some in Hn as [<- <-]. unfold ex_process in Hp. cbn [p_Ports] in Hp.
  apply lookup_singleton_Some in Hp as [<- <-]. split; [done|lia].
Qed.

Lemma ex_idle : idle 1 ex_os.
Proof. by split. Qed.

Lemma ex_first : ex_Acquired 1 "h1" "db" (ex_plan (ex_acquire 1 "h1" "db" ex_os)) (ex_acquire 1 "h1" "db" ex_os).2.
Proof.
  unfold ex_Acquired, ex_acquire.
  pose proof (Acquire_spec 1 "/leases" ex_join (λ _, true) (λ s, s) (λ _, "/srv") ["api"] (λ _ l, l)
    (ex_cfg "db") "/srv/pc.yml" "h1" "" "run" "/run/d" "/run/j" [] ex_os (ex_valid _) ex_idle) as H.
  destruct (Acquire _ _ _ _ _ _ _ _ _ _ _ _ _ _ _ _ ex_os) as [[p|e] s] eqn:E; [exact H|].
  exfalso. vm_compute in E. discriminate E.
Qed.

Lemma Acquire_all_or_nothing_witness :
  match ex_acquire 1 "h1" "db" ex_os with
  | (Ok p, s') => ex_Acquired 1 "h1" "db" p s'
  | (Err _, s') => idle 1 s'
  end ∧ assigned (ex_plan (ex_acquire 1 "h1" "db" ex_os)) "api" "http" = Some 8081%Z.
Proof.
  split; [|vm_compute; reflexivity].
  apply (Acquire_all_or_nothing 1 "/leases" ex_join (λ _, true) (λ s, s) (λ _, "/srv") ["api"] (λ _ l, l)
    (ex_cfg "db") "/srv/pc.yml" "h1" "" "run" "/run/d" "/run/j" [] ex_os); [apply ex_valid|apply ex_idle].
Defined.

Lemma sessions_disjoint_witness :
  let r1 := ex_acquire 1 "h1" "db" ex_os in
  let r2 := ex_acquire 2 "h2" "cache" r1.2 in
  assigned (ex_plan r2) "api" "http" = Some 8082%Z ∧
  (∀ n1 pn1 n2 pn2 port, assigned (ex_plan r1) n1 pn1 = Some port → assigned (ex_plan r2) n2 pn2 ≠ Some port) ∧
  (∀ r, r ∈ pj_Resources (pl_Project (ex_plan r1)) → r ∉ pj_Resources (pl_Project (ex_plan r2))) ∧
  "h1" ≠ "h2".
Proof.
  intros r1 r2. split; [vm_compute; reflexivity|].
  apply (sessions_disjoint 1 2 "/leases" ex_join (λ _, true) (λ s, s) (λ _, "/srv")
    ["api"] (ex_cfg "db") "/srv/pc.yml" "h1" "" "/run/d" [] (ex_plan r1) r1.2
    ["api"] (λ _ l, l) (ex_cfg "cache") "/srv/pc.yml" "h2" "" "run" "/run/d" "/run/j" [] (ex_plan r2) r1.2 r2.2).
  - discriminate.
  - apply ex_first.
  - done.
  - vm_compute. constructor.
  - apply ex_valid.
  - split; intros x H.
    + assert (map_Forall (λ _ o, o ≠ 2) (os_locks r1.2)) as Hf
        by (apply (bool_decide_unpack (map_Forall (λ _ o, o ≠ 2) (os_locks r1.2))); vm_compute; exact I).
      by apply (Hf x 2).
    + assert (map_Forall (λ _ o, o ≠ 2) (os_bound r1.2)) as Hf
        by (apply (bool_decide_unpack (map_Forall (λ _ o, o ≠ 2) (os_bound r1.2))); vm_compute; exact I).
      by apply (Hf x 2).
  - vm_compute. reflexivity.
Defined.

Definition ex_resolve : res session_error (Config * Plan) :=
  Resolve ex_join (λ _, true) (λ _, "/srv") (λ _ l, l) (ex_cfg "db") (ex_plan (ex_acquire 1 "h1" "db" ex_os)).

Definition ex_resolved : Config * Plan :=
  match ex_resolve with Ok r => r | Err _ => (ex_cfg "", ex_plan (ex_acquire 1 "h1" "db" ex_os)) end.

Lemma Resolve_sound_witness :
  let p := ex_plan (ex_acquire 1 "h1" "db" ex_os) in
  ∃ q used, c_Processes ex_resolved.1 !! "api" = Some q ∧
    resolution ex_join (λ _, true) (λ _, "/srv") p "api" ex_process q used ∧ p_Cmd q = "serve -p 8081".
Proof.
  intros p. destruct (Resolve_sound ex_join (λ _, true) (λ _, "/srv") (λ _ l, l) (λ _ l, Permutation_refl l)
    (ex_cfg "db") p ex_resolved.1 ex_resolved.2) as (_ & _ & H & _); [vm_compute; reflexivity|].
  destruct (H "api" ex_process) as (q & used & Hq & Hr);
    [vm_compute; apply list_elem_of_here|vm_compute; reflexivity|].
  exists q, used. split; [exact Hq|]. split; [exact Hr|]. vm_compute in Hq. by injection Hq as <-.
Defined.

Lemma ReleasePorts_frees_witness :
  let p := ex_plan (ex_acquire 1 "h1" "db" ex_os) in
  let s := (ex_acquire 1 "h1" "db" ex_os).2 in
  os_bound s !! 8081%Z = Some 1 ∧ os_bound (ReleasePorts 1 "api" (ex_resolved.2, s)).2 !! 8081%Z ≠ Some 1.
Proof.
  intros p s. split; [vm_compute; reflexivity|].
  destruct (ReleasePorts_frees ex_join (λ _, true) (λ _, "/srv") (λ _ l, l) (λ _ l, Permutation_refl l)
    1 (ex_cfg "db") p ex_resolved.1 ex_resolved.2 s "api" ex_process) as (H & _).
  - apply (aq_owned _ _ _ _ _ _ _ _ _ _ _ _ _ ex_first).
  - vm_compute. reflexivity.
  - vm_compute. reflexivity.
  - vm_compute. apply list_elem_of_here.
  - vm_compute. reflexivity.
  - apply H. left. exists "http". vm_compute. reflexivity.
Defined.

Lemma plan_session_agree_witness :
  let p := ex_plan (ex_acquire 1 "h1" "db" ex_os) in
  is_Some (pl_variables p !! "ports.api.http") ↔
  referenceResolvable (ex_cfg "db") "ports.api.http" (list_to_set (pl_names p)) = true.
Proof. intros p. exact (plan_session_agree _ _ _ _ _ _ _ _ _ _ _ _ _ "ports.api.http" ex_first). Defined.
