(* ===== verification/LogQuery.v ===== *)
(** * Paging through the event journal

    [Query] reads one bounded page of the journal's events, from a cursor or at
    its end.  The files of the journal are an argument: for each query, what
    [snapshotFiles] pinned, as names and bytes.  So are the JSON decoding of a
    record, the size of its encoding and [strings.ToLower].  The loop of the
    [logs] command over pages is here too. *)

From S2P Require Import Prelude GoStrings Ipc.

(** ** UTF-8 *)

Definition byte_in (lo hi : nat) (s : string) : option string :=
  match s with
  | String c t => if in_range lo hi c then Some t else None
  | EmptyString => None
  end.

(** The rest of [s] after its first code point, if it starts with a valid one. *)
Definition rune (s : string) : option string :=
  match s with
  | EmptyString => None
  | String c t =>
      if in_range 0 127 c then Some t
      else if in_range 194 223 c then byte_in 128 191 t
      else if in_range 224 224 c then byte_in 160 191 t ≫= byte_in 128 191
      else if in_range 225 236 c || in_range 238 239 c then byte_in 128 191 t ≫= byte_in 128 191
      else if in_range 237 237 c then byte_in 128 159 t ≫= byte_in 128 191
      else if in_range 240 240 c then (byte_in 144 191 t ≫= byte_in 128 191) ≫= byte_in 128 191
      else if in_range 241 243 c then (byte_in 128 191 t ≫= byte_in 128 191) ≫= byte_in 128 191
      else if in_range 244 244 c then (byte_in 128 143 t ≫= byte_in 128 191) ≫= byte_in 128 191
      else None
  end.

(** [utf8.ValidString]; the fuel is the length, since a code point is not empty. *)
Fixpoint utf8_from (fuel : nat) (s : string) : bool :=
  match s, fuel with
  | EmptyString, _ => true
  | _, O => false
  | _, S fuel => match rune s with Some t => utf8_from fuel t | None => false end
  end.

Definition ValidString (s : string) : bool := utf8_from (String.length s) s.

(** ** Options and pages *)

(** [MaxEventBytes] bounds one record.
    Source: internal/ipc/ipc.go:13-19 (MaxEventBytes). *)
Definition MaxEventBytes : Z := 16 * 2 ^ 20.

(** Source: internal/logs/query.go:23-52 (Options). *)
Record Options : Type := mkOptions {
  op_Limit : Z;
  op_MaxBytes : Z;
  op_After : string;
  op_Tail : bool;
  op_Processes : list string;
  op_Level : string;
  op_Kind : string;
  op_Code : string;
  op_Stream : string;
  op_Search : string;
  op_Since : Z;
  op_RunID : string;
  op_AttemptID : string;
  op_Generation : Z;
}.

Definition set_window (limit maxBytes : Z) (after : string) (tail : bool) (o : Options) : Options :=
  mkOptions limit maxBytes after tail (op_Processes o) (op_Level o) (op_Kind o) (op_Code o) (op_Stream o)
    (op_Search o) (op_Since o) (op_RunID o) (op_AttemptID o) (op_Generation o).

(** Source: internal/logs/query.go:54-62 (Page). *)
Record Page : Type := mkPage {
  pg_Events : list LogEntry;
  pg_NextCursor : string;
  pg_HasMore : bool;
  pg_Gap : bool;
  pg_Truncated : bool;
  pg_EventBytes : Z;
}.

Definition set_NextCursor (x : string) (p : Page) : Page :=
  mkPage (pg_Events p) x (pg_HasMore p) (pg_Gap p) (pg_Truncated p) (pg_EventBytes p).
Definition set_HasMore (x : bool) (p : Page) : Page :=
  mkPage (pg_Events p) (pg_NextCursor p) x (pg_Gap p) (pg_Truncated p) (pg_EventBytes p).
Definition set_Gap (x : bool) (p : Page) : Page :=
  mkPage (pg_Events p) (pg_NextCursor p) (pg_HasMore p) x (pg_Truncated p) (pg_EventBytes p).

(** ** Bounding one event *)

Definition set_Line (x : string) (e : LogEntry) : LogEntry :=
  mkLogEntry (le_Version e) (le_ID e) (le_RunID e) (le_AttemptID e) (le_Sequence e) (le_Session e)
    (le_Time e) (le_Process e) x (le_Kind e) (le_Level e) (le_Code e) (le_Stream e) (le_PID e)
    (le_Generation e) (le_State e) (le_Truncated e) (le_OriginalBytes e) (le_IsEvent e) (le_IsError e).

(** The copy that may be shortened: marked, without its state.
    Source: internal/logs/query.go:326-330 (fit, mark). *)
Definition mark_truncated (e : LogEntry) : LogEntry :=
  mkLogEntry (le_Version e) (le_ID e) (le_RunID e) (le_AttemptID e) (le_Sequence e) (le_Session e)
    (le_Time e) (le_Process e) (le_Line e) (le_Kind e) (le_Level e) (le_Code e) (le_Stream e) (le_PID e)
    (le_Generation e) None true
    (if (le_OriginalBytes e =? 0)%Z then str_len (le_Line e) else le_OriginalBytes e)
    (le_IsEvent e) (le_IsError e).

(** The longest valid prefix of the first [n] bytes.
    Source: internal/logs/query.go:348-350 (fit, trim). *)
Fixpoint valid_prefix (n : nat) (s : string) : string :=
  match n with
  | O => ""
  | S m => let p := str_take n s in if ValidString p then p else valid_prefix m s
  end.

Section query.
(** [len(json.Marshal(event))], the decoding of a record and [strings.ToLower]. *)
Context (encoded : LogEntry → Z) (decode : string → res string LogEntry) (ToLower : string → string).

(** The binary search of [fit]: the largest prefix length that fits.
    Source: internal/logs/query.go:332-346 (fit, search). *)
Fixpoint fit_search (fuel : nat) (event : LogEntry) (budget : Z) (low high : nat) : nat :=
  match fuel with
  | O => low
  | S fuel =>
      if low <? high then
        let middle := (low + high + 1) / 2 in
        if (encoded (set_Line (valid_prefix middle (le_Line event)) event) <=? budget)%Z
        then fit_search fuel event budget middle high
        else fit_search fuel event budget low (middle - 1)
      else low
  end.

(** Source: internal/logs/query.go:316-356 (fit). *)
Definition fit (event : LogEntry) (budget : Z) : res string (LogEntry * Z) :=
  if (encoded event <=? budget)%Z then Ok (event, encoded event)
  else
    let event := mark_truncated event in
    let message := le_Line event in
    let low := fit_search (String.length message) event budget 0 (String.length message) in
    let event := set_Line (valid_prefix low message) event in
    if (budget <? encoded event)%Z then Err "log event metadata exceeds the byte budget"
    else Ok (event, encoded event).

(** ** Filters *)

(** Source: internal/logs/query.go:292-314 (matches). *)
Definition matches (event : LogEntry) (opts : Options) : bool :=
  let unset_or x y := bool_decide (x = "") || bool_decide (x = y) in
  if negb (bool_decide (op_Processes opts = [])) && negb (bool_decide (le_Process event ∈ op_Processes opts))
  then false
  else
    unset_or (op_Level opts) (le_Level event) && unset_or (op_Kind opts) (le_Kind event) &&
    unset_or (op_Code opts) (le_Code event) && unset_or (op_Stream opts) (le_Stream event) &&
    unset_or (op_RunID opts) (le_RunID event) && unset_or (op_AttemptID opts) (le_AttemptID event) &&
    ((op_Generation opts =? 0)%Z || (op_Generation opts =? le_Generation event)%Z) &&
    ((op_Since opts =? 0)%Z || (op_Since opts <=? le_Time event)%Z) &&
    (bool_decide (op_Search opts = "") || str_contains (ToLower (op_Search opts)) (ToLower (le_Line event))).

(** ** Records *)

(** The complete lines, and what follows the last newline.
    Source: internal/logs/query.go:285-290 (completeLines). *)
Fixpoint completeLines (s : string) : list string * string :=
  match s with
  | EmptyString => ([], "")
  | String c t =>
      let '(lines, rest) := completeLines t in
      if bool_decide (c = chr 10) then ("" :: lines, rest)
      else match lines with
           | [] => ([], String c rest)
           | line :: lines => (String c line :: lines, rest)
           end
  end.

Definition token_too_long : string := "bufio.Scanner: token too long".

(** Source: internal/logs/query.go:107-115 (Query, record). *)
Definition record_of (name line : string) : res string LogEntry :=
  if (MaxEventBytes <=? str_len line)%Z then Err token_too_long
  else match decode line with
       | Err err => Err ("invalid journal record in " +:+ name +:+ ": " +:+ err)
       | Ok event =>
           if negb (le_Version event =? 1)%Z || bool_decide (le_ID event = "")
           then Err ("unsupported journal event schema in " +:+ name)
           else Ok event
       end.

(** The records of one file in order; the first error ends the query.
    Source: internal/logs/query.go:101-115 (Query, scanner). *)
Definition file_records (file : string * string) : list (res string LogEntry) :=
  let '(name, content) := file in
  let '(lines, rest) := completeLines content in
  (record_of name <$> lines) ++
  (if (MaxEventBytes <=? str_len rest)%Z then [Err token_too_long] else []).

(** ** One page *)

(** [previous] is the entry before, whose zero value has no sequence number. *)
Record qstate : Type := mkQ {
  q_page : Page;
  q_sizes : list Z;
  q_previous : LogEntry;
  q_found : bool;
}.

(** Dropping the oldest events of a tail page.
    Source: internal/logs/query.go:141-146 (Query, tail loop). *)
Fixpoint drop_tail (limit maxBytes : Z) (events : list LogEntry) (sizes : list Z) (bytes : Z)
    (truncated : bool) : list LogEntry * list Z * Z * bool :=
  match events, sizes with
  | _ :: events', size :: sizes' =>
      if (limit <? Z.of_nat (length events))%Z || (maxBytes <? bytes)%Z
      then drop_tail limit maxBytes events' sizes' (bytes - size) true
      else (events, sizes, bytes, truncated)
  | _, _ => (events, sizes, bytes, truncated)
  end.

(** What the loop body does: go on, or return. *)
Inductive turn : Type :=
  | Next (st : qstate)
  | Return (p : Page) (err : option string).

(** Source: internal/logs/query.go:131-149 (Query, tail). *)
Definition tail_event (opts : Options) (st : qstate) (event : LogEntry) : turn :=
  let page := q_page st in
  match fit event (op_MaxBytes opts) with
  | Err err => Return page (Some err)
  | Ok (bounded, size) =>
      let '(events, sizes, bytes, truncated) :=
        drop_tail (op_Limit opts) (op_MaxBytes opts) (pg_Events page ++ [bounded]) (q_sizes st ++ [size])
          (pg_EventBytes page + size) (pg_Truncated page || le_Truncated bounded) in
      Next (mkQ (mkPage events (le_ID event) (pg_HasMore page) (pg_Gap page) truncated bytes)
              sizes (q_previous st) true)
  end.

(** Source: internal/logs/query.go:150-169 (Query, forward). *)
Definition forward_event (opts : Options) (st : qstate) (event : LogEntry) : turn :=
  let page := q_page st in
  if (Z.of_nat (length (pg_Events page)) =? op_Limit opts)%Z then Return (set_HasMore true page) None
  else
    let remaining := (op_MaxBytes opts - pg_EventBytes page)%Z in
    if (remaining <? 1024)%Z && (0 <? length (pg_Events page)) then Return (set_HasMore true page) None
    else match fit event remaining with
         | Err err => Return page (Some err)
         | Ok (bounded, size) =>
             Next (mkQ (mkPage (pg_Events page ++ [bounded]) (le_ID event) (pg_HasMore page) (pg_Gap page)
                          (pg_Truncated page || le_Truncated bounded) (pg_EventBytes page + size))
                     (q_sizes st) (q_previous st) true)
         end.

(** A hole in the sequence numbers of a run.
    Source: internal/logs/query.go:116-118 (Query, gap). *)
Definition gap_page (previous event : LogEntry) (page : Page) : Page :=
  if bool_decide (le_RunID previous = le_RunID event) && negb (le_Sequence previous =? 0)%Z
     && negb (le_Sequence event =? (le_Sequence previous + 1) mod 2 ^ 64)%Z
  then set_Gap true page else page.

(** Source: internal/logs/query.go:107-170 (Query, loop body). *)
Definition query_event (opts : Options) (st : qstate) (r : res string LogEntry) : turn :=
  match r with
  | Err err => Return (q_page st) (Some err)
  | Ok event =>
      let page := gap_page (q_previous st) event (q_page st) in
      let st := mkQ page (q_sizes st) event (q_found st) in
      if negb (q_found st) then
        if bool_decide (le_ID event = op_After opts)
        then Next (mkQ (set_NextCursor (le_ID event) page) (q_sizes st) event true) else Next st
      else if negb (matches event opts)
      then Next (mkQ (set_NextCursor (le_ID event) page) (q_sizes st) event true)
      else if op_Tail opts then tail_event opts st event
      else forward_event opts st event
  end.

(** The loop: the page, the error, and whether the cursor was found.
    Source: internal/logs/query.go:99-176 (Query, loop). *)
Fixpoint query_loop (opts : Options) (st : qstate) (l : list (res string LogEntry))
    : Page * option string * bool :=
  match l with
  | [] => (q_page st, None, q_found st)
  | r :: l => match query_event opts st r with
              | Next st => query_loop opts st l
              | Return page err => (page, err, true)
              end
  end.

(** [strconv.ParseUint] succeeds. *)
Definition is_uint64 (s : string) : bool := if parse_uint64 s then true else false.

(** Source: internal/logs/query.go:75-83 (Query, cursor). *)
Definition cursor_ok (after : string) : bool :=
  bool_decide (after = "") || bool_decide (after = "start") ||
  match cut_byte ":"%char after with
  | Some (run, sequence) =>
      negb (bool_decide (run = "")) && negb (str_mem ":" sequence) && is_uint64 sequence
  | None => false
  end.

Definition empty_page (cursor : string) : Page := mkPage [] cursor false false false 0.

(** The defaults and the limits.
    Source: internal/logs/query.go:64-74 (Query, limits). *)
Definition effective (opts : Options) : Options :=
  set_window (if (op_Limit opts =? 0)%Z then 50 else op_Limit opts)%Z
    (if (op_MaxBytes opts =? 0)%Z then 64 * 1024 else op_MaxBytes opts)%Z
    (op_After opts) (op_Tail opts) opts.

Definition limits_ok (opts : Options) : bool :=
  negb ((op_Limit opts <? 1)%Z || (1000 <? op_Limit opts)%Z ||
        (op_MaxBytes opts <? 1024)%Z || (2 ^ 20 <? op_MaxBytes opts)%Z).

(** A query on the snapshot it takes; the flag is [found] after the loop.
    Source: internal/logs/query.go:64-176 (Query, before the fallback). *)
Definition query_snapshot (opts : Options) (files : res string (list (string * string)))
    : Page * option string * bool :=
  let page := empty_page (op_After opts) in
  let opts := effective opts in
  if negb (limits_ok opts)
  then (page, Some "log pages require 1..1000 events and 1024..1048576 event bytes", true)
  else if negb (cursor_ok (op_After opts)) then (page, Some "invalid log cursor", true)
  else
    let found := bool_decide (op_After opts = "") || bool_decide (op_After opts = "start") in
    let page := if bool_decide (op_After opts = "start") then empty_page "" else page in
    match files with
    | Err err => (page, Some err, true)
    | Ok files => query_loop opts (mkQ page [] zero_entry found) (mjoin (file_records <$> files))
    end.

(** The fallback, when the cursor is not in the journal, takes a snapshot of
    its own.
    Source: internal/logs/query.go:64-184 (Query). *)
Definition Query (opts : Options) (files fallback : res string (list (string * string)))
    : Page * option string :=
  let '(page, err, found) := query_snapshot opts files in
  if found then (page, err)
  else
    let opts := effective opts in
    let '(page, err, _) := query_snapshot (set_window (op_Limit opts) (op_MaxBytes opts) "" true opts) fallback in
    (set_Gap true page, err).

(** ** The pages of the [logs] command *)

(** The next query of the loop.
    Source: cmd/proc-compose/logs.go:90-93 (newLogsCommand, next page). *)
Definition next_options (opts : Options) (page : Page) : Options :=
  set_window (op_Limit opts) (op_MaxBytes opts)
    (if bool_decide (pg_NextCursor page = "") then "start" else pg_NextCursor page) false opts.

(** The window the command starts with: with [-n 0] the whole history, and the
    tail unless a cursor is given.
    Source: cmd/proc-compose/logs.go:53-57 (newLogsCommand, window). *)
Definition first_options (opts : Options) : Options * bool :=
  let tail := bool_decide (op_After opts = "") in
  if (op_Limit opts =? 0)%Z then (set_window 1000 (op_MaxBytes opts) "start" false opts, true)
  else (set_window (op_Limit opts) (op_MaxBytes opts) (op_After opts) tail opts, false).

(** The pages printed, one per snapshot of the journal; the command is still
    waiting when the snapshots are used up.  The flag tells that it returned.
    Source: cmd/proc-compose/logs.go:60-100 (newLogsCommand, loop). *)
Fixpoint print_pages (follow all : bool) (opts : Options) (snapshots : list (list (string * string)))
    : list Page * option string * bool :=
  match snapshots with
  | [] => ([], None, false)
  | files :: snapshots =>
      match Query opts (Ok files) (Ok files) with
      | (page, Some err) => ([], Some err, true)
      | (page, None) =>
          if negb follow && negb (all && pg_HasMore page) then ([page], None, true)
          else let '(pages, err, done) := print_pages follow all (next_options opts page) snapshots in
               (page :: pages, err, done)
      end
  end.
End query.

Lemma gap_page_view previous e p : let p' := gap_page previous e p in
  pg_Events p' = pg_Events p ∧ pg_EventBytes p' = pg_EventBytes p ∧
  pg_NextCursor p' = pg_NextCursor p ∧ pg_HasMore p' = pg_HasMore p.
Proof. unfold gap_page. by destruct (_ && _). Qed.

(** ** Bounding one event *)

Section fitting.
Context (encoded : LogEntry → Z).
Notation fit := (fit encoded).
Notation fit_search := (fit_search encoded).

(** A shown event is the event itself, or a copy marked as truncated whose
    text is a valid prefix and whose identity is the event's. *)
Definition shown (e e' : LogEntry) : Prop :=
  e' = e ∨ ∃ n, e' = set_Line (valid_prefix n (le_Line e)) (mark_truncated e).

Lemma shown_id e e' : shown e e' → le_ID e' = le_ID e.
Proof. by intros [->|[n ->]]. Qed.

Lemma fit_inv e budget e' size : fit e budget = Ok (e', size) →
  size = encoded e' ∧ (size ≤ budget)%Z ∧ shown e e' ∧ (encoded e ≤ budget → e' = e)%Z.
Proof.
  unfold LogQuery.fit. destruct (encoded e <=? budget)%Z eqn:E1.
  - intros [= <- <-]. apply Z.leb_le in E1. split_and!; [done|done|by left|done].
  - cbv zeta. destruct (budget <? _)%Z eqn:E2; [done|]. intros [= <- <-].
    apply Z.ltb_ge in E2. apply Z.leb_gt in E1. split_and!; [done|done|right; by eexists|lia].
Qed.

(** The search returns a length that was tried and fits, or the one it started from. *)
Lemma fit_search_ok fuel e budget low high :
  fit_search fuel e budget low high = low ∨
  (encoded (set_Line (valid_prefix (fit_search fuel e budget low high) (le_Line e)) e) ≤ budget)%Z.
Proof.
  revert low high; induction fuel as [|fuel IH]; intros low high; cbn [LogQuery.fit_search]; [by left|].
  destruct (low <? high); [|by left]. destruct (_ <=? budget)%Z eqn:E; [|apply IH].
  apply Z.leb_le in E. destruct (IH ((low + high + 1) / 2) high) as [->|H]; by right.
Qed.

(** It fails only when the event does not fit even without its text. *)
Lemma fit_total e budget : (encoded (set_Line "" (mark_truncated e)) ≤ budget)%Z → is_ok (fit e budget) = true.
Proof.
  intros H. unfold LogQuery.fit. destruct (_ <=? _)%Z; [done|]. cbv zeta.
  set (m := mark_truncated e) in *. destruct (budget <? _)%Z eqn:E; [|done]. exfalso.
  apply Z.ltb_lt in E.
  destruct (fit_search_ok (String.length (le_Line m)) m budget 0 (String.length (le_Line m))) as [H0|H0]; [|lia].
  rewrite H0 in E. cbn [valid_prefix] in E. lia.
Qed.

(** Sizes grow with the text. *)
Definition monotone : Prop := ∀ e m n, m ≤ n →
  (encoded (set_Line (valid_prefix m (le_Line e)) e) ≤ encoded (set_Line (valid_prefix n (le_Line e)) e))%Z.

Lemma fit_search_best e budget m fuel low high : monotone → high - low ≤ fuel → m ≤ high →
  (encoded (set_Line (valid_prefix m (le_Line e)) e) ≤ budget)%Z → m ≤ fit_search fuel e budget low high.
Proof.
  intros Hmono Hf Hm Hfit. revert low high Hf Hm; induction fuel as [|fuel IH]; intros low high Hf Hm; cbn [LogQuery.fit_search].
  { lia. }
  destruct (low <? high) eqn:Hlh; [apply Nat.ltb_lt in Hlh|apply Nat.ltb_ge in Hlh; lia].
  assert (low < (low + high + 1) / 2 ≤ high) as [Hl Hh].
  { split; [apply Nat.div_le_lower_bound; lia|apply Nat.Div0.div_le_upper_bound; lia]. }
  destruct (_ <=? budget)%Z eqn:E; [apply IH; lia|]. apply Z.leb_gt in E. apply IH; [lia|].
  destruct (decide (m ≤ (low + high + 1) / 2 - 1)) as [?|Hgt]; [done|]. exfalso.
  pose proof (Hmono e ((low + high + 1) / 2) m ltac:(lia)). lia.
Qed.

(** An event that does not fit whole is shown with the longest valid prefix of
    its text that does. *)
Lemma fit_longest e budget : monotone → (encoded (set_Line "" (mark_truncated e)) ≤ budget < encoded e)%Z →
  ∃ n, fit e budget = Ok (set_Line (valid_prefix n (le_Line e)) (mark_truncated e),
                          encoded (set_Line (valid_prefix n (le_Line e)) (mark_truncated e))) ∧
    ∀ m, m ≤ String.length (le_Line e) →
      (encoded (set_Line (valid_prefix m (le_Line e)) (mark_truncated e)) ≤ budget)%Z → m ≤ n.
Proof.
  intros Hmono [Hbare Hbig]. pose proof (fit_total e budget Hbare) as Hok. unfold LogQuery.fit in *.
  rewrite (proj2 (Z.leb_gt _ _)) in * by lia. cbv zeta in *. cbn [le_Line mark_truncated] in *.
  eexists. destruct (budget <? _)%Z; [done|]. split; [done|].
  intros m Hm Hfit. by apply (fit_search_best (mark_truncated e)); [done|lia|..].
Qed.

(** ** A page never exceeds its limits *)

Definition sum_sizes (l : list LogEntry) : Z := foldr (λ e n, encoded e + n)%Z 0%Z l.

Lemma sum_sizes_app l k : sum_sizes (l ++ k) = (sum_sizes l + sum_sizes k)%Z.
Proof.
  induction l as [|e l IH]; [done|]. change (encoded e + sum_sizes (l ++ k) = encoded e + sum_sizes l + sum_sizes k)%Z.
  rewrite IH. lia.
Qed.

Record page_ok (opts : Options) (p : Page) : Prop := {
  po_count : (Z.of_nat (length (pg_Events p)) ≤ op_Limit opts)%Z;
  po_bytes : (pg_EventBytes p ≤ op_MaxBytes opts)%Z;
  po_sum : pg_EventBytes p = sum_sizes (pg_Events p);
}.

Lemma drop_tail_inv limit maxBytes events : ∀ bytes truncated, (0 ≤ limit)%Z → (0 ≤ maxBytes)%Z →
  bytes = sum_sizes events →
  ∃ k, drop_tail limit maxBytes events (encoded <$> events) bytes truncated =
       (drop k events, encoded <$> drop k events, sum_sizes (drop k events), bool_decide (0 < k) || truncated) ∧
    (Z.of_nat (length (drop k events)) ≤ limit)%Z ∧ (sum_sizes (drop k events) ≤ maxBytes)%Z ∧ k ≤ length events ∧
    ∀ j, j < k → (limit < Z.of_nat (length (drop j events)))%Z ∨ (maxBytes < sum_sizes (drop j events))%Z.
Proof.
  induction events as [|e events IH]; intros bytes truncated Hl Hm ->; cbn [drop_tail fmap list_fmap].
  { exists 0. cbn. split_and!; [done|lia|lia|lia|lia]. }
  destruct (_ || _) eqn:Hc.
  - apply orb_true_iff in Hc. destruct (IH (sum_sizes events) true Hl Hm eq_refl) as (k & Hk & H1 & H2 & H3 & H4).
    exists (S k). cbn [drop]. change (sum_sizes (e :: events)) with (encoded e + sum_sizes events)%Z.
    replace (encoded e + sum_sizes events - encoded e)%Z with (sum_sizes events) by lia.
    rewrite Hk. split_and!; [by rewrite orb_true_r, (bool_decide_true (0 < S k)) by lia|done|done|cbn; lia|].
    intros [|j] Hj; [|apply H4; lia]. cbn [drop].
    destruct Hc as [Hc%Z.ltb_lt|Hc%Z.ltb_lt]; [by left|by right].
  - apply orb_false_iff in Hc as [Hc1%Z.ltb_ge Hc2%Z.ltb_ge]. exists 0. split_and!; [done|done|done|lia|lia].
Qed.
End fitting.

(** ** Every page is within its limits *)

Section bounds.
Context (encoded : LogEntry → Z) (decode : string → res string LogEntry) (ToLower : string → string).
Notation page_ok := (page_ok encoded).
Notation query_event := (query_event encoded ToLower).
Notation query_loop := (query_loop encoded ToLower).
Notation Query := (Query encoded decode ToLower).

(** The state of the loop between two records. *)
Definition state_ok (opts : Options) (st : qstate) : Prop :=
  page_ok opts (q_page st) ∧ (op_Tail opts = true → q_sizes st = encoded <$> pg_Events (q_page st)).

Lemma limits_ok_range opts : limits_ok opts = true →
  (1 ≤ op_Limit opts ≤ 1000)%Z ∧ (1024 ≤ op_MaxBytes opts ≤ 2 ^ 20)%Z.
Proof. unfold limits_ok. gobool. lia. Qed.

Lemma page_ok_view opts p p' : pg_Events p' = pg_Events p → pg_EventBytes p' = pg_EventBytes p →
  page_ok opts p → page_ok opts p'.
Proof. intros He Hb []. split; rewrite ?He, ?Hb; done. Qed.

Lemma tail_event_ok opts st e : limits_ok opts = true → op_Tail opts = true → state_ok opts st →
  match tail_event encoded opts st e with Next st' => state_ok opts st' | Return p _ => page_ok opts p end.
Proof.
  intros Hl Ht [Hp Hs]. apply limits_ok_range in Hl. unfold tail_event.
  destruct (fit encoded e (op_MaxBytes opts)) as [[e' size]|err] eqn:Hf; [|done].
  apply fit_inv in Hf as (-> & _). rewrite (Hs Ht), (po_sum _ _ _ Hp).
  change [encoded e'] with (encoded <$> [e']). rewrite <-fmap_app.
  destruct (drop_tail_inv encoded (op_Limit opts) (op_MaxBytes opts) (pg_Events (q_page st) ++ [e'])
    (sum_sizes encoded (pg_Events (q_page st)) + encoded e') (pg_Truncated (q_page st) || le_Truncated e'))
    as (k & -> & H1 & H2 & _); [lia|lia|rewrite sum_sizes_app; cbn; lia|].
  split; [by split|done].
Qed.

Lemma forward_event_ok opts st e : op_Tail opts = false → state_ok opts st →
  match forward_event encoded opts st e with Next st' => state_ok opts st' | Return p _ => page_ok opts p end.
Proof.
  intros Ht [Hp Hs]. unfold forward_event.
  destruct (_ =? op_Limit opts)%Z eqn:E1; [by apply (page_ok_view _ (q_page st))|].
  destruct (_ && _); [by apply (page_ok_view _ (q_page st))|].
  destruct (fit encoded e _) as [[e' size]|err] eqn:Hf; [|done].
  apply fit_inv in Hf as (-> & Hb & _). apply Z.eqb_neq in E1. destruct Hp as [H1 H2 H3].
  split; [|cbn; congruence]. split; cbn [q_page pg_Events pg_EventBytes]; [rewrite length_app; cbn; lia|lia|].
  rewrite sum_sizes_app, H3. cbn. lia.
Qed.

Lemma query_event_ok opts st r : limits_ok opts = true → state_ok opts st →
  match query_event opts st r with Next st' => state_ok opts st' | Return p _ => page_ok opts p end.
Proof.
  intros Hl [Hp Hs]. unfold LogQuery.query_event. destruct r as [e|err]; [|done].
  destruct (gap_page_view (q_previous st) e (q_page st)) as (He & Hb & _).
  set (page := gap_page _ _ _) in *.
  assert (page_ok opts page) as Hpage by by apply (page_ok_view _ (q_page st)).
  cbn [q_found q_sizes q_page]. destruct (negb (q_found st)).
  { case_bool_decide; split; cbn; rewrite ?He; auto. by apply (page_ok_view _ page). }
  destruct (negb (matches ToLower e opts)).
  { split; cbn; rewrite ?He; auto. by apply (page_ok_view _ page). }
  destruct (op_Tail opts) eqn:Ht; [apply tail_event_ok|apply forward_event_ok]; auto;
    (split; [done|]); cbn; rewrite ?He; auto; congruence.
Qed.

Lemma query_loop_ok opts l st p err found : limits_ok opts = true → state_ok opts st →
  query_loop opts st l = (p, err, found) → page_ok opts p.
Proof.
  intros Hl. revert st; induction l as [|r l IH]; intros st Hst; cbn [LogQuery.query_loop].
  { intros [= <- _ _]. apply Hst. }
  pose proof (query_event_ok opts st r Hl Hst) as H.
  destruct (query_event opts st r) as [st'|p' err']; [by apply IH|]. by intros [= <- _ _].
Qed.

Lemma page_ok_empty opts cursor : limits_ok opts = true → page_ok opts (empty_page cursor).
Proof. intros H%limits_ok_range. split; cbn; lia. Qed.

Lemma query_snapshot_ok opts files p err found :
  query_snapshot encoded decode ToLower opts files = (p, err, found) →
  if limits_ok (effective opts) then page_ok (effective opts) p
  else p = empty_page (op_After opts) ∧ is_Some err ∧ found = true.
Proof.
  unfold query_snapshot. cbv zeta. destruct (limits_ok (effective opts)) eqn:Hl; cbn [negb]; [|intros [= <- <- <-]; eauto].
  destruct (negb (cursor_ok _)); [intros [= <- _ _]; by apply page_ok_empty|].
  assert (∀ b : bool, page_ok (effective opts) (if b then empty_page "" else empty_page (op_After opts))) as H
    by (intros []; by apply page_ok_empty).
  destruct files as [files|e]; [|intros [= <- _ _]; apply H].
  apply query_loop_ok; [done|]. split; [apply H|]. cbn. by case_bool_decide.
Qed.

Lemma effective_idem opts cursor tail : limits_ok (effective opts) = true →
  let opts' := set_window (op_Limit (effective opts)) (op_MaxBytes (effective opts)) cursor tail (effective opts) in
  op_Limit (effective opts') = op_Limit (effective opts) ∧ op_MaxBytes (effective opts') = op_MaxBytes (effective opts).
Proof.
  intros H%limits_ok_range. cbv zeta. cbn in *.
  split; (rewrite (proj2 (Z.eqb_neq _ _)) by lia); done.
Qed.

(** For every journal, filter and cursor, whether or not the query fails
    and whether or not it falls back to the tail: a page holds at most [Limit]
    events, its byte count is at most [MaxBytes] and is exactly the total
    encoded size of the events in it; a query whose limits are out of range
    returns an error and no event. *)
Theorem Query_page_bounds opts files fallback p err : Query opts files fallback = (p, err) →
  if limits_ok (effective opts)
  then (Z.of_nat (length (pg_Events p)) ≤ op_Limit (effective opts) ≤ 1000)%Z ∧
       (pg_EventBytes p ≤ op_MaxBytes (effective opts) ≤ 2 ^ 20)%Z ∧
       pg_EventBytes p = sum_sizes encoded (pg_Events p)
  else pg_Events p = [] ∧ is_Some err.
Proof.
  unfold LogQuery.Query. destruct (query_snapshot _ _ _ opts files) as [[p0 err0] found] eqn:E0.
  apply query_snapshot_ok in E0. destruct (limits_ok (effective opts)) eqn:Hl.
  - pose proof (limits_ok_range _ Hl) as [? ?]. destruct found.
    + intros [= <- _]. destruct E0; auto with lia.
    + destruct (query_snapshot _ _ _ _ fallback) as [[p1 err1] found1] eqn:E1. intros [= <- _].
      apply query_snapshot_ok in E1.
      pose proof (effective_idem opts "" true Hl) as [H1 H2].
      unfold limits_ok in E1, Hl. rewrite H1, H2, Hl in E1.
      destruct E1 as [E1 E2 E3]. rewrite H1 in E1. rewrite H2 in E2. cbn [pg_Events pg_EventBytes set_Gap]. split_and!; lia.
  - destruct E0 as (-> & Herr & ->). by intros [= <- <-].
Qed.
End bounds.

(** ** Reading forward *)

Section forward.
Context (encoded : LogEntry → Z) (decode : string → res string LogEntry) (ToLower : string → string).
Notation state_ok := (state_ok encoded).
Notation query_event := (query_event encoded ToLower).
Notation query_loop := (query_loop encoded ToLower).

Definition is_match (opts : Options) (e : LogEntry) : Prop := matches ToLower e opts = true.

#[local] Instance is_match_dec opts e : Decision (is_match opts e).
Proof. unfold is_match. apply _. Defined.

(** The events of [evs] the filters keep. *)
Definition wanted (opts : Options) (evs : list LogEntry) : list LogEntry := filter (is_match opts) evs.

(** Even shortened to nothing, an event leaves room in the smallest page. *)
Definition bare_fits (e : LogEntry) : Prop := (encoded (set_Line "" (mark_truncated e)) ≤ 1024)%Z.

(** What one record does to a forward page. *)
Lemma forward_step opts st e : limits_ok opts = true → op_Tail opts = false → bare_fits e →
  state_ok opts st → q_found st = true →
  match query_event opts st (Ok e) with
  | Next st' => q_found st' = true ∧ state_ok opts st' ∧
      pg_NextCursor (q_page st') = le_ID e ∧ pg_HasMore (q_page st') = pg_HasMore (q_page st) ∧
      ∃ new, pg_Events (q_page st') = pg_Events (q_page st) ++ new ∧ Forall2 shown (wanted opts [e]) new
  | Return p err => err = None ∧ pg_Events (q_page st) ≠ [] ∧ pg_Events p = pg_Events (q_page st) ∧
      pg_NextCursor p = pg_NextCursor (q_page st) ∧ pg_HasMore p = true
  end.
Proof.
  intros Hl Ht Hbare Hst Hfound. pose proof (query_event_ok encoded ToLower opts st (Ok e) Hl Hst) as Hok.
  apply limits_ok_range in Hl. revert Hok. unfold LogQuery.query_event. rewrite Hfound, Ht. cbn [negb].
  destruct (gap_page_view (q_previous st) e (q_page st)) as (He & Hb & Hc & Hm).
  set (page := gap_page _ _ _) in *. unfold wanted. rewrite filter_cons, filter_nil.
  destruct (matches ToLower e opts) eqn:Hmatch; cbn [negb].
  2: { intros Hok. rewrite decide_False by (unfold is_match; congruence). cbn [q_found q_page pg_NextCursor pg_HasMore pg_Events set_NextCursor].
       split_and!; [done..|]. exists []. by rewrite app_nil_r. }
  rewrite decide_True by done. unfold forward_event. cbn [q_page]. rewrite He, Hb.
  destruct (Z.eqb_spec (Z.of_nat (length (pg_Events (q_page st)))) (op_Limit opts)) as [Hlen|Hlen].
  { intros _. split_and!; [done| |done..]. intros H0. rewrite H0 in Hlen. cbn in Hlen. lia. }
  destruct (_ && _) eqn:Hrem.
  { intros _. apply andb_true_iff in Hrem as [_ H0%Nat.ltb_lt]. split_and!; [done| |done..].
    intros H1. rewrite H1 in H0. cbn in H0. lia. }
  assert (1024 ≤ op_MaxBytes opts - pg_EventBytes (q_page st))%Z as Hroom.
  { apply andb_false_iff in Hrem as [H0%Z.ltb_ge|H0%Nat.ltb_ge]; [lia|].
    destruct Hst as [[_ _ ->] _]. destruct (pg_Events (q_page st)); cbn in *; lia. }
  pose proof (fit_total encoded e _ (Z.le_trans _ _ _ Hbare Hroom)) as Hfit.
  destruct (fit encoded e _) as [[e' size]|err] eqn:Hf; [|done]. intros Hok.
  apply fit_inv in Hf as (_ & _ & Hshown & _). cbn [q_found q_page pg_NextCursor pg_HasMore pg_Events].
  split_and!; [done..|]. exists [e']. auto.
Qed.

(** The cursor after [evs]. *)
Definition last_id (cursor : string) (evs : list LogEntry) : string :=
  fold_left (λ _ e, le_ID e) evs cursor.

(** The loop scans a prefix of the events, shows the wanted ones, and stops
    early only when the page is not empty. *)
Lemma forward_loop opts evs : limits_ok opts = true → op_Tail opts = false → Forall bare_fits evs →
  ∀ st, state_ok opts st → q_found st = true → pg_HasMore (q_page st) = false →
  ∃ p n new, query_loop opts st (Ok <$> evs) = (p, None, true) ∧
    pg_Events p = pg_Events (q_page st) ++ new ∧ Forall2 shown (wanted opts (take n evs)) new ∧
    pg_NextCursor p = last_id (pg_NextCursor (q_page st)) (take n evs) ∧
    if pg_HasMore p then n < length evs ∧ pg_Events p ≠ [] else n = length evs.
Proof.
  intros Hl Ht Hbare. induction Hbare as [|e evs He Hbare IH]; intros st Hst Hfound Hmore; cbn [LogQuery.query_loop fmap list_fmap].
  { exists (q_page st), 0, []. rewrite Hfound, Hmore, app_nil_r. cbn. by split_and!. }
  pose proof (forward_step opts st e Hl Ht He Hst Hfound) as Hstep.
  destruct (query_event opts st (Ok e)) as [st'|p err].
  - destruct Hstep as (Hfound' & Hst' & Hc & Hm & new & Hev & Hshown).
    destruct (IH st' Hst' Hfound') as (p & n & new' & Hrun & Hp & Hnew & Hcur & Hend); [by rewrite Hm|].
    exists p, (S n), (new ++ new'). split_and!; [done|by rewrite Hp, Hev, app_assoc| | |].
    + cbn [take]. change (e :: take n evs) with ([e] ++ take n evs). unfold wanted. rewrite filter_app. by apply Forall2_app.
    + by rewrite Hcur, Hc.
    + destruct (pg_HasMore p); cbn [length]; [destruct Hend; split; [lia|done]|lia].
  - destruct Hstep as (-> & Hne & Hp & Hc & Hm). exists p, 0, []. rewrite Hm, Hp, app_nil_r. cbn.
    split_and!; [done|done|constructor|done|lia|done].
Qed.

(** Records before the cursor are skipped. *)
Lemma skip_loop opts pre e post : le_ID e = op_After opts → Forall (λ x, le_ID x ≠ op_After opts) pre →
  ∀ st, q_found st = false → state_ok opts st →
  ∃ st', query_loop opts st (Ok <$> (pre ++ e :: post)) = query_loop opts st' (Ok <$> post) ∧
    q_found st' = true ∧ state_ok opts st' ∧ pg_Events (q_page st') = pg_Events (q_page st) ∧
    pg_NextCursor (q_page st') = le_ID e ∧ pg_HasMore (q_page st') = pg_HasMore (q_page st).
Proof.
  intros He. induction 1 as [|x pre Hx Hpre IH]; intros st Hfound [Hp Hs]; cbn [app fmap list_fmap LogQuery.query_loop];
    unfold LogQuery.query_event at 1; rewrite Hfound; cbn [negb];
    [rewrite bool_decide_true by done|rewrite bool_decide_false by done].
  - destruct (gap_page_view (q_previous st) e (q_page st)) as (H1 & H2 & H3 & H4). eexists. split; [done|].
    cbn [q_found q_page pg_Events pg_NextCursor pg_HasMore set_NextCursor]. split_and!; [done| |done..].
    split; cbn; rewrite ?H1; [|done]. by apply (page_ok_view _ _ (q_page st)).
  - destruct (gap_page_view (q_previous st) x (q_page st)) as (H1 & H2 & H3 & H4).
    destruct (IH (mkQ (gap_page (q_previous st) x (q_page st)) (q_sizes st) x (q_found st)))
      as (st' & Hrun & Hf & Hok & Hev & Hc & Hm); [done| |].
    + split; cbn; rewrite ?H1; [|done]. by apply (page_ok_view _ _ (q_page st)).
    + exists st'. cbn [q_page] in *. rewrite H1 in Hev. rewrite H4 in Hm. split_and!; try done.
      rewrite <-Hrun. by rewrite Hfound.
Qed.
End forward.

(** ** Paging through a journal *)

Section paging.
Context (encoded : LogEntry → Z) (decode : string → res string LogEntry) (ToLower : string → string).
Notation Query := (Query encoded decode ToLower).
Notation print_pages := (print_pages encoded decode ToLower).
Notation wanted := (wanted ToLower).
Notation bare_fits := (bare_fits encoded).

(** The files hold exactly these events, in order. *)
Definition holds (files : list (string * string)) (evs : list LogEntry) : Prop :=
  mjoin (file_records decode <$> files) = Ok <$> evs.

(** An identifier usable as a cursor. *)
Definition id_ok (e : LogEntry) : Prop :=
  cursor_ok (le_ID e) = true ∧ le_ID e ≠ "" ∧ le_ID e ≠ "start".

(** What the journal guarantees: identifiers are distinct and usable, and no
    event is too large for a page. *)
Record journal_ok (evs : list LogEntry) : Prop := {
  jo_ids : NoDup (le_ID <$> evs);
  jo_id : Forall id_ok evs;
  jo_fits : Forall bare_fits evs;
}.

Lemma journal_ok_take evs n : journal_ok evs → journal_ok (take n evs).
Proof.
  intros [H1 H2 H3]. split; [|by apply Forall_take..].
  rewrite <-(take_drop n evs), fmap_app in H1. by apply NoDup_app in H1 as (? & _ & _).
Qed.

Lemma last_id_snoc c evs e : last_id c (evs ++ [e]) = le_ID e.
Proof. unfold last_id. by rewrite fold_left_app. Qed.

Lemma last_id_app c evs evs' : last_id c (evs ++ evs') = last_id (last_id c evs) evs'.
Proof. unfold last_id. by rewrite fold_left_app. Qed.

(** The options of the next page continue at the last scanned event. *)
Lemma next_after opts p evs : Forall id_ok evs → pg_NextCursor p = last_id "" evs →
  op_After (next_options opts p) = last_id "start" evs.
Proof.
  intros Hid Hp. cbn. rewrite Hp. destruct evs as [|e evs _] using rev_ind; [done|].
  rewrite !last_id_snoc. apply Forall_app in Hid as [_ [(_ & H & _) _]%Forall_cons].
  by rewrite bool_decide_false.
Qed.

(** What a page continued from position [k] satisfies. *)
Definition continues (opts : Options) (evs : list LogEntry) (k : nat) (p : Page) : Prop :=
  ∃ n, k + n ≤ length evs ∧ Forall2 shown (wanted opts (take n (drop k evs))) (pg_Events p) ∧
    op_After (next_options opts p) = last_id "start" (take (k + n) evs) ∧
    if pg_HasMore p then n ≠ 0 else k + n = length evs.

Lemma continue_loop opts evs k st : limits_ok (effective opts) = true → op_Tail opts = false →
  journal_ok evs → k ≤ length evs → q_found st = true → state_ok encoded (effective opts) st →
  pg_Events (q_page st) = [] → pg_HasMore (q_page st) = false → pg_NextCursor (q_page st) = last_id "" (take k evs) →
  ∃ p, query_loop encoded ToLower (effective opts) st (Ok <$> drop k evs) = (p, None, true) ∧ continues opts evs k p.
Proof.
  intros Hl Ht [Hnd Hid Hfits] Hk Hfound Hst Hev Hmore Hcur.
  destruct (forward_loop encoded ToLower (effective opts) (drop k evs)) with (st := st)
    as (p & n & new & Hrun & Hp & Hnew & Hc & Hn); try done; [by apply Forall_drop|].
  rewrite Hev in Hp. cbn in Hp. rewrite length_drop in Hn.
  assert (k + n ≤ length evs) by (destruct (pg_HasMore p); lia).
  exists p. split; [done|]. exists n. split_and!; [done|by rewrite Hp| |].
  - apply next_after; [by apply Forall_take|]. by rewrite Hc, Hcur, <-last_id_app, take_take_drop.
  - destruct (pg_HasMore p); [|lia]. destruct Hn as [_ Hne]. intros ->. cbn in Hnew.
    apply Forall2_nil_inv_l in Hnew as ->. by rewrite Hp in Hne.
Qed.

Lemma query_snapshot_run opts files evs : limits_ok (effective opts) = true → cursor_ok (op_After opts) = true →
  holds files evs →
  query_snapshot encoded decode ToLower opts (Ok files) =
  query_loop encoded ToLower (effective opts)
    (mkQ (empty_page (if bool_decide (op_After opts = "start") then "" else op_After opts)) [] zero_entry
       (bool_decide (op_After opts = "") || bool_decide (op_After opts = "start"))) (Ok <$> evs).
Proof.
  intros Hl Hc Hf. unfold query_snapshot. cbv zeta. rewrite Hl, Hf. cbn [negb op_After effective set_window].
  rewrite Hc. cbn [negb]. by destruct (bool_decide (op_After opts = "start")).
Qed.

(** One page read forward from position [k] of the journal. *)
Lemma one_page opts files fallback evs k : limits_ok (effective opts) = true → op_Tail opts = false →
  holds files evs → journal_ok evs → k ≤ length evs → op_After opts = last_id "start" (take k evs) →
  ∃ p, Query opts (Ok files) fallback = (p, None) ∧ continues opts evs k p.
Proof.
  intros Hl Ht Hfiles Hj Hk Hafter. destruct (id Hj) as [Hnd Hid Hfits]. unfold LogQuery.Query.
  destruct k as [|k].
  - cbn in Hafter. rewrite (query_snapshot_run _ _ evs) by (rewrite ?Hafter; done). rewrite Hafter, (bool_decide_true ("start" = "start")), orb_true_r by done.
    destruct (continue_loop opts evs 0 (mkQ (empty_page "") [] zero_entry true)) as (p & Hrun & H); try done.
    { split; [by apply page_ok_empty|done]. }
    exists p. split; [|done]. rewrite drop_0 in Hrun. by rewrite Hrun.
  - destruct (lookup_lt_is_Some_2 evs k ltac:(lia)) as [e He].
    rewrite (take_S_r _ _ _ He), last_id_snoc in Hafter.
    destruct (proj1 (Forall_lookup _ _) Hid _ _ He) as (Hc & Hn1 & Hn2).
    rewrite (query_snapshot_run _ _ evs) by (rewrite ?Hafter; done). rewrite Hafter, !bool_decide_false by done.
    pose proof (take_drop_middle _ _ _ He) as Hsplit.
    destruct (skip_loop encoded ToLower (effective opts) (take k evs) e (drop (S k) evs)) with
      (st := mkQ (empty_page (le_ID e)) [] zero_entry false) as (st' & Hrun & Hf & Hok & Hev & Hcur & Hm);
      [done| |done|by split; [apply page_ok_empty|]|].
    { apply Forall_forall. intros x Hx Heq. cbn in Heq. rewrite Hafter in Heq.
      rewrite <-Hsplit, fmap_app in Hnd. apply NoDup_app in Hnd as (_ & Hnd & _).
      apply (Hnd (le_ID x)); [by apply list_elem_of_fmap_2|]. rewrite Heq. cbn. apply list_elem_of_here. }
    rewrite Hsplit in Hrun. cbn [orb]. rewrite Hrun.
    destruct (continue_loop opts evs (S k) st') as (p & -> & H); try done; [|by exists p].
    by rewrite (take_S_r _ _ _ He), last_id_snoc.
Qed.

(** The next options keep the filters, the limits and the direction. *)
Lemma next_limits opts p : limits_ok (effective opts) = true → limits_ok (effective (next_options opts p)) = true.
Proof. done. Qed.

Lemma wanted_app opts l k : wanted opts (l ++ k) = wanted opts l ++ wanted opts k.
Proof. apply filter_app. Qed.

(** The snapshots of a journal that only grows: the number of events in each. *)
Definition grows (J : list LogEntry) (snapshots : list (list (string * string))) (bs : list nat) : Prop :=
  Forall2 (λ files b, holds files (take b J)) snapshots bs ∧ StronglySorted le bs ∧ Forall (λ b, b ≤ length J) bs.

Lemma take_drop_app {A} (l : list A) k n m : take (n + m) (drop k l) = take n (drop k l) ++ take m (drop (k + n) l).
Proof.
  rewrite <-drop_drop. generalize (drop k l) as l'. intros l'. revert n.
  induction l' as [|x l' IH]; intros [|n]; cbn; rewrite ?take_nil; [done..|]. by f_equal.
Qed.

(** The pages printed from position [k] show a contiguous part of the journal. *)
Lemma pages_from J follow all snapshots bs : journal_ok J → grows J snapshots bs →
  ∀ opts k, limits_ok (effective opts) = true → op_Tail opts = false → k ≤ length J → Forall (λ b, k ≤ b) bs →
  op_After opts = last_id "start" (take k J) →
  let '(pages, err, done) := print_pages follow all opts snapshots in
  err = None ∧ ∃ n, k + n ≤ length J ∧ Forall2 shown (wanted opts (take n (drop k J))) (pages ≫= pg_Events) ∧
    (done = true → all = true → k + n ∈ bs).
Proof.
  intros HJ (Hfiles & Hsort & Hlen). induction Hfiles as [|files b snapshots bs Hf Hfiles IH];
    intros opts k Hl Ht HkJ Hk Hafter; cbn [LogQuery.print_pages].
  { split; [done|]. exists 0. split_and!; [lia|constructor|done]. }
  apply Forall_cons in Hlen as [Hb Hlen]. apply Forall_cons in Hk as [Hkb Hk].
  inversion Hsort as [|? ? Hsort' Hle]; subst.
  destruct (one_page opts files (Ok files) (take b J) k Hl Ht Hf (journal_ok_take _ _ HJ))
    as (p & -> & n & Hn & Hshown & Hnext & Hmore); [rewrite length_take; lia|by rewrite take_take, Nat.min_l|].
  rewrite length_take, Nat.min_l in Hn, Hmore by done. rewrite take_take, Nat.min_l in Hnext by done.
  rewrite skipn_firstn_comm, take_take, Nat.min_l in Hshown by lia.
  destruct (negb follow && negb (all && pg_HasMore p)) eqn:Hstop.
  - split; [done|]. exists n. split_and!; [lia|cbn; by rewrite app_nil_r|].
    intros _ ->. apply andb_true_iff in Hstop as [_ Hm]. destruct (pg_HasMore p); [done|].
    rewrite Hmore. apply list_elem_of_here.
  - specialize (IH Hsort' Hlen (next_options opts p) (k + n) Hl eq_refl).
    destruct (print_pages follow all (next_options opts p) snapshots) as [[pages err] finished].
    destruct IH as (Herr & m & Hm & Hpages & Hend); [lia| |done|].
    { apply Forall_forall. intros b' Hb'. rewrite Forall_forall in Hle. specialize (Hle b' Hb'). lia. }
    split; [done|]. exists (n + m). rewrite Nat.add_assoc. split_and!; [done| |].
    + rewrite take_drop_app, wanted_app. cbn. by apply Forall2_app.
    + intros. apply list_elem_of_further. auto.
Qed.

(** At the end of a journal at rest a follower prints nothing more. *)
Lemma pages_at_end J files m : journal_ok J → holds files J →
  ∀ opts, limits_ok (effective opts) = true → op_Tail opts = false → op_After opts = last_id "start" J →
  ∃ pages, print_pages true true opts (replicate m files) = (pages, None, false) ∧
    Forall2 shown [] (pages ≫= pg_Events).
Proof.
  intros HJ Hf. induction m as [|m IH]; intros opts Hl Ht Hafter; cbn [replicate LogQuery.print_pages].
  { exists []. by split. }
  destruct (one_page opts files (Ok files) J (length J) Hl Ht Hf HJ) as (p & -> & n & Hn & Hshown & Hnext & Hmore);
    [done|by rewrite firstn_all|].
  assert (n = 0) as -> by lia. rewrite Nat.add_0_r, firstn_all in Hnext.
  destruct (IH (next_options opts p) Hl eq_refl Hnext) as (pages & -> & Hpages).
  exists (p :: pages). split; [done|]. change (@nil LogEntry) with (@nil LogEntry ++ []). by apply Forall2_app.
Qed.

(** On a journal at rest, one snapshot per event and one more are enough to
    reach its end. *)
Lemma pages_reach_end J follow files m : journal_ok J → holds files J →
  ∀ opts k, limits_ok (effective opts) = true → op_Tail opts = false → k ≤ length J →
  op_After opts = last_id "start" (take k J) → length J - k < m →
  ∃ pages, print_pages follow true opts (replicate m files) = (pages, None, negb follow) ∧
    Forall2 shown (wanted opts (drop k J)) (pages ≫= pg_Events).
Proof.
  intros HJ Hf. induction m as [|m IH]; intros opts k Hl Ht Hk Hafter Hm; [lia|].
  cbn [replicate LogQuery.print_pages].
  destruct (one_page opts files (Ok files) J k Hl Ht Hf HJ Hk Hafter)
    as (p & -> & n & Hn & Hshown & Hnext & Hmore). cbn [andb].
  assert (Hsplit : wanted opts (drop k J) = wanted opts (take n (drop k J)) ++ wanted opts (drop (k + n) J)).
  { by rewrite <-drop_drop, <-wanted_app, take_drop. }
  rewrite Hsplit. destruct (pg_HasMore p); cbn [negb]; rewrite ?andb_false_r, ?andb_true_r.
  - destruct (IH (next_options opts p) (k + n) Hl eq_refl Hn Hnext) as (pages & -> & Hpages); [lia|].
    exists (p :: pages). split; [done|]. by apply Forall2_app.
  - rewrite Hmore, drop_all. destruct follow; cbn [negb].
    + destruct (pages_at_end J files m HJ Hf (next_options opts p)) as (pages & -> & Hpages);
        [done..|by rewrite Hnext, Hmore, firstn_all|].
      exists (p :: pages). split; [done|]. by apply Forall2_app.
    + exists [p]. split; [done|]. by apply Forall2_app.
Qed.


(** On a journal at rest, [proc-compose logs -n 0] reaches its end: with
    one snapshot more than the journal has events, every event that passes the
    filters has been printed, and the command has returned, unless it follows,
    when it is waiting. *)
Theorem logs_complete J follow files opts : journal_ok J → holds files J →
  op_Limit opts = 0%Z → limits_ok (effective (first_options opts).1) = true →
  ∃ pages, print_pages follow (first_options opts).2 (first_options opts).1 (replicate (S (length J)) files)
      = (pages, None, negb follow) ∧
    Forall2 shown (wanted opts J) (pages ≫= pg_Events).
Proof.
  unfold first_options. intros HJ Hf H0 Hl. rewrite H0 in *. cbn [Z.eqb fst snd] in *.
  destruct (pages_reach_end J follow files (S (length J)) HJ Hf _ 0 Hl eq_refl) as (pages & Hp & Hs); [lia|done|lia|].
  by exists pages.
Qed.
End paging.

(** ** The newest events *)

Section tail.
Context (encoded : LogEntry → Z) (decode : string → res string LogEntry) (ToLower : string → string).
Context (encoded_nonneg : ∀ e, (0 ≤ encoded e)%Z).
Notation state_ok := (state_ok encoded).
Notation query_loop := (query_loop encoded ToLower).
Notation sum_sizes := (sum_sizes encoded).

(** Shortened only when the event alone exceeds the budget. *)
Definition shown_within (budget : Z) (e e' : LogEntry) : Prop :=
  shown e e' ∧ (encoded e ≤ budget → e' = e)%Z.

Definition exceeds (opts : Options) (l : list LogEntry) : Prop :=
  (op_Limit opts < Z.of_nat (length l))%Z ∨ (op_MaxBytes opts < sum_sizes l)%Z.

(** [kept] is what remains of [imgs] when the oldest are dropped only as long as
    the rest exceeds a limit. *)
Definition newest (opts : Options) (imgs kept : list LogEntry) : Prop :=
  ∃ k, kept = drop k imgs ∧ k ≤ length imgs ∧ ∀ j, j < k → exceeds opts (drop j imgs).

Lemma exceeds_app opts l e : exceeds opts l → exceeds opts (l ++ [e]).
Proof.
  pose proof (encoded_nonneg e). unfold exceeds. rewrite length_app, sum_sizes_app. cbn [length]. 
  change (sum_sizes [e]) with (encoded e + 0)%Z. lia.
Qed.

(** One more matching event. *)
Lemma tail_event_newest opts st e imgs : limits_ok opts = true → bare_fits encoded e →
  op_Tail opts = true → state_ok opts st → newest opts imgs (pg_Events (q_page st)) →
  ∃ e' st', tail_event encoded opts st e = Next st' ∧ shown_within (op_MaxBytes opts) e e' ∧
    newest opts (imgs ++ [e']) (pg_Events (q_page st')) ∧ q_found st' = true ∧
    pg_NextCursor (q_page st') = le_ID e ∧ pg_HasMore (q_page st') = pg_HasMore (q_page st).
Proof.
  intros Hl%limits_ok_range Hbare Ht [Hp Hs] (k & Hk & Hlen & Hmax). unfold tail_event.
  pose proof (fit_total encoded e (op_MaxBytes opts) ltac:(unfold bare_fits in Hbare; lia)) as Hfit.
  destruct (fit encoded e (op_MaxBytes opts)) as [[e' size]|err] eqn:Hf; [|done].
  apply fit_inv in Hf as (-> & _ & Hshown & Hsame). rewrite (Hs Ht), (po_sum _ _ _ Hp).
  change [encoded e'] with (encoded <$> [e']). rewrite <-fmap_app.
  destruct (drop_tail_inv encoded (op_Limit opts) (op_MaxBytes opts) (pg_Events (q_page st) ++ [e'])
    (sum_sizes (pg_Events (q_page st)) + encoded e') (pg_Truncated (q_page st) || le_Truncated e'))
    as (k' & -> & _ & _ & Hle & Hmax'); [lia|lia|rewrite sum_sizes_app; cbn; lia|].
  exists e'. eexists. split; [done|]. split; [done|]. split; [|done]. cbn [q_page pg_Events].
  assert (Hdrop : ∀ i, drop i (pg_Events (q_page st) ++ [e']) = drop (k + i) (imgs ++ [e'])).
  { intros i. rewrite Hk, <-drop_drop, (drop_app_le imgs) by done. done. }
  exists (k + k'). split; [apply Hdrop|]. rewrite Hk, length_app, length_drop in Hle. cbn in Hle.
  split; [rewrite length_app; cbn; lia|]. intros j Hj. destruct (decide (j < k)) as [Hjk|Hjk].
  - rewrite drop_app_le by lia. by apply exceeds_app, Hmax.
  - specialize (Hmax' (j - k) ltac:(lia)). rewrite Hdrop in Hmax'. by replace (k + (j - k)) with j in Hmax' by lia.
Qed.

Lemma tail_loop opts evs : limits_ok opts = true → op_Tail opts = true → Forall (bare_fits encoded) evs →
  ∀ st imgs, state_ok opts st → q_found st = true → newest opts imgs (pg_Events (q_page st)) →
  ∃ p new, query_loop opts st (Ok <$> evs) = (p, None, true) ∧
    Forall2 (shown_within (op_MaxBytes opts)) (wanted ToLower opts evs) new ∧
    newest opts (imgs ++ new) (pg_Events p) ∧
    pg_NextCursor p = last_id (pg_NextCursor (q_page st)) evs ∧ pg_HasMore p = pg_HasMore (q_page st).
Proof.
  intros Hl Ht. induction 1 as [|e evs He Hbare IH]; intros st imgs Hst Hfound Hnew; cbn [LogQuery.query_loop fmap list_fmap].
  { exists (q_page st), []. rewrite Hfound, app_nil_r. by split_and!. }
  pose proof (query_event_ok encoded ToLower opts st (Ok e) Hl Hst) as Hok. revert Hok.
  unfold query_event. rewrite Hfound, Ht. cbn [negb].
  destruct (gap_page_view (q_previous st) e (q_page st)) as (H1 & H2 & H3 & H4).
  set (st1 := mkQ (gap_page (q_previous st) e (q_page st)) (q_sizes st) e true).
  assert (Hst1 : state_ok opts st1).
  { destruct Hst as [Hp Hs]. split; cbn; rewrite ?H1; [by apply (page_ok_view _ _ (q_page st))|done]. }
  unfold wanted. rewrite filter_cons. destruct (matches ToLower e opts) eqn:Hmatch; cbn [negb]; intros Hok.
  - rewrite decide_True by done.
    destruct (tail_event_newest opts st1 e imgs Hl He Ht Hst1) as (e' & st' & Hrun & Hshown & Hn & Hf & Hc & Hm);
      [cbn; by rewrite H1|]. rewrite Hrun in Hok |- *.
    destruct (IH st' (imgs ++ [e']) Hok Hf Hn) as (p & new & Hrun' & Hall & Hnew' & Hcur & Hmore).
    exists p, (e' :: new). rewrite <-app_assoc in Hnew'. split_and!; [exact Hrun'|by constructor|done|by rewrite Hcur, Hc|].
    rewrite Hmore, Hm. apply H4.
  - rewrite decide_False by (unfold is_match; congruence).
    destruct (IH _ imgs Hok eq_refl) as (p & new & Hrun' & Hall & Hnew' & Hcur & Hmore); [cbn; by rewrite H1|].
    exists p, new. split_and!; [exact Hrun'|done..|]. rewrite Hmore. apply H4.
Qed.

(** A tail page without a cursor is the newest part of the journal: the
    events that pass the filters, each shortened only if it alone exceeds the
    byte budget, less the oldest ones, dropped one by one only while what
    remains exceeds the limit of events or of bytes; it never announces more,
    and its cursor is the last event of the journal, shown or not. *)
Theorem tail_page_newest opts files fallback evs : limits_ok (effective opts) = true →
  op_After opts = "" → op_Tail opts = true → holds decode files evs → Forall (bare_fits encoded) evs →
  ∃ p imgs, Query encoded decode ToLower opts (Ok files) fallback = (p, None) ∧
    Forall2 (shown_within (op_MaxBytes (effective opts))) (wanted ToLower opts evs) imgs ∧
    newest (effective opts) imgs (pg_Events p) ∧ ¬ exceeds (effective opts) (pg_Events p) ∧
    pg_HasMore p = false ∧ pg_NextCursor p = last_id "" evs.
Proof using encoded_nonneg.
  intros Hl Hafter Ht Hf Hbare. unfold Query.
  rewrite (query_snapshot_run _ _ _ _ _ evs) by (rewrite ?Hafter; done). rewrite Hafter.
  rewrite (bool_decide_true ("" = "")), (bool_decide_false ("" = "start")) by done. cbn [orb].
  set (st := mkQ _ _ _ _). assert (Hst : state_ok (effective opts) st) by (split; [by apply page_ok_empty|done]).
  destruct (tail_loop (effective opts) evs Hl Ht Hbare st []) as (p & new & Hrun & Hall & Hnew & Hcur & Hmore);
    [done|done|by exists 0; split_and!; [done|cbn; lia|lia]|].
  exists p, new. rewrite Hrun. split_and!; try done.
  pose proof (query_loop_ok _ _ _ _ _ _ _ _ Hl Hst Hrun) as [Hp1 Hp2 Hp3]. unfold exceeds. lia.
Qed.
End tail.

(** ** Witnesses: a journal whose records are bare numbers *)

Definition numbered (line : string) : LogEntry :=
  mkLogEntry 1 ("run:" +:+ line) "run" "" (default 0%Z (parse_digits 0 line)) "" 0 "web" line
    "output" "info" "process.output" "stdout" 0 1 None false 0 false false.
Definition read_number (line : string) : res string LogEntry :=
  if negb (bool_decide (line = "")) && str_all is_digit line then Ok (numbered line) else Err "not a number".
Definition fixed_size (e : LogEntry) : Z := 100 + str_len (le_Line e).
Definition journal_file (lines : list string) : list (string * string) :=
  [("journal", join "" ((λ l, l +:+ String (chr 10) "") <$> lines))].
Definition no_filter (limit : Z) (tail : bool) : Options := mkOptions limit 0 "" tail [] "" "" "" "" "" 0 "" "" 0.

Definition three_numbers : list LogEntry := numbered <$> ["1"; "2"; "3"].

Lemma three_numbers_ok : journal_ok fixed_size three_numbers.
Proof.
  split; [by apply (bool_decide_unpack _)|repeat constructor; by vm_compute|].
  unfold three_numbers, bare_fits. repeat constructor; by vm_compute.
Qed.

Lemma Query_page_bounds_witness :
  let p := Query fixed_size read_number (λ s, s) (no_filter 2 true) (Ok (journal_file ["1"; "2"; "3"])) (Ok []) in
  le_ID <$> pg_Events p.1 = ["run:2"; "run:3"] ∧ (Z.of_nat (length (pg_Events p.1)) ≤ 2 ≤ 1000)%Z.
Proof.
  intros p. split; [by vm_compute|].
  pose proof (Query_page_bounds fixed_size read_number (λ s, s) (no_filter 2 true)
    (Ok (journal_file ["1"; "2"; "3"])) (Ok []) p.1 p.2 (surjective_pairing _)) as H.
  exact (proj1 H).
Defined.


Lemma logs_complete_witness : ∃ pages,
  print_pages fixed_size read_number (λ s, s) false true (first_options (no_filter 0 false)).1
    (replicate 4 (journal_file ["1"; "2"; "3"])) = (pages, None, true) ∧
  Forall2 shown three_numbers (pages ≫= pg_Events).
Proof.
  exact (logs_complete fixed_size read_number (λ s, s) three_numbers false (journal_file ["1"; "2"; "3"])
    (no_filter 0 false) three_numbers_ok eq_refl eq_refl eq_refl).
Defined.

Lemma tail_page_newest_witness : ∃ p imgs,
  Query fixed_size read_number (λ s, s) (no_filter 2 true) (Ok (journal_file ["1"; "2"; "3"])) (Ok []) = (p, None) ∧
  newest fixed_size (effective (no_filter 2 true)) imgs (pg_Events p) ∧ pg_NextCursor p = "run:3".
Proof.
  destruct (tail_page_newest fixed_size read_number (λ s, s) ltac:(intros e; unfold fixed_size, str_len; lia)
    (no_filter 2 true) (journal_file ["1"; "2"; "3"]) (Ok []) three_numbers eq_refl eq_refl eq_refl eq_refl
    (jo_fits _ _ three_numbers_ok)) as (p & imgs & H & _ & Hn & _ & _ & Hc).
  exists p, imgs. split; [exact H|]. split; [exact Hn|exact Hc].
Defined.
