(* ===== verification/Output.v ===== *)
(** * Output and the event boundary

    [readOutput] cuts the output of a command into lines, however the reader's
    buffer splits it; [emit] numbers every event and hands the same entry to
    the journal, the display and the monitors.  JSON, the wall clock and what
    the journal's writer answers are arguments.  The last part composes the
    journal [emit] writes with the paging of [LogQuery]. *)

From S2P Require Import Prelude GoStrings ConfigTypes RunnerState Lifecycle Ipc LogQuery.

(** ** Colours *)

Definition esc (code : string) : string := String (chr 27) (String "["%char code).

(** Source: internal/ansi/ansi.go:11-20 (Reset, Bold, Dim). *)
Definition Reset : string := esc "0m".
Definition Bold : string := esc "1m".
Definition Dim : string := esc "2m".

(** Source: internal/ansi/ansi.go:46-51 (Wrap). *)
Definition Wrap (disabled : bool) (code : string) : string := if disabled then "" else code.

(** Source: internal/ansi/ansi.go:56-65 (ProcessColors). *)
Definition ProcessColors : list string :=
  esc <$> ["36m"; "35m"; "33m"; "34m"; "32m"; "91m"; "96m"; "95m"].

(** The index, which [%] truncating towards zero keeps in range.
    Source: internal/ansi/ansi.go:74-75 (ProcessColor, index). *)
Definition color_index (idx : Z) : Z :=
  let n := Z.of_nat (length ProcessColors) in Z.rem (Z.rem idx n + n) n.

(** Source: internal/ansi/ansi.go:70-76 (ProcessColor). *)
Definition ProcessColor (disabled : bool) (idx : Z) : string :=
  if disabled then "" else default "" (ProcessColors !! Z.to_nat (color_index idx)).

(** The default is never taken: no index panics. *)
Lemma color_index_range idx : (0 ≤ color_index idx < Z.of_nat (length ProcessColors))%Z.
Proof.
  unfold color_index. cbv zeta. change (Z.of_nat (length ProcessColors)) with 8%Z.
  pose proof (Z.rem_bound_abs idx 8 ltac:(lia)).
  pose proof (Z.rem_bound_pos (Z.rem idx 8 + 8) 8 ltac:(lia) ltac:(lia)). lia.
Qed.

(** [%-*s] on one-byte characters, which process names are made of. *)
Definition pad_right (width : Z) (s : string) : string :=
  s +:+ of_bytes (replicate (Z.to_nat width - String.length s) " "%char).

Definition bar : string := of_bytes (chr <$> [226; 148; 130]).

(** Source: internal/runner/display.go:56-62 (FormatLine). *)
Definition FormatLine (disabled : bool) (name : string) (maxName colorIndex : Z) (line : string) : string :=
  let c := Wrap disabled (ProcessColor disabled colorIndex) in
  Wrap disabled Bold +:+ c +:+ pad_right maxName name +:+ Wrap disabled Reset +:+ " " +:+
  Wrap disabled Dim +:+ bar +:+ Wrap disabled Reset +:+ " " +:+ line.

(** ** Tunnel announcements *)

(** The rest after [[0-9;]*m]. *)
Fixpoint escape_tail (s : string) : option string :=
  match s with
  | EmptyString => None
  | String c t =>
      if bool_decide (c = "m"%char) then Some t
      else if is_digit c || bool_decide (c = ";"%char) then escape_tail t else None
  end.

(** What [ansiEscapeRe] matches is deleted; the fuel is the length of the line. *)
Fixpoint strip_escapes (fuel : nat) (s : string) : string :=
  match fuel, s with
  | S fuel, String c t =>
      if bool_decide (c = chr 27) then
        match t with
        | String b u =>
            if bool_decide (b = "["%char) then
              match escape_tail u with Some rest => strip_escapes fuel rest | None => String c (strip_escapes fuel t) end
            else String c (strip_escapes fuel t)
        | EmptyString => s
        end
      else String c (strip_escapes fuel t)
  | _, _ => s
  end.

Definition arrow : string := of_bytes (chr <$> [226; 134; 146]).
Definition is_space_re (c : ascii) : bool := bool_decide (code c ∈ [9; 10; 12; 13; 32]).

(** The longest match of [[^\s→]*]: the encoding of the arrow never starts
    inside another character. *)
Fixpoint url_body (s : string) : string :=
  match s with
  | EmptyString => ""
  | String c t => if is_space_re c || has_prefix arrow s then "" else String c (url_body t)
  end.

Definition url_at (s : string) : option string :=
  let try scheme :=
    if has_prefix scheme s then
      let body := url_body (skip_bytes (String.length scheme) s) in
      if bool_decide (body = "") then None else Some (scheme +:+ body)
    else None in
  match try "https://" with Some u => Some u | None => try "http://" end.

(** [tunnelURLRe.FindAllString]; the fuel is the length. *)
Fixpoint find_urls (fuel : nat) (s : string) : list string :=
  match fuel, s with
  | S fuel, String _ t =>
      match url_at s with
      | Some u => u :: find_urls fuel (skip_bytes (String.length u) s)
      | None => find_urls fuel t
      end
  | _, _ => []
  end.

(** Source: internal/runner/broadcast.go:193-207 (extractTunnelURL). *)
Definition extractTunnelURL (line : string) : string :=
  let clean := strip_escapes (String.length line) line in
  if negb (str_contains "Forwarding:" clean) && negb (str_contains "Reconnected:" clean) then ""
  else match List.find (λ m, negb (str_contains "localhost" m)) (find_urls (String.length clean) clean) with
       | Some m => trim_right_byte "."%char m
       | None => ""
       end.

(** ** Cutting output into lines *)

Definition newline : ascii := chr 10.
Definition carriage_return : ascii := chr 13.

(** [bytes.TrimSuffix] of one byte. *)
Definition trim_suffix (c : ascii) (s : string) : string :=
  match str_rev s with
  | String a t => if bool_decide (a = c) then str_rev t else s
  | EmptyString => s
  end.

Inductive slice_end : Type := SliceLine | SliceFull | SliceEnd.

(** [bufio.Reader.ReadSlice] on what is left of the stream, with a buffer of
    [size] bytes: a line with its newline, a full buffer without one, or what
    remains when the stream ends or fails. *)
Definition ReadSlice (size : nat) (s : string) : string * slice_end * string :=
  match cut_byte newline s with
  | Some (x, t) =>
      if String.length x <? size then (x +:+ String newline "", SliceLine, t)
      else (str_take size s, SliceFull, skip_bytes size s)
  | None => if size <=? String.length s then (str_take size s, SliceFull, skip_bytes size s) else (s, SliceEnd, "")
  end.

(** Source: internal/runner/broadcast.go:20-20 (readOutput, maxLine). *)
Definition maxLine : nat := Z.to_nat (2 ^ 20).
(** Source: internal/runner/broadcast.go:21-21 (readOutput, reader). *)
Definition bufferSize : nat := Z.to_nat (64 * 1024).

(** The loop: every complete line with what is kept of it and its whole size.
    The line and buffer bounds are arguments; a full buffer holds at least a
    byte, so the length of the stream and one more is enough fuel.
    Source: internal/runner/broadcast.go:24-79 (readOutput, loop). *)
Fixpoint read_lines (fuel size max : nat) (input retained : string) (total : Z) : list (string * Z) :=
  match fuel with
  | O => []
  | S fuel =>
      let '(fragment, ended, rest) := ReadSlice size input in
      let complete := match ended with SliceFull => false | _ => true end in
      let hasLine := negb (bool_decide (fragment = "")) || (0 <? total)%Z in
      let fragment := if complete then trim_suffix carriage_return (trim_suffix newline fragment) else fragment in
      let total := (total + str_len fragment)%Z in
      let retained := retained +:+ str_take (max - String.length retained) fragment in
      let out := if complete && hasLine then [(retained, total)] else [] in
      match ended with
      | SliceEnd => out
      | SliceLine => out ++ read_lines fuel size max rest "" 0
      | SliceFull => read_lines fuel size max rest retained total
      end
  end.

Section output.
(** Decoding the level fields of a line as JSON, [strings.ToLower], and encoding
    an event. *)
Context (level_fields : string → option (string * string)) (ToLower : string → string).
Context (encode : LogEntry → res string string).

(** Source: internal/runner/broadcast.go:40-54 (readOutput, level). *)
Definition output_level (raw : string) : string :=
  match level_fields raw with
  | None => "info"
  | Some (level, severity) =>
      let candidate := if bool_decide (ToLower level = "") then ToLower severity else ToLower level in
      if bool_decide (candidate ∈ ["debug"; "info"; "warn"; "error"; "fatal"]) then candidate else "info"
  end.

(** An entry as the callers of [emit] build it. *)
Definition entry_of (kind level code stream line : string) (state : option ProcState)
    (truncated : bool) (original : Z) (isEvent isError : bool) : LogEntry :=
  mkLogEntry 0 "" "" "" 0 "" 0 "" line kind level code stream 0 0 state truncated original isEvent isError.

(** Source: internal/runner/broadcast.go:55-58 (readOutput, event). *)
Definition output_event (stream raw : string) (total : Z) : LogEntry :=
  let level := output_level raw in
  let truncated := (Z.of_nat maxLine <? total)%Z in
  entry_of "output" level "process.output" stream raw None truncated (if truncated then total else 0)
    false (bool_decide (level = "error") || bool_decide (level = "fatal")).

(** What a line sets off, in order. *)
Inductive output_action : Type :=
  | Emit (e : LogEntry)
  | BroadcastTunnelURL (url : string)
  | OnLine (raw : string)
  | Capture (stream raw : string).

(** Source: internal/runner/broadcast.go:38-72 (readOutput, line). *)
Definition line_actions (name stream : string) (ipc onLine capture : bool) (line : string * Z) : list output_action :=
  let '(raw, total) := line in
  Emit (output_event stream raw total) ::
  (if ipc && bool_decide (name = "tunnel") then
     let url := extractTunnelURL raw in if bool_decide (url = "") then [] else [BroadcastTunnelURL url]
   else []) ++
  (if onLine then [OnLine raw] else []) ++
  (if capture then [Capture stream raw] else []).

(** Source: internal/runner/broadcast.go:107-113 (processLog). *)
Definition processLog_entry (level code message : string) : LogEntry :=
  entry_of (if has_prefix "readiness." code || has_prefix "health." code then "probe" else "lifecycle")
    level code "supervisor" message None false 0 true (bool_decide (level = "error")).

(** Source: internal/runner/broadcast.go:115-117 (systemLog). *)
Definition systemLog_entry (level code message : string) : LogEntry :=
  entry_of "session" level code "supervisor" message None false 0 true (bool_decide (level = "error")).

(** Source: internal/runner/broadcast.go:178-186 (systemEvent). *)
Definition systemEvent_entry (msg : string) (isErr : bool) : LogEntry :=
  systemLog_entry (if isErr then "error" else "info") "session.event" msg.

(** The whole stream and the error it ends with, [None] at its end.
    Source: internal/runner/broadcast.go:17-80 (readOutput). *)
Definition readOutput (name stream : string) (ipc onLine capture : bool) (input : string) (failure : option string)
    : list output_action :=
  (read_lines (S (String.length input)) bufferSize maxLine input "" 0
     ≫= line_actions name stream ipc onLine capture) ++
  match failure with Some err => [Emit (processLog_entry "error" "output.read_failed" err)] | None => [] end.

(** ** Emitting *)

(** What [emit] reads of the runner.
    Source: internal/runner/runner.go:26-59 (Runner, output). *)
Record outlet : Type := mkOutlet {
  ol_Project : option Project;
  ol_AttemptID : string;
  ol_Journal : bool;
  ol_LogFile : bool;
  ol_IPC : bool;
  ol_Verbose : bool;
  ol_LogFormat : string;
  ol_maxName : Z;
  ol_noColor : bool;
}.

(** What it changes.  Every call of the journal's writer is kept with the error
    it returned.
    Source: internal/runner/runner.go:75-79 (Runner, log state). *)
Record log_state : Type := mkLog {
  ls_sequence : Z;
  ls_logErr : option string;
  ls_lastStates : gmap string ProcState;
  ls_writes : list (LogEntry * string * option string);
  ls_output : list string;
  ls_file : list string;
  ls_published : list event;
}.

(** What the environment answers during one [emit]: the PID and generation of
    the process's state if it has one, the clock and the writer. *)
Record emit_env : Type := mkEnv {
  ee_state : option (Z * Z);
  ee_now : Z;
  ee_write : option string;
}.

(** Source: internal/runner/broadcast.go:127-144 (emit, identity). *)
Definition stamp (r : outlet) (p : procInfo) (env : emit_env) (sequence : Z) (e : LogEntry) : LogEntry :=
  let '(pid, generation) := match le_State e with
                            | Some st => (ps_PID st, ps_Generation st)
                            | None => default (le_PID e, le_Generation e) (ee_state env)
                            end in
  let '(run, session) := match ol_Project r with
                         | Some project => (pj_RunID project, pj_Session project)
                         | None => (le_RunID e, le_Session e)
                         end in
  mkLogEntry 1 (run +:+ ":" +:+ itoa sequence) run (ol_AttemptID r) sequence session (ee_now env)
    (pi_name p) (le_Line e) (le_Kind e) (le_Level e) (le_Code e) (le_Stream e) pid generation (le_State e)
    (le_Truncated e) (le_OriginalBytes e) (le_IsEvent e) (le_IsError e).

(** Source: internal/runner/broadcast.go:155-171 (emit, display). *)
Definition display_lines (r : outlet) (p : procInfo) (e : LogEntry) (data : string) : list string * list string :=
  if negb (bool_decide (le_Level e = "debug")) || ol_Verbose r then
    let json := bool_decide (ol_LogFormat r = "json") in
    ([if json then data else FormatLine (ol_noColor r) (pi_name p) (ol_maxName r) (pi_colorIndex p) (le_Line e)],
     if ol_LogFile r then [if json then data else pi_name p +:+ " | " +:+ le_Line e] else [])
  else ([], []).

(** Source: internal/runner/broadcast.go:119-176 (emit). *)
Definition emit (r : outlet) (p : procInfo) (env : emit_env) (e : LogEntry) (s : log_state) : log_state :=
  if pi_quiet p then s
  else
    let sequence := uint64_succ (ls_sequence s) in
    let e := stamp r p env sequence e in
    match encode e with
    | Err err => mkLog sequence (Some err) (ls_lastStates s) (ls_writes s) (ls_output s) (ls_file s) (ls_published s)
    | Ok data =>
        let '(shown, teed) := display_lines r p e data in
        mkLog sequence
          (if ol_Journal r then match ee_write env with Some err => Some err | None => ls_logErr s end else ls_logErr s)
          (ls_lastStates s)
          (ls_writes s ++ (if ol_Journal r then [(e, data +:+ String newline "", ee_write env)] else []))
          (ls_output s ++ shown) (ls_file s ++ teed)
          (ls_published s ++ (if ol_IPC r then [EvLog e] else []))
    end.

(** Source: internal/runner/broadcast.go:95-96 (broadcastState, changed). *)
Definition state_changed (previous : option ProcState) (snap : ProcState) : bool :=
  match previous with
  | None => true
  | Some old =>
      negb (bool_decide (ps_State old = ps_State snap)) || negb (ps_Generation old =? ps_Generation snap)%Z ||
      negb (ps_PID old =? ps_PID snap)%Z || negb (Bool.eqb (ps_Ready old) (ps_Ready snap)) ||
      negb (bool_decide (ps_LastError old = ps_LastError snap)) || negb (bool_decide (ps_Health old = ps_Health snap))
  end.

(** Source: internal/runner/broadcast.go:82-105 (broadcastState). *)
Definition broadcastState (r : outlet) (p : procInfo) (st : procState) (env : emit_env) (s : log_state) : log_state :=
  if pi_quiet p then s
  else
    let snap := ipcStateLocked (pi_name p) (pi_proc p) st in
    let changed := state_changed (ls_lastStates s !! pi_name p) snap in
    let s := mkLog (ls_sequence s) (ls_logErr s) (<[pi_name p := snap]> (ls_lastStates s)) (ls_writes s)
               (ls_output s) (ls_file s) (ls_published s ++ (if ol_IPC r then [EvState snap] else [])) in
    if changed
    then emit r p env (entry_of "state" "debug" "process.state" "" (ps_State snap) (Some snap) false 0 true false) s
    else s.
End output.

(** *** The lines of a stream, whatever the buffer *)

(** The lines of [s], with what follows the last newline if anything does. *)
Definition stream_lines (s : string) : list string :=
  let '(lines, rest) := completeLines s in lines ++ (if bool_decide (rest = "") then [] else [rest]).

(** A carriage return before the newline is dropped, except where the line
    filled whole buffers and so was read before the newline was seen. *)
Definition strip_cr (size : nat) (line : string) : string :=
  if (String.length line mod size =? 0) then line else trim_suffix carriage_return line.

Definition line_out (size max : nat) (line : string) : string * Z :=
  (str_take max (strip_cr size line), str_len (strip_cr size line)).

(** Keeping what fits of each part keeps the same as cutting the whole. *)
Lemma str_take_step max p x :
  str_take max p +:+ str_take (max - String.length (str_take max p)) x = str_take max (p +:+ x).
Proof.
  destruct (decide (String.length p <= max)) as [H|H].
  - rewrite str_take_app_ge by done. assert (str_take max p = p) as ->; [|done].
    unfold str_take. rewrite take_ge by (by rewrite length_bytes). apply of_bytes_bytes.
  - rewrite str_take_len, Nat.sub_diag, str_take_app_le by lia. apply str_app_nil.
Qed.

Lemma trim_suffix_snoc c x a : trim_suffix c (x +:+ String a "") = if bool_decide (a = c) then x else x +:+ String a "".
Proof.
  unfold trim_suffix. rewrite str_rev_app. change (str_rev (String a "") +:+ str_rev x) with (String a (str_rev x)).
  cbv iota. by rewrite str_rev_involutive.
Qed.

Lemma trim_suffix_app c p x : x ≠ "" → trim_suffix c (p +:+ x) = p +:+ trim_suffix c x.
Proof.
  intros (y & a & ->)%str_snoc. rewrite <-str_app_assoc, !trim_suffix_snoc. case_bool_decide; [done|]. apply str_app_assoc.
Qed.

Lemma trim_newline_line x : trim_suffix newline (x +:+ String newline "") = x.
Proof. by rewrite trim_suffix_snoc, bool_decide_true. Qed.

Lemma trim_newline_none x : str_mem newline x = false → trim_suffix newline x = x.
Proof.
  intros H. destruct (decide (x = "")) as [->|(y & a & ->)%str_snoc]; [done|].
  rewrite trim_suffix_snoc, bool_decide_false; [done|]. intros ->. by rewrite str_mem_mid in H.
Qed.

Lemma completeLines_line x t : str_mem newline x = false →
  completeLines (x +:+ String newline t) = let '(lines, rest) := completeLines t in (x :: lines, rest).
Proof.
  induction x as [|c x IH]; intros Hx; cbn [String.append completeLines].
  { destruct (completeLines t). by rewrite bool_decide_true. }
  rewrite str_mem_cons in Hx. apply orb_false_iff in Hx as [Hc Hx].
  rewrite (IH Hx). destruct (completeLines t). fold newline. by rewrite Hc.
Qed.

Lemma completeLines_none x : str_mem newline x = false → completeLines x = ([], x).
Proof.
  induction x as [|c x IH]; intros Hx; cbn [completeLines]; [done|].
  rewrite str_mem_cons in Hx. apply orb_false_iff in Hx as [Hc Hx].
  rewrite (IH Hx). fold newline. by rewrite Hc.
Qed.

Lemma stream_lines_line x t : str_mem newline x = false →
  stream_lines (x +:+ String newline t) = x :: stream_lines t.
Proof. intros Hx. unfold stream_lines. rewrite completeLines_line by done. by destruct (completeLines t). Qed.

Lemma stream_lines_none x : str_mem newline x = false → stream_lines x = if bool_decide (x = "") then [] else [x].
Proof. intros Hx. unfold stream_lines. by rewrite completeLines_none. Qed.

(** The three ways a slice ends. *)
Lemma ReadSlice_spec size s : size ≠ 0 →
  let '(fragment, ended, rest) := ReadSlice size s in
  match ended with
  | SliceLine => ∃ x, fragment = x +:+ String newline "" ∧ s = x +:+ String newline rest ∧
                   str_mem newline x = false ∧ String.length x < size
  | SliceFull => s = fragment +:+ rest ∧ str_mem newline fragment = false ∧ String.length fragment = size
  | SliceEnd => fragment = s ∧ str_mem newline s = false ∧ String.length s < size
  end.
Proof.
  intros Hsize. unfold ReadSlice. destruct (cut_byte newline s) as [[x t]|] eqn:Hcut.
  - apply cut_byte_Some in Hcut as [-> Hx]. destruct (Nat.ltb_spec (String.length x) size) as [Hlt|Hge]; [by exists x|].
    rewrite take_skip, str_take_app_le by done. split_and!; [done| |by apply str_take_len].
    destruct (str_take_prefix size x) as [y Hy]. rewrite Hy, str_mem_app in Hx. by apply orb_false_iff in Hx as [? _].
  - apply cut_byte_None in Hcut. destruct (Nat.leb_spec size (String.length s)) as [Hle|Hlt]; [|done].
    rewrite take_skip. split_and!; [done| |by apply str_take_len].
    destruct (str_take_prefix size s) as [y Hy]. rewrite Hy, str_mem_app in Hcut. by apply orb_false_iff in Hcut as [? _].
Qed.

Lemma strip_cr_app size p x : String.length p mod size = 0 → String.length x < size → size ≠ 0 →
  strip_cr size (p +:+ x) = p +:+ trim_suffix carriage_return x.
Proof.
  intros Hp Hx Hsize. unfold strip_cr. rewrite str_length_app, Nat.Div0.add_mod, Hp, Nat.add_0_l, Nat.Div0.mod_mod, Nat.mod_small by done.
  destruct x as [|c x]; [done|]. cbn [String.length Nat.eqb]. by apply trim_suffix_app.
Qed.

(** With [p] already read, a multiple of the buffer, the loop yields the lines
    of [p] followed by the rest of the stream. *)
Lemma read_lines_from size max fuel : size ≠ 0 → ∀ s p, String.length s < fuel →
  String.length p mod size = 0 → str_mem newline p = false →
  read_lines fuel size max s (str_take max p) (str_len p) = line_out size max <$> stream_lines (p +:+ s).
Proof.
  intros Hsize. induction fuel as [|fuel IH]; intros s p Hfuel Hmod Hp; [lia|]. cbn [read_lines].
  pose proof (ReadSlice_spec size s Hsize) as Hslice. destruct (ReadSlice size s) as [[fragment ended] rest].
  assert (Hout : ∀ x, String.length x < size →
    (str_take max p +:+ str_take (max - String.length (str_take max p)) (trim_suffix carriage_return x),
     (str_len p + str_len (trim_suffix carriage_return x))%Z) = line_out size max (p +:+ x)).
  { intros x Hx. unfold line_out. rewrite str_take_step, strip_cr_app by done. by rewrite str_len_app. }
  destruct ended; cbn [andb].
  - destruct Hslice as (x & -> & -> & Hx & Hlen). rewrite trim_newline_line.
    rewrite bool_decide_false by (destruct x; discriminate). cbn [negb orb]. rewrite Hout by done.
    rewrite <-str_app_assoc, stream_lines_line by (by rewrite str_mem_app, Hp).
    rewrite fmap_cons. cbn [app]. f_equal. rewrite str_length_app in Hfuel. cbn in Hfuel.
    rewrite <-(str_take_empty max) at 1. apply (IH rest ""); [lia|by apply Nat.Div0.mod_0_l|done].
  - destruct Hslice as (-> & Hf & Hlen). rewrite str_take_step, <-str_len_app, <-str_app_assoc.
    rewrite str_length_app in Hfuel. apply IH; [lia| |by rewrite str_mem_app, Hp].
    rewrite str_length_app, Hlen, Nat.Div0.add_mod, Hmod, Nat.Div0.mod_same. by apply Nat.Div0.mod_0_l.
  - destruct Hslice as (-> & Hs & Hlen). rewrite trim_newline_none, Hout by done.
    rewrite stream_lines_none by (by rewrite str_mem_app, Hp).
    assert (negb (bool_decide (s = "")) || (0 <? str_len p)%Z = negb (bool_decide (p +:+ s = ""))) as ->.
    { destruct p as [|c p]; cbn [String.append]; [by rewrite orb_false_r|]. rewrite orb_true_r. by rewrite bool_decide_false. }
    by case_bool_decide.
Qed.

Section output_spec.
Context (level_fields : string → option (string * string)) (ToLower : string → string).
Notation readOutput := (readOutput level_fields ToLower).
Notation line_actions := (line_actions level_fields ToLower).

(** Whatever a command prints, and however long its lines are, its output
    is handed on line by line, the unfinished last line included: each line of
    the stream, in order, without the carriage return that ends it unless the
    line filled the 64 KiB buffer a whole number of times, cut to its first
    MiB; an event says it is truncated exactly when the line was longer, and
    then gives its size.  A failing reader adds one error event at the end. *)
Theorem readOutput_lines name stream ipc onLine capture input failure :
  readOutput name stream ipc onLine capture input failure =
    (stream_lines input ≫= λ line, line_actions name stream ipc onLine capture (line_out bufferSize maxLine line)) ++
    (if failure is Some err then [Emit (processLog_entry "error" "output.read_failed" err)] else []) ∧
  ∀ line, let '(raw, total) := line_out bufferSize maxLine line in
    let kept := strip_cr bufferSize line in
    (str_len raw ≤ 2 ^ 20)%Z ∧ (∃ cut, kept = raw +:+ cut) ∧
    if (str_len kept <=? 2 ^ 20)%Z
    then raw = kept ∧ le_Truncated (output_event level_fields ToLower stream raw total) = false
    else le_Truncated (output_event level_fields ToLower stream raw total) = true ∧
         le_OriginalBytes (output_event level_fields ToLower stream raw total) = str_len kept.
Proof.
  assert (Hmax : Z.of_nat maxLine = (2 ^ 20)%Z) by (unfold maxLine; lia).
  assert (Hsize : bufferSize ≠ 0) by (unfold bufferSize; lia).
  split.
  - unfold Output.readOutput. f_equal.
    pose proof (read_lines_from bufferSize maxLine (S (String.length input)) Hsize input "" ltac:(lia)
      (Nat.Div0.mod_0_l _) eq_refl) as H. rewrite str_take_empty in H. change (str_len "") with 0%Z in H.
    rewrite H. apply list_fmap_bind.
  - intros line. unfold line_out, output_event. cbv zeta. clear Hsize.
    generalize (strip_cr bufferSize line) as kept. revert Hmax. generalize maxLine as max. intros max Hmax kept.
    cbn [le_Truncated le_OriginalBytes entry_of]. rewrite Hmax.
    pose proof (str_take_length max kept) as Hlen. rewrite Hmax in Hlen.
    split; [exact Hlen|]. split; [apply str_take_prefix|].
    destruct (Z.leb_spec (str_len kept) (2 ^ 20)) as [Hle|Hgt].
    + split; [|by apply Z.ltb_ge]. unfold str_take, str_len in *. rewrite take_ge; [apply of_bytes_bytes|].
      rewrite length_bytes. lia.
    + rewrite (proj2 (Z.ltb_lt _ _) Hgt). by split.
Qed.
End output_spec.

(** ** The identity of events *)

(** Source: internal/ipc/ipc.go:214-229 (NewRunID). *)
Definition NewRunID (pid now last : Z) : string := itoa pid +:+ "-" +:+ itoa (newRunID now last).

Lemma itoa_uint64 n : (0 ≤ n < 2 ^ 64)%Z → is_uint64 (itoa n) = true.
Proof. intros Hn. unfold is_uint64. by rewrite parse_uint64_itoa. Qed.

Lemma NewRunID_usable pid now last : NewRunID pid now last ≠ "" ∧ str_mem ":"%char (NewRunID pid now last) = false.
Proof.
  unfold NewRunID. split.
  - intros H. apply (f_equal String.length) in H. rewrite str_length_app in H. cbn in H. lia.
  - by rewrite !str_mem_app, !itoa_no_byte.
Qed.

Lemma event_id_ok run e n : run ≠ "" → str_mem ":"%char run = false → (0 ≤ n < 2 ^ 64)%Z →
  le_ID e = run +:+ ":" +:+ itoa n → id_ok e.
Proof.
  intros Hne Hrun Hn HID. unfold id_ok. rewrite HID. split_and!.
  - unfold cursor_ok.
    rewrite (proj2 (cut_byte_Some ":"%char _ run (itoa n))) by done.
    by rewrite (bool_decide_false (run = "")), itoa_no_byte, itoa_uint64, orb_true_r by done.
  - by destruct run.
  - intros H. assert (str_mem ":"%char (run +:+ ":" +:+ itoa n) = false) as Hc by by rewrite H.
    change (":" +:+ itoa n) with (String ":"%char (itoa n)) in Hc. by rewrite str_mem_mid in Hc.
Qed.

Section emission.
Context (encode : LogEntry → res string string).

(** Emissions and state broadcasts, in the order they take the lock. *)
Inductive out_step : Type :=
  | StepEmit (p : procInfo) (env : emit_env) (e : LogEntry)
  | StepState (p : procInfo) (st : procState) (env : emit_env).

Definition out_one (r : outlet) (s : log_state) (o : out_step) : log_state :=
  match o with
  | StepEmit p env e => emit encode r p env e s
  | StepState p st env => broadcastState encode r p st env s
  end.

Definition out_run (r : outlet) (script : list out_step) : log_state :=
  fold_left (out_one r) script (mkLog 0 None ∅ [] [] [] []).

Definition written (s : log_state) : list LogEntry := (λ w, w.1.1) <$> ls_writes s.
Definition log_of (ev : event) : option LogEntry := match ev with EvLog e => Some e | _ => None end.

(** After at most [n] steps. *)
Record log_inv (r : outlet) (run : string) (n : nat) (s : log_state) : Prop := {
  li_sequence : (0 ≤ ls_sequence s ≤ Z.of_nat n)%Z;
  li_sorted : StronglySorted Z.lt (le_Sequence <$> written s);
  li_entry : Forall (λ e, le_ID e = run +:+ ":" +:+ itoa (le_Sequence e) ∧ le_Version e = 1%Z ∧
    (1 ≤ le_Sequence e ≤ ls_sequence s)%Z) (written s);
  li_data : Forall (λ w, ∃ d, encode w.1.1 = Ok d ∧ w.1.2 = d +:+ String newline "") (ls_writes s);
  li_published : ol_IPC r = true → omap log_of (ls_published s) = written s;
}.

Lemma sorted_snoc (l : list Z) x : StronglySorted Z.lt l → Forall (λ y, y < x)%Z l → StronglySorted Z.lt (l ++ [x]).
Proof.
  induction 1 as [|y l Hl IH Hy]; intros Hx; [repeat constructor|].
  apply Forall_cons in Hx as [Hyx Hx]. constructor; [by apply IH|]. apply Forall_app. by split; [|apply Forall_singleton].
Qed.

Lemma emit_inv r project p env e n s : ol_Project r = Some project → ol_Journal r = true →
  (Z.of_nat (S n) < 2 ^ 64)%Z → log_inv r (pj_RunID project) n s →
  log_inv r (pj_RunID project) (S n) (emit encode r p env e s).
Proof.
  intros HP HJ Hn [H1 H2 H3 H4 H5]. unfold emit. destruct (pi_quiet p); [split; auto with lia|].
  assert (uint64_succ (ls_sequence s) = (ls_sequence s + 1)%Z) as Hseq by (unfold uint64_succ; rewrite Z.mod_small; lia).
  rewrite Hseq. set (e' := stamp r p env (ls_sequence s + 1) e).
  assert (le_ID e' = pj_RunID project +:+ ":" +:+ itoa (le_Sequence e') ∧ le_Version e' = 1%Z ∧
    le_Sequence e' = (ls_sequence s + 1)%Z) as (HID & HV & HS).
  { unfold e', stamp. rewrite HP. destruct (le_State e); [done|].
    by destruct (default (le_PID e, le_Generation e) (ee_state env)). }
  assert (Hgrow : Forall (λ e, le_ID e = pj_RunID project +:+ ":" +:+ itoa (le_Sequence e) ∧ le_Version e = 1%Z ∧
    (1 ≤ le_Sequence e ≤ ls_sequence s + 1)%Z) (written s)).
  { eapply Forall_impl; [exact H3|]. cbn. intros x (? & ? & ?). split_and!; [done|done|lia..]. }
  destruct (encode e') as [d|err] eqn:Hd; [|split; [cbn; lia|done..]].
  destruct (display_lines r p e' d) as [shown teed]. rewrite HJ.
  set (s2 := mkLog _ _ _ _ _ _ _).
  assert (Hw : written s2 = written s ++ [e']) by (unfold written; cbn; by rewrite fmap_app).
  split; rewrite ?Hw; cbn [s2 ls_sequence ls_writes ls_published].
  - lia.
  - rewrite fmap_app. cbn. rewrite HS. apply sorted_snoc; [done|]. apply Forall_fmap.
    eapply Forall_impl; [exact H3|]. cbn. lia.
  - apply Forall_app. split; [done|]. apply Forall_singleton. rewrite HS at 2 3. split_and!; [done|done|lia..].
  - apply Forall_app. split; [done|]. apply Forall_singleton. by exists d.
  - intros HI. rewrite HI, omap_app, H5 by done. done.
Qed.

Lemma out_one_inv r project o n s : ol_Project r = Some project → ol_Journal r = true →
  (Z.of_nat (S n) < 2 ^ 64)%Z → log_inv r (pj_RunID project) n s →
  log_inv r (pj_RunID project) (S n) (out_one r s o).
Proof.
  intros HP HJ Hn Hs. destruct o as [p env e|p st env]; [by apply emit_inv|]. cbn. unfold broadcastState.
  destruct (pi_quiet p) eqn:Hq; [destruct Hs; split; auto with lia|].
  set (s' := mkLog _ _ _ _ _ _ _). assert (Hs' : log_inv r (pj_RunID project) n s').
  { destruct Hs as [H1 H2 H3 H4 H5]. split; try done. intros HI. cbn. rewrite HI, omap_app, H5 by done. cbn. apply app_nil_r. }
  destruct (state_changed _ _); [by apply emit_inv|]. destruct Hs'. split; auto with lia.
Qed.

Lemma out_run_inv r project script : ol_Project r = Some project → ol_Journal r = true →
  (Z.of_nat (length script) < 2 ^ 64)%Z → log_inv r (pj_RunID project) (length script) (out_run r script).
Proof.
  intros HP HJ. unfold out_run. induction script as [|o script IH] using rev_ind; intros Hn.
  { split; cbn; [lia|constructor..|done]. }
  rewrite fold_left_app, length_app in *. cbn [length fold_left] in *. rewrite Nat.add_1_r in *.
  apply out_one_inv; [done|done|done|]. apply IH. lia.
Qed.

Lemma sequences_ids r run n s : log_inv r run n s → NoDup (le_ID <$> written s).
Proof.
  intros [_ Hsort Hent _ _]. induction (written s) as [|e l IH]; cbn in *; [constructor|].
  inversion Hsort as [|? ? Hl Hlt]; subst. apply Forall_cons in Hent as [(He & _ & Hr) Hent].
  constructor; [|by apply IH]. intros (e' & Heq & Hin)%list_elem_of_fmap.
  rewrite Forall_forall in Hent. destruct (Hent _ Hin) as (He' & _ & _).
  rewrite Forall_fmap, Forall_forall in Hlt. specialize (Hlt _ Hin). cbn in Hlt.
  rewrite He, He' in Heq. apply str_app_inj, (str_app_inj ":"), (f_equal (parse_digits 0)) in Heq. rewrite !parse_itoa in Heq by lia.
  injection Heq. lia.
Qed.
End emission.

Section boundary.
Context (encode : LogEntry → res string string).
Notation out_run := (out_run encode).

(** However emissions and state broadcasts of any processes interleave, and
    whether or not the journal's writer fails: every entry written to the
    journal of a run is the encoding of an event numbered by the run, the
    numbers strictly increase from one, so no two events share an identifier;
    each identifier can be used as a cursor; and the monitors are sent exactly
    the same entries in the same order. *)
Theorem emit_identity r project script : ol_Project r = Some project → ol_Journal r = true → ol_IPC r = true →
  (Z.of_nat (length script) < 2 ^ 64)%Z →
  pj_RunID project ≠ "" → str_mem ":"%char (pj_RunID project) = false →
  let s := out_run r script in
  StronglySorted Z.lt (le_Sequence <$> written s) ∧ Forall (λ e, 1 ≤ le_Sequence e)%Z (written s) ∧
  NoDup (le_ID <$> written s) ∧ Forall id_ok (written s) ∧
  Forall (λ w, ∃ d, encode w.1.1 = Ok d ∧ w.1.2 = d +:+ String newline "") (ls_writes s) ∧
  omap log_of (ls_published s) = written s.
Proof.
  intros HP HJ HI Hn Hne Hrun. cbv zeta. pose proof (out_run_inv encode r project script HP HJ Hn) as Hinv.
  pose proof (sequences_ids _ _ _ _ _ Hinv) as Hnd. destruct Hinv as [H1 H2 H3 H4 H5].
  split_and!; [done| |done| |done|by apply H5]; (eapply Forall_impl; [exact H3|]); cbn; intros e (HID & _ & Hr); [lia|].
  apply (event_id_ok (pj_RunID project) e (le_Sequence e)); [done|done|lia|exact HID].
Qed.

(** *** Reading the journal back *)

Context (decode : string → res string LogEntry) (encoded : LogEntry → Z).

(** What the JSON encoding of an event must satisfy to be read back: it decodes
    to the event, on one line that is not too long, and fits in a page once its
    text is dropped. *)
Record transported (e : LogEntry) : Prop := {
  tr_decode : ∀ d, encode e = Ok d → decode d = Ok e ∧ str_mem newline d = false ∧ (str_len d < MaxEventBytes)%Z;
  tr_fits : bare_fits encoded e;
}.

(** The writes the journal accepted, and their bytes. *)
Definition accepted (s : log_state) : list (LogEntry * string * option string) :=
  filter (λ w, w.2 = None) (ls_writes s).
Definition journal_bytes (ws : list (LogEntry * string * option string)) : string := join "" ((λ w, w.1.2) <$> ws).

Lemma join_cons x l : join "" (x :: l) = x +:+ join "" l.
Proof. destruct l; cbn; [by rewrite str_app_nil|done]. Qed.

(** Complete lines are read back one by one. *)
Lemma completeLines_join ds : Forall (λ d, str_mem newline d = false) ds →
  completeLines (join "" ((λ d, d +:+ String newline "") <$> ds)) = (ds, "").
Proof.
  induction 1 as [|d ds Hd Hds IH]; [done|]. rewrite fmap_cons, join_cons, str_app_assoc. cbn [String.append].
  by rewrite completeLines_line, IH.
Qed.

(** An event that reached the journal. *)
Definition recorded (e : LogEntry) : Prop := transported e ∧ le_Version e = 1%Z ∧ le_ID e ≠ "".

Lemma record_of_encoded name e d : recorded e → encode e = Ok d → record_of decode name d = Ok e ∧ str_mem newline d = false.
Proof.
  intros ((Hdec & _) & HV & HID) Hd. destruct (Hdec d Hd) as (H1 & H2 & H3). split; [|done].
  unfold record_of. rewrite (proj2 (Z.leb_gt _ _)) by done. rewrite H1, HV, bool_decide_false by done. done.
Qed.

Lemma journal_records name ws : Forall (λ w, ∃ d, encode w.1.1 = Ok d ∧ w.1.2 = d +:+ String newline "") ws →
  Forall (λ w, recorded w.1.1) ws →
  file_records decode (name, journal_bytes ws) = Ok <$> ((λ w, w.1.1) <$> ws).
Proof.
  intros Hdata Hrec.
  assert (∃ ds, (λ w, w.1.2) <$> ws = (λ d, d +:+ String newline "") <$> ds ∧
    Forall (λ d, str_mem newline d = false) ds ∧
    record_of decode name <$> ds = Ok <$> ((λ w, w.1.1) <$> ws)) as (ds & Hds & Hnl & Hdec).
  { induction Hrec as [|w ws Hw Hrec IH]; [by exists []|]. apply Forall_cons in Hdata as [(d & Hd & Hwd) Hdata].
    destruct (IH Hdata) as (ds & H1 & H2 & H3). destruct (record_of_encoded name _ _ Hw Hd) as [Hr Hn].
    exists (d :: ds). rewrite !fmap_cons, Hwd, Hr, H1, H3. split_and!; [done|by constructor|done]. }
  unfold file_records, journal_bytes. rewrite Hds, completeLines_join by done. rewrite Hdec.
  rewrite (proj2 (Z.leb_gt _ _)) by done. by rewrite app_nil_r.
Qed.

Lemma Forall_sublist {A} (P : A → Prop) l k : l `sublist_of` k → Forall P k → Forall P l.
Proof. rewrite !Forall_forall. intros Hs Hk x Hx. by eapply Hk, elem_of_sublist. Qed.

Lemma fmap_sublist {A B} (f : A → B) l k : l `sublist_of` k → f <$> l `sublist_of` f <$> k.
Proof. induction 1; cbn; by constructor. Qed.

Lemma sublist_filter_written (s : log_state) : (λ w, w.1.1) <$> accepted s `sublist_of` written s.
Proof. apply fmap_sublist, sublist_filter. Qed.

(** The events [proc-compose logs] can read, after [script]. *)
Definition journaled (r : outlet) (script : list out_step) : list LogEntry := (λ w, w.1.1) <$> accepted (out_run r script).

Lemma journaled_ok r project script : ol_Project r = Some project → ol_Journal r = true →
  (Z.of_nat (length script) < 2 ^ 64)%Z → pj_RunID project ≠ "" → str_mem ":"%char (pj_RunID project) = false →
  Forall transported (journaled r script) →
  journal_ok encoded (journaled r script) ∧
  holds decode [("journal", journal_bytes (accepted (out_run r script)))] (journaled r script).
Proof.
  intros HP HJ Hn Hne Hrun Htr. pose proof (out_run_inv encode r project script HP HJ Hn) as Hinv.
  pose proof (sequences_ids _ _ _ _ _ Hinv) as Hnd. destruct Hinv as [H1 H2 H3 H4 H5].
  pose proof (sublist_filter_written (out_run r script)) as Hsub. fold (journaled r script) in Hsub.
  assert (Hent := Forall_sublist _ _ _ Hsub H3). split.
  - split; [by eapply sublist_NoDup, fmap_sublist| |].
    + eapply Forall_impl; [exact Hent|]. cbn. intros e (HID & _ & Hr). apply (event_id_ok (pj_RunID project) e (le_Sequence e)); [done|done|lia|exact HID].
    + eapply Forall_impl; [exact Htr|]. by intros e [].
  - unfold holds. cbn. rewrite app_nil_r. apply journal_records.
    + eapply Forall_sublist; [apply sublist_filter|exact H4].
    + unfold journaled in *. rewrite Forall_fmap in Htr, Hent. eapply Forall_impl; [exact (proj2 (Forall_and _ _) (conj Htr Hent))|].
      cbn. intros w [Ht (HID & HV & _)]. split_and!; [done|done|]. rewrite HID. by destruct (pj_RunID project).
Qed.

End boundary.

(** ** Witnesses *)

Definition example_project : Project := mkProject "" (NewRunID 42 1700 5) "" "" ∅ ∅ [] "" "" None [].
Definition example_outlet : outlet := mkOutlet (Some example_project) "" true false true false "text" 3 true.
Definition example_info : procInfo := mkProcInfo "web" zero_process 0 [] false false.
Definition said (line : string) (failure : option string) : out_step :=
  StepEmit example_info (mkEnv None 0 failure) (output_event (λ _, None) (λ s, s) "stdout" line (str_len line)).
(** The second write fails. *)
Definition example_script : list out_step :=
  [said "one" None; said "two" (Some "disk full"); said "three" None].
Definition number_of (e : LogEntry) : res string string := Ok (itoa (le_Sequence e)).
Definition find_number (d : string) : res string LogEntry :=
  match List.find (λ e, bool_decide (itoa (le_Sequence e) = d)) (journaled number_of example_outlet example_script) with
  | Some e => Ok e
  | None => Err "unknown"
  end.

Definition example_event (n : Z) (line : string) : LogEntry :=
  stamp example_outlet example_info (mkEnv None 0 None) n (output_event (λ _, None) (λ s, s) "stdout" line (str_len line)).

Lemma emit_identity_witness :
  le_ID <$> written (out_run number_of example_outlet example_script) = ["42-1700:1"; "42-1700:2"; "42-1700:3"] ∧
  NoDup (le_ID <$> written (out_run number_of example_outlet example_script)).
Proof.
  split; [by vm_compute|].
  exact (proj1 (proj2 (proj2 (emit_identity number_of example_outlet example_project example_script
    eq_refl eq_refl eq_refl eq_refl ltac:(by vm_compute) ltac:(by vm_compute))))).
Defined.

