(* ===== verification/VerifyRecords.v ===== *)
(** * Verification attempts: results, receipts and their identifiers

    The result of one attempt, the rule that decides its verdict, what a
    receipt may record, how receipts are classified and pruned, the attempt
    identifiers, and the size-limited encoding. *)

From S2P Require Import Prelude GoStrings ConfigTypes RunnerState.

(** ** Statuses and codes *)

(** Source: internal/verify/result.go:25-31 (StateActive). *)
Definition StateActive : string := "active".
(** Source: internal/verify/result.go:25-31 (StateCompleted). *)
Definition StateCompleted : string := "completed".
(** Source: internal/verify/result.go:25-31 (StateAbandoned). *)
Definition StateAbandoned : string := "abandoned".
(** Source: internal/verify/result.go:25-31 (StateIndeterminate). *)
Definition StateIndeterminate : string := "indeterminate".
(** Source: internal/verify/result.go:33-43 (StatusPassed). *)
Definition StatusPassed : string := "passed".
(** Source: internal/verify/result.go:33-43 (StatusFailed). *)
Definition StatusFailed : string := "failed".
(** Source: internal/verify/result.go:33-43 (StatusInterrupted). *)
Definition StatusInterrupted : string := "interrupted".
(** Source: internal/verify/result.go:33-43 (StatusNotRun). *)
Definition StatusNotRun : string := "not_run".
(** Source: internal/verify/result.go:126-131 (ExitPassed). *)
Definition ExitPassed : Z := 0.
(** Source: internal/verify/result.go:126-131 (ExitFailed). *)
Definition ExitFailed : Z := 1.
(** Source: internal/verify/result.go:126-131 (ExitUsage). *)
Definition ExitUsage : Z := 2.
(** Source: internal/verify/result.go:126-131 (ExitInterrupted). *)
Definition ExitInterrupted : Z := 130.
(** Source: internal/verify/result.go:16-16 (SchemaVersion). *)
Definition SchemaVersion : Z := 1.
(** Source: internal/verify/result.go:19-23 (KindReceipt). *)
Definition KindReceipt : string := "verify.receipt".
(** Source: internal/verify/result.go:19-23 (KindCompactError). *)
Definition KindCompactError : string := "verify.compact_error".
(** Source: internal/verify/result.go:80-102 (CodeResultSizeLimit). *)
Definition CodeResultSizeLimit : string := "result_size_limit".

(** Source: internal/verify/result.go:45-67 (recordedVerdict). *)
Definition recordedVerdict (state status : string) (exitCode : Z) : bool :=
  if bool_decide (state = StateActive)
  then (exitCode =? 0)%Z && (bool_decide (status = StatusNotRun) || bool_decide (status = StatusFailed))
  else if bool_decide (state = StateCompleted) then
    if bool_decide (status = StatusPassed) then (exitCode =? ExitPassed)%Z
    else if bool_decide (status = StatusFailed) then (exitCode =? ExitFailed)%Z
    else if bool_decide (status = StatusInterrupted) then (exitCode =? ExitInterrupted)%Z
    else false
  else false.

(** ** Error records *)

(** Source: internal/verify/result.go:143-147 (ErrorRecord). *)
Record ErrorRecord : Type := mkErrorRecord { er_Code : string; er_Count : Z }.

#[export] Instance ErrorRecord_eq_dec : EqDecision ErrorRecord.
Proof. solve_decision. Defined.

(** Source: internal/verify/result.go:149-150 (Errors). *)
Definition Errors : Type := gmap string Z.

(** Source: internal/verify/result.go:152-152 (Add). *)
Definition Errors_Add (code : string) (e : Errors) : Errors :=
  <[code := (default 0%Z (e !! code) + 1)%Z]> e.

(** [errs[code] += count] *)
Definition errors_count (e : Errors) (r : ErrorRecord) : Errors :=
  <[er_Code r := (default 0%Z (e !! er_Code r) + er_Count r)%Z]> e.

(** [order] is the iteration order of the map.
    Source: internal/verify/result.go:154-163 (Records). *)
Definition Records (order : list string) (e : Errors) : list ErrorRecord :=
  omap (λ code, match e !! code with
                | Some count => if (0 <? count)%Z then Some (mkErrorRecord code count) else None
                | None => None
                end)
    (sort_strings order).

(** ** Results *)

(** Source: internal/verify/result.go:165-171 (Source). *)
Record SourceInfo : Type := mkSource {
  so_Revision : option string;
  so_Dirty : option bool;
  so_ObservedAt : option string;
  so_LoadedCodeProven : bool;
  so_Limitations : list string;
}.

(** Source: internal/verify/result.go:173-176 (ProcessGeneration). *)
Record ProcessGeneration : Type := mkProcessGeneration { pg_Name : string; pg_Generation : Z }.

(** Source: internal/verify/result.go:178-181 (Endpoint). *)
Record Endpoint : Type := mkEndpoint { ep_Port : Z; ep_URL : string }.

(** Source: internal/verify/result.go:183-200 (ReadinessObservation). *)
Record ReadinessObservation : Type := mkReadiness {
  ro_Process : string;
  ro_Generation : Z;
  ro_Probe : option string;
  ro_Status : string;
  ro_ObservedAt : option string;
  ro_Owner : option EndpointOwner;
}.

(** Source: internal/verify/result.go:202-211 (Startup). *)
Record Startup : Type := mkStartup {
  su_Status : string;
  su_StartedAt : option string;
  su_FinishedAt : option string;
  su_DeadlineAt : option string;
  su_Validation : string;
  su_ReadinessObservations : list ReadinessObservation;
  su_UnprobedProcesses : list string;
  su_Errors : list ErrorRecord;
}.

(** Source: internal/verify/result.go:213-229 (Check). *)
Record Check_ : Type := mkCheck {
  ch_Status : string;
  ch_Generation : option Z;
  ch_Argv : list string;
  ch_ArgvSHA256 : option string;
  ch_ArgvBytes : Z;
  ch_Cwd : option string;
  ch_StartedAt : option string;
  ch_FinishedAt : option string;
  ch_DeadlineAt : option string;
  ch_ExitCode : option Z;
  ch_Signal : option string;
  ch_TimedOut : bool;
  ch_Stdout : string;
  ch_Stderr : string;
  ch_OutputTruncated : bool;
}.

(** Source: internal/verify/result.go:242-249 (Observation). *)
Record Observation : Type := mkObs {
  ob_Name : string;
  ob_Status : string;
  ob_Expected : option string;
  ob_Observed : option string;
}.

(** Source: internal/verify/result.go:231-240 (Environment). *)
Record Environment : Type := mkEnvironment {
  en_Required : bool;
  en_Status : string;
  en_Reason : option string;
  en_Observations : list Observation;
}.

(** Source: internal/verify/result.go:251-255 (UnresolvedProcess). *)
Record UnresolvedProcess : Type := mkUnresolved {
  up_Name : string;
  up_Generation : option Z;
  up_Identity : string;
}.

(** Source: internal/verify/result.go:273-283 (TeardownRecord). *)
Record TeardownRecord : Type := mkTeardownRecord {
  td_Name : string;
  td_Status : string;
  td_ExitCode : option Z;
  td_StartedAt : option string;
  td_FinishedAt : option string;
  td_Error : string;
}.

(** Source: internal/verify/result.go:257-271 (Cleanup). *)
Record Cleanup : Type := mkCleanup {
  cu_Status : string;
  cu_Attempted : bool;
  cu_StartedAt : option string;
  cu_FinishedAt : option string;
  cu_DeadlineAt : option string;
  cu_SignalingAuthority : string;
  cu_TerminationVerified : option bool;
  cu_UnresolvedProcesses : list UnresolvedProcess;
  cu_Errors : list ErrorRecord;
  cu_Teardown : list TeardownRecord;
}.

(** Source: internal/verify/result.go:285-293 (EvidenceEvent). *)
Record EvidenceEvent : Type := mkEvidenceEvent {
  ee_ID : string;
  ee_Process : string;
  ee_Generation : Z;
  ee_Level : string;
  ee_Code : string;
  ee_Message : string;
}.

(** Source: internal/verify/result.go:295-303 (Evidence). *)
Record Evidence : Type := mkEvidence {
  ev_Journal : option string;
  ev_FirstCursor : option string;
  ev_LastCursor : option string;
  ev_Gap : bool;
  ev_Truncated : bool;
  ev_ExcerptStatus : string;
  ev_Events : list EvidenceEvent;
}.

(** Source: internal/verify/result.go:305-310 (Owner). *)
Record AttemptOwner : Type := mkAttemptOwner { ao_PID : Z; ao_Hostname : string }.

(** Source: internal/verify/result.go:312-345 (Result). *)
Record Result : Type := mkResult {
  r_SchemaVersion : Z;
  r_Kind : string;
  r_State : string;
  r_AttemptID : option string;
  r_Status : string;
  r_Phase : string;
  r_Session : string;
  r_RunID : option string;
  r_ConfigPath : string;
  r_ConfigSHA256 : option string;
  r_Workdir : string;
  r_Source : SourceInfo;
  r_ToolVersion : string;
  r_Owner : option AttemptOwner;
  r_SelectedProcesses : list ProcessGeneration;
  r_Endpoints : gmap string Endpoint;
  r_EndpointsNote : option string;
  r_Startup : Startup;
  r_Check : Check_;
  r_Environment : Environment;
  r_Cleanup : Cleanup;
  r_Evidence : Evidence;
  r_Errors : list ErrorRecord;
  r_ExitCode : Z;
  r_Precedence : string;
  r_ReceiptPath : option string;
  r_ReceiptPersisted : bool;
  r_Retention : string;
  r_StartedAt : string;
  r_FinishedAt : option string;
}.

(** The fields the verdict sets. *)
Definition set_verdict (errors : list ErrorRecord) (finished : option string) (status : string)
    (exitCode : Z) (precedence : string) (r : Result) : Result :=
  mkResult (r_SchemaVersion r) (r_Kind r) (r_State r) (r_AttemptID r) status (r_Phase r) (r_Session r)
    (r_RunID r) (r_ConfigPath r) (r_ConfigSHA256 r) (r_Workdir r) (r_Source r) (r_ToolVersion r) (r_Owner r)
    (r_SelectedProcesses r) (r_Endpoints r) (r_EndpointsNote r) (r_Startup r) (r_Check r) (r_Environment r)
    (r_Cleanup r) (r_Evidence r) errors exitCode precedence (r_ReceiptPath r) (r_ReceiptPersisted r)
    (r_Retention r) (r_StartedAt r) finished.

(** Source: internal/verify/operation.go:952-965 (finishVerdict). *)
Definition finishVerdict (order : list string) (errs : Errors) (interrupt : bool) (now : option string)
    (r : Result) : Result :=
  let records := Records order errs in
  if interrupt then set_verdict records now StatusInterrupted ExitInterrupted "interruption" r
  else if 0 <? length records
  then set_verdict records now StatusFailed ExitFailed "failure_without_interruption" r
  else set_verdict records now StatusPassed ExitPassed "all_required_phases_passed" r.

(** The result without its optional excerpts.
    Source: internal/verify/result.go:429-432 (Encode, trimmed). *)
Definition trim_result (r : Result) : Result :=
  let c := r_Check r in
  let ch := mkCheck (ch_Status c) (ch_Generation c) (ch_Argv c) (ch_ArgvSHA256 c) (ch_ArgvBytes c)
                 (ch_Cwd c) (ch_StartedAt c) (ch_FinishedAt c) (ch_DeadlineAt c) (ch_ExitCode c)
                 (ch_Signal c) (ch_TimedOut c) "" "" true in
  let e := r_Evidence r in
  let evidence := mkEvidence (ev_Journal e) (ev_FirstCursor e) (ev_LastCursor e) (ev_Gap e) true
                    (ev_ExcerptStatus e) [] in
  mkResult (r_SchemaVersion r) (r_Kind r) (r_State r) (r_AttemptID r) (r_Status r) (r_Phase r) (r_Session r)
    (r_RunID r) (r_ConfigPath r) (r_ConfigSHA256 r) (r_Workdir r) (r_Source r) (r_ToolVersion r) (r_Owner r)
    (r_SelectedProcesses r) (r_Endpoints r) (r_EndpointsNote r) (r_Startup r) ch (r_Environment r)
    (r_Cleanup r) evidence (r_Errors r) (r_ExitCode r) (r_Precedence r) (r_ReceiptPath r)
    (r_ReceiptPersisted r) (r_Retention r) (r_StartedAt r) (r_FinishedAt r).

(** ** Encoding within the size limit *)

(** Source: internal/verify/result.go:362-371 (CompactIdentity). *)
Record CompactIdentity : Type := mkCompactIdentity {
  ci_ConfigSHA256 : option string;
  ci_SessionSHA256 : option string;
  ci_RunIDSHA256 : option string;
  ci_AttemptIDSHA256 : option string;
  ci_ArgvSHA256 : option string;
  ci_SelectionEndpointGenerationSHA256 : option string;
  ci_Complete : bool;
  ci_OmittedFields : list string;
}.

(** Source: internal/verify/result.go:347-360 (CompactError). *)
Record CompactError : Type := mkCompactError {
  ce_SchemaVersion : Z;
  ce_Kind : string;
  ce_Status : string;
  ce_Phase : string;
  ce_ExitCode : Z;
  ce_AttemptState : option string;
  ce_PhaseStatuses : gmap string string;
  ce_Errors : list ErrorRecord;
  ce_Identity : CompactIdentity;
  ce_TerminalReceiptPersisted : bool;
}.

(** 64 << 10
    Source: internal/verify/result.go:373-374 (MaxResultBytes). *)
Definition MaxResultBytes : Z := Z.shiftl 64 10.

Section encode.
(** The digest of a string, the length of a result's JSON, and the digest of
    the JSON of its selection. *)
Context (digest : string → string) (json_len : Result → Z) (selectionDigest : Result → option string).

(** Source: internal/verify/result.go:445-499 (Compact). *)
Definition Compact (order : Errors → list string) (result : Result) : CompactError :=
  let errs := Errors_Add CodeResultSizeLimit (fold_left errors_count (r_Errors result) ∅) in
  let status := if bool_decide (r_Status result = StatusPassed) then StatusFailed else r_Status result in
  let acquired := bool_decide (is_Some (r_RunID result)) in
  let exit := if bool_decide (status = StatusInterrupted) then ExitInterrupted
              else if acquired then ExitFailed else ExitUsage in
  let attemptState := if acquired then Some StateIndeterminate else None in
  let validation := if bool_decide (su_Validation (r_Startup result) = StatusFailed)
                    then StatusFailed else StatusPassed in
  mkCompactError SchemaVersion KindCompactError status (r_Phase result) exit attemptState
    (<["validation" := validation]>
    (<["startup" := su_Status (r_Startup result)]>
    (<["check" := ch_Status (r_Check result)]>
    (<["environment" := en_Status (r_Environment result)]>
    {["cleanup" := cu_Status (r_Cleanup result)]}))))
    (Records (order errs) errs)
    (mkCompactIdentity (r_ConfigSHA256 result) (digest <$> Some (r_Session result)) (digest <$> r_RunID result)
      (digest <$> r_AttemptID result) (ch_ArgvSHA256 (r_Check result)) (selectionDigest result) false
      ["config_path"; "workdir"; "session"; "run_id"; "attempt_id"; "argv"; "selected_processes";
       "process_generations"; "endpoints"; "source"; "tool_version"; "startup"; "check"; "environment";
       "cleanup"; "evidence"; "receipt_path"; "retention"; "started_at"; "finished_at"])
    false.

(** What is emitted, and the result the caller is left with.
    Source: internal/verify/result.go:419-443 (Encode). *)
Definition Encode (order : Errors → list string) (result : Result) : (Result + CompactError) * Result :=
  if (json_len result <=? MaxResultBytes)%Z then (inl result, result)
  else
    let trimmed := trim_result result in
    if (json_len trimmed <=? MaxResultBytes)%Z then (inl trimmed, trimmed)
    else (inr (Compact order result), result).

End encode.

(** ** Attempt identifiers *)

Definition crockford : string := "0123456789ABCDEFGHJKMNPQRSTVWXYZ".

(** The digit [i] of the alphabet. *)
Definition crockford_digit (i : Z) : ascii := default "0"%char (bytes crockford !! Z.to_nat i).

Definition uint64 (z : Z) : Z := (z mod 2 ^ 64)%Z.

(** The two words of the 16 bytes.
    Source: internal/verify/receipt.go:164-168 (NewAttemptID, words). *)
Definition words (raw : list Z) : Z * Z :=
  (fold_left (λ hi b, Z.lor (uint64 (Z.shiftl hi 8)) b) (take 8 raw) 0%Z,
   fold_left (λ lo b, Z.lor (uint64 (Z.shiftl lo 8)) b) (take 8 (drop 8 raw)) 0%Z).

(** The digits from the last to the first; [n] counts those left.
    Source: internal/verify/receipt.go:169-173 (NewAttemptID, digits). *)
Fixpoint base32 (n : nat) (hi lo : Z) (acc : list ascii) : list ascii :=
  match n with
  | O => acc
  | S n =>
      base32 n (Z.shiftr hi 5) (Z.lor (Z.shiftr lo 5) (uint64 (Z.shiftl hi 59)))
        (crockford_digit (Z.land lo 31) :: acc)
  end.

(** The six low bytes of a number, the highest first.
    Source: internal/verify/receipt.go:155-158 (NewAttemptID, time). *)
Fixpoint time_bytes (n : nat) (ms : Z) (acc : list Z) : list Z :=
  match n with O => acc | S n => time_bytes n (Z.shiftr ms 8) (Z.land ms 255 :: acc) end.

(** [random] are the ten random bytes.
    Source: internal/verify/receipt.go:150-175 (NewAttemptID). *)
Definition NewAttemptID (ms : Z) (random : list Z) : string :=
  let raw := time_bytes 6 (uint64 ms) [] ++ random in
  let '(hi, lo) := words raw in
  of_bytes (base32 26 hi lo []).

(** Source: internal/verify/receipt.go:195-207 (validAttemptID). *)
Definition validAttemptID (id : string) : bool :=
  (String.length id =? 26) && str_all (λ c, bool_decide (c ∈ bytes crockford)) id.

(** ** Receipts *)

(** Why a decoded receipt is refused; [exit_present] is whether the document
    has an exit code and [base] the name of its file.
    Source: internal/verify/receipt.go:209-250 (ReadReceipt). *)
Definition checkReceipt (base : string) (exit_present : bool) (r : Result) : option string :=
  if negb (r_SchemaVersion r =? SchemaVersion)%Z || negb (bool_decide (r_Kind r = KindReceipt))
  then Some "unsupported schema"
  else match r_AttemptID r with
       | None => Some "attempt_id is missing"
       | Some id =>
           if negb (validAttemptID id) then Some "is not an attempt id"
           else if negb (bool_decide (base = id +:+ ".json")) then Some "the file is not named after attempt_id"
           else if negb exit_present then Some "exit_code is missing"
           else if negb (recordedVerdict (r_State r) (r_Status r) (r_ExitCode r))
                then Some "is not an attempt record" else None
       end.

(** The receipts of a directory, newest first; [read] is the receipt a file
    holds, if it is accepted, and [entries] are the names of its files.
    Source: internal/verify/receipt.go:252-278 (ListReceipts). *)
Definition ListReceipts (read : string → option Result) (entries : list string) : list string :=
  rev (sort_strings (base.filter (λ name,
    has_suffix ".json" name = true ∧ has_prefix "." name = false ∧ is_Some (read name)) entries)).

(** Source: internal/verify/receipt.go:20-22 (RetainedTerminalReceipts). *)
Definition RetainedTerminalReceipts : nat := 20.

(** The files removed; [terminal] counts the terminal receipts seen.
    Source: internal/verify/receipt.go:280-304 (Prune). *)
Fixpoint prune (read : string → option Result) (keep : string) (terminal : nat) (paths : list string)
    : list string :=
  match paths with
  | [] => []
  | path :: paths =>
      match read path with
      | Some receipt =>
          if negb (bool_decide (r_State receipt = StateCompleted)) then prune read keep terminal paths
          else
            let terminal := S terminal in
            if (terminal <=? RetainedTerminalReceipts) || bool_decide (path = keep)
            then prune read keep terminal paths
            else path :: prune read keep terminal paths
      | None => prune read keep terminal paths
      end
  end.

Definition Prune (read : string → option Result) (entries : list string) (keep : string) : list string :=
  prune read keep 0 (ListReceipts read entries).

(** What is known of an attempt's owner: alive and whether that is known,
    whether it is still the session's runner, and whether the session's lease
    is held or cannot be told; [None] is a check that is not available.
    Source: internal/verify/receipt.go:306-316 (OwnerEvidence). *)
Record OwnerEvidence : Type := mkOwnerEvidence {
  oe_OwnerAlive : option (AttemptOwner → bool * bool);
  oe_OwnerRunning : option (AttemptOwner → bool);
  oe_LeaseHeld : option (res string bool);
}.

(** Source: internal/verify/receipt.go:318-345 (Classify). *)
Definition Classify (receipt : Result) (evidence : OwnerEvidence) : string :=
  if negb (bool_decide (r_State receipt = StateActive)) then r_State receipt
  else match r_Owner receipt, oe_OwnerAlive evidence with
       | Some owner, Some alive_of =>
           let '(alive, known) := alive_of owner in
           if negb known then StateIndeterminate
           else if alive && match oe_OwnerRunning evidence with Some f => f owner | None => false end
                then StateActive
           else if alive || bool_decide (oe_LeaseHeld evidence = None) then StateIndeterminate
           else match oe_LeaseHeld evidence with
                | Some (Ok false) => StateAbandoned
                | _ => StateIndeterminate
                end
       | _, _ => StateIndeterminate
       end.

(** ** The identifiers are big-endian numbers *)

(** The number written by bytes, the highest first. *)
Definition be_value (l : list Z) : Z := fold_left (λ v b, (v * 256 + b)%Z) l 0%Z.

Definition byte (b : Z) : Prop := (0 ≤ b < 256)%Z.

Lemma be_value_from l v : fold_left (λ v b, (v * 256 + b)%Z) l v = (v * 256 ^ Z.of_nat (length l) + be_value l)%Z.
Proof.
  revert v; induction l as [|b l IH]; intros v; cbn [fold_left length]; [unfold be_value; cbn; lia|].
  rewrite IH, Nat2Z.inj_succ, Z.pow_succ_r by lia. unfold be_value. cbn [fold_left].
  rewrite (IH (0 * 256 + b)%Z). unfold be_value. rewrite Z.mul_0_l, Z.add_0_l, Z.mul_add_distr_r. ring.
Qed.

Lemma be_value_app l1 l2 : be_value (l1 ++ l2) = (be_value l1 * 256 ^ Z.of_nat (length l2) + be_value l2)%Z.
Proof. unfold be_value at 1. rewrite fold_left_app, be_value_from. done. Qed.

Lemma be_value_bound l : Forall byte l → (0 ≤ be_value l < 256 ^ Z.of_nat (length l))%Z.
Proof.
  induction l as [|b l IH] using rev_ind; intros H; [cbn; lia|].
  apply Forall_app in H as [Hl [Hb _]%Forall_cons]. specialize (IH Hl). unfold byte in Hb.
  rewrite be_value_app, length_app. cbn [length]. rewrite Nat2Z.inj_add, Z.pow_add_r by lia.
  change (be_value [b]) with (0 * 256 + b)%Z. change (256 ^ Z.of_nat 1)%Z with 256%Z. nia.
Qed.

(** Bits that do not meet are added. *)
Lemma lor_disjoint a b k : (0 ≤ k)%Z → (0 ≤ b < 2 ^ k)%Z → Z.lor (a * 2 ^ k) b = (a * 2 ^ k + b)%Z.
Proof.
  intros Hk Hb. destruct (Z.eq_dec b 0%Z) as [->|Hb0]; [rewrite Z.lor_0_r; lia|].
  pose proof (Z.add_lor_land (a * 2 ^ k) b) as H.
  assert (Z.land (a * 2 ^ k) b = 0%Z) as Hz; [|lia].
  apply Z.bits_inj'. intros m Hm. rewrite Z.land_spec, Z.bits_0.
  destruct (Z.lt_ge_cases m k) as [Hlt|Hge]; [by rewrite Z.mul_pow2_bits_low|].
  rewrite (Z.bits_above_log2 b m), andb_false_r; [done|lia|].
  apply Z.log2_lt_pow2; [lia|]. apply Z.lt_le_trans with (2 ^ k)%Z; [lia|]. apply Z.pow_le_mono_r; lia.
Qed.

Lemma word_step h b : (0 ≤ h < 2 ^ 56)%Z → byte b → Z.lor (uint64 (Z.shiftl h 8)) b = (h * 256 + b)%Z.
Proof.
  intros Hh Hb. unfold uint64. rewrite Z.shiftl_mul_pow2 by lia. rewrite Z.mod_small by lia.
  change 256%Z with (2 ^ 8)%Z. apply lor_disjoint; [lia|exact Hb].
Qed.

Lemma word_value l v :
  Forall byte l → (0 ≤ v)%Z → (v * 256 ^ Z.of_nat (length l) + 256 ^ Z.of_nat (length l) ≤ 2 ^ 64)%Z →
  fold_left (λ h b, Z.lor (uint64 (Z.shiftl h 8)) b) l v = fold_left (λ v b, (v * 256 + b)%Z) l v.
Proof.
  revert v; induction l as [|b l IH]; intros v Hl Hv Hb; cbn [fold_left]; [done|].
  apply Forall_cons in Hl as [Hbyte Hl]. cbn [length] in Hb. rewrite Nat2Z.inj_succ, Z.pow_succ_r in Hb by lia.
  assert (0 < 256 ^ Z.of_nat (length l))%Z as Hp by (apply Z.pow_pos_nonneg; lia).
  unfold byte in Hbyte. rewrite word_step by (unfold byte; nia). apply IH; [done|nia|nia].
Qed.

(** The number the 16 bytes write, as two words. *)
Lemma words_value raw :
  Forall byte raw → length raw = 16 →
  let '(hi, lo) := words raw in
  (0 ≤ hi < 2 ^ 64)%Z ∧ (0 ≤ lo < 2 ^ 64)%Z ∧ (hi * 2 ^ 64 + lo)%Z = be_value raw.
Proof.
  intros Hraw Hlen. unfold words.
  assert (take 8 (drop 8 raw) = drop 8 raw) as -> by (apply take_ge; rewrite length_drop; lia).
  pose proof (Forall_take _ 8 _ Hraw) as H1. pose proof (Forall_drop _ 8 _ Hraw) as H2.
  assert (length (take 8 raw) = 8) as Hl1 by (rewrite length_take; lia).
  assert (length (drop 8 raw) = 8) as Hl2 by (rewrite length_drop; lia).
  rewrite !word_value by (done || rewrite ?Hl1, ?Hl2; done).
  pose proof (be_value_bound _ H1) as B1. pose proof (be_value_bound _ H2) as B2. rewrite Hl1 in B1. rewrite Hl2 in B2.
  fold (be_value (take 8 raw)) (be_value (drop 8 raw)). change (256 ^ Z.of_nat 8)%Z with (2 ^ 64)%Z in *.
  split; [lia|]. split; [lia|]. rewrite <-(take_drop 8 raw) at 3. rewrite be_value_app, Hl2. lia.
Qed.

(** ** The digits are those of the number in base 32 *)

(** The [n] digits of [v], the highest first. *)
Fixpoint be_digits (n : nat) (v : Z) : list ascii :=
  match n with
  | O => []
  | S n => crockford_digit (v / 32 ^ Z.of_nat n) :: be_digits n (v mod 32 ^ Z.of_nat n)
  end.

Lemma be_digits_snoc n v : (0 ≤ v < 32 ^ Z.of_nat (S n))%Z →
  be_digits (S n) v = be_digits n (v / 32) ++ [crockford_digit (v mod 32)].
Proof.
  revert v; induction n as [|n IH]; intros v Hv.
  { cbn -[crockford_digit Z.div Z.modulo]. rewrite Z.div_1_r. change (32 ^ Z.of_nat 1)%Z with 32%Z in Hv.
    by rewrite Z.mod_small. }
  assert (0 < 32 ^ Z.of_nat n)%Z as Hn by (apply Z.pow_pos_nonneg; lia).
  assert (32 ^ Z.of_nat (S n) = 32 * 32 ^ Z.of_nat n)%Z as Hm by (rewrite Nat2Z.inj_succ, Z.pow_succ_r; lia).
  change (be_digits (S (S n)) v) with
    (crockford_digit (v / 32 ^ Z.of_nat (S n)) :: be_digits (S n) (v mod 32 ^ Z.of_nat (S n))).
  rewrite IH by (apply Z.mod_pos_bound; lia).
  change (be_digits (S n) (v / 32)) with
    (crockford_digit (v / 32 / 32 ^ Z.of_nat n) :: be_digits n ((v / 32) mod 32 ^ Z.of_nat n)).
  rewrite Hm, Z.div_div, Z.rem_mul_r by lia. cbn [app]. f_equal.
  assert (0 ≤ v mod 32 < 32)%Z as Hr by (apply Z.mod_pos_bound; lia).
  rewrite Z.mul_comm, Z.div_add, Z.mod_add, (Z.div_small (v mod 32)), Z.add_0_l, Z.mod_mod by lia. done.
Qed.

(** One round of the loop divides the two-word number by 32. *)
Lemma base32_step hi lo :
  (0 ≤ hi < 2 ^ 64)%Z → (0 ≤ lo < 2 ^ 64)%Z →
  let hi' := Z.shiftr hi 5 in
  let lo' := Z.lor (Z.shiftr lo 5) (uint64 (Z.shiftl hi 59)) in
  (0 ≤ hi' < 2 ^ 64)%Z ∧ (0 ≤ lo' < 2 ^ 64)%Z ∧
  (hi' * 2 ^ 64 + lo')%Z = ((hi * 2 ^ 64 + lo) / 32)%Z ∧
  Z.land lo 31 = ((hi * 2 ^ 64 + lo) mod 32)%Z.
Proof.
  intros Hhi Hlo. cbn zeta. unfold uint64.
  rewrite !Z.shiftr_div_pow2, Z.shiftl_mul_pow2 by lia.
  assert ((hi * 2 ^ 59) mod 2 ^ 64 = hi mod 2 ^ 5 * 2 ^ 59)%Z as ->.
  { change (2 ^ 64)%Z with (2 ^ 5 * 2 ^ 59)%Z. apply Z.mul_mod_distr_r; lia. }
  rewrite Z.lor_comm. pose proof (Z.div_mod hi (2 ^ 5) ltac:(lia)) as Hdiv.
  pose proof (Z.mod_pos_bound hi (2 ^ 5) ltac:(lia)) as Hmod.
  assert (0 ≤ lo / 2 ^ 5 < 2 ^ 59)%Z as Hlo5.
  { split; [apply Z.div_pos; lia|]. apply Z.div_lt_upper_bound; lia. }
  assert (0 ≤ hi / 2 ^ 5 < 2 ^ 59)%Z as Hhi5.
  { split; [apply Z.div_pos; lia|]. apply Z.div_lt_upper_bound; lia. }
  rewrite lor_disjoint by lia. split_and!; try lia.
  - replace (hi * 2 ^ 64 + lo)%Z with (lo + hi * 2 ^ 59 * 32)%Z by lia.
    rewrite Z.div_add by lia. change (2 ^ 5)%Z with 32%Z in *. lia.
  - change 31%Z with (Z.ones 5). rewrite Z.land_ones by lia.
    replace (hi * 2 ^ 64 + lo)%Z with (lo + hi * 2 ^ 59 * 32)%Z by lia.
    by rewrite Z.mod_add by lia.
Qed.

Lemma base32_digits n hi lo acc :
  (0 ≤ hi < 2 ^ 64)%Z → (0 ≤ lo < 2 ^ 64)%Z → (hi * 2 ^ 64 + lo < 32 ^ Z.of_nat n)%Z →
  base32 n hi lo acc = be_digits n (hi * 2 ^ 64 + lo) ++ acc.
Proof.
  revert hi lo acc; induction n as [|n IH]; intros hi lo acc Hhi Hlo Hv; [done|]. cbn [base32].
  destruct (base32_step hi lo Hhi Hlo) as (H1 & H2 & H3 & H4).
  rewrite IH; [|done|done|].
  - rewrite H3, H4, be_digits_snoc by lia. by rewrite <-app_assoc.
  - rewrite H3. rewrite Nat2Z.inj_succ, Z.pow_succ_r in Hv by lia. apply Z.div_lt_upper_bound; lia.
Qed.

(** *** The order of the digits is that of the numbers *)

Lemma crockford_increasing i j : (0 ≤ i < 32)%Z → (0 ≤ j < 32)%Z →
  Ascii.compare (crockford_digit i) (crockford_digit j) = Z.compare i j.
Proof.
  assert (forallb (λ i, forallb (λ j, bool_decide (Ascii.compare (crockford_digit (Z.of_nat i))
    (crockford_digit (Z.of_nat j)) = Z.compare (Z.of_nat i) (Z.of_nat j))) (seq 0 32)) (seq 0 32) = true) as H
    by (vm_compute; reflexivity).
  intros Hi Hj. rewrite forallb_forall in H. specialize (H (Z.to_nat i)). rewrite in_seq in H.
  specialize (H ltac:(lia)). rewrite forallb_forall in H. specialize (H (Z.to_nat j)).
  rewrite in_seq in H. specialize (H ltac:(lia)). apply bool_decide_eq_true in H.
  by rewrite !Z2Nat.id in H by lia.
Qed.

Lemma be_digits_order n v w :
  (0 ≤ v < 32 ^ Z.of_nat n)%Z → (0 ≤ w < 32 ^ Z.of_nat n)%Z →
  String.compare (of_bytes (be_digits n v)) (of_bytes (be_digits n w)) = Z.compare v w.
Proof.
  revert v w; induction n as [|n IH]; intros v w Hv Hw.
  { cbn in *. assert (v = 0%Z) as -> by lia. by assert (w = 0%Z) as -> by lia. }
  assert (0 < 32 ^ Z.of_nat n)%Z as Hp by (apply Z.pow_pos_nonneg; lia).
  rewrite Nat2Z.inj_succ, Z.pow_succ_r in Hv, Hw by lia.
  set (p := (32 ^ Z.of_nat n)%Z) in *. cbn [be_digits of_bytes String.compare]. fold p.
  assert (∀ x, (0 ≤ x < 32 * p → 0 ≤ x / p < 32))%Z as Hd.
  { intros x Hx. split; [apply Z.div_pos; lia|]. apply Z.div_lt_upper_bound; lia. }
  rewrite crockford_increasing by (by apply Hd).
  pose proof (Z.div_mod v p ltac:(lia)). pose proof (Z.div_mod w p ltac:(lia)).
  pose proof (Z.mod_pos_bound v p ltac:(lia)). pose proof (Z.mod_pos_bound w p ltac:(lia)).
  destruct (Z.compare_spec (v / p) (w / p)) as [Heq|Hlt|Hgt].
  - rewrite IH by done. rewrite Heq in *. destruct (Z.compare_spec (v mod p) (w mod p)); symmetry.
    + apply Z.compare_eq_iff. lia.
    + apply Z.compare_lt_iff. lia.
    + apply Z.compare_gt_iff. lia.
  - symmetry. apply Z.compare_lt_iff. nia.
  - symmetry. apply Z.compare_gt_iff. nia.
Qed.

(** *** The time is in front *)

Lemma time_bytes_value n ms acc :
  time_bytes n ms acc = time_bytes n ms [] ++ acc.
Proof.
  revert ms acc; induction n as [|n IH]; intros ms acc; cbn [time_bytes]; [done|].
  rewrite IH, (IH _ [Z.land ms 255]). by rewrite <-app_assoc.
Qed.

Lemma time_bytes_spec n ms : (0 ≤ ms)%Z →
  Forall byte (time_bytes n ms []) ∧ length (time_bytes n ms []) = n ∧
  be_value (time_bytes n ms []) = (ms mod 256 ^ Z.of_nat n)%Z.
Proof.
  revert ms; induction n as [|n IH]; intros ms Hms; cbn [time_bytes].
  { split_and!; [done..|]. by rewrite Z.mod_1_r. }
  rewrite time_bytes_value. destruct (IH (Z.shiftr ms 8)) as (H1 & H2 & H3); [by apply Z.shiftr_nonneg|].
  change 255%Z with (Z.ones 8). rewrite Z.land_ones by lia. change (2 ^ 8)%Z with 256%Z.
  rewrite Z.shiftr_div_pow2 in * by lia. change (2 ^ 8)%Z with 256%Z in *.
  pose proof (Z.mod_pos_bound ms 256 ltac:(lia)).
  split_and!.
  - apply Forall_app. split; [done|]. constructor; [exact H|done].
  - rewrite length_app. cbn. lia.
  - rewrite be_value_app, H3. cbn [length]. change (256 ^ Z.of_nat 1)%Z with 256%Z.
    change (be_value [(ms mod 256)%Z]) with (0 * 256 + ms mod 256)%Z.
    assert (0 < 256 ^ Z.of_nat n)%Z by (apply Z.pow_pos_nonneg; lia).
    rewrite Nat2Z.inj_succ, Z.pow_succ_r, Z.rem_mul_r by lia. lia.
Qed.

(** The number an identifier writes. *)
Definition attempt_value (ms : Z) (random : list Z) : Z := (ms * 2 ^ 80 + be_value random)%Z.

Definition random_bytes (l : list Z) : Prop := Forall byte l ∧ length l = 10.

Lemma attempt_value_bound ms random : (0 ≤ ms < 2 ^ 48)%Z → random_bytes random →
  (0 ≤ attempt_value ms random < 2 ^ 128)%Z.
Proof.
  intros Hms [Hr Hl]. pose proof (be_value_bound random Hr) as H. rewrite Hl in H.
  change (256 ^ Z.of_nat 10)%Z with (2 ^ 80)%Z in H. unfold attempt_value. lia.
Qed.

Lemma NewAttemptID_digits ms random : (0 ≤ ms < 2 ^ 48)%Z → random_bytes random →
  NewAttemptID ms random = of_bytes (be_digits 26 (attempt_value ms random)).
Proof.
  intros Hms Hr. pose proof (attempt_value_bound ms random Hms Hr) as Hb. destruct Hr as [Hr Hl].
  unfold NewAttemptID. assert (uint64 ms = ms) as -> by (unfold uint64; apply Z.mod_small; lia).
  destruct (time_bytes_spec 6 ms ltac:(lia)) as (H1 & H2 & H3). set (raw := time_bytes 6 ms [] ++ random).
  assert (be_value raw = attempt_value ms random) as Hv.
  { unfold raw, attempt_value. rewrite be_value_app, H3, Hl, Z.mod_small; [done|].
    change (256 ^ Z.of_nat 6)%Z with (2 ^ 48)%Z. done. }
  pose proof (words_value raw) as Hw. destruct (words raw) as [hi lo].
  destruct Hw as (Hhi & Hlo & Heq); [by apply Forall_app|unfold raw; rewrite length_app; lia|].
  rewrite base32_digits; [by rewrite Heq, Hv, app_nil_r|done..|].
  rewrite Heq, Hv. change (32 ^ Z.of_nat 26)%Z with (2 ^ 130)%Z. lia.
Qed.

Lemma be_digits_valid n v : (0 ≤ v < 32 ^ Z.of_nat n)%Z →
  length (be_digits n v) = n ∧ Forall (λ c, c ∈ bytes crockford) (be_digits n v).
Proof.
  revert v; induction n as [|n IH]; intros v Hv; cbn [be_digits]; [done|].
  assert (0 < 32 ^ Z.of_nat n)%Z as Hp by (apply Z.pow_pos_nonneg; lia).
  rewrite Nat2Z.inj_succ, Z.pow_succ_r in Hv by lia.
  destruct (IH (v mod 32 ^ Z.of_nat n)%Z) as [H1 H2]; [apply Z.mod_pos_bound; lia|].
  split; [cbn; lia|]. constructor; [|done].
  assert (0 ≤ v / 32 ^ Z.of_nat n < 32)%Z as Hd.
  { split; [apply Z.div_pos; lia|]. apply Z.div_lt_upper_bound; lia. }
  unfold crockford_digit. destruct (bytes crockford !! Z.to_nat (v / 32 ^ Z.of_nat n)) as [c|] eqn:E.
  - by eapply list_elem_of_lookup_2.
  - apply lookup_ge_None in E. change (length (bytes crockford)) with 32 in E. lia.
Qed.

(** An attempt identifier is a 26-digit Crockford number that writes its
    creation time in front of its random bits, computed without loss in two
    64-bit words: it has the shape the receipt reader requires, it determines
    its time and bits, and identifiers compare as strings the way these numbers
    do, so name order is creation order. *)
Theorem NewAttemptID_ordered ms1 random1 ms2 random2 :
  (0 ≤ ms1 < 2 ^ 48)%Z → (0 ≤ ms2 < 2 ^ 48)%Z → random_bytes random1 → random_bytes random2 →
  validAttemptID (NewAttemptID ms1 random1) = true ∧
  String.compare (NewAttemptID ms1 random1) (NewAttemptID ms2 random2) =
    Z.compare (attempt_value ms1 random1) (attempt_value ms2 random2) ∧
  ((ms1 < ms2)%Z → String.compare (NewAttemptID ms1 random1) (NewAttemptID ms2 random2) = Lt).
Proof.
  intros H1 H2 R1 R2. rewrite !NewAttemptID_digits by done.
  pose proof (attempt_value_bound _ _ H1 R1) as B1. pose proof (attempt_value_bound _ _ H2 R2) as B2.
  assert (∀ x, 0 ≤ x < 2 ^ 128 → 0 ≤ x < 32 ^ Z.of_nat 26)%Z as Hb.
  { intros x Hx. change (32 ^ Z.of_nat 26)%Z with (2 ^ 130)%Z. lia. }
  rewrite be_digits_order by auto. split; [|split; [done|]].
  - destruct (be_digits_valid 26 _ (Hb _ B1)) as [Hl Hf]. unfold validAttemptID, str_all.
    rewrite <-length_bytes, bytes_of_bytes, Hl. cbn [Nat.eqb andb]. apply forallb_forall.
    intros c Hc. apply bool_decide_eq_true. rewrite Forall_forall in Hf. by apply Hf, list_elem_of_In.
  - intros Hlt. apply Z.compare_lt_iff. unfold attempt_value.
    destruct R1 as [F1 L1], R2 as [F2 L2].
    pose proof (be_value_bound _ F1) as V1. pose proof (be_value_bound _ F2) as V2. rewrite L1 in V1.
    change (256 ^ Z.of_nat 10)%Z with (2 ^ 80)%Z in V1. lia.
Qed.

Lemma base32_alphabet n hi lo acc : Forall (λ c, c ∈ bytes crockford) acc →
  Forall (λ c, c ∈ bytes crockford) (base32 n hi lo acc) ∧ length (base32 n hi lo acc) = n + length acc.
Proof.
  revert hi lo acc. induction n as [|n IH]; intros hi lo acc Ha; cbn [base32]; [done|].
  destruct (IH (Z.shiftr hi 5) (Z.lor (Z.shiftr lo 5) (uint64 (Z.shiftl hi 59))) (crockford_digit (Z.land lo 31) :: acc)) as [H1 H2].
  { constructor; [|done]. unfold crockford_digit. destruct (bytes crockford !! _) eqn:E; [by eapply list_elem_of_lookup_2|by left]. }
  split; [done|]. rewrite H2. cbn [length]. lia.
Qed.

Lemma NewAttemptID_valid ms random : validAttemptID (NewAttemptID ms random) = true.
Proof.
  unfold NewAttemptID, validAttemptID, str_all. destruct (words _) as [hi lo].
  destruct (base32_alphabet 26 hi lo []) as [H1 H2]; [constructor|]. rewrite <-length_bytes, bytes_of_bytes, H2. cbn [Nat.add length Nat.eqb andb].
  apply forallb_forall. intros c Hc. apply bool_decide_eq_true. rewrite Forall_forall in H1. apply H1. by apply list_elem_of_In.
Qed.

(** ** The verdict *)

Lemma Records_spec order e : order ≡ₚ keys e →
  Records order e = [] ↔ ∀ code count, e !! code = Some count → (count ≤ 0)%Z.
Proof.
  intros Ho. unfold Records, Errors in *. split.
  - intros H code count Hc. destruct (Z.lt_ge_cases 0 count) as [Hpos|]; [|done]. exfalso.
    assert (mkErrorRecord code count ∈ (@nil ErrorRecord)) as Hin; [|by apply not_elem_of_nil in Hin].
    rewrite <-H. apply list_elem_of_omap. exists code. split.
    + rewrite elem_of_sort_strings, Ho, elem_of_keys. by exists count.
    + cbv beta. rewrite Hc. by rewrite (proj2 (Z.ltb_lt 0 count)).
  - intros H. destruct (omap _ _) as [|x l] eqn:E; [done|].
    assert (x ∈ x :: l) as Hin by apply list_elem_of_here. rewrite <-E in Hin.
    apply list_elem_of_omap in Hin as (code & _ & Hx). cbv beta in Hx. destruct (e !! code) as [count|] eqn:Hc; [|done].
    pose proof (H code count Hc). by rewrite (proj2 (Z.ltb_ge 0 count)) in Hx.
Qed.

(** The verdict of an attempt is one a receipt can record; it passes
    exactly when it was not interrupted and no error was counted, and an
    interruption takes precedence over failures without erasing them. *)
Theorem finishVerdict_spec order errs interrupt now r :
  order ≡ₚ keys errs →
  let r' := finishVerdict order errs interrupt now r in
  recordedVerdict StateCompleted (r_Status r') (r_ExitCode r') = true ∧
  r_Errors r' = Records order errs ∧
  (r_Status r' = StatusPassed ↔ interrupt = false ∧ ∀ code count, errs !! code = Some count → (count ≤ 0)%Z) ∧
  (r_Status r' = StatusInterrupted ↔ interrupt = true) ∧
  r_Startup r' = r_Startup r ∧ r_Check r' = r_Check r ∧ r_Cleanup r' = r_Cleanup r.
Proof.
  intros Ho r'. unfold r', finishVerdict. clear r'. rewrite <-(Records_spec order errs Ho).
  destruct interrupt; [|destruct (Records order errs) as [|x l]];
    cbn [length Nat.ltb Nat.leb]; split_and!; try done; split; try done; naive_solver.
Qed.

(** What is emitted fits the size limit or is the compact form, and the
    compact form never reports a success, whatever the result was. *)
Theorem Encode_honest digest json_len selectionDigest order r :
  let '(out, kept) := Encode digest json_len selectionDigest order r in
  r_Status kept = r_Status r ∧ r_ExitCode kept = r_ExitCode r ∧
  match out with
  | inl r' => r' = kept ∧ (json_len r' ≤ MaxResultBytes)%Z
  | inr c => kept = r ∧ (MaxResultBytes < json_len r)%Z ∧ ce_Status c ≠ StatusPassed ∧ ce_ExitCode c ≠ 0%Z ∧
             ce_Status c = (if bool_decide (r_Status r = StatusPassed) then StatusFailed else r_Status r)
  end.
Proof.
  unfold Encode. destruct (Z.leb_spec (json_len r) MaxResultBytes); [by split_and!|].
  destruct (Z.leb_spec (json_len (trim_result r)) MaxResultBytes); [by split_and!|].
  split_and!; try done; unfold Compact; cbn [ce_Status ce_ExitCode].
  - case_bool_decide; done.
  - destruct (bool_decide (r_Status r = StatusPassed)); repeat case_bool_decide; done.
Qed.

(** ** Pruning and classification *)

Definition terminal_receipt (read : string → option Result) (path : string) : bool :=
  match read path with Some r => bool_decide (r_State r = StateCompleted) | None => false end.

Lemma prune_exact read keep k paths p :
  p ∈ prune read keep k paths ↔
  ∃ l1 l2, paths = l1 ++ p :: l2 ∧ terminal_receipt read p = true ∧ p ≠ keep ∧
    RetainedTerminalReceipts <= k + length (List.filter (terminal_receipt read) l1).
Proof.
  revert k; induction paths as [|x paths IH]; intros k.
  { cbn. split; [by intros ?%not_elem_of_nil|]. intros ([|] & ? & ? & _); done. }
  assert (∀ k', (∃ l1 l2, paths = l1 ++ p :: l2 ∧ terminal_receipt read p = true ∧ p ≠ keep ∧
      RetainedTerminalReceipts <= k' + length (List.filter (terminal_receipt read) l1)) ↔
    (∃ l1 l2, x :: paths = (x :: l1) ++ p :: l2 ∧ terminal_receipt read p = true ∧ p ≠ keep ∧
      RetainedTerminalReceipts <= k' + length (List.filter (terminal_receipt read) l1))) as Hshift.
  { intros k'. split; intros (l1 & l2 & Heq & ?); exists l1, l2; cbn in *; split; auto; congruence. }
  assert (∀ (P : list string → Prop), (∃ l1 l2, x :: paths = l1 ++ p :: l2 ∧ terminal_receipt read p = true ∧
      p ≠ keep ∧ P l1) ↔
    (x = p ∧ terminal_receipt read p = true ∧ p ≠ keep ∧ P []) ∨
    (∃ l1 l2, x :: paths = (x :: l1) ++ p :: l2 ∧ terminal_receipt read p = true ∧ p ≠ keep ∧ P (x :: l1)))
    as Hcase.
  { intros P. split.
    - intros ([|y l1] & l2 & Heq & ?); cbn in Heq; injection Heq as -> ->; [by left|right].
      exists l1, l2. by split.
    - intros [(-> & ?)|(l1 & l2 & Heq & ?)]; [by exists [], paths|by exists (x :: l1), l2]. }
  rewrite Hcase. cbn [List.filter length]. clear Hcase. cbn [prune].
  unfold terminal_receipt at 3. destruct (read x) as [r|] eqn:Hr.
  2:{ rewrite IH, Hshift. split; [by right|]. intros [(-> & Ht & _)|?]; [|done].
      unfold terminal_receipt in Ht. by rewrite Hr in Ht. }
  destruct (bool_decide (r_State r = StateCompleted)) eqn:Hs; cbn [negb].
  2:{ rewrite IH, Hshift. split; [by right|]. intros [(-> & Ht & _)|?]; [|done].
      unfold terminal_receipt in Ht. by rewrite Hr, Hs in Ht. }
  assert (terminal_receipt read x = true) as Hx by (unfold terminal_receipt; by rewrite Hr).
  cbn [length]. setoid_rewrite Nat.add_succ_r. setoid_rewrite <-Nat.add_succ_l.
  destruct ((S k <=? RetainedTerminalReceipts) || bool_decide (x = keep)) eqn:Hkeep.
  - rewrite IH, Hshift. split; [by right|]. intros [(-> & _ & Hne & Hle)|?]; [|done]. exfalso.
    apply orb_true_iff in Hkeep as [Hk%Nat.leb_le|Hk%bool_decide_eq_true]; [|done]. cbn in Hle. lia.
  - apply orb_false_iff in Hkeep as [Hk%Nat.leb_gt Hne%bool_decide_eq_false].
    rewrite elem_of_cons, IH, Hshift. split; [|naive_solver].
    intros [->|?]; [|by right]. left. split_and!; [done..|]. cbn. lia.
Qed.

(** Pruning removes exactly the terminal receipts, other than the one just
    written, that are older than the twenty newest terminal ones: never an
    active receipt, never a file that is not a receipt. *)
Theorem Prune_exact read entries keep p :
  p ∈ Prune read entries keep ↔
  ∃ l1 l2, ListReceipts read entries = l1 ++ p :: l2 ∧ terminal_receipt read p = true ∧ p ≠ keep ∧
    20 <= length (List.filter (terminal_receipt read) l1).
Proof. unfold Prune. by rewrite prune_exact. Qed.

(** A receipt without a verdict is called abandoned only on positive
    evidence: its owner is known to be gone and the session's lease was seen to
    be free; and it is called active only while its owner is known to be alive
    and still the session's runner. *)
Theorem Classify_exact receipt evidence :
  r_State receipt = StateActive →
  (Classify receipt evidence = StateAbandoned ↔
   ∃ owner alive_of, r_Owner receipt = Some owner ∧ oe_OwnerAlive evidence = Some alive_of ∧
     alive_of owner = (false, true) ∧ oe_LeaseHeld evidence = Some (Ok false)) ∧
  (Classify receipt evidence = StateActive ↔
   ∃ owner alive_of running, r_Owner receipt = Some owner ∧ oe_OwnerAlive evidence = Some alive_of ∧
     alive_of owner = (true, true) ∧ oe_OwnerRunning evidence = Some running ∧ running owner = true) ∧
  Classify receipt evidence ∈ [StateActive; StateAbandoned; StateIndeterminate].
Proof.
  intros Hs. unfold Classify. rewrite bool_decide_eq_true_2 by done. cbn [negb].
  assert (StateIndeterminate ≠ StateAbandoned ∧ StateIndeterminate ≠ StateActive ∧
    StateAbandoned ≠ StateActive) as (N1 & N2 & N3) by done.
  assert (∀ A B : Prop, ¬ A → ¬ B →
    (StateIndeterminate = StateAbandoned ↔ A) ∧ (StateIndeterminate = StateActive ↔ B) ∧
    StateIndeterminate ∈ [StateActive; StateAbandoned; StateIndeterminate]) as Hno.
  { intros A B HA HB. split; [tauto|]. split; [tauto|]. set_solver. }
  destruct (r_Owner receipt) as [owner|];
    [|apply Hno; [by intros (? & ? & H & _)|by intros (? & ? & ? & H & _)]].
  destruct (oe_OwnerAlive evidence) as [alive_of|];
    [|apply Hno; [by intros (? & ? & _ & H & _)|by intros (? & ? & ? & _ & H & _)]].
  destruct (alive_of owner) as [alive known] eqn:Ha.
  assert (∀ P : Prop, (∃ o f, Some owner = Some o ∧ Some alive_of = Some f ∧ f o = (false, true) ∧ P) →
    (alive, known) = (false, true) ∧ P) as HA by (intros P (? & ? & [= <-] & [= <-] & ? & ?); split; congruence).
  assert (∀ P : (AttemptOwner → bool) → AttemptOwner → Prop,
    (∃ o f g, Some owner = Some o ∧ Some alive_of = Some f ∧ f o = (true, true) ∧ P g o) →
    (alive, known) = (true, true) ∧ ∃ g, P g owner) as HB.
  { intros P (? & ? & g & [= <-] & [= <-] & ? & ?). split; [congruence|]. by exists g. }
  destruct known; cbn [negb]; [|apply Hno; [by intros [H _]%HA|by intros [H _]%(HB (λ g o, _ = Some g ∧ g o = true))]].
  destruct alive; cbn [andb orb].
  - destruct (oe_OwnerRunning evidence) as [f|];
      [|apply Hno; [by intros [H _]%HA|by intros [_ [? [H _]]]%(HB (λ g o, None = Some g ∧ g o = true))]].
    destruct (f owner) eqn:Hf.
    2:{ apply Hno; [by intros [H _]%HA|]. intros [_ (g & [= <-] & H)]%(HB (λ g o, Some f = Some g ∧ g o = true)).
        congruence. }
    split; [split; [done|by intros [H _]%HA]|]. split; [split; [intros _|done]|set_solver].
    by exists owner, alive_of, f.
  - assert (¬ ∃ o f g, Some owner = Some o ∧ Some alive_of = Some f ∧ f o = (true, true) ∧
      oe_OwnerRunning evidence = Some g ∧ g o = true) as HB'.
    { by intros [H _]%(HB (λ g o, oe_OwnerRunning evidence = Some g ∧ g o = true)). }
    destruct (oe_LeaseHeld evidence) as [[[]|]|] eqn:Hl; cbn;
      rewrite ?bool_decide_eq_false_2, ?bool_decide_eq_true_2 by done;
      try (apply Hno; [by intros [_ H]%HA|done]).
    split; [split; [intros _|done]; by exists owner, alive_of|]. split; [split; [done|tauto]|set_solver].
Qed.

(** ** Witnesses *)

Definition zero_bytes : list Z := [0; 0; 0; 0; 0; 0; 0; 0; 0; 0]%Z.

Lemma NewAttemptID_ordered_witness :
  NewAttemptID 1469918176385 zero_bytes = "01ARYZ6S410000000000000000" ∧
  validAttemptID (NewAttemptID 1469918176385 zero_bytes) = true ∧
  String.compare (NewAttemptID 1469918176385 zero_bytes) (NewAttemptID 1469918176386 zero_bytes) = Lt.
Proof.
  assert (random_bytes zero_bytes) as Hr.
  { split; [|reflexivity]. repeat (constructor; [split; [lia|reflexivity]|]). constructor. }
  destruct (NewAttemptID_ordered 1469918176385 zero_bytes 1469918176386 zero_bytes) as (H1 & _ & H3);
    [lia|lia|exact Hr|exact Hr|].
  split; [vm_compute; reflexivity|]. split; [exact H1|]. apply H3. lia.
Defined.

Definition example_result (state : string) : Result :=
  mkResult 1 KindReceipt state (Some "01ARYZ6S410000000000000000") StatusNotRun "checking" "default" (Some "1-1")
    "proc-compose.yml" None "/w" (mkSource None None None false []) "dev" (Some (mkAttemptOwner 42 "host")) [] ∅ None
    (mkStartup StatusPassed None None None StatusPassed [] [] [])
    (mkCheck StatusPassed None [] None 0 None None None None (Some 0%Z) None false "" "" false)
    (mkEnvironment false StatusNotRun None []) (mkCleanup StatusPassed true None None None "withdrawn" (Some true) [] [] [])
    (mkEvidence None None None false false "complete" []) [] 0 "no_verdict" None false "" "" None.

Lemma finishVerdict_spec_witness :
  let errs := {["check_exit_nonzero" := 1%Z]} in
  r_Errors (finishVerdict (keys errs) errs false None (example_result StateActive)) =
    [mkErrorRecord "check_exit_nonzero" 1] ∧
  recordedVerdict StateCompleted (r_Status (finishVerdict (keys errs) errs false None (example_result StateActive)))
    (r_ExitCode (finishVerdict (keys errs) errs false None (example_result StateActive))) = true.
Proof.
  intros errs.
  destruct (finishVerdict_spec (keys errs) errs false None (example_result StateActive) (Permutation_refl _))
    as (H1 & H2 & _).
  split; [rewrite H2; vm_compute; reflexivity|exact H1].
Defined.

Lemma Classify_exact_witness :
  Classify (example_result StateActive)
    (mkOwnerEvidence (Some (λ _, (false, true))) None (Some (Ok false))) = StateAbandoned.
Proof.
  apply (Classify_exact (example_result StateActive)
    (mkOwnerEvidence (Some (λ _, (false, true))) None (Some (Ok false))) eq_refl).
  eexists _, _. split; [reflexivity|]. split; [reflexivity|]. split; reflexivity.
Defined.
