(* ===== verification/Compare.v ===== *)
(** * Comparing two environments

    [Compare] runs one scenario alternately in two environments and judges
    whether their outcomes are equal.  A run is an argument: the result of the
    options it is given, and whether the context had ended after it.  The
    digest of an output and the parsing of a time are arguments too. *)

From S2P Require Import Prelude GoStrings ConfigTypes RunnerState Lifecycle Groups Teardown VerifyRecords.

(** Source: internal/verify/compare.go:10-11 (MaxCompareRepeat). *)
Definition MaxCompareRepeat : Z := 5.

Inductive Side : Type := Baseline | Candidate.

#[export] Instance Side_eq_dec : EqDecision Side.
Proof. solve_decision. Defined.

Definition side_name (s : Side) : string :=
  match s with Baseline => "baseline" | Candidate => "candidate" end.

(** The value of a differing field. *)
Inductive field_value : Type := VStr (s : string) | VExit (c : option Z).

(** Source: internal/verify/compare.go:29-33 (Difference). *)
Record Difference : Type := mkDifference {
  df_Field : string;
  df_Baseline : field_value;
  df_Candidate : field_value;
}.

(** Source: internal/verify/compare.go:43-61 (AttemptOutcome). *)
Record AttemptOutcome : Type := mkOutcome {
  ao_AttemptID : option string;
  ao_Status : string;
  ao_ExitCode : Z;
  ao_StartupStatus : string;
  ao_CheckStatus : string;
  ao_CheckExitCode : option Z;
  ao_StdoutSHA256 : string;
  ao_StderrSHA256 : string;
  ao_StdoutExcerpt : string;
  ao_OutputTruncated : bool;
  ao_CheckMs : option Z;
  ao_CleanupStatus : string;
  ao_EnvironmentStatus : string;
  ao_ReceiptPath : option string;
  ao_ReceiptPersisted : bool;
  ao_Errors : list ErrorRecord;
}.

(** Source: internal/verify/compare.go:35-41 (SideSummary). *)
Record SideSummary : Type := mkSummary {
  ss_ConfigPath : string;
  ss_Session : string;
  ss_Attempts : list AttemptOutcome;
  ss_MedianCheckMs : option Z;
  ss_Consistent : bool;
}.

(** Source: internal/verify/compare.go:13-27 (Comparison). *)
Record Comparison : Type := mkComparison {
  c_SchemaVersion : Z;
  c_Kind : string;
  c_Status : string;
  c_ExitCode : Z;
  c_OutcomesEqual : option bool;
  c_Differences : list Difference;
  c_Sides : option (SideSummary * SideSummary);
  c_Order : list string;
  c_Limitations : list string;
  c_Errors : list ErrorRecord;
}.

(** The options a comparison sets or reads; the others are carried unchanged
    by the run. *)
Record Options : Type := mkOptions {
  op_ConfigPath : string;
  op_Session : string;
  op_ExtraEnv : gmap string string;
}.

(** Source: internal/verify/compare.go:63-67 (outcomeKey). *)
Record outcomeKey : Type := mkKey {
  k_Status : string;
  k_CheckStatus : string;
  k_Stdout : string;
  k_Stderr : string;
  k_CheckExit : option Z;
}.

(** Source: internal/verify/compare.go:90-93 (equal). *)
Definition key_equal (k other : outcomeKey) : bool :=
  let sameExit :=
    Bool.eqb (bool_decide (k_CheckExit k = None)) (bool_decide (k_CheckExit other = None)) &&
    match k_CheckExit k, k_CheckExit other with
    | Some a, Some b => (a =? b)%Z
    | None, _ => true
    | _, None => false
    end in
  bool_decide (k_Status k = k_Status other) && bool_decide (k_CheckStatus k = k_CheckStatus other) &&
  bool_decide (k_Stdout k = k_Stdout other) && bool_decide (k_Stderr k = k_Stderr other) && sameExit.

(** Source: internal/verify/compare.go:86-88 (key). *)
Definition key (o : AttemptOutcome) : outcomeKey :=
  mkKey (ao_Status o) (ao_CheckStatus o) (ao_StdoutSHA256 o) (ao_StderrSHA256 o) (ao_CheckExitCode o).

(** The key with an exit code only. *)
Definition exit_key (c : option Z) : outcomeKey := mkKey "" "" "" "" c.

(** Source: internal/verify/operation.go:941-950 (truncateUTF8). *)
Definition truncateUTF8 (s : string) (limit : nat) : string :=
  if String.length s <=? limit then s else str_take (cut_back s limit) s.

(** Source: internal/verify/compare.go:312-326 (medianCheckMs). *)
Definition medianCheckMs (sorted : list Z) : Z :=
  let mid := length sorted / 2 in
  let at_ i := default 0%Z (sorted !! i) in
  if Nat.odd (length sorted) then at_ mid
  else
    let sum := int64 (at_ (mid - 1)%nat + at_ mid) in
    let median := Z.quot sum 2 in
    if negb (Z.rem sum 2 =? 0)%Z && (0 <? sum)%Z then (median + 1)%Z else median.

(** Source: internal/verify/compare.go:268-282 (captureDiffers). *)
Definition captureDiffers (x y : string) (truncated : bool) : bool :=
  if negb truncated then negb (bool_decide (x = y))
  else
    let n := min (String.length x) (String.length y) in
    negb (bool_decide (str_take n x = str_take n y)).

Definition pair_truncated (b k : Result) : bool :=
  ch_OutputTruncated (r_Check b) || ch_OutputTruncated (r_Check k).

(** The five compared fields, each as "these two results differ in it".
    Source: internal/verify/compare.go:245-253 (provenDifference, fields). *)
Definition field_differs : list (Result → Result → bool) :=
  [ (λ b k, negb (bool_decide (r_Status b = r_Status k)));
    (λ b k, negb (bool_decide (ch_Status (r_Check b) = ch_Status (r_Check k))));
    (λ b k, negb (key_equal (exit_key (ch_ExitCode (r_Check b))) (exit_key (ch_ExitCode (r_Check k)))));
    (λ b k, captureDiffers (ch_Stdout (r_Check b)) (ch_Stdout (r_Check k)) (pair_truncated b k));
    (λ b k, captureDiffers (ch_Stderr (r_Check b)) (ch_Stderr (r_Check k)) (pair_truncated b k)) ].

(** Source: internal/verify/compare.go:237-266 (provenDifference). *)
Definition provenDifference (baseline candidate : list Result) : bool :=
  existsb (λ differs,
    (0 <? length baseline) && (0 <? length candidate) &&
    forallb (λ b, forallb (λ k, differs b k) candidate) baseline) field_differs.

Section compare.
Context (digest : string → string) (parse_time : string → option Z).

(** Source: internal/verify/compare.go:69-84 (outcomeOf). *)
Definition outcomeOf (r : Result) : AttemptOutcome :=
  let c := r_Check r in
  let ms := match ch_StartedAt c, ch_FinishedAt c with
            | Some s, Some e =>
                match parse_time s, parse_time e with
                | Some start, Some finish => Some (Z.quot (finish - start) 1000000)
                | _, _ => None
                end
            | _, _ => None
            end in
  mkOutcome (r_AttemptID r) (r_Status r) (r_ExitCode r) (su_Status (r_Startup r)) (ch_Status c)
    (ch_ExitCode c) (digest (ch_Stdout c)) (digest (ch_Stderr c)) (truncateUTF8 (ch_Stdout c) 1024)
    (ch_OutputTruncated c) ms (cu_Status (r_Cleanup r)) (en_Status (r_Environment r)) (r_ReceiptPath r)
    (r_ReceiptPersisted r) (r_Errors r).

(** Source: internal/verify/compare.go:284-310 (summaries). *)
Definition summary (opts : Options) (results : list Result) : SideSummary :=
  let attempts := outcomeOf <$> results in
  let consistent := match attempts with
                    | [] => true
                    | first :: rest => forallb (λ o, key_equal (key first) (key o)) rest
                    end in
  let durations := merge_sort Z.le (omap ao_CheckMs attempts) in
  mkSummary (op_ConfigPath opts) (if bool_decide (op_Session opts = "") then "default" else op_Session opts)
    attempts (if 0 <? length durations then Some (medianCheckMs durations) else None) consistent.

(** ** The judgement *)

(** Source: internal/verify/compare.go:198-204 (judge, add). *)
Definition add_difference (field : string) (x y : field_value) (same : bool) (ds : list Difference)
    : list Difference :=
  if same || existsb (λ d, bool_decide (df_Field d = field)) ds then ds
  else ds ++ [mkDifference field x y].

(** Source: internal/verify/compare.go:205-213 (judge, pair). *)
Definition pair_differences (ds : list Difference) (bk : AttemptOutcome * AttemptOutcome)
    : list Difference :=
  let '(b, k) := bk in
  let ds := add_difference "status" (VStr (ao_Status b)) (VStr (ao_Status k))
              (bool_decide (ao_Status b = ao_Status k)) ds in
  let ds := add_difference "check.status" (VStr (ao_CheckStatus b)) (VStr (ao_CheckStatus k))
              (bool_decide (ao_CheckStatus b = ao_CheckStatus k)) ds in
  let ds := add_difference "check.exit_code" (VExit (ao_CheckExitCode b)) (VExit (ao_CheckExitCode k))
              (key_equal (exit_key (k_CheckExit (key b))) (exit_key (k_CheckExit (key k)))) ds in
  let ds := add_difference "check.stdout_sha256" (VStr (ao_StdoutSHA256 b)) (VStr (ao_StdoutSHA256 k))
              (bool_decide (ao_StdoutSHA256 b = ao_StdoutSHA256 k)) ds in
  add_difference "check.stderr_sha256" (VStr (ao_StderrSHA256 b)) (VStr (ao_StderrSHA256 k))
    (bool_decide (ao_StderrSHA256 b = ao_StderrSHA256 k)) ds.

(** The differences, the limitations added and the verdict.
    Source: internal/verify/compare.go:184-235 (judge). *)
Definition judge (sides : SideSummary * SideSummary) (baseline candidate : list Result)
    : list Difference * list string * option bool :=
  let '(b, k) := sides in
  let differences := fold_left pair_differences (zip (ss_Attempts b) (ss_Attempts k)) [] in
  let inconsistent := negb (ss_Consistent b) || negb (ss_Consistent k) in
  let truncated := existsb ao_OutputTruncated (ss_Attempts b ++ ss_Attempts k) in
  let limitations := (if inconsistent then ["nondeterministic_within_side"] else []) ++
                     (if truncated then ["output_truncated"] else []) in
  (differences, limitations,
   if provenDifference baseline candidate then Some false
   else if inconsistent || truncated then None
   else Some (bool_decide (differences = []))).

(** ** The runs *)

(** Source: internal/verify/compare.go:113-118 (Compare, order). *)
Definition schedule (repeat_ : nat) : list (nat * Side) :=
  mjoin ((λ i, if Nat.odd i then [(i, Candidate); (i, Baseline)] else [(i, Baseline); (i, Candidate)])
           <$> seq 0 repeat_).

(** Source: internal/verify/compare.go:119-128 (Compare, environment). *)
Definition run_options (opts : Options) (side : Side) (i : nat) : Options :=
  mkOptions (op_ConfigPath opts) (op_Session opts)
    (<["PROC_COMPOSE_COMPARE_REPETITION" := itoa (Z.of_nat i + 1)]>
      (<["PROC_COMPOSE_COMPARE_SIDE" := side_name side]> (op_ExtraEnv opts))).

(** How the runs ended. *)
Inductive runs_end : Type := RanAll | RanInterrupted | RanUsage (errors : list ErrorRecord).

#[local] Instance runs_end_eq_dec : EqDecision runs_end.
Proof. solve_decision. Defined.

Record runs : Type := mkRuns {
  rn_baseline : list Result;
  rn_candidate : list Result;
  rn_order : list string;
  rn_end : runs_end;
}.

Definition side_of {A} (side : Side) (b k : A) : A := match side with Baseline => b | Candidate => k end.

Definition add_run (side : Side) (r : Result) (rs : runs) : runs :=
  mkRuns (rn_baseline rs ++ side_of side [r] []) (rn_candidate rs ++ side_of side [] [r])
    (rn_order rs ++ [side_name side]) (rn_end rs).

Definition set_end (e : runs_end) (rs : runs) : runs :=
  mkRuns (rn_baseline rs) (rn_candidate rs) (rn_order rs) e.

(** Source: internal/verify/compare.go:109-146 (Compare, runs). *)
Fixpoint run_sides (run : Options → Result * bool) (baseline candidate : Options)
    (todo : list (nat * Side)) (rs : runs) : runs :=
  match todo with
  | [] => rs
  | (i, side) :: todo =>
      let '(result, cancelled) := run (run_options (side_of side baseline candidate) side i) in
      let rs := add_run side result rs in
      if bool_decide (r_Status result = StatusInterrupted) || cancelled then set_end RanInterrupted rs
      else if (r_ExitCode result =? ExitUsage)%Z then set_end (RanUsage (r_Errors result)) rs
      else run_sides run baseline candidate todo rs
  end.

(** ** The comparison *)

(** Source: internal/verify/compare.go:148-162 (Compare, comparable). *)
Definition usable (r : Result) : bool :=
  bool_decide (su_Status (r_Startup r) = StatusPassed) && negb (bool_decide (ch_Status (r_Check r) = StatusNotRun)) &&
  bool_decide (cu_Status (r_Cleanup r) = StatusPassed) && r_ReceiptPersisted r &&
  forallb (λ e, negb (bool_decide (er_Code e ∈ ["environment_ineligible"; "environment_unverified"])))
    (r_Errors r).

(** Source: internal/verify/compare.go:156-165 (Compare, errors). *)
Definition reported (errs : Errors) (r : ErrorRecord) : Errors :=
  if bool_decide (er_Code r ∈ ["environment_ineligible"; "environment_unverified"; "cleanup_unverified";
       "receipt_persistence_failed"; "startup_failed"; "startup_timeout"; "check_start_failed"])
  then errors_count errs r else errs.

(** [order] is the iteration order of the error counts.
    Source: internal/verify/compare.go:95-182 (Compare). *)
Definition Compare (run : Options → Result * bool) (order : Errors → list string)
    (baseline candidate : Options) (repeat_ : Z) : Comparison :=
  let limitations := ["data_isolation_caller_asserted"; "differences_not_attributed_to_code_change";
                      "dependencies_and_build_inputs_not_controlled"] in
  let mk status exit equal differences sides runs limitations errors :=
    mkComparison SchemaVersion "verify.comparison" status exit equal differences sides runs limitations errors in
  if (repeat_ <? 1)%Z || (MaxCompareRepeat <? repeat_)%Z
  then mk "not_comparable" ExitUsage None [] None [] limitations [mkErrorRecord "usage_error" 1]
  else
    let limitations := limitations ++ (if (repeat_ =? 1)%Z then ["single_run_per_side"] else []) in
    let rs := run_sides run baseline candidate (schedule (Z.to_nat repeat_)) (mkRuns [] [] [] RanAll) in
    let sides := (summary baseline (rn_baseline rs), summary candidate (rn_candidate rs)) in
    match rn_end rs with
    | RanUsage errors =>
        let errs := fold_left errors_count errors ∅ in
        mk "not_comparable" ExitUsage None [] (Some sides) (rn_order rs) limitations (Records (order errs) errs)
    | ending =>
        let results := rn_baseline rs ++ rn_candidate rs in
        let comparable := forallb usable results in
        let errs := fold_left reported (mjoin (r_Errors <$> results)) ∅ in
        if bool_decide (ending = RanInterrupted)
        then let errs := Errors_Add "interrupted" errs in
             mk StatusInterrupted ExitInterrupted None [] (Some sides) (rn_order rs) limitations
               (Records (order errs) errs)
        else if negb comparable
        then mk "not_comparable" ExitFailed None [] (Some sides) (rn_order rs) limitations (Records (order errs) errs)
        else
          let '(differences, added, equal) := judge sides (rn_baseline rs) (rn_candidate rs) in
          mk "comparable" ExitPassed equal differences (Some sides) (rn_order rs) (limitations ++ added)
            (Records (order errs) errs)
    end.

End compare.

(** ** What the judgement means *)

Lemma key_equal_eq k k' : key_equal k k' = true ↔ k = k'.
Proof.
  unfold key_equal. destruct k as [a b c d e], k' as [a' b' c' d' e']. cbn.
  rewrite !andb_true_iff, !bool_decide_eq_true. split.
  - intros ((((-> & ->) & ->) & ->) & H0 & H). destruct e, e'; cbn in *; try done.
    by apply Z.eqb_eq in H as ->.
  - intros [= -> -> -> -> ->]. split_and!; try done. { by destruct (bool_decide _). }
    destruct e'; [apply Z.eqb_refl|done].
Qed.

(** What a capture says of the whole output: all of it, or its beginning. *)
Definition captured (output capture : string) (truncated : bool) : Prop :=
  if truncated then ∃ rest, output = capture +:+ rest else output = capture.

Lemma captureDiffers_sound output output' x y t t' :
  captured output x t → captured output' y t' → captureDiffers x y (t || t') = true → output ≠ output'.
Proof.
  intros Hx Hy Hd ->. unfold captureDiffers in Hd.
  assert (∃ r, output' = x +:+ r) as [r Hr].
  { destruct t; [done|]. exists "". by rewrite Hx, str_app_nil. }
  assert (∃ r, output' = y +:+ r) as [r' Hr'].
  { destruct t'; [done|]. exists "". by rewrite Hy, str_app_nil. }
  destruct (t || t') eqn:Ht; cbn [negb] in Hd; apply negb_true_iff, bool_decide_eq_false in Hd; apply Hd.
  - rewrite <-(str_take_app_le _ x r), <-Hr, Hr' by lia. apply str_take_app_le. lia.
  - apply orb_false_iff in Ht as [-> ->]. cbn in Hx, Hy. congruence.
Qed.

(** The observable facts of a run, given its outputs. *)
Definition observables (out err : Result → string) : list (Result → field_value) :=
  [ (λ r, VStr (r_Status r)); (λ r, VStr (ch_Status (r_Check r))); (λ r, VExit (ch_ExitCode (r_Check r)));
    (λ r, VStr (out r)); (λ r, VStr (err r)) ].

(** Some observable fact differs between every run of one side and every run of
    the other. *)
Definition sides_differ (out err : Result → string) (baseline candidate : list Result) : Prop :=
  ∃ observe, observe ∈ observables out err ∧
    ∀ b k, b ∈ baseline → k ∈ candidate → observe b ≠ observe k.

Lemma provenDifference_sides out err baseline candidate :
  (∀ r, r ∈ baseline ++ candidate →
     captured (out r) (ch_Stdout (r_Check r)) (ch_OutputTruncated (r_Check r)) ∧
     captured (err r) (ch_Stderr (r_Check r)) (ch_OutputTruncated (r_Check r))) →
  provenDifference baseline candidate = true → sides_differ out err baseline candidate.
Proof.
  intros Hcap. unfold provenDifference. rewrite existsb_exists. intros (differs & Hin & Hall).
  rewrite !andb_true_iff, forallb_forall in Hall. destruct Hall as [_ Hall].
  assert (∀ b k, b ∈ baseline → k ∈ candidate → differs b k = true) as Hd.
  { intros b k Hb%list_elem_of_In Hk%list_elem_of_In. specialize (Hall b Hb).
    rewrite forallb_forall in Hall. by apply Hall. }
  assert (∀ b, b ∈ baseline → b ∈ baseline ++ candidate) as Hb by (intros; apply elem_of_app; auto).
  assert (∀ k, k ∈ candidate → k ∈ baseline ++ candidate) as Hk by (intros; apply elem_of_app; auto).
  clear Hall. apply list_elem_of_In in Hin. unfold field_differs in Hin. rewrite !elem_of_cons in Hin.
  assert (∀ observe, observe ∈ observables out err →
    (∀ b k, b ∈ baseline → k ∈ candidate → differs b k = true → observe b ≠ observe k) →
    sides_differ out err baseline candidate) as Hshow.
  { intros observe Ho H. exists observe. split; [done|]. intros b k Hib Hik. auto. }
  destruct Hin as [Hf|[Hf|[Hf|[Hf|[Hf|?%not_elem_of_nil]]]]]; [..|done]; subst differs.
  - apply (Hshow (λ r, VStr (r_Status r))); [apply list_elem_of_here|]. intros b k _ _ Hf [= Heq].
    by rewrite bool_decide_eq_true_2 in Hf.
  - apply (Hshow (λ r, VStr (ch_Status (r_Check r)))); [unfold observables; set_solver|].
    intros b k _ _ Hf [= Heq]. by rewrite bool_decide_eq_true_2 in Hf.
  - apply (Hshow (λ r, VExit (ch_ExitCode (r_Check r)))); [unfold observables; set_solver|].
    intros b k _ _ Hf [= Heq]. rewrite Heq, (proj2 (key_equal_eq _ _) eq_refl) in Hf. done.
  - apply (Hshow (λ r, VStr (out r))); [unfold observables; set_solver|].
    intros b k Hib Hik Hf [= Heq]. exact (captureDiffers_sound _ _ _ _ _ _ (proj1 (Hcap b (Hb b Hib))) (proj1 (Hcap k (Hk k Hik))) Hf Heq).
  - apply (Hshow (λ r, VStr (err r))); [unfold observables; set_solver|].
    intros b k Hib Hik Hf [= Heq]. exact (captureDiffers_sound _ _ _ _ _ _ (proj2 (Hcap b (Hb b Hib))) (proj2 (Hcap k (Hk k Hik))) Hf Heq).
Qed.

(** Every outcome of both sides has the same key. *)
Definition outcomes_agree digest parse_time (results : list Result) : Prop :=
  ∀ r r', r ∈ results → r' ∈ results →
    key (outcomeOf digest parse_time r) = key (outcomeOf digest parse_time r').

Lemma summary_consistent digest parse_time opts results :
  ss_Consistent (summary digest parse_time opts results) = true →
  outcomes_agree digest parse_time results.
Proof.
  unfold summary. cbn [ss_Consistent]. destruct results as [|first rest].
  { intros _ r r' H. by apply not_elem_of_nil in H. }
  rewrite fmap_cons, forallb_forall. intros Hall.
  assert (∀ r, r ∈ first :: rest →
    key (outcomeOf digest parse_time r) = key (outcomeOf digest parse_time first)) as H.
  { intros r [->|Hr]%elem_of_cons; [done|]. symmetry. apply key_equal_eq, Hall.
    apply list_elem_of_In, list_elem_of_fmap. eauto. }
  intros r r' Hr Hr'. by rewrite (H r Hr), (H r' Hr').
Qed.

Lemma add_difference_nil field x y same ds :
  add_difference field x y same ds = [] → ds = [] ∧ same = true.
Proof.
  unfold add_difference. destruct same; [done|]. cbn. destruct (existsb _ ds) eqn:E.
  - intros ->. discriminate E.
  - by destruct ds.
Qed.

Lemma pair_differences_nil ds b k :
  pair_differences ds (b, k) = [] → ds = [] ∧ key b = key k.
Proof.
  unfold pair_differences. cbv zeta.
  intros [[[[[-> H1]%add_difference_nil H2]%add_difference_nil H3]%add_difference_nil H4]%add_difference_nil H5]%add_difference_nil.
  split; [done|]. apply bool_decide_eq_true in H1, H2, H4, H5. apply key_equal_eq in H3.
  unfold exit_key in H3. injection H3 as H3. unfold key in *. cbn in *. congruence.
Qed.

Lemma judge_differences_nil l ds :
  fold_left pair_differences l ds = [] → ds = [] ∧ ∀ b k, (b, k) ∈ l → key b = key k.
Proof.
  revert ds; induction l as [|[b k] l IH]; intros ds; cbn [fold_left].
  { intros ->. split; [done|]. intros ? ? H. by apply not_elem_of_nil in H. }
  intros [H1 H2]%IH. apply pair_differences_nil in H1 as [-> Hbk]. split; [done|].
  intros b' k' [[= -> ->]|?]%elem_of_cons; auto.
Qed.

Lemma pairs_agree (l : list (AttemptOutcome * AttemptOutcome)) :
  (∀ b k, (b, k) ∈ l → key b = key k) → fold_left pair_differences l [] = [].
Proof.
  induction l as [|[b k] l IH]; intros Hl; [done|]. cbn [fold_left].
  assert (pair_differences [] (b, k) = []) as ->.
  { pose proof (Hl b k (list_elem_of_here _ _)) as Hbk. unfold key in Hbk. injection Hbk as H1 H2 H3 H4 H5.
    unfold pair_differences, add_difference. cbn [k_CheckExit key].
    rewrite H1, H2, H3, H4, H5, !bool_decide_eq_true_2, (proj2 (key_equal_eq _ _) eq_refl) by done. done. }
  apply IH. intros; apply Hl. by apply list_elem_of_further.
Qed.

(** When each side agrees with itself, a difference of the keys is proven. *)
Lemma keys_differ_proven digest parse_time kb kk baseline candidate :
  baseline ≠ [] → candidate ≠ [] →
  (∀ r, r ∈ baseline → key (outcomeOf digest parse_time r) = kb) →
  (∀ r, r ∈ candidate → key (outcomeOf digest parse_time r) = kk) →
  kb ≠ kk →
  (∀ r, r ∈ baseline ++ candidate → ch_OutputTruncated (r_Check r) = false) →
  provenDifference baseline candidate = true.
Proof.
  intros Hb0 Hk0 Hb Hk Hne Ht. unfold provenDifference.
  assert (∀ differs, differs ∈ field_differs →
    (∀ b k, key (outcomeOf digest parse_time b) = kb → key (outcomeOf digest parse_time k) = kk →
       pair_truncated b k = false → differs b k = true) →
    existsb (λ differs, (0 <? length baseline) && (0 <? length candidate) &&
      forallb (λ b, forallb (λ k, differs b k) candidate) baseline) field_differs = true) as Hshow.
  { intros differs Hin Hd. apply existsb_exists. exists differs. split; [by apply list_elem_of_In|].
    assert ((0 <? length baseline) = true) as -> by (apply Nat.ltb_lt; destruct baseline; [done|cbn; lia]).
    assert ((0 <? length candidate) = true) as -> by (apply Nat.ltb_lt; destruct candidate; [done|cbn; lia]).
    cbn [andb]. apply forallb_forall. intros b Hib%list_elem_of_In. apply forallb_forall.
    intros k Hik%list_elem_of_In. apply Hd; auto. unfold pair_truncated.
    by rewrite !Ht by (apply elem_of_app; auto). }
  destruct kb as [a1 a2 a3 a4 a5], kk as [b1 b2 b3 b4 b5]. unfold field_differs in Hshow.
  destruct (decide (a1 = b1)) as [->|H1].
  2:{ eapply Hshow; [apply list_elem_of_here|]. intros b k [= <- _ _ _ _] [= <- _ _ _ _] _.
      apply negb_true_iff. by apply bool_decide_eq_false. }
  destruct (decide (a2 = b2)) as [->|H2].
  2:{ eapply Hshow; [apply list_elem_of_further, list_elem_of_here|].
      intros b k [= _ <- _ _ _] [= _ <- _ _ _] _. apply negb_true_iff. by apply bool_decide_eq_false. }
  destruct (decide (a5 = b5)) as [->|H5].
  2:{ eapply Hshow; [do 2 apply list_elem_of_further; apply list_elem_of_here|].
      intros b k [= _ _ _ _ <-] [= _ _ _ _ <-] _. apply negb_true_iff, not_true_iff_false.
      intros [= ?]%key_equal_eq. done. }
  destruct (decide (a3 = b3)) as [->|H3].
  2:{ eapply Hshow; [do 3 apply list_elem_of_further; apply list_elem_of_here|].
      intros b k [= _ _ <- _ _] [= _ _ <- _ _] Htr. cbv beta. rewrite Htr. unfold captureDiffers. cbn [negb].
      apply negb_true_iff, bool_decide_eq_false. congruence. }
  eapply Hshow; [do 4 apply list_elem_of_further; apply list_elem_of_here|].
  intros b k [= _ _ _ <- _] [= _ _ _ <- _] Htr. cbv beta. rewrite Htr. unfold captureDiffers. cbn [negb].
  apply negb_true_iff, bool_decide_eq_false. congruence.
Qed.

Lemma truncated_spec digest parse_time rs :
  existsb ao_OutputTruncated (outcomeOf digest parse_time <$> rs) = true ↔
  ∃ r, r ∈ rs ∧ ch_OutputTruncated (r_Check r) = true.
Proof.
  rewrite existsb_exists. split.
  - intros (o & Ho & Htr). apply list_elem_of_In, list_elem_of_fmap in Ho as (r & -> & Hr). by exists r.
  - intros (r & Hr & Htr). exists (outcomeOf digest parse_time r). split; [|exact Htr].
    apply list_elem_of_In, list_elem_of_fmap. eauto.
Qed.

Lemma not_truncated digest parse_time rs :
  existsb ao_OutputTruncated (outcomeOf digest parse_time <$> rs) = false →
  ∀ r, r ∈ rs → ch_OutputTruncated (r_Check r) = false.
Proof.
  intros Ht r Hr. destruct (ch_OutputTruncated (r_Check r)) eqn:E; [|done].
  by rewrite (proj2 (truncated_spec digest parse_time rs) (ex_intro _ r (conj Hr E))) in Ht.
Qed.

(** Two sides that agree with themselves agree with each other as soon as one
    run of each does. *)
Lemma sides_agree digest parse_time bopts kopts b0 bs k0 ks :
  ss_Consistent (summary digest parse_time bopts (b0 :: bs)) = true →
  ss_Consistent (summary digest parse_time kopts (k0 :: ks)) = true →
  key (outcomeOf digest parse_time b0) = key (outcomeOf digest parse_time k0) →
  outcomes_agree digest parse_time ((b0 :: bs) ++ k0 :: ks).
Proof.
  intros Hcb Hck H0. apply summary_consistent in Hcb, Hck.
  assert (∀ r, r ∈ (b0 :: bs) ++ k0 :: ks →
    key (outcomeOf digest parse_time r) = key (outcomeOf digest parse_time b0)) as Hall.
  { intros r [Hr|Hr]%elem_of_app; [apply Hcb; [done|apply list_elem_of_here]|].
    rewrite H0. apply Hck; [done|apply list_elem_of_here]. }
  intros r r' Hr Hr'. by rewrite (Hall r Hr), (Hall r' Hr').
Qed.


(** ** The comparison as a whole *)

Definition side_count (side : Side) (l : list (nat * Side)) : nat :=
  length (List.filter (λ p, bool_decide (p.2 = side)) l).

Lemma run_sides_spec run bopts kopts todo rs :
  let rs' := run_sides run bopts kopts todo rs in
  rn_end rs' = RanAll → rn_end rs = RanAll →
  rn_order rs' = rn_order rs ++ (side_name ∘ snd <$> todo) ∧
  length (rn_baseline rs') = length (rn_baseline rs) + side_count Baseline todo ∧
  length (rn_candidate rs') = length (rn_candidate rs) + side_count Candidate todo.
Proof.
  revert rs; induction todo as [|[i side] todo IH]; intros rs rs' Hend Hstart; unfold rs' in *; cbn [run_sides] in *.
  { rewrite app_nil_r. change (side_count ?s []) with 0. rewrite !Nat.add_0_r. done. }
  destruct (run _) as [result cancelled]. destruct (bool_decide _ || cancelled); [done|].
  destruct (r_ExitCode result =? ExitUsage)%Z; [done|].
  destruct (IH (add_run side result rs) Hend Hstart) as (H1 & H2 & H3). rewrite H1, H2, H3.
  unfold add_run, side_count. cbn [rn_order rn_baseline rn_candidate List.filter snd fmap list_fmap].
  rewrite <-app_assoc, !length_app. split; [done|].
  destruct side; cbn [side_of]; repeat case_bool_decide; try done; cbn [length]; lia.
Qed.

Lemma side_count_app side l1 l2 : side_count side (l1 ++ l2) = side_count side l1 + side_count side l2.
Proof. unfold side_count. by rewrite List.filter_app, length_app. Qed.

Lemma schedule_count side n : side_count side (schedule n) = n.
Proof.
  unfold schedule. induction n as [|n IH]; [done|].
  rewrite seq_S, fmap_app, join_app, side_count_app, IH. cbn [fmap list_fmap mjoin list_join app].
  rewrite app_nil_r. unfold side_count. destruct (Nat.odd (0 + n)), side; apply Nat.add_1_r.
Qed.

(** A comparison that reports "comparable", the only status with exit code
    zero and with a verdict, ran every repetition of both sides in the
    counterbalanced order, and in every one of them the stack became ready, the
    check ran, everything was cleaned up and the receipt was written. *)
Theorem Compare_comparable digest parse_time run order bopts kopts n :
  let c := Compare digest parse_time run order bopts kopts n in
  (c_ExitCode c = ExitPassed ↔ c_Status c = "comparable") ∧
  (c_OutcomesEqual c ≠ None → c_Status c = "comparable") ∧
  (c_Status c = "comparable" →
   (1 ≤ n ≤ MaxCompareRepeat)%Z ∧ c_Order c = side_name ∘ snd <$> schedule (Z.to_nat n) ∧
   ∃ sb sk, c_Sides c = Some (sb, sk) ∧
     length (ss_Attempts sb) = Z.to_nat n ∧ length (ss_Attempts sk) = Z.to_nat n ∧
     ∀ o, o ∈ ss_Attempts sb ++ ss_Attempts sk →
       ao_StartupStatus o = StatusPassed ∧ ao_CheckStatus o ≠ StatusNotRun ∧
       ao_CleanupStatus o = StatusPassed ∧ ao_ReceiptPersisted o = true).
Proof.
  intros c. unfold c, Compare. clear c. cbv zeta.
  destruct ((n <? 1)%Z || (MaxCompareRepeat <? n)%Z) eqn:Hn; [by split_and!|].
  apply orb_false_iff in Hn as [Hn1%Z.ltb_ge Hn2%Z.ltb_ge].
  set (rs := run_sides _ _ _ _ _).
  pose proof (run_sides_spec run bopts kopts (schedule (Z.to_nat n)) (mkRuns [] [] [] RanAll)) as Hspec.
  cbv zeta in Hspec. fold rs in Hspec. rewrite !schedule_count in Hspec.
  destruct (rn_end rs) as [| |errors]; [|by split_and!..].
  rewrite bool_decide_eq_false_2 by done.
  destruct (forallb usable _) eqn:Husable; cbn [negb]; [|by split_and!].
  destruct (judge _ _ _) as [[differences added] equal].
  cbn [c_ExitCode c_Status c_OutcomesEqual c_Order c_Sides]. split; [done|]. split; [done|]. intros _.
  destruct (Hspec eq_refl eq_refl) as (Ho & Hlb & Hlk). split; [lia|]. split; [done|].
  eexists _, _. split; [reflexivity|]. cbn [ss_Attempts summary]. rewrite !length_fmap.
  split; [done|]. split; [done|]. rewrite <-fmap_app. intros o (r & -> & Hr)%list_elem_of_fmap.
  rewrite forallb_forall in Husable. specialize (Husable r ltac:(by apply list_elem_of_In)).
  unfold usable in Husable. autorewrite with gobool in Husable. destruct Husable as ((((H1 & H2) & H3) & H4) & _).
  cbn. split_and!; [done| |done..]. exact H2.
Qed.

(** ** Witnesses *)

Definition run_of (stdout : string) (truncated : bool) : Result :=
  mkResult 1 KindReceipt StateCompleted None StatusPassed "completed" "default" (Some "1-1") "" None "" 
    (mkSource None None None false []) "dev" None [] ∅ None
    (mkStartup StatusPassed None None None StatusPassed [] [] [])
    (mkCheck StatusPassed None [] None 0 None None None None (Some 0%Z) None false stdout "" truncated)
    (mkEnvironment false StatusNotRun None []) (mkCleanup StatusPassed true None None None "withdrawn" (Some true) [] [] [])
    (mkEvidence None None None false false "complete" []) [] 0 "" None true "" "" None.

