(* ===== verification/Attempt.v ===== *)
(** * One verification attempt

    [Run] validates its input, acquires a session, starts the stack, waits
    until it is ready, runs the check, cleans up, and records what happened in a
    receipt.  The definitions follow the phases of the code.  What the attempt
    learns from outside is an argument: the clock, the files, the session it
    acquires, what the stack shows at every look at it, how the check ends, and
    what is left when the stack has stopped.  Everything the attempt does to the
    outside is recorded as an action, in order. *)

From coqutil Require Import Datatypes.RecordSetters.
From S2P Require Import Prelude GoStrings ConfigTypes ConfigGraph RunnerState Lifecycle Groups Teardown Ipc Session LogQuery VerifyRecords Compare.
Import TriangleBracketNotations.

(** ** Statuses, phases and codes *)

(** Source: internal/verify/result.go:33-43 (StatusTimedOut). *)
Definition StatusTimedOut : string := "timed_out".
(** Source: internal/verify/result.go:33-43 (StatusUnverified). *)
Definition StatusUnverified : string := "unverified".
(** Source: internal/verify/result.go:33-43 (StatusNotNeeded). *)
Definition StatusNotNeeded : string := "not_needed".
(** Source: internal/verify/result.go:33-43 (StatusNotConfig). *)
Definition StatusNotConfig : string := "not_configured".
(** Source: internal/verify/result.go:18-23 (KindResponse). *)
Definition KindResponse : string := "verify.response".

(** Source: internal/verify/result.go:69-78 (Phases). *)
Inductive Phase : Type :=
  | PhaseValidation | PhaseAcquiring | PhaseStarting | PhaseWaiting | PhaseChecking | PhaseCleaningUp
  | PhaseCompleted.

(** Source: internal/verify/result.go:69-78 (Phases). *)
Definition phase_string (p : Phase) : string :=
  match p with
  | PhaseValidation => "validation"
  | PhaseAcquiring => "acquiring"
  | PhaseStarting => "starting"
  | PhaseWaiting => "waiting_ready"
  | PhaseChecking => "checking"
  | PhaseCleaningUp => "cleaning_up"
  | PhaseCompleted => "completed"
  end.

(** Source: internal/verify/result.go:80-104 (CodeUsage). *)
Definition CodeUsage : string := "usage_error".
(** Source: internal/verify/result.go:80-104 (CodeInvalidConfig). *)
Definition CodeInvalidConfig : string := "invalid_configuration".
(** Source: internal/verify/result.go:80-104 (CodeSessionOccupied). *)
Definition CodeSessionOccupied : string := "session_occupied".
(** Source: internal/verify/result.go:80-104 (CodeResourceUnavailable). *)
Definition CodeResourceUnavailable : string := "resource_unavailable".
(** Source: internal/verify/result.go:80-104 (CodeStartupFailed). *)
Definition CodeStartupFailed : string := "startup_failed".
(** Source: internal/verify/result.go:80-104 (CodeStartupTimeout). *)
Definition CodeStartupTimeout : string := "startup_timeout".
(** Source: internal/verify/result.go:80-104 (CodeCheckStartFailed). *)
Definition CodeCheckStartFailed : string := "check_start_failed".
(** Source: internal/verify/result.go:80-104 (CodeCheckExitNonzero). *)
Definition CodeCheckExitNonzero : string := "check_exit_nonzero".
(** Source: internal/verify/result.go:80-104 (CodeCheckTimeout). *)
Definition CodeCheckTimeout : string := "check_timeout".
(** Source: internal/verify/result.go:80-104 (CodeRequiredFailed). *)
Definition CodeRequiredFailed : string := "required_process_failed".
(** Source: internal/verify/result.go:80-104 (CodeInterrupted). *)
Definition CodeInterrupted : string := "interrupted".
(** Source: internal/verify/result.go:80-104 (CodeCleanupUnverified). *)
Definition CodeCleanupUnverified : string := "cleanup_unverified".
(** Source: internal/verify/result.go:80-104 (CodeTeardownFailed). *)
Definition CodeTeardownFailed : string := "teardown_failed".
(** Source: internal/verify/result.go:80-104 (CodeReceiptPersistence). *)
Definition CodeReceiptPersistence : string := "receipt_persistence_failed".
(** Source: internal/verify/result.go:80-104 (CodeEvidenceUnavailable). *)
Definition CodeEvidenceUnavailable : string := "evidence_unavailable".
(** Source: internal/verify/result.go:80-104 (CodeEnvironmentIneligible). *)
Definition CodeEnvironmentIneligible : string := "environment_ineligible".
(** Source: internal/verify/result.go:80-104 (CodeEnvironmentUnverified). *)
Definition CodeEnvironmentUnverified : string := "environment_unverified".

(** Source: internal/verify/result.go:106-124 (EnvironmentEligible). *)
Definition EnvironmentEligible : string := "eligible".
(** Source: internal/verify/result.go:106-124 (EnvironmentIneligible). *)
Definition EnvironmentIneligible : string := "ineligible".
(** Source: internal/verify/result.go:106-124 (EnvironmentUnknown). *)
Definition EnvironmentUnknown : string := "unknown".
(** Source: internal/verify/result.go:106-124 (ReasonReportMissing). *)
Definition ReasonReportMissing : string := "report_missing".
(** Source: internal/verify/result.go:106-124 (ReasonReportInvalid). *)
Definition ReasonReportInvalid : string := "report_invalid".
(** Source: internal/verify/result.go:106-124 (ReasonNoObservations). *)
Definition ReasonNoObservations : string := "no_observations".
(** Source: internal/verify/result.go:106-124 (ObservationMatched). *)
Definition ObservationMatched : string := "matched".
(** Source: internal/verify/result.go:106-124 (ObservationMismatched). *)
Definition ObservationMismatched : string := "mismatched".
(** Source: internal/verify/result.go:106-124 (ObservationUnobserved). *)
Definition ObservationUnobserved : string := "unobserved".

(** Source: internal/verify/receipt.go:24-26 (Retention). *)
Definition Retention : string := "runtime-directory; may disappear at logout/reboot".

(** ** Options and budgets *)

(** Source: internal/verify/operation.go:27-46 (MinStartupTimeout). *)
Definition MinStartupTimeout : Z := Second.
(** Source: internal/verify/operation.go:27-46 (MaxStartupTimeout). *)
Definition MaxStartupTimeout : Z := 600 * Second.
(** Source: internal/verify/operation.go:27-46 (MinCheckTimeout). *)
Definition MinCheckTimeout : Z := Second.
(** Source: internal/verify/operation.go:27-46 (MaxCheckTimeout). *)
Definition MaxCheckTimeout : Z := 3600 * Second.
(** Source: internal/verify/operation.go:27-46 (MinCleanupTimeout). *)
Definition MinCleanupTimeout : Z := 30 * Second.
(** Source: internal/verify/operation.go:27-46 (MaxCleanupTimeout). *)
Definition MaxCleanupTimeout : Z := 120 * Second.
(** Source: internal/verify/operation.go:27-46 (sealReserve). *)
Definition seal_reserve : Z := 5 * Second.
(** Source: internal/verify/operation.go:27-46 (maxGraceSeconds). *)
Definition maxGraceSeconds : Z := 5.
(** Source: internal/verify/operation.go:27-46 (CheckProcessName). *)
Definition CheckProcessName : string := "verify:check".

(** The digests of the argument vector are in [newResult]; what has no effect on
    the result (the log, the streamed output) is left out.
    Source: internal/verify/operation.go:48-85 (Options). *)
Record Options : Type := mkOptions {
  o_ConfigPath : string;
  o_Session : string;
  o_Hash : string;
  o_Selectors : list string;
  o_Argv : list string;
  o_Dir : string;
  o_StartupTimeout : Z;
  o_CheckTimeout : Z;
  o_CleanupTimeout : Z;
  o_ToolVersion : string;
  o_ExtraEnv : gmap string string;
  o_RequireEnvironment : bool;
  o_RefuseCrossSession : bool;
  o_Now : option (nat → Z);
  o_cleanupBudget : Z;
}.

(** Source: internal/verify/operation.go:87-91 (Options.sealReserve). *)
Definition sealReserve (o : Options) : Z := Z.min seal_reserve (Z.quot (o_CleanupTimeout o) 6).

(** Whether the value is refused.
    Source: internal/verify/operation.go:93-99 (ValidateDuration). *)
Definition ValidateDuration (value minimum maximum : Z) : bool :=
  (value <? minimum)%Z || (maximum <? value)%Z.

(** The [i]th reading; [0] is the zero time.
    Source: internal/verify/operation.go:110-120 (Options.now). *)
Definition reading (sysclock : nat → Z) (o : Options) (i : nat) : Z :=
  match o_Now o with
  | Some f => if (f i =? 0)%Z then sysclock i else f i
  | None => sysclock i
  end.

(** ** What the attempt does and learns *)

(** What an attempt does to the outside, in order.  A deadline is one the stack
    or the check asks for; [ActLaunch] starts the stack, and everything it
    launches comes after it. *)
Inductive action : Type :=
  | ActReceipt (r : Result) (err : option string)
  | ActLaunch (cfg : Config) (attempt : string)
  | ActCheck (env : gmap string string) (deadline : Z)
  | ActDeadline (deadline : Z)
  | ActCancelRun
  | ActCloseRuntime
  | ActPrune
  | ActReleaseLeases.

(** Source: internal/verify/operation.go:304-324 (attempt). *)
Record attempt : Type := mkAttempt {
  a_result : Result;
  a_errs : Errors;
  a_runner : bool;
  a_interrupt : bool;
  a_cleanupStart : Z;
  a_cleanupDeadline : Z;
  a_clock : nat;
  a_actions : list action;
}.

(** Code that reads the clock, changes the attempt and acts. *)
Definition att (A : Type) : Type := attempt → A * attempt.

#[export] Instance att_ret : MRet att := λ A x a, (x, a).
#[export] Instance att_bind : MBind att := λ A B f m a, let '(x, a) := m a in f x a.

Definition update (f : attempt → attempt) : att unit := λ a, (tt, f a).
Definition on_result (f : Result → Result) : att unit := update (λ a, a <| a_result ::= f |>).
Definition perform (x : action) : att unit := update (λ a, a <| a_actions ::= λ l, l ++ [x] |>).
Definition add_error (code : string) : att unit := update (λ a, a <| a_errs ::= Errors_Add code |>).

(** Who asks for a deadline: the stack, when it stops or tears down, and the
    check, when it is cancelled. *)
Inductive asker : Type := ByStack | ByCheck.

(** One turn of the wait for readiness: the budgets the stack asks for before
    it, the snapshot, and what the select receives when nothing is decided. *)
Inductive wait_event : Type := CallerDone | DeadlinePassed | RunReturned | Tick.
Record wait_turn : Type := mkTurn {
  tn_deadlines : list asker;
  tn_snapshot : list ProcState;
  tn_event : wait_event;
}.

(** How the check ends: what [RunCheck] returns, whether its error is a
    cancellation, whether the caller's context and the check's own have ended,
    the budgets asked for meanwhile, and the snapshots of the monitor. *)
Record check_run : Type := mkCheckRun {
  cr_baseline : list ProcState;
  cr_deadlines : list asker;
  cr_result : CheckResult;
  cr_canceled : bool;
  cr_interrupted : bool;
  cr_expired : bool;
  cr_monitor : list (list ProcState);
  cr_after : list ProcState;
}.

(** What reading the check's environment report gives. *)
Inductive report_result : Type :=
  | ReportMissing
  | ReportInvalid (text : string)
  | Report (l : list Observation).

(** What is left once the stack has returned, or at the deadline. *)
Record run_end : Type := mkRunEnd {
  re_deadlines : list asker;
  re_returned : bool;
  re_teardown : list TeardownResult;
  re_snapshot : list ProcState;
  re_groups : gstate;
}.

Definition snapshot_files : Type := res string (list (string * string)).

(** The revision and the status of a source tree, each with whether the command
    that gives it succeeded. *)
Record git_run : Type := mkGit { gt_revision : string * bool; gt_status : string * bool }.

(** What an attempt learns after it has acquired its session. *)
Record world : Type := mkWorld {
  w_random : option (list Z);
  w_pid : Z;
  w_hostname : string;
  w_active : option string;
  w_journal : option string;
  w_turns : list wait_turn;
  w_final : list ProcState;
  w_check : check_run;
  w_report : report_result;
  w_end : run_end;
  w_first : snapshot_files;
  w_last : snapshot_files;
  w_excerpts : snapshot_files;
  w_source : git_run;
  w_terminal : option string;
}.

(** Source: internal/verify/operation.go:1059-1064 (sourceObservation). *)
Record sourceObservation : Type := mkSourceObs {
  sb_source : SourceInfo;
  sb_revision : string;
  sb_status : string;
  sb_ok : bool;
}.

(** Source: internal/verify/operation.go:1066-1068 (sourceObservation.equal). *)
Definition source_equal (s other : sourceObservation) : bool :=
  sb_ok s && sb_ok other && bool_decide (sb_revision s = sb_revision other)
  && bool_decide (sb_status s = sb_status other).

(** Source: internal/verify/operation.go:1048-1055 (appendUnique). *)
Definition appendUnique (l : list string) (value : string) : list string :=
  if bool_decide (value ∈ l) then l else l ++ [value].

(** ** The check's environment *)

(** Source: internal/verify/operation.go:980-993 (EnvName, norm). *)
Definition env_byte (c : ascii) : ascii :=
  if in_range 97 122 c then chr (code c - 32)
  else if in_range 65 90 c || is_digit c then c
  else "_"%char.

(** Source: internal/verify/operation.go:977-995 (EnvName). *)
Definition EnvName (kind process port : string) : string :=
  let norm s := of_bytes (env_byte <$> bytes s) in
  "PROC_COMPOSE_" +:+ kind +:+ "_" +:+ norm process +:+ "_" +:+ norm port.

(** The loop over the endpoints; [range] is the iteration order of a process's
    ports.
    Source: internal/verify/operation.go:999-1008 (endpointNameCollisions, loop). *)
Fixpoint collisions (seen : gmap string string) (l : list (string * string)) : option (string * string * string) :=
  match l with
  | [] => None
  | (process, port) :: l =>
      let key := EnvName "PORT" process port in
      match seen !! key with
      | Some other => Some (other, process +:+ "." +:+ port, key)
      | None => collisions (<[key := process +:+ "." +:+ port]> seen) l
      end
  end.

(** The two endpoints and the name they share.
    Source: internal/verify/operation.go:997-1009 (endpointNameCollisions). *)
Definition endpointNameCollisions (range : string → list string → list string) (cfg : Config)
    (selected : list string) : option (string * string * string) :=
  collisions ∅ (process ← selected;
                (process,.) <$> range process (keys (p_Ports (proc_at (c_Processes cfg) process)))).

(** The endpoints of a project, in the order its maps are visited. *)
Definition project_ports (range : string → list string → list string) (j : Project)
    : list (string * string * Z) :=
  process ← range "" (keys (pj_Ports j));
  (λ name, (process, name, default 0%Z (default ∅ (pj_Ports j !! process) !! name)))
    <$> range process (keys (default ∅ (pj_Ports j !! process))).

Definition project_url (j : Project) (process name : string) : string :=
  default "" (default ∅ (pj_URLs j !! process) !! name).

(** Source: internal/verify/operation.go:967-975 (endpointsOf). *)
Definition endpointsOf (range : string → list string → list string) (j : Project) : gmap string Endpoint :=
  fold_left (λ out '(process, name, port),
    <[process +:+ "." +:+ name := VerifyRecords.mkEndpoint port (project_url j process name)]> out)
    (project_ports range j) ∅.

(** Source: internal/verify/operation.go:1034-1046 (clampGrace). *)
Definition clampGrace (cfg : Config) : Config :=
  mkConfig (c_Merge cfg)
    ((λ p, if (p_ShutdownTimeout p <=? 0)%Z || (maxGraceSeconds <? p_ShutdownTimeout p)%Z
           then p <| p_ShutdownTimeout := maxGraceSeconds |> else p) <$> c_Processes cfg)
    (c_Resources cfg).

(** Source: internal/verify/operation.go:648-665 (probeKind). *)
Definition probeKind (proc : Process) : option string :=
  if bool_decide (EffectiveMode proc = ProcessModeTask) then Some "task_exit"
  else match p_ReadyWhen proc with
       | None => None
       | Some rw => if negb (bool_decide (rw_HTTP rw = "")) then Some "http"
                    else if negb (bool_decide (rw_TCP rw = "")) then Some "tcp"
                    else if negb (bool_decide (rw_Cmd rw = "")) then Some "cmd"
                    else if negb (bool_decide (rw_Log rw = "")) then Some "log"
                    else None
       end.

(** Source: internal/verify/operation.go:696-702 (generations). *)
Definition generations (states : list ProcState) : gmap string Z :=
  fold_left (λ out st, <[ps_Name st := ps_Generation st]> out) states ∅.

Definition by_name (states : list ProcState) : gmap string ProcState :=
  fold_left (λ out st, <[ps_Name st := st]> out) states ∅.

(** The zero value of a missing state. *)
Definition zero_ProcState : ProcState :=
  mkIPCState "" "" "" false 0 0 0 0 0 0 0 "" None [] "" "" None None.

(** Source: internal/verify/result.go:376-379 (MaxArgvBytes). *)
Definition MaxArgvBytes : Z := Z.shiftl 16 10.

Section attempt.
(** The clock of the system, the formatting of a time, the digest and the JSON
    of an argument vector, [filepath.Join], the iteration order of a set of
    error codes, and what [logs.Query] and [Encode] are given. *)
Context (sysclock : nat → Z) (format : Z → string) (digest : string → string) (argv_json : list string → string).
Context (path_join : string → string → string) (order : Errors → list string).
Context (encoded : LogEntry → Z) (decode : string → res string LogEntry) (ToLower : string → string).
Context (json_len : Result → Z) (range : string → list string → list string).

(** Source: internal/verify/result.go:409-415 (timestamp). *)
Definition timestamp (t : Z) : option string := if (t =? 0)%Z then None else Some (format t).

Definition now (o : Options) : att Z := λ a,
  (reading sysclock o (a_clock a), a <| a_clock ::= S |>).

(** Source: internal/verify/receipt.go:28-29 (AttemptsDir). *)
Definition AttemptsDir (dir : string) : string := path_join dir "attempts".

(** Source: internal/verify/receipt.go:31-35 (environmentReportPath). *)
Definition environmentReportPath (dir attemptID : string) : string :=
  path_join (AttemptsDir dir) (attemptID +:+ ".environment").

(** [t] is the reading it takes if either command succeeds.
    Source: internal/verify/operation.go:1070-1101 (observeSource). *)
Definition observeSource (g : git_run) (t : Z) : sourceObservation :=
  let '(revision, revOk) := gt_revision g in
  let '(status, statusOk) := gt_status g in
  let known := revOk && negb (bool_decide (revision = "")) in
  mkSourceObs
    (mkSource (if known then Some revision else None)
       (if statusOk then Some (negb (bool_decide (status = ""))) else None)
       (if revOk || statusOk then timestamp t else None) false
       (sort_strings ((if known then [] else ["revision_unavailable"]) ++
                      (if statusOk then [] else ["dirty_state_unavailable"]) ++
                      (if revOk || statusOk then [] else ["observation_unavailable"]))))
    revision status (revOk && statusOk).

(** Source: internal/verify/operation.go:122-164 (newResult). *)
Definition newResult (o : Options) (path_dir : string → string) (started : Z) : Result :=
  mkResult SchemaVersion KindResponse StateCompleted None StatusNotRun (phase_string PhaseValidation)
    (if bool_decide (o_Session o = "") then "default" else o_Session o) None (o_ConfigPath o) None
    (path_dir (o_ConfigPath o))
    (mkSource None None None false ["revision_unavailable"; "dirty_state_unavailable"; "observation_unavailable"])
    (o_ToolVersion o) None [] ∅ None
    (mkStartup StatusNotRun None None None StatusNotRun [] [] [])
    (let '(argv, sum, size) := if bool_decide (o_Argv o = []) then ([], None, 0%Z)
                               else (o_Argv o, Some (digest (argv_json (o_Argv o))), str_len (argv_json (o_Argv o))) in
     mkCheck StatusNotRun None argv sum size None None None None None None false "" "" false)
    (mkEnvironment (o_RequireEnvironment o) StatusNotRun None [])
    (mkCleanup StatusNotNeeded false None None None "none" None [] [] [])
    (mkEvidence None None None false false "not_collected" [])
    [] 0 "no_verdict" None false "no receipt created" (default "" (timestamp started)) None.

(** Source: internal/verify/operation.go:166-175 (failPreAcquisition). *)
Definition failPreAcquisition (code : string) (t : Z) (r : Result) : Result :=
  let r := r <| r_Errors := [mkErrorRecord code 1] |> in
  let r := if bool_decide (code = CodeInvalidConfig)
           then r <| r_Startup -> su_Validation := StatusFailed |>
                  <| r_Startup -> su_Status := StatusFailed |>
                  <| r_Startup -> su_Errors := [mkErrorRecord code 1] |>
           else r in
  r <| r_Status := StatusFailed |> <| r_ExitCode := ExitUsage |> <| r_Precedence := "pre_acquisition_failure" |>
    <| r_FinishedAt := timestamp t |>.

(** ** The budget of the cleanup *)

(** Source: internal/verify/operation.go:806-817 (beginCleanup). *)
Definition beginCleanup (o : Options) : att Z := λ a,
  (if (a_cleanupStart a =? 0)%Z
   then t ← now o;
        _ ← update (λ a, a <| a_cleanupStart := t |> <| a_cleanupDeadline := (t + o_CleanupTimeout o)%Z |>);
        mret (t + o_CleanupTimeout o)%Z
   else mret (a_cleanupDeadline a)) a.

(** The deadline of the stack's own stop and of its teardown leaves one reserve
    for sealing; the check's leaves one more for the stack.
    Source: internal/verify/operation.go:447-454 (startAndCheck, deadlines). *)
Definition asked_deadline (o : Options) (who : asker) : att unit :=
  deadline ← beginCleanup o;
  perform (ActDeadline (deadline - (match who with ByStack => 1 | ByCheck => 2 end) * sealReserve o)).

Fixpoint asked_deadlines (o : Options) (who : list asker) : att unit :=
  match who with
  | [] => mret tt
  | a :: who => _ ← asked_deadline o a; asked_deadlines o who
  end.

(** ** Waiting for readiness *)

(** Source: internal/verify/operation.go:520-525 (failStartup). *)
Definition failStartup (o : Options) (code status : string) : att unit :=
  t ← now o;
  _ ← on_result (λ r, r <| r_Startup -> su_Status := status |>
                        <| r_Startup -> su_FinishedAt := timestamp t |>
                        <| r_Startup -> su_Errors := [mkErrorRecord code 1] |>);
  add_error code.

(** What one process's state means for the wait. *)
Inductive progress : Type := HasFailed | IsReady | NotYet.

#[local] Instance progress_eq_dec : EqDecision progress.
Proof. solve_decision. Defined.

(** Source: internal/verify/operation.go:556-567 (waitReady, state). *)
Definition progress_of (isTask : bool) (st : ProcState) : progress :=
  let in_state s := bool_decide (ps_State st = s) in
  if in_state "failed" || (negb isTask && (in_state "exited" || in_state "restarting"))
     || (isTask && in_state "exited") then HasFailed
  else if ps_Ready st then IsReady else NotYet.

(** What the wait has seen: when a process was first ready and who answered
    then, and the processes that failed. *)
Record wait_state : Type := mkWait {
  ws_observed : gmap string Z;
  ws_owners : gmap string (option EndpointOwner);
  ws_failed : gset string;
}.

(** Source: internal/verify/operation.go:549-568 (waitReady, process). *)
Definition look_at (o : Options) (cfg : Config) (byName : gmap string ProcState)
    (allReady : bool) (ws : wait_state) (name : string) : att (bool * wait_state) :=
  match byName !! name with
  | None => mret (false, ws)
  | Some st =>
      match progress_of (bool_decide (EffectiveMode (proc_at (c_Processes cfg) name) = ProcessModeTask)) st with
      | HasFailed => mret (allReady, mkWait (ws_observed ws) (ws_owners ws) ({[name]} ∪ ws_failed ws))
      | IsReady =>
          if bool_decide (is_Some (ws_observed ws !! name)) then mret (allReady, ws)
          else
            t ← now o;
            mret (allReady, mkWait (<[name := t]> (ws_observed ws))
                              (<[name := ps_ReadinessOwner st]> (ws_owners ws)) (ws_failed ws))
      | NotYet => mret (false, ws)
      end
  end.

Fixpoint look_at_all (o : Options) (cfg : Config) (byName : gmap string ProcState) (allReady : bool)
    (ws : wait_state) (names : list string) : att (bool * wait_state) :=
  match names with
  | [] => mret (allReady, ws)
  | name :: names => x ← look_at o cfg byName allReady ws name; look_at_all o cfg byName x.1 x.2 names
  end.

(** The outcome with what was seen and the last snapshot; [None] while the wait
    goes on.
    Source: internal/verify/operation.go:529-588 (waitReady, loop). *)
Fixpoint wait_loop (o : Options) (cfg : Config) (selected : list string) (ws : wait_state)
    (turns : list wait_turn) : att (option (string * wait_state * list ProcState)) :=
  match turns with
  | [] => mret None
  | tn :: turns =>
      _ ← asked_deadlines o (tn_deadlines tn);
      let byName := by_name (tn_snapshot tn) in
      x ← look_at_all o cfg byName (0 <? size byName) ws selected;
      let '(allReady, ws) := x : bool * wait_state in
      if bool_decide (ws_failed ws ≠ ∅) then mret (Some (StatusFailed, ws, tn_snapshot tn))
      else if allReady then mret (Some (StatusPassed, ws, tn_snapshot tn))
      else match tn_event tn with
           | CallerDone => mret (Some (StatusInterrupted, ws, tn_snapshot tn))
           | DeadlinePassed => mret (Some (StatusTimedOut, ws, tn_snapshot tn))
           | RunReturned => mret (Some (StatusFailed, ws, tn_snapshot tn))
           | Tick => wait_loop o cfg selected ws turns
           end
  end.

(** What is recorded of one process.
    Source: internal/verify/operation.go:600-626 (waitReady, observation). *)
Definition observation_of (cfg : Config) (outcome : string) (ws : wait_state)
    (byName final : gmap string ProcState) (name : string) : ReadinessObservation :=
  let probe := probeKind (proc_at (c_Processes cfg) name) in
  let generation := ps_Generation (default zero_ProcState (byName !! name)) in
  match ws_observed ws !! name with
  | Some t => mkReadiness name generation probe (if probe then StatusPassed else StatusNotConfig) (timestamp t)
                (default None (ws_owners ws !! name))
  | None => mkReadiness name generation probe
              (if bool_decide (name ∈ ws_failed ws) then StatusFailed
               else if bool_decide (outcome = StatusTimedOut) && (0 <? generation)%Z then StatusTimedOut
               else StatusNotRun) None
              (ps_ReadinessOwner (default zero_ProcState (final !! name)))
  end.

(** Source: internal/verify/operation.go:704-711 (recordGenerations). *)
Definition recordGenerations (states : list ProcState) : att unit :=
  let byName := generations states in
  on_result (λ r, r <| r_SelectedProcesses ::= fmap (λ pg,
    match byName !! pg_Name pg with
    | Some g => if (pg_Generation pg <? g)%Z then mkProcessGeneration (pg_Name pg) g else pg
    | None => pg
    end) |>).

(** Source: internal/verify/operation.go:527-640 (waitReady). *)
Definition waitReady (o : Options) (cfg : Config) (selected : list string) (w : world) : att (option bool) :=
  x ← wait_loop o cfg selected (mkWait ∅ ∅ ∅) (w_turns w);
  match x : option (string * wait_state * list ProcState) with
  | None => mret None
  | Some (outcome, ws, last) =>
      _ ← recordGenerations last;
      let observations := observation_of cfg outcome ws (by_name last) (by_name (w_final w)) <$> selected in
      _ ← on_result (λ r, r
        <| r_Startup -> su_UnprobedProcesses ::= λ l,
             l ++ filter (λ name, probeKind (proc_at (c_Processes cfg) name) = None) selected |>
        <| r_Startup -> su_ReadinessObservations ::= λ l, l ++ observations |>);
      if bool_decide (outcome = StatusPassed) || bool_decide (outcome = StatusInterrupted) then
        t ← now o;
        _ ← on_result (λ r, r <| r_Startup -> su_Status := outcome |>
                              <| r_Startup -> su_FinishedAt := timestamp t |>);
        if bool_decide (outcome = StatusPassed) then mret (Some true)
        else _ ← update (λ a, a <| a_interrupt := true |>); _ ← add_error CodeInterrupted; mret (Some false)
      else
        _ ← (if bool_decide (outcome = StatusTimedOut) then failStartup o CodeStartupTimeout StatusTimedOut
             else failStartup o CodeStartupFailed StatusFailed);
        mret (Some false)
  end.

(** ** The check *)

(** The variables of the check: those of the caller, the session's, and one for
    every endpoint, in this order.
    Source: internal/verify/operation.go:1011-1032 (checkEnv). *)
Definition checkEnv (o : Options) (j : Project) (r : Result) : gmap string string :=
  fold_left (λ env '(process, name, port),
    <[EnvName "URL" process name := project_url j process name]>
      (<[EnvName "PORT" process name := itoa port]> env))
    (project_ports range j)
    (<["PROC_COMPOSE_SESSION" := r_Session r]>
      (<["PROC_COMPOSE_SESSION_DIR" := pj_Directory j]>
        (<["PROC_COMPOSE_RUN_ID" := pj_RunID j]>
          (<["PROC_COMPOSE_ENVIRONMENT_REPORT" :=
               environmentReportPath (pj_Directory j) (default "" (r_AttemptID r))]> (o_ExtraEnv o))))).

(** The services the monitor saw failing in one snapshot.
    Source: internal/verify/operation.go:677-686 (monitorRequired, inspect). *)
Definition inspect (baseline : gmap string Z) (failed : gset string) (states : list ProcState) : gset string :=
  fold_left (λ failed st,
    if bool_decide (ps_Mode st = ProcessModeTask) then failed
    else if negb (bool_decide (ps_State st = "running"))
         || negb (ps_Generation st =? default 0 (baseline !! ps_Name st))%Z
         || bool_decide (ps_Health st = "unhealthy")
    then {[ps_Name st]} ∪ failed else failed) states failed.

(** [snapshots] are those of its ticks and the one after the check.
    Source: internal/verify/operation.go:668-694 (monitorRequired). *)
Definition monitorRequired (baseline : gmap string Z) (snapshots : list (list ProcState)) : gset string :=
  fold_left (inspect baseline) snapshots ∅.

(** The status of the check, whether it counts as an interruption of the
    attempt, whether it timed out, and its error codes.
    Source: internal/verify/operation.go:721-762 (recordCheck, verdict). *)
Definition check_verdict (ck : CheckResult) (canceled interrupted expired : bool)
    : string * bool * bool * list string :=
  let timedOut := negb interrupted && expired in
  let '(status, interrupt, late, codes) :=
    if negb (ck_Started ck) && interrupted && canceled then (StatusInterrupted, true, false, [CodeInterrupted])
    else if negb (ck_Started ck)
    then (StatusFailed, interrupted, false, CodeCheckStartFailed :: if interrupted then [CodeInterrupted] else [])
    else if interrupted then (StatusInterrupted, true, false, [CodeInterrupted])
    else if timedOut then (StatusTimedOut, false, true, [CodeCheckTimeout])
    else if bool_decide (ck_ExitCode ck = Some 0%Z) then (StatusPassed, false, false, [])
    else (StatusFailed, false, false, [CodeCheckExitNonzero]) in
  if ck_HandedOff ck
  then (StatusUnverified, interrupt, late,
        codes ++ if negb timedOut && negb interrupted then [CodeCleanupUnverified] else [])
  else (status, interrupt, late, codes).

Fixpoint add_errors (codes : list string) : att unit :=
  match codes with
  | [] => mret tt
  | code :: codes => _ ← add_error code; add_errors codes
  end.

(** Source: internal/verify/operation.go:713-768 (recordCheck). *)
Definition recordCheck (ck : CheckResult) (canceled interrupted expired : bool) : att unit :=
  let '(status, interrupt, late, codes) := check_verdict ck canceled interrupted expired in
  _ ← on_result (λ r,
    let r := if ck_Started ck
             then r <| r_Check -> ch_Generation := Some (ck_Generation ck) |>
                    <| r_Check -> ch_StartedAt := timestamp (ck_StartedAt ck) |>
                    <| r_Check -> ch_FinishedAt := timestamp (ck_FinishedAt ck) |>
             else r in
    r <| r_Check -> ch_ExitCode := ck_ExitCode ck |> <| r_Check -> ch_Signal := ck_Signal ck |>
      <| r_Check -> ch_Stdout := ck_Stdout ck |> <| r_Check -> ch_Stderr := ck_Stderr ck |>
      <| r_Check -> ch_OutputTruncated := ck_OutputTruncated ck |>
      <| r_Check -> ch_TimedOut ::= orb late |> <| r_Check -> ch_Status := status |>);
  _ ← update (λ a, a <| a_interrupt ::= orb interrupt |>);
  add_errors codes.

(** The status of the environment, the reason it is unknown, what is recorded
    of the report, and the error code.
    Source: internal/verify/operation.go:784-803 (recordEnvironment, verdict). *)
Definition environment_verdict (required : bool) (report : report_result)
    : string * option string * list Observation * list string :=
  let unknown reason := (EnvironmentUnknown, Some reason, [],
    if required || bool_decide (reason = ReasonReportInvalid) then [CodeEnvironmentUnverified] else []) in
  match report with
  | ReportMissing => unknown ReasonReportMissing
  | ReportInvalid _ => unknown ReasonReportInvalid
  | Report [] => unknown ReasonNoObservations
  | Report l => if forallb (λ ob, bool_decide (ob_Status ob = ObservationMatched)) l
                then (EnvironmentEligible, None, l, [])
                else (EnvironmentIneligible, None, l, [CodeEnvironmentIneligible])
  end.

(** Source: internal/verify/operation.go:764-804 (recordEnvironment). *)
Definition recordEnvironment (started : bool) (report : report_result) : att unit := λ a,
  (if negb started then mret tt
   else
     let '(status, reason, observations, codes) := environment_verdict (en_Required (r_Environment (a_result a))) report in
     _ ← on_result (λ r,
       let r := if bool_decide (is_Some reason) then r <| r_Environment -> en_Reason := reason |>
                else r <| r_Environment -> en_Observations := observations |> in
       r <| r_Environment -> en_Status := status |>);
     add_errors codes) a.

(** ** Starting and checking *)

(** Everything from the launch of the stack on; [None] while the wait goes on.
    Source: internal/verify/operation.go:461-518 (startAndCheck, run). *)
Definition run_stack (o : Options) (cfg : Config) (j : Project) (selected : list string) (w : world)
    : att (option unit) :=
  _ ← on_result (λ r, r <| r_Phase := phase_string PhaseWaiting |>);
  ready ← waitReady o cfg selected w;
  match ready : option bool with
  | None => mret None
  | Some false => _ ← beginCleanup o; mret (Some tt)
  | Some true =>
      let cr := w_check w in
      _ ← on_result (λ r, r <| r_Phase := phase_string PhaseChecking |>);
      checkStart ← now o;
      let checkDeadline := (checkStart + o_CheckTimeout o)%Z in
      _ ← on_result (λ r, r <| r_Check -> ch_DeadlineAt := timestamp checkDeadline |>);
      _ ← (λ a, perform (ActCheck (checkEnv o j (a_result a)) checkDeadline) a);
      _ ← asked_deadlines o (cr_deadlines cr);
      let failedRequired := monitorRequired (generations (cr_baseline cr)) (cr_monitor cr) in
      _ ← recordCheck (cr_result cr) (cr_canceled cr) (cr_interrupted cr) (cr_expired cr);
      _ ← recordEnvironment (ck_Started (cr_result cr)) (w_report w);
      _ ← add_errors (replicate (size failedRequired) CodeRequiredFailed);
      _ ← recordGenerations (cr_after cr);
      _ ← beginCleanup o;
      mret (Some tt)
  end.

(** Source: internal/verify/operation.go:407-518 (startAndCheck). *)
Definition startAndCheck (o : Options) (p : Plan) (attemptID : string) (selected : list string) (w : world)
    : att (option unit) :=
  startupStart ← now o;
  let startupDeadline := (startupStart + o_StartupTimeout o)%Z in
  _ ← on_result (λ r, r <| r_Startup -> su_StartedAt := timestamp startupStart |>
                        <| r_Startup -> su_DeadlineAt := timestamp startupDeadline |>);
  let cfg := clampGrace (default (mkConfig None ∅ []) (pl_Config p)) in
  if bool_decide (is_Some (w_journal w)) then
    _ ← failStartup o CodeStartupFailed StatusFailed;
    _ ← beginCleanup o;
    mret (Some tt)
  else
    _ ← perform (ActLaunch cfg attemptID);
    _ ← update (λ a, a <| a_runner := true |>);
    run_stack o cfg (pl_Project p) selected w.

(** ** The cleanup *)

(** The codes of the teardown outcomes.
    Source: internal/verify/operation.go:888-904 (recordTeardown). *)
Definition recordTeardown (results : list TeardownResult) : att unit :=
  _ ← on_result (λ r, r <| r_Cleanup -> cu_Teardown ::= λ l, l ++ ((λ t,
        mkTeardownRecord (tr_Name t) (status_string (tr_Status t)) (tr_ExitCode t)
          (timestamp (tr_StartedAt t)) (timestamp (tr_FinishedAt t)) (tr_Error t)) <$> results) |>);
  if forallb (λ t, bool_decide (tr_Status t = TeardownPassed)) results then mret tt
  else add_error CodeTeardownFailed.

(** Source: internal/verify/operation.go:849-860 (cleanup, not returned). *)
Definition cleanup_unreturned (selected : list string) (generation : gmap string Z) : att unit :=
  _ ← on_result (λ r, r
    <| r_Cleanup -> cu_Status := StatusUnverified |>
    <| r_Cleanup -> cu_SignalingAuthority := "unknown" |>
    <| r_Cleanup -> cu_TerminationVerified := Some false |>
    <| r_Cleanup -> cu_UnresolvedProcesses ::= λ l, l ++ ((λ name,
         mkUnresolved name (Some (default 0%Z (generation !! name))) "unavailable") <$> selected) |>
    <| r_Cleanup -> cu_Errors := [mkErrorRecord CodeCleanupUnverified 1] |>);
  add_error CodeCleanupUnverified.

(** Source: internal/verify/operation.go:861-885 (cleanup, returned). *)
Definition cleanup_returned (g : gstate) (generation : gmap string Z) : att unit :=
  _ ← on_result (λ r, r <| r_Cleanup -> cu_SignalingAuthority := "withdrawn" |>);
  if bool_decide (ShutdownResult g = None) && bool_decide (g_unresolved g = []) then
    on_result (λ r, r <| r_Cleanup -> cu_Status := StatusPassed |>
                      <| r_Cleanup -> cu_TerminationVerified := Some true |>)
  else
    _ ← on_result (λ r, r
      <| r_Cleanup -> cu_Status := StatusUnverified |>
      <| r_Cleanup -> cu_TerminationVerified := Some false |>
      <| r_Cleanup -> cu_UnresolvedProcesses ::= λ l, l ++ ((λ u : string * string,
           mkUnresolved u.1 (if bool_decide (u.1 = CheckProcessName) then Some 1%Z else generation !! u.1) u.2)
           <$> g_unresolved g) |>
      <| r_Cleanup -> cu_Errors := [mkErrorRecord CodeCleanupUnverified 1] |>);
    add_error CodeCleanupUnverified.

(** Source: internal/verify/operation.go:828-848 (cleanup, stack). *)
Definition cleanup_stack (o : Options) (selected : list string) (e : run_end) : att unit :=
  _ ← perform ActCancelRun;
  _ ← asked_deadlines o (re_deadlines e);
  _ ← (if re_returned e then perform ActCloseRuntime else mret tt);
  t ← now o;
  _ ← on_result (λ r, r <| r_Cleanup -> cu_FinishedAt := timestamp t |>);
  _ ← recordTeardown (re_teardown e);
  if negb (re_returned e) then cleanup_unreturned selected (generations (re_snapshot e))
  else cleanup_returned (re_groups e) (generations (re_snapshot e)).

(** Nothing was launched.
    Source: internal/verify/operation.go:828-836 (cleanup, no stack). *)
Definition cleanup_nothing (o : Options) : att unit :=
  t ← now o;
  on_result (λ r, r <| r_Cleanup -> cu_Status := StatusPassed |>
                    <| r_Cleanup -> cu_SignalingAuthority := "withdrawn" |>
                    <| r_Cleanup -> cu_TerminationVerified := Some true |>
                    <| r_Cleanup -> cu_FinishedAt := timestamp t |>).

(** Source: internal/verify/operation.go:819-886 (cleanup). *)
Definition cleanup (o : Options) (selected : list string) (e : run_end) : att unit :=
  deadline ← beginCleanup o;
  cleanupStart ← (λ a, (a_cleanupStart a, a));
  _ ← on_result (λ r, r
        <| r_Phase := phase_string PhaseCleaningUp |>
        <| r_Cleanup -> cu_Attempted := true |>
        <| r_Cleanup -> cu_StartedAt := timestamp cleanupStart |>
        <| r_Cleanup -> cu_DeadlineAt := timestamp deadline |>);
  launched ← (λ a, (a_runner a, a));
  if negb launched then cleanup_nothing o else cleanup_stack o selected e.

(** ** The evidence *)

(** The query of a run's events. *)
Definition run_query (run level : string) (limit maxBytes : Z) (tail : bool) : LogQuery.Options :=
  LogQuery.mkOptions limit maxBytes "" tail [] level "" "" "" "" 0 run "" 0.

(** Source: internal/verify/operation.go:906-939 (collectEvidence). *)
Definition collectEvidence (run : string) (w : world) : att unit := λ a,
  (if negb (bool_decide (is_Some (ev_Journal (r_Evidence (a_result a))))) || negb (a_runner a) then mret tt
   else
     let Query opts files := LogQuery.Query encoded decode ToLower opts files files in
     let '(first, err) := Query (run_query run "" 1 1024 false) (w_first w) in
     if bool_decide (is_Some err) then
       _ ← on_result (λ r, r <| r_Evidence -> ev_ExcerptStatus := "not_collected" |>);
       add_error CodeEvidenceUnavailable
     else
       let last := (Query (run_query run "" 1 (2 ^ 20) true) (w_last w)).1 in
       let excerpts := (Query (run_query run "error" 20 (8 * 2 ^ 10) true) (w_excerpts w)).1 in
       let truncated := pg_Truncated excerpts || pg_HasMore excerpts in
       _ ← on_result (λ r,
         let r := match pg_Events first with
                  | event :: _ => r <| r_Evidence -> ev_FirstCursor := Some (le_ID event) |>
                  | [] => r
                  end in
         let r := match list.last (pg_Events last) with
                  | Some event => r <| r_Evidence -> ev_LastCursor := Some (le_ID event) |>
                  | None => r
                  end in
         r <| r_Evidence -> ev_Gap := pg_Gap first || pg_Gap last |>
           <| r_Evidence -> ev_Events ::= λ l, l ++ ((λ event,
                mkEvidenceEvent (le_ID event) (le_Process event) (le_Generation event) (le_Level event)
                  (le_Code event) (truncateUTF8 (le_Line event) 512)) <$> pg_Events excerpts) |>
           <| r_Evidence -> ev_Truncated := truncated |>
           <| r_Evidence -> ev_ExcerptStatus := if truncated then "truncated" else "complete" |>);
       if bool_decide (cu_Status (r_Cleanup (a_result a)) = StatusPassed) then mret tt
       else on_result (λ r, r <| r_Evidence -> ev_Truncated := true |>
                              <| r_Evidence -> ev_ExcerptStatus := "incomplete_at_cleanup_deadline" |>)) a.

(** ** The attempt *)

(** A result that is too large is refused; [fault] is the error of the write
    otherwise.
    Source: internal/verify/receipt.go:177-193 (WriteReceipt). *)
Definition WriteReceipt (r : Result) (fault : option string) : att (option string) :=
  let receipt := r <| r_Kind := KindReceipt |> in
  if (MaxResultBytes <? json_len receipt)%Z
  then mret (Some ("receipt is " +:+ itoa (json_len receipt) +:+ " bytes, above the "
                   +:+ itoa MaxResultBytes +:+ "-byte limit"))
  else _ ← perform (ActReceipt receipt fault); mret fault.

Definition finish (o : Options) : att unit :=
  t ← now o;
  update (λ a, a <| a_result ::= finishVerdict (order (a_errs a)) (a_errs a) (a_interrupt a) (timestamp t) |>).

Context (selectionDigest : Result → option string).

(** Source: internal/verify/operation.go:394-405 (persistTerminal). *)
Definition persistTerminal (fault : option string) : att (option string) := λ a,
  (let '(encoding, r) := Encode digest json_len selectionDigest order (a_result a) in
   _ ← on_result (λ _, r);
   match encoding with
   | inr _ => mret (Some ("result exceeds " +:+ itoa MaxResultBytes +:+ " bytes"))
   | inl _ => WriteReceipt r fault
   end) a.

(** What is recorded before the active receipt.
    Source: internal/verify/operation.go:326-352 (run, identity). *)
Definition begin_record (p : Plan) (selected : list string) (attemptID : string) (w : world) : att unit :=
  let j := pl_Project p in
  on_result (λ r, r
    <| r_AttemptID := Some attemptID |>
    <| r_RunID := Some (pj_RunID j) |>
    <| r_Owner := Some (mkAttemptOwner (w_pid w) (w_hostname w)) |>
    <| r_Endpoints := endpointsOf range j |>
    <| r_SelectedProcesses ::= λ l, l ++ ((λ name, mkProcessGeneration name 0) <$> selected) |>
    <| r_ReceiptPath := Some (path_join (AttemptsDir (pj_Directory j)) (attemptID +:+ ".json")) |>
    <| r_Retention := Retention |>
    <| r_Evidence -> ev_Journal := Some (pj_JournalPath j) |>
    <| r_Kind := KindReceipt |> <| r_State := StateActive |> <| r_Phase := phase_string PhaseStarting |>
    <| r_Cleanup -> cu_Status := StatusNotRun |>
    <| r_Cleanup -> cu_SignalingAuthority := "held" |>).

(** The active receipt could not be written.
    Source: internal/verify/operation.go:353-363 (run, no receipt). *)
Definition without_receipt (o : Options) : att unit :=
  _ ← perform ActReleaseLeases;
  _ ← on_result (λ r, r
    <| r_Kind := KindResponse |> <| r_State := StateCompleted |>
    <| r_ReceiptPath := None |> <| r_Retention := "no receipt created" |>
    <| r_Cleanup -> cu_Status := StatusNotNeeded |>
    <| r_Cleanup -> cu_SignalingAuthority := "none" |>);
  _ ← add_error CodeReceiptPersistence;
  finish o.

(** The source tree is looked at again.
    Source: internal/verify/operation.go:368-371 (run, source). *)
Definition compare_source (o : Options) (before : sourceObservation) (g : git_run) : att unit :=
  t ← (if (gt_revision g).2 || (gt_status g).2 then now o else mret 0%Z);
  let after := observeSource g t in
  if sb_ok before && sb_ok after && negb (source_equal after before)
  then on_result (λ r, r <| r_Source -> so_Limitations ::= λ l, appendUnique l "source_changed_during_attempt" |>)
  else mret tt.

(** The terminal receipt, the pruning, the leases and the response.
    Source: internal/verify/operation.go:372-391 (run, end). *)
Definition conclude_attempt (o : Options) (w : world) : att unit :=
  _ ← on_result (λ r, r <| r_Phase := phase_string PhaseCompleted |> <| r_State := StateCompleted |>);
  _ ← finish o;
  _ ← on_result (λ r, r <| r_ReceiptPersisted := true |>);
  err ← persistTerminal (w_terminal w);
  _ ← (if bool_decide (is_Some err)
       then _ ← on_result (λ r, r <| r_ReceiptPersisted := false |>);
            _ ← add_error CodeReceiptPersistence;
            finish o
       else perform ActPrune);
  authority ← (λ a, (cu_SignalingAuthority (r_Cleanup (a_result a)), a));
  _ ← (if bool_decide (authority = "withdrawn") then perform ActReleaseLeases else mret tt);
  on_result (λ r, r <| r_Kind := KindResponse |>).

(** Source: internal/verify/operation.go:326-392 (attempt.run). *)
Definition run (o : Options) (p : Plan) (selected : list string) (before : sourceObservation) (w : world)
    : att (option unit) :=
  t ← now o;
  match w_random w with
  | None =>
      _ ← perform ActReleaseLeases;
      t ← now o;
      _ ← on_result (failPreAcquisition CodeReceiptPersistence t);
      mret (Some tt)
  | Some random =>
      let attemptID := NewAttemptID (t / 1000000) random in
      _ ← begin_record p selected attemptID w;
      r ← (λ a, (a_result a, a));
      err ← WriteReceipt r (w_active w);
      if bool_decide (is_Some err) then _ ← without_receipt o; mret (Some tt)
      else
        ended ← startAndCheck o p attemptID selected w;
        match ended : option unit with
        | None => mret None
        | Some _ =>
            _ ← cleanup o selected (w_end w);
            _ ← collectEvidence (pj_RunID (pl_Project p)) w;
            _ ← compare_source o before (w_source w);
            _ ← conclude_attempt o w;
            mret (Some tt)
        end
  end.

(** ** The validation *)

(** What is learnt before the attempt owns anything: the bytes of the
    configuration and what they load as, whether a path is a directory, the
    source tree, the session, and a crashed run that is in the way. *)
Record inputs : Type := mkInputs {
  in_file : res string string;
  in_config : res string Config;
  in_isDir : string → bool;
  in_source : git_run;
  in_session : res session_error Plan;
  in_crashed : option string;
}.

(** [errors.As] for a lease error. *)
Fixpoint lease_error (e : session_error) : option LeaseError :=
  match e with
  | Leased l => Some l
  | Wrapped _ e => lease_error e
  | _ => None
  end.

Definition refuse (o : Options) (code : string) : att (option unit) :=
  t ← now o;
  _ ← on_result (failPreAcquisition code t);
  mret (Some tt).

(** Source: internal/verify/operation.go:283-295 (Run, acquisition failed). *)
Definition refuse_session (o : Options) (e : session_error) : att (option unit) :=
  _ ← refuse o (match lease_error e with
                | Some l => if LeaseError_Instance l then CodeSessionOccupied else CodeResourceUnavailable
                | None => CodeInvalidConfig
                end);
  _ ← on_result (λ r, r <| r_Endpoints := ∅ |> <| r_EndpointsNote := Some "acquisition_incomplete" |>);
  mret (Some tt).

(** Source: internal/verify/operation.go:278-311 (Run, acquisition). *)
Definition acquire_and_run (o : Options) (selected : list string) (i : inputs) (w : world) : att (option unit) :=
  t ← (if (gt_revision (in_source i)).2 || (gt_status (in_source i)).2 then now o else mret 0%Z);
  let before := observeSource (in_source i) t in
  _ ← on_result (λ r, r <| r_Source := sb_source before |> <| r_Phase := phase_string PhaseAcquiring |>);
  match in_session i with
  | Err e => refuse_session o e
  | Ok p =>
      if bool_decide (is_Some (in_crashed i)) then
        _ ← perform ActReleaseLeases;
        _ ← refuse o CodeSessionOccupied;
        _ ← on_result (λ r, r <| r_Endpoints := ∅ |> <| r_EndpointsNote := Some "acquisition_incomplete" |>);
        mret (Some tt)
      else run o p selected before w
  end.

(** Source: internal/verify/operation.go:258-269 (Run, workdir). *)
Definition workdir_of (is_abs : string → bool) (path_dir : string → string) (o : Options) : string :=
  if bool_decide (o_Dir o = "") then path_dir (o_ConfigPath o)
  else if is_abs (o_Dir o) then o_Dir o else path_join (path_dir (o_ConfigPath o)) (o_Dir o).

Definition bad_budgets (o : Options) : bool :=
  ValidateDuration (o_StartupTimeout o) MinStartupTimeout MaxStartupTimeout ||
  ValidateDuration (o_CheckTimeout o) MinCheckTimeout MaxCheckTimeout ||
  ValidateDuration (o_CleanupTimeout o) MinCleanupTimeout MaxCleanupTimeout.

(** The configuration is read and the selection checked; [names] is the
    iteration order of the processes.
    Source: internal/verify/operation.go:222-311 (Run, configuration). *)
Definition with_config (o : Options) (is_abs : string → bool) (path_dir : string → string) (names : list string)
    (i : inputs) (w : world) : att (option unit) :=
  match in_file i with
  | Err _ => refuse o CodeInvalidConfig
  | Ok raw =>
      _ ← on_result (λ r, r <| r_ConfigSHA256 := Some (digest raw) |>);
      match in_config i with
      | Err _ => refuse o CodeInvalidConfig
      | Ok cfg =>
          let selected := SelectedNames names cfg (o_Selectors o) in
          let workdir := workdir_of is_abs path_dir o in
          if existsb (λ name, bool_decide (is_Some (CheckSelector cfg name))) (o_Selectors o)
          then refuse o CodeUsage
          else if negb (existsb (λ name, negb (bool_decide
                    (EffectiveMode (proc_at (c_Processes cfg) name) = ProcessModeTask))) selected)
          then refuse o CodeUsage
          else if bool_decide (is_Some (endpointNameCollisions range cfg selected)) then refuse o CodeUsage
          else if negb (in_isDir i workdir) then refuse o CodeUsage
          else
            _ ← on_result (λ r, r <| r_Workdir := workdir |> <| r_Check -> ch_Cwd := Some workdir |>
                                  <| r_Startup -> su_Validation := StatusPassed |>);
            acquire_and_run o selected i w
      end
  end.

(** Source: internal/verify/operation.go:177-321 (Run). *)
Definition Run_steps (o : Options) (is_abs : string → bool) (path_dir : string → string) (names : list string)
    (i : inputs) (w : world) : att (option unit) :=
  started ← now o;
  _ ← on_result (λ _, newResult o path_dir started);
  size ← (λ a, (ch_ArgvBytes (r_Check (a_result a)), a));
  if bool_decide (default "" (head (o_Argv o)) = "") then refuse o CodeUsage
  else if (MaxArgvBytes <? size)%Z then refuse o CodeResultSizeLimit
  else if bad_budgets o then refuse o CodeUsage
  else
    let o := if (0 <? o_cleanupBudget o)%Z then o <| o_CleanupTimeout := o_cleanupBudget o |> else o in
    with_config o is_abs path_dir names i w.

(** The attempt before anything is known of it. *)
Definition fresh_attempt (o : Options) (path_dir : string → string) : attempt :=
  mkAttempt (newResult o path_dir 0) ∅ false false 0 0 0 [].

(** The result and what was done; [None] while the wait goes on.
    Source: internal/verify/operation.go:177-321 (Run). *)
Definition Run (o : Options) (is_abs : string → bool) (path_dir : string → string) (names : list string)
    (i : inputs) (w : world) : option (Result * list action) :=
  let '(ended, a) := Run_steps o is_abs path_dir names i w (fresh_attempt o path_dir) in
  (λ _ : unit, (a_result a, a_actions a)) <$> ended.

End attempt.
