(* ===== verification/Verdict.v ===== *)
(** * The verdict of an attempt

    What [Attempt.v]'s attempt guarantees, whatever the stack, the check and the
    machine do.  Each part of the attempt is described by the error codes it
    counts, whether it notes an interruption, and the actions it takes
    ([steps]); [doing] and [ends] compose these descriptions along the code.
    From them follow the exact condition for passing, the order of receipts,
    launch and leases, and that every attempt whose wait ends returns. *)

From coqutil Require Import Datatypes.RecordSetters.
From S2P Require Import Prelude GoStrings ConfigTypes ConfigGraph RunnerState Lifecycle Groups Teardown Ipc Session LogQuery VerifyRecords Compare Attempt.
Import TriangleBracketNotations.

(** ** Parts of an attempt *)

(** The errors of a list of codes. *)
Definition add_codes (codes : list string) (e : Errors) : Errors := fold_left (flip Errors_Add) codes e.

Lemma add_codes_app c1 c2 e : add_codes (c1 ++ c2) e = add_codes c2 (add_codes c1 e).
Proof. apply fold_left_app. Qed.

(** What does not change until the attempt is concluded. *)
Definition core (r : Result) : Z * string * option string * option string * bool :=
  (r_SchemaVersion r, r_State r, r_AttemptID r, ev_Journal (r_Evidence r), en_Required (r_Environment r)).

(** The actions other than handing out a deadline. *)
Definition loud (x : action) : bool := match x with ActDeadline _ => false | _ => true end.
Definition loud_actions (l : list action) : list action := List.filter loud l.

(** What a part of the attempt does: the codes it counts, whether it notes an
    interruption, and its loud actions. *)
Record steps (codes : list string) (intr : bool) (acts : list action) (a a' : attempt) : Prop := {
  st_errs : a_errs a' = add_codes codes (a_errs a);
  st_intr : a_interrupt a' = a_interrupt a || intr;
  st_runner : a_runner a' = a_runner a;
  st_core : core (a_result a') = core (a_result a);
  st_loud : loud_actions (a_actions a') = loud_actions (a_actions a) ++ acts;
}.

Definition doing {A} (codes : list string) (intr : bool) (m : att A) : Prop := ∀ a, steps codes intr [] a (m a).2.

Lemma steps_refl a : steps [] false [] a a.
Proof. split; try done; [by rewrite orb_false_r|by rewrite app_nil_r]. Qed.

Lemma steps_trans c1 i1 l1 c2 i2 l2 a b c :
  steps c1 i1 l1 a b → steps c2 i2 l2 b c → steps (c1 ++ c2) (i1 || i2) (l1 ++ l2) a c.
Proof.
  intros [E1 I1 R1 D1 L1] [E2 I2 R2 D2 L2]. split.
  - by rewrite E2, E1, add_codes_app.
  - by rewrite I2, I1, orb_assoc.
  - by rewrite R2, R1.
  - by rewrite D2, D1.
  - by rewrite L2, L1, app_assoc.
Qed.

Lemma loud_app l1 l2 : loud_actions (l1 ++ l2) = loud_actions l1 ++ loud_actions l2.
Proof. apply List.filter_app. Qed.

Lemma bind_eq {A B} (m : att A) (f : A → att B) a : (m ≫= f) a = f (m a).1 (m a).2.
Proof. unfold mbind, att_bind. by destruct (m a). Qed.

Lemma doing_ret {A} (x : A) : doing [] false (mret x : att A).
Proof. intros a. apply steps_refl. Qed.

Lemma doing_bind {A B} c1 i1 c2 i2 (m : att A) (f : A → att B) :
  doing c1 i1 m → (∀ x, doing c2 i2 (f x)) → doing (c1 ++ c2) (i1 || i2) (m ≫= f).
Proof. intros H1 H2 a. rewrite bind_eq. eapply (steps_trans _ _ [] _ _ []); [apply H1|apply H2]. Qed.

(** A part that only reads the clock, changes what it may of the result, or
    acts quietly, followed by another. *)
Lemma doing_seq {A B} codes intr (m : att A) (f : A → att B) :
  doing [] false m → (∀ x, doing codes intr (f x)) → doing codes intr (m ≫= f).
Proof. intros H1 H2. exact (doing_bind [] false codes intr m f H1 H2). Qed.

Lemma doing_last {A B} codes intr (m : att A) (f : A → att B) :
  doing codes intr m → (∀ x, doing [] false (f x)) → doing codes intr (m ≫= f).
Proof. intros H1 H2. rewrite <-(app_nil_r codes), <-(orb_false_r intr). by apply doing_bind. Qed.

Lemma doing_first {A B} codes intr (m : att A) (f : A → att B) :
  doing [] intr m → (∀ x, doing codes false (f x)) → doing codes intr (m ≫= f).
Proof. intros H1 H2. rewrite <-(app_nil_l codes), <-(orb_false_r intr). by apply doing_bind. Qed.

Lemma doing_now sysclock o : doing [] false (now sysclock o).
Proof. intros a. split; try done; [by rewrite orb_false_r|by rewrite app_nil_r]. Qed.

Lemma doing_result f : (∀ r, core (f r) = core r) → doing [] false (on_result f).
Proof. intros Hf a. split; try done; [by rewrite orb_false_r|apply Hf|by rewrite app_nil_r]. Qed.

Lemma doing_deadline d : doing [] false (perform (ActDeadline d)).
Proof. intros a. split; try done; [by rewrite orb_false_r|apply loud_app]. Qed.

Lemma steps_perform x a : loud x = true → steps [] false [x] a (perform x a).2.
Proof. intros Hx. split; try done; [by rewrite orb_false_r|]. cbn. rewrite loud_app. cbn. by rewrite Hx. Qed.

Lemma doing_error code : doing [code] false (add_error code).
Proof. intros a. split; try done; [by rewrite orb_false_r|by rewrite app_nil_r]. Qed.

Lemma doing_errors codes : doing codes false (add_errors codes).
Proof.
  induction codes as [|c codes IH]; [apply doing_ret|]. cbn [add_errors].
  apply (doing_bind [c] false codes false); [apply doing_error|done].
Qed.

Lemma doing_interrupt b : doing [] b (update (λ a, a <| a_interrupt ::= orb b |>)).
Proof. intros a. split; try done; [apply orb_comm|by rewrite app_nil_r]. Qed.

(** The value and the attempt a part ends with. *)
Definition ends {A} (m : att A) (a : attempt) (P : A → attempt → Prop) : Prop := P (m a).1 (m a).2.

Lemma ends_bind {A B} (m : att A) (f : A → att B) a P : ends m a (λ x b, ends (f x) b P) → ends (m ≫= f) a P.
Proof. unfold ends. by rewrite bind_eq. Qed.

Lemma ends_weaken {A} (m : att A) a (P Q : A → attempt → Prop) : ends m a P → (∀ x b, P x b → Q x b) → ends m a Q.
Proof. unfold ends. auto. Qed.

Lemma ends_doing {A B} c i c0 i0 l0 a0 a (m : att A) (f : A → att B) P : doing c i m → steps c0 i0 l0 a0 a →
  (∀ x b, steps (c0 ++ c) (i0 || i) l0 a0 b → ends (f x) b P) → ends (m ≫= f) a P.
Proof. intros Hm H0 Hf. apply ends_bind, Hf. rewrite <-(app_nil_r l0). eapply steps_trans; [exact H0|apply Hm]. Qed.

Lemma ends_act {A} x c0 i0 l0 a0 a (f : unit → att A) P : loud x = true → steps c0 i0 l0 a0 a →
  (∀ b, steps c0 i0 (l0 ++ [x]) a0 b → ends (f tt) b P) → ends (perform x ≫= f) a P.
Proof.
  intros Hx H0 Hf. apply ends_bind, Hf. rewrite <-(app_nil_r c0), <-(orb_false_r i0).
  eapply steps_trans; [exact H0|by apply steps_perform].
Qed.

Lemma ends_silent {A B} c0 i0 l0 a0 a (m : att A) (f : A → att B) P : doing [] false m → steps c0 i0 l0 a0 a →
  (∀ x b, steps c0 i0 l0 a0 b → ends (f x) b P) → ends (m ≫= f) a P.
Proof. intros Hm H0 Hf. eapply ends_doing; [exact Hm|exact H0|]. rewrite app_nil_r, orb_false_r. exact Hf. Qed.

#[local] Hint Resolve doing_ret doing_deadline doing_now doing_error doing_errors doing_interrupt : doing.
#[local] Hint Extern 1 (doing _ _ (on_result _)) => apply doing_result; done : doing.

(** Passing over a part that has no effect on the codes. *)
Ltac silent H := eapply ends_silent; [solve [auto with doing]|exact H|]; clear H; intros ?x ?b H; cbv beta.
Ltac noisy d H := eapply ends_doing; [apply d|exact H|]; clear H; intros ?x ?b H; cbv beta.

Section parts.
Context (sysclock : nat → Z) (format : Z → string) (path_join : string → string → string).
Context (range : string → list string → list string) (o : Options).

Lemma doing_begin : doing [] false (beginCleanup sysclock o).
Proof.
  intros a. unfold beginCleanup. destruct (_ =? 0)%Z; [|apply steps_refl].
  apply doing_seq; [auto with doing|]. intros t. apply doing_seq; [|auto with doing].
  intros b. split; try done; [by rewrite orb_false_r|by rewrite app_nil_r].
Qed.
#[local] Hint Resolve doing_begin : doing.

Lemma doing_deadlines l : doing [] false (asked_deadlines sysclock o l).
Proof.
  induction l as [|w l IH]; [apply doing_ret|]. cbn [asked_deadlines]. apply doing_seq; [|done].
  unfold asked_deadline. apply doing_seq; auto with doing.
Qed.
#[local] Hint Resolve doing_deadlines : doing.

Lemma doing_generations states : doing [] false (recordGenerations states).
Proof. unfold recordGenerations. auto with doing. Qed.
#[local] Hint Resolve doing_generations : doing.

Lemma doing_failStartup code status : doing [code] false (failStartup sysclock format o code status).
Proof. unfold failStartup. repeat (apply doing_seq; [auto with doing|intros ?]). auto with doing. Qed.

(** ** The wait *)

Definition is_task (cfg : Config) (name : string) : bool :=
  bool_decide (EffectiveMode (proc_at (c_Processes cfg) name) = ProcessModeTask).

(** What the process's state in a snapshot means, if it is there. *)
Definition seen (cfg : Config) (states : list ProcState) (name : string) : option progress :=
  progress_of (is_task cfg name) <$> by_name states !! name.

Definition all_ready (cfg : Config) (selected : list string) (states : list ProcState) : Prop :=
  states ≠ [] ∧ ∀ name, name ∈ selected → seen cfg states name = Some IsReady.

Definition one_failed (cfg : Config) (selected : list string) (states : list ProcState) : Prop :=
  ∃ name, name ∈ selected ∧ seen cfg states name = Some HasFailed.

(** A turn that does not end the wait. *)
Definition undecided (cfg : Config) (selected : list string) (tn : wait_turn) : Prop :=
  ¬ one_failed cfg selected (tn_snapshot tn) ∧ ¬ all_ready cfg selected (tn_snapshot tn) ∧ tn_event tn = Tick.

(** At some moment, none of the selected processes had failed and all of them
    were ready at once, and nothing had ended the wait before. *)
Definition stack_ready (cfg : Config) (selected : list string) (turns : list wait_turn) : Prop :=
  ∃ before tn after, turns = before ++ tn :: after ∧ Forall (undecided cfg selected) before ∧
    ¬ one_failed cfg selected (tn_snapshot tn) ∧ all_ready cfg selected (tn_snapshot tn).

Lemma doing_look cfg byName b ws names : doing [] false (look_at_all sysclock o cfg byName b ws names).
Proof.
  revert b ws. induction names as [|n names IH]; intros b ws; cbn [look_at_all]; [apply doing_ret|].
  apply doing_seq; [|intros x; apply IH]. unfold look_at. repeat case_match; try apply doing_ret.
  apply doing_seq; [auto with doing|intros; apply doing_ret].
Qed.

Lemma look_one cfg byName b ws name a : let x := (look_at sysclock o cfg byName b ws name a).1 in
  let p := progress_of (is_task cfg name) <$> byName !! name in
  (x.1 = true ↔ b = true ∧ (p = Some IsReady ∨ p = Some HasFailed)) ∧
  (∀ n, n ∈ ws_failed x.2 ↔ n ∈ ws_failed ws ∨ n = name ∧ p = Some HasFailed).
Proof.
  cbv zeta. unfold look_at, is_task. destruct (byName !! name) as [st|]; cbn [fmap option_fmap option_map]; [|naive_solver].
  destruct (progress_of _ st); [cbn; set_solver| |cbn; naive_solver].
  case_bool_decide; cbn; naive_solver.
Qed.

Lemma look_all cfg byName b ws names a : let x := (look_at_all sysclock o cfg byName b ws names a).1 in
  let p name := progress_of (is_task cfg name) <$> byName !! name in
  (x.1 = true ↔ b = true ∧ ∀ name, name ∈ names → p name = Some IsReady ∨ p name = Some HasFailed) ∧
  (∀ n, n ∈ ws_failed x.2 ↔ n ∈ ws_failed ws ∨ n ∈ names ∧ p n = Some HasFailed).
Proof.
  cbv zeta. revert b ws a. induction names as [|name names IH]; intros b ws a; cbn [look_at_all].
  { cbn. split; [|set_solver]. split; [intros ->; split; [done|]; by intros ? ?%not_elem_of_nil|naive_solver]. }
  rewrite bind_eq. pose proof (look_one cfg byName b ws name a) as [H1 H2]. cbv zeta in H1, H2.
  destruct (look_at sysclock o cfg byName b ws name a) as [[b1 ws1] a1]. cbn [fst snd] in *.
  destruct (IH b1 ws1 a1) as [I1 I2]. split.
  - rewrite I1, H1. setoid_rewrite elem_of_cons. naive_solver.
  - intros n. rewrite I2, H2, elem_of_cons. naive_solver.
Qed.

Lemma by_name_empty states : size (by_name states) = 0 ↔ states = [].
Proof.
  split; [|by intros ->]. intros H%map_size_empty_inv. destruct states as [|st states] using rev_ind; [done|].
  unfold by_name in H. rewrite fold_left_app in H. cbn in H. by apply insert_non_empty in H.
Qed.

Lemma doing_wait cfg selected turns ws : doing [] false (wait_loop sysclock o cfg selected ws turns).
Proof.
  revert ws. induction turns as [|tn turns IH]; intros ws; cbn [wait_loop]; [apply doing_ret|].
  apply doing_seq; [auto with doing|intros _]. apply doing_seq; [apply doing_look|intros [b ws']].
  repeat case_match; auto using doing_ret.
Qed.

Lemma stack_ready_cons cfg selected tn turns : stack_ready cfg selected (tn :: turns) ↔
  ¬ one_failed cfg selected (tn_snapshot tn) ∧
  (all_ready cfg selected (tn_snapshot tn) ∨
   ¬ all_ready cfg selected (tn_snapshot tn) ∧ tn_event tn = Tick ∧ stack_ready cfg selected turns).
Proof.
  split.
  - intros ([|tn' before] & t & after & [= -> ->] & Hb & Hf & Hr); [by split; [|left]|].
    inversion Hb as [|?? (H1 & H2 & H3) Hb']; subst. split; [done|right]. split_and!; [done|done|]. by exists before, t, after.
  - intros [Hf [Hr|(Hr & Ht & before & t & after & -> & Hb & Hf' & Hr')]]; [by exists [], tn, turns|].
    exists (tn :: before), t, after. split_and!; [done| |done|done]. by constructor.
Qed.

(** The look at one turn, in terms of its snapshot. *)
Lemma look_turn cfg selected tn ws a : ws_failed ws = ∅ →
  let x := (look_at_all sysclock o cfg (by_name (tn_snapshot tn)) (0 <? size (by_name (tn_snapshot tn))) ws selected a).1 in
  (ws_failed x.2 ≠ ∅ ↔ one_failed cfg selected (tn_snapshot tn)) ∧
  (ws_failed x.2 = ∅ → (x.1 = true ↔ all_ready cfg selected (tn_snapshot tn))).
Proof.
  intros Hws. cbv zeta. pose proof (look_all cfg (by_name (tn_snapshot tn)) (0 <? size (by_name (tn_snapshot tn))) ws selected a) as [H1 H2].
  cbv zeta in H1, H2. destruct (look_at_all sysclock _ _ _ _ _ _ a) as [[b ws'] a']. cbn [fst snd] in *.
  assert (Hf : ∀ n, n ∈ ws_failed ws' ↔ n ∈ selected ∧ seen cfg (tn_snapshot tn) n = Some HasFailed) 
    by (intros n; unfold seen; rewrite (H2 n), Hws; set_solver).
  split.
  - unfold one_failed. split; [|intros (n & Hn); apply Hf in Hn; set_solver].
    intros (n & Hn%Hf)%set_choose_L. by exists n.
  - intros He. rewrite H1, Nat.ltb_lt. unfold all_ready. rewrite <-(by_name_empty (tn_snapshot tn)).
    split; (intros [Hs Hall]; split; [lia|]; intros n Hn; specialize (Hall n Hn)); [|by left].
    destruct Hall as [?|Hfl]; [done|]. exfalso. assert (n ∈ ws_failed ws') by (by apply Hf). set_solver.
Qed.

Lemma wait_loop_spec cfg selected turns : ∀ ws a, ws_failed ws = ∅ →
  match (wait_loop sysclock o cfg selected ws turns a).1 with
  | Some (outcome, _, _) => outcome = StatusPassed ↔ stack_ready cfg selected turns
  | None => ¬ stack_ready cfg selected turns ∧ Forall (λ tn, tn_event tn = Tick) turns
  end.
Proof.
  induction turns as [|tn turns IH]; intros ws a Hws; cbn [wait_loop].
  { split; [|done]. by intros ([|] & ? & ? & [=] & _). }
  rewrite bind_eq. destruct (asked_deadlines _ _ _ a) as [u a1]. cbn [fst snd]. rewrite bind_eq.
  pose proof (look_turn cfg selected tn ws a1 Hws) as [Hf Hr]. cbv zeta in Hf, Hr.
  destruct (look_at_all sysclock _ _ _ _ _ _ a1) as [[b ws1] a2]. cbn [fst snd] in *. 
  pose proof (stack_ready_cons cfg selected tn turns) as Hcons. rewrite <-Hf in Hcons.
  case_bool_decide as Hd; cbn; [split; [by intros [=]|tauto]|]. specialize (Hr Hd).
  destruct b; cbn; [rewrite <-Hr in Hcons; split; [tauto|done]|].
  destruct (tn_event tn) eqn:Et; cbn; try (split; [by intros [=]|rewrite Hcons, <-Hr; naive_solver]).
  specialize (IH ws1 a2 Hd). rewrite <-Hr in Hcons.
  destruct (wait_loop _ _ _ _ _ _ a2) as [[[[outcome ?] ?]|] ?]; cbn [fst] in *; [rewrite IH; naive_solver|].
  rewrite Forall_cons. naive_solver.
Qed.

Lemma waitReady_spec cfg selected w a : ends (waitReady sysclock format o cfg selected w) a (λ ready a',
  ∃ codes intr, steps codes intr [] a a' ∧
  match ready with
  | Some true => stack_ready cfg selected (w_turns w) ∧ codes = [] ∧ intr = false
  | Some false => ¬ stack_ready cfg selected (w_turns w) ∧ codes ≠ []
  | None => ¬ stack_ready cfg selected (w_turns w) ∧ Forall (λ tn, tn_event tn = Tick) (w_turns w)
  end).
Proof.
  unfold waitReady. apply ends_bind. unfold ends at 1.
  pose proof (doing_wait cfg selected (w_turns w) (mkWait ∅ ∅ ∅) a) as H.
  pose proof (wait_loop_spec cfg selected (w_turns w) (mkWait ∅ ∅ ∅) a eq_refl) as Hs.
  destruct (wait_loop _ _ _ _ _ _ a) as [[[[outcome ws] last]|] a1]; cbn [fst snd] in *; [|by exists [], false].
  silent H. silent H. case_bool_decide as Hp; cbn [orb].
  - silent H. silent H. exists [], false. by apply Hs in Hp.
  - case_bool_decide as Hi.
    + silent H. silent H. noisy (doing_interrupt true) H. noisy doing_error H. exists [CodeInterrupted], true.
      rewrite Hs in Hp. split; [exact H|done].
    + eapply ends_doing; [|exact H|].
      { instantiate (1 := false). instantiate (1 := [if bool_decide (outcome = StatusTimedOut) then CodeStartupTimeout else CodeStartupFailed]).
        case_bool_decide; apply doing_failStartup. }
      intros ? b' H'. eexists _, _. split; [exact H'|]. rewrite Hs in Hp. by split.
Qed.

(** ** The check *)

(** The check ran, in time and uninterrupted, to a reaped exit with status 0. *)
Definition check_passed (cr : check_run) : Prop :=
  ck_Started (cr_result cr) = true ∧ ck_ExitCode (cr_result cr) = Some 0%Z ∧ ck_HandedOff (cr_result cr) = false ∧
  cr_interrupted cr = false ∧ cr_expired cr = false.

Lemma check_verdict_passed cr :
  let '(_, interrupt, _, codes) := check_verdict (cr_result cr) (cr_canceled cr) (cr_interrupted cr) (cr_expired cr) in
  (interrupt = false ∧ codes = []) ↔ check_passed cr.
Proof.
  unfold check_verdict, check_passed. destruct (ck_Started _), (cr_interrupted cr), (cr_canceled cr), (cr_expired cr), (ck_HandedOff _);
    cbn; try (case_bool_decide; cbn); naive_solver.
Qed.

(** The environment the check reported was the intended one, or nothing was
    reported and nothing is required. *)
Definition environment_passed (required : bool) (report : report_result) : Prop :=
  match report with
  | Report [] | ReportMissing => required = false
  | ReportInvalid _ => False
  | Report l => ∀ ob, ob ∈ l → ob_Status ob = ObservationMatched
  end.

Lemma environment_verdict_passed required report :
  let '(_, _, _, codes) := environment_verdict required report in codes = [] ↔ environment_passed required report.
Proof.
  destruct report as [|t|[|ob l]]; cbn [environment_verdict environment_passed];
    [destruct required; by cbn|destruct required; by cbn|destruct required; by cbn|].
  destruct (forallb _ _) eqn:E.
  - split; [|done]. intros _ x Hx. rewrite forallb_forall in E. apply list_elem_of_In in Hx. by apply E, bool_decide_eq_true in Hx.
  - split; [done|]. intros H. exfalso. apply not_true_iff_false in E. apply E, forallb_forall. intros x Hx.
    apply bool_decide_eq_true, H. by apply list_elem_of_In.
Qed.

(** What the monitor must see of a service in every snapshot. *)
Definition sound (baseline : gmap string Z) (st : ProcState) : Prop :=
  ps_Mode st = ProcessModeTask ∨
  ps_State st = "running" ∧ ps_Generation st = default 0%Z (baseline !! ps_Name st) ∧ ps_Health st ≠ "unhealthy".

Definition services_sound (cr : check_run) : Prop :=
  ∀ states st, states ∈ cr_monitor cr → st ∈ states → sound (generations (cr_baseline cr)) st.

Lemma inspect_empty baseline failed states :
  inspect baseline failed states = ∅ ↔ failed = ∅ ∧ ∀ st, st ∈ states → sound baseline st.
Proof.
  unfold inspect. revert failed. induction states as [|st states IH]; intros failed; cbn [fold_left].
  { split; [|naive_solver]. intros ->. split; [done|]. by intros ? ?%not_elem_of_nil. }
  rewrite IH. setoid_rewrite elem_of_cons. unfold sound at 2.
  case_bool_decide; [naive_solver|].
  destruct (bool_decide_reflect (ps_State st = "running")); cbn [negb orb]; [|split; [set_solver|naive_solver]].
  destruct (Z.eqb_spec (ps_Generation st) (default 0%Z (baseline !! ps_Name st))); cbn [negb orb]; [|split; [set_solver|naive_solver]].
  case_bool_decide; [split; [set_solver|naive_solver]|naive_solver].
Qed.

Lemma monitorRequired_empty cr :
  monitorRequired (generations (cr_baseline cr)) (cr_monitor cr) = ∅ ↔ services_sound cr.
Proof.
  unfold monitorRequired, services_sound. generalize (generations (cr_baseline cr)). intros baseline.
  assert (∀ l failed, fold_left (inspect baseline) l failed = ∅ ↔
    failed = ∅ ∧ ∀ states st, states ∈ l → st ∈ states → sound baseline st) as H.
  { induction l as [|states l IH]; intros failed; cbn [fold_left].
    - split; [|naive_solver]. intros ->. split; [done|]. by intros ?? ?%not_elem_of_nil.
    - rewrite IH, inspect_empty. setoid_rewrite elem_of_cons. naive_solver. }
  rewrite H. naive_solver.
Qed.

Lemma doing_check cr : let '(_, interrupt, _, codes) :=
    check_verdict (cr_result cr) (cr_canceled cr) (cr_interrupted cr) (cr_expired cr) in
  doing codes interrupt (recordCheck format (cr_result cr) (cr_canceled cr) (cr_interrupted cr) (cr_expired cr)).
Proof.
  unfold recordCheck. destruct (check_verdict _ _ _ _) as [[[status interrupt] late] codes].
  apply doing_seq; [apply doing_result; intros r; by destruct (ck_Started _)|]. intros [].
  apply doing_first; [apply doing_interrupt|]. intros []. apply doing_errors.
Qed.

Lemma environment_steps started report a :
  ∃ codes, steps codes false [] a (recordEnvironment started report a).2 ∧
    (codes = [] ↔ started = false ∨ environment_passed (en_Required (r_Environment (a_result a))) report).
Proof.
  unfold recordEnvironment. destruct started; cbn [negb].
  - pose proof (environment_verdict_passed (en_Required (r_Environment (a_result a))) report) as He.
    destruct (environment_verdict _ _) as [[[status reason] obs] codes]. exists codes. split; [|naive_solver].
    apply doing_seq; [apply doing_result; intros r; by case_bool_decide|]. intros []. apply doing_errors.
  - exists []. split; [apply doing_ret|naive_solver].
Qed.

(** What the attempt's codes say about the stack. *)
Definition stack_passed (cfg : Config) (selected : list string) (required : bool) (w : world) : Prop :=
  stack_ready cfg selected (w_turns w) ∧ check_passed (w_check w) ∧ environment_passed required (w_report w) ∧
  services_sound (w_check w).

Lemma no_failure (failed : gset string) (code : string) : replicate (size failed) code = [] ↔ failed = ∅.
Proof.
  split; [|by intros ->]. intros H. apply leibniz_equiv, size_empty_inv. by destruct (size failed).
Qed.

Lemma run_stack_spec cfg j selected w a :
  ends (run_stack sysclock format path_join range o cfg j selected w) a (λ ended a',
    ∃ codes intr acts, steps codes intr acts a a' ∧ (acts = [] ∨ ∃ env deadline, acts = [ActCheck env deadline]) ∧
    match ended with
    | Some _ => codes = [] ∧ intr = false ↔ stack_passed cfg selected (en_Required (r_Environment (a_result a))) w
    | None => Forall (λ tn, tn_event tn = Tick) (w_turns w)
    end).
Proof.
  unfold run_stack. pose proof (steps_refl a) as H. silent H. apply ends_bind.
  pose proof (waitReady_spec cfg selected w b) as (codes & intr & Hw & Hr). unfold ends at 1.
  destruct (waitReady _ _ _ _ _ _ b) as [[[]|] b1]; cbn [fst snd] in *;
    pose proof (steps_trans _ _ _ _ _ _ _ _ _ H Hw) as H1; clear H Hw; cbn [app orb] in H1.
  - destruct Hr as (Hr & -> & ->). silent H1. silent H1. silent H1.
    apply ends_bind. match goal with |- ends (λ a0, perform (@?act a0) a0) ?s ?P =>
      pose proof (steps_trans _ _ _ _ _ _ _ _ _ H1 (steps_perform (act s) s eq_refl)) as H2 end.
    clear H1. unfold ends at 1. silent H2.
    pose proof (doing_check (w_check w)) as Hc. pose proof (check_verdict_passed (w_check w)) as Hcp.
    destruct (check_verdict _ _ _ _) as [[[status interrupt] late] codes].
    eapply ends_doing; [exact Hc|exact H2|]. clear H2. intros [] mid H2. cbn [app orb] in H2.
    apply ends_bind. unfold ends at 1. destruct (environment_steps (ck_Started (cr_result (w_check w))) (w_report w) mid) as (ecodes & He & Hep).
    assert (en_Required (r_Environment (a_result mid)) = en_Required (r_Environment (a_result a))) as Hreq.
    { pose proof (st_core _ _ _ _ _ H2) as Hid. unfold core in Hid. congruence. }
    pose proof (steps_trans _ _ _ _ _ _ _ _ _ H2 He) as H3. clear H2 He. rewrite orb_false_r in H3. cbv zeta.
    noisy doing_errors H3. rewrite orb_false_r in H3. silent H3. silent H3.
    eexists _, _, _. split; [exact H3|]. split; [right; by eexists _, _|]. unfold stack_passed.
    pose proof (monitorRequired_empty (w_check w)) as Hm.
    cbn [mret att_ret fst]. rewrite !app_nil, no_failure, Hep, Hreq, Hm. unfold check_passed in *. intuition congruence.
  - destruct Hr as (Hr & Hc). silent H1. exists codes, intr, []. split; [exact H1|]. split; [by left|]. unfold stack_passed. naive_solver.
  - exists codes, intr, []. split; [exact H1|]. split; [by left|]. naive_solver.
Qed.

Lemma set_runner b a : let a' := (update (λ a, a <| a_runner := b |>) a).2 in
  a_errs a' = a_errs a ∧ a_interrupt a' = a_interrupt a ∧ a_result a' = a_result a ∧ a_actions a' = a_actions a ∧
  a_runner a' = b.
Proof. done. Qed.

(** What starting and checking leaves behind.  Nothing is launched when the
    journal cannot be opened; otherwise everything comes after the launch. *)
Definition started_with (p : Plan) (id : string) (selected : list string) (w : world)
    (a a' : attempt) (ended : option unit) : Prop :=
  ∃ codes intr acts,
    a_errs a' = add_codes codes (a_errs a) ∧ a_interrupt a' = a_interrupt a || intr ∧
    core (a_result a') = core (a_result a) ∧ loud_actions (a_actions a') = loud_actions (a_actions a) ++ acts ∧
    let cfg := clampGrace (default (mkConfig None ∅ []) (pl_Config p)) in
    if w_journal w
    then a_runner a' = a_runner a ∧ acts = [] ∧ codes ≠ [] ∧ is_Some ended
    else a_runner a' = true ∧
      (∃ rest, acts = ActLaunch cfg id :: rest ∧ (rest = [] ∨ ∃ env deadline, rest = [ActCheck env deadline])) ∧
      match ended with
      | Some _ => codes = [] ∧ intr = false ↔ stack_passed cfg selected (en_Required (r_Environment (a_result a))) w
      | None => Forall (λ tn, tn_event tn = Tick) (w_turns w)
      end.

Lemma startAndCheck_spec p id selected w a :
  ends (startAndCheck sysclock format path_join range o p id selected w) a
    (λ ended a', started_with p id selected w a a' ended).
Proof.
  unfold startAndCheck, started_with. pose proof (steps_refl a) as H. silent H. silent H.
  destruct (w_journal w) as [e|] eqn:Ej; cbn [is_Some].
  - rewrite bool_decide_true by by eexists. noisy doing_failStartup H. silent H. destruct H as [E I R D L].
    eexists _, _, _. split_and!; [exact E|exact I|exact D|exact L|exact R|done|done|by eexists].
  - rewrite bool_decide_false by by intros [? [=]]. eapply ends_act; [reflexivity|exact H|]. clear H. intros b1 H.
    apply ends_bind. destruct H as [E I R D L]. unfold ends at 1.
    pose proof (set_runner true b1) as (E1 & I1 & D1 & A1 & R1). destruct (update _ b1) as [[] b2]. cbn [fst snd] in *.
    pose proof (run_stack_spec (clampGrace (default (mkConfig None ∅ []) (pl_Config p))) (pl_Project p) selected w b2)
      as (codes & intr & acts & H & Hacts & Hend).
    unfold ends. destruct H as [E2 I2 R2 D2 L2]. exists codes, intr. eexists (ActLaunch _ _ :: acts). split_and!.
    + by rewrite E2, E1, E.
    + by rewrite I2, I1, I, orb_false_r.
    + by rewrite D2, D1, D.
    + rewrite L2, A1, L. by rewrite <-app_assoc.
    + by rewrite R2, R1.
    + by eexists.
    + replace (en_Required (r_Environment (a_result b2))) with (en_Required (r_Environment (a_result a))) in Hend; [done|].
      rewrite D1. unfold core in D. congruence.
Qed.

(** ** The cleanup *)

(** Everything the run launched is known to have ended. *)
Definition stack_ended (e : run_end) : Prop :=
  re_returned e = true ∧ ShutdownResult (re_groups e) = None ∧ g_unresolved (re_groups e) = [].

Definition teardown_passed (e : run_end) : Prop := ∀ t, t ∈ re_teardown e → tr_Status t = TeardownPassed.

Lemma doing_teardown results : ∃ codes, doing codes false (recordTeardown format results) ∧
  (codes = [] ↔ ∀ t, t ∈ results → tr_Status t = TeardownPassed).
Proof.
  unfold recordTeardown. destruct (forallb _ results) eqn:E.
  - exists []. split; [apply doing_seq; [auto with doing|intros; apply doing_ret]|]. split; [|done]. intros _ t Ht.
    rewrite forallb_forall in E. apply list_elem_of_In in Ht. by apply E, bool_decide_eq_true in Ht.
  - exists [CodeTeardownFailed]. split; [apply doing_seq; auto with doing|]. split; [done|]. intros H. exfalso.
    apply not_true_iff_false in E. apply E, forallb_forall. intros t Ht. apply bool_decide_eq_true, H. by apply list_elem_of_In.
Qed.

(** What the cleanup records of the termination. *)
Definition recorded_end (launched : bool) (e : run_end) (c : Cleanup) : Prop :=
  (cu_SignalingAuthority c = "withdrawn" ↔ launched = false ∨ re_returned e = true) ∧
  (cu_Status c = StatusPassed ↔ launched = false ∨ stack_ended e) ∧
  (cu_TerminationVerified c = Some true ↔ launched = false ∨ stack_ended e).

Lemma doing_ended selected e generation : ∃ codes,
  doing codes false (if negb (re_returned e) then cleanup_unreturned selected generation
                     else cleanup_returned (re_groups e) generation) ∧ (codes = [] ↔ stack_ended e).
Proof.
  unfold stack_ended, cleanup_unreturned, cleanup_returned. destruct (re_returned e); cbn [negb].
  - case_bool_decide as Hs; [case_bool_decide as Hu|]; cbn [andb].
    + exists []. split; [apply doing_seq; auto with doing|naive_solver].
    + exists [CodeCleanupUnverified]. split; [repeat (apply doing_seq; [auto with doing|intros ?]); auto with doing|naive_solver].
    + exists [CodeCleanupUnverified]. split; [repeat (apply doing_seq; [auto with doing|intros ?]); auto with doing|naive_solver].
  - exists [CodeCleanupUnverified]. split; [apply doing_seq; auto with doing|naive_solver].
Qed.

Lemma ended_record selected e generation a : recorded_end true e (r_Cleanup (a_result
  ((if negb (re_returned e) then cleanup_unreturned selected generation
   else cleanup_returned (re_groups e) generation) a).2)).
Proof.
  unfold recorded_end, stack_ended, cleanup_unreturned, cleanup_returned.
  destruct (re_returned e); cbn [negb]; [case_bool_decide; [case_bool_decide|]|]; cbn [andb]; rewrite ?bind_eq; cbn; unfold constant;
    split_and!; split; naive_solver.
Qed.

Lemma cleanup_stack_spec selected e a :
  ends (cleanup_stack sysclock format o selected e) a (λ _ a', ∃ codes,
    steps codes false (ActCancelRun :: if re_returned e then [ActCloseRuntime] else []) a a' ∧
    recorded_end true e (r_Cleanup (a_result a')) ∧ (codes = [] ↔ stack_ended e ∧ teardown_passed e)).
Proof.
  unfold cleanup_stack. eapply ends_act; [reflexivity|apply steps_refl|]. intros b0 H. cbn [app] in H. silent H.
  apply ends_bind. match goal with |- ends _ ?s _ => assert (steps [] false (ActCancelRun :: if re_returned e then [ActCloseRuntime] else [])
    a ((if re_returned e then perform ActCloseRuntime else mret ()) s).2) as H1 end.
  { destruct (re_returned e); [|exact H]. exact (steps_trans _ _ _ _ _ _ _ _ _ H (steps_perform ActCloseRuntime _ eq_refl)). }
  clear H. unfold ends at 1. silent H1. silent H1.
  destruct (doing_teardown (re_teardown e)) as (c1 & Ht & Hc1). eapply ends_doing; [exact Ht|exact H1|]. clear H1 Ht. intros [] b5 H1.
  destruct (doing_ended selected e (generations (re_snapshot e))) as (c2 & He & Hc2). exists (c1 ++ c2).
  unfold ends. split; [|split].
  - rewrite <-(orb_false_r false), <-(app_nil_r (_ :: _)). eapply steps_trans; [exact H1|apply He].
  - apply ended_record.
  - rewrite app_nil, Hc1, Hc2. unfold teardown_passed. tauto.
Qed.

Lemma cleanup_spec selected e a : ends (cleanup sysclock format o selected e) a (λ _ a', ∃ codes acts,
  steps codes false acts a a' ∧ recorded_end (a_runner a) e (r_Cleanup (a_result a')) ∧
  (codes = [] ↔ a_runner a = false ∨ stack_ended e ∧ teardown_passed e) ∧
  acts = if a_runner a then ActCancelRun :: (if re_returned e then [ActCloseRuntime] else []) else []).
Proof.
  unfold cleanup. pose proof (steps_refl a) as H. silent H. apply ends_bind. unfold ends at 1. cbn [fst snd]. silent H.
  apply ends_bind. unfold ends at 1. cbn [fst snd].
  match goal with |- context [a_runner ?s] => replace (a_runner s) with (a_runner a) by (symmetry; apply H) end.
  destruct (a_runner a); cbn [negb].
  - pose proof (cleanup_stack_spec selected e b0) as Hst. unfold ends in Hst |- *. destruct Hst as (codes & H1 & Hr & Hc).
    eexists codes, _. split; [exact (steps_trans _ _ _ _ _ _ _ _ _ H H1)|]. split_and!; [exact Hr|rewrite Hc; intuition discriminate|done].
  - exists [], []. split; [|split_and!; [|intuition done|done]].
    + rewrite <-(app_nil_r []), <-(orb_false_r false). rewrite <-(app_nil_r (@nil action)). eapply steps_trans; [exact H|].
      unfold cleanup_nothing. apply (doing_seq [] false); auto with doing.
    + unfold recorded_end, ends, cleanup_nothing. rewrite bind_eq. cbn. unfold constant. naive_solver.
Qed.

(** ** After the cleanup *)

Definition keeps_cleanup {A} (m : att A) : Prop := ∀ a, r_Cleanup (a_result (m a).2) = r_Cleanup (a_result a).

Lemma keeps_bind_cleanup {A B} (m : att A) (f : A → att B) :
  keeps_cleanup m → (∀ x, keeps_cleanup (f x)) → keeps_cleanup (m ≫= f).
Proof. intros Hm Hf a. by rewrite bind_eq, Hf, Hm. Qed.

Lemma compare_source_steps before g : doing [] false (compare_source sysclock format o before g) ∧
  keeps_cleanup (compare_source sysclock format o before g).
Proof.
  unfold compare_source. split.
  - apply doing_seq; [case_match; auto using doing_now, doing_ret|]. intros t. cbv zeta. case_match; auto with doing.
  - apply keeps_bind_cleanup; [intros a; by case_match|]. intros t a. cbv zeta. by case_match.
Qed.

Section evidence.
Context (encoded : LogEntry → Z) (decode : string → res string LogEntry) (ToLower : string → string).

(** The events of the run could be read back from the journal. *)
Definition evidence_read (run : string) (w : world) : Prop :=
  (LogQuery.Query encoded decode ToLower (run_query run "" 1 1024 false) (w_first w) (w_first w)).2 = None.

Lemma collectEvidence_steps run w a : is_Some (ev_Journal (r_Evidence (a_result a))) →
  let a' := (collectEvidence encoded decode ToLower run w a).2 in
  ∃ codes, steps codes false [] a a' ∧ r_Cleanup (a_result a') = r_Cleanup (a_result a) ∧
    (codes = [] ↔ a_runner a = false ∨ evidence_read run w).
Proof.
  intros Hj. unfold collectEvidence, evidence_read. rewrite bool_decide_true by done. cbn [negb orb].
  destruct (a_runner a); cbn [negb]; [|exists []; split; [apply doing_ret|naive_solver]].
  destruct (LogQuery.Query _ _ _ _ (w_first w) _) as [first [err|]]; cbn [snd].
  - rewrite bool_decide_true by by eexists. exists [CodeEvidenceUnavailable].
    split; [apply doing_seq; [auto with doing|intros; apply doing_error]|]. rewrite bind_eq. split; [done|naive_solver].
  - rewrite bool_decide_false by by intros [? [=]]. exists []. split; [|split; [|naive_solver]].
    + apply doing_seq; [apply doing_result; intros r; by destruct (pg_Events first), (list.last _)|].
      intros []. case_match; auto with doing.
    + rewrite bind_eq. by case_bool_decide; cbn; destruct (pg_Events first), (list.last _).
Qed.
End evidence.

(** ** The verdict *)

(** Nothing was counted and nobody interrupted. *)
Definition clean (a : attempt) : Prop :=
  a_interrupt a = false ∧ ∀ code count, a_errs a !! code = Some count → (count ≤ 0)%Z.

Lemma add_codes_count codes e code : default 0%Z (add_codes codes e !! code) =
  (default 0%Z (e !! code) + Z.of_nat (length (filter (λ c, c = code) codes)))%Z.
Proof.
  revert e. induction codes as [|c codes IH]; intros e; cbn [add_codes fold_left flip]; [cbn; lia|].
  unfold add_codes in IH. rewrite IH. unfold Errors_Add, Errors in *. rewrite filter_cons. case_decide as Hc.
  - subst c. rewrite lookup_insert_eq. cbn [length from_option id]. lia.
  - by rewrite lookup_insert_ne.
Qed.

Lemma clean_codes codes intr a : a_errs a = add_codes codes ∅ → a_interrupt a = intr →
  clean a ↔ codes = [] ∧ intr = false.
Proof.
  intros He Hi. unfold clean. rewrite He, Hi. split.
  - intros [-> H]. split; [|done]. destruct codes as [|c codes]; [done|]. exfalso.
    pose proof (add_codes_count (c :: codes) ∅ c) as Hc. rewrite filter_cons_True in Hc by done.
    change ((∅ : Errors) !! c) with (@None Z) in Hc. cbn [length from_option] in Hc.
    destruct (add_codes (c :: codes) ∅ !! c) as [n|] eqn:E; cbn [from_option id] in Hc; [|lia]. specialize (H c n E). lia.
  - intros [-> ->]. split; [done|]. intros code count [=].
Qed.

Section conclude.
Context (digest : string → string) (order : Errors → list string) (json_len : Result → Z).
Context (selectionDigest : Result → option string).
Context (Horder : ∀ e, order e ≡ₚ keys e).

(** The verdict of an attempt that is not clean or clean. *)
Definition verdict_of (a : attempt) : Prop :=
  let r := a_result a in
  recordedVerdict StateCompleted (r_Status r) (r_ExitCode r) = true ∧
  (r_ExitCode r = ExitPassed ↔ clean a) ∧ (r_Status r = StatusPassed ↔ clean a) ∧
  (r_Status r = StatusInterrupted ↔ a_interrupt a = true).

Lemma finish_spec a : let a' := (finish sysclock format order o a).2 in
  verdict_of a' ∧ (clean a' ↔ clean a) ∧ steps [] false [] a a' ∧
  r_Cleanup (a_result a') = r_Cleanup (a_result a) ∧ a_actions a' = a_actions a ∧
  r_Kind (a_result a') = r_Kind (a_result a) ∧ r_ReceiptPersisted (a_result a') = r_ReceiptPersisted (a_result a).
Proof.
  cbv zeta. unfold finish. rewrite bind_eq. set (t := now sysclock o a).
  assert (a_errs t.2 = a_errs a ∧ a_interrupt t.2 = a_interrupt a ∧ a_result t.2 = a_result a ∧ a_actions t.2 = a_actions a ∧
    a_runner t.2 = a_runner a) as (E & I & R & A & Rn) by done.
  cbn. pose proof (finishVerdict_spec (order (a_errs t.2)) (a_errs t.2) (a_interrupt t.2) (timestamp format t.1) (a_result t.2)
    (Horder _)) as (V1 & _ & V3 & V4 & _ & _ & V7).
  set (r' := finishVerdict _ _ _ _ _) in *.
  assert (core r' = core (a_result t.2) ∧ r_Kind r' = r_Kind (a_result t.2) ∧
    r_ReceiptPersisted r' = r_ReceiptPersisted (a_result t.2)) as (C & K & P).
  { unfold r', finishVerdict. by repeat case_match. }
  assert (r_ExitCode r' = ExitPassed ↔ r_Status r' = StatusPassed) as HX.
  { unfold r', finishVerdict. repeat case_match; cbn; split; by intros. }
  unfold verdict_of, clean. cbn. rewrite R in *. rewrite E, I in *. split_and!; try done; try (by rewrite HX).
  split; cbn; [done|by rewrite orb_false_r|done|done|by rewrite app_nil_r].
Qed.

(** A receipt of a finished attempt. *)
Definition terminal_receipt (id : option string) (r : Result) : Prop :=
  r_SchemaVersion r = SchemaVersion ∧ r_Kind r = KindReceipt ∧ r_State r = StateCompleted ∧ r_AttemptID r = id ∧
  recordedVerdict StateCompleted (r_Status r) (r_ExitCode r) = true.

Lemma terminal_kind id r : terminal_receipt id (r <| r_Kind := KindReceipt |>) ↔
  r_SchemaVersion r = SchemaVersion ∧ r_State r = StateCompleted ∧ r_AttemptID r = id ∧
  recordedVerdict StateCompleted (r_Status r) (r_ExitCode r) = true.
Proof. split; [intros (H1 & _ & H2)|intros (H1 & H2); split; [|split]]; done. Qed.

Lemma Encode_kept r : let r' := (Encode digest json_len selectionDigest order r).2 in
  core r' = core r ∧ r_Kind r' = r_Kind r ∧ r_Status r' = r_Status r ∧ r_ExitCode r' = r_ExitCode r ∧ r_Cleanup r' = r_Cleanup r ∧
  r_ReceiptPersisted r' = r_ReceiptPersisted r.
Proof. cbv zeta. unfold Encode. by repeat case_match. Qed.

Lemma persistTerminal_spec fault a : terminal_receipt (r_AttemptID (a_result a)) ((a_result a) <| r_Kind := KindReceipt |>) →
  let x := persistTerminal digest order json_len selectionDigest fault a in
  ∃ receipts, steps [] false receipts a x.2 ∧
    (receipts = [] ∧ is_Some x.1 ∨ ∃ rr, receipts = [ActReceipt rr fault] ∧ x.1 = fault ∧ terminal_receipt (r_AttemptID (a_result a)) rr) ∧
    r_Status (a_result x.2) = r_Status (a_result a) ∧ r_ExitCode (a_result x.2) = r_ExitCode (a_result a) ∧
    r_Cleanup (a_result x.2) = r_Cleanup (a_result a) ∧ r_ReceiptPersisted (a_result x.2) = r_ReceiptPersisted (a_result a).
Proof.
  intros Hr x. unfold x, persistTerminal. clear x. pose proof (Encode_kept (a_result a)) as Hk. cbv zeta in Hk.
  destruct (Encode _ _ _ _ _) as [[e|e] r]; cbn [snd] in Hk; destruct Hk as (C & K & S & X & U & P); rewrite bind_eq.
  - unfold WriteReceipt. destruct (MaxResultBytes <? _)%Z.
    + exists []. split_and!; [|left; split; [done|by eexists]|done|done|done|done].
      split; cbn; unfold constant; [done|by rewrite orb_false_r|done|done|by rewrite app_nil_r].
    + exists [ActReceipt (r <| r_Kind := KindReceipt |>) fault].
      split_and!; [|right; eexists; split; [done|]; split; [done|]|done|done|done|done].
      * rewrite bind_eq. split; cbn; unfold constant; [done|by rewrite orb_false_r|done|done|by rewrite loud_app].
      * rewrite terminal_kind in *. unfold core in C. injection C as C1 C2 C3 _ _. by rewrite C1, C2, C3, S, X.
  - exists []. split_and!; [|left; split; [done|by eexists]|done|done|done|done].
    split; cbn; unfold constant; [done|by rewrite orb_false_r|done|done|by rewrite app_nil_r].
Qed.

(** What follows the terminal receipt. *)
Lemma after_receipt (err : option string) codes a : verdict_of a → r_ReceiptPersisted (a_result a) = true →
  a_errs a = add_codes codes ∅ →
  let a' := ((if bool_decide (is_Some err)
     then _ ← on_result (λ r, r <| r_ReceiptPersisted := false |>);
          _ ← add_error CodeReceiptPersistence;
          finish sysclock format order o
     else perform ActPrune) a).2 in
  let persisted := r_ReceiptPersisted (a_result a') in
  verdict_of a' ∧ (clean a' ↔ clean a ∧ persisted = true) ∧ (persisted = true ↔ err = None) ∧
  r_Cleanup (a_result a') = r_Cleanup (a_result a) ∧ core (a_result a') = core (a_result a) ∧
  loud_actions (a_actions a') = loud_actions (a_actions a) ++ if persisted then [ActPrune] else [].
Proof.
  intros Hv Hp He. destruct err as [e|]; cbv zeta.
  - rewrite bool_decide_true by by eexists. rewrite !bind_eq. cbn [fst snd].
    match goal with |- context [finish _ _ _ _ ?s] => set (b := s) end. pose proof (finish_spec b) as (V & C & S & U & A & _ & P).
    assert (r_ReceiptPersisted (a_result b) = false ∧ r_Cleanup (a_result b) = r_Cleanup (a_result a) ∧
      a_errs b = Errors_Add CodeReceiptPersistence (a_errs a) ∧ a_actions b = a_actions a ∧
      core (a_result b) = core (a_result a)) as (Pb & Ub & Eb & Ab & Cb) by done.
    rewrite P, Pb, U, Ub, C, A, Ab, app_nil_r. split_and!; try done.
    + split; [|by intros [_ [=]]]. intros Hc. exfalso.
      apply (clean_codes (codes ++ [CodeReceiptPersistence]) (a_interrupt b) b) in Hc as [Hc _]; [by destruct codes| |done].
      by rewrite Eb, He, add_codes_app.
    + by rewrite (st_core _ _ _ _ _ S).
  - rewrite bool_decide_false by by intros [? [=]]. cbn [perform update snd]. 
    match goal with |- context [verdict_of ?s] => set (b := s) end.
    assert (r_ReceiptPersisted (a_result b) = true) as -> by done. split_and!; try done; [split; [done|tauto]|apply loud_app].
Qed.

(** The last steps: the leases, if they are given up, and the response. *)
Lemma last_steps (rel : bool) a :
  let a' := (on_result (λ r, r <| r_Kind := KindResponse |>) ((if rel then perform ActReleaseLeases else mret tt) a).2).2 in
  (verdict_of a' ↔ verdict_of a) ∧ (clean a' ↔ clean a) ∧ r_ReceiptPersisted (a_result a') = r_ReceiptPersisted (a_result a) ∧
  r_Cleanup (a_result a') = r_Cleanup (a_result a) ∧
  loud_actions (a_actions a') = loud_actions (a_actions a) ++ if rel then [ActReleaseLeases] else [].
Proof. destruct rel; split_and!; try done; [apply loud_app|cbn; by rewrite app_nil_r]. Qed.

(** The end of an attempt: the verdict, the terminal receipt, and the leases. *)
Lemma conclude_spec codes w a : r_SchemaVersion (a_result a) = SchemaVersion → a_errs a = add_codes codes ∅ →
  let a' := (conclude_attempt sysclock format digest order json_len selectionDigest o w a).2 in
  let persisted := r_ReceiptPersisted (a_result a') in
  verdict_of a' ∧ (clean a' ↔ clean a ∧ persisted = true) ∧ r_Cleanup (a_result a') = r_Cleanup (a_result a) ∧
  ∃ receipts, loud_actions (a_actions a') = loud_actions (a_actions a) ++ receipts ++ (if persisted then [ActPrune] else []) ++
      (if bool_decide (cu_SignalingAuthority (r_Cleanup (a_result a)) = "withdrawn") then [ActReleaseLeases] else []) ∧
    (receipts = [] ∧ persisted = false ∨
     ∃ rr fault, receipts = [ActReceipt rr fault] ∧ terminal_receipt (r_AttemptID (a_result a)) rr ∧ (persisted = true ↔ fault = None)).
Proof.
  intros Hs He. cbv zeta. unfold conclude_attempt.
  rewrite bind_eq. match goal with |- context [on_result ?f a] => set (a1 := (on_result f a).2) end. rewrite bind_eq.
  pose proof (finish_spec a1) as (V2 & C2 & S2 & U2 & A2 & _). set (a2 := (finish _ _ _ _ a1).2) in *.
  rewrite bind_eq. match goal with |- context [on_result ?f a2] => set (a3 := (on_result f a2).2) end.
  assert (terminal_receipt (r_AttemptID (a_result a3)) ((a_result a3) <| r_Kind := KindReceipt |>)) as Ht.
  { rewrite terminal_kind. pose proof (st_core _ _ _ _ _ S2) as Hc. unfold core in Hc. injection Hc as H1 H2 _ _ _.
    split_and!; [by etrans; [exact H1|]|exact H2|done|]. by destruct V2. }
  assert (r_AttemptID (a_result a3) = r_AttemptID (a_result a)) as Hid.
  { pose proof (st_core _ _ _ _ _ S2) as Hc. unfold core in Hc. injection Hc as _ _ H3 _ _. exact H3. }
  rewrite bind_eq. destruct (persistTerminal_spec (w_terminal w) a3 Ht) as (receipts & S4 & Hrec & St4 & X4 & U4 & P4).
  set (x := persistTerminal _ _ _ _ _ a3) in *. rewrite bind_eq.
  pose proof (st_errs _ _ _ _ _ S4) as E4. pose proof (st_intr _ _ _ _ _ S4) as I4. rewrite orb_false_r in I4.
  pose proof (st_errs _ _ _ _ _ S2) as E2.
  assert (verdict_of x.2) as V4 by (unfold verdict_of, clean; rewrite St4, X4, I4, E4; exact V2).
  destruct (after_receipt x.1 codes x.2 V4) as (V5 & C5 & P5 & U5 & D5 & L5).
  { by rewrite P4. }
  { etrans; [exact E4|]. etrans; [exact E2|]. exact He. }
  match goal with |- context [((if bool_decide (is_Some x.1) then ?m else ?m') x.2)] => 
    set (a5 := ((if bool_decide (is_Some x.1) then m else m') x.2).2) in * end.
  assert (clean x.2 ↔ clean a) as Cx.
  { unfold clean. rewrite E4, I4. exact C2. }
  rewrite bind_eq.
  change ((λ a0, (cu_SignalingAuthority (r_Cleanup (a_result a0)), a0)) a5) with (cu_SignalingAuthority (r_Cleanup (a_result a5)), a5).
  cbn [fst snd]. assert (r_Cleanup (a_result a5) = r_Cleanup (a_result a)) as U6 by (etrans; [exact U5|]; etrans; [exact U4|exact U2]).
  rewrite bind_eq, U6. set (rel := bool_decide _). destruct (last_steps rel a5) as (HV & HC & P7 & U7 & L7).
  match goal with |- context [on_result ?f ?a6] => set (a7 := (on_result f a6).2) in * end.
  rewrite HV, HC, P7, C5, Cx, U7. split; [done|]. split; [done|]. split; [done|].
  exists receipts. split.
  - rewrite L7, L5, (st_loud _ _ _ _ _ S4).
    change (a_actions a3) with (a_actions a2). rewrite (st_loud _ _ _ _ _ S2), app_nil_r, <-!app_assoc. done.
  - destruct Hrec as [[-> [e Hx]]|(rr & -> & Hx & Hrr)]; [left|right].
    + split; [done|]. rewrite Hx in P5. destruct (r_ReceiptPersisted (a_result a5)); [|done]. discriminate (proj1 P5 eq_refl).
    + eexists _, _. split; [done|]. rewrite <-Hid. split; [done|]. by rewrite <-Hx.
Qed.
End conclude.

(** ** The order of an attempt's actions *)

(** A receipt of an attempt without a verdict. *)
Definition active_receipt (id : string) (r : Result) : Prop :=
  r_SchemaVersion r = SchemaVersion ∧ r_Kind r = KindReceipt ∧ r_State r = StateActive ∧ r_AttemptID r = Some id ∧
  r_Status r = StatusNotRun ∧ r_ExitCode r = 0%Z ∧ validAttemptID id = true.

(** The terminal receipt, if it could be encoded, and the pruning after it. *)
Definition finished (id : string) (l : list action) : Prop :=
  l = [] ∨ ∃ r fault, l = ActReceipt r fault :: (if fault then [] else [ActPrune]) ∧ terminal_receipt (Some id) r.

(** What an attempt may do, apart from handing out deadlines. *)
Inductive attempt_actions (returned : bool) : list action → Prop :=
  | aa_refused : attempt_actions returned []
  | aa_acquired : attempt_actions returned [ActReleaseLeases]
  | aa_unrecorded id r e : active_receipt id r → attempt_actions returned [ActReceipt r (Some e); ActReleaseLeases]
  | aa_unlaunched id r l : active_receipt id r → finished id l →
      attempt_actions returned (ActReceipt r None :: l ++ [ActReleaseLeases])
  | aa_launched id r cfg rest l : active_receipt id r → finished id l →
      rest = [] ∨ (∃ env deadline, rest = [ActCheck env deadline]) →
      attempt_actions returned
        (ActReceipt r None :: ActLaunch cfg id :: rest ++ ActCancelRun :: (if returned then [ActCloseRuntime] else []) ++
         l ++ if returned then [ActReleaseLeases] else []).

Section run.
Context (digest : string → string) (order : Errors → list string) (json_len : Result → Z).
Context (encoded : LogEntry → Z) (decode : string → res string LogEntry) (ToLower : string → string).
Context (selectionDigest : Result → option string).
Context (Horder : ∀ e, order e ≡ₚ keys e).

(** Everything after the acquisition went well. *)
Definition run_passed (p : Plan) (selected : list string) (required : bool) (w : world) : Prop :=
  w_journal w = None ∧ stack_passed (clampGrace (default (mkConfig None ∅ []) (pl_Config p))) selected required w ∧
  stack_ended (w_end w) ∧ teardown_passed (w_end w) ∧ evidence_read encoded decode ToLower (pj_RunID (pl_Project p)) w.

(** The exit code, the status and the termination agree. *)
Definition consistent (r : Result) : Prop :=
  (r_Status r = StatusPassed ↔ r_ExitCode r = ExitPassed) ∧
  (r_ExitCode r = ExitPassed → cu_TerminationVerified (r_Cleanup r) = Some true ∧
     cu_SignalingAuthority (r_Cleanup r) = "withdrawn").

Lemma WriteReceipt_spec r fault a : let x := WriteReceipt json_len r fault a in
  ∃ acts, steps [] false acts a x.2 ∧ a_result x.2 = a_result a ∧
    (acts = [] ∧ is_Some x.1 ∨ acts = [ActReceipt (r <| r_Kind := KindReceipt |>) fault] ∧ x.1 = fault).
Proof.
  cbv zeta. unfold WriteReceipt. destruct (MaxResultBytes <? _)%Z.
  - exists []. split_and!; [apply steps_refl|done|left; split; [done|by eexists]].
  - eexists. split_and!; [|done|right; split; [done|done]]. rewrite bind_eq. by apply steps_perform.
Qed.

(** A started attempt, cleaned up, up to its conclusion. *)
Lemma run_middle p id selected w before a ended a' :
  started_with p id selected w a a' ended → ended = Some tt → a_errs a = ∅ → a_interrupt a = false → a_runner a = false →
  is_Some (ev_Journal (r_Evidence (a_result a))) →
  ends (_ ← cleanup sysclock format o selected (w_end w);
        _ ← collectEvidence encoded decode ToLower (pj_RunID (pl_Project p)) w;
        compare_source sysclock format o before (w_source w)) a' (λ _ b,
    ∃ codes intr acts, a_errs b = add_codes codes ∅ ∧ a_interrupt b = intr ∧ core (a_result b) = core (a_result a) ∧
      loud_actions (a_actions b) = loud_actions (a_actions a) ++ acts ∧
      (codes = [] ∧ intr = false ↔ run_passed p selected (en_Required (r_Environment (a_result a))) w) ∧
      let c := r_Cleanup (a_result b) in
      if w_journal w then acts = [] ∧ cu_SignalingAuthority c = "withdrawn"
      else (cu_SignalingAuthority c = "withdrawn" ↔ re_returned (w_end w) = true) ∧
        (cu_TerminationVerified c = Some true ↔ stack_ended (w_end w)) ∧
        ∃ cfg rest, acts = ActLaunch cfg id :: rest ++ ActCancelRun :: (if re_returned (w_end w) then [ActCloseRuntime] else []) ∧
          (rest = [] ∨ ∃ env deadline, rest = [ActCheck env deadline])).
Proof.
  intros (c0 & i0 & l0 & E0 & I0 & D0 & L0 & H0) -> Ea Ia Ra Hj.
  apply ends_bind. pose proof (cleanup_spec selected (w_end w) a') as (c1 & l1 & S1 & Hrec & Hc1 & Hl1). unfold ends at 1.
  apply ends_bind. set (b1 := (cleanup _ _ _ _ _ a').2) in *.
  assert (is_Some (ev_Journal (r_Evidence (a_result b1)))) as Hj1.
  { pose proof (st_core _ _ _ _ _ S1) as H. rewrite D0 in H. unfold core in H. by injection H as _ _ _ -> _. }
  destruct (collectEvidence_steps encoded decode ToLower (pj_RunID (pl_Project p)) w b1 Hj1) as (c2 & S2 & U2 & Hc2).
  unfold ends at 1. destruct (compare_source_steps before (w_source w)) as [S3 U3].
  set (b2 := (collectEvidence _ _ _ _ _ b1).2) in *. specialize (S3 b2). specialize (U3 b2). unfold ends.
  pose proof (steps_trans _ _ _ _ _ _ _ _ _ (steps_trans _ _ _ _ _ _ _ _ _ S1 S2) S3) as S. rewrite !app_nil_r, !orb_false_r in S.
  destruct S as [E I R D L]. assert (a_runner b1 = a_runner a') as Rb by apply S1. rewrite Rb in Hc2.
  set (b3 := (compare_source _ _ _ _ _ b2).2) in *.
  exists (c0 ++ c1 ++ c2), i0, (l0 ++ l1). split_and!.
  - by rewrite E, E0, Ea, !add_codes_app.
  - by rewrite I, I0, Ia, orb_false_r.
  - by rewrite D, D0.
  - by rewrite L, L0, app_assoc.
  - rewrite !app_nil, Hc1, Hc2. unfold run_passed. destruct (w_journal w).
    + destruct H0 as (_ & _ & Hne & _). split; [intros [[H _] _]; by destruct Hne|by intros [[=] _]].
    + destruct H0 as (-> & _ & Hp). split; intuition discriminate.
  - rewrite U3, U2. destruct Hrec as (H1 & _ & H3). destruct (w_journal w).
    + destruct H0 as (HR & -> & _). rewrite HR, Ra in *. split; [by rewrite Hl1|]. apply H1. by left.
    + destruct H0 as (HR & (rest & -> & Hrest) & _). rewrite HR in *. split_and!; [rewrite H1; intuition discriminate|rewrite H3; intuition discriminate|].
      eexists _, rest. split; [by rewrite Hl1|done].
Qed.

(** How an attempt ends. *)
Record ended_as (passed : Prop) (returned : bool) (a : attempt) : Prop := {
  ea_exact : r_ExitCode (a_result a) = ExitPassed ↔ passed ∧ r_ReceiptPersisted (a_result a) = true;
  ea_consistent : consistent (a_result a);
  ea_actions : attempt_actions returned (loud_actions (a_actions a));
}.

Lemma refused_end t code a passed returned : r_ReceiptPersisted (a_result a) = false →
  attempt_actions returned (loud_actions (a_actions a)) →
  ended_as passed returned (on_result (failPreAcquisition format code t) a).2.
Proof.
  intros Hp Ha. assert (∀ r, r_ExitCode (failPreAcquisition format code t r) = ExitUsage ∧
    r_Status (failPreAcquisition format code t r) = StatusFailed ∧
    r_ReceiptPersisted (failPreAcquisition format code t r) = r_ReceiptPersisted r) as Hr.
  { intros r. unfold failPreAcquisition. by case_bool_decide. }
  destruct (Hr (a_result a)) as (X & S & P).
  assert (a_result (on_result (failPreAcquisition format code t) a).2 = failPreAcquisition format code t (a_result a)) as E by done.
  split; [|split|exact Ha]; rewrite E.
  - rewrite X, P, Hp. split; [done|by intros [_ [=]]].
  - rewrite X, S. split; by intros [=].
  - rewrite X. done.
Qed.

Lemma unrecorded_end a returned passed : a_errs a = ∅ → r_ReceiptPersisted (a_result a) = false →
  attempt_actions returned (loud_actions (a_actions a) ++ [ActReleaseLeases]) →
  ended_as passed returned (without_receipt sysclock format order o a).2.
Proof.
  intros He Hp Ha. unfold without_receipt. rewrite !bind_eq. cbn [fst snd].
  match goal with |- context [finish _ _ _ _ ?s] => set (b := s) end.
  destruct (finish_spec order Horder b) as ((_ & V2 & V3 & _) & C & S & U & A & _ & P).
  assert (a_errs b = add_codes [CodeReceiptPersistence] ∅) as Eb by exact (f_equal (Errors_Add CodeReceiptPersistence) He).
  assert (¬ clean b) as Hn by (rewrite (clean_codes _ _ b Eb eq_refl); by intros [? _]).
  assert (r_ReceiptPersisted (a_result b) = r_ReceiptPersisted (a_result a)) as Pb by done.
  rewrite C in V2, V3. split; [|split|].
  - rewrite V2, P, Pb, Hp. split; [done|by intros [_ [=]]].
  - rewrite V2, V3. done.
  - rewrite V2. done.
  - rewrite A. change (a_actions b) with (a_actions a ++ [ActReleaseLeases]). by rewrite loud_app.
Qed.

(** The end of an attempt that got as far as its active receipt. *)
Lemma run_end_spec p id active selected w before a ended a' : active_receipt id active →
  started_with p id selected w a a' ended → ended = Some tt → a_errs a = ∅ → a_interrupt a = false → a_runner a = false →
  r_AttemptID (a_result a) = Some id → r_SchemaVersion (a_result a) = SchemaVersion →
  is_Some (ev_Journal (r_Evidence (a_result a))) → loud_actions (a_actions a) = [ActReceipt active None] →
  ends (_ ← cleanup sysclock format o selected (w_end w);
        _ ← collectEvidence encoded decode ToLower (pj_RunID (pl_Project p)) w;
        _ ← compare_source sysclock format o before (w_source w);
        _ ← conclude_attempt sysclock format digest order json_len selectionDigest o w;
        mret (Some tt)) a' (λ ended b,
    ended = Some tt ∧
    ended_as (run_passed p selected (en_Required (r_Environment (a_result a))) w) (re_returned (w_end w)) b).
Proof.
  intros Hact Hs Hend He Hi Hr Hid Hsch Hj Hl.
  pose proof (run_middle p id selected w before a ended a' Hs Hend He Hi Hr Hj) as Hm. unfold ends in Hm. rewrite !bind_eq in Hm.
  apply ends_bind. unfold ends at 1. apply ends_bind. unfold ends at 1. apply ends_bind. unfold ends at 1.
  apply ends_bind. unfold ends at 1.
  set (b := (compare_source _ _ _ _ _ _).2) in *. destruct Hm as (codes & intr & acts & E & I & D & L & Hp & Hc).
  injection D as D1 D2 D3 D4 D5. rewrite Hsch in D1.
  destruct (conclude_spec digest order json_len selectionDigest Horder codes w b D1 E) as ((_ & V2 & V3 & _) & C & U & receipts & Lr & Hrec).
  set (b' := (conclude_attempt _ _ _ _ _ _ _ _ b).2) in *. unfold ends. cbn [fst snd mret att_ret]. split; [done|].
  rewrite D3, Hid in Hrec. rewrite L, Hl in Lr. rewrite C, (clean_codes codes intr b E I), Hp in V2, V3. split.
  - exact V2.
  - split; [by rewrite V2, V3|]. rewrite V2. intros [(Hw & _ & Hse & _) _]. rewrite Hw in Hc. destruct Hc as (H1 & H2 & _).
    rewrite U. split; [by apply H2|]. apply H1, Hse.
  - rewrite Lr. clear Lr V2 V3 C.
    assert (finished id (receipts ++ if r_ReceiptPersisted (a_result b') then [ActPrune] else [])) as Hfin.
    { destruct Hrec as [[-> ->]|(rr & fault & -> & Hrr & Hpf)]; [by left|right; exists rr, fault]. split; [|done]. cbn. f_equal.
      destruct fault, (r_ReceiptPersisted _); try done; [by discriminate (proj1 Hpf eq_refl)|by discriminate (proj2 Hpf eq_refl)]. }
    rewrite (assoc_L (++) receipts). revert Hfin. generalize (receipts ++ if r_ReceiptPersisted (a_result b') then [ActPrune] else []).
    intros l Hfin. destruct (w_journal w).
    + destruct Hc as (-> & ->). rewrite bool_decide_true by done. by apply (aa_unlaunched _ id).
    + destruct Hc as (H1 & _ & cfg & rest & -> & Hrest). rewrite (bool_decide_ext _ _ H1).
      replace (if bool_decide (re_returned (w_end w) = true) then [ActReleaseLeases] else [])
        with (if re_returned (w_end w) then [ActReleaseLeases] else []) by by destruct (re_returned _).
      pose proof (aa_launched (re_returned (w_end w)) id active cfg rest l Hact Hfin Hrest) as Ha.
      cbn [app] in *. rewrite <-!app_assoc. cbn [app]. rewrite <-?app_assoc. exact Ha.
Qed.

Lemma run_spec p selected before w a : a_errs a = ∅ → a_interrupt a = false → a_runner a = false → a_actions a = [] →
  r_SchemaVersion (a_result a) = SchemaVersion → r_ReceiptPersisted (a_result a) = false →
  r_Status (a_result a) = StatusNotRun → r_ExitCode (a_result a) = 0%Z →
  ends (run sysclock format digest path_join order encoded decode ToLower json_len range selectionDigest o p selected before w) a
    (λ ended b, match ended with
     | Some _ => ended_as (run_passed p selected (en_Required (r_Environment (a_result a))) w) (re_returned (w_end w)) b
     | None => Forall (λ tn, tn_event tn = Tick) (w_turns w)
     end).
Proof.
  intros He Hi Hr Ha Hsch Hper Hst Hex. unfold run. apply ends_bind. unfold ends at 1.
  set (a1 := (now sysclock o a).2). destruct (w_random w) as [random|].
  2:{ do 3 (apply ends_bind; unfold ends at 1). apply refused_end; [done|].
      change (loud_actions (a_actions _)) with (loud_actions (a_actions a ++ [ActReleaseLeases])). rewrite Ha. apply aa_acquired. }
  set (id := NewAttemptID _ random). apply ends_bind. unfold ends at 1.
  set (a2 := (begin_record path_join range p selected id w a1).2). apply ends_bind. unfold ends at 1. cbn [fst snd].
  apply ends_bind. unfold ends at 1.
  destruct (WriteReceipt_spec (a_result a2) (w_active w) a2) as (acts & S & R & Hw).
  set (x := WriteReceipt json_len (a_result a2) (w_active w) a2) in *.
  assert (active_receipt id ((a_result a2) <| r_Kind := KindReceipt |>)) as Hact.
  { split_and!; try done. apply NewAttemptID_valid. }
  assert (loud_actions (a_actions x.2) = acts) as Hl by (rewrite (st_loud _ _ _ _ _ S); change (a_actions a2) with (a_actions a); by rewrite Ha).
  pose proof (st_errs _ _ _ _ _ S) as Ex. pose proof (st_intr _ _ _ _ _ S) as Ix. pose proof (st_runner _ _ _ _ _ S) as Rx.
  change (a_errs a2) with (a_errs a) in Ex. change (a_interrupt a2) with (a_interrupt a) in Ix.
  change (a_runner a2) with (a_runner a) in Rx. rewrite He in Ex. rewrite Hi in Ix. rewrite Hr in Rx.
  case_bool_decide as Hx.
  - apply ends_bind. unfold ends at 1. apply unrecorded_end; [exact Ex|by rewrite R|]. rewrite Hl.
    destruct Hw as [[-> _]|[-> Hw]]; [apply aa_acquired|]. rewrite Hw in Hx. destruct (w_active w) as [e|]; [|by destruct Hx].
    by apply (aa_unrecorded _ id).
  - destruct Hw as [[_ ?]|[-> Hw]]; [done|]. rewrite Hw in Hx. destruct (w_active w) as [e|]; [by destruct Hx; eexists|].
    apply ends_bind. pose proof (startAndCheck_spec p id selected w x.2) as Hs. unfold ends in Hs. unfold ends at 1.
    set (y := startAndCheck _ _ _ _ _ p id selected w x.2) in *. destruct y as [[[]|] a4]; cbn [fst snd] in *.
    + pose proof (run_end_spec p id _ selected w before x.2 _ a4 Hact Hs eq_refl Ex Ix Rx) as H.
      rewrite R in H. specialize (H eq_refl Hsch ltac:(by eexists) Hl). eapply ends_weaken; [exact H|]. by intros ? b' [-> Hb].
    + destruct Hs as (? & ? & ? & _ & _ & _ & _ & Hs). destruct (w_journal w); [destruct Hs as (_ & _ & _ & [? [=]])|apply Hs].
Qed.

End run.

End parts.

Section attempts.
Context (sysclock : nat → Z) (format : Z → string) (digest : string → string) (argv_json : list string → string).
Context (path_join : string → string → string) (order : Errors → list string) (Horder : ∀ e, order e ≡ₚ keys e).
Context (encoded : LogEntry → Z) (decode : string → res string LogEntry) (ToLower : string → string).
Context (json_len : Result → Z) (range : string → list string → list string) (selectionDigest : Result → option string).
Context (o : Options) (is_abs : string → bool) (path_dir : string → string) (names : list string).
Context (i : inputs) (w : world).

Definition run_attempt : option (Result * list action) :=
  Run sysclock format digest argv_json path_join order encoded decode ToLower json_len range selectionDigest o is_abs path_dir names i w.

(** The attempt gets as far as owning a session: its input is valid, the
    selection has a service and no two endpoints share a variable, the session
    could be acquired, and no crashed run is in its way. *)
Definition admitted (cfg : Config) (p : Plan) : Prop :=
  default "" (head (o_Argv o)) ≠ "" ∧ (str_len (argv_json (o_Argv o)) ≤ MaxArgvBytes)%Z ∧ bad_budgets o = false ∧
  is_ok (in_file i) = true ∧ in_config i = Ok cfg ∧
  (∀ name, name ∈ o_Selectors o → CheckSelector cfg name = None) ∧
  (∃ name, name ∈ SelectedNames names cfg (o_Selectors o) ∧ is_task cfg name = false) ∧
  endpointNameCollisions range cfg (SelectedNames names cfg (o_Selectors o)) = None ∧
  in_isDir i (workdir_of path_join is_abs path_dir o) = true ∧ in_session i = Ok p ∧ in_crashed i = None.

(** Everything that must hold for an attempt to pass, receipt aside. *)
Definition attempt_passed : Prop := ∃ cfg p, admitted cfg p ∧
  run_passed encoded decode ToLower p (SelectedNames names cfg (o_Selectors o)) (o_RequireEnvironment o) w.

(** How an attempt ends, if it does. *)
Definition attempt_end (ended : option unit) (b : attempt) : Prop :=
  match ended with
  | Some _ => ended_as attempt_passed (re_returned (w_end w)) b
  | None => Forall (λ tn, tn_event tn = Tick) (w_turns w)
  end.

(** An attempt that has done nothing yet. *)
Definition untouched (a : attempt) : Prop :=
  a_errs a = ∅ ∧ a_interrupt a = false ∧ a_runner a = false ∧ a_actions a = [] ∧
  r_SchemaVersion (a_result a) = SchemaVersion ∧ r_ReceiptPersisted (a_result a) = false ∧
  r_Status (a_result a) = StatusNotRun ∧ r_ExitCode (a_result a) = 0%Z ∧
  en_Required (r_Environment (a_result a)) = o_RequireEnvironment o.

Lemma untouched_result f a : untouched a →
  (∀ r, r_SchemaVersion (f r) = r_SchemaVersion r ∧ r_ReceiptPersisted (f r) = r_ReceiptPersisted r ∧
        r_Status (f r) = r_Status r ∧ r_ExitCode (f r) = r_ExitCode r ∧ r_Environment (f r) = r_Environment r) →
  untouched (on_result f a).2.
Proof.
  intros (H1 & H2 & H3 & H4 & H5 & H6 & H7 & H8 & H9) Hf. destruct (Hf (a_result a)) as (F1 & F2 & F3 & F4 & F5).
  change (a_result (on_result f a).2) with (f (a_result a)) in *. unfold untouched.
  change (a_result (on_result f a).2) with (f (a_result a)). rewrite F1, F2, F3, F4, F5. by split_and!.
Qed.

Lemma untouched_now o' a : untouched a → untouched (now sysclock o' a).2.
Proof. done. Qed.

Lemma refuse_end o' code a : untouched a → ends (refuse sysclock format o' code) a attempt_end.
Proof.
  intros (_ & _ & _ & Ha & _ & Hp & _). unfold refuse. do 2 (apply ends_bind; unfold ends at 1).
  apply refused_end; [done|]. change (attempt_actions (re_returned (w_end w)) (loud_actions (a_actions a))). rewrite Ha. apply aa_refused.
Qed.

(** A refusal that also notes that the acquisition was incomplete. *)
Lemma refuse_incomplete o' code b : r_ReceiptPersisted (a_result b) = false →
  attempt_actions (re_returned (w_end w)) (loud_actions (a_actions b)) →
  ends (_ ← refuse sysclock format o' code;
        _ ← on_result (λ r, r <| r_Endpoints := ∅ |> <| r_EndpointsNote := Some "acquisition_incomplete" |>);
        mret (Some tt)) b attempt_end.
Proof.
  intros Hp Ha. apply ends_bind. unfold refuse. do 2 (apply ends_bind; unfold ends at 1). unfold ends at 1.
  destruct (refused_end format (now sysclock o' b).1 code (now sysclock o' b).2 attempt_passed (re_returned (w_end w)) Hp Ha) as [X C A].
  apply ends_bind. unfold ends at 1. split; [exact X|exact C|exact A].
Qed.

Lemma acquire_end o' selected cfg a : untouched a →
  (∀ p, in_session i = Ok p → in_crashed i = None → admitted cfg p) →
  (∀ cfg' p', admitted cfg' p' → cfg' = cfg) → selected = SelectedNames names cfg (o_Selectors o) →
  ends (acquire_and_run sysclock format digest path_join order encoded decode ToLower json_len range selectionDigest o' selected i w) a
    attempt_end.
Proof.
  intros Hu Hadm Hcfg ->. unfold acquire_and_run. apply ends_bind. unfold ends at 1.
  assert (untouched ((if (gt_revision (in_source i)).2 || (gt_status (in_source i)).2 then now sysclock o' else mret 0%Z) a).2) as Hu1
    by by case_match.
  generalize dependent ((if (gt_revision (in_source i)).2 || (gt_status (in_source i)).2 then now sysclock o' else mret 0%Z) a).
  intros [t a1] Hu1. cbn [fst snd] in *. cbv zeta. apply ends_bind. unfold ends at 1.
  match goal with |- context [on_result ?f a1] => assert (untouched (on_result f a1).2) as Hu2 by by apply untouched_result end.
  match goal with |- context [on_result ?f a1] => generalize dependent (on_result f a1) end. intros [[] a2] Hu2. cbn [fst snd] in *.
  pose proof Hu2 as (He & Hi & Hr & Ha & Hs & Hp & Hst & Hx & Hreq).
  destruct (in_session i) as [p|e] eqn:Ep.
  - case_bool_decide as Hc.
    + apply ends_bind. unfold ends at 1. apply refuse_incomplete; [done|].
      change (a_actions _) with (a_actions a2 ++ [ActReleaseLeases]). rewrite Ha. apply aa_acquired.
    + pose proof (run_spec sysclock format path_join range o' digest order json_len encoded decode ToLower selectionDigest Horder
        p (SelectedNames names cfg (o_Selectors o)) (observeSource format (in_source i) t) w a2 He Hi Hr Ha Hs Hp Hst Hx) as H.
      eapply ends_weaken; [exact H|]. intros [[]|] b; [|done]. intros [X C A]. split; [|exact C|exact A].
      rewrite X, Hreq. assert (in_crashed i = None) as Hn by (destruct (in_crashed i); [by destruct Hc|done]).
      specialize (Hadm p eq_refl Hn). unfold attempt_passed. split.
      * intros [H1 H2]. split; [|done]. by exists cfg, p.
      * intros [(cfg' & p' & Hadm' & H1) H2]. split; [|done]. assert (p' = p) as ->.
        { destruct Hadm' as (_ & _ & _ & _ & _ & _ & _ & _ & _ & H3 & _). congruence. }
        by rewrite (Hcfg _ _ Hadm') in H1.
  - unfold refuse_session. apply refuse_incomplete; [done|]. rewrite Ha. apply aa_refused.
Qed.

Lemma with_config_end o' a : o_Selectors o' = o_Selectors o → o_Dir o' = o_Dir o → o_ConfigPath o' = o_ConfigPath o → untouched a →
  default "" (head (o_Argv o)) ≠ "" → (str_len (argv_json (o_Argv o)) ≤ MaxArgvBytes)%Z → bad_budgets o = false →
  ends (with_config sysclock format digest path_join order encoded decode ToLower json_len range selectionDigest o' is_abs path_dir names i w)
    a attempt_end.
Proof.
  intros Hsel Hdir Hpath Hu H1 H2 H3. unfold with_config. destruct (in_file i) as [raw|] eqn:Ef; [|by apply refuse_end].
  apply ends_bind. unfold ends at 1.
  match goal with |- context [on_result ?f a] => assert (untouched (on_result f a).2) as Hu1 by by apply untouched_result end.
  match goal with |- context [on_result ?f a] => generalize dependent (on_result f a) end. intros [[] a1] Hu1. cbn [fst snd] in *.
  destruct (in_config i) as [cfg|] eqn:Ec; [|by apply refuse_end]. cbv zeta. rewrite Hsel.
  destruct (existsb (λ name, bool_decide (is_Some (CheckSelector cfg name))) _) eqn:E4; [by apply refuse_end|].
  destruct (existsb _ (SelectedNames names cfg (o_Selectors o))) eqn:E5; cbn [negb]; [|by apply refuse_end].
  case_bool_decide as E6; [by apply refuse_end|].
  destruct (in_isDir i _) eqn:E7; cbn [negb]; [|by apply refuse_end].
  apply ends_bind. unfold ends at 1.
  match goal with |- context [on_result ?f a1] => assert (untouched (on_result f a1).2) as Hu2 by by apply untouched_result end.
  apply (acquire_end o' _ cfg); [exact Hu2| |by intros cfg' p' (_ & _ & _ & _ & H & _); congruence|done].
  intros p Hp Hc. unfold admitted. rewrite Ef, Ec. split_and!; try done.
  - intros name Hn. apply not_true_iff_false in E4. rewrite existsb_exists in E4.
    destruct (CheckSelector cfg name) eqn:En; [|done]. exfalso. apply E4. exists name. split; [by apply list_elem_of_In|].
    rewrite En. by apply bool_decide_eq_true.
  - apply existsb_exists in E5 as (name & Hn & Hm). exists name. split; [by apply list_elem_of_In|]. unfold is_task. by apply negb_true_iff.
  - destruct (endpointNameCollisions _ _ _); [by destruct E6|done].
  - unfold workdir_of in *. by rewrite Hdir, Hpath in E7.
Qed.

(** Every attempt that ends, however it ends. *)
Lemma Run_end : match run_attempt with
  | Some (r, acts) => ∃ a, a_result a = r ∧ a_actions a = acts ∧ ended_as attempt_passed (re_returned (w_end w)) a
  | None => Forall (λ tn, tn_event tn = Tick) (w_turns w)
  end.
Proof.
  assert (ends (Run_steps sysclock format digest argv_json path_join order encoded decode ToLower json_len range selectionDigest o is_abs
    path_dir names i w) (fresh_attempt format digest argv_json o path_dir) attempt_end) as H.
  { unfold Run_steps. apply ends_bind. unfold ends at 1. apply ends_bind. unfold ends at 1.
    match goal with |- context [on_result ?f ?s] => assert (untouched (on_result f s).2) as Hu by (by split_and!) end.
    match goal with |- context [on_result ?f ?s] =>
      assert (ch_ArgvBytes (r_Check (a_result (on_result f s).2)) = if bool_decide (o_Argv o = []) then 0 else str_len (argv_json (o_Argv o)))%Z as Hs
        by (by cbn; case_bool_decide);
      generalize dependent (on_result f s) end. intros [[] a1] Hu Hs. cbn [fst snd] in *.
    apply ends_bind. unfold ends at 1. cbn [fst snd]. rewrite Hs.
    destruct (bool_decide_reflect (default "" (head (o_Argv o)) = "")) as [H1|H1]; [by apply refuse_end|].
    rewrite bool_decide_false by by intros Hnil; rewrite Hnil in H1.
    destruct (Z.ltb_spec MaxArgvBytes (str_len (argv_json (o_Argv o)))); [by apply refuse_end|].
    destruct (bad_budgets o) eqn:Eb; [by apply refuse_end|]. apply with_config_end; [by destruct (0 <? _)%Z|by destruct (0 <? _)%Z|by destruct (0 <? _)%Z|done|done|done|done]. }
  unfold run_attempt, Run. unfold ends in H. destruct (Run_steps _ _ _ _ _ _ _ _ _ _ _ _ _ _ _ _ _ _ _) as [[[]|] a]; [|exact H].
  by exists a.
Qed.

Definition is_launch (x : action) : bool := match x with ActLaunch _ _ => true | _ => false end.
Definition is_release (x : action) : bool := match x with ActReleaseLeases => true | _ => false end.

Definition none {A} (f : A → bool) (l : list A) : bool := forallb (λ x, negb (f x)) l.

Lemma split_none {A} (f : A → bool) l b y a : none f l = true → f y = true → l ≠ b ++ y :: a.
Proof. intros Hl Hy ->. unfold none in Hl. rewrite forallb_app in Hl. cbn in Hl. rewrite Hy in Hl. by rewrite andb_false_r in Hl. Qed.

(** The only place a kind of element stands. *)
Lemma split_unique {A} (f : A → bool) l1 x l2 b y a : none f l1 = true → none f l2 = true → f y = true →
  l1 ++ x :: l2 = b ++ y :: a → l1 = b ∧ x = y ∧ l2 = a.
Proof.
  intros H1 H2 Hy. revert b. induction l1 as [|z l1 IH]; intros [|c b] E; cbn in *.
  - by injection E as -> ->.
  - injection E as -> E. exfalso. by eapply split_none in E.
  - injection E as -> _. by rewrite Hy in H1.
  - injection E as -> E. apply andb_true_iff in H1 as [_ H1]. by destruct (IH H1 b E) as (-> & -> & ->).
Qed.

Lemma finished_none id l : finished id l → none is_launch l = true ∧ none is_release l = true.
Proof. intros [->|(r & [] & -> & _)]; done. Qed.

Lemma rest_none rest : rest = [] ∨ (∃ env deadline, rest = [ActCheck env deadline]) →
  none is_launch rest = true ∧ none is_release rest = true.
Proof. intros [->|(? & ? & ->)]; done. Qed.

Lemma none_app {A} (f : A → bool) l1 l2 : none f (l1 ++ l2) = none f l1 && none f l2.
Proof. apply forallb_app. Qed.

Lemma none_cons {A} (f : A → bool) x l : none f (x :: l) = negb (f x) && none f l.
Proof. done. Qed.

Lemma launch_after_receipt returned l before cfg id after : attempt_actions returned l → l = before ++ ActLaunch cfg id :: after →
  ∃ active, before = [ActReceipt active None] ∧ active_receipt id active.
Proof.
  intros [| |k r e Hr|k r l' Hr Hl|k r c rest l' Hr Hl Hrest] E; try (by exfalso; eapply (split_none is_launch) in E).
  - exfalso. destruct (finished_none _ _ Hl) as [H _]. eapply (split_none is_launch _ before (ActLaunch cfg id) after); [|done|exact E].
    by rewrite none_cons, none_app, H.
  - destruct (finished_none _ _ Hl) as [H _], (rest_none _ Hrest) as [H' _].
    apply (split_unique is_launch [ActReceipt r None] _ _ before _ after) in E; [|done| |done].
    { destruct E as (<- & [= <- <-] & _). by exists r. }
    rewrite none_app, H', none_cons, !none_app, H. by destruct returned.
Qed.

Lemma release_last returned l before after : attempt_actions returned l → l = before ++ ActReleaseLeases :: after →
  after = [] ∧ ∀ cfg id, ActLaunch cfg id ∈ before → returned = true ∧ ActCloseRuntime ∈ before.
Proof.
  intros [| |k r e Hr|k r l' Hr Hl|k r c rest l' Hr Hl Hrest] E.
  - by destruct before.
  - apply (split_unique is_release [] _ [] before _ after) in E as (<- & _ & <-); try done. split; [done|by intros ?? ?%not_elem_of_nil].
  - apply (split_unique is_release [ActReceipt r (Some e)] _ [] before _ after) in E as (<- & _ & <-); try done.
    split; [done|]. intros cfg id H. by apply list_elem_of_singleton in H.
  - destruct (finished_none _ _ Hl) as [H1 H]. apply (split_unique is_release (ActReceipt r None :: l') _ [] before _ after) in E as (<- & _ & <-); try done.
    split; [done|]. intros cfg id Hin. exfalso. apply list_elem_of_split in Hin as (b & a & E).
    eapply (split_none is_launch _ b (ActLaunch cfg id) a); [|done|exact E]. exact H1.
  - destruct (finished_none _ _ Hl) as [_ H], (rest_none _ Hrest) as [_ H']. destruct returned.
    + assert (ActReceipt r None :: ActLaunch c k :: rest ++ ActCancelRun :: [ActCloseRuntime] ++ l' ++ [ActReleaseLeases] =
        (ActReceipt r None :: ActLaunch c k :: rest ++ ActCancelRun :: [ActCloseRuntime] ++ l') ++ [ActReleaseLeases]) as E'
        by (cbn; by rewrite <-!app_assoc).
      rewrite E' in E. apply (split_unique is_release _ _ [] before _ after) in E as (<- & _ & <-); try done.
      * split; [done|]. intros _ _ _. split; [done|]. set_solver.
      * by rewrite !none_cons, none_app, H', !none_cons, none_app, H.
    + exfalso. eapply (split_none is_release _ before ActReleaseLeases after); [|done|exact E].
      by rewrite !none_cons, none_app, H', none_cons, none_app, app_nil_r, H.
Qed.

(** ** What a verdict says *)

(** C1: the verdict of a verification attempt is exact.  Whatever the stack, the
    check and the machine do, an attempt that ends exits with 0 exactly when its
    input was valid and its session acquired with no crashed run in the way, all
    the selected processes were ready at one moment with none failed, the check
    ran to a reaped exit with status 0 in time and uninterrupted, no service
    stopped, restarted or turned unhealthy meanwhile, the environment it reported
    was the intended one (or none is required and none was reported), the stack
    returned within the cleanup budget with nothing unresolved, every teardown
    passed, the journal could be read back, and the terminal receipt was
    written.  The status says [passed] exactly then, and such an attempt has
    recorded its termination as verified. *)
Theorem verdict_exact r acts : run_attempt = Some (r, acts) →
  (r_ExitCode r = ExitPassed ↔ attempt_passed ∧ r_ReceiptPersisted r = true) ∧
  (r_Status r = StatusPassed ↔ r_ExitCode r = ExitPassed) ∧
  (r_ExitCode r = ExitPassed → cu_TerminationVerified (r_Cleanup r) = Some true).
Proof.
  intros H. pose proof Run_end as He. rewrite H in He. destruct He as (a & <- & _ & [X [C1 C2] _]).
  split_and!; [exact X|exact C1|]. intros Hx. by apply C2.
Qed.

Lemma actions_protocol r acts : run_attempt = Some (r, acts) → attempt_actions (re_returned (w_end w)) (loud_actions acts).
Proof. intros H. pose proof Run_end as He. rewrite H in He. by destruct He as (a & _ & <- & [_ _ A]). Qed.

(** C6: an attempt keeps what others depend on until it is safe.  Nothing is
    launched before a receipt that says the attempt is active, and names it, is
    on disk.  The session's leases are given up last of all, and when something
    was launched only after the stack has returned and its runtime has been
    closed: an attempt that cannot prove the stack gone keeps them. *)
Theorem leases_outlive_the_stack r acts : run_attempt = Some (r, acts) →
  (∀ before cfg id after, loud_actions acts = before ++ ActLaunch cfg id :: after →
     ∃ active, before = [ActReceipt active None] ∧ r_State active = StateActive ∧ r_AttemptID active = Some id) ∧
  (∀ before after, loud_actions acts = before ++ ActReleaseLeases :: after →
     after = [] ∧ ∀ cfg id, ActLaunch cfg id ∈ before → re_returned (w_end w) = true ∧ ActCloseRuntime ∈ before).
Proof.
  intros H%actions_protocol. split.
  - intros before cfg id after E. destruct (launch_after_receipt _ _ _ _ _ _ H E) as (active & -> & Hact). exists active.
    by destruct Hact as (_ & _ & Hs & Hid & _).
  - intros before after E. exact (release_last _ _ _ _ H E).
Qed.

(** An attempt whose wait is ended by anything at all (the caller, the
    deadline, the stack's own return, or what it shows) returns. *)
Theorem attempt_returns tn : tn ∈ w_turns w → tn_event tn ≠ Tick → is_Some run_attempt.
Proof.
  intros Hin Hne. pose proof Run_end as H. destruct run_attempt as [[r acts]|]; [by eexists|].
  rewrite Forall_forall in H. by destruct Hne; apply H.
Qed.

Lemma receipts_of returned l : attempt_actions returned l →
  ∃ id, ∀ r err, ActReceipt r err ∈ l → active_receipt id r ∨ terminal_receipt (Some id) r ∧ validAttemptID id = true.
Proof.
  assert (∀ id l' r err, finished id l' → ActReceipt r err ∈ l' → terminal_receipt (Some id) r) as Hfin.
  { intros id l' r err [->|(r' & fault & -> & Ht)]; [by intros ?%not_elem_of_nil|].
    intros [[= -> _]|Hin]%elem_of_cons; [done|]. destruct fault; [by apply not_elem_of_nil in Hin|by apply list_elem_of_singleton in Hin]. }
  intros [| |id r0 e Ha|id r0 l' Ha Hl|id r0 cfg rest l' Ha Hl Hrest].
  - exists "". by intros ?? ?%not_elem_of_nil.
  - exists "". intros r err Hin. by apply list_elem_of_singleton in Hin.
  - exists id. intros r err [[= -> _]|Hin]%elem_of_cons; [by left|]. by apply list_elem_of_singleton in Hin.
  - exists id. intros r err [[= -> _]|[Hin|Hin]%elem_of_app]%elem_of_cons; [by left| |by apply list_elem_of_singleton in Hin].
    right. split; [by eapply Hfin|apply Ha].
  - exists id. intros r err. rewrite !elem_of_cons, !elem_of_app, !elem_of_cons, !elem_of_app.
    intros [[= -> _]|[|[|[|[|[|]]]]]]; try done; [by left| | | |].
    + by destruct Hrest as [->|(? & ? & ->)]; set_solver.
    + destruct returned; set_solver.
    + right. split; [by eapply Hfin|apply Ha].
    + destruct returned; set_solver.
Qed.

(** What an attempt writes can be read.  All the receipts of an attempt have
    its identifier, and each of them, in the file named after it, passes every
    check a reader makes of a receipt: the schema, the identifier and its file,
    and a state, a status and an exit code that a receipt may record together. *)
Theorem receipts_readable r acts : run_attempt = Some (r, acts) →
  ∃ id, ∀ receipt err, ActReceipt receipt err ∈ acts →
    r_AttemptID receipt = Some id ∧ checkReceipt (id +:+ ".json") true receipt = None.
Proof.
  intros H%actions_protocol. destruct (receipts_of _ _ H) as (id & Hid). exists id. intros receipt err Hin.
  assert (ActReceipt receipt err ∈ loud_actions acts) as Hl.
  { apply list_elem_of_In, filter_In. split; [by apply list_elem_of_In|done]. }
  unfold checkReceipt. destruct (Hid receipt err Hl) as [(-> & -> & -> & -> & -> & -> & Hv)|[(-> & -> & -> & -> & Hr) Hv]];
    rewrite Hv, (bool_decide_true (id +:+ ".json" = _)) by done; [done|]. cbn. by rewrite Hr.
Qed.


End attempts.

(** ** Concrete attempts *)

Definition demo_config : Config :=
  mkConfig None {["api" := mkProcess "serve" "" "" ∅ "" "" 0 0 None 0 [] {["http" := 8080%Z]} None 0 "" ""]} [].

Definition demo_plan : Plan :=
  mkPlan (mkProject "demo" "run-1" "/p/proc-compose.yml" "/s" {["api" := {["http" := 9001%Z]}]}
            {["api" := {["http" := "http://127.0.0.1:9001"]}]} [] "/s/log" "/s/journal" None [])
    (Some demo_config) ["port-9001"] ∅ ∅ [] ["api"] 0 ∅ ∅.

Definition demo_options : Options :=
  mkOptions "/p/proc-compose.yml" "demo" "h" ["api"] ["go"; "test"] "" (30 * Second) (60 * Second) (30 * Second) "v1" ∅ false false
    None 0.

Definition demo_state : ProcState :=
  mkIPCState "api" "running" "" true 7 0 5 0 0 0 1 "" None [] "" "" None None.

Definition demo_inputs : inputs :=
  mkInputs (Ok "processes: {}") (Ok demo_config) (λ _, true) (mkGit ("abc", true) ("", true)) (Ok demo_plan) None.

(** The wait ends with the event, the check with the exit code, and the stack
    returns or does not. *)
Definition demo_world (show : list ProcState) (event : wait_event) (exit : Z) (returned : bool) : world :=
  mkWorld (Some [1; 2; 3; 4; 5; 6; 7; 8; 9; 10]%Z) 7 "host" None None
    [mkTurn [] [] Tick; mkTurn [] show event] show
    (mkCheckRun show [] (mkCheckResult true 1 8 6 7 (Some exit) None "ok" "" false false None false) false false false [show] show)
    ReportMissing (mkRunEnd [ByStack] returned [] show (mkG ∅ [] false [] [] [] true true false 0))
    (Ok []) (Ok []) (Ok []) (mkGit ("abc", true) ("", true)) None.

Definition demo_order (e : Errors) : list string := keys e.

Definition demo_run (i : inputs) (w : world) : option (Result * list action) :=
  run_attempt (λ n, Z.of_nat (S n)) (λ t, "t" +:+ itoa t) (λ s, s) (λ argv, String.concat "," argv) (λ a b, a +:+ "/" +:+ b)
    demo_order (λ _, 1%Z) (λ _, Err "no") (λ s, s) (λ _, 100%Z) (λ _ l, l) (λ _, None) demo_options
    (λ _, true) (λ _, "/p") ["api"] i w.

Definition demo_passing : world := demo_world [demo_state] Tick 0 true.

Lemma demo_order_keys e : demo_order e ≡ₚ keys e.
Proof. done. Qed.

Lemma ended_with {A B} (x : option (A * B)) (P : A → B → Prop) :
  match x with Some (r, acts) => P r acts | None => False end → ∃ r acts, x = Some (r, acts) ∧ P r acts.
Proof. destruct x as [[r acts]|]; [|done]. by exists r, acts. Qed.

Lemma demo_passes : ∃ r acts, demo_run demo_inputs demo_passing = Some (r, acts) ∧ r_ExitCode r = ExitPassed ∧
  (∃ active cfg id rest, loud_actions acts = [ActReceipt active None; ActLaunch cfg id] ++ rest ++ [ActReleaseLeases]) ∧
  ∃ d, acts !! 4 = Some (ActDeadline d).
Proof.
  apply (ended_with (demo_run demo_inputs demo_passing) (λ r acts, r_ExitCode r = ExitPassed ∧
    (∃ active cfg id rest, loud_actions acts = [ActReceipt active None; ActLaunch cfg id] ++ rest ++ [ActReleaseLeases]) ∧
    ∃ d, acts !! 4 = Some (ActDeadline d))).
  vm_compute. split; [reflexivity|split]; [|by eexists].
  match goal with |- context [_ :: _ :: ?a :: ?b :: ?c :: ?d :: ?e :: _ :: [] = _] => do 3 eexists; exists [a; b; c; d; e]; reflexivity end.
Qed.

Lemma verdict_exact_witness : ∃ r acts, demo_run demo_inputs demo_passing = Some (r, acts) ∧ r_ExitCode r = ExitPassed ∧
  cu_TerminationVerified (r_Cleanup r) = Some true.
Proof.
  destruct demo_passes as (r & acts & E & H & _). exists r, acts. split_and!; [done|done|]. unfold demo_run in E.
  exact (proj2 (proj2 (verdict_exact _ _ _ _ _ _ demo_order_keys _ _ _ _ _ _ _ _ _ _ _ _ r acts E)) H).
Defined.

Lemma leases_outlive_the_stack_witness : ∃ r acts before, demo_run demo_inputs demo_passing = Some (r, acts) ∧
  loud_actions acts = before ++ [ActReleaseLeases] ∧ ActCloseRuntime ∈ before.
Proof.
  destruct demo_passes as (r & acts & E & _ & (active & cfg & id & rest & Ha) & _).
  exists r, acts, ([ActReceipt active None; ActLaunch cfg id] ++ rest). split_and!; [done|by rewrite Ha, app_assoc|]. unfold demo_run in E.
  refine (proj2 (proj2 (proj2 (leases_outlive_the_stack _ _ _ _ _ _ demo_order_keys _ _ _ _ _ _ _ _ _ _ _ _ r acts E) _ [] _) cfg id _)).
  - by rewrite Ha, app_assoc.
  - right; left.
Defined.

Lemma attempt_returns_witness : is_Some (demo_run demo_inputs (demo_world [] DeadlinePassed 1 false)).
Proof.
  refine (attempt_returns _ _ _ _ _ _ demo_order_keys _ _ _ _ _ _ _ _ _ _ _ _ (mkTurn [] [] DeadlinePassed) _ _); [|done].
  by apply (list_elem_of_lookup_2 _ 1).
Defined.

Lemma receipts_readable_witness : ∃ r acts id, demo_run demo_inputs demo_passing = Some (r, acts) ∧
  Forall (λ x, match x with
  | ActReceipt r _ => r_AttemptID r = Some id ∧ checkReceipt (id +:+ ".json") true r = None
  | _ => True
  end) acts.
Proof.
  destruct demo_passes as (r & acts & E & _). unfold demo_run in E.
  destruct (receipts_readable _ _ _ _ _ _ demo_order_keys _ _ _ _ _ _ _ _ _ _ _ _ r acts E) as [id Hid].
  exists r, acts, id. split; [done|]. apply Forall_forall. intros [receipt err| | | | | | |] Hr; [exact (Hid receipt err Hr)|exact I..].
Defined.
