(* ===== verification/Budget.v ===== *)
(** * The cleanup budget of an attempt

    Every deadline an attempt hands out is counted back from the end of one
    budget ([spends], [spending]), whoever asks for it and however often. *)

From coqutil Require Import Datatypes.RecordSetters.
From S2P Require Import Prelude GoStrings ConfigTypes ConfigGraph RunnerState Lifecycle Groups Teardown Ipc Session LogQuery VerifyRecords Compare Attempt Verdict.
Import TriangleBracketNotations.

(** ** The budget of the cleanup *)

Section budget.
Context (sysclock : nat → Z) (Hclock : ∀ i, sysclock i ≠ 0%Z) (o : Options).

Lemma reading_nonzero i : reading sysclock o i ≠ 0%Z.
Proof. unfold reading. destruct (o_Now o); [|done]. destruct (Z.eqb_spec (z i) 0); done. Qed.

(** A deadline handed out of a budget that ends at [t]. *)
Definition within (t d : Z) : Prop := d = (t - sealReserve o)%Z ∨ d = (t - 2 * sealReserve o)%Z.

(** The budget is started at most once, by a reading of the clock, and every
    deadline handed out is counted back from its end. *)
Record spends (a a' : attempt) : Prop := {
  sp_deadlines : ∃ acts, a_actions a' = a_actions a ++ acts ∧
    ∀ d, ActDeadline d ∈ acts → a_cleanupStart a' ≠ 0%Z ∧ within (a_cleanupDeadline a') d;
  sp_kept : a_cleanupStart a ≠ 0%Z → a_cleanupStart a' = a_cleanupStart a ∧ a_cleanupDeadline a' = a_cleanupDeadline a;
  sp_begun : a_cleanupStart a = 0%Z → a_cleanupStart a' ≠ 0%Z →
    a_cleanupDeadline a' = (a_cleanupStart a' + o_CleanupTimeout o)%Z ∧ ∃ i, a_cleanupStart a' = reading sysclock o i;
}.

Create HintDb spend.

Lemma spends_trans a b c : spends a b → spends b c → spends a c.
Proof.
  intros [(l1 & A1 & D1) K1 B1] [(l2 & A2 & D2) K2 B2]. split.
  - exists (l1 ++ l2). split; [by rewrite A2, A1, app_assoc|]. intros d [Hd|Hd]%elem_of_app; [|by apply D2].
    destruct (D1 d Hd) as [H1 H2]. destruct (K2 H1) as [-> ->]. done.
  - intros Ha. destruct (K1 Ha) as [E1 E2]. rewrite <-E1, <-E2. apply K2. by rewrite E1.
  - intros Ha Hc. destruct (decide (a_cleanupStart b = 0%Z)) as [Hb|Hb]; [by apply B2|].
    destruct (K2 Hb) as [-> ->]. by apply B1.
Qed.

Definition spending {A} (m : att A) : Prop := ∀ a, spends a (m a).2.

Lemma spends_same a a' acts : a_actions a' = a_actions a ++ acts → (∀ d, ActDeadline d ∉ acts) →
  a_cleanupStart a' = a_cleanupStart a → a_cleanupDeadline a' = a_cleanupDeadline a → spends a a'.
Proof.
  intros Ha Hn Hs Hd. split; [|by rewrite Hs, Hd|by rewrite Hs]. exists acts. split; [done|]. intros d Hin. by destruct (Hn d).
Qed.

Ltac same := intros ?; apply (spends_same _ _ []); [by rewrite app_nil_r|intros ?; apply not_elem_of_nil|done|done].

Lemma spend_ret {A} (x : A) : spending (mret x). Proof. same. Qed.
Lemma spend_now o' : spending (now sysclock o'). Proof. same. Qed.
Lemma spend_read {A} (f : attempt → A) : spending (λ a, (f a, a)). Proof. same. Qed.
Lemma spend_result f : spending (on_result f). Proof. same. Qed.
Lemma spend_error code : spending (add_error code). Proof. same. Qed.
Lemma spend_interrupt f : spending (update (λ a, a <| a_interrupt ::= f |>)). Proof. same. Qed.
Lemma spend_runner b : spending (update (λ a, a <| a_runner := b |>)). Proof. same. Qed.
Lemma spend_finish f : spending (update (λ a, a <| a_result ::= f a |>)). Proof. same. Qed.

Lemma spend_perform x : loud x = true → spending (perform x).
Proof. intros Hx a. apply (spends_same _ _ [x]); try done. intros d Hd%list_elem_of_singleton. by subst x. Qed.

Lemma spend_bind {A B} (m : att A) (f : A → att B) : spending m → (∀ x, spending (f x)) → spending (m ≫= f).
Proof. intros Hm Hf a. rewrite bind_eq. eapply spends_trans; [apply Hm|apply Hf]. Qed.

Lemma spend_at {A} (f : attempt → att A) : (∀ s, spending (f s)) → spending (λ a, f a a).
Proof. intros H a. apply H. Qed.

Lemma spend_begin : spending (beginCleanup sysclock o).
Proof.
  intros a. unfold beginCleanup. destruct (Z.eqb_spec (a_cleanupStart a) 0) as [Hz|Hz].
  - rewrite bind_eq. split; [|by intros|].
    + exists []. split; [by rewrite app_nil_r|]. by intros ? ?%not_elem_of_nil.
    + intros _ _. split; [done|]. by exists (a_clock a).
  - apply spend_ret.
Qed.

Lemma spend_deadline who : spending (asked_deadline sysclock o who).
Proof.
  intros a. unfold asked_deadline. rewrite bind_eq. pose proof (spend_begin a) as Hb.
  assert (a_cleanupStart (beginCleanup sysclock o a).2 ≠ 0%Z ∧
    (beginCleanup sysclock o a).1 = a_cleanupDeadline (beginCleanup sysclock o a).2) as [Hs Hd].
  { unfold beginCleanup. destruct (Z.eqb_spec (a_cleanupStart a) 0); [|done]. rewrite bind_eq. split; [apply reading_nonzero|done]. }
  set (b := (beginCleanup sysclock o a).2) in *. eapply spends_trans; [exact Hb|].
  rewrite Hd. split; [|done|].
  - eexists. split; [done|]. intros d [= ->]%list_elem_of_singleton. split; [done|].
    change (within (a_cleanupDeadline b) (a_cleanupDeadline b - (match who with ByStack => 1 | ByCheck => 2 end) * sealReserve o)).
    destruct who; [left|right]; lia.
  - intros Hz. done.
Qed.

#[local] Hint Resolve spend_ret spend_now spend_read spend_result spend_error spend_interrupt spend_runner spend_finish spend_begin
  spend_deadline : spend.
#[local] Hint Extern 1 (spending (perform _)) => apply spend_perform; done : spend.

(** A part that reads the attempt it runs on, with what it read held fixed. *)
Ltac spend_here := intros ?a; cbv beta; match goal with |- spends ?a (?m ?a).2 =>
  let H := fresh in assert (H : spending m); [|exact (H a)] end.

Ltac spend := repeat first
  [ progress cbv beta zeta
  | solve [auto with spend]
  | lazymatch goal with
    | |- spending (fun a => (_, a)) => apply spend_read
    | |- spending (fun _ => _) => spend_here
    end
  | apply spend_bind; [|intros ?]
  | case_match ].

Lemma spend_deadlines l : spending (asked_deadlines sysclock o l).
Proof. induction l; cbn [asked_deadlines]; spend; done. Qed.
Lemma spend_errors l : spending (add_errors l).
Proof. induction l; cbn [add_errors]; spend; done. Qed.
#[local] Hint Resolve spend_deadlines spend_errors : spend.

Lemma spend_look cfg byName names b ws : spending (look_at_all sysclock o cfg byName b ws names).
Proof. revert b ws. induction names; intros b ws; cbn [look_at_all]; unfold look_at; spend; auto. Qed.
#[local] Hint Resolve spend_look : spend.

Lemma spend_wait cfg selected turns ws : spending (wait_loop sysclock o cfg selected ws turns).
Proof. revert ws. induction turns; intros ws; cbn [wait_loop]; spend; auto. Qed.
#[local] Hint Resolve spend_wait : spend.

Context (format : Z → string) (digest : string → string) (argv_json : list string → string).
Context (path_join : string → string → string) (order : Errors → list string).
Context (encoded : LogEntry → Z) (decode : string → res string LogEntry) (ToLower : string → string).
Context (json_len : Result → Z) (range : string → list string → list string) (selectionDigest : Result → option string).

Lemma spend_refuse o' code : spending (refuse sysclock format o' code).
Proof. unfold refuse. spend. Qed.

Lemma spend_stack cfg j selected w : spending (run_stack sysclock format path_join range o cfg j selected w).
Proof.
  unfold run_stack, waitReady, recordGenerations, failStartup, recordCheck, recordEnvironment. spend.
Qed.

Lemma spend_start p id selected w : spending (startAndCheck sysclock format path_join range o p id selected w).
Proof. pose proof spend_stack. unfold startAndCheck, failStartup. spend. Qed.

Lemma spend_cleanup selected e : spending (cleanup sysclock format o selected e).
Proof. unfold cleanup, cleanup_nothing, cleanup_stack, recordTeardown, cleanup_unreturned, cleanup_returned. spend. Qed.

Lemma spend_evidence run w : spending (collectEvidence encoded decode ToLower run w).
Proof. unfold collectEvidence. spend. Qed.

Lemma spend_conclude w : spending (conclude_attempt sysclock format digest order json_len selectionDigest o w).
Proof. unfold conclude_attempt, finish, persistTerminal, WriteReceipt. spend. Qed.

Lemma spend_run p selected before w :
  spending (run sysclock format digest path_join order encoded decode ToLower json_len range selectionDigest o p selected before w).
Proof.
  pose proof spend_start. pose proof spend_cleanup. pose proof spend_evidence. pose proof spend_conclude.
  unfold run, begin_record, WriteReceipt, without_receipt, compare_source, finish. spend; auto.
Qed.

Lemma spend_config is_abs path_dir names i w :
  spending (with_config sysclock format digest path_join order encoded decode ToLower json_len range selectionDigest o is_abs path_dir names i w).
Proof. pose proof spend_refuse. pose proof spend_run. unfold with_config, acquire_and_run, refuse_session. spend. Qed.
End budget.

Section budgets.
Context (sysclock : nat → Z) (format : Z → string) (digest : string → string) (argv_json : list string → string).
Context (path_join : string → string → string) (order : Errors → list string).
Context (encoded : LogEntry → Z) (decode : string → res string LogEntry) (ToLower : string → string).
Context (json_len : Result → Z) (range : string → list string → list string) (selectionDigest : Result → option string).
Context (o : Options) (is_abs : string → bool) (path_dir : string → string) (names : list string).
Context (i : inputs) (w : world).

(** The budget in force. *)
Definition cleanup_options : Options := if (0 <? o_cleanupBudget o)%Z then o <| o_CleanupTimeout := o_cleanupBudget o |> else o.

Lemma deadlines_within r acts : (∀ k, sysclock k ≠ 0%Z) →
  Run sysclock format digest argv_json path_join order encoded decode ToLower json_len range selectionDigest o is_abs path_dir names i w
    = Some (r, acts) →
  ∃ k, ∀ d, ActDeadline d ∈ acts → bad_budgets o = false ∧
    within cleanup_options (reading sysclock cleanup_options k + o_CleanupTimeout cleanup_options) d.
Proof.
  intros Hclock. unfold Run.
  assert (∀ a : attempt, a_actions a = [] → a_cleanupStart a = 0%Z →
    ∃ k, ∀ d, ActDeadline d ∈ a_actions (Run_steps sysclock format digest argv_json path_join order encoded decode ToLower json_len range
      selectionDigest o is_abs path_dir names i w a).2 → bad_budgets o = false ∧
      within cleanup_options (reading sysclock cleanup_options k + o_CleanupTimeout cleanup_options) d) as H.
  { intros a Ha Hs. unfold Run_steps. rewrite !bind_eq. cbv zeta.
    set (b := (on_result _ _).2). assert (a_actions b = [] ∧ a_cleanupStart b = 0%Z) as [Hb Hbs] by done. clearbody b.
    assert (∀ code, ∃ k : nat, ∀ d, ActDeadline d ∈ a_actions (refuse sysclock format o code b).2 → bad_budgets o = false ∧
      within cleanup_options (reading sysclock cleanup_options k + o_CleanupTimeout cleanup_options) d) as Href.
    { intros code. exists 0. intros d Hd. exfalso. unfold refuse in Hd. rewrite !bind_eq in Hd.
      change (ActDeadline d ∈ a_actions b) in Hd. rewrite Hb in Hd. by apply not_elem_of_nil in Hd. }
    rewrite ?bind_eq. cbn [fst snd]. do 2 (case_match; [apply Href|]). destruct (bad_budgets o) eqn:Ebad; [apply Href|].
    fold cleanup_options.
    destruct (spend_config sysclock Hclock cleanup_options format digest path_join order encoded decode ToLower json_len range selectionDigest
      is_abs path_dir names i w b) as [(l & Hl & Hd) _ Hbegun].
    rewrite Hl, Hb. cbn [app]. destruct (decide (a_cleanupStart (with_config sysclock format digest path_join order encoded decode ToLower
      json_len range selectionDigest cleanup_options is_abs path_dir names i w b).2 = 0%Z)) as [Hz|Hz].
    - exists 0. intros d Hin. by destruct (Hd d Hin).
    - destruct (Hbegun Hbs Hz) as [E (k & Hk)]. exists k. intros d Hin. destruct (Hd d Hin) as [_ Hw]. by rewrite E, Hk in Hw. }
  specialize (H (fresh_attempt format digest argv_json o path_dir) eq_refl eq_refl).
  destruct (Run_steps _ _ _ _ _ _ _ _ _ _ _ _ _ _ _ _ _ _ _) as [[[]|] a]; intros [= <- <-]. exact H.
Qed.

End budgets.

Lemma Nat2Z_S_nonzero k : Z.of_nat (S k) ≠ 0%Z.
Proof. lia. Qed.

