(* ===== verification/CheckEnv.v ===== *)
(** * The environment of an attempt's check

    The variables [checkEnv] gives the check, for any order in which the maps of
    the session are visited. *)

From coqutil Require Import Datatypes.RecordSetters.
From S2P Require Import Prelude GoStrings ConfigTypes ConfigGraph RunnerState Lifecycle Groups Teardown Ipc Session LogQuery VerifyRecords Compare Attempt Verdict.
Import TriangleBracketNotations.

(** ** The environment of the check *)

Lemma EnvName_kind process port process' port' : EnvName "URL" process port ≠ EnvName "PORT" process' port'.
Proof. unfold EnvName. done. Qed.

(** The names of two endpoints agree for both kinds or for neither. *)
Lemma EnvName_same process port process' port' :
  EnvName "URL" process port = EnvName "URL" process' port' → EnvName "PORT" process port = EnvName "PORT" process' port'.
Proof. unfold EnvName. cbn. intros [= E]. by rewrite E. Qed.

Lemma collisions_none seen l : collisions seen l = None →
  NoDup ((λ pn, EnvName "PORT" pn.1 pn.2) <$> l) ∧ ∀ pn, pn ∈ l → seen !! EnvName "PORT" pn.1 pn.2 = None.
Proof.
  revert seen. induction l as [|[process port] l IH]; intros seen H; [split; [constructor|by intros ? ?%not_elem_of_nil]|].
  cbn [collisions] in H. destruct (seen !! EnvName "PORT" process port) eqn:E; [done|]. apply IH in H as [Hn Hs]. split.
  - constructor; [|done]. intros ([p n] & Hp & Hin)%list_elem_of_fmap. cbn in Hp. specialize (Hs _ Hin). cbn in Hs.
    rewrite <-Hp, lookup_insert_eq in Hs. done.
  - intros pn [->|Hin]%elem_of_cons; [done|]. specialize (Hs _ Hin). by apply lookup_insert_None in Hs as [Hs _].
Qed.

Lemma fmap_NoDup_inj {A B} (f : A → B) l x y : NoDup (f <$> l) → x ∈ l → y ∈ l → f x = f y → x = y.
Proof.
  induction l as [|z l IH]; cbn; [by intros _ ?%not_elem_of_nil|]. intros [Hz Hn]%NoDup_cons Hx Hy E.
  apply elem_of_cons in Hx as [->|Hx], Hy as [->|Hy]; [done| | |by apply IH].
  - destruct Hz. rewrite E. by apply list_elem_of_fmap_2.
  - destruct Hz. rewrite <-E. by apply list_elem_of_fmap_2.
Qed.

Section environment.
Context (range : string → list string → list string) (Hrange : ∀ s l, range s l ≡ₚ l).

Lemma project_ports_spec j process name port : (process, name, port) ∈ project_ports range j ↔
  ∃ ports, pj_Ports j !! process = Some ports ∧ ports !! name = Some port.
Proof.
  unfold project_ports. rewrite list_elem_of_bind. split.
  - intros (p & (n & [= <- <- ->] & Hn)%list_elem_of_fmap & Hp). rewrite Hrange in Hn, Hp.
    apply elem_of_keys in Hp as [ports Hp]. rewrite Hp in *. exists ports. split; [done|]. cbn in Hn.
    apply elem_of_keys in Hn as [v Hv]. cbn. by rewrite Hv.
  - intros (ports & Hp & Hn). exists process. split; [|rewrite Hrange; apply elem_of_keys; by eexists].
    apply list_elem_of_fmap. exists name. rewrite Hp. cbn. rewrite Hn. split; [done|]. rewrite Hrange. apply elem_of_keys. by eexists.
Qed.

(** The endpoints of the session have different names. *)
Lemma ports_distinct cfg selected j e e' : endpointNameCollisions range cfg selected = None →
  (∀ process name ports, pj_Ports j !! process = Some ports → is_Some (ports !! name) →
     process ∈ selected ∧ is_Some (p_Ports (proc_at (c_Processes cfg) process) !! name)) →
  e ∈ project_ports range j → e' ∈ project_ports range j →
  EnvName "PORT" e.1.1 e.1.2 = EnvName "PORT" e'.1.1 e'.1.2 → e = e'.
Proof.
  intros [Hn _]%collisions_none Hsel He He' E.
  assert (∀ d, d ∈ project_ports range j → d.1 ∈ (process ← selected;
    (process,.) <$> range process (keys (p_Ports (proc_at (c_Processes cfg) process))))) as Hin.
  { intros [[p n] q] (ports & Hp & Hq)%project_ports_spec. destruct (Hsel p n ports Hp) as [H1 H2]; [by eexists|].
    apply list_elem_of_bind. exists p. split; [|done]. apply list_elem_of_fmap. exists n. split; [done|]. rewrite Hrange. by apply elem_of_keys. }
  pose proof (fmap_NoDup_inj _ _ _ _ Hn (Hin e He) (Hin e' He') E) as Hpn.
  destruct e as [[p n] q], e' as [[p' n'] q']. injection Hpn as <- <-.
  apply project_ports_spec in He as (ports & Hp & Hq), He' as (ports' & Hp' & Hq'). congruence.
Qed.

(** One endpoint's two variables. *)
Definition add_endpoint (j : Project) (env : gmap string string) (e : string * string * Z) : gmap string string :=
  <[EnvName "URL" e.1.1 e.1.2 := project_url j e.1.1 e.1.2]> (<[EnvName "PORT" e.1.1 e.1.2 := itoa e.2]> env).

Lemma add_endpoints_keep j l env k : (∀ e, e ∈ l → EnvName "PORT" e.1.1 e.1.2 ≠ k ∧ EnvName "URL" e.1.1 e.1.2 ≠ k) →
  fold_left (add_endpoint j) l env !! k = env !! k.
Proof.
  revert env. induction l as [|e l IH]; intros env H; [done|]. cbn [fold_left]. rewrite IH by (intros; apply H; by right).
  unfold add_endpoint. rewrite !lookup_insert_ne; [done|apply H; left..].
Qed.

Lemma add_endpoints_in j l env e :
  (∀ x y, x ∈ l → y ∈ l → EnvName "PORT" x.1.1 x.1.2 = EnvName "PORT" y.1.1 y.1.2 → x = y) → e ∈ l →
  fold_left (add_endpoint j) l env !! EnvName "PORT" e.1.1 e.1.2 = Some (itoa e.2) ∧
  fold_left (add_endpoint j) l env !! EnvName "URL" e.1.1 e.1.2 = Some (project_url j e.1.1 e.1.2).
Proof.
  revert env. induction l as [|x l IH]; intros env Hn He; [by apply not_elem_of_nil in He|]. cbn [fold_left].
  destruct (decide (e ∈ l)) as [Hin|Hnin]; [by apply IH; [intros; apply Hn; [right..|]|]|].
  apply elem_of_cons in He as [->|]; [|done].
  assert (∀ y, y ∈ l → EnvName "PORT" y.1.1 y.1.2 ≠ EnvName "PORT" x.1.1 x.1.2) as Hd.
  { intros y Hy E. apply Hnin. by rewrite <-(Hn y x) by first [by right|by left|done]. }
  rewrite !add_endpoints_keep.
  - unfold add_endpoint. split; [|apply lookup_insert_eq].
    rewrite lookup_insert_ne by apply EnvName_kind. apply lookup_insert_eq.
  - intros y Hy. split; intros E; [by apply symmetry, EnvName_kind in E|by apply (Hd y), EnvName_same].
  - intros y Hy. split; intros E; [by apply (Hd y)|by apply EnvName_kind in E].
Qed.

(** The variables of the attempt itself. *)
Definition own_variables (j : Project) (r : Result) (path_join : string → string → string) : list (string * string) :=
  [("PROC_COMPOSE_SESSION", r_Session r); ("PROC_COMPOSE_SESSION_DIR", pj_Directory j);
   ("PROC_COMPOSE_RUN_ID", pj_RunID j);
   ("PROC_COMPOSE_ENVIRONMENT_REPORT", environmentReportPath path_join (pj_Directory j) (default "" (r_AttemptID r)))].

Lemma own_not_endpoint j r path_join k v kind process port : (k, v) ∈ own_variables j r path_join →
  kind = "PORT" ∨ kind = "URL" → EnvName kind process port ≠ k.
Proof. intros Hk [->| ->]; repeat (apply elem_of_cons in Hk as [[= -> ->]|Hk]; [done|]); by apply not_elem_of_nil in Hk. Qed.

(** The environment a check is given is exact, in whatever order the maps
    are visited.  When no two endpoints of the selection share a name, and the
    session's ports are those of the selected processes, then every endpoint's
    port and URL are in the variables named after it, the attempt's own
    variables name its session, its directory, its run and the file of the
    report, whatever the caller's variables say, and every other variable is the
    caller's. *)
Theorem check_environment_exact path_join o cfg selected j r :
  endpointNameCollisions range cfg selected = None →
  (∀ process name ports, pj_Ports j !! process = Some ports → is_Some (ports !! name) →
     process ∈ selected ∧ is_Some (p_Ports (proc_at (c_Processes cfg) process) !! name)) →
  let env := checkEnv path_join range o j r in
  (∀ process name ports port, pj_Ports j !! process = Some ports → ports !! name = Some port →
     env !! EnvName "PORT" process name = Some (itoa port) ∧
     env !! EnvName "URL" process name = Some (project_url j process name)) ∧
  (∀ k v, (k, v) ∈ own_variables j r path_join → env !! k = Some v) ∧
  (∀ k, k ∉ (own_variables j r path_join).*1 →
     (∀ process name ports, pj_Ports j !! process = Some ports → is_Some (ports !! name) →
        k ≠ EnvName "PORT" process name ∧ k ≠ EnvName "URL" process name) →
     env !! k = o_ExtraEnv o !! k).
Proof.
  intros Hc Hsel env. set (l := project_ports range j).
  set (base := <["PROC_COMPOSE_SESSION" := r_Session r]> (<["PROC_COMPOSE_SESSION_DIR" := pj_Directory j]>
    (<["PROC_COMPOSE_RUN_ID" := pj_RunID j]> (<["PROC_COMPOSE_ENVIRONMENT_REPORT" :=
      environmentReportPath path_join (pj_Directory j) (default "" (r_AttemptID r))]> (o_ExtraEnv o))))).
  assert (env = fold_left (add_endpoint j) l base) as ->.
  { unfold env, checkEnv. fold l base. generalize base. induction l as [|[[p n] q] l' IH]; intros b; [done|apply IH]. }
  split_and!.
  - intros process name ports port Hp Hn. apply (add_endpoints_in j l base (process, name, port)); [|apply project_ports_spec; eauto].
    intros x y Hx Hy. by apply (ports_distinct cfg selected j).
  - intros k v Hk. rewrite add_endpoints_keep by (split; eapply own_not_endpoint; eauto). unfold base, own_variables in *.
    repeat (apply elem_of_cons in Hk as [[= -> ->]|Hk]; [by simplify_map_eq|]). by apply not_elem_of_nil in Hk.
  - intros k Hk Hother. rewrite add_endpoints_keep.
    + unfold own_variables in Hk. cbn in Hk. rewrite !not_elem_of_cons in Hk. destruct Hk as (H1 & H2 & H3 & H4 & _).
      unfold base. by rewrite !lookup_insert_ne by done.
    + intros [[p n] q] He. apply project_ports_spec in He as (ports & Hp & Hn). cbn [fst snd].
      destruct (Hother p n ports Hp); [by eexists|done].
Qed.
End environment.

Lemma check_environment_exact_witness :
  checkEnv (λ a b, a +:+ "/" +:+ b) (λ _ l, l) (demo_options <| o_ExtraEnv := {["PROC_COMPOSE_RUN_ID" := "mine"; "HOME" := "/h"]} |>)
    (pl_Project demo_plan) (newResult (λ _, "") (λ _, "") (λ _, "") demo_options (λ _, "") 0) !! "PROC_COMPOSE_PORT_API_HTTP" = Some "9001" ∧
  checkEnv (λ a b, a +:+ "/" +:+ b) (λ _ l, l) (demo_options <| o_ExtraEnv := {["PROC_COMPOSE_RUN_ID" := "mine"; "HOME" := "/h"]} |>)
    (pl_Project demo_plan) (newResult (λ _, "") (λ _, "") (λ _, "") demo_options (λ _, "") 0) !! "PROC_COMPOSE_RUN_ID" = Some "run-1".
Proof.
  set (o := demo_options <| o_ExtraEnv := _ |>). set (r := newResult _ _ _ _ _ _).
  destruct (check_environment_exact (λ _ l, l) (λ _ _, reflexivity _) (λ a b, a +:+ "/" +:+ b) o demo_config ["api"] (pl_Project demo_plan) r)
    as (Hports & Hown & _).
  - vm_compute. reflexivity.
  - intros process name ports Hp Hn. cbn in Hp. apply lookup_singleton_Some in Hp as [<- <-].
    apply lookup_singleton_is_Some in Hn as <-. split; [left|]. by exists 8080%Z.
  - split; [|apply Hown; right; right; left].
    exact (proj1 (Hports "api" "http" {["http" := 9001%Z]} 9001%Z eq_refl eq_refl)).
Defined.
