(* ===== verification/Attest.v ===== *)
(** * Who answered a probe

    A probe that was answered is attributed: the kernel's socket table says
    which socket answered its connection, and [/proc] which processes hold that
    socket.  An answer of a process outside the probed one's group is placed
    against the sessions that run on the machine, and a policy may refuse it.
    The machine is that of [Recovery], where processes change between any two
    system calls; here it also has sockets and open descriptors, which change
    too.  This is the Linux build. *)

From S2P Require Import Prelude GoStrings ConfigTypes Groups RunnerState Recovery Ipc.

(** ** Addresses *)

(** The bytes of an address: 4, 16, or none for the zero one. *)
Definition Addr : Type := list Z.

Record AddrPort : Type := mkAddrPort { ap_Addr : Addr; ap_Port : Z }.

#[export] Instance AddrPort_eq_dec : EqDecision AddrPort.
Proof. solve_decision. Defined.

Definition Is4 (a : Addr) : bool := length a =? 4.
Definition Is6 (a : Addr) : bool := length a =? 16.
Definition IsUnspecified (a : Addr) : bool :=
  bool_decide (a = replicate 4 0%Z) || bool_decide (a = replicate 16 0%Z).

(** [netip.Addr.Unmap]: the address an IPv4-mapped one stands for. *)
Definition Unmap (a : Addr) : Addr :=
  if bool_decide (take 12 a = replicate 10 0 ++ [255; 255])%Z && (length a =? 16) then drop 12 a else a.

(** The probe's own address and the one that accepted it.
    Source: internal/runner/attest.go:14-19 (probeConn). *)
Record probeConn : Type := mkProbeConn { pc_local : AddrPort; pc_remote : AddrPort }.

(** Source: internal/runner/attest.go:32-34 (unmapAddrPort). *)
Definition unmapAddrPort (ap : AddrPort) : AddrPort := mkAddrPort (Unmap (ap_Addr ap)) (ap_Port ap).

(** The addresses of a connection, if it is TCP.
    Source: internal/runner/attest.go:22-30 (probeConnOf). *)
Definition probeConnOf (local remote : option AddrPort) : option probeConn :=
  match local, remote with
  | Some l, Some r => Some (mkProbeConn (unmapAddrPort l) (unmapAddrPort r))
  | _, _ => None
  end.

(** ** The socket table *)

(** Source: internal/runner/attest.go:52-58 (socketEntry). *)
Record socketEntry : Type := mkSocket {
  se_local : AddrPort;
  se_remote : AddrPort;
  se_state : Z;
  se_uid : Z;
  se_inode : Z;
}.

(** Source: internal/runner/attest.go:60-66 (tcpEstablished). *)
Definition tcpEstablished : Z := 1.
(** Source: internal/runner/attest.go:60-66 (tcpSynRecv). *)
Definition tcpSynRecv : Z := 3.
(** Source: internal/runner/attest.go:60-66 (tcpListen). *)
Definition tcpListen : Z := 10.

Definition hex_val (c : ascii) : option Z :=
  if is_digit c then Some (Z.of_nat (code c) - 48)%Z
  else if in_range 97 102 c then Some (Z.of_nat (code c) - 87)%Z
  else if in_range 65 70 c then Some (Z.of_nat (code c) - 55)%Z
  else None.

Fixpoint parse_hex (acc : Z) (s : string) : option Z :=
  match s with
  | EmptyString => Some acc
  | String c s => match hex_val c with Some d => parse_hex (acc * 16 + d)%Z s | None => None end
  end.

(** [strconv.ParseUint(s, 16, bits)] *)
Definition parse_uint16 (bits : Z) (s : string) : option Z :=
  match s with
  | EmptyString => None
  | _ => match parse_hex 0 s with Some z => if (z <? 2 ^ bits)%Z then Some z else None | None => None end
  end.

(** [hex.DecodeString] *)
Fixpoint hex_decode (s : string) : option (list Z) :=
  match s with
  | EmptyString => Some []
  | String a (String b s) =>
      match hex_val a, hex_val b, hex_decode s with
      | Some x, Some y, Some l => Some ((x * 16 + y)%Z :: l)
      | _, _, _ => None
      end
  | _ => None
  end.

(** Each word of four bytes, read as a big-endian number and stored as the
    machine stores it. *)
Fixpoint native_words (little : bool) (raw : list Z) : list Z :=
  match raw with
  | a :: b :: c :: d :: raw => (if little then [d; c; b; a] else [a; b; c; d]) ++ native_words little raw
  | _ => []
  end.

(** Source: internal/runner/attest_linux.go:211-238 (parseSocketAddr). *)
Definition parseSocketAddr (little : bool) (s : string) : option AddrPort :=
  match cut_byte ":"%char s with
  | None => None
  | Some (host, portHex) =>
      match parse_uint16 16 portHex, hex_decode host with
      | Some port, Some raw =>
          if (length raw =? 4) || (length raw =? 16)
          then Some (mkAddrPort (Unmap (native_words little raw)) port) else None
      | _, _ => None
      end
  end.

(** Source: internal/runner/attest_linux.go:192-209 (parseSocketLine). *)
Definition parseSocketLine (little : bool) (line : string) : option socketEntry :=
  let f := Fields line in
  if length f <? 10 then None
  else
    local ← f !! 1 ≫= parseSocketAddr little;
    remote ← f !! 2 ≫= parseSocketAddr little;
    state ← f !! 3 ≫= parse_uint16 8;
    uid ← f !! 7 ≫= atoi;
    inode ← f !! 9 ≫= parse_uint64;
    Some (mkSocket local remote state uid inode).

(** The listeners whose queue can hold the connection: the rank of a row, and
    those of the best rank.
    Source: internal/runner/attest.go:115-125 (listenerSockets, rank). *)
Definition listener_rank (c : probeConn) (e : socketEntry) : nat :=
  let addr := ap_Addr (se_local e) in
  let remote := ap_Addr (pc_remote c) in
  if bool_decide (addr = remote) then 0
  else if IsUnspecified addr && Bool.eqb (Is4 addr) (Is4 remote) then 1
  else if IsUnspecified addr && Is6 addr && Is4 remote then 2
  else 3.

(** Source: internal/runner/attest.go:111-130 (listenerSockets, loop). *)
Definition listener_step (c : probeConn) (acc : nat * list Z * Z) (e : socketEntry) : nat * list Z * Z :=
  let '(best, inodes, uid) := acc in
  if negb (se_state e =? tcpListen)%Z || (se_inode e =? 0)%Z
     || negb (ap_Port (se_local e) =? ap_Port (pc_remote c))%Z then acc
  else
    let rank := listener_rank c e in
    if rank <? best then (rank, [se_inode e], se_uid e)
    else if (rank =? best) && (rank <? 3) then (best, inodes ++ [se_inode e], uid)
    else acc.

(** Source: internal/runner/attest.go:103-132 (listenerSockets). *)
Definition listenerSockets (table : list socketEntry) (c : probeConn) : option (list Z * Z) :=
  let '(_, inodes, uid) := fold_left (listener_step c) table (3, [], 0%Z) in
  if 0 <? length inodes then Some (inodes, uid) else None.

Section attest.
(** The text of an address and port, and its parsing; the byte order. *)
Context (AddrPort_String : AddrPort → string) (ParseAddrPort : string → option AddrPort) (little : bool).

(** The sockets and the user of the first, or the reason there are none.
    Source: internal/runner/attest.go:68-101 (answeringSockets). *)
Fixpoint answering (whole table : list socketEntry) (c : probeConn) : res string (list Z * Z) :=
  match table with
  | [] => Err ("the connection to " +:+ AddrPort_String (pc_remote c) +:+ " does not end in this network namespace")
  | e :: table =>
      if negb (bool_decide (se_local e = pc_remote c)) || negb (bool_decide (se_remote e = pc_local c))
         || (se_state e =? tcpListen)%Z then answering whole table c
      else if negb (se_inode e =? 0)%Z then Ok ([se_inode e], se_uid e)
      else if (se_state e =? tcpEstablished)%Z || (se_state e =? tcpSynRecv)%Z then
        match listenerSockets whole c with
        | Some r => Ok r
        | None => Err ("no listener holds the queue of the connection to " +:+ AddrPort_String (pc_remote c))
        end
      else Err ("the server side of the connection to " +:+ AddrPort_String (pc_remote c) +:+ " was already closed")
  end.

(** Source: internal/runner/attest.go:68-101 (answeringSockets). *)
Definition answeringSockets (table : list socketEntry) (c : probeConn) : res string (list Z * Z) :=
  answering table table c.

(** ** Classification *)

(** Source: internal/runner/attest.go:134-140 (socketHolder). *)
Record socketHolder : Type := mkHolder {
  sh_pid : Z;
  sh_command : string;
  sh_member : bool;
  sh_sameUser : bool;
}.

Definition unattributable (reason : string) : EndpointOwner :=
  mkEndpointOwner OwnerUnattributable "" 0 "" reason "" None.
Definition held_by (result : string) (h : socketHolder) : EndpointOwner :=
  mkEndpointOwner result "" (sh_pid h) (sh_command h) "" "" None.

(** Whose a socket is: the first member's, else the first outsider's of this
    user, else another user's, or nobody's that can be seen.
    Source: internal/runner/attest.go:157-189 (classifyHolders, socket). *)
Inductive socket_side : Type := Ours (h : socketHolder) | Theirs (h : socketHolder) | Alien | Unseen.

Definition is_member (h : socketHolder) : bool := sh_member h.
Definition is_outsider (h : socketHolder) : bool := negb (sh_member h) && sh_sameUser h.

(** Source: internal/runner/attest.go:157-189 (classifyHolders, socket). *)
Definition side_of (hs : list socketHolder) : socket_side :=
  match List.find is_member hs, List.find is_outsider hs with
  | Some m, _ => Ours m
  | None, Some o => Theirs o
  | None, None => if existsb (λ h, negb (sh_member h) && negb (sh_sameUser h)) hs then Alien else Unseen
  end.

Definition the_ours (s : socket_side) : option socketHolder := match s with Ours h => Some h | _ => None end.
Definition the_theirs (s : socket_side) : option socketHolder := match s with Theirs h => Some h | _ => None end.
Definition is_alien (s : socket_side) : bool := match s with Alien => true | _ => false end.

(** Source: internal/runner/attest.go:142-201 (classifyHolders). *)
Definition classifyHolders (inodes : list Z) (holders : gmap Z (list socketHolder)) (unseen : string) : EndpointOwner :=
  let sides := (λ inode, side_of (default [] (holders !! inode))) <$> inodes in
  let ours := omap the_ours sides in
  let theirs := omap the_theirs sides in
  match inodes with
  | [] => unattributable "no socket answered"
  | _ =>
      if length ours =? length inodes then default (unattributable "") (held_by OwnerOwned <$> head ours)
      else if length theirs =? length inodes then default (unattributable "") (held_by OwnerForeign <$> head theirs)
      else if 0 <? length ours + length theirs then
        unattributable (itoa (Z.of_nat (length inodes)) +:+
          " listeners share the port and not all of their holders are known to be on one side")
      else if existsb is_alien sides then
        unattributable "the socket is held by another user's process, which is not named"
      else unattributable unseen
  end.

(** ** What the kernel shows of sockets *)

(** A file of the socket table: its lines, and the error that ended them. *)
Inductive table_file : Type :=
  | TableMissing
  | TableUnreadable (err : string)
  | TableLines (lines : list string) (err : option string).

(** The open descriptors of each process, by number, as the links of its fd
    directory show them, and its status and comm files. *)
Record netstate : Type := mkNet {
  ns_tcp : table_file;
  ns_tcp6 : table_file;
  ns_fds : gmap nat (gmap Z string);
  ns_status : gmap nat string;
  ns_comm : gmap nat string;
}.

(** The reads that may fail. *)
Inductive ncall : Type := NFds (pid : Z) | NLink (pid fd : Z) | NStatus (pid : Z) | NComm (pid : Z).

Context (net : nat → netstate) (nfault : nat → ncall → bool) (euid : Z).

(** A file of the process with the pid. *)
Definition proc_file {A} (c : ncall) (pid : Z) (file : netstate → nat → option A) : sys (option A) := observe (λ w t,
  if nfault t c then None
  else match find_pid (w_kernel w t) pid with Some (p, _) => file (net t) p | None => None end).

Definition read_fds (pid : Z) : sys (option (list Z)) :=
  proc_file (NFds pid) pid (λ n p, (λ fds : gmap Z string, (map_to_list fds).*1) <$> ns_fds n !! p).
Definition read_link (pid fd : Z) : sys (option string) :=
  proc_file (NLink pid fd) pid (λ n p, ns_fds n !! p ≫= (.!! fd)).

(** [strings.TrimSuffix(s, c)] *)
Fixpoint trim_suffix1 (c : ascii) (s : string) : string :=
  match s with
  | EmptyString => EmptyString
  | String a EmptyString => if bool_decide (a = c) then EmptyString else String a EmptyString
  | String a s => String a (trim_suffix1 c s)
  end.

Definition socket_prefix : string := "socket:[".

(** The inode a link names.
    Source: internal/runner/attest_linux.go:125-132 (collectHolders, link). *)
Definition link_inode (link : string) : option Z :=
  if has_prefix socket_prefix link
  then parse_uint64 (trim_suffix1 "]"%char (skip_bytes (String.length socket_prefix) link)) else None.

(** [strings.Split(s, newline)] *)
Fixpoint lines_of (s : string) : list string :=
  match s with
  | EmptyString => [""]
  | String c t => if bool_decide (code c = 10) then "" :: lines_of t
                  else match lines_of t with l :: ls => String c l :: ls | [] => [String c ""] end
  end.

(** The effective user in a status file.
    Source: internal/runner/attest_linux.go:151-160 (processEUID, parse). *)
Fixpoint status_euid (lines : list string) : Z :=
  match lines with
  | [] => -1
  | line :: lines =>
      if has_prefix "Uid:" line then
        match Fields (skip_bytes 4 line) !! 1 ≫= atoi with
        | Some e => e
        | None => status_euid lines
        end
      else status_euid lines
  end.

(** Source: internal/runner/attest_linux.go:144-161 (processEUID). *)
Definition processEUID (pid : Z) : sys Z :=
  text ← proc_file (NStatus pid) pid (λ n p, ns_status n !! p);
  mret (match text with Some s => status_euid (lines_of s) | None => (-1)%Z end).

(** Source: internal/runner/attest_linux.go:163-172 (processName). *)
Definition processName (pid : Z) : sys string :=
  text ← proc_file (NComm pid) pid (λ n p, ns_comm n !! p);
  mret (match text with Some s => trim_space s | None => "" end).

(** The user and the name are read at the first wanted socket.
    Source: internal/runner/attest_linux.go:133-139 (collectHolders, inspect). *)
Definition inspect_holder (pid : Z) (member : bool) (known : option (bool * string)) : sys (bool * string) :=
  match known with
  | Some k => mret k
  | None =>
      sameUser ← (if member then mret true else uid ← processEUID pid; mret (uid =? euid)%Z);
      command ← (if sameUser : bool then processName pid else mret "");
      mret (sameUser : bool, command)
  end.

Definition add_holder (inode : Z) (h : socketHolder) (holders : gmap Z (list socketHolder)) : gmap Z (list socketHolder) :=
  <[inode := default [] (holders !! inode) ++ [h]]> holders.

(** Source: internal/runner/attest_linux.go:123-141 (collectHolders, descriptors). *)
Fixpoint collect_fds (pid : Z) (member : bool) (want : list Z) (known : option (bool * string))
    (holders : gmap Z (list socketHolder)) (fds : list Z) : sys (gmap Z (list socketHolder)) :=
  match fds with
  | [] => mret holders
  | fd :: fds =>
      link ← read_link pid fd;
      match link ≫= link_inode with
      | Some inode =>
          if bool_decide (inode ∈ want) then
            k ← inspect_holder pid member known;
            collect_fds pid member want (Some k) (add_holder inode (mkHolder pid k.2 member k.1) holders) fds
          else collect_fds pid member want known holders fds
      | None => collect_fds pid member want known holders fds
      end
  end.

(** Source: internal/runner/attest_linux.go:112-142 (collectHolders). *)
Definition collectHolders (want : list Z) (member : bool) (holders : gmap Z (list socketHolder)) (pid : Z)
    : sys (gmap Z (list socketHolder)) :=
  fds ← read_fds pid;
  match fds with
  | None => mret holders
  | Some fds => collect_fds pid member want None holders fds
  end.

Fixpoint collect_all (want : list Z) (member : bool) (holders : gmap Z (list socketHolder)) (pids : list Z)
    : sys (gmap Z (list socketHolder)) :=
  match pids with
  | [] => mret holders
  | pid :: pids => holders ← collectHolders want member holders pid; collect_all want member holders pids
  end.

(** Source: internal/runner/processgroup_linux.go:23-33 (groupMemberPIDs). *)
Definition groupMemberPIDs (pgid : Z) : sys (option (list Z)) :=
  walkGroupMembers pgid (λ _ state, mret (negb (isZombieState state))).

(** [None] when the members are not known.
    Source: internal/runner/attest_linux.go:76-110 (findHolders). *)
Definition findHolders (inodes : list Z) (pgid : Z) : sys (option (gmap Z (list socketHolder))) :=
  members ← groupMemberPIDs pgid;
  match members with
  | None => mret None
  | Some members =>
      holders ← collect_all inodes true ∅ members;
      if size holders =? length inodes then mret (Some holders)
      else
        dir ← listing;
        match dir with
        | None => mret (Some holders)
        | Some pids =>
            holders ← collect_all inodes false holders
              (List.filter (λ pid, (0 <? pid)%Z && negb (bool_decide (pid ∈ members))) pids);
            mret (Some holders)
        end
  end.

(** Source: internal/runner/attest_linux.go:174-190 (readSocketTable). *)
Definition readSocketTable (f : table_file) : list socketEntry * option (option string) :=
  match f with
  | TableMissing => ([], Some None)
  | TableUnreadable err => ([], Some (Some err))
  | TableLines lines err => (omap (parseSocketLine little) (drop 1 lines), Some <$> err)
  end.

(** The two files, each read at its own moment; an error other than a missing
    file ends the reading.
    Source: internal/runner/attest_linux.go:48-55 (attributePGID, table). *)
Definition read_tables : sys (res string (list socketEntry)) :=
  a ← observe (λ _ t, readSocketTable (ns_tcp (net t)));
  match a with
  | (_, Some (Some err)) => mret (Err ("socket table unreadable: " +:+ err))
  | (four, _) =>
      b ← observe (λ _ t, readSocketTable (ns_tcp6 (net t)));
      mret (match b with
            | (_, Some (Some err)) => Err ("socket table unreadable: " +:+ err)
            | (six, _) => Ok (four ++ six)
            end)
  end.

(** Source: internal/runner/attest_linux.go:67-70 (hiddenOwner). *)
Definition hiddenOwner (uid : Z) : string := "no visible process holds the socket (owner uid " +:+ itoa uid +:+ ")".

(** Source: internal/runner/attest_linux.go:72-74 (unknownMembership). *)
Definition unknownMembership : EndpointOwner := unattributable "process group membership could not be enumerated".

(** Source: internal/runner/attest_linux.go:33-65 (attributePGID). *)
Definition attributePGID (c : probeConn) (pgid : Z) : sys EndpointOwner := λ w,
  (if negb (w_procOwn w) then mret (unattributable "/proc belongs to another pid namespace")
   else
     table ← read_tables;
     match table with
     | Err reason => mret (unattributable reason)
     | Ok table =>
         match answeringSockets table c with
         | Err reason => mret (unattributable reason)
         | Ok (inodes, uid) =>
             holders ← findHolders inodes pgid;
             mret (match holders with
                   | None => unknownMembership
                   | Some holders => classifyHolders inodes holders (hiddenOwner uid)
                   end)
         end
     end) w.

(** [None] is a group that is not a Unix one.
    Source: internal/runner/attest_linux.go:17-31 (attributeSocket). *)
Definition attributeSocket (c : probeConn) (pgid : option Z) : sys EndpointOwner :=
  match pgid with
  | Some pgid => if (pgid <=? 1)%Z then mret (unattributable "the process group cannot be inspected")
                 else attributePGID c pgid
  | None => mret (unattributable "the process group cannot be inspected")
  end.

Definition set_Address (address : string) (o : EndpointOwner) : EndpointOwner :=
  mkEndpointOwner (eo_Result o) address (eo_PID o) (eo_Command o) (eo_Reason o) (eo_Scope o) (eo_Session o).

(** Source: internal/runner/attest.go:36-50 (attributeProbe). *)
Definition attributeProbe (c : probeConn) (pgid : option Z) : sys EndpointOwner :=
  if bool_decide (ap_Addr (pc_remote c) = []) then mret (unattributable "the probe connection was not recorded")
  else owner ← attributeSocket c pgid; mret (set_Address (AddrPort_String (pc_remote c)) owner).

(** ** Placing a foreign answer *)

(** A session of the registry.
    Source: internal/registry/registry.go:23-38 (Session). *)
Record RegSession : Type := mkRegSession {
  rs_Hash : string;
  rs_Project : Project;
  rs_Live : bool;
  rs_PID : Z;
  rs_Record : option DaemonRecord;
}.

(** Source: internal/registry/registry.go:40-46 (Session.Name). *)
Definition session_name (s : RegSession) : string :=
  if bool_decide (pj_Session (rs_Project s) = "") then "default" else pj_Session (rs_Project s).

(** What a session's metadata file and PID file hold; the latter is read
    twice. *)
Record session_files : Type := mkSessionFiles {
  sf_base : string;
  sf_project : option Project;
  sf_record1 : res bool DaemonRecord;
  sf_record2 : res bool DaemonRecord;
}.

Definition strip (prefix suffix s : string) : string :=
  let s := if has_prefix prefix s then skip_bytes (String.length prefix) s else s in
  if has_suffix suffix s then str_take (String.length s - String.length suffix) s else s.

(** Source: internal/registry/registry.go:57-73 (Discover, session). *)
Definition discover_one (f : session_files) : sys (list RegSession) :=
  match sf_project f with
  | None => mret []
  | Some project =>
      live ← IsAliveFromPIDFile (sf_record1 f);
      mret [mkRegSession (strip "pc-" ".meta.json" (sf_base f)) project (live : bool * Z).1
              (if live.1 then live.2 else 0%Z)
              (match sf_record2 f with Ok rec => Some rec | Err _ => None end)]
  end.

Definition session_le (x y : RegSession) : Prop :=
  if bool_decide (pj_ConfigPath (rs_Project x) = pj_ConfigPath (rs_Project y)) then str_le (session_name x) (session_name y)
  else str_le (pj_ConfigPath (rs_Project x)) (pj_ConfigPath (rs_Project y)).

#[export] Instance session_le_dec : RelDecision session_le.
Proof. intros x y. unfold session_le. case_bool_decide; apply _. Defined.

(** Source: internal/registry/registry.go:48-81 (Discover). *)
Definition Discover (files : list session_files) : sys (list RegSession) :=
  found ← mapM_sys discover_one files;
  mret (merge_sort session_le (mjoin found)).

(** Source: internal/registry/registry.go:83-107 (Session.PortAssignment). *)
Definition PortAssignment (s : RegSession) (port : Z) : option (string * string) :=
  if (port <=? 0)%Z then None
  else head (process ← sort_strings (keys (pj_Ports (rs_Project s)));
             let ports := default ∅ (pj_Ports (rs_Project s) !! process) in
             (process,.) <$> List.filter (λ name, (default 0 (ports !! name) =? port)%Z) (sort_strings (keys ports))).

(** Source: internal/ipc/ipc.go:83-94 (ScopeCrossSession). *)
Definition ScopeCrossSession : string := "cross_session".
(** Source: internal/ipc/ipc.go:83-94 (ScopeOutsideSession). *)
Definition ScopeOutsideSession : string := "outside_session".
(** Source: internal/ipc/ipc.go:96-105 (EvidenceHolder). *)
Definition EvidenceHolder : string := "holder".
(** Source: internal/ipc/ipc.go:96-105 (EvidencePortLease). *)
Definition EvidencePortLease : string := "port_lease".

(** Source: internal/runner/attest.go:301-308 (ownerSession). *)
Definition ownerSession (s : RegSession) (process port evidence : string) : OwnerSession :=
  mkOwnerSession (session_name s) (pj_RunID (rs_Project s)) (pj_ConfigPath (rs_Project s))
    (match pj_Owner (rs_Project s) with Some o => ow_Worktree o | None => "" end) process port evidence.

(** This run's own session.
    Source: internal/runner/attest.go:272-272 (placeAnswer, own). *)
Definition own_session (self : Z) (runID : string) (s : RegSession) : bool :=
  (negb (bool_decide (runID = "")) && bool_decide (pj_RunID (rs_Project s) = runID))
  || match rs_Record s with Some rec => (dr_PID rec =? self)%Z | None => false end.

(** Whether the session counts.
    Source: internal/runner/attest.go:273-275 (placeAnswer, live). *)
Definition counts (own : bool) (s : RegSession) : sys bool :=
  if own then mret true
  else match rs_Record s with None => mret false | Some rec => StartProven rec end.

(** The group of the session the holder is in.
    Source: internal/runner/attest.go:277-278 (placeAnswer, holder). *)
Definition holder_group (s : RegSession) (holder : Z) : sys (option Group) :=
  match rs_Record s with
  | Some rec => match dr_Groups rec with
                | Some groups => recordedGroupOf holder groups (dr_Host rec)
                | None => mret None
                end
  | None => mret None
  end.

(** The scope and the session of the answer; [lease] is the first session that
    was assigned the port, and whether it is this run's own.
    Source: internal/runner/attest.go:271-292 (placeAnswer, loop). *)
Fixpoint place (runID : string) (holder port : Z) (lease : option (OwnerSession * bool)) (sessions : list RegSession)
    : sys (string * option OwnerSession) := λ w,
  (match sessions with
   | [] => mret (match lease with
                 | None => (ScopeOutsideSession, None)
                 | Some (_, true) => ("", None)
                 | Some (o, false) => (ScopeCrossSession, Some o)
                 end)
   | s :: sessions =>
       let own := own_session (w_self w) runID s in
       live ← counts own s;
       if negb live then place runID holder port lease sessions
       else
         let assigned := PortAssignment s port in
         g ← holder_group s holder;
         match g with
         | Some g =>
             if own then mret ("", None)
             else
               let '(process, portName) := default ("", "") assigned in
               mret (ScopeCrossSession, Some (ownerSession s (g_Name g)
                 (if bool_decide (process = g_Name g) then portName else "") EvidenceHolder))
         | None =>
             place runID holder port
               (match lease, assigned with
                | None, Some (process, portName) => Some (ownerSession s process portName EvidencePortLease, own)
                | _, _ => lease
                end) sessions
         end
   end) w.

(** Source: internal/runner/attest.go:254-299 (placeAnswer). *)
Definition placeAnswer (sessions : list RegSession) (runID : string) (holder : Z) (address : string)
    : sys (string * option OwnerSession) :=
  place runID holder (match ParseAddrPort address with Some ap => ap_Port ap | None => 0%Z end) None sessions.

Definition set_scope (x : string * option OwnerSession) (o : EndpointOwner) : EndpointOwner :=
  mkEndpointOwner (eo_Result o) (eo_Address o) (eo_PID o) (eo_Command o) (eo_Reason o) x.1 x.2.

(** [None] files: the registry cannot be listed.
    Source: internal/runner/attest.go:233-252 (placeForeign). *)
Definition placeForeign (files : option (list session_files)) (runID : string) (owner : EndpointOwner) : sys EndpointOwner :=
  if negb (bool_decide (eo_Result owner = OwnerForeign)) then mret owner
  else match files with
       | None => mret owner
       | Some files =>
           sessions ← Discover files;
           x ← placeAnswer sessions runID (eo_PID owner) (eo_Address owner);
           mret (set_scope x owner)
       end.

(** [None] is a process without a group.
    Source: internal/runner/attest.go:216-231 (attribute). *)
Definition attribute (group : option (option Z)) (files : option (list session_files)) (runID : string) (c : probeConn)
    : sys EndpointOwner :=
  match group with
  | None => mret (unattributable "the process has no group")
  | Some pgid => owner ← attributeProbe c pgid; placeForeign files runID owner
  end.

(** ** Refusing an answer *)

(** Source: internal/runner/attest.go:310-314 (refusedByReject). *)
Definition refusedByReject : string := "foreign_listener: reject".
(** Source: internal/runner/attest.go:310-314 (refusedAsCrossSession). *)
Definition refusedAsCrossSession : string := "cross_session".

(** Source: internal/runner/attest.go:316-331 (refusalOf). *)
Definition refusalOf (owner : option EndpointOwner) (reject refuseCrossSession : bool) : string :=
  match owner with
  | None => ""
  | Some o =>
      if negb (bool_decide (eo_Result o = OwnerForeign)) then ""
      else if reject then refusedByReject
      else if refuseCrossSession && bool_decide (eo_Scope o = ScopeCrossSession) then refusedAsCrossSession
      else ""
  end.

(** Source: internal/ipc/ipc.go:142-165 (OwnerSession.Describe). *)
Definition Describe (s : OwnerSession) : string :=
  let what := os_Process s +:+ if bool_decide (os_Port s = "") then "" else "." +:+ os_Port s in
  let detail := (if bool_decide (what = "") then [] else [what])
                ++ if bool_decide (os_Worktree s = "") then [] else ["in " +:+ os_Worktree s] in
  let desc := "session " +:+ quote (os_Name s)
              +:+ if bool_decide (detail = []) then "" else " (" +:+ join ", " detail +:+ ")" in
  if bool_decide (os_Evidence s = EvidenceHolder) then "of " +:+ desc else "on a port leased by " +:+ desc.

(** Source: internal/runner/attest.go:203-214 (describeOwner). *)
Definition describeOwner (o : EndpointOwner) : string :=
  "PID " +:+ itoa (eo_PID o)
  +:+ (if bool_decide (eo_Command o = "") then "" else " (" +:+ eo_Command o +:+ ")")
  +:+ match eo_Session o with
      | Some s => if bool_decide (eo_Scope o = ScopeCrossSession) then " " +:+ Describe s else ""
      | None => ""
      end.

(** Source: internal/runner/attest.go:333-345 (foreignListenerMessage). *)
Definition foreignListenerMessage (name probe : string) (o : EndpointOwner) (refusal : string) : string :=
  let msg := probe +:+ " was answered at " +:+ eo_Address o +:+ " by " +:+ describeOwner o +:+ ", which is not part of "
             +:+ name +:+ "'s process tree; another server holds this address" in
  if bool_decide (refusal = refusedByReject) then msg +:+ "; foreign_listener: reject does not count that answer"
  else if bool_decide (refusal = refusedAsCrossSession)
  then msg +:+ "; verify does not count another live session's answer (verify --allow-cross-session counts it)"
  else msg +:+ ", so the probe does not show that " +:+ name +:+ " is serving".

(** Source: internal/runner/attest.go:347-352 (foreignListenerError). *)
Definition foreignListenerError (name : string) (o : EndpointOwner) : string :=
  "answered at " +:+ eo_Address o +:+ " by " +:+ describeOwner o +:+ ", outside " +:+ name +:+ "'s process tree".

End attest.
