(* ===== verification/Attribution.v ===== *)
(** * What an attribution is worth

    The verdicts of [Attest] are based on what was seen of the machine while it
    kept changing: an answer is called ours, or another's, only on evidence; a
    server of the probed group that stays is never taken for a stranger; an
    answer is laid to another session only when that session is proven to be
    there; and the rows of the socket table are read as the kernel wrote
    them. *)

From S2P Require Import Prelude GoStrings ConfigTypes Groups RunnerState Recovery Ipc Attest.

(** ** Classification is exact *)

Section classification.
Context (inodes : list Z) (holders : gmap Z (list socketHolder)).

(** The holders found of a socket. *)
Definition found (i : Z) : list socketHolder := default [] (holders !! i).

Lemma side_ours hs h : side_of hs = Ours h → h ∈ hs ∧ sh_member h = true.
Proof.
  unfold side_of. destruct (List.find is_member hs) as [m|] eqn:Em.
  - intros [= <-]. apply find_some in Em as [Hin Hm]. by rewrite list_elem_of_In.
  - destruct (List.find is_outsider hs); [done|]. by destruct (existsb _ hs).
Qed.

Lemma side_theirs hs h : side_of hs = Theirs h →
  (h ∈ hs ∧ sh_member h = false ∧ sh_sameUser h = true) ∧ ∀ h', h' ∈ hs → sh_member h' = false.
Proof.
  unfold side_of. destruct (List.find is_member hs) as [m|] eqn:Em; [done|].
  destruct (List.find is_outsider hs) as [o|] eqn:Eo; [|by destruct (existsb _ hs)].
  intros [= <-]. apply find_some in Eo as [Hin [Hm Hu]%andb_true_iff]. apply negb_true_iff in Hm.
  rewrite list_elem_of_In. split; [done|]. intros h' Hh'%list_elem_of_In. by apply (find_none _ _ Em).
Qed.

Lemma side_ours_iff hs : is_Some (the_ours (side_of hs)) ↔ ∃ h, h ∈ hs ∧ sh_member h = true.
Proof.
  split.
  - intros [h H]. destruct (side_of hs) eqn:E; try done. apply side_ours in E. by eexists.
  - intros (h & Hin & Hm). unfold side_of. destruct (List.find is_member hs) eqn:Em; [by eexists|].
    apply list_elem_of_In in Hin. pose proof (find_none _ _ Em h Hin). unfold is_member in *. congruence.
Qed.

Lemma side_theirs_iff hs : is_Some (the_theirs (side_of hs)) ↔
  (∀ h, h ∈ hs → sh_member h = false) ∧ ∃ h, h ∈ hs ∧ sh_sameUser h = true.
Proof.
  split.
  - intros [h H]. destruct (side_of hs) eqn:E; try done. apply side_theirs in E as [(? & ? & ?) ?]. split; [done|]. by eexists.
  - intros [Hall (h & Hin & Hu)]. unfold side_of. destruct (List.find is_member hs) as [m|] eqn:Em.
    + apply find_some in Em as [Hin' Hm]. apply list_elem_of_In in Hin'. unfold is_member in Hm. by rewrite (Hall m Hin') in Hm.
    + destruct (List.find is_outsider hs) eqn:Eo; [by eexists|]. apply list_elem_of_In in Hin as Hin'.
      pose proof (find_none _ _ Eo h Hin') as Ho. unfold is_outsider in Ho. by rewrite (Hall h Hin), Hu in Ho.
Qed.

(** Every element has an image exactly when none is left out. *)
Lemma omap_all {A B} (f : A → option B) l : length (omap f l) = length l ↔ ∀ x, x ∈ l → is_Some (f x).
Proof.
  induction l as [|x l IH]; [split; [by intros _ ? ?%not_elem_of_nil|done]|].
  assert (length (omap f l) ≤ length l) as Hle by (clear; induction l as [|y l IH]; cbn; [done|destruct (f y); cbn; lia]).
  cbn. destruct (f x) eqn:E; cbn; split.
  - intros [= H] y [->|Hy]%elem_of_cons; [by rewrite E|]. by apply IH.
  - intros H. f_equal. apply IH. intros y Hy. apply H. by right.
  - intros H. lia.
  - intros H. destruct (H x) as [b Hb]; [left|congruence].
Qed.

Lemma head_omap {A B} (f : A → option B) l b : head (omap f l) = Some b → ∃ x, x ∈ l ∧ f x = Some b.
Proof.
  intros H. assert (b ∈ omap f l) as Hb by (destruct (omap f l); [done|injection H as ->; left]).
  by apply list_elem_of_omap in Hb.
Qed.

Lemma omap_sides {B} (f : socket_side → option B) P : (∀ hs, is_Some (f (side_of hs)) ↔ P hs) →
  (length (omap f ((λ i, side_of (found i)) <$> inodes)) = length inodes ↔ ∀ i, i ∈ inodes → P (found i)).
Proof.
  intros HP. transitivity (length (omap f ((λ i, side_of (found i)) <$> inodes)) = length ((λ i, side_of (found i)) <$> inodes)).
  { by rewrite length_fmap. }
  rewrite omap_all. split.
  - intros H i Hi. apply HP, H. by apply (list_elem_of_fmap_2 (λ i, side_of (found i))).
  - intros H x (i & -> & Hi)%list_elem_of_fmap. by apply HP, H.
Qed.

(** What is said of the sockets, in one statement. *)
Lemma classify_exact unseen : let o := classifyHolders inodes holders unseen in
  (eo_Result o = OwnerOwned ↔ inodes ≠ [] ∧ ∀ i, i ∈ inodes → ∃ h, h ∈ found i ∧ sh_member h = true) ∧
  (eo_Result o = OwnerForeign ↔ inodes ≠ [] ∧ ∀ i, i ∈ inodes →
     (∀ h, h ∈ found i → sh_member h = false) ∧ ∃ h, h ∈ found i ∧ sh_sameUser h = true) ∧
  (eo_Result o = OwnerOwned → ∃ i h, i ∈ inodes ∧ h ∈ found i ∧ sh_member h = true ∧ eo_PID o = sh_pid h ∧ eo_Command o = sh_command h) ∧
  (eo_Result o = OwnerForeign → ∃ i h, i ∈ inodes ∧ h ∈ found i ∧ sh_member h = false ∧ sh_sameUser h = true ∧
     eo_PID o = sh_pid h ∧ eo_Command o = sh_command h) ∧
  (eo_Result o ≠ OwnerOwned → eo_Result o ≠ OwnerForeign → eo_PID o = 0%Z ∧ eo_Command o = "").
Proof.
  cbv zeta. unfold classifyHolders. fold found. change (λ inode : Z, side_of (default [] (holders !! inode))) with (λ i, side_of (found i)).
  pose proof (omap_sides the_ours _ side_ours_iff) as Ho. pose proof (omap_sides the_theirs _ side_theirs_iff) as Ht.
  set (ours := omap the_ours _) in *. set (theirs := omap the_theirs _) in *.
  destruct inodes as [|i0 rest] eqn:Ei.
  { split; [by split; [|intros [? _]]|]. split; [by split; [|intros [? _]]|]. split_and!; done. }
  rewrite <-Ei in *.
  assert (inodes ≠ []) as Hne by (by rewrite Ei).
  assert (length inodes ≠ 0) as Hlen by (by rewrite Ei).
  destruct (Nat.eqb_spec (length ours) (length inodes)) as [Eo|Eo].
  - pose proof (proj1 Ho Eo) as Hall. destruct (head ours) as [h|] eqn:Eh; [|destruct ours; [done|done]].
    apply head_omap in Eh as (x & (i & -> & Hi)%list_elem_of_fmap & Hx). rewrite <-Ei in Hi.
    destruct (side_of (found i)) eqn:Es; try done. injection Hx as ->. apply side_ours in Es as [Hin Hm].
    split_and!; [by split| | |done|done].
    + split; [done|]. intros [_ H]. destruct (H i Hi) as [H1 _]. by rewrite (H1 h Hin) in Hm.
    + intros _. by exists i, h.
  - assert (¬ ∀ i, i ∈ inodes → ∃ h, h ∈ found i ∧ sh_member h = true) as Hno by (by intros H%Ho).
    destruct (Nat.eqb_spec (length theirs) (length inodes)) as [Et|Et].
    + pose proof (proj1 Ht Et) as Hall. destruct (head theirs) as [h|] eqn:Eh; [|by destruct theirs].
      apply head_omap in Eh as (x & (i & -> & Hi)%list_elem_of_fmap & Hx). rewrite <-Ei in Hi.
      destruct (side_of (found i)) eqn:Es; try done. injection Hx as ->. apply side_theirs in Es as [(Hin & Hm & Hu) _].
      split_and!; [|by split|done| |done].
      * split; [done|]. by intros [_ H].
      * intros _. by exists i, h.
    + assert (¬ ∀ i, i ∈ inodes → (∀ h, h ∈ found i → sh_member h = false) ∧ ∃ h, h ∈ found i ∧ sh_sameUser h = true) as Hnt by (by intros H%Ht).
      destruct (0 <? _); [|destruct (existsb _ _)]; split_and!; first [done|split; [done|by intros [_ ?]]].
Qed.
End classification.

(** ** What an attribution is based on *)

Section evidence.
Context (little : bool) (net : nat → netstate) (nfault : nat → ncall → bool) (euid : Z) (w : world).

(** At [t], the pid names the process. *)
Definition names (t p : nat) (pid : Z) : Prop := ∃ x, w_kernel w t !! p = Some x ∧ kp_pid x = pid.

(** At [t], the process has the socket open. *)
Definition holds (t p : nat) (i : Z) : Prop :=
  ∃ fds fd link, ns_fds (net t) !! p = Some fds ∧ fds !! fd = Some link ∧ link_inode link = Some i.

(** At [t], the process runs as this process's user. *)
Definition runs_as_us (t p : nat) : Prop := ∃ text, ns_status (net t) !! p = Some text ∧ status_euid (lines_of text) = euid.

(** In [t0, t1), a process with the holder's pid had the socket open; an
    outsider said to be of the same user was read as one. *)
Record justified (t0 t1 : nat) (i : Z) (h : socketHolder) : Prop := {
  ju_holds : ∃ t p, t0 ≤ t < t1 ∧ names t p (sh_pid h) ∧ holds t p i;
  ju_user : sh_member h = false → sh_sameUser h = true → ∃ t p, t0 ≤ t < t1 ∧ names t p (sh_pid h) ∧ runs_as_us t p;
}.

Lemma justified_later t0 t1 t2 i h : t1 ≤ t2 → justified t0 t1 i h → justified t0 t2 i h.
Proof.
  intros Ht [(t & p & Htt & Hn) Hu]. split; [exists t, p; split; [lia|done]|].
  intros Hm Hs. destruct (Hu Hm Hs) as (t' & p' & ? & ?). exists t', p'. split; [lia|done].
Qed.

(** All the holders found so far. *)
Definition holders_ok (want members : list Z) (t0 t1 : nat) (holders : gmap Z (list socketHolder)) : Prop :=
  ∀ i h, h ∈ found holders i → i ∈ want ∧ justified t0 t1 i h ∧ (sh_member h = true ↔ sh_pid h ∈ members).

Lemma holders_later want members t0 t1 t2 holders : t1 ≤ t2 →
  holders_ok want members t0 t1 holders → holders_ok want members t0 t2 holders.
Proof. intros Ht H i h Hh. destruct (H i h Hh) as (? & ? & ?). split_and!; try done. by eapply justified_later. Qed.

Lemma holders_add want members t0 t1 holders i h : i ∈ want → justified t0 t1 i h →
  (sh_member h = true ↔ sh_pid h ∈ members) → holders_ok want members t0 t1 holders →
  holders_ok want members t0 t1 (add_holder i h holders).
Proof.
  intros Hi Hj Hm H i' h' Hin. unfold found, add_holder in Hin. destruct (decide (i = i')) as [->|Hne].
  - rewrite lookup_insert_eq in Hin. cbn in Hin. apply elem_of_app in Hin as [Hin|Hin%list_elem_of_singleton]; [by apply H|by subst].
  - rewrite lookup_insert_ne in Hin by done. by apply H.
Qed.

(** A computation that only looks, during which the clock moves on. *)
Definition looks {A} (m : sys A) (P : kstate → A → kstate → Prop) : Prop :=
  ∀ s, k_t s ≤ k_t (m w s).2 ∧ P s (m w s).1 (m w s).2.

Lemma looks_file {A} c pid (file : netstate → nat → option A) :
  looks (proc_file net nfault c pid file) (λ s r s', k_t s' = S (k_t s) ∧
    ∀ a, r = Some a → ∃ p, names (k_t s) p pid ∧ file (net (k_t s)) p = Some a).
Proof.
  intros s. unfold proc_file, observe. cbn. split; [lia|]. split; [done|]. intros a Ha.
  destruct (nfault _ _); [done|]. destruct (find_pid _ pid) as [[p x]|] eqn:E; [|done].
  apply find_pid_Some in E as [Hx Hp]. exists p. split; [by exists x|done].
Qed.

(** What is known of the process whose descriptors are read. *)
Definition known_ok (pid : Z) (member : bool) (t0 t1 : nat) (known : option (bool * string)) : Prop :=
  ∀ k, known = Some k → member = false → k.1 = true → ∃ t p, t0 ≤ t < t1 ∧ names t p pid ∧ runs_as_us t p.

Lemma known_later pid member t0 t1 t2 known : t1 ≤ t2 → known_ok pid member t0 t1 known → known_ok pid member t0 t2 known.
Proof. intros Ht H k Hk Hm Hu. destruct (H k Hk Hm Hu) as (t & p & ? & ?). exists t, p. split; [lia|done]. Qed.

Context (Heuid : (0 ≤ euid)%Z).

Lemma looks_euid pid : looks (processEUID net nfault pid) (λ s r s',
  r = euid → ∃ p, k_t s < k_t s' ∧ names (k_t s) p pid ∧ runs_as_us (k_t s) p).
Proof using Heuid.
  intros s. unfold processEUID. rewrite sys_bind_eq.
  destruct (looks_file (NStatus pid) pid (λ n p, ns_status n !! p) s) as [Ht [Ht' Hf]].
  destruct (proc_file _ _ _ _ _ w s) as [[text|] s1]; cbn [fst snd] in *; (split; [done|]).
  - intros He. destruct (Hf text eq_refl) as (p & Hn & Hs). exists p. split_and!; [cbn; lia|done|by exists text].
  - intros He. cbn in He. lia.
Qed.

Lemma looks_user pid : looks (uid ← processEUID net nfault pid; mret (uid =? euid)%Z) (λ s r s',
  r = true → ∃ p, k_t s < k_t s' ∧ names (k_t s) p pid ∧ runs_as_us (k_t s) p).
Proof using Heuid.
  intros s. rewrite sys_bind_eq. destruct (looks_euid pid s) as [Ht Hu]. split; [exact Ht|].
  intros He%Z.eqb_eq. by apply Hu.
Qed.

Lemma looks_name pid : looks (processName net nfault pid) (λ _ _ _, True).
Proof.
  intros s. unfold processName. rewrite sys_bind_eq. split; [|done].
  destruct (looks_file (NComm pid) pid (λ n p, ns_comm n !! p) s) as [Ht _]. exact Ht.
Qed.

Lemma looks_inspect pid member t0 known s : t0 ≤ k_t s → known_ok pid member t0 (k_t s) known →
  let x := inspect_holder net nfault euid pid member known w s in
  k_t s ≤ k_t x.2 ∧ known_ok pid member t0 (k_t x.2) (Some x.1).
Proof using Heuid.
  intros H0 Hk. unfold inspect_holder. destruct known as [k|]; [split; [done|]; by intros ? [= <-]; apply Hk|].
  destruct member.
  - rewrite sys_bind_eq. change ((mret true : sys bool) w s) with (true, s). cbv beta. cbn [fst snd]. rewrite sys_bind_eq.
    destruct (looks_name pid s) as [Ht _]. split; [exact Ht|]. by intros ? ? ?.
  - rewrite sys_bind_eq. destruct (looks_user pid s) as [Ht Hu].
    destruct ((uid ← processEUID net nfault pid; mret (uid =? euid)%Z) w s) as [b s1]. cbv beta. cbn [fst snd] in *.
    assert (∀ s2 c, k_t s1 ≤ k_t s2 → known_ok pid false t0 (k_t s2) (Some (b, c))) as Hok.
    { intros s2 c Hs2 k [= <-] _ Hb. destruct (Hu Hb) as (p & Hlt & Hn & Hr). exists (k_t s), p. split; [lia|done]. }
    rewrite sys_bind_eq. destruct b.
    + destruct (looks_name pid s1) as [Ht2 _]. split; [etrans; [exact Ht|exact Ht2]|]. by apply Hok.
    + split; [exact Ht|]. by apply Hok.
Qed.

Lemma looks_collect_fds pid member want members t0 fds : (member = true ↔ pid ∈ members) → ∀ known holders s, t0 ≤ k_t s →
  known_ok pid member t0 (k_t s) known → holders_ok want members t0 (k_t s) holders →
  let x := collect_fds net nfault euid pid member want known holders fds w s in
  k_t s ≤ k_t x.2 ∧ holders_ok want members t0 (k_t x.2) x.1.
Proof using Heuid.
  intros Hm. induction fds as [|fd fds IH]; intros known holders s H0 Hk Hh; [done|]. cbn [collect_fds]. rewrite sys_bind_eq.
  destruct (looks_file (NLink pid fd) pid (λ n p, ns_fds n !! p ≫= (.!! fd)) s) as [_ [Ht Hlink]].
  change (proc_file net nfault (NLink pid fd) pid (λ n p, ns_fds n !! p ≫= (.!! fd))) with (read_link net nfault pid fd) in *.
  destruct (read_link net nfault pid fd w s) as [link s1]. cbn [fst snd] in *.
  assert (∀ known', known_ok pid member t0 (k_t s1) known' → let x := collect_fds net nfault euid pid member want known' holders fds w s1 in
    k_t s ≤ k_t x.2 ∧ holders_ok want members t0 (k_t x.2) x.1) as Hskip.
  { intros known' Hk'. destruct (IH known' holders s1) as [H1 H2]; [lia|done|eapply holders_later; [|exact Hh]; lia|]. split; [lia|done]. }
  apply (known_later _ _ _ _ (k_t s1)) in Hk as Hk1; [|lia].
  destruct (link ≫= link_inode) as [inode|] eqn:E; [|by apply Hskip]. case_bool_decide as Hi; [|by apply Hskip].
  rewrite sys_bind_eq. destruct (looks_inspect pid member t0 known s1) as [Ht2 Hk2]; [lia|done|].
  destruct (inspect_holder _ _ _ _ _ _ w s1) as [k s2]. cbn [fst snd] in *.
  destruct (IH (Some k) (add_holder inode (mkHolder pid k.2 member k.1) holders) s2) as [H1 H2]; [lia|done| |split; [lia|done]].
  apply holders_add; [done| |done|eapply holders_later; [|exact Hh]; lia].
  destruct link as [link|]; [|done]. destruct (Hlink link eq_refl) as (p & Hn & Hfd). split.
  - exists (k_t s), p. split; [|split; [done|]].
    + lia.
    + destruct (ns_fds (net (k_t s)) !! p) as [fds'|] eqn:Ef; [|done]. by exists fds', fd, link.
  - intros ? Hu. by apply (Hk2 k).
Qed.

Lemma looks_collect want member members t0 pid holders s : (member = true ↔ pid ∈ members) → t0 ≤ k_t s →
  holders_ok want members t0 (k_t s) holders →
  let x := collectHolders net nfault euid want member holders pid w s in
  k_t s ≤ k_t x.2 ∧ holders_ok want members t0 (k_t x.2) x.1.
Proof using Heuid.
  intros Hm H0 Hh. unfold collectHolders. rewrite sys_bind_eq.
  destruct (looks_file (NFds pid) pid (λ n p, (λ fds : gmap Z string, (map_to_list fds).*1) <$> ns_fds n !! p) s) as [_ [Ht _]].
  unfold read_fds. destruct (proc_file _ _ (NFds pid) pid _ w s) as [fds s1]. cbn [fst snd] in *.
  assert (holders_ok want members t0 (k_t s1) holders) as Hh1 by (eapply holders_later; [|exact Hh]; lia).
  destruct fds as [fds|]; [|split; [cbn; lia|done]].
  destruct (looks_collect_fds pid member want members t0 fds Hm None holders s1) as [H1 H2]; [lia|done|done|]. split; [lia|done].
Qed.

Lemma looks_collect_all want member members t0 pids : (∀ pid, pid ∈ pids → member = true ↔ pid ∈ members) → ∀ holders s, t0 ≤ k_t s →
  holders_ok want members t0 (k_t s) holders →
  let x := collect_all net nfault euid want member holders pids w s in
  k_t s ≤ k_t x.2 ∧ holders_ok want members t0 (k_t x.2) x.1.
Proof using Heuid.
  induction pids as [|pid pids IH]; intros Hm holders s H0 Hh; [done|]. cbn [collect_all]. rewrite sys_bind_eq.
  destruct (looks_collect want member members t0 pid holders s) as [H1 H2]; [apply Hm; left|done|done|].
  destruct (collectHolders _ _ _ _ _ _ _ w s) as [holders1 s1]. cbn [fst snd] in *.
  destruct (IH (λ q Hq, Hm q (list_elem_of_further _ _ _ Hq)) holders1 s1) as [H3 H4]; [lia|done|]. split; [lia|done].
Qed.

(** In [t0, t1), the pid named a live member of the group. *)
Definition member_seen (pgid : Z) (t0 t1 : nat) (pid : Z) : Prop := ∃ t p x, t0 ≤ t < t1 ∧
  w_kernel w t !! p = Some x ∧ kp_pid x = pid ∧ kp_pgid x = pgid ∧ isZombieState (kp_state x) = false.

Lemma looks_entry pgid pid : looks (walk_entry pgid (λ _ state, mret (negb (isZombieState state))) pid)
  (λ s r s', ∀ q, q ∈ r → member_seen pgid (k_t s) (k_t s') q).
Proof.
  intros s. unfold walk_entry, procStat, ProcStat, observe. rewrite sys_bind_eq, sys_bind_eq. cbn [fst snd].
  destruct (w_fault w (k_t s) (CStat pid)); [cbn; split; [lia|by intros ? ?%not_elem_of_nil]|].
  destruct (find_pid _ pid) as [[p x]|] eqn:E; [|cbn; split; [lia|by intros ? ?%not_elem_of_nil]].
  apply find_pid_Some in E as [Hx Hp]. cbn. destruct (Z.eqb_spec (kp_pgid x) pgid) as [Hg|]; cbn [negb]; [|cbn; split; [lia|by intros ? ?%not_elem_of_nil]].
  rewrite sys_bind_eq. cbn. split; [lia|]. destruct (isZombieState (kp_state x)) eqn:Ez; cbn; [by intros ? ?%not_elem_of_nil|].
  intros q ->%list_elem_of_singleton. exists (k_t s), p, x. split_and!; try done; lia.
Qed.

Lemma member_seen_wider pgid t0 t1 t0' t1' pid : t0' ≤ t0 → t1 ≤ t1' → member_seen pgid t0 t1 pid → member_seen pgid t0' t1' pid.
Proof. intros H0 H1 (t & p & x & Ht & H). exists t, p, x. split; [lia|done]. Qed.

Lemma looks_entries pgid pids : looks (mapM_sys (walk_entry pgid (λ _ state, mret (negb (isZombieState state)))) pids)
  (λ s r s', ∀ q, q ∈ mjoin r → member_seen pgid (k_t s) (k_t s') q).
Proof.
  induction pids as [|pid pids IH]; intros s; [split; [done|by intros ? ?%not_elem_of_nil]|]. cbn [mapM_sys]. rewrite !sys_bind_eq.
  destruct (looks_entry pgid pid s) as [H1 H2]. destruct (walk_entry _ _ pid w s) as [r s1]. cbn [fst snd] in *.
  destruct (IH s1) as [H3 H4]. destruct (mapM_sys _ pids w s1) as [rs s2]. cbn [fst snd] in *. split; [cbn; lia|].
  intros q [Hq|Hq]%elem_of_app; [apply H2 in Hq|apply H4 in Hq]; eapply member_seen_wider; try exact Hq; cbn; lia.
Qed.

Lemma looks_members pgid : looks (groupMemberPIDs pgid)
  (λ s r s', ∀ pids, r = Some pids → ∀ q, q ∈ pids → member_seen pgid (k_t s) (k_t s') q).
Proof.
  intros s. unfold groupMemberPIDs, walkGroupMembers, listing, observe. rewrite sys_bind_eq. cbn [fst snd].
  destruct (w_listing w (k_t s)) as [l|]; [|cbn; split; [lia|done]]. rewrite sys_bind_eq.
  destruct (looks_entries pgid (List.filter (λ pid, (0 <? pid)%Z) l) (tick s)) as [H1 H2].
  destruct (mapM_sys _ _ w (tick s)) as [rs s1]. cbn [fst snd] in *. change (k_t (tick s)) with (S (k_t s)) in *. split; [cbn; lia|]. intros pids [= <-] q Hq.
  eapply member_seen_wider; [| |exact (H2 q Hq)]; cbn; lia.
Qed.

(** The holders an attribution finds, and the members it knows. *)
Lemma looks_find inodes pgid : looks (findHolders net nfault euid inodes pgid) (λ s r s',
  ∀ holders, r = Some holders → ∃ members, (groupMemberPIDs pgid w s).1 = Some members ∧ holders_ok inodes members (k_t s) (k_t s') holders ∧
    ∀ q, q ∈ members → member_seen pgid (k_t s) (k_t s') q).
Proof using Heuid.
  intros s. unfold findHolders. rewrite sys_bind_eq. destruct (looks_members pgid s) as [H1 Hmem].
  destruct (groupMemberPIDs pgid w s) as [[members|] s1]; cbn [fst snd] in *; [|split; [done|done]].
  specialize (Hmem members eq_refl). rewrite sys_bind_eq.
  destruct (looks_collect_all inodes true members (k_t s) members (λ pid H, conj (λ _, H) (λ _, eq_refl)) ∅ s1) as [H2 H3];
    [done|intros i h Hh; unfold found in Hh; rewrite lookup_empty in Hh; by apply not_elem_of_nil in Hh|].
  destruct (collect_all _ _ _ _ true ∅ members w s1) as [holders s2]. cbn [fst snd] in *.
  assert (∀ n, k_t s2 ≤ n → ∀ q, q ∈ members → member_seen pgid (k_t s) n q) as Hseen.
  { intros n Hs' q Hq. eapply member_seen_wider; [| |exact (Hmem q Hq)]; lia. }
  destruct (size holders =? length inodes); [cbn; split; [lia|]; intros ? [= <-]; exists members; by split_and!; [| |apply Hseen]|].
  unfold listing, observe. rewrite sys_bind_eq. cbn [fst snd].
  destruct (w_listing w (k_t s2)) as [pids|].
  - rewrite sys_bind_eq.
    destruct (looks_collect_all inodes false members (k_t s)
      (List.filter (λ pid, (0 <? pid)%Z && negb (bool_decide (pid ∈ members))) pids)) with (holders := holders) (s := tick s2) as [H4 H5].
    + intros pid [_ [_ Hn]%andb_true_iff]%list_elem_of_In%filter_In. apply negb_true_iff, bool_decide_eq_false in Hn. by split.
    + cbn; lia.
    + eapply holders_later; [|exact H3]; cbn; lia.
    + destruct (collect_all _ _ _ _ false holders _ w (tick s2)) as [holders' s3]. cbn in *. split; [lia|].
      intros ? [= <-]. exists members. split_and!; [done|done|]. apply Hseen. lia.
  - cbn. split; [lia|]. intros ? [= <-]. exists members. split_and!; [done|eapply holders_later; [|exact H3]; lia|]. apply Hseen. lia.
Qed.
End evidence.

(** ** What an attribution says *)

Section attribution.
Context (AddrPort_String : AddrPort → string) (little : bool) (net : nat → netstate) (nfault : nat → ncall → bool) (euid : Z) (w : world).
Context (Heuid : (0 ≤ euid)%Z).

(** The rows an attribution that starts at [t] reads. *)
Definition table_at (t : nat) : list socketEntry :=
  (readSocketTable little (ns_tcp (net t))).1 ++ (readSocketTable little (ns_tcp6 (net (S t)))).1.

Lemma read_tables_spec s : let x := read_tables little net w s in k_t s ≤ k_t x.2 ∧
  ∀ table, x.1 = Ok table → table = table_at (k_t s) ∧ k_t x.2 = S (S (k_t s)).
Proof.
  cbv zeta. unfold read_tables, observe. rewrite sys_bind_eq. cbn [fst snd]. unfold table_at.
  destruct (readSocketTable little (ns_tcp (net (k_t s)))) as [four [[err|]|]]; [by split; [cbn; lia|]|..];
    rewrite sys_bind_eq; cbn [fst snd]; change (k_t (tick s)) with (S (k_t s));
    destruct (readSocketTable little (ns_tcp6 (net (S (k_t s))))) as [six [[err|]|]]; cbn; (split; [lia|by intros ? [= <-]]).
Qed.

Lemma unattributable_end (reason : string) (P : Prop) : eo_Result (unattributable reason) ≠ OwnerUnattributable → P.
Proof. done. Qed.

(** What a verdict of [attributePGID] rests on. *)
Definition rests_on (c : probeConn) (pgid : Z) (s : kstate) (t1 : nat) (o : EndpointOwner) : Prop :=
  eo_Result o ≠ OwnerUnattributable → ∃ inodes uid members,
    answeringSockets AddrPort_String (table_at (k_t s)) c = Ok (inodes, uid) ∧
    (∃ s0, k_t s ≤ k_t s0 ∧ (groupMemberPIDs pgid w s0).1 = Some members) ∧
    (∃ i t p, i ∈ inodes ∧ k_t s ≤ t < t1 ∧ names w t p (eo_PID o) ∧ holds net t p i) ∧
    (eo_Result o = OwnerOwned → eo_PID o ∈ members ∧ member_seen w pgid (k_t s) t1 (eo_PID o) ∧
       ∀ i, i ∈ inodes → ∃ q t p, q ∈ members ∧ k_t s ≤ t < t1 ∧ names w t p q ∧ holds net t p i) ∧
    (eo_Result o = OwnerForeign → eo_PID o ∉ members ∧ ∃ t p, k_t s ≤ t < t1 ∧ names w t p (eo_PID o) ∧ runs_as_us net euid t p).

Lemma classified_rests c pgid s s1 t1 inodes uid members holders unseen :
  answeringSockets AddrPort_String (table_at (k_t s)) c = Ok (inodes, uid) → k_t s ≤ k_t s1 →
  (groupMemberPIDs pgid w s1).1 = Some members →
  holders_ok net euid w inodes members (k_t s1) t1 holders → (∀ q, q ∈ members → member_seen w pgid (k_t s1) t1 q) →
  rests_on c pgid s t1 (classifyHolders inodes holders unseen).
Proof.
  intros Hans Hs1 Hmem Hok Hseen Hun. exists inodes, uid, members. split; [done|]. split; [by exists s1|].
  destruct (classify_exact inodes holders unseen) as (Eo & Ef & No & Nf & Nu). cbv zeta in *.
  set (o := classifyHolders inodes holders unseen) in *.
  assert (∀ i h, h ∈ found holders i → ∃ t p, k_t s ≤ t < t1 ∧ names w t p (sh_pid h) ∧ holds net t p i) as Hheld.
  { intros i h Hh. destruct (Hok i h Hh) as (_ & [(t & p & Ht & Hn) _] & _). exists t, p. split; [lia|done]. }
  split_and!.
  - assert (eo_Result o = OwnerOwned ∨ eo_Result o = OwnerForeign) as [H|H].
    { unfold o in *. revert Hun. unfold classifyHolders. repeat case_match; cbn; auto; try done; unfold held_by; 
      repeat match goal with |- context [head ?l] => destruct (head l) end; cbn; auto; done. }
    + destruct (No H) as (i & h & Hi & Hh & _ & -> & _). destruct (Hheld i h Hh) as (t & p & Ht). by exists i, t, p.
    + destruct (Nf H) as (i & h & Hi & Hh & _ & _ & -> & _). destruct (Hheld i h Hh) as (t & p & Ht). by exists i, t, p.
  - intros H. destruct (No H) as (i & h & Hi & Hh & Hm & -> & _). destruct (Hok i h Hh) as (_ & _ & Hin).
    split; [by apply Hin|]. split; [eapply member_seen_wider; [exact Hs1|done|]; by apply Hseen, Hin|].
    intros i' Hi'. destruct (proj2 (proj1 Eo H) i' Hi') as (h' & Hh' & Hm'). destruct (Hok i' h' Hh') as (_ & _ & Hin').
    destruct (Hheld i' h' Hh') as (t & p & Ht). exists (sh_pid h'), t, p. split; [by apply Hin'|done].
  - intros H. destruct (Nf H) as (i & h & Hi & Hh & Hm & Hu & -> & _). destruct (Hok i h Hh) as (_ & [_ Hus] & Hin).
    split; [intros Hx; apply Hin in Hx; congruence|]. destruct (Hus Hm Hu) as (t & p & Ht & ?). exists t, p. split; [lia|done].
Qed.

Lemma attributePGID_rests c pgid s : let x := attributePGID AddrPort_String little net nfault euid c pgid w s in
  rests_on c pgid s (k_t x.2) x.1.
Proof using Heuid.
  cbv zeta. unfold attributePGID. destruct (negb (w_procOwn w)); [by intros ?|]. rewrite sys_bind_eq.
  destruct (read_tables_spec s) as [H1 H2]. destruct (read_tables little net w s) as [[table|reason] s1]; cbn [fst snd] in *; [|by intros ?].
  destruct (H2 table eq_refl) as [-> Ht1].
  destruct (answeringSockets AddrPort_String (table_at (k_t s)) c) as [[inodes uid]|reason] eqn:Ea; [|by intros ?].
  rewrite sys_bind_eq. destruct (looks_find net nfault euid w Heuid inodes pgid s1) as [H3 H4].
  destruct (findHolders _ _ _ inodes pgid w s1) as [[holders|] s2]; cbn [fst snd] in *; [|by intros ?].
  destruct (H4 holders eq_refl) as (members & Hm & Hok & Hseen). cbn.
  by apply (classified_rests c pgid s s1 (k_t s2) inodes uid members holders).
Qed.

(** C18: an answer is attributed only on evidence, whatever the processes of the
    machine do between the calls and whichever reads fail.  A probe's answer is
    called owned only when every socket that answered its connection, by the
    socket table read while the connection was open, was seen open in a process
    of the group as enumerated then, and the process named was seen both as a
    live member of the group and with such a socket open.  It is called foreign
    only when the process named, seen with such a socket open, was not one of
    the group's members and was read as running as this process's own user;
    another user's process is never named.  When neither can be claimed, nobody
    is named. *)
Theorem attribution_justified c pgid s :
  let x := attributeProbe AddrPort_String little net nfault euid c (Some pgid) w s in let o := x.1 in
  rests_on c pgid s (k_t x.2) o ∧
  (eo_Result o ≠ OwnerOwned → eo_Result o ≠ OwnerForeign → eo_PID o = 0%Z ∧ eo_Command o = "").
Proof using Heuid.
  cbv zeta. unfold attributeProbe. case_bool_decide as Hc; [split; [by intros ?|done]|]. rewrite sys_bind_eq. unfold attributeSocket.
  destruct (pgid <=? 1)%Z; [split; [by intros ?|done]|].
  pose proof (attributePGID_rests c pgid s) as Hr. cbv zeta in Hr.
  assert (let o := (attributePGID AddrPort_String little net nfault euid c pgid w s).1 in
    eo_Result o ≠ OwnerOwned → eo_Result o ≠ OwnerForeign → eo_PID o = 0%Z ∧ eo_Command o = "") as Hn.
  { unfold attributePGID. destruct (negb (w_procOwn w)); [done|]. rewrite sys_bind_eq.
    destruct (read_tables little net w s) as [[table|reason] s1]; cbn [fst snd]; [|done].
    destruct (answeringSockets AddrPort_String table c) as [[inodes uid]|reason]; [|done]. rewrite sys_bind_eq.
    destruct (findHolders _ _ _ inodes pgid w s1) as [[holders|] s2]; cbn; [|done].
    apply (classify_exact inodes holders (hiddenOwner uid)). }
  destruct (attributePGID AddrPort_String little net nfault euid c pgid w s) as [o s1]. split; [exact Hr|exact Hn].
Qed.
End attribution.

(** ** A server that stays is recognised *)

(** A process of the group that stays alive, in the group and visible, whose
    descriptors can be read, and that keeps the sockets open. *)
Record serving (net : nat → netstate) (nfault : nat → ncall → bool) (w : world) (pgid : Z) (p : nat) (pid : Z) (inodes : list Z) : Prop := {
  sv_pid : (0 < pid)%Z;
  sv_member : ∀ t, ∃ x, w_kernel w t !! p = Some x ∧ kp_pid x = pid ∧ kp_pgid x = pgid ∧ isZombieState (kp_state x) = false;
  sv_listed : ∀ t l, w_listing w t = Some l → pid ∈ l;
  sv_read : ∀ t, w_fault w t (CStat pid) = None;
  sv_fds : ∀ t, nfault t (NFds pid) = false;
  sv_links : ∀ t fd, nfault t (NLink pid fd) = false;
  sv_sockets : ∀ i, i ∈ inodes → ∃ fd, ∀ t, ∃ fds link, ns_fds (net t) !! p = Some fds ∧ fds !! fd = Some link ∧ link_inode link = Some i;
}.

Section serving.
Context (AddrPort_String : AddrPort → string) (little : bool) (net : nat → netstate) (nfault : nat → ncall → bool) (euid : Z) (w : world).
Context (Hw : kernel_ok w) (pgid : Z) (p : nat) (pid : Z) (inodes : list Z) (Hs : serving net nfault w pgid p pid inodes).

Lemma find_serving t : ∃ x, find_pid (w_kernel w t) pid = Some (p, x) ∧ kp_pgid x = pgid ∧ isZombieState (kp_state x) = false.
Proof using Hw Hs.
  destruct (sv_member _ _ _ _ _ _ _ Hs t) as (x & Hx & Hpid & Hpg & Hz).
  destruct (find_pid (w_kernel w t) pid) as [[q y]|] eqn:Hf.
  - apply find_pid_Some in Hf as [Hq Hqpid]. assert (q = p) as -> by (eapply (ko_pid w Hw); [exact Hq|exact Hx|congruence]).
    exists x. split_and!; [congruence|done|done].
  - unfold find_pid in Hf. pose proof (find_none _ _ Hf (p, x)) as Hn. cbn in Hn. apply Z.eqb_neq in Hn; [done|].
    apply list_elem_of_In. by apply elem_of_map_to_list.
Qed.

Lemma file_serving {A} c (file : netstate → nat → option A) s : nfault (k_t s) c = false →
  (proc_file net nfault c pid file w s).1 = file (net (k_t s)) p.
Proof using Hw Hs. intros Hf. unfold proc_file, observe. cbn. rewrite Hf. destruct (find_serving (k_t s)) as (x & -> & _). done. Qed.

Lemma members_serving s : match (groupMemberPIDs pgid w s).1 with Some l => pid ∈ l | None => True end.
Proof using Hw Hs.
  unfold groupMemberPIDs, walkGroupMembers. rewrite sys_bind_eq. unfold listing, observe. cbn [fst snd].
  destruct (w_listing w (k_t s)) as [l|] eqn:Hlist; [|done]. rewrite sys_bind_eq. cbn [mret sys_ret fst].
  assert (Hin : pid ∈ List.filter (λ pid, (0 <? pid)%Z) l).
  { apply list_elem_of_In, List.filter_In. split; [|apply Z.ltb_lt, (sv_pid _ _ _ _ _ _ _ Hs)].
    apply list_elem_of_In. eapply (sv_listed _ _ _ _ _ _ _ Hs). exact Hlist. }
  clear Hlist. generalize (tick s) as s0. induction (List.filter _ l) as [|x xs IH]; intros s0; [by apply not_elem_of_nil in Hin|].
  cbn [mapM_sys]. rewrite !sys_bind_eq. cbn. apply elem_of_app. apply elem_of_cons in Hin as [<-|Hin]; [left|right; apply (IH Hin)].
  unfold walk_entry, procStat. rewrite !sys_bind_eq. unfold ProcStat, observe. cbn [fst snd].
  rewrite (sv_read _ _ _ _ _ _ _ Hs). destruct (find_serving (k_t s0)) as (y & -> & Hpg & Hz). cbn. rewrite Hpg, Z.eqb_refl. cbn.
  rewrite Hz. apply list_elem_of_here.
Qed.

(** Nothing found is lost. *)
Definition keeps (h1 h2 : gmap Z (list socketHolder)) : Prop := ∀ i h, h ∈ found h1 i → h ∈ found h2 i.

#[local] Instance keeps_preorder : PreOrder keeps.
Proof. split; [by intros h i x|]. intros a b c H1 H2 i h Hh. by apply H2, H1. Qed.

Lemma keeps_add i h holders : keeps holders (add_holder i h holders).
Proof.
  intros i' h' Hh. unfold found, add_holder. destruct (decide (i = i')) as [->|Hne].
  - rewrite lookup_insert_eq. cbn. apply elem_of_app. by left.
  - by rewrite lookup_insert_ne.
Qed.

Lemma keeps_fds q member known holders fds s : keeps holders (collect_fds net nfault euid q member inodes known holders fds w s).1.
Proof.
  revert known holders s. induction fds as [|fd fds IH]; intros known holders s; [done|]. cbn [collect_fds]. rewrite sys_bind_eq.
  destruct (_ ≫= link_inode) as [inode|]; [|apply IH]. case_bool_decide; [|apply IH]. rewrite sys_bind_eq.
  etrans; [|apply IH]. apply keeps_add.
Qed.

Lemma keeps_collect q member holders s : keeps holders (collectHolders net nfault euid inodes member holders q w s).1.
Proof. unfold collectHolders. rewrite sys_bind_eq. destruct (read_fds _ _ _ _ _).1; [apply keeps_fds|done]. Qed.

Lemma keeps_all member pids holders s : keeps holders (collect_all net nfault euid inodes member holders pids w s).1.
Proof.
  revert holders s. induction pids as [|q pids IH]; intros holders s; [done|]. cbn [collect_all]. rewrite sys_bind_eq.
  etrans; [apply keeps_collect|apply IH].
Qed.

(** A member holds the socket. *)
Definition has_member (holders : gmap Z (list socketHolder)) (i : Z) : Prop := ∃ h, h ∈ found holders i ∧ sh_member h = true.

Lemma has_member_keeps h1 h2 i : keeps h1 h2 → has_member h1 i → has_member h2 i.
Proof. intros Hk (h & Hh & Hm). exists h. split; [by apply Hk|done]. Qed.

Lemma collect_fds_serving i fd fds known holders s : i ∈ inodes → fd ∈ fds →
  (∀ t, ∃ links link, ns_fds (net t) !! p = Some links ∧ links !! fd = Some link ∧ link_inode link = Some i) →
  has_member (collect_fds net nfault euid pid true inodes known holders fds w s).1 i.
Proof using Hw Hs.
  intros Hi Hfd Hlink. revert known holders s. induction fds as [|fd' fds IH]; intros known holders s; [by apply not_elem_of_nil in Hfd|].
  cbn [collect_fds]. rewrite sys_bind_eq. apply elem_of_cons in Hfd as [<-|Hfd].
  - unfold read_link. rewrite file_serving by apply (sv_links _ _ _ _ _ _ _ Hs).
    destruct (Hlink (k_t s)) as (links & link & -> & Hl & Hin). cbn. rewrite Hl. cbn. rewrite Hin, bool_decide_true by done.
    rewrite sys_bind_eq. eapply has_member_keeps; [apply keeps_fds|].
    exists (mkHolder pid (inspect_holder net nfault euid pid true known w (proc_file net nfault (NLink pid fd) pid (λ n p0, ns_fds n !! p0 ≫= (.!! fd)) w s).2).1.2 true
      (inspect_holder net nfault euid pid true known w (proc_file net nfault (NLink pid fd) pid (λ n p0, ns_fds n !! p0 ≫= (.!! fd)) w s).2).1.1).
    split; [|done]. unfold found, add_holder. rewrite lookup_insert_eq. cbn. apply elem_of_app. right. by apply list_elem_of_singleton.
  - destruct (_ ≫= link_inode) as [inode|]; [|by apply IH]. case_bool_decide; [|by apply IH]. rewrite sys_bind_eq. by apply IH.
Qed.

Lemma collect_serving i holders s : i ∈ inodes → has_member (collectHolders net nfault euid inodes true holders pid w s).1 i.
Proof using Hw Hs.
  intros Hi. unfold collectHolders. rewrite sys_bind_eq. unfold read_fds.
  rewrite file_serving by apply (sv_fds _ _ _ _ _ _ _ Hs).
  destruct (sv_sockets _ _ _ _ _ _ _ Hs i Hi) as (fd & Hfd). destruct (Hfd (k_t s)) as (fds & link & Hf & Hl & _). rewrite Hf. cbn [fmap option_fmap option_map].
  apply (collect_fds_serving i fd); [done| |exact Hfd]. apply list_elem_of_fmap. exists (fd, link). split; [done|]. by apply elem_of_map_to_list.
Qed.

Lemma collect_all_serving i pids holders s : i ∈ inodes → pid ∈ pids →
  has_member (collect_all net nfault euid inodes true holders pids w s).1 i.
Proof using Hw Hs.
  intros Hi. revert holders s. induction pids as [|q pids IH]; intros holders s Hin; [by apply not_elem_of_nil in Hin|].
  cbn [collect_all]. rewrite sys_bind_eq. apply elem_of_cons in Hin as [<-|Hin]; [|by apply IH].
  eapply has_member_keeps; [apply keeps_all|]. by apply collect_serving.
Qed.

Lemma answering_nonempty whole table c l uid : answering AddrPort_String whole table c = Ok (l, uid) → l ≠ [].
Proof.
  induction table as [|e table IH]; cbn; [done|]. destruct (_ || _); [done|]. destruct (negb _); [by intros [= <- <-]|].
  destruct (_ || _); [|done]. unfold listenerSockets. destruct (fold_left _ _ _) as [[? l'] u]. destruct (Nat.ltb_spec 0 (length l')); [|done].
  intros [= <- <-] ->. cbn in *. lia.
Qed.

Lemma find_serving_holders s : match (findHolders net nfault euid inodes pgid w s).1 with
  | Some holders => ∀ i, i ∈ inodes → has_member holders i
  | None => (groupMemberPIDs pgid w s).1 = None
  end.
Proof using Hw Hs.
  unfold findHolders. rewrite sys_bind_eq. pose proof (members_serving s) as Hm.
  destruct (groupMemberPIDs pgid w s) as [[members|] s1]; cbn [fst snd] in *; [|done]. rewrite sys_bind_eq.
  assert (∀ i, i ∈ inodes → has_member (collect_all net nfault euid inodes true ∅ members w s1).1 i) as Hall.
  { intros i Hi. by apply collect_all_serving. }
  destruct (collect_all _ _ _ _ true ∅ members w s1) as [holders s2]. cbn [fst snd] in *.
  destruct (size holders =? length inodes); [exact Hall|]. rewrite sys_bind_eq.
  destruct (listing w s2) as [[pids|] s3]; cbn [fst snd]; [|exact Hall]. rewrite sys_bind_eq. cbn.
  intros i Hi. eapply has_member_keeps; [apply keeps_all|by apply Hall].
Qed.

(** A server that stays is recognised.  If a live, visible process of the
    probed group keeps open, during the whole attribution, every socket that
    answered the connection, then, whoever else shares those sockets, whatever
    the other processes do and whichever other reads fail, the answer is never
    called foreign, so no policy refuses it; and it is called owned whenever the
    socket table and the group's members could be read. *)
Theorem own_server_recognised c s uid reject refuseCrossSession :
  let o := (attributePGID AddrPort_String little net nfault euid c pgid w s).1 in
  answeringSockets AddrPort_String (table_at little net (k_t s)) c = Ok (inodes, uid) →
  eo_Result o ≠ OwnerForeign ∧ refusalOf (Some o) reject refuseCrossSession = "" ∧
  (w_procOwn w = true → is_ok (read_tables little net w s).1 = true → (∀ t, is_Some (w_listing w t)) → eo_Result o = OwnerOwned).
Proof using Hw Hs.
  intros o Hans. assert (eo_Result o ≠ OwnerForeign ∧ (w_procOwn w = true → is_ok (read_tables little net w s).1 = true →
    (∀ t, is_Some (w_listing w t)) → eo_Result o = OwnerOwned)) as [Hf Hown].
  2:{ split_and!; [done| |done]. unfold refusalOf. by rewrite bool_decide_false. }
  subst o. unfold attributePGID. destruct (w_procOwn w); cbn [negb]; [|done]. rewrite sys_bind_eq.
  destruct (read_tables_spec little net w s) as [_ H2]. destruct (read_tables little net w s) as [[table|reason] s1]; cbn [fst snd] in *; [|done].
  destruct (H2 table eq_refl) as [-> _]. rewrite Hans, sys_bind_eq. pose proof (find_serving_holders s1) as Hfound.
  destruct (findHolders _ _ _ inodes pgid w s1) as [[holders|] s2]; cbn [fst snd mret sys_ret] in *.
  - destruct (classify_exact inodes holders (hiddenOwner uid)) as (Eo & _).
    assert (eo_Result (classifyHolders inodes holders (hiddenOwner uid)) = OwnerOwned) as E.
    { apply Eo. split; [by eapply answering_nonempty|exact Hfound]. }
    split; [by rewrite E|done].
  - split; [done|]. intros _ _ Hlist. exfalso.
    unfold groupMemberPIDs, walkGroupMembers, listing, observe in Hfound. rewrite sys_bind_eq in Hfound. cbn [fst snd] in Hfound.
    destruct (Hlist (k_t s1)) as [l Hl]. rewrite Hl in Hfound. by rewrite sys_bind_eq in Hfound.
Qed.
End serving.

(** ** Where a foreign answer comes from *)

Section placing.
Context (ParseAddrPort : string → option AddrPort) (w : world).

(** In [t0, t1), the process that wrote the record was running. *)
Definition running (t0 t1 : nat) (rec : DaemonRecord) : Prop := ∃ t p x, t0 ≤ t < t1 ∧
  w_kernel w t !! p = Some x ∧ kp_pid x = dr_PID rec ∧ kp_start x = dr_StartedAt rec ∧ ExitedState (kp_state x) = false.

(** In [t0, t1), the holder was in the recorded group, which its recorded
    leader still led. *)
Definition in_recorded (t0 t1 : nat) (rec : DaemonRecord) (holder : Z) (g : Group) : Prop :=
  hostVerdict (dr_Host rec) w = None ∧ g_LeaderStart g ≠ 0%Z ∧
  (∃ t p x, t0 ≤ t < t1 ∧ w_kernel w t !! p = Some x ∧ kp_pid x = holder ∧ kp_pgid x = g_PGID g) ∧
  (∃ t p x, t0 ≤ t < t1 ∧ w_kernel w t !! p = Some x ∧ kp_pid x = g_PGID g ∧ kp_start x = g_LeaderStart g ∧ kp_pgid x = g_PGID g).

Lemma stat_spec pid s : let x := ProcStat pid w s in x.2 = tick s ∧
  ∀ info, x.1 = Ok info → ∃ p y, w_kernel w (k_t s) !! p = Some y ∧ kp_pid y = pid ∧
    kp_pgid y = in_PGID info ∧ kp_start y = in_StartTime info ∧ kp_state y = in_State info.
Proof.
  cbv zeta. unfold ProcStat, observe. cbn. split; [done|]. intros info. destruct (w_fault _ _ _); [done|].
  destruct (find_pid _ pid) as [[p y]|] eqn:E; [|done]. intros [= <-]. apply find_pid_Some in E as [? ?]. by exists p, y.
Qed.

Lemma StartProven_spec rec s : let x := StartProven rec w s in k_t s ≤ k_t x.2 ∧ (x.1 = true → running (k_t s) (k_t x.2) rec).
Proof.
  cbv zeta. unfold StartProven. destruct (_ || _); [by split|]. rewrite sys_bind_eq. unfold IsAlive, observe. cbn [fst snd].
  match goal with |- context [if negb ?b then _ else _] => destruct b end; cbn [negb]; [|by split; [cbn; lia|]].
  rewrite sys_bind_eq. unfold procRunningStart. rewrite sys_bind_eq. destruct (stat_spec (dr_PID rec) (tick s)) as [Ht Hi].
  destruct (ProcStat (dr_PID rec) w (tick s)) as [[info|e] s1]; cbn in *; subst s1; cbn; (split; [lia|]); [|done].
  intros [Hr Hst%Z.eqb_eq]%andb_true_iff. apply negb_true_iff in Hr.
  destruct (Hi info eq_refl) as (p & y & Hy & Hpid & _ & Hs & Hz). exists (S (k_t s)), p, y. split_and!; try lia; try done; congruence.
Qed.

Lemma identity_spec g s : let x := leaderIdentity (new_recovery g) w s in k_t s ≤ k_t x.2 ∧
  (x.1 = "" → ∃ t p y, k_t s ≤ t < k_t x.2 ∧ w_kernel w t !! p = Some y ∧ kp_pid y = g_PGID g ∧ kp_start y = g_LeaderStart g ∧ kp_pgid y = g_PGID g).
Proof.
  cbv zeta. unfold leaderIdentity. rewrite sys_bind_eq. change (r_PGID (new_recovery g)) with (g_PGID g).
  change (r_LeaderStart (new_recovery g)) with (g_LeaderStart g). destruct (stat_spec (g_PGID g) s) as [Ht Hi].
  destruct (ProcStat (g_PGID g) w s) as [[info|e] s1]; cbn in *; subst s1; cbn; (split; [lia|]).
  - destruct (Z.eqb_spec (in_StartTime info) (g_LeaderStart g)) as [E1|]; [|done]. destruct (Z.eqb_spec (in_PGID info) (g_PGID g)) as [E2|]; [|done].
    intros _. destruct (Hi info eq_refl) as (p & y & Hy & Hpid & Hg & Hst & _). exists (k_t s), p, y. split_and!; try lia; try done; congruence.
  - by repeat case_bool_decide.
Qed.

Lemma recordedGroupOf_spec holder groups rec s : let x := recordedGroupOf holder groups (dr_Host rec) w s in k_t s ≤ k_t x.2 ∧
  ∀ g, x.1 = Some g → g ∈ groups ∧ in_recorded (k_t s) (k_t x.2) rec holder g.
Proof.
  cbv zeta. unfold recordedGroupOf. destruct (_ || _); [by split|]. destruct (hostVerdict (dr_Host rec) w) as [[]|] eqn:Eh; [by split|].
  rewrite sys_bind_eq. destruct (stat_spec holder s) as [Ht Hi].
  destruct (ProcStat holder w s) as [[info|e] s1]; cbn [fst snd] in *; subst s1; [|by split; [cbn; lia|]].
  destruct (in_PGID info <=? 1)%Z; [by split; [cbn; lia|]|]. destruct (Hi info eq_refl) as (p & y & Hy & Hpid & Hg & _).
  assert (∀ s1, k_t s < k_t s1 → let x := (fix search groups := match groups with
      | [] => mret None
      | g :: groups =>
          if negb (g_PGID g =? in_PGID info)%Z || (g_LeaderStart g =? 0)%Z then search groups
          else reason ← leaderIdentity (new_recovery g);
               if bool_decide (reason = "") then mret (Some g) else search groups
      end) groups w s1 in k_t s1 ≤ k_t x.2 ∧ ∀ g, x.1 = Some g → g ∈ groups ∧ in_recorded (k_t s) (k_t x.2) rec holder g) as H.
  2:{ destruct (H (tick s)) as [H1 H2]; [cbn; lia|]. split; [cbn in H1; lia|exact H2]. }
  clear Hi. induction groups as [|g groups IH]; intros s1 Hs1; [by split|].
  destruct (negb _ || _) eqn:Ec; [destruct (IH s1 Hs1) as [H1 H2]; split; [done|]; intros g' Hg'; destruct (H2 g' Hg'); split; [by right|done]|].
  apply orb_false_iff in Ec as [Ec1%negb_false_iff%Z.eqb_eq Ec2%Z.eqb_neq]. rewrite sys_bind_eq.
  destruct (identity_spec g s1) as [H1 H2]. destruct (leaderIdentity (new_recovery g) w s1) as [reason s2]. cbn [fst snd] in *.
  case_bool_decide as Hr.
  - cbn. split; [done|]. intros ? [= <-]. split; [left|]. split_and!; [done|done| |].
    + exists (k_t s), p, y. split_and!; try done; lia || congruence.
    + destruct (H2 Hr) as (t & q & z & Hlt & Hz). exists t, q, z. split; [lia|done].
  - destruct (IH s2) as [H3 H4]; [lia|]. split; [lia|]. intros g' Hg'. destruct (H4 g' Hg'). split; [by right|done].
Qed.

Context (runID : string) (holder port : Z).

Definition mine (ss : RegSession) : bool := own_session (w_self w) runID ss.

(** The holder is in a group the session recorded. *)
Definition by_holder (t0 t1 : nat) (ss : RegSession) (g : Group) : Prop := ∃ rec groups,
  rs_Record ss = Some rec ∧ dr_Groups rec = Some groups ∧ g ∈ groups ∧ in_recorded t0 t1 rec holder g.

(** Another session, whose supervisor was running, that the answer belongs to. *)
Definition other_session (all : list RegSession) (t0 t1 : nat) (o : OwnerSession) : Prop := ∃ ss rec,
  ss ∈ all ∧ mine ss = false ∧ rs_Record ss = Some rec ∧ running t0 t1 rec ∧
  ((∃ g name, by_holder t0 t1 ss g ∧ o = ownerSession ss (g_Name g) name EvidenceHolder) ∨
   (∃ process name, PortAssignment ss port = Some (process, name) ∧ o = ownerSession ss process name EvidencePortLease)).

(** What a placement says. *)
Definition placed (all : list RegSession) (t0 t1 : nat) (x : string * option OwnerSession) : Prop :=
  (x.1 = ScopeCrossSession ∧ ∃ o, x.2 = Some o ∧ other_session all t0 t1 o) ∨
  (x = ("", None) ∧ ∃ ss, ss ∈ all ∧ mine ss = true ∧ ((∃ g, by_holder t0 t1 ss g) ∨ is_Some (PortAssignment ss port))) ∨
  (x = (ScopeOutsideSession, None) ∧ ∀ ss, ss ∈ all → mine ss = true → PortAssignment ss port = None).

(** The first session found to be assigned the port. *)
Definition lease_ok (before : list RegSession) (t0 t1 : nat) (lease : option (OwnerSession * bool)) : Prop :=
  match lease with
  | None => ∀ ss, ss ∈ before → mine ss = true → PortAssignment ss port = None
  | Some (_, true) => ∃ ss, ss ∈ before ∧ mine ss = true ∧ is_Some (PortAssignment ss port)
  | Some (o, false) => other_session before t0 t1 o
  end.

Lemma running_wider t0 t1 t0' t1' rec : t0' ≤ t0 → t1 ≤ t1' → running t0 t1 rec → running t0' t1' rec.
Proof. intros H0 H1 (t & p & x & Ht & H). exists t, p, x. split; [lia|done]. Qed.

Lemma in_recorded_wider t0 t1 t0' t1' rec g : t0' ≤ t0 → t1 ≤ t1' → in_recorded t0 t1 rec holder g → in_recorded t0' t1' rec holder g.
Proof.
  intros H0 H1 (Hh & Hl & (t & p & x & Ht & H) & (t' & p' & x' & Ht' & H')). split_and!; [done|done| |].
  - exists t, p, x. split; [lia|done].
  - exists t', p', x'. split; [lia|done].
Qed.

Lemma by_holder_wider t0 t1 t0' t1' ss g : t0' ≤ t0 → t1 ≤ t1' → by_holder t0 t1 ss g → by_holder t0' t1' ss g.
Proof.
  intros H0 H1 (rec & groups & Hr & Hg & Hin & H). exists rec, groups. split_and!; try done. by eapply in_recorded_wider.
Qed.

Lemma other_wider all all' t0 t1 t1' o : (∀ ss, ss ∈ all → ss ∈ all') → t1 ≤ t1' → other_session all t0 t1 o → other_session all' t0 t1' o.
Proof.
  intros Hall H1 (ss & rec & Hin & Hm & Hr & Hrun & H). exists ss, rec.
  split_and!; [by apply Hall|done|done|eapply running_wider; [| |exact Hrun]; lia|].
  destruct H as [(g & name & Hg & ->)|H]; [left|by right]. exists g, name. split; [|done]. eapply by_holder_wider; [| |exact Hg]; lia.
Qed.

Lemma lease_wider before before' t0 t1 t1' lease : (∀ ss, ss ∈ before → ss ∈ before') → t1 ≤ t1' →
  (lease = None → ∀ ss, ss ∈ before' → mine ss = true → PortAssignment ss port = None) →
  lease_ok before t0 t1 lease → lease_ok before' t0 t1' lease.
Proof.
  intros Hall H1 Hnone H. destruct lease as [[o []]|]; cbn in *.
  - destruct H as (ss & ? & ?). exists ss. split; [by apply Hall|done].
  - by eapply other_wider.
  - by apply Hnone.
Qed.

Lemma counts_spec ss s : let x := counts (mine ss) ss w s in k_t s ≤ k_t x.2 ∧
  (mine ss = true → x.1 = true) ∧
  (x.1 = true → mine ss = false → ∃ rec, rs_Record ss = Some rec ∧ running (k_t s) (k_t x.2) rec).
Proof.
  cbv zeta. unfold counts. destruct (mine ss); [by split_and!|]. destruct (rs_Record ss) as [rec|]; [|by split_and!].
  destruct (StartProven_spec rec s) as [H1 H2]. split_and!; [done|done|]. intros H _. exists rec. split; [done|by apply H2].
Qed.

Lemma holder_spec ss s : let x := holder_group ss holder w s in k_t s ≤ k_t x.2 ∧
  ∀ g, x.1 = Some g → by_holder (k_t s) (k_t x.2) ss g.
Proof.
  cbv zeta. unfold holder_group. destruct (rs_Record ss) as [rec|] eqn:Er; [|by split].
  destruct (dr_Groups rec) as [groups|] eqn:Eg; [|by split]. destruct (recordedGroupOf_spec holder groups rec s) as [H1 H2].
  split; [done|]. intros g Hg. destruct (H2 g Hg). by exists rec, groups.
Qed.

Lemma place_spec sessions before lease t0 s : t0 ≤ k_t s → lease_ok before t0 (k_t s) lease →
  let x := place runID holder port lease sessions w s in k_t s ≤ k_t x.2 ∧ placed (before ++ sessions) t0 (k_t x.2) x.1.
Proof.
  revert before lease s. induction sessions as [|ss sessions IH]; intros before lease s H0 Hl.
  { rewrite app_nil_r. cbn. destruct lease as [[o []]|]; cbn in *; (split; [done|]).
    - right; left. split; [done|]. destruct Hl as (ss & Hin & Hm & Hp). exists ss. split_and!; [done..|by right].
    - left. split; [done|]. by exists o.
    - right; right. by split. }
  change (before ++ ss :: sessions) with (before ++ ([ss] ++ sessions)). rewrite (app_assoc before [ss] sessions).
  cbv zeta. cbn [place]. fold (mine ss). rewrite sys_bind_eq. destruct (counts_spec ss s) as (H1 & Hown & Hlive).
  destruct (counts (mine ss) ss w s) as [live s1]. cbn [fst snd] in *.
  assert (∀ q, q ∈ before → q ∈ before ++ [ss]) as Hsub by (intros q Hq; apply elem_of_app; by left).
  assert (ss ∈ before ++ [ss]) as Hss by (apply elem_of_app; right; by apply list_elem_of_singleton).
  destruct live; cbn [negb].
  - rewrite sys_bind_eq. destruct (holder_spec ss s1) as [H2 Hg].
    destruct (holder_group ss holder w s1) as [[g|] s2]; cbn [fst snd] in *.
    + specialize (Hg g eq_refl). apply (by_holder_wider _ _ t0 (k_t s2)) in Hg; [|lia|done]. destruct (mine ss) eqn:Em.
      * cbn. split; [lia|]. right; left. split; [done|]. exists ss. split_and!; [apply elem_of_app; by left|done|left; by exists g].
      * destruct (Hlive eq_refl eq_refl) as (rec & Hr & Hrun).
        destruct (default ("", "") (PortAssignment ss port)) as [process name]. cbn. split; [lia|]. left. split; [done|].
        eexists. split; [done|]. exists ss, rec. split_and!; [apply elem_of_app; by left|done|done|eapply running_wider; [| |exact Hrun]; lia|].
        left. by eexists g, _.
    + destruct (IH (before ++ [ss]) (match lease, PortAssignment ss port with
         | None, Some (process, portName) => Some (ownerSession ss process portName EvidencePortLease, mine ss)
         | _, _ => lease end) s2) as [H3 H4]; [lia| |split; [lia|exact H4]].
      destruct lease as [[o b]|]; [eapply lease_wider; [exact Hsub| |done|exact Hl]; lia|].
      destruct (PortAssignment ss port) as [[process name]|] eqn:Ep.
      * destruct (mine ss) eqn:Em; cbn.
        -- exists ss. split_and!; [done..|]. rewrite Ep. by eexists.
        -- destruct (Hlive eq_refl eq_refl) as (rec & Hr & Hrun). exists ss, rec.
           split_and!; [done..|eapply running_wider; [| |exact Hrun]; lia|]. right. by exists process, name.
      * cbn in *. intros q [Hq|Hq]%elem_of_app Hm; [by apply Hl|]. by apply list_elem_of_singleton in Hq as ->.
  - destruct (IH (before ++ [ss]) lease s1) as [H3 H4]; [lia| |split; [lia|exact H4]].
    eapply lease_wider; [exact Hsub|exact H1| |exact Hl]. intros -> q [Hq|Hq]%elem_of_app Hm; [by apply Hl|].
    apply list_elem_of_singleton in Hq as ->. by specialize (Hown Hm).
Qed.
End placing.

(** ** Refusals, from the registry to the verdict *)

Section refusals.
Context (ParseAddrPort : string → option AddrPort) (w : world).

#[local] Instance silent_pidfile file : Silent (IsAliveFromPIDFile file).
Proof. unfold IsAliveFromPIDFile, IsAlive, procStartTime. solve_silent. Qed.

Lemma mapM_files files s : let x := mapM_sys discover_one files w s in k_t s ≤ k_t x.2 ∧
  ∀ ss, ss ∈ mjoin x.1 → ∃ f, f ∈ files ∧ sf_project f = Some (rs_Project ss) ∧ ∀ rec, rs_Record ss = Some rec → sf_record2 f = Ok rec.
Proof.
  revert s. induction files as [|f files IH]; intros s; [split; [done|by intros ? ?%not_elem_of_nil]|]. cbv zeta. cbn [mapM_sys].
  rewrite !sys_bind_eq. assert (let x := discover_one f w s in k_t s ≤ k_t x.2 ∧
    ∀ ss, ss ∈ x.1 → sf_project f = Some (rs_Project ss) ∧ ∀ rec, rs_Record ss = Some rec → sf_record2 f = Ok rec) as [H1 H2].
  { unfold discover_one. destruct (sf_project f) as [project|]; [|split; [done|by intros ? ?%not_elem_of_nil]]. rewrite sys_bind_eq.
    pose proof (silent (m := IsAliveFromPIDFile (sf_record1 f)) w s) as [[Ht _ _] _].
    destruct (IsAliveFromPIDFile (sf_record1 f) w s) as [[live pid] s1]. cbn in *. split; [done|].
    intros ss ->%list_elem_of_singleton. cbn. split; [done|]. intros rec. destruct (sf_record2 f); [by intros [= ->]|done]. }
  destruct (discover_one f w s) as [r s1]. cbn [fst snd] in *. destruct (IH s1) as [H3 H4].
  destruct (mapM_sys discover_one files w s1) as [rs s2]. cbn in *. split; [lia|].
  intros ss [Hss|Hss]%elem_of_app; [exists f; split; [left|by apply H2]|].
  destruct (H4 ss Hss) as (f' & Hf' & H). exists f'. split; [by right|done].
Qed.

Lemma placed_wider runID holder port all t0 t0' t1 x : t0' ≤ t0 →
  placed w runID holder port all t0 t1 x → placed w runID holder port all t0' t1 x.
Proof.
  intros H0 [(Hx & o & Ho & ss & rec & Hin & Hm & Hr & Hrun & H)|[(-> & ss & Hin & Hm & H)|H]]; [left|right; left|by right; right].
  - split; [done|]. exists o. split; [done|]. exists ss, rec. split_and!; [done..|by eapply running_wider; [exact H0| |]|].
    destruct H as [(g & name & Hg & ->)|H]; [left; exists g, name|by right]. split; [by eapply by_holder_wider; [exact H0| |]|done].
  - split; [done|]. exists ss. split_and!; [done..|]. destruct H as [(g & Hg)|H]; [left; exists g|by right]. by eapply by_holder_wider; [exact H0| |].
Qed.

(** A foreign answer is placed, and refused, only on evidence.  The scope
    a foreign answer gets says that it belongs to another session only when
    that session is in the registry, is not this run's own, and its supervisor
    was seen running with the recorded start time during the placement, and
    either the process that answered was seen in a group the session recorded
    while the recorded leader led it, or the port is one the session was
    assigned; it is left without a scope only when this run's own session
    accounts for it; and outside every session only when no port of this run's
    own is meant.  So verify, which refuses the answers of other sessions,
    refuses one only when such a session is proven to be there. *)
Theorem foreign_answer_placed files runID owner s : eo_Result owner = OwnerForeign →
  let x := placeForeign ParseAddrPort (Some files) runID owner w s in
  let sessions := (Discover files w s).1 in
  let port := match ParseAddrPort (eo_Address owner) with Some ap => ap_Port ap | None => 0%Z end in
  placed w runID (eo_PID owner) port sessions (k_t s) (k_t x.2) (eo_Scope x.1, eo_Session x.1) ∧
  (∀ ss, ss ∈ sessions → ∃ f, f ∈ files ∧ sf_project f = Some (rs_Project ss) ∧ ∀ rec, rs_Record ss = Some rec → sf_record2 f = Ok rec) ∧
  (refusalOf (Some x.1) false true ≠ "" → ∃ o, eo_Session x.1 = Some o ∧
     other_session w runID (eo_PID owner) port sessions (k_t s) (k_t x.2) o).
Proof.
  intros Hf. cbv zeta. unfold placeForeign. rewrite bool_decide_true by done. cbn [negb]. rewrite sys_bind_eq. unfold placeAnswer.
  destruct (mapM_files files s) as [H1 H2]. cbv zeta in H1, H2.
  assert (let x := Discover files w s in k_t s ≤ k_t x.2 ∧ ∀ ss, ss ∈ x.1 → ∃ f, f ∈ files ∧ sf_project f = Some (rs_Project ss) ∧
    ∀ rec, rs_Record ss = Some rec → sf_record2 f = Ok rec) as [H3 H4].
  { unfold Discover. rewrite sys_bind_eq. destruct (mapM_sys discover_one files w s) as [found s1]. cbn in *. split; [done|].
    intros ss Hss. apply H2. by rewrite merge_sort_Permutation in Hss. }
  destruct (Discover files w s) as [sessions s1]. cbn [fst snd] in *. rewrite sys_bind_eq.
  set (port := match ParseAddrPort (eo_Address owner) with Some ap => ap_Port ap | None => 0%Z end).
  destruct (place_spec w runID (eo_PID owner) port sessions [] None (k_t s1) s1) as [H5 H6];
    [done|by intros ? ?%not_elem_of_nil|]. cbn [app] in H6.
  destruct (place runID (eo_PID owner) port None sessions w s1) as [[scope session] s2]. cbn [fst snd mret sys_ret set_scope eo_Scope eo_Session] in *.
  apply (placed_wider _ _ _ _ (k_t s1) (k_t s)) in H6; [|done]. split_and!; [exact H6|exact H4|].
  unfold refusalOf. cbn [eo_Result eo_Scope]. change (eo_Result (set_scope (scope, session) owner)) with (eo_Result owner).
  rewrite bool_decide_true by done. cbn [negb andb]. change (eo_Scope (set_scope (scope, session) owner)) with scope. case_bool_decide as Hs; [|done]. intros _.
  destruct H6 as [(_ & o & Ho & H)|[([= -> _] & _)|([= -> _] & _)]]; [by exists o|done|done].
Qed.
End refusals.

(** ** The rows the kernel writes are read back *)

Definition hex_digit (d : Z) : ascii := if (d <? 10)%Z then chr (Z.to_nat (48 + d)) else chr (Z.to_nat (55 + d)).

(** [%0nX] of a number that fits. *)
Fixpoint print_hex (n : nat) (z : Z) : string :=
  match n with O => "" | S n => print_hex n (z / 16) +:+ String (hex_digit (z mod 16)) "" end.

(** The number four bytes of memory are on the machine. *)
Definition word_value (little : bool) (a b c d : Z) : Z :=
  (if little then ((d * 256 + c) * 256 + b) * 256 + a else ((a * 256 + b) * 256 + c) * 256 + d)%Z.

Fixpoint print_words (little : bool) (raw : list Z) : string :=
  match raw with
  | a :: b :: c :: d :: raw => print_hex 8 (word_value little a b c d) +:+ print_words little raw
  | _ => ""
  end.

(** A row of /proc/net/tcp, as the kernel prints it: the slot, the addresses,
    the state, the queues, the timer, the retransmissions, the user, the
    timeout, the inode, and more. *)
Definition print_row (little : bool) (slot : Z) (local remote : list Z) (lport rport state : Z) (queues timer retrans : string)
    (uid timeout inode : Z) (rest : list string) : string :=
  "   " +:+ join " " ((itoa slot +:+ ":")
    :: (print_words little local +:+ ":" +:+ print_hex 4 lport)
    :: (print_words little remote +:+ ":" +:+ print_hex 4 rport)
    :: print_hex 2 state :: queues :: timer :: retrans :: itoa uid :: itoa timeout :: itoa inode :: rest).

Definition is_byte (b : Z) : Prop := (0 ≤ b < 256)%Z.

Lemma hex_val_digit d : (0 ≤ d < 16)%Z → hex_val (hex_digit d) = Some d.
Proof.
  intros Hd. assert (d = 0 ∨ d = 1 ∨ d = 2 ∨ d = 3 ∨ d = 4 ∨ d = 5 ∨ d = 6 ∨ d = 7 ∨ d = 8 ∨ d = 9 ∨ d = 10 ∨ d = 11 ∨ d = 12 ∨
    d = 13 ∨ d = 14 ∨ d = 15)%Z as H by lia.
  repeat (destruct H as [->|H]; [reflexivity|]). by subst.
Qed.

Lemma hex_digit_plain d : (0 ≤ d < 16)%Z →
  (negb (space1 (hex_digit d)) && negb (bool_decide (hex_digit d = ")"%char)) && negb (bool_decide (hex_digit d = ":"%char))) = true.
Proof.
  intros Hd. assert (d = 0 ∨ d = 1 ∨ d = 2 ∨ d = 3 ∨ d = 4 ∨ d = 5 ∨ d = 6 ∨ d = 7 ∨ d = 8 ∨ d = 9 ∨ d = 10 ∨ d = 11 ∨ d = 12 ∨
    d = 13 ∨ d = 14 ∨ d = 15)%Z as H by lia.
  repeat (destruct H as [->|H]; [reflexivity|]). by subst.
Qed.

Lemma parse_hex_app acc s t : parse_hex acc (s +:+ t) = parse_hex acc s ≫= λ a, parse_hex a t.
Proof. revert acc. induction s as [|c s IH]; intros acc; cbn; [done|]. destruct (hex_val c); [apply IH|done]. Qed.

Lemma parse_print n z acc : (0 ≤ z < 16 ^ Z.of_nat n)%Z → parse_hex acc (print_hex n z) = Some (acc * 16 ^ Z.of_nat n + z)%Z.
Proof.
  revert z acc. induction n as [|n IH]; intros z acc Hz; cbn [print_hex]; [cbn in *; f_equal; lia|].
  rewrite Nat2Z.inj_succ, Z.pow_succ_r in * by lia. pose proof (Z.div_mod z 16). pose proof (Z.mod_pos_bound z 16).
  rewrite parse_hex_app, IH by (split; [apply Z.div_pos; lia|apply Z.div_lt_upper_bound; lia]). cbn.
  rewrite hex_val_digit by lia. f_equal. nia.
Qed.

Lemma print_hex_nonempty n z : print_hex (S n) z ≠ "".
Proof. cbn. by destruct (print_hex n (z / 16)). Qed.

Lemma parse_uint16_print bits n z : (0 ≤ z < 16 ^ Z.of_nat (S n))%Z → (z < 2 ^ bits)%Z → parse_uint16 bits (print_hex (S n) z) = Some z.
Proof.
  intros Hz Hb. unfold parse_uint16. pose proof (print_hex_nonempty n z). destruct (print_hex (S n) z) as [|c t] eqn:E; [done|].
  rewrite <-E, parse_print by done. cbn [Z.mul]. by rewrite Z.add_0_l, (proj2 (Z.ltb_lt _ _)).
Qed.

(** A byte is two digits. *)
Lemma print_hex_byte n q r : is_byte r → print_hex (S (S n)) (q * 256 + r) = print_hex n q +:+ print_hex 2 r.
Proof.
  intros Hr. unfold is_byte in Hr. cbn [print_hex]. pose proof (Z.div_mod r 16). pose proof (Z.mod_pos_bound r 16).
  assert ((q * 256 + r) / 16 = q * 16 + r / 16)%Z as ->.
  { symmetry. apply Z.div_unique with (r mod 16)%Z; lia. }
  assert ((q * 256 + r) mod 16 = r mod 16)%Z as ->.
  { symmetry. apply Z.mod_unique with (q * 16 + r / 16)%Z; lia. }
  assert (0 ≤ r / 16 < 16)%Z as H1 by (split; [apply Z.div_pos; lia|apply Z.div_lt_upper_bound; lia]).
  assert ((q * 16 + r / 16) / 16 = q)%Z as -> by (symmetry; apply Z.div_unique with (r / 16)%Z; lia).
  assert ((q * 16 + r / 16) mod 16 = r / 16)%Z as -> by (symmetry; apply Z.mod_unique with q; lia).
  rewrite (Z.mod_small (r / 16) 16) by lia. cbn. by rewrite str_app_assoc.
Qed.

Lemma decode_byte b s : is_byte b → hex_decode (print_hex 2 b +:+ s) = (b ::.) <$> hex_decode s.
Proof.
  intros Hb. unfold is_byte in Hb. cbn. pose proof (Z.div_mod b 16). pose proof (Z.mod_pos_bound b 16).
  assert (0 ≤ b / 16 < 16)%Z by (split; [apply Z.div_pos; lia|apply Z.div_lt_upper_bound; lia]).
  rewrite (Z.mod_small (b / 16) 16) by lia. rewrite !hex_val_digit by lia. destruct (hex_decode s); cbn; [|done].
  do 2 f_equal. lia.
Qed.

(** The bytes of an address, in words. *)
Inductive words : list Z → Prop :=
  | words_nil : words []
  | words_cons a b c d raw : is_byte a → is_byte b → is_byte c → is_byte d → words raw → words (a :: b :: c :: d :: raw).

Lemma decode_words little raw : words raw → hex_decode (print_words little raw) = Some (native_words little raw).
Proof.
  induction 1 as [|a b c d raw Ha Hb Hc Hd Hw IH]; [done|]. cbn [print_words native_words]. unfold word_value.
  destruct little; rewrite !(print_hex_byte 6), !(print_hex_byte 4), !(print_hex_byte 2) by done;
    rewrite !str_app_assoc, !decode_byte by done; by rewrite IH.
Qed.

Lemma native_involutive little raw : words raw → native_words little (native_words little raw) = raw.
Proof. induction 1 as [|a b c d raw _ _ _ _ _ IH]; [done|]. destruct little; cbn; by rewrite IH. Qed.

Lemma native_length little raw : words raw → length (native_words little raw) = length raw.
Proof. induction 1 as [|a b c d raw _ _ _ _ _ IH]; [done|]. destruct little; cbn; by rewrite IH. Qed.

Lemma Fields_space s : Fields (String " " s) = Fields s.
Proof. unfold Fields. cbn [split_fields]. destruct (split_fields s) as [word ws]. change (space1 " ") with true. cbn. by case_bool_decide. Qed.

Definition plain (c : ascii) : bool :=
  negb (space1 c) && negb (bool_decide (c = ")"%char)) && negb (bool_decide (c = ":"%char)).

Lemma print_hex_plain n z : str_all plain (print_hex n z) = true.
Proof.
  revert z. induction n as [|n IH]; intros z; [done|]. cbn [print_hex]. rewrite str_all_app, IH. unfold str_all. cbn [bytes forallb].
  unfold plain. by rewrite hex_digit_plain by (apply Z.mod_pos_bound; lia).
Qed.

Lemma print_words_plain little raw : str_all plain (print_words little raw) = true.
Proof.
  enough (∀ n raw, length raw ≤ n → str_all plain (print_words little raw) = true) as H by by apply (H (length raw)).
  clear raw. induction n as [|n IH]; intros raw Hl; [by destruct raw; [|cbn in Hl; lia]|].
  destruct raw as [|a [|b [|c [|d raw]]]]; [done..|]. cbn [print_words]. rewrite str_all_app, print_hex_plain. apply IH. cbn in Hl. lia.
Qed.

Lemma str_all_weaken (f g : ascii → bool) s : (∀ c, f c = true → g c = true) → str_all f s = true → str_all g s = true.
Proof. unfold str_all. rewrite !forallb_forall. auto. Qed.

Lemma plain_word s t : str_all plain s = true → str_all plain t = true → stat_word (s +:+ ":" +:+ t).
Proof.
  intros Hs Ht. split; [by destruct s|]. rewrite !str_all_app. apply andb_true_iff. split; [|apply andb_true_iff; split; [done|]];
    (eapply str_all_weaken; [|eassumption]); intros c [H _]%andb_true_iff; exact H.
Qed.

Lemma plain_no_colon s : str_all plain s = true → str_mem ":"%char s = false.
Proof. intros H. apply str_all_not_mem. eapply str_all_weaken; [|exact H]. intros c [_ Hc]%andb_true_iff. exact Hc. Qed.

Lemma parse_addr_print little raw port : words raw → length raw = 4 ∨ length raw = 16 → (0 ≤ port < 2 ^ 16)%Z →
  parseSocketAddr little (print_words little raw +:+ ":" +:+ print_hex 4 port) = Some (mkAddrPort (Unmap raw) port).
Proof.
  intros Hw Hl Hp. unfold parseSocketAddr.
  rewrite (proj2 (cut_byte_Some ":"%char _ (print_words little raw) (print_hex 4 port))).
  2: { split; [done|]. apply plain_no_colon, print_words_plain. }
  rewrite parse_uint16_print by (cbn in *; lia). rewrite decode_words by done. rewrite native_length, native_involutive by done.
  by destruct Hl as [-> | ->].
Qed.

(** The socket table is read as the kernel wrote it.  Whatever the byte
    order of the machine, a row of /proc/net/tcp or tcp6 is read back to the
    socket it was printed for: both addresses (an IPv4 one that is mapped into
    IPv6 as the IPv4 address it serves), the ports, the state, the user and the
    inode, whatever the other columns hold. *)
Theorem socket_row_roundtrip little slot local remote lport rport state queues timer retrans uid timeout inode rest :
  words local → length local = 4 ∨ length local = 16 → words remote → length remote = 4 ∨ length remote = 16 →
  (0 ≤ lport < 2 ^ 16)%Z → (0 ≤ rport < 2 ^ 16)%Z → (0 ≤ state < 2 ^ 8)%Z → (0 ≤ uid < 2 ^ 32)%Z → (0 ≤ inode < 2 ^ 64)%Z →
  Forall stat_word (queues :: timer :: retrans :: rest) →
  parseSocketLine little (print_row little slot local remote lport rport state queues timer retrans uid timeout inode rest)
  = Some (mkSocket (mkAddrPort (Unmap local) lport) (mkAddrPort (Unmap remote) rport) state uid inode).
Proof.
  intros Hl Hll Hr Hrl Hlp Hrp Hst Hu Hi Hrest. unfold parseSocketLine, print_row.
  change ("   " +:+ ?s) with (String " " (String " " (String " " s))). rewrite !Fields_space.
  inversion Hrest as [|? ? Hq Hrest1]; subst. inversion Hrest1 as [|? ? Ht Hrest2]; subst. inversion Hrest2 as [|? ? Hre Hrest3]; subst.
  rewrite Fields_join.
  2: { assert (stat_word (itoa slot +:+ ":")) as H1.
    { split; [by destruct (itoa slot)|]. rewrite str_all_app. apply andb_true_iff. split; [apply itoa_word|done]. }
    assert (stat_word (print_hex 2 state)) as H2.
    { split; [apply print_hex_nonempty|]. eapply str_all_weaken; [|apply print_hex_plain]. by intros c [H _]%andb_true_iff. }
    assert (∀ raw port, stat_word (print_words little raw +:+ ":" +:+ print_hex 4 port)) as H3.
    { intros. apply plain_word; [apply print_words_plain|apply print_hex_plain]. }
    repeat (apply List.Forall_cons; [first [done|apply H3|apply itoa_word]|]). done. }
  cbn [length Nat.ltb Nat.leb]. cbn [lookup list_lookup mbind option_bind].
  rewrite !parse_addr_print by done. cbn [mbind option_bind]. rewrite parse_uint16_print by (cbn in *; lia). cbn [mbind option_bind].
  rewrite atoi_itoa by (unfold int_range, min_int, max_int; apply andb_true_iff; split; apply Z.leb_le; lia). cbn [mbind option_bind].
  by rewrite parse_uint64_itoa.
Qed.

(** ** Concrete attributions *)

Definition demo_row : string :=
  print_row true 0 [127; 0; 0; 1]%Z [127; 0; 0; 1]%Z 8080 40000 1 "00000000:00000000" "00:00000000" "00000000" 1000 0 77 ["1"; "0000000000000000"].

Lemma socket_row_roundtrip_witness :
  demo_row = "   0: 0100007F:1F90 0100007F:9C40 01 00000000:00000000 00:00000000 00000000 1000 0 77 1 0000000000000000" ∧
  parseSocketLine true demo_row = Some (mkSocket (mkAddrPort [127; 0; 0; 1]%Z 8080) (mkAddrPort [127; 0; 0; 1]%Z 40000) 1 1000 77).
Proof.
  split; [vm_compute; reflexivity|].
  assert (words [127; 0; 0; 1]%Z) as Hw by (apply words_cons; [unfold is_byte; lia..|constructor]).
  refine (socket_row_roundtrip true 0 [127; 0; 0; 1]%Z [127; 0; 0; 1]%Z 8080 40000 1 _ _ _ 1000 0 77 _ Hw _ Hw _ _ _ _ _ _ _);
    [by left|by left|lia..|]. repeat (apply List.Forall_cons; [by split|]). constructor.
Defined.

Definition demo_conn : probeConn := mkProbeConn (mkAddrPort [127; 0; 0; 1]%Z 40000) (mkAddrPort [127; 0; 0; 1]%Z 8080).

Definition demo_net (t : nat) : netstate :=
  mkNet (TableLines ["  sl  local_address rem_address   st"; demo_row] None) TableMissing
    {[0 := {[0%Z := "/dev/null"]}; 1 := {[3%Z := "socket:[77]"]}]} {[1 := "Name:	web"]} {[1 := "web"]}.

Definition demo_attribution : EndpointOwner * kstate :=
  attributeProbe (λ _, "127.0.0.1:8080") true demo_net (λ _ _, false) 1000 demo_conn (Some 100%Z) example_world fresh_state.

Lemma attribution_justified_witness : eo_Result demo_attribution.1 = OwnerOwned ∧
  member_seen example_world 100 0 (k_t demo_attribution.2) (eo_PID demo_attribution.1).
Proof.
  assert (eo_Result demo_attribution.1 = OwnerOwned) as H by (vm_compute; reflexivity). split; [exact H|].
  destruct (attribution_justified (λ _, "127.0.0.1:8080") true demo_net (λ _ _, false) 1000 example_world ltac:(lia) demo_conn 100 fresh_state) as [Hr _].
  fold demo_attribution in Hr. destruct Hr as (inodes & uid & members & _ & _ & _ & Hown & _); [by rewrite H|].
  exact (proj1 (proj2 (Hown H))).
Defined.

Lemma demo_serving : serving demo_net (λ _ _, false) example_world 100 1 101 [77%Z].
Proof.
  split; try done.
  - intros t. exists (mkKproc 101 100 9 "R" 1). split_and!; reflexivity.
  - intros t l [= <-]. by apply (list_elem_of_lookup_2 _ 2).
  - intros i ->%list_elem_of_singleton. exists 3%Z. intros t. exists {[3%Z := "socket:[77]"]}, "socket:[77]". split_and!; reflexivity.
Qed.

Lemma own_server_recognised_witness :
  eo_Result (attributePGID (λ _, "127.0.0.1:8080") true demo_net (λ _ _, false) 1000 demo_conn 100 example_world fresh_state).1 = OwnerOwned.
Proof.
  refine (proj2 (proj2 (own_server_recognised (λ _, "127.0.0.1:8080") true demo_net (λ _ _, false) 1000 example_world example_ok 100 1 101 [77%Z]
    demo_serving demo_conn fresh_state 1000 true true _)) _ _ _).
  - vm_compute. reflexivity.
  - reflexivity.
  - vm_compute. reflexivity.
  - intros t. by eexists.
Defined.

(** Another session, led by the process 100, that recorded its group; its
    server answers at a port of another one. *)
Definition demo_files : list session_files :=
  let rec := mkDaemonRecord 101 "" 9 (mkHost "boot" "pid" "time") (Some [example_group]) in
  [mkSessionFiles "pc-1.meta.json" (Some (mkProject "other" "run-2" "/o.yml" "/o" ∅ ∅ [] "" "" None [])) (Ok rec) (Ok rec)].

Definition demo_foreign : EndpointOwner := mkEndpointOwner OwnerForeign "127.0.0.1:8080" 101 "web" "" "" None.

Lemma foreign_answer_placed_witness :
  let x := placeForeign (λ _, Some (mkAddrPort [127; 0; 0; 1]%Z 8080)) (Some demo_files) "run-1" demo_foreign example_world fresh_state in
  refusalOf (Some x.1) false true = refusedAsCrossSession ∧
  ∃ o, eo_Session x.1 = Some o ∧
    other_session example_world "run-1" 101 8080 (Discover demo_files example_world fresh_state).1 (k_t fresh_state) (k_t x.2) o.
Proof.
  intros x. assert (refusalOf (Some x.1) false true = refusedAsCrossSession) as H by (vm_compute; reflexivity). split; [exact H|].
  refine (proj2 (proj2 (foreign_answer_placed (λ _, Some (mkAddrPort [127; 0; 0; 1]%Z 8080)) example_world demo_files "run-1" demo_foreign fresh_state
    eq_refl)) _). fold x. by rewrite H.
Defined.
