(* ===== verification/Reaping.v ===== *)
(** * Who may signal a process group, and until when

    A command leads a process group whose number is its own PID.  The kernel
    keeps that number reserved while the leader has not been reaped, so the
    runner signals a group only until it starts to reap the leader: it withdraws
    its authority over the group first, or the terminal sweep seals the group.
    Here is one run as a system of concurrent steps: the executions of commands,
    the goroutine of [Run] that sweeps and hands off, forced shutdowns, the
    watcher of each command's context, the reapers, and the commands themselves,
    which exit whenever they like.  This is the Unix build.  What is recorded of
    the outcome is in [Groups]; here only who signals what, when.  What is proved
    of it is in [Ownership]. *)

From stdpp Require Import relations.
From S2P Require Import Prelude GoStrings ConfigTypes Groups.

(** ** A Unix process group *)

(** [pg_pgid] is 0 when the group is not tracked or is closed.
    Source: internal/runner/processgroup_unix.go:17-37 (unixProcessGroup). *)
Record unixProcessGroup : Type := mkPG {
  pg_pgid : Z;
  pg_withdrawn : bool;
  pg_trackErr : option string;
  pg_probeErr : option string;
  pg_members : list string;
}.

(** Field updates. *)
Definition set_pg_pgid (v : Z) (pg : unixProcessGroup) : unixProcessGroup :=
  mkPG v (pg_withdrawn pg) (pg_trackErr pg) (pg_probeErr pg) (pg_members pg).
Definition set_pg_withdrawn (v : bool) (pg : unixProcessGroup) : unixProcessGroup :=
  mkPG (pg_pgid pg) v (pg_trackErr pg) (pg_probeErr pg) (pg_members pg).
Definition set_pg_probeErr (v : option string) (pg : unixProcessGroup) : unixProcessGroup :=
  mkPG (pg_pgid pg) (pg_withdrawn pg) (pg_trackErr pg) v (pg_members pg).
Definition set_pg_members (v : list string) (pg : unixProcessGroup) : unixProcessGroup :=
  mkPG (pg_pgid pg) (pg_withdrawn pg) (pg_trackErr pg) (pg_probeErr pg) v.

(** Source: internal/runner/processgroup_unix.go:39-39 (newProcessGroup). *)
Definition newProcessGroup : unixProcessGroup := mkPG 0 false None None [].

(** Whether the command leads a new session, and the attributes it gets.
    Source: internal/runner/processgroup_unix.go:53-63 (unixProcessGroup.Setup). *)
Record SysProcAttr : Type := mkSysProcAttr { sa_Setsid : bool; sa_Setpgid : bool; sa_Pgid : Z }.

(** Source: internal/runner/processgroup_unix.go:53-63 (unixProcessGroup.Setup). *)
Definition Setup (attr : option SysProcAttr) : SysProcAttr :=
  let setsid := match attr with Some a => sa_Setsid a | None => false end in
  mkSysProcAttr setsid (negb setsid) 0.

(** [None] is a command that was not started.
    Source: internal/runner/processgroup_unix.go:65-73 (unixProcessGroup.Track). *)
Definition Track (pid : option Z) (pg : unixProcessGroup) : res string unixProcessGroup :=
  match pid with
  | None => Err "track: process not started"
  | Some pid => Ok (set_pg_pgid pid pg)
  end.

Inductive sig : Type := SIGTERM | SIGKILL.

#[export] Instance sig_eq_dec : EqDecision sig.
Proof. solve_decision. Defined.

(** How kill(2) answers. *)
Inductive kill_answer : Type := KillOK | KillESRCH | KillFailed (err : string).

Inductive signal_error : Type := ErrProcessDone | SignalFailed (err : string).

Definition authority (pg : unixProcessGroup) : bool := negb (pg_withdrawn pg) && (1 <? pg_pgid pg)%Z.

(** The number kill(2) is given, if it is called, and the result.
    Source: internal/runner/processgroup_unix.go:75-97 (unixProcessGroup.signal). *)
Definition signal (answer : kill_answer) (pg : unixProcessGroup) : option Z * option signal_error :=
  if pg_withdrawn pg || (pg_pgid pg <=? 1)%Z then (None, Some ErrProcessDone)
  else (Some (- pg_pgid pg)%Z,
        match answer with
        | KillOK => None
        | KillESRCH => Some ErrProcessDone
        | KillFailed err => Some (SignalFailed err)
        end).

(** Source: internal/runner/processgroup_unix.go:102-107 (unixProcessGroup.Withdraw). *)
Definition Withdraw (pg : unixProcessGroup) : unixProcessGroup := set_pg_withdrawn true pg.

(** Source: internal/runner/processgroup.go:256-257 (identifyPID). *)
Definition identifyPID (pid : Z) : string := itoa pid.

(** Source: internal/runner/processgroup_unix.go:166-186 (unixProcessGroup.recordObservation). *)
Definition recordObservation (pids : list Z) (err : option string) (pg : unixProcessGroup) : unixProcessGroup :=
  match err with
  | Some _ => set_pg_members [] (set_pg_probeErr err pg)
  | None => set_pg_members (identifyPID <$> pids) (set_pg_probeErr None pg)
  end.

(** [pids] are the live members, if they could be enumerated; [alive] is
    whether a null signal to the group succeeds.
    Source: internal/runner/processgroup_unix.go:124-164 (unixProcessGroup.State). *)
Definition State (pids : option (list Z)) (alive : bool) (pg : unixProcessGroup) : GroupState * unixProcessGroup :=
  if (pg_pgid pg <=? 1)%Z then (GroupEmpty, pg)
  else match pg_trackErr pg with
       | Some _ => (GroupUnavailable, pg)
       | None =>
           match pids with
           | None => (if alive then GroupOwned else GroupUnavailable,
                      recordObservation [] (Some "process group membership could not be enumerated") pg)
           | Some pids => (if 0 <? length pids then GroupOwned else GroupEmpty, recordObservation pids None pg)
           end
       end.

(** Source: internal/runner/processgroup_unix.go:188-194 (unixProcessGroup.memberPIDs). *)
Definition memberPIDs (pg : unixProcessGroup) : list string := pg_members pg.

(** Source: internal/runner/processgroup_unix.go:196-205 (unixProcessGroup.failureReason). *)
Definition failureReason (pg : unixProcessGroup) : string := default "" (pg_probeErr pg).

(** Source: internal/runner/processgroup_unix.go:207-215 (unixProcessGroup.Identify). *)
Definition Identify (pg : unixProcessGroup) : string :=
  if (pg_pgid pg <=? 1)%Z then "unknown" else identifyPID (pg_pgid pg).

(** Source: internal/runner/processgroup_unix.go:217-223 (unixProcessGroup.Close). *)
Definition Close (pg : unixProcessGroup) : unixProcessGroup := set_pg_pgid 0 pg.

(** Source: internal/runner/processgroup_unix.go:109-122 (unixProcessGroup.Seal). *)
Definition Seal (pids : option (list Z)) (alive : bool) (pg : unixProcessGroup) : SealObservation * unixProcessGroup :=
  let '(state, pg) := State pids alive (Withdraw pg) in
  (mkSeal state (Identify pg) (memberPIDs pg) (failureReason pg), Close pg).

(** Source: internal/runner/processgroup_unix.go:258-266 (unixProcessGroup.numericID). *)
Definition numericID (pg : unixProcessGroup) : Z := if (pg_pgid pg <=? 1)%Z then 0%Z else pg_pgid pg.

(** What a report outside a seal is made of.
    Source: internal/runner/lifecycle.go:970-979 (groupResult). *)
Definition observe_group (pids : option (list Z)) (alive : bool) (pg : unixProcessGroup) : observation * unixProcessGroup :=
  let '(state, pg) := State pids alive pg in
  (mkObservation state (numericID pg) (Identify pg) (memberPIDs pg) (failureReason pg), pg).

(** ** The exit of a leader *)

(** Source: internal/runner/exitwatch.go:18-43 (exitObservation). *)
Inductive exitObservation : Type := exitPending | exitObserved | exitOwnershipLost | exitUnsupported.

#[export] Instance exitObservation_eq_dec : EqDecision exitObservation.
Proof. solve_decision. Defined.

(** Source: internal/runner/exitwatch.go:45-58 (exitObservation.String). *)
Definition exitObservation_String (o : exitObservation) : string :=
  match o with
  | exitPending => "not observed"
  | exitObserved => "leader exited and was not reaped"
  | exitOwnershipLost => "leader ownership could not be established"
  | exitUnsupported => "exit observation is not supported on this platform"
  end.

(** Source: internal/runner/exitwatch_unix.go:34-46 (signallingEstablished). *)
Definition signallingEstablished (o : exitObservation) (cancelled : bool) : bool :=
  match o with
  | exitOwnershipLost => false
  | exitUnsupported => cancelled
  | _ => cancelled || bool_decide (o = exitObserved)
  end.

(** The command that leads a group: [Collected] once its status has been
    reaped, after which its PID may be given to another process. *)
Inductive leader : Type := Running | Zombie | Collected.

#[export] Instance leader_eq_dec : EqDecision leader.
Proof. solve_decision. Defined.

(** How waitid(2) answers without waiting or collecting. *)
Inductive waited : Type := Interrupted | NoExitYet | Exited | WaitFailed (err : string).

(** What waitid(2) may answer about a leader; a leader that has been collected
    is no child any more. *)
Definition waitid_may (l : leader) (a : waited) : Prop :=
  match a with
  | Interrupted | WaitFailed _ => True
  | NoExitYet => l = Running
  | Exited => l = Zombie
  end.

(** The first answer that is not an interruption: whether the exit was seen,
    or the error.  [None] is a call still being retried.
    Source: internal/runner/exitwait_unix.go:43-66 (reapFreeObserver.probe). *)
Fixpoint probe (answers : list waited) : option (res string bool) :=
  match answers with
  | [] => None
  | Interrupted :: answers => probe answers
  | NoExitYet :: _ => Some (Ok false)
  | Exited :: _ => Some (Ok true)
  | WaitFailed err :: _ => Some (Err err)
  end.

(** One tick of the observer: its result, or [None] to go on ticking.
    Source: internal/runner/exitwait_unix.go:80-97 (reapFreeObserver.Observe, tick). *)
Definition tick (answers : list waited) : option (option exitObservation) :=
  match probe answers with
  | None => None
  | Some (Err _) => Some (Some exitOwnershipLost)
  | Some (Ok true) => Some (Some exitObserved)
  | Some (Ok false) => Some None
  end.

(** A turn of the observer's loop. *)
Inductive observer_turn : Type := Stopped | Ticked (answers : list waited).

(** [None] is an observer still waiting when the turns end.
    Source: internal/runner/exitwait_unix.go:68-100 (reapFreeObserver.Observe). *)
Fixpoint Observe (sawExit : bool) (turns : list observer_turn) : option exitObservation :=
  if sawExit then Some exitObserved
  else match turns with
       | [] => None
       | Stopped :: _ => Some exitPending
       | Ticked answers :: turns =>
           match tick answers with
           | None => None
           | Some (Some o) => Some o
           | Some None => Observe false turns
           end
       end.

(** ** One execution *)

(** Whose deadline hands the execution off: none, the run's, or its own
    (a check and a teardown process have a deadline of their own). *)
Inductive handoff_kind : Type := NoHandoff | RunHandoff | OwnHandoff.

#[export] Instance handoff_kind_eq_dec : EqDecision handoff_kind.
Proof. solve_decision. Defined.

(** The one wait on the command, and whether its result has been published.
    Source: internal/runner/processgroup.go:279-326 (singleReap). *)
Inductive singleReap : Type := ReapNone | ReapStarted | ReapDone.

#[export] Instance singleReap_eq_dec : EqDecision singleReap.
Proof. solve_decision. Defined.

(** Source: internal/runner/processgroup.go:309-312 (singleReap.started). *)
Definition started (r : singleReap) : bool := negb (bool_decide (r = ReapNone)).
(** Source: internal/runner/processgroup.go:314-326 (singleReap.taken). *)
Definition taken (r : singleReap) : bool := bool_decide (r = ReapDone).

(** Where [exec] stands, from the release of the lifecycle lock on.  The
    observation a state carries is the variable of the code. *)
Inductive pc : Type :=
  | Observing                          (** setting up the observation of the exit *)
  | Refusing (reserved : bool)         (** it failed *)
  | RefusedKill | RefusedDrain | RefusedWithdraw | RefusedReap | RefusedWait | RefusedSettle
  | Watching                           (** the command runs *)
  | Ended (cancelled : bool) (o : exitObservation)
  | Asking (o : exitObservation)       (** [terminateGroup], and its calls *)
  | AskTerm (o : exitObservation) | AskWait (o : exitObservation)
  | AskKill (o : exitObservation) | AskSettle (o : exitObservation)
  | Joining (o : exitObservation)      (** joining the observer *)
  | Draining                           (** joining the log readers *)
  | Leaving | Reaping | Collecting | Settling
  | HandingOff                         (** [finishHandoff] *)
  | Untracked                          (** the group could not be tracked *)
  | Returned (handedOff : bool).

(** The observer of the exit: what it has sent, and whether that was taken. *)
Inductive observer : Type := ObserverNone | ObserverWorks (sawExit : bool) | ObserverSent (o : exitObservation) | ObserverTaken.

Record execution : Type := mkExecution {
  ex_name : string;
  ex_pid : Z;
  ex_kind : handoff_kind;
  ex_teardown : bool;
  ex_pc : pc;
  ex_pg : unixProcessGroup;
  ex_leader : leader;
  ex_reap : singleReap;
  ex_cancelled : bool;                   (** its context is done *)
  ex_closed : bool;                      (** its own deadline has handed it off *)
  ex_stop : bool;                        (** the observer has been told to stop *)
  ex_observer : observer;
}.

(** Field updates. *)
Definition with_pc (v : pc) (x : execution) : execution :=
  mkExecution (ex_name x) (ex_pid x) (ex_kind x) (ex_teardown x) v (ex_pg x) (ex_leader x) (ex_reap x) (ex_cancelled x) (ex_closed x) (ex_stop x) (ex_observer x).
Definition with_pg (v : unixProcessGroup) (x : execution) : execution :=
  mkExecution (ex_name x) (ex_pid x) (ex_kind x) (ex_teardown x) (ex_pc x) v (ex_leader x) (ex_reap x) (ex_cancelled x) (ex_closed x) (ex_stop x) (ex_observer x).
Definition with_leader (v : leader) (x : execution) : execution :=
  mkExecution (ex_name x) (ex_pid x) (ex_kind x) (ex_teardown x) (ex_pc x) (ex_pg x) v (ex_reap x) (ex_cancelled x) (ex_closed x) (ex_stop x) (ex_observer x).
Definition with_reap (v : singleReap) (x : execution) : execution :=
  mkExecution (ex_name x) (ex_pid x) (ex_kind x) (ex_teardown x) (ex_pc x) (ex_pg x) (ex_leader x) v (ex_cancelled x) (ex_closed x) (ex_stop x) (ex_observer x).
Definition with_cancelled (v : bool) (x : execution) : execution :=
  mkExecution (ex_name x) (ex_pid x) (ex_kind x) (ex_teardown x) (ex_pc x) (ex_pg x) (ex_leader x) (ex_reap x) v (ex_closed x) (ex_stop x) (ex_observer x).
Definition with_closed (v : bool) (x : execution) : execution :=
  mkExecution (ex_name x) (ex_pid x) (ex_kind x) (ex_teardown x) (ex_pc x) (ex_pg x) (ex_leader x) (ex_reap x) (ex_cancelled x) v (ex_stop x) (ex_observer x).
Definition with_stop (v : bool) (x : execution) : execution :=
  mkExecution (ex_name x) (ex_pid x) (ex_kind x) (ex_teardown x) (ex_pc x) (ex_pg x) (ex_leader x) (ex_reap x) (ex_cancelled x) (ex_closed x) v (ex_observer x).
Definition with_observer (v : observer) (x : execution) : execution :=
  mkExecution (ex_name x) (ex_pid x) (ex_kind x) (ex_teardown x) (ex_pc x) (ex_pg x) (ex_leader x) (ex_reap x) (ex_cancelled x) (ex_closed x) (ex_stop x) v.

(** What happens to the group of an execution. *)
Inductive event : Type :=
  | Signalled (s : sig) (target : Z) (l : leader) (closed : bool)
  | SawEmpty
  | Unestablished.

Definition handed_off (run_handoff : bool) (x : execution) : bool :=
  match ex_kind x with NoHandoff => false | RunHandoff => run_handoff | OwnHandoff => ex_closed x end.

(** A signal to the group of [x]: nothing when it is refused. *)
Definition sends (s : sig) (x : execution) : list event :=
  match (signal KillOK (ex_pg x)).1 with
  | Some target => [Signalled s target (ex_leader x) (ex_closed x)]
  | None => []
  end.

(** A look at the group: the event when its members were enumerated and there
    are none. *)
Definition sees (pids : option (list Z)) (pg : unixProcessGroup) : list event :=
  if (1 <? pg_pgid pg)%Z && bool_decide (pg_trackErr pg = None) && bool_decide (pids = Some []) then [SawEmpty] else [].

Definition goto (l : pc) (x : execution) : execution := with_pc l x.
Definition start_reap (x : execution) : execution :=
  if started (ex_reap x) then x else with_reap ReapStarted x.

(** [looks x x' st evs]: [x] asks its group for its state. *)
Definition looks (x x' : execution) (st : GroupState) (evs : list event) : Prop := ∃ pids alive,
  State pids alive (ex_pg x) = (st, ex_pg x') ∧ x' = with_pg (ex_pg x') x ∧ evs = sees pids (ex_pg x).

(** One turn of the wait for a group to drain: [true] when it has.  Without an
    answer the wait goes on.
    Source: internal/runner/exitwatch.go:116-135 (waitWhileLive). *)
Inductive waitWhileLive (x : execution) : execution → list event → option bool → Prop :=
  | wait_drained x' evs : looks x x' GroupEmpty evs → waitWhileLive x x' evs (Some true)
  | wait_spent x' st evs : looks x x' st evs → st ≠ GroupEmpty → waitWhileLive x x' evs (Some false)
  | wait_more x' st evs : looks x x' st evs → st ≠ GroupEmpty → waitWhileLive x x' evs None.

(** The observation of the exit cannot be set up: the launch fails.
    [reserved] is [leaderStillReserved].
    Source: internal/runner/lifecycle.go:650-693 (exec, unobserved). *)
Inductive unobserved (h : bool) (x : execution) : list event → execution → Prop :=
  | ob_set_up answers sawExit : ex_pc x = Observing → Forall (waitid_may (ex_leader x)) answers → probe answers = Some (Ok sawExit) →
      unobserved h x [] (goto Watching (with_observer (ObserverWorks sawExit) x))
  | ob_failed reserved : ex_pc x = Observing → unobserved h x [] (goto (Refusing reserved) x)
  | ob_not_ours : ex_pc x = Refusing false → unobserved h x [Unestablished] (goto RefusedWithdraw x)
  | ob_empty x' evs : ex_pc x = Refusing true → looks x x' GroupEmpty evs → unobserved h x evs (goto RefusedWithdraw x')
  | ob_alive x' st evs : ex_pc x = Refusing true → looks x x' st evs → st ≠ GroupEmpty → unobserved h x evs (goto RefusedKill x')
  | ob_kill : ex_pc x = RefusedKill → unobserved h x (sends SIGKILL x) (goto RefusedDrain x)
  | ob_drain x' evs r : ex_pc x = RefusedDrain → waitWhileLive x x' evs r →
      unobserved h x evs (goto (if r then RefusedWithdraw else RefusedDrain) x')
  | ob_withdraw : ex_pc x = RefusedWithdraw → unobserved h x [] (goto RefusedReap (with_pg (Withdraw (ex_pg x)) x))
  | ob_reap : ex_pc x = RefusedReap → unobserved h x [] (goto RefusedWait (start_reap x))
  | ob_reaped : ex_pc x = RefusedWait → taken (ex_reap x) = true → unobserved h x [] (goto RefusedSettle x)
  | ob_handoff : ex_pc x = RefusedWait → handed_off h x = true → unobserved h x [] (goto (Returned true) x).

(** The wait for the exit, for the end of the context or for the handoff.
    Source: internal/runner/lifecycle.go:755-788 (exec, wait). *)
Inductive watch (h : bool) (x : execution) : list event → execution → Prop :=
  | w_handoff : ex_pc x = Watching → handed_off h x = true → watch h x [] (goto HandingOff x)
  | w_cancelled : ex_pc x = Watching → ex_cancelled x = true → watch h x [] (goto (Ended true exitPending) x)
  | w_exit o : ex_pc x = Watching → ex_observer x = ObserverSent o → watch h x [] (goto (Ended false o) (with_observer ObserverTaken x)).

(** The signals, sent while the leader is unreaped.
    Source: internal/runner/lifecycle.go:790-803 (exec, teardown). *)
Inductive teardown (x : execution) : list event → execution → Prop :=
  | td_established c o : ex_pc x = Ended c o → signallingEstablished o c = true → teardown x [] (goto (Asking o) x)
  | td_lost c o : ex_pc x = Ended c o → signallingEstablished o c = false → teardown x [Unestablished] (goto (Joining o) x).

(** Source: internal/runner/exitwatch_unix.go:48-75 (terminateGroup). *)
Inductive terminateGroup (x : execution) : list event → execution → Prop :=
  | tg_empty o x' evs : ex_pc x = Asking o → looks x x' GroupEmpty evs → terminateGroup x evs (goto (Joining o) x')
  | tg_alive o x' st evs : ex_pc x = Asking o → looks x x' st evs → st ≠ GroupEmpty → terminateGroup x evs (goto (AskTerm o) x')
  | tg_term o : ex_pc x = AskTerm o → terminateGroup x (sends SIGTERM x) (goto (AskWait o) x)
  | tg_wait o x' evs r : ex_pc x = AskWait o → waitWhileLive x x' evs r →
      terminateGroup x evs (goto (match r with Some true => Joining o | Some false => AskKill o | None => AskWait o end) x')
  | tg_kill o : ex_pc x = AskKill o → terminateGroup x (sends SIGKILL x) (goto (AskSettle o) x)
  | tg_settle o x' evs r : ex_pc x = AskSettle o → waitWhileLive x x' evs r →
      terminateGroup x evs (goto (if r then Joining o else AskSettle o) x').

(** Joining the observer, where the exit has not been observed, and then the
    log readers, which may be kept by a process outside the group.
    Source: internal/runner/lifecycle.go:805-852 (exec, joins). *)
Inductive join (h : bool) (x : execution) : list event → execution → Prop :=
  | j_observed o : ex_pc x = Joining o → o ≠ exitPending → join h x [] (goto Draining x)
  | j_stop : ex_pc x = Joining exitPending → ex_stop x = false → join h x [] (with_stop true x)
  | j_joined o : ex_pc x = Joining exitPending → ex_stop x = true → ex_observer x = ObserverSent o →
      join h x [] (goto Draining (with_observer ObserverTaken x))
  | j_spent : ex_pc x = Joining exitPending → ex_stop x = true → join h x [] (goto Draining x)
  | j_handoff : ex_pc x = Joining exitPending → ex_stop x = true → handed_off h x = true → join h x [] (goto HandingOff x)
  | j_drained : ex_pc x = Draining → join h x [] (goto Leaving x)
  | j_drain_handoff : ex_pc x = Draining → handed_off h x = true → join h x [] (goto HandingOff x).

(** Withdraw, then reap.
    Source: internal/runner/lifecycle.go:854-886 (exec, reap). *)
Inductive withdraw_and_reap (h : bool) (x : execution) : list event → execution → Prop :=
  | wr_withdraw : ex_pc x = Leaving → withdraw_and_reap h x [] (goto Reaping (with_pg (Withdraw (ex_pg x)) x))
  | wr_reap : ex_pc x = Reaping → withdraw_and_reap h x [] (goto Collecting (start_reap x))
  | wr_collected : ex_pc x = Collecting → taken (ex_reap x) = true → withdraw_and_reap h x [] (goto Settling x)
  | wr_handoff : ex_pc x = Collecting → handed_off h x = true → withdraw_and_reap h x [] (goto (Returned true) x).

(** Source: internal/runner/lifecycle.go:742-753 (exec, finishHandoff). *)
Inductive finishHandoff (x : execution) : list event → execution → Prop :=
  | fh_stop : ex_pc x = HandingOff → ex_stop x = false → finishHandoff x [] (with_stop true x)
  | fh_reap : ex_pc x = HandingOff → ex_stop x = true → (∀ saw, ex_observer x ≠ ObserverWorks saw) →
      finishHandoff x [] (goto (Returned true) (start_reap x)).

(** The wait of a launch whose group could not be tracked.
    Source: internal/runner/lifecycle.go:602-611 (exec, untracked). *)
Inductive untracked (h : bool) (x : execution) : list event → execution → Prop :=
  | ut_reaped : ex_pc x = Untracked → taken (ex_reap x) = true → untracked h x [] (goto (Returned false) x)
  | ut_handoff : ex_pc x = Untracked → handed_off h x = true → untracked h x [] (goto (Returned true) x).

(** The goroutine that waits for the command, and so collects it, and then
    publishes its status.
    Source: internal/runner/processgroup.go:295-307 (singleReap.start). *)
Inductive reaper (x : execution) : list event → execution → Prop :=
  | rp_collect : ex_reap x = ReapStarted → ex_leader x = Zombie → reaper x [] (with_leader Collected x)
  | rp_publish : ex_reap x = ReapStarted → ex_leader x = Collected → reaper x [] (with_reap ReapDone x).

(** The observer's goroutine.
    Source: internal/runner/lifecycle.go:724-729 (exec, observer). *)
Inductive observing (x : execution) : list event → execution → Prop :=
  | og_send saw turns o : ex_observer x = ObserverWorks saw → (Stopped ∈ turns → ex_stop x = true) →
      Forall (λ t, match t with Stopped => True | Ticked answers => Forall (waitid_may (ex_leader x)) answers end) turns →
      Observe saw turns = Some o → observing x [] (with_observer (ObserverSent o) x).

(** os/exec's watcher of the context calls [cmd.Cancel].
    Source: internal/runner/processgroup_unix.go:59-59 (unixProcessGroup.Setup, cancel). *)
Inductive watcher (x : execution) : list event → execution → Prop :=
  | wt_cancel : ex_cancelled x = true → watcher x (sends SIGTERM x) x.

(** An execution with a deadline of its own is handed off at it, or with the
    run.
    Source: internal/runner/check.go:132-153 (RunCheck, handoff). *)
Inductive own_deadline (run_closed : bool) (x : execution) : list event → execution → Prop :=
  | od_close : ex_kind x = OwnHandoff → ex_cancelled x = true ∨ run_closed = true → own_deadline run_closed x [] (with_closed true x).

(** The command exits; its context ends. *)
Inductive outside (x : execution) : list event → execution → Prop :=
  | os_exit : ex_leader x = Running → outside x [] (with_leader Zombie x)
  | os_end : outside x [] (with_cancelled true x).

(** A step of an execution that concerns nothing else. *)
Inductive exec_step (h : bool) (x : execution) (evs : list event) (x' : execution) : Prop :=
  | es_unobserved : unobserved h x evs x' → exec_step h x evs x'
  | es_watch : watch h x evs x' → exec_step h x evs x'
  | es_teardown : teardown x evs x' → exec_step h x evs x'
  | es_terminate : terminateGroup x evs x' → exec_step h x evs x'
  | es_join : join h x evs x' → exec_step h x evs x'
  | es_reap : withdraw_and_reap h x evs x' → exec_step h x evs x'
  | es_handoff : finishHandoff x evs x' → exec_step h x evs x'
  | es_untracked : untracked h x evs x' → exec_step h x evs x'
  | es_reaper : reaper x evs x' → exec_step h x evs x'
  | es_observing : observing x evs x' → exec_step h x evs x'
  | es_watcher : watcher x evs x' → exec_step h x evs x'
  | es_deadline : own_deadline h x evs x' → exec_step h x evs x'
  | es_outside : outside x evs x' → exec_step h x evs x'.

(** ** One run *)

(** Where the terminal sweep goes on when it has sealed every group, and where
    it stands with the first group it has taken. *)
Inductive after_sealing : Type := HandOffNext | FinishNext | TeardownNext.
Inductive sealing_stage : Type := SealLook | SealKill | SealDrain | SealSeal.

(** The goroutine of [Run]. *)
Inductive run_pc : Type :=
  | RunWorking                                (** waiting for the workers, or for the cleanup deadline *)
  | RunSealing (next : after_sealing) (todo : list nat) (stage : sealing_stage)
  | RunDraining                               (** handed off, waiting for the workers *)
  | RunSwept
  | RunTeardown
  | RunEnded.

Record system : Type := mkSystem {
  y_execs : gmap nat execution;
  y_groups : gmap string nat;    (** the registry *)
  y_stopping : bool;
  y_sealing : bool;
  y_teardownOpen : bool;
  y_handoff : bool;              (** the run's handoff is closed *)
  y_run : run_pc;
  y_cancelled : bool;            (** the run's context is done *)
  y_forced : list nat;           (** the groups forced shutdowns still have to kill *)
  y_trace : list (nat * event);
}.

(** Field updates. *)
Definition upd_execs (v : gmap nat execution) (y : system) : system :=
  mkSystem v (y_groups y) (y_stopping y) (y_sealing y) (y_teardownOpen y) (y_handoff y) (y_run y) (y_cancelled y) (y_forced y) (y_trace y).
Definition upd_groups (v : gmap string nat) (y : system) : system :=
  mkSystem (y_execs y) v (y_stopping y) (y_sealing y) (y_teardownOpen y) (y_handoff y) (y_run y) (y_cancelled y) (y_forced y) (y_trace y).
Definition upd_stopping (v : bool) (y : system) : system :=
  mkSystem (y_execs y) (y_groups y) v (y_sealing y) (y_teardownOpen y) (y_handoff y) (y_run y) (y_cancelled y) (y_forced y) (y_trace y).
Definition upd_sealing (v : bool) (y : system) : system :=
  mkSystem (y_execs y) (y_groups y) (y_stopping y) v (y_teardownOpen y) (y_handoff y) (y_run y) (y_cancelled y) (y_forced y) (y_trace y).
Definition upd_teardownOpen (v : bool) (y : system) : system :=
  mkSystem (y_execs y) (y_groups y) (y_stopping y) (y_sealing y) v (y_handoff y) (y_run y) (y_cancelled y) (y_forced y) (y_trace y).
Definition upd_handoff (v : bool) (y : system) : system :=
  mkSystem (y_execs y) (y_groups y) (y_stopping y) (y_sealing y) (y_teardownOpen y) v (y_run y) (y_cancelled y) (y_forced y) (y_trace y).
Definition upd_run (v : run_pc) (y : system) : system :=
  mkSystem (y_execs y) (y_groups y) (y_stopping y) (y_sealing y) (y_teardownOpen y) (y_handoff y) v (y_cancelled y) (y_forced y) (y_trace y).
Definition upd_cancelled (v : bool) (y : system) : system :=
  mkSystem (y_execs y) (y_groups y) (y_stopping y) (y_sealing y) (y_teardownOpen y) (y_handoff y) (y_run y) v (y_forced y) (y_trace y).
Definition upd_forced (v : list nat) (y : system) : system :=
  mkSystem (y_execs y) (y_groups y) (y_stopping y) (y_sealing y) (y_teardownOpen y) (y_handoff y) (y_run y) (y_cancelled y) v (y_trace y).
Definition upd_trace (v : list (nat * event)) (y : system) : system :=
  mkSystem (y_execs y) (y_groups y) (y_stopping y) (y_sealing y) (y_teardownOpen y) (y_handoff y) (y_run y) (y_cancelled y) (y_forced y) v.

Definition init : system := mkSystem ∅ ∅ false false false false RunWorking false [] [].

Definition put (e : nat) (x : execution) (evs : list event) (y : system) : system :=
  upd_trace (y_trace y ++ (pair e <$> evs)) (upd_execs (<[e := x]> (y_execs y)) y).

(** A started command, tracked as the group of its PID.
    Source: internal/runner/lifecycle.go:613-620 (exec, registration). *)
Definition launched (name : string) (kind : handoff_kind) (is_teardown : bool) (pid : Z) : execution :=
  mkExecution name pid kind is_teardown Observing (set_pg_pgid pid newProcessGroup) Running ReapNone false false false ObserverNone.

(** One whose group could not be tracked: killed by its handle, sealed, and
    waited for.
    Source: internal/runner/lifecycle.go:584-601 (exec, track failure). *)
Definition launched_untracked (name : string) (kind : handoff_kind) (is_teardown : bool) (pid : Z)
    (pids : option (list Z)) (alive : bool) : execution :=
  let x := launched name kind is_teardown pid in
  start_reap (with_pc Untracked (with_pg (Seal pids alive newProcessGroup).2 x)).

(** Source: internal/runner/lifecycle.go:555-555 (exec, admission). *)
Definition admitted (is_teardown : bool) (y : system) : bool := negb (y_stopping y) || (is_teardown && y_teardownOpen y).

(** The group that is registered under the name is released.
    Source: internal/runner/lifecycle.go:1010-1033 (trackGroup). *)
Definition track_group (name : string) (e : nat) (y : system) : system :=
  let y' := upd_groups (<[name := e]> (y_groups y)) y in
  match y_groups y !! name with
  | None => y'
  | Some prev => upd_execs (alter (λ x, with_pg (Close (ex_pg x)) x) prev (y_execs y')) y'
  end.

(** Source: internal/runner/lifecycle.go:1035-1044 (untrackGroup). *)
Definition untrack_group (name : string) (e : nat) (y : system) : system :=
  if bool_decide (y_groups y !! name = Some e) then upd_groups (delete name (y_groups y)) y else y.

(** The groups the sweep takes, in the order of their names.
    Source: internal/runner/lifecycle.go:1324-1337 (sealGroups, take). *)
Definition taken_groups (y : system) : list nat := omap (y_groups y !!.) (sort_strings (keys (y_groups y))).

(** Source: internal/runner/lifecycle.go:1324-1337 (sealGroups, take). *)
Definition take_groups (next : after_sealing) (y : system) : system :=
  upd_run (RunSealing next (taken_groups y) SealLook) (upd_groups ∅ (upd_sealing true (upd_stopping true y))).

(** Every worker has returned. *)
Definition quiescent (y : system) : Prop := ∀ e x, y_execs y !! e = Some x → ∃ b, ex_pc x = Returned b.

(** One worker launches the commands of a name, one after the other, and stops
    at a handoff; a check and a teardown process use theirs once. *)
Definition name_free (name : string) (y : system) : Prop :=
  ∀ e x, y_execs y !! e = Some x → ex_name x = name → ex_pc x = Returned false.

(** Launches, under the lifecycle lock; and the verification that ends an
    execution, under the same lock.
    Source: internal/runner/lifecycle.go:554-620 (exec, launch). *)
Inductive launching (y : system) : system → Prop :=
  | ln_started e name kind is_teardown pid : y_execs y !! e = None → name_free name y → admitted is_teardown y = true → (1 < pid)%Z →
      (is_teardown = true → kind = OwnHandoff) →
      launching y (put e (launched name kind is_teardown pid) [] (track_group name e y))
  | ln_untracked e name kind is_teardown pid pids alive : y_execs y !! e = None → name_free name y → admitted is_teardown y = true → (1 < pid)%Z →
      (is_teardown = true → kind = OwnHandoff) →
      launching y (put e (launched_untracked name kind is_teardown pid pids alive) [Unestablished] y).

(** The group a sweep has taken is the sweep's to report, except that of a
    teardown process.
    Source: internal/runner/lifecycle.go:898-930 (exec, verification). *)
Inductive settling (y : system) : system → Prop :=
  | st_handoff e x l : y_execs y !! e = Some x → ex_pc x = l → l = Settling ∨ l = RefusedSettle →
      ex_kind x ≠ NoHandoff → y_sealing y = true → ex_teardown x = false →
      settling y (put e (goto (Returned true) x) [] y)
  | st_survivor e x x' st evs l : y_execs y !! e = Some x → ex_pc x = l → l = Settling ∨ l = RefusedSettle →
      (ex_kind x = NoHandoff ∨ y_sealing y = false ∨ ex_teardown x = true) → looks x x' st evs → st ≠ GroupEmpty →
      settling y (put e (goto (Returned false) x') evs y)
  | st_empty e x x' evs l : y_execs y !! e = Some x → ex_pc x = l → l = Settling ∨ l = RefusedSettle →
      (ex_kind x = NoHandoff ∨ y_sealing y = false ∨ ex_teardown x = true) → looks x x' GroupEmpty evs →
      settling y (put e (goto (Returned false) (with_pg (Close (ex_pg x')) x')) evs (untrack_group (ex_name x) e y)).

(** The terminal sweep ends what is left of each group it has taken, and seals
    it.
    Source: internal/runner/lifecycle.go:1289-1358 (sealGroups). *)
Inductive sealing (y : system) : system → Prop :=
  | sl_empty next e todo x x' evs : y_run y = RunSealing next (e :: todo) SealLook → y_execs y !! e = Some x → looks x x' GroupEmpty evs →
      sealing y (put e x' evs (upd_run (RunSealing next (e :: todo) SealSeal) y))
  | sl_alive next e todo x x' st evs : y_run y = RunSealing next (e :: todo) SealLook → y_execs y !! e = Some x → looks x x' st evs →
      st ≠ GroupEmpty → sealing y (put e x' evs (upd_run (RunSealing next (e :: todo) SealKill) y))
  | sl_kill next e todo x : y_run y = RunSealing next (e :: todo) SealKill → y_execs y !! e = Some x →
      sealing y (put e x (sends SIGKILL x) (upd_run (RunSealing next (e :: todo) SealDrain) y))
  | sl_drain next e todo x x' evs r : y_run y = RunSealing next (e :: todo) SealDrain → y_execs y !! e = Some x → waitWhileLive x x' evs r →
      sealing y (put e x' evs (upd_run (RunSealing next (e :: todo) (if r then SealSeal else SealDrain)) y))
  | sl_seal next e todo x pids alive : y_run y = RunSealing next (e :: todo) SealSeal → y_execs y !! e = Some x →
      sealing y (put e (with_pg (Seal pids alive (ex_pg x)).2 x) (sees pids (ex_pg x))
                     (upd_run (RunSealing next todo SealLook) y)).

(** What [Run] does while its workers run and after.
    Source: internal/runner/runner.go:427-467 (Run, cleanup). *)
Inductive running (y : system) : system → Prop :=
  | rn_handoff : y_run y = RunWorking → y_cancelled y = true → running y (take_groups HandOffNext y)
  | rn_quiet : y_run y = RunWorking → quiescent y → y_cancelled y = false → running y (upd_run RunSwept y)
  | rn_sweep : y_run y = RunWorking → quiescent y → y_cancelled y = true → running y (take_groups FinishNext y)
  | rn_release stage : y_run y = RunSealing HandOffNext [] stage → running y (upd_run RunDraining (upd_handoff true y))
  | rn_drained : y_run y = RunDraining → quiescent y → running y (upd_run RunEnded y)
  | rn_swept stage : y_run y = RunSealing FinishNext [] stage → running y (upd_run RunSwept y)
  | rn_skip : y_run y = RunSwept → running y (upd_run RunEnded y).

(** The teardown processes run after the sweep, and their groups are sealed.
    Source: internal/runner/teardown.go:102-142 (runTeardown). *)
Inductive tearing_down (y : system) : system → Prop :=
  | tr_open : y_run y = RunSwept → tearing_down y (upd_run RunTeardown (upd_teardownOpen true (upd_stopping true y)))
  | tr_seal : y_run y = RunTeardown → quiescent y → tearing_down y (take_groups TeardownNext (upd_teardownOpen false y))
  | tr_done stage : y_run y = RunSealing TeardownNext [] stage → tearing_down y (upd_run RunEnded y).

(** A request to stop: admission closes, and with force every registered group
    is to be killed; the run's context may end at any time.
    Source: internal/runner/lifecycle.go:1444-1466 (Shutdown). *)
Inductive shutting_down (y : system) : system → Prop :=
  | sh_request force snapshot : (∀ e, e ∈ snapshot → ∃ name, y_groups y !! name = Some e) →
      shutting_down y (upd_forced ((if force : bool then snapshot else []) ++ y_forced y) (upd_stopping true y))
  | sh_kill e l l' x : y_forced y = l ++ e :: l' → y_execs y !! e = Some x →
      shutting_down y (put e x (sends SIGKILL x) (upd_forced (l ++ l') y))
  | sh_cancel : shutting_down y (upd_cancelled true y).

Inductive step (y y' : system) : Prop :=
  | sp_exec e x x' evs : y_execs y !! e = Some x → exec_step (y_handoff y) x evs x' → y' = put e x' evs y → step y y'
  | sp_launching : launching y y' → step y y'
  | sp_settling : settling y y' → step y y'
  | sp_sealing : sealing y y' → step y y'
  | sp_running : running y y' → step y y'
  | sp_tearing_down : tearing_down y y' → step y y'
  | sp_shutting_down : shutting_down y y' → step y y'.

Definition reachable (y : system) : Prop := rtc step init y.
