(* ===== verification/Ownership.v ===== *)
(** * Who may signal a process group: what is shown

    No signal follows the reap of a command, and no group is let go before it
    has been ended, in every interleaving of a run of [Reaping], by induction on
    its steps: an invariant of each execution, which its own steps preserve
    whatever the others do, and one of the run, which the sweep and the handoff
    rely on. *)

From stdpp Require Import relations.
From S2P Require Import Prelude GoStrings ConfigTypes Groups Reaping.

(** ** The invariant of an execution *)

(** The states of [exec] after its call of [Withdraw], and those after it has
    ended its group or seen it empty. *)
Definition past_withdrawal (l : pc) : bool :=
  match l with
  | RefusedReap | RefusedWait | RefusedSettle | Reaping | Collecting | Settling | Untracked | Returned false => true
  | _ => false
  end.
Definition past_ending (l : pc) : bool :=
  match l with
  | RefusedDrain | RefusedWithdraw | AskSettle _ | Joining _ | Draining | Leaving => true
  | _ => past_withdrawal l
  end.

(** The group was killed, or seen empty, or could not be vouched for, which is
    reported. *)
Definition ends (ev : event) : bool :=
  match ev with Signalled SIGKILL _ _ _ | SawEmpty | Unestablished => true | Signalled SIGTERM _ _ _ => false end.
Definition ended (t : list (nat * event)) (e : nat) : Prop := ∃ ev, (e, ev) ∈ t ∧ ends ev = true.

Definition withdrawn (x : execution) : bool := pg_withdrawn (ex_pg x).

(** An event of the trace is about the execution's own group, and a signal was
    sent while the leader was not collected; only an execution handed off by a
    deadline of its own is excepted. *)
Definition event_ok (x : execution) (ev : event) : Prop :=
  match ev with
  | Signalled _ target l closed => target = (- ex_pid x)%Z ∧ (l = Collected → ex_kind x = OwnHandoff ∧ closed = true)
  | _ => True
  end.

Record exec_ok (h : bool) (t : list (nat * event)) (e : nat) (x : execution) : Prop := {
  eo_track : pg_trackErr (ex_pg x) = None;
  eo_pid : (1 < ex_pid x)%Z;
  eo_pgid : pg_pgid (ex_pg x) = ex_pid x ∨ withdrawn x = true;
  eo_target : pg_pgid (ex_pg x) = ex_pid x ∨ pg_pgid (ex_pg x) = 0%Z;
  eo_collected : ex_leader x = Collected → started (ex_reap x) = true;
  eo_started : started (ex_reap x) = true → withdrawn x = true ∨ handed_off h x = true;
  eo_past : past_withdrawal (ex_pc x) = true → withdrawn x = true;
  eo_handing : ex_pc x = HandingOff ∨ ex_pc x = Returned true → withdrawn x = true ∨ handed_off h x = true;
  eo_ending : past_ending (ex_pc x) = true → withdrawn x = true ∨ ended t e;
  eo_ended : withdrawn x = true → ended t e;
  eo_events : ∀ ev, (e, ev) ∈ t → event_ok x ev;
}.

(** What an execution keeps. *)
Definition same_execution (x x' : execution) : Prop :=
  ex_name x' = ex_name x ∧ ex_kind x' = ex_kind x ∧ ex_pid x' = ex_pid x ∧ ex_teardown x' = ex_teardown x ∧
  (withdrawn x = true → withdrawn x' = true).

Lemma ended_app t t' e : ended t e → ended (t ++ t') e.
Proof. intros (ev & H & He). exists ev. split; [apply elem_of_app; by left|done]. Qed.

Lemma ended_new t e evs ev : ev ∈ evs → ends ev = true → ended (t ++ (pair e <$> evs)) e.
Proof. intros H He. exists ev. split; [apply elem_of_app; right; by apply list_elem_of_fmap_2|done]. Qed.

Lemma State_spec pids alive pg : pg_trackErr pg = None →
  let r := State pids alive pg in
  pg_pgid r.2 = pg_pgid pg ∧ pg_withdrawn r.2 = pg_withdrawn pg ∧ pg_trackErr r.2 = None ∧
  (r.1 = GroupEmpty → (1 < pg_pgid pg)%Z → pids = Some []).
Proof.
  intros Ht. unfold State. rewrite Ht. destruct (pg_pgid pg <=? 1)%Z eqn:E; cbn.
  - apply Z.leb_le in E. split_and!; [done..|]. intros. lia.
  - destruct pids as [[|pid pids]|]; cbn; destruct alive; (split_and!; [done..|]); done.
Qed.

(** A look changes nothing but what was seen, and an empty group is one that
    has been released or whose emptiness is on the trace. *)
Lemma looks_spec x x' st evs : pg_trackErr (ex_pg x) = None → looks x x' st evs →
  ∃ pg, x' = with_pg pg x ∧ pg_pgid pg = pg_pgid (ex_pg x) ∧ pg_withdrawn pg = pg_withdrawn (ex_pg x) ∧ pg_trackErr pg = None ∧
    (evs = [] ∨ evs = [SawEmpty]) ∧ (st = GroupEmpty → (1 < pg_pgid (ex_pg x))%Z → evs = [SawEmpty]).
Proof.
  intros Ht (pids & alive & HS & Hx & ->). exists (ex_pg x'). destruct (State_spec pids alive (ex_pg x) Ht) as (H1 & H2 & H3 & H4).
  rewrite HS in *. cbn in *. split_and!; [done..| |].
  - unfold sees. destruct (_ && _ && _); [by right|by left].
  - intros -> Hp. unfold sees. rewrite Ht, (H4 eq_refl Hp), !bool_decide_true by done. apply Z.ltb_lt in Hp. by rewrite Hp.
Qed.

Lemma sends_spec s x : sends s x = [] ∧ (withdrawn x = true ∨ (pg_pgid (ex_pg x) ≤ 1)%Z) ∨
  sends s x = [Signalled s (- pg_pgid (ex_pg x)) (ex_leader x) (ex_closed x)] ∧ withdrawn x = false ∧ (1 < pg_pgid (ex_pg x))%Z.
Proof.
  unfold sends, signal, withdrawn. destruct (pg_withdrawn (ex_pg x)); cbn; [left; by split; [|left]|].
  destruct (pg_pgid (ex_pg x) <=? 1)%Z eqn:E; cbn.
  - apply Z.leb_le in E. left. by split; [|right].
  - apply Z.leb_gt in E. by right.
Qed.

Lemma handed_off_mono h x x' : ex_kind x' = ex_kind x → (ex_closed x = true → ex_closed x' = true) →
  handed_off h x = true → handed_off h x' = true.
Proof. unfold handed_off. intros -> H. destruct (ex_kind x); auto. Qed.

(** More on the trace, about this execution or another. *)
Lemma exec_ok_grow h t e x evs : exec_ok h t e x → Forall (event_ok x) evs → exec_ok h (t ++ (pair e <$> evs)) e x.
Proof.
  intros [] Hevs. constructor; [done..| | |]; [intros H; destruct (eo_ending0 H); [by left|right; by apply ended_app]|..].
  - intros H. by apply ended_app, eo_ended0.
  - intros ev [H|H]%elem_of_app; [auto|]. apply list_elem_of_fmap in H as (ev' & [= ->] & H). rewrite Forall_forall in Hevs. auto.
Qed.

Lemma exec_ok_other h t e e' x evs : e' ≠ e → exec_ok h t e' x → exec_ok h (t ++ (pair e <$> evs)) e' x.
Proof.
  intros Hne []. constructor; [done..| | |]; [intros H; destruct (eo_ending0 H); [by left|right; by apply ended_app]|..].
  - intros H. by apply ended_app, eo_ended0.
  - intros ev [H|H]%elem_of_app; [auto|]. by apply list_elem_of_fmap in H as (ev' & [= -> ->] & H).
Qed.

(** A step that leaves the group alone. *)
Lemma exec_ok_move h t e x x' : exec_ok h t e x →
  ex_pg x' = ex_pg x → ex_pid x' = ex_pid x → ex_kind x' = ex_kind x → (ex_closed x = true → ex_closed x' = true) →
  (ex_leader x' = Collected → started (ex_reap x') = true) →
  (started (ex_reap x') = true → started (ex_reap x) = true ∨ withdrawn x = true ∨ handed_off h x = true) →
  (past_withdrawal (ex_pc x') = true → withdrawn x = true) →
  (ex_pc x' = HandingOff ∨ ex_pc x' = Returned true → withdrawn x = true ∨ handed_off h x = true) →
  (past_ending (ex_pc x') = true → withdrawn x = true ∨ ended t e) →
  exec_ok h t e x'.
Proof.
  intros Hok Hpg Hpid Hkind Hc Hl Hs Hp Hh He. pose proof (handed_off_mono h x x' Hkind Hc) as Hm.
  assert (withdrawn x' = withdrawn x) as Hw by (unfold withdrawn; by rewrite Hpg).
  destruct Hok. constructor; rewrite ?Hpg, ?Hpid, ?Hw; [done..|naive_solver|done|naive_solver|done|done|].
  intros ev Hev. specialize (eo_events0 ev Hev). unfold event_ok in *. by rewrite Hpid, Hkind.
Qed.

(** A look at the group. *)
Lemma exec_ok_pg h t e x pg : exec_ok h t e x → pg_pgid pg = pg_pgid (ex_pg x) → pg_withdrawn pg = pg_withdrawn (ex_pg x) →
  pg_trackErr pg = None → exec_ok h t e (with_pg pg x).
Proof. intros [] H1 H2 H3. constructor; unfold withdrawn in *; cbn; rewrite ?H1, ?H2, ?H3; try done; assumption. Qed.

Lemma looks_ok h t e x x' st evs : exec_ok h t e x → looks x x' st evs →
  exec_ok h (t ++ (pair e <$> evs)) e x' ∧ same_execution x x' ∧ ex_pc x' = ex_pc x ∧
  (st = GroupEmpty → withdrawn x = true ∨ ended (t ++ (pair e <$> evs)) e).
Proof.
  intros Hok Hl. destruct (looks_spec x x' st evs (eo_track _ _ _ _ Hok) Hl) as (pg & -> & H1 & H2 & H3 & H4 & H5). split_and!.
  - apply (exec_ok_grow _ _ _ (with_pg pg x)); [by apply exec_ok_pg|]. by destruct H4 as [->| ->]; repeat constructor.
  - unfold same_execution, withdrawn. cbn. by rewrite H2.
  - done.
  - intros ->. destruct (eo_pgid _ _ _ _ Hok) as [Hp|Hp]; [right|by left].
    rewrite H5 by (done || (rewrite Hp; apply (eo_pid _ _ _ _ Hok))). apply (ended_new _ _ _ SawEmpty); [by apply list_elem_of_singleton|done].
Qed.

Lemma withdraw_ok h t e x l : exec_ok h t e x → past_ending (ex_pc x) = true → past_withdrawal l = true →
  exec_ok h t e (goto l (with_pg (Withdraw (ex_pg x)) x)).
Proof.
  intros [] Hx Hl. assert (ended t e) as He by naive_solver.
  constructor; unfold withdrawn in *; cbn; auto. 
Qed.

Section exec.
Context (h : bool) (t : list (nat * event)) (e : nat) (x : execution).
Context (Hok : exec_ok h t e x) (Hrun : h = true → withdrawn x = true).

Lemma sends_ok s : exec_ok h (t ++ (pair e <$> sends s x)) e x ∧
  (s = SIGKILL → withdrawn x = true ∨ ended (t ++ (pair e <$> sends s x)) e).
Proof using Hok Hrun.
  destruct (sends_spec s x) as [[-> Hw]|(-> & Hw & Hp)].
  - split; [by apply exec_ok_grow|]. intros _. left. destruct Hw as [Hw|Hp]; [done|].
    destruct (eo_pgid _ _ _ _ Hok) as [H|H]; [|done]. pose proof (eo_pid _ _ _ _ Hok). lia.
  - split.
    + apply exec_ok_grow; [done|]. constructor; [|done]. cbn. destruct (eo_pgid _ _ _ _ Hok) as [->|?]; [|congruence]. split; [done|].
      intros Hl%(eo_collected _ _ _ _ Hok)%(eo_started _ _ _ _ Hok). destruct Hl as [?|Hl]; [congruence|]. unfold handed_off in Hl.
      destruct (ex_kind x); [done| |done]. apply Hrun in Hl. congruence.
    + intros ->. right. eapply ended_new; [by apply list_elem_of_singleton|done].
Qed.

End exec.

(** Closes the side conditions of [exec_ok_move] that do not depend on the
    state [exec] goes to. *)
Ltac move_from H := match type of H with exec_ok ?h ?t ?e ?x =>
  pose proof (eo_collected h t e x H); pose proof (eo_started h t e x H); pose proof (eo_past h t e x H);
  pose proof (eo_handing h t e x H); pose proof (eo_ending h t e x H);
  eapply exec_ok_move; [exact H|..]; cbn; first [done|assumption|tauto|by intros [?|?]|idtac]
  end.

Section exec_steps.
Context (h : bool) (t : list (nat * event)) (e : nat) (x : execution).
Context (Hok : exec_ok h t e x) (Hrun : h = true → withdrawn x = true).

Definition step_ok (evs : list event) (x' : execution) : Prop :=
  exec_ok h (t ++ (pair e <$> evs)) e x' ∧ same_execution x x'.

Lemma quiet_ok x' : exec_ok h t e x' → same_execution x x' → step_ok [] x'.
Proof. intros H1 H2. split; [|done]. by rewrite app_nil_r. Qed.

Lemma looks_step x' st evs l : looks x x' st evs → past_withdrawal l = false → l ≠ HandingOff → l ≠ Returned true →
  (past_ending l = true → past_ending (ex_pc x) = true ∨ st = GroupEmpty) → step_ok evs (goto l x').
Proof using Hok.
  intros Hl Hp Hh Hr He. destruct (looks_ok h t e x x' st evs Hok Hl) as (Hok' & Hsame & Hpc & Hempty). split.
  - move_from Hok'; [congruence|]. intros Hl'. destruct Hsame as (_ & _ & _ & _ & Hw).
    destruct (He Hl') as [Hx| ->]; [rewrite Hpc in *; auto|]. destruct (Hempty eq_refl); auto.
  - unfold same_execution in *. by destruct x'.
Qed.

Lemma wait_step x' evs r l l' : waitWhileLive x x' evs r → past_withdrawal l = false → past_withdrawal l' = false →
  l ≠ HandingOff → l ≠ Returned true → l' ≠ HandingOff → l' ≠ Returned true →
  (past_ending l' = true → past_ending (ex_pc x) = true) → step_ok evs (goto (match r with Some true => l | _ => l' end) x').
Proof using Hok. intros [? ? Hl|? st ? Hl ?|? st ? Hl ?] ???????; eapply looks_step; eauto. Qed.

Lemma sends_step s l : past_withdrawal l = false → l ≠ HandingOff → l ≠ Returned true →
  (past_ending l = true → past_ending (ex_pc x) = true ∨ s = SIGKILL) → step_ok (sends s x) (goto l x).
Proof using Hok Hrun.
  intros Hp Hh Hr He. destruct (sends_ok h t e x Hok Hrun s) as [Hok' Hkill]. split; [|by destruct x].
  move_from Hok'. congruence.
Qed.

(** A step that only goes from one state to another. *)
Lemma goto_ok l : (past_withdrawal l = true → past_withdrawal (ex_pc x) = true) →
  (l = HandingOff ∨ l = Returned true → handed_off h x = true ∨ ex_pc x = HandingOff) →
  (past_ending l = true → past_ending (ex_pc x) = true) → step_ok [] (goto l x).
Proof using Hok Hrun.
  intros Hp Hh He. apply quiet_ok; [|by destruct x]. move_from Hok.
Qed.

Lemma start_reap_ok l : past_withdrawal (ex_pc x) = true ∨ ex_pc x = HandingOff →
  l = Returned true ∨ past_withdrawal l = true ∧ past_withdrawal (ex_pc x) = true → step_ok [] (goto l (start_reap x)).
Proof using Hok Hrun.
  intros Hx Hl. assert (started (ex_reap (start_reap x)) = true) as Hs.
  { unfold start_reap. by destruct (started (ex_reap x)) eqn:E. }
  apply quiet_ok; [|unfold start_reap; by destruct (started (ex_reap x))].
  pose proof (eo_past h t e x Hok). pose proof (eo_handing h t e x Hok). pose proof (eo_ended h t e x Hok).
  assert (withdrawn x = true ∨ handed_off h x = true) by tauto.
  eapply (exec_ok_move h t e x); [done|..]; try (unfold start_reap; by destruct (started (ex_reap x))); cbn; try tauto.
  - destruct Hl as [->|[??]]; [done|tauto].
  - destruct Hl as [->|[??]]; [done|tauto].
Qed.

Lemma withdraw_step l : past_ending (ex_pc x) = true → past_withdrawal l = true → step_ok [] (goto l (with_pg (Withdraw (ex_pg x)) x)).
Proof using Hok Hrun. intros. apply quiet_ok; [by apply withdraw_ok|by destruct x]. Qed.

Lemma unestablished_ok l : past_withdrawal l = false → l ≠ HandingOff → l ≠ Returned true → step_ok [Unestablished] (goto l x).
Proof using Hok Hrun.
  intros Hp Hh Hr. split; [|by destruct x].
  assert (ended (t ++ (pair e <$> [Unestablished])) e) as He by (eapply ended_new; [by apply list_elem_of_singleton|done]).
  apply (exec_ok_grow h t e x [Unestablished]) in Hok as Hok'; [|by repeat constructor]. move_from Hok'. congruence.
Qed.

Ltac go E := first [apply goto_ok | apply start_reap_ok | apply withdraw_step]; rewrite ?E; cbn; try done; try tauto; try (by intros [|]).

Lemma unobserved_ok evs x' : unobserved h x evs x' → step_ok evs x'.
Proof using Hok Hrun.
  intros H. destruct H as [answers saw Hpc _ _|reserved Hpc|Hpc|x' evs Hpc Hl|x' st evs Hpc Hl Hst|Hpc|x' evs r Hpc Hw|Hpc|Hpc|Hpc _|Hpc Hh].
  - apply quiet_ok; [move_from Hok|by destruct x].
  - go Hpc.
  - by apply unestablished_ok.
  - eapply looks_step; eauto.
  - eapply looks_step; eauto; done.
  - apply sends_step; auto.
  - assert ((if r then RefusedWithdraw else RefusedDrain) = match r with Some true => RefusedWithdraw | Some false => RefusedWithdraw | None => RefusedDrain end) as -> by by destruct r as [[]|].
    destruct Hw as [? ? Hl|? st ? Hl ?|? st ? Hl ?]; eapply looks_step; eauto; rewrite Hpc; auto.
  - apply withdraw_step; by rewrite ?Hpc.
  - go Hpc.
  - go Hpc.
  - go Hpc.
Qed.

Lemma watch_ok evs x' : watch h x evs x' → step_ok evs x'.
Proof using Hok Hrun.
  intros H. destruct H as [Hpc Hh|Hpc _|o Hpc _].
  - go Hpc.
  - go Hpc.
  - apply quiet_ok; [move_from Hok|by destruct x].
Qed.

Lemma teardown_ok evs x' : teardown x evs x' → step_ok evs x'.
Proof using Hok Hrun. intros H. destruct H as [c o Hpc _|c o Hpc _]; [go Hpc|by apply unestablished_ok]. Qed.

Lemma terminateGroup_ok evs x' : terminateGroup x evs x' → step_ok evs x'.
Proof using Hok Hrun.
  intros H. destruct H as [o x' evs Hpc Hl|o x' st evs Hpc Hl Hst|o Hpc|o x' evs r Hpc Hw|o Hpc|o x' evs r Hpc Hw].
  - eapply looks_step; eauto; done.
  - eapply looks_step; eauto; done.
  - by apply sends_step.
  - destruct Hw as [? ? Hl|? st ? Hl ?|? st ? Hl ?]; eapply looks_step; eauto; done.
  - apply sends_step; auto; done.
  - destruct Hw as [? ? Hl|? st ? Hl ?|? st ? Hl ?]; eapply looks_step; eauto; rewrite ?Hpc; by auto.
Qed.

Lemma join_ok evs x' : join h x evs x' → step_ok evs x'.
Proof using Hok Hrun.
  intros H. destruct H as [o Hpc _|Hpc _|o Hpc _ _|Hpc _|Hpc _ Hh|Hpc|Hpc Hh]; try by go Hpc.
  - apply quiet_ok; [move_from Hok|by destruct x].
  - apply quiet_ok; [move_from Hok; rewrite Hpc in *; auto|by destruct x].
Qed.

Lemma withdraw_and_reap_ok evs x' : withdraw_and_reap h x evs x' → step_ok evs x'.
Proof using Hok Hrun. intros H. destruct H as [Hpc|Hpc|Hpc _|Hpc Hh]; by go Hpc. Qed.

Lemma finishHandoff_ok evs x' : finishHandoff x evs x' → step_ok evs x'.
Proof using Hok Hrun. intros H. destruct H as [Hpc _|Hpc _ _]; [apply quiet_ok; [move_from Hok|by destruct x]|by go Hpc]. Qed.

Lemma untracked_ok evs x' : untracked h x evs x' → step_ok evs x'.
Proof using Hok Hrun. intros H. destruct H as [Hpc _|Hpc Hh]; by go Hpc. Qed.

Lemma beside_ok evs x' : reaper x evs x' ∨ observing x evs x' ∨ own_deadline h x evs x' ∨ outside x evs x' → step_ok evs x'.
Proof using Hok Hrun.
  intros H. assert (evs = []) as -> by by destruct H as [[]|[[]|[[]|[]]]].
  apply quiet_ok; [|by destruct H as [[]|[[]|[[]|[]]]]; destruct x].
  destruct H as [[Hr Hl|Hr Hl]|[[]|[[]|[Hl|]]]]; move_from Hok; rewrite ?Hr; try done; intros; try congruence.
Qed.

Lemma watcher_ok evs x' : watcher x evs x' → step_ok evs x'.
Proof using Hok Hrun. intros H. destruct H as [_]. split; [by apply sends_ok|done]. Qed.

Lemma exec_step_ok evs x' : exec_step h x evs x' → step_ok evs x'.
Proof using Hok Hrun.
  intros []; eauto using unobserved_ok, watch_ok, teardown_ok, terminateGroup_ok, join_ok, withdraw_and_reap_ok, finishHandoff_ok, untracked_ok, watcher_ok.
  all: apply beside_ok; tauto.
Qed.

(** The sweep withdraws too, at a time of its own. *)
Lemma seal_ok pids alive : withdrawn x = true ∨ ended t e → step_ok (sees pids (ex_pg x)) (with_pg (Seal pids alive (ex_pg x)).2 x).
Proof using Hok Hrun.
  intros He. assert (ended t e) as Ht by (destruct He; [by apply (eo_ended h t e x)|done]).
  assert (Forall (event_ok x) (sees pids (ex_pg x))) as Hs by (unfold sees; case_match; by repeat constructor).
  destruct (State_spec pids alive (Withdraw (ex_pg x)) (eo_track h t e x Hok)) as (H1 & H2 & H3 & _).
  unfold Seal. destruct (State pids alive (Withdraw (ex_pg x))) as [st pg]. cbn [fst snd] in *. split.
  - apply (exec_ok_grow h t e (with_pg (Close pg) x)); [|by destruct x]. 
    destruct Hok. constructor; unfold withdrawn in *; cbn in *; auto.
  - unfold same_execution, withdrawn. cbn. by rewrite H2.
Qed.
End exec_steps.

(** ** The invariant of a run *)

Definition todo_of (l : run_pc) : list nat := match l with RunSealing _ todo _ => todo | _ => [] end.

(** No group is registered and none can be launched. *)
Definition shut (y : system) : Prop := y_groups y = ∅ ∧ y_stopping y = true ∧ y_teardownOpen y = false.

(** The sweep has ended the group, or seen it empty, before it seals it. *)
Definition stage_ok (t : list (nat * event)) (execs : gmap nat execution) (l : run_pc) : Prop :=
  match l with
  | RunSealing _ (e :: _) (SealDrain | SealSeal) => ∀ x, execs !! e = Some x → withdrawn x = true ∨ ended t e
  | _ => True
  end.

Record inv (y : system) : Prop := {
  iv_exec : ∀ e x, y_execs y !! e = Some x → exec_ok (y_handoff y) (y_trace y) e x;
  iv_trace : ∀ e ev, (e, ev) ∈ y_trace y → is_Some (y_execs y !! e);
  iv_handoff : y_handoff y = true → (∀ e x, y_execs y !! e = Some x → withdrawn x = true) ∧ shut y ∧ (y_run y = RunDraining ∨ y_run y = RunEnded);
  iv_registered : ∀ e x, y_execs y !! e = Some x → withdrawn x = false → y_groups y !! ex_name x = Some e ∨ e ∈ todo_of (y_run y);
  iv_named : ∀ name e, y_groups y !! name = Some e → ∃ x, y_execs y !! e = Some x ∧ ex_name x = name;
  iv_sealing : ∀ next todo stage, y_run y = RunSealing next todo stage → shut y;
  iv_stage : stage_ok (y_trace y) (y_execs y) (y_run y);
  iv_open : y_teardownOpen y = true → y_run y = RunTeardown;
}.

(** A step of one execution among the others, with a sweep that may go on. *)
Lemma inv_put y e x x' evs l : inv y → y_execs y !! e = Some x → step_ok (y_handoff y) (y_trace y) e x evs x' →
  (∀ e', e' ∈ todo_of (y_run y) → e' ∈ todo_of l ∨ e' = e ∧ withdrawn x' = true) →
  (y_handoff y = true ∨ y_teardownOpen y = true → l = y_run y) → (∀ next todo stage, l = RunSealing next todo stage → shut y) →
  stage_ok (y_trace y ++ (pair e <$> evs)) (<[e := x']> (y_execs y)) l →
  inv (put e x' evs (upd_run l y)).
Proof.
  intros Hi He [Hok (Hname & _ & _ & _ & Hw)] Htodo Hl Hsl Hst. constructor; cbn.
  - intros e' z Hz. destruct (decide (e' = e)) as [->|Hne].
    + rewrite lookup_insert_eq in Hz. by injection Hz as <-.
    + rewrite lookup_insert_ne in Hz by done. by apply exec_ok_other, (iv_exec y Hi).
  - intros e' ev [Hev|Hev]%elem_of_app.
    + rewrite lookup_insert_is_Some'. right. by apply (iv_trace y Hi e' ev).
    + apply list_elem_of_fmap in Hev as (? & [= -> ->] & _). rewrite lookup_insert_eq. by eexists.
  - intros Hh. destruct (iv_handoff y Hi Hh) as (H1 & H2 & H3). rewrite (Hl (or_introl Hh)). split_and!; [|done..]. intros e' z Hz.
    destruct (decide (e' = e)) as [->|Hne]; [rewrite lookup_insert_eq in Hz; injection Hz as <-; eauto|].
    rewrite lookup_insert_ne in Hz by done. eauto.
  - intros e' z Hz Hwz. destruct (decide (e' = e)) as [->|Hne].
    + rewrite lookup_insert_eq in Hz. injection Hz as <-. assert (withdrawn x = false) as Hx by (destruct (withdrawn x); naive_solver).
      destruct (iv_registered y Hi e x He Hx) as [?|Ht]; [left; congruence|]. destruct (Htodo _ Ht) as [?|[_ ?]]; [by right|congruence].
    + rewrite lookup_insert_ne in Hz by done. destruct (iv_registered y Hi e' z Hz Hwz) as [?|Ht]; [by left|].
      destruct (Htodo _ Ht) as [?|[-> _]]; [by right|done].
  - intros n e' Hn. destruct (iv_named y Hi n e' Hn) as (z & Hz & Hnz). destruct (decide (e' = e)) as [->|Hne].
    + exists x'. rewrite lookup_insert_eq. split; [done|]. congruence.
    + exists z. by rewrite lookup_insert_ne.
  - exact Hsl.
  - exact Hst.
  - intros Ho. rewrite (Hl (or_intror Ho)). by apply (iv_open y Hi).
Qed.

Lemma stage_ok_grow t t' execs e x x' l : execs !! e = Some x → (withdrawn x = true → withdrawn x' = true) →
  stage_ok t execs l → stage_ok (t ++ t') (<[e := x']> execs) l.
Proof.
  intros He Hw. unfold stage_ok. destruct l as [|? [|e' todo] []| | | |]; try done; intros H z Hz;
    (destruct (decide (e' = e)) as [->|Hne]; [rewrite lookup_insert_eq in Hz; injection Hz as <-; destruct (H x He)|
      rewrite lookup_insert_ne in Hz by done; destruct (H z Hz)]; auto using ended_app).
Qed.

Lemma inv_exec y e x x' evs : inv y → y_execs y !! e = Some x → step_ok (y_handoff y) (y_trace y) e x evs x' → inv (put e x' evs y).
Proof.
  intros Hi He Hs. replace (put e x' evs y) with (put e x' evs (upd_run (y_run y) y)) by by destruct y.
  eapply inv_put; try done; [by left|apply (iv_sealing y Hi)|]. destruct Hs as [_ (_ & _ & _ & _ & Hw)].
  eapply stage_ok_grow; [done..|]. apply (iv_stage y Hi).
Qed.

Lemma inv_withdrawn y e x : inv y → y_execs y !! e = Some x → y_handoff y = true → withdrawn x = true.
Proof. intros Hi He Hh. destruct (iv_handoff y Hi Hh) as (H & _). eauto. Qed.

Lemma launched_ok h t e name kind is_teardown pid : (1 < pid)%Z → (∀ ev, (e, ev) ∉ t) → exec_ok h t e (launched name kind is_teardown pid).
Proof. intros Hp Ht. constructor; cbn; try done; auto; [by intros [|]|]. by intros ev ?%Ht. Qed.

Lemma launched_untracked_ok h t e name kind is_teardown pid pids alive : (1 < pid)%Z → (∀ ev, (e, ev) ∉ t) →
  exec_ok h (t ++ (pair e <$> [Unestablished])) e (launched_untracked name kind is_teardown pid pids alive).
Proof.
  intros Hp Ht. assert (ended (t ++ (pair e <$> [Unestablished])) e) by (eapply ended_new; [by apply list_elem_of_singleton|done]).
  constructor; cbn; try done; auto. 
  intros ev [?%Ht|Hev]%elem_of_app; [done|]. apply list_elem_of_singleton in Hev. by injection Hev as ->.
Qed.

Lemma inv_fresh y e : inv y → y_execs y !! e = None → ∀ ev, (e, ev) ∉ y_trace y.
Proof. intros Hi He ev Hev. destruct (iv_trace y Hi e ev Hev) as [? ?]. congruence. Qed.

(** Launches are only admitted when the run neither seals nor has handed off. *)
Lemma admitted_open y b : inv y → admitted b y = true → y_handoff y = false ∧ (∀ next todo stage, y_run y ≠ RunSealing next todo stage).
Proof.
  intros Hi Ha. assert (¬ shut y) as Hs by (intros (_ & H1 & H2); unfold admitted in Ha; rewrite H1, H2 in Ha; by destruct b). split.
  - apply not_true_is_false. intros Hh. by destruct (iv_handoff y Hi Hh) as (_ & ? & _).
  - intros ??? Hr. eauto using iv_sealing.
Qed.

(** The group a name was registered with has been let go. *)
Lemma prev_withdrawn y name prev x : inv y → name_free name y → y_groups y !! name = Some prev → y_execs y !! prev = Some x → withdrawn x = true.
Proof.
  intros Hi Hf Hg Hx. destruct (iv_named y Hi name prev Hg) as (z & Hz & Hn). assert (z = x) as -> by congruence.
  apply (eo_past _ _ _ _ (iv_exec y Hi prev x Hx)). by rewrite (Hf prev x Hx Hn).
Qed.

Lemma close_ok h t e x : exec_ok h t e x → withdrawn x = true → exec_ok h t e (with_pg (Close (ex_pg x)) x).
Proof. intros [] Hw. constructor; unfold withdrawn in *; cbn; auto. Qed.

Lemma track_group_execs name e y : y_execs (track_group name e y) =
  match y_groups y !! name with None => y_execs y | Some prev => alter (λ x, with_pg (Close (ex_pg x)) x) prev (y_execs y) end.
Proof. unfold track_group. by destruct (y_groups y !! name). Qed.

Lemma track_group_rest name e y : let y' := track_group name e y in
  y_groups y' = <[name := e]> (y_groups y) ∧ y_handoff y' = y_handoff y ∧ y_trace y' = y_trace y ∧ y_run y' = y_run y ∧
  y_teardownOpen y' = y_teardownOpen y.
Proof. unfold track_group. by destruct (y_groups y !! name). Qed.

(** What is looked up after the registration: the same, but the released group
    of the name. *)
Lemma track_group_lookup name e y e' x : y_execs (track_group name e y) !! e' = Some x →
  ∃ x0, y_execs y !! e' = Some x0 ∧ (x = x0 ∨ y_groups y !! name = Some e' ∧ x = with_pg (Close (ex_pg x0)) x0).
Proof.
  rewrite track_group_execs. destruct (y_groups y !! name) as [prev|] eqn:Eg; [|by eauto].
  destruct (decide (e' = prev)) as [->|Hne].
  - rewrite lookup_alter_Some. intros [(_ & x0 & H & ->)|[? _]]; [|done]. exists x0. split; [done|]. by right.
  - rewrite lookup_alter_ne by done. eauto.
Qed.

Lemma track_group_is_Some name e y e' : is_Some (y_execs (track_group name e y) !! e') ↔ is_Some (y_execs y !! e').
Proof. rewrite track_group_execs. destruct (y_groups y !! name); [|done]. by rewrite lookup_alter_is_Some. Qed.

Lemma track_group_old name e y : inv y → name_free name y → y_execs y !! e = None → ∀ e' x, y_execs (track_group name e y) !! e' = Some x →
  e' ≠ e ∧ ∃ x0, y_execs y !! e' = Some x0 ∧ withdrawn x = withdrawn x0 ∧ ex_name x = ex_name x0 ∧
  exec_ok (y_handoff y) (y_trace y) e' x.
Proof.
  intros Hi Hf He e' x (x0 & Hx0 & Hx)%track_group_lookup. split; [congruence|]. exists x0. pose proof (iv_exec y Hi e' x0 Hx0).
  destruct Hx as [->|[Hn ->]]; [done|]. split_and!; [done..|]. by apply close_ok; [|eapply prev_withdrawn].
Qed.

Lemma inv_started y e name kind is_teardown pid : inv y → y_execs y !! e = None → name_free name y → admitted is_teardown y = true →
  (1 < pid)%Z → inv (put e (launched name kind is_teardown pid) [] (track_group name e y)).
Proof.
  intros Hi He Hf Ha Hp. destruct (admitted_open y is_teardown Hi Ha) as [Hh Hr]. pose proof (inv_fresh y e Hi He) as Ht.
  destruct (track_group_rest name e y) as (Hg & Hhand & Htr & Hrun & Ho). cbv zeta in *. pose proof (track_group_old name e y Hi Hf He) as Hold.
  constructor; cbn; rewrite ?Hg, ?Hhand, ?Htr, ?Hrun, ?Ho, ?app_nil_r.
  - intros e' x Hx. destruct (decide (e' = e)) as [->|Hne].
    + rewrite lookup_insert_eq in Hx. injection Hx as <-. by apply launched_ok.
    + rewrite lookup_insert_ne in Hx by done. by destruct (Hold e' x Hx) as (_ & x0 & _ & _ & _ & ?).
  - intros e' ev Hev. rewrite lookup_insert_is_Some'. right. apply track_group_is_Some. by apply (iv_trace y Hi e' ev).
  - congruence.
  - intros e' x Hx Hw. destruct (decide (e' = e)) as [->|Hne].
    + rewrite lookup_insert_eq in Hx. injection Hx as <-. left. cbn. by rewrite lookup_insert_eq.
    + rewrite lookup_insert_ne in Hx by done. destruct (Hold e' x Hx) as (_ & x0 & Hx0 & Hwx & Hn & _). rewrite Hn.
      rewrite Hwx in Hw. destruct (iv_registered y Hi e' x0 Hx0 Hw) as [Hreg|?]; [|by right]. left.
      rewrite lookup_insert_ne; [done|]. intros ->. pose proof (prev_withdrawn y _ e' x0 Hi Hf Hreg Hx0). congruence.
  - intros n e' [[<- <-]|[Hne Hn]]%lookup_insert_Some; [exists (launched name kind is_teardown pid); by rewrite lookup_insert_eq|].
    destruct (iv_named y Hi n e' Hn) as (z & Hz & Hnz). rewrite lookup_insert_ne by congruence.
    destruct (proj2 (track_group_is_Some name e y e')) as [x Hx]; [by eexists|]. exists x. split; [done|].
    destruct (Hold e' x Hx) as (_ & x0 & Hx0 & _ & -> & _). congruence.
  - intros next todo stage H. by apply Hr in H.
  - destruct (y_run y) eqn:E; try done. by edestruct Hr.
  - apply (iv_open y Hi).
Qed.

Lemma inv_untracked y e name kind is_teardown pid pids alive : inv y → y_execs y !! e = None → admitted is_teardown y = true →
  (1 < pid)%Z → inv (put e (launched_untracked name kind is_teardown pid pids alive) [Unestablished] y).
Proof.
  intros Hi He Ha Hp. destruct (admitted_open y is_teardown Hi Ha) as [Hh Hr]. pose proof (inv_fresh y e Hi He) as Ht.
  constructor; cbn.
  - intros e' x Hx. destruct (decide (e' = e)) as [->|Hne].
    + rewrite lookup_insert_eq in Hx. injection Hx as <-. by apply launched_untracked_ok.
    + rewrite lookup_insert_ne in Hx by done. by apply (exec_ok_other _ _ e e' x [Unestablished]), (iv_exec y Hi).
  - intros e' ev [Hev|Hev]%elem_of_app; rewrite lookup_insert_is_Some'; [right; by apply (iv_trace y Hi e' ev)|].
    apply list_elem_of_singleton in Hev. injection Hev as -> _. by left.
  - congruence.
  - intros e' x Hx Hw. destruct (decide (e' = e)) as [->|Hne]; [rewrite lookup_insert_eq in Hx; by injection Hx as <-|].
    rewrite lookup_insert_ne in Hx by done. by apply (iv_registered y Hi).
  - intros n e' Hn. destruct (iv_named y Hi n e' Hn) as (z & Hz & Hnz). exists z. rewrite lookup_insert_ne by congruence. done.
  - intros next todo stage H. by apply Hr in H.
  - destruct (y_run y) eqn:E; try done. by edestruct Hr.
  - apply (iv_open y Hi).
Qed.

Lemma inv_launching y y' : inv y → launching y y' → inv y'.
Proof. intros Hi []; [by apply inv_started|by apply inv_untracked]. Qed.

Lemma close_step h t e x x' evs l : step_ok h t e x evs x' → withdrawn x = true → ex_pc x' = ex_pc x →
  l = Returned false → step_ok h t e x evs (goto l (with_pg (Close (ex_pg x')) x')).
Proof.
  intros [Hok (? & ? & ? & ? & Hw)] Hwx Hpc ->. split; [|by destruct x'].
  apply close_ok in Hok as Hok'; [|auto]. apply (exec_ok_move _ _ _ (with_pg (Close (ex_pg x')) x')); cbn; try done; auto. apply (eo_collected _ _ _ _ Hok).
Qed.

Lemma settle_step h t e x x' st evs : exec_ok h t e x → withdrawn x = true → looks x x' st evs →
  step_ok h t e x evs (goto (Returned false) x') ∧ step_ok h t e x evs (goto (Returned false) (with_pg (Close (ex_pg x')) x')).
Proof.
  intros Hok Hwx Hl. destruct (looks_ok h t e x x' st evs Hok Hl) as (Hok' & Hs & Hpc & _). split; [|by apply close_step].
  destruct Hs as (? & ? & ? & ? & Hw). split; [|by destruct x'].
  apply (exec_ok_move _ _ _ x'); cbn; try done; auto. apply (eo_collected _ _ _ _ Hok').
Qed.

Lemma settling_withdrawn y e x l : inv y → y_execs y !! e = Some x → ex_pc x = l → l = Settling ∨ l = RefusedSettle → withdrawn x = true.
Proof. intros Hi He Hpc Hl. apply (eo_past _ _ _ _ (iv_exec y Hi e x He)). rewrite Hpc. by destruct Hl as [->| ->]. Qed.

(** Forgetting a group that is let go. *)
Lemma inv_untrack y name e x : inv y → y_execs y !! e = Some x → withdrawn x = true → inv (untrack_group name e y).
Proof.
  intros Hi He Hw. unfold untrack_group. case_bool_decide as Hg; [|done]. destruct Hi. constructor; cbn; try done.
  - intros Hh. exfalso. destruct (iv_handoff0 Hh) as (_ & (Hs & _) & _). by rewrite Hs, lookup_empty in Hg.
  - intros e' x' Hx' Hw'. destruct (iv_registered0 e' x' Hx' Hw') as [Hr|?]; [left|by right].
    rewrite lookup_delete_ne; [done|]. intros ->. congruence.
  - intros n e' [_ Hn]%lookup_delete_Some. eauto.
  - intros next todo stage Hr. destruct (iv_sealing0 _ _ _ Hr) as (Hs & _). by rewrite Hs, lookup_empty in Hg.
Qed.

Lemma untrack_rest name e y : let y' := untrack_group name e y in
  y_execs y' = y_execs y ∧ y_trace y' = y_trace y ∧ y_handoff y' = y_handoff y.
Proof. unfold untrack_group. by case_bool_decide. Qed.

Lemma inv_settling y y' : inv y → settling y y' → inv y'.
Proof.
  intros Hi H. destruct H as [e x l He Hpc Hl Hk Hs Htd|e x x' st evs l He Hpc Hl _ Hlk Hst|e x x' evs l He Hpc Hl _ Hlk];
    pose proof (settling_withdrawn y e x l Hi He Hpc Hl) as Hw; pose proof (iv_exec y Hi e x He) as Hok.
  - eapply inv_exec; [done..|]. split; [|by destruct x]. rewrite app_nil_r.
    apply (exec_ok_move _ _ _ x); cbn; auto. apply (eo_collected _ _ _ _ Hok).
  - eapply inv_exec; [done..|]. by eapply settle_step.
  - destruct (untrack_rest (ex_name x) e y) as (E1 & E2 & E3). cbv zeta in *.
    eapply inv_exec; [by eapply inv_untrack|by rewrite E1|]. rewrite E2, E3. by eapply settle_step.
Qed.

(** While the run seals, nothing is handed off yet and no teardown runs. *)
Lemma sealing_alone y next todo stage l : inv y → y_run y = RunSealing next todo stage →
  y_handoff y = true ∨ y_teardownOpen y = true → l = y_run y.
Proof.
  intros Hi Hr [Hh|Ho]; exfalso.
  - destruct (iv_handoff y Hi Hh) as (_ & _ & [?|?]); congruence.
  - pose proof (iv_open y Hi Ho). congruence.
Qed.

(** The first group of the sweep. *)
Lemma sweep_step y next e todo stage stage' x x' evs : inv y → y_run y = RunSealing next (e :: todo) stage → y_execs y !! e = Some x →
  step_ok (y_handoff y) (y_trace y) e x evs x' →
  (stage' = SealDrain ∨ stage' = SealSeal → withdrawn x' = true ∨ ended (y_trace y ++ (pair e <$> evs)) e) →
  inv (put e x' evs (upd_run (RunSealing next (e :: todo) stage') y)).
Proof.
  intros Hi Hr He Hs Hst. eapply inv_put; try done.
  - intros e' He'. left. by rewrite Hr in He'.
  - by eapply sealing_alone.
  - intros. by apply (iv_sealing y Hi _ _ _ Hr).
  - destruct stage'; try done; intros z Hz; rewrite lookup_insert_eq in Hz; injection Hz as <-; auto.
Qed.

Lemma stage_head y next e todo stage x : inv y → y_run y = RunSealing next (e :: todo) stage → stage = SealDrain ∨ stage = SealSeal →
  y_execs y !! e = Some x → withdrawn x = true ∨ ended (y_trace y) e.
Proof. intros Hi Hr Hst He. pose proof (iv_stage y Hi) as H. rewrite Hr in H. destruct Hst as [->| ->]; by apply H. Qed.

Lemma looks_quiet h t e x x' st evs : exec_ok h t e x → looks x x' st evs → step_ok h t e x evs x'.
Proof. intros Hok Hl. destruct (looks_ok h t e x x' st evs Hok Hl) as (? & ? & _). by split. Qed.

Lemma inv_sealing y y' : inv y → sealing y y' → inv y'.
Proof.
  intros Hi H. destruct H as [next e todo x x' evs Hr He Hl|next e todo x x' st evs Hr He Hl Hst|next e todo x Hr He|
    next e todo x x' evs r Hr He Hw|next e todo x pids alive Hr He]; pose proof (iv_exec y Hi e x He) as Hok;
    pose proof (inv_withdrawn y e x Hi He) as Hrun.
  - eapply sweep_step; [done..|by eapply looks_quiet|]. intros _.
    destruct (looks_ok _ _ _ _ _ _ _ Hok Hl) as (_ & (_ & _ & _ & _ & Hk) & _ & He'). destruct (He' eq_refl); auto.
  - eapply sweep_step; [done..|by eapply looks_quiet|]. by intros [|].
  - destruct (sends_ok _ _ _ _ Hok Hrun SIGKILL) as [Hok' Hk]. eapply sweep_step; [done..|by split|]. auto.
  - assert (step_ok (y_handoff y) (y_trace y) e x evs x' ∧ (withdrawn x = true → withdrawn x' = true)) as [Hs Hk].
    { assert (∃ st, looks x x' st evs) as [st Hl] by (destruct Hw; eauto).
      pose proof (looks_quiet _ _ _ _ _ _ _ Hok Hl) as Hs. split; [done|]. by destruct Hs as [_ (_ & _ & _ & _ & ?)]. }
    eapply sweep_step; [done..|]. intros _. destruct (stage_head y next e todo SealDrain x) as [?|?]; auto using ended_app.
  - pose proof (stage_head y next e todo SealSeal x Hi Hr (or_intror eq_refl) He) as Hend.
    assert (withdrawn (with_pg (Seal pids alive (ex_pg x)).2 x) = true) as Hwd.
    { unfold Seal, withdrawn. cbn. destruct (State_spec pids alive (Withdraw (ex_pg x)) (eo_track _ _ _ _ Hok)) as (_ & H2 & _).
      by destruct (State pids alive (Withdraw (ex_pg x))). }
    eapply inv_put; try done; [by apply seal_ok|..].
    + intros e' He'. rewrite Hr in He'. apply elem_of_cons in He' as [->|?]; [by right|by left].
    + by eapply sealing_alone.
    + intros. by apply (iv_sealing y Hi _ _ _ Hr).
    + by destruct todo.
Qed.

Lemma elem_of_taken_groups y name e : y_groups y !! name = Some e → e ∈ taken_groups y.
Proof.
  intros Hg. unfold taken_groups. apply list_elem_of_omap. exists name. split; [|done]. apply elem_of_sort_strings, elem_of_keys. by eexists.
Qed.

Lemma inv_take y next : inv y → y_handoff y = false → y_teardownOpen y = false → todo_of (y_run y) = [] → inv (take_groups next y).
Proof.
  intros Hi Hh Ho Ht. destruct Hi. constructor; cbn; try done.
  - congruence.
  - intros e x He Hw. right. destruct (iv_registered0 e x He Hw) as [Hr|Hr]; [by eapply elem_of_taken_groups|].
    rewrite Ht in Hr. by apply not_elem_of_nil in Hr.
  - by destruct (taken_groups y).
  - congruence.
Qed.

(** The run goes on, with nothing left to seal. *)
Lemma inv_run y l : inv y → todo_of (y_run y) = [] → todo_of l = [] → (∀ next stage, l ≠ RunSealing next [] stage) →
  y_handoff y = false ∨ l = RunEnded → y_teardownOpen y = false → inv (upd_run l y).
Proof.
  intros Hi Ht Hl Hns Hh Ho. destruct Hi. constructor; cbn; try done.
  - intros Hh'. destruct (iv_handoff0 Hh') as (? & ? & ?). destruct Hh as [?| ->]; [congruence|]. split_and!; auto.
  - intros e x He Hw. rewrite Hl. rewrite Ht in iv_registered0. by apply iv_registered0.
  - intros next todo stage ->. cbn in Hl. subst todo. by edestruct Hns.
  - unfold stage_ok. destruct l; try done. cbn in Hl. by subst.
  - congruence.
Qed.

(** When nothing is left to seal, every group is let go. *)
Lemma all_withdrawn y next stage : inv y → y_run y = RunSealing next [] stage → ∀ e x, y_execs y !! e = Some x → withdrawn x = true.
Proof.
  intros Hi Hr e x He. apply not_false_is_true. intros Hw. destruct (iv_registered y Hi e x He Hw) as [Hg|Ht].
  - destruct (iv_sealing y Hi _ _ _ Hr) as (Hs & _). by rewrite Hs, lookup_empty in Hg.
  - rewrite Hr in Ht. by apply not_elem_of_nil in Ht.
Qed.

Lemma exec_ok_handoff t e x : exec_ok false t e x → exec_ok true t e x.
Proof.
  intros []. assert (handed_off false x = true → handed_off true x = true) as Hm by (unfold handed_off; by destruct (ex_kind x)).
  constructor; auto; intros H; [destruct (eo_started0 H)|destruct (eo_handing0 H)]; auto.
Qed.

Lemma run_release y stage : inv y → y_run y = RunSealing HandOffNext [] stage → inv (upd_run RunDraining (upd_handoff true y)).
Proof.
  intros Hi Hr. pose proof (all_withdrawn y _ _ Hi Hr) as Hall. pose proof (iv_sealing y Hi _ _ _ Hr) as Hs.
  assert (y_handoff y = false) as Hh.
  { apply not_true_is_false. intros Hh. destruct (iv_handoff y Hi Hh) as (_ & _ & [?|?]); congruence. }
  destruct Hi. constructor; cbn; try done.
  - intros e x He. apply exec_ok_handoff. rewrite <-Hh. auto.
  - intros _. split_and!; auto.
  - intros e x He Hw. rewrite (Hall e x He) in Hw. done.
  - intros Ho. destruct Hs as (_ & _ & ?). congruence.
Qed.

Lemma inv_running y y' : inv y → running y y' → inv y'.
Proof.
  intros Hi H. assert (∀ l, y_run y = l → l ≠ RunDraining → l ≠ RunEnded → y_handoff y = false) as Hh.
  { intros l <- H1 H2. apply not_true_is_false. intros Hh. by destruct (iv_handoff y Hi Hh) as (_ & _ & [?|?]). }
  assert (∀ l, y_run y = l → l ≠ RunTeardown → y_teardownOpen y = false) as Ho.
  { intros l <- Hl. apply not_true_is_false. intros Ho. by apply Hl, (iv_open y Hi). }
  destruct H as [Hr _|Hr _ _|Hr _ _|stage Hr|Hr _|stage Hr|Hr].
  1, 3: apply inv_take; [done|by eapply Hh|by eapply Ho|by rewrite Hr].
  2: by eapply run_release.
  all: apply inv_run; rewrite ?Hr; try done; [|by eapply Ho]; first [by right|left; by eapply Hh].
Qed.

Lemma inv_tearing_down y y' : inv y → tearing_down y y' → inv y'.
Proof.
  intros Hi H. assert (∀ l, y_run y = l → l ≠ RunDraining → l ≠ RunEnded → y_handoff y = false) as Hh.
  { intros l <- H1 H2. apply not_true_is_false. intros Hh. by destruct (iv_handoff y Hi Hh) as (_ & _ & [?|?]). }
  destruct H as [Hr|Hr _|stage Hr].
  - pose proof (Hh _ Hr ltac:(done) ltac:(done)) as Hf. destruct Hi. constructor; cbn; try done; [congruence|].
    intros e x He Hw. destruct (iv_registered0 e x He Hw) as [?|Ht]; [by left|]. rewrite Hr in Ht. by apply not_elem_of_nil in Ht.
  - apply inv_take; [|cbn; by eapply Hh|done|cbn; by rewrite Hr]. destruct Hi. constructor; cbn; try done.
    + intros Hx. destruct (iv_handoff0 Hx) as (? & (? & ? & _) & ?). by split_and!.
    + intros next todo stage Hx. congruence.
  - apply inv_run; rewrite ?Hr; try done; [by right|]. by destruct (iv_sealing y Hi _ _ _ Hr) as (_ & _ & ?).
Qed.

Lemma inv_shutting_down y y' : inv y → shutting_down y y' → inv y'.
Proof.
  intros Hi [force snapshot _|e l l' x _ He|].
  - destruct Hi. constructor; cbn; try done; [intros H|intros next todo stage H].
    + destruct (iv_handoff0 H) as (? & (? & ? & ?) & ?). by split_and!.
    + by destruct (iv_sealing0 _ _ _ H) as (? & ? & ?).
  - destruct (sends_ok _ _ _ _ (iv_exec y Hi e x He) (inv_withdrawn y e x Hi He) SIGKILL) as [Hok _].
    assert (inv (upd_forced (l ++ l') y)) as Hi' by by destruct Hi. by apply (inv_exec _ e x).
  - by destruct Hi.
Qed.

Lemma run_step_inv y y' : inv y → step y y' → inv y'.
Proof.
  intros Hi [e x x' evs He Hs ->|H|H|H|H|H|H];
    [|eauto using inv_launching, inv_settling, inv_sealing, inv_running, inv_tearing_down, inv_shutting_down..].
  eapply inv_exec; [done..|]. apply exec_step_ok; [by apply (iv_exec y Hi)|by apply (inv_withdrawn y e)|done].
Qed.

Lemma inv_init : inv init.
Proof. constructor; cbn; try done. by intros e ev ?%not_elem_of_nil. Qed.

Lemma reachable_inv y : reachable y → inv y.
Proof. apply (rtc_ind_r inv init); [apply inv_init|]. intros y1 y2 _ Hs Hi. by eapply run_step_inv. Qed.

(** ** The ownership of a group *)

(** C5: no signal follows the reap.  In every run, whatever the interleaving of
    the executions, the sweep, forced shutdowns, the watchers of the contexts and
    the exits of the commands, every signal the runner sends goes to the group
    numbered by the PID of a command it started, and is sent while that command
    has not been reaped, so the number is still that command's own.  The one
    exception is an execution with a deadline of its own, a check or a teardown
    process, once that deadline has handed it off. *)
Theorem signals_before_the_reap y e s target l closed : reachable y → (e, Signalled s target l closed) ∈ y_trace y →
  ∃ x, y_execs y !! e = Some x ∧ target = (- ex_pid x)%Z ∧ (target < -1)%Z ∧
    (l ≠ Collected ∨ ex_kind x = OwnHandoff ∧ closed = true).
Proof.
  intros Hi%reachable_inv Hev. destruct (iv_trace y Hi _ _ Hev) as [x Hx]. exists x. pose proof (iv_exec y Hi e x Hx) as Hok.
  destruct (eo_events _ _ _ _ Hok _ Hev) as [-> Hl]. pose proof (eo_pid _ _ _ _ Hok). split_and!; [done|done|lia|].
  destruct (decide (l = Collected)); auto.
Qed.

(** C7: no group is let go unended.  When the runner's authority over the group
    of a command it started is withdrawn, or the run has handed its executions
    off, or the sweep has come to its end, then the group was sent SIGKILL, or its
    members were enumerated and there were none, or the runner could not vouch
    for it and says so. *)
Theorem let_go_only_when_ended y e x : reachable y → y_execs y !! e = Some x →
  withdrawn x = true ∨ y_handoff y = true ∨ (∃ next stage, y_run y = RunSealing next [] stage) ∨
    past_withdrawal (ex_pc x) = true → ended (y_trace y) e.
Proof.
  intros Hi%reachable_inv He H. pose proof (iv_exec y Hi e x He) as Hok. apply (eo_ended _ _ _ _ Hok).
  destruct H as [?|[Hh|[(next & stage & Hr)|Hp]]]; [done|by eapply inv_withdrawn|by eapply all_withdrawn|by apply (eo_past _ _ _ _ Hok)].
Qed.

(** ** Concrete runs *)

Lemma exec_move y e x x' evs : y_execs y !! e = Some x → exec_step (y_handoff y) x evs x' → step y (put e x' evs y).
Proof. intros. by eapply sp_exec. Qed.

(** One step of execution 0. *)
Ltac advance tac := eapply rtc_l; [eapply (exec_move _ 0); [reflexivity|tac]|].

Lemma looks_at x pids alive : looks x (with_pg (State pids alive (ex_pg x)).2 x) (State pids alive (ex_pg x)).1 (sees pids (ex_pg x)).
Proof. exists pids, alive. split_and!; [|done..]. cbn. by destruct (State pids alive (ex_pg x)). Qed.

Ltac look l := match goal with |- looks ?x _ _ _ => exact (looks_at x l false) end.

(** A service that is told to stop, terminates at SIGTERM, and is reaped. *)
Lemma demo_stopped : ∃ y x, reachable y ∧ y_execs y !! 0 = Some x ∧ ex_kind x = RunHandoff ∧ ex_pc x = Settling ∧
  y_trace y = [(0, Signalled SIGTERM (-4242) Running false); (0, SawEmpty)].
Proof.
  unfold reachable. eexists _, _. split.
  { eapply rtc_l; [apply sp_launching, (ln_started init 0 "web" RunHandoff false 4242); [done|by intros ??|done|lia|done]|].
    advance ltac:(eapply es_unobserved, (ob_set_up _ _ [NoExitYet]); [done|by repeat constructor|done]).
    advance ltac:(eapply es_outside, os_end).
    advance ltac:(eapply es_watch, w_cancelled; done).
    advance ltac:(eapply es_teardown, td_established; done).
    advance ltac:(eapply es_terminate, (tg_alive _ _ _ GroupOwned); [done|look (Some [4242%Z])|done]).
    advance ltac:(eapply es_terminate, tg_term; done).
    advance ltac:(eapply es_outside, os_exit; done).
    advance ltac:(eapply es_terminate, (tg_wait _ _ _ _ (Some true)); [done|apply wait_drained; look (Some (@nil Z))]).
    advance ltac:(eapply es_join, j_stop; done).
    advance ltac:(eapply es_join, j_spent; done).
    advance ltac:(eapply es_join, j_drained; done).
    advance ltac:(eapply es_reap, wr_withdraw; done).
    advance ltac:(eapply es_reap, wr_reap; done).
    advance ltac:(eapply es_reaper, rp_collect; done).
    advance ltac:(eapply es_reaper, rp_publish; done).
    advance ltac:(eapply es_reap, wr_collected; done).
    apply rtc_refl. }
  split_and!; reflexivity.
Qed.

Lemma signals_before_the_reap_witness : ∃ y x, reachable y ∧ y_execs y !! 0 = Some x ∧
  (0, Signalled SIGTERM (-4242) Running false) ∈ y_trace y ∧ ex_pid x = 4242%Z.
Proof.
  destruct demo_stopped as (y & x & Hr & Hx & _ & _ & Ht). exists y, x.
  assert ((0, Signalled SIGTERM (-4242) Running false) ∈ y_trace y) as Hev by (rewrite Ht; apply list_elem_of_here).
  destruct (signals_before_the_reap y 0 SIGTERM (-4242) Running false Hr Hev) as (x' & Hx' & Hp & _).
  split_and!; [exact Hr|exact Hx|exact Hev|]. rewrite Hx in Hx'. injection Hx' as <-. lia.
Defined.

Lemma let_go_only_when_ended_witness : ∃ y x, reachable y ∧ y_execs y !! 0 = Some x ∧ ex_pc x = Settling ∧ ended (y_trace y) 0.
Proof.
  destruct demo_stopped as (y & x & Hr & Hx & _ & Hpc & _). exists y, x. split_and!; [exact Hr|exact Hx|exact Hpc|].
  apply (let_go_only_when_ended y 0 x Hr Hx). right. right. right. by rewrite Hpc.
Defined.

(** C39: the exception is real.  A check that is handed off by its own deadline
    is reaped while its group may still be signalled, against the rule that
    authority is withdrawn before the reap: the sweep that later ends the
    registered groups then sends SIGKILL to a number that is no longer the
    check's. *)
Theorem check_signalled_after_reap : ∃ y x, reachable y ∧ y_execs y !! 0 = Some x ∧ ex_kind x = OwnHandoff ∧ ex_leader x = Collected ∧
  withdrawn x = false ∧ (0, Signalled SIGKILL (- ex_pid x) Collected true) ∈ y_trace y.
Proof.
  unfold reachable. eexists _, _. split.
  { eapply rtc_l; [apply sp_launching, (ln_started init 0 "check" OwnHandoff false 4242); [done|by intros ??|done|lia|done]|].
    advance ltac:(eapply es_unobserved, (ob_set_up _ _ [NoExitYet]); [done|by repeat constructor|done]).
    advance ltac:(eapply es_outside, os_end).
    advance ltac:(eapply es_deadline, od_close; [done|by left]).
    advance ltac:(eapply es_watch, w_handoff; done).
    advance ltac:(eapply es_handoff, fh_stop; done).
    advance ltac:(eapply es_observing, (og_send _ false [Stopped]); [done|done|by repeat constructor|done]).
    advance ltac:(eapply es_handoff, fh_reap; done).
    advance ltac:(eapply es_outside, os_exit; done).
    advance ltac:(eapply es_reaper, rp_collect; done).
    eapply rtc_l; [apply sp_shutting_down, sh_cancel|].
    eapply rtc_l; [apply sp_running, rn_sweep; [done| |done]; intros e x Hx|].
    { destruct (decide (e = 0)) as [->|Hne]; [injection Hx as <-; by exists true|]. cbn in Hx. by rewrite !lookup_insert_ne in Hx by done. }
    eapply rtc_l; [eapply sp_sealing, (sl_alive _ FinishNext 0 [] _ _ GroupOwned); [reflexivity..|look (Some [4242%Z])|done]|].
    eapply rtc_l; [eapply sp_sealing, (sl_kill _ FinishNext 0 []); reflexivity|].
    apply rtc_refl. }
  split_and!; try reflexivity. apply list_elem_of_here.
Qed.
