(* ===== verification/Probes.v ===== *)
(** * Readiness probes and health checks

    The goroutines that decide whether a process is ready and healthy.  They
    share the process's state with its worker and with each other: before each
    of their steps the others may have applied any operations to it, and may
    have ended the incarnation's context.  What a probe is answered, the clock
    and which event ends a wait are a script.  A probe records its verdict by
    the operations of [RunnerState], and an answer is judged by who gave it, as
    [Attest] tells.  The network calls themselves are the answers of the
    script. *)

From S2P Require Import Prelude GoStrings ConfigTypes RunnerState Lifecycle Groups Teardown Attest.

(** ** What a probe sees and does *)

Inductive effect : Type :=
  | Broadcast
  | LogLine (level event msg : string)
  | CancelIncarnation.

#[export] Instance effect_eq_dec : EqDecision effect.
Proof. solve_decision. Defined.

(** The process's state, whether the incarnation's context has ended, and what
    the probe has done. *)
Record pworld : Type := mkPWorld {
  pw_st : procState;
  pw_cancelled : bool;
  pw_out : list effect;
}.

Definition pb (A : Type) : Type := pworld → A * pworld.
#[export] Instance pb_ret : MRet pb := λ A a w, (a, w).
#[export] Instance pb_bind : MBind pb := λ A B f m w, let '(a, w) := m w in f a w.

Definition emit (e : effect) : pb () := λ w, ((), mkPWorld (pw_st w) (pw_cancelled w) (pw_out w ++ [e])).

(** A critical section on the state, which reads the context too. *)
Definition on_state {A} (f : bool → procState → A * procState) : pb A := λ w,
  let '(a, st) := f (pw_cancelled w) (pw_st w) in (a, mkPWorld st (pw_cancelled w) (pw_out w)).

(** [procCancel()] *)
Definition cancel_incarnation : pb () := λ w, ((), mkPWorld (pw_st w) true (pw_out w ++ [CancelIncarnation])).

Definition ctx_ended : pb bool := λ w, (pw_cancelled w, w).

(** What the others do meanwhile. *)
Record others : Type := mkOthers { ot_ops : list op; ot_cancel : bool }.

Definition meanwhile (o : others) : pb () := λ w,
  ((), mkPWorld (apply_ops (ot_ops o) (pw_st w)) (pw_cancelled w || ot_cancel o) (pw_out w)).

(** A receive from the context's channel, which has ended by then. *)
Definition await_ctx : pb () := λ w, ((), mkPWorld (pw_st w) true (pw_out w)).

(** ** Who answered *)

(** Source: internal/runner/attest.go:362-372 (ownerCheck). *)
Record ownerCheck : Type := mkOwnerCheck {
  oc_name : string;
  oc_gen : Z;
  oc_probe : string;
  oc_reject : bool;
  oc_refuseCrossSession : bool;
  oc_warned : bool;
  oc_owner : option EndpointOwner;
}.

(** Source: internal/runner/attest.go:374-378 (newOwnerCheck). *)
Definition newOwnerCheck (refuseCrossSession : bool) (p : procInfo) (gen : Z) (kind : string) : ownerCheck :=
  mkOwnerCheck (pi_name p) gen ("readiness probe (" +:+ kind +:+ ")")
    (bool_decide (EffectiveForeignListener (pi_proc p) = ForeignListenerReject)) refuseCrossSession false None.

Definition set_warned (c : ownerCheck) : ownerCheck :=
  mkOwnerCheck (oc_name c) (oc_gen c) (oc_probe c) (oc_reject c) (oc_refuseCrossSession c) true (oc_owner c).
Definition set_owner (o : EndpointOwner) (c : ownerCheck) : ownerCheck :=
  mkOwnerCheck (oc_name c) (oc_gen c) (oc_probe c) (oc_reject c) (oc_refuseCrossSession c) (oc_warned c) (Some o).

(** The owner of an answer that was not attributed.
    Source: internal/runner/attest.go:383-385 (ownerCheck.accept, default). *)
Definition owner_or_unknown (owner : option EndpointOwner) : EndpointOwner :=
  default (unattributable "the probe connection was not recorded") owner.

(** The error of a refused answer.
    Source: internal/runner/attest.go:382-397 (ownerCheck.accept). *)
Definition accept (owner : option EndpointOwner) (c : ownerCheck) : pb (option string * ownerCheck) :=
  let o := owner_or_unknown owner in
  let refusal := refusalOf (Some o) (oc_reject c) (oc_refuseCrossSession c) in
  if bool_decide (refusal = "") then mret (None, set_owner o c)
  else
    recorded ← on_state (λ _, recordRefusedOwner (oc_gen c) (Some o));
    c ← (if recorded && negb (oc_warned c) then
           _ ← emit Broadcast;
           _ ← emit (LogLine "warn" "readiness.foreign_listener" (foreignListenerMessage (oc_name c) (oc_probe c) o refusal));
           mret (set_warned c)
         else mret c);
    mret (Some (foreignListenerError (oc_name c) o), c).

(** ** One attempt *)

Inductive attempt : Type :=
  | BadURL (err : string)
  | Failed (err : string)
  | Answered (owner : option EndpointOwner).

(** The error of forming the request, the error of the exchange or the status,
    and who answered. *)
Record http_answer : Type := mkHTTPAnswer {
  ha_form : option string;
  ha_response : res string Z;
  ha_owner : option EndpointOwner;
}.

(** Source: internal/runner/probe.go:103-145 (httpOnce). *)
Definition httpOnce (a : http_answer) : attempt :=
  match ha_form a with
  | Some err => BadURL ("bad URL: " +:+ err)
  | None => match ha_response a with
            | Err err => Failed err
            | Ok status => if (200 <=? status)%Z && (status <? 300)%Z then Answered (ha_owner a)
                           else Failed ("status " +:+ itoa status)
            end
  end.

(** The errors of dialing and of closing, and who answered. *)
Record tcp_answer : Type := mkTCPAnswer {
  ta_dial : option string;
  ta_close : option string;
  ta_owner : option EndpointOwner;
}.

(** Source: internal/runner/probe.go:166-179 (tcpOnce). *)
Definition tcpOnce (a : tcp_answer) : attempt :=
  match ta_dial a, ta_close a with
  | Some err, _ => Failed err
  | None, Some err => Failed err
  | None, None => Answered (ta_owner a)
  end.

(** [errors.Is(err, errBadProbeURL)]
    Source: internal/runner/probe.go:99-101 (errBadProbeURL). *)
Definition is_bad (a : attempt) : bool := match a with BadURL _ => true | _ => false end.

(** [None] is no limit.
    Source: internal/runner/probe.go:513-520 (deadlineFor). *)
Definition deadlineFor (now timeout : Z) : option Z := if (timeout <=? 0)%Z then None else Some (now + timeout)%Z.

(** ** Polling *)

(** What ends the pause after a failed attempt: the end of the context, the
    progress ticker, with the three clock readings of its branch, or a second. *)
Inductive pause : Type := PauseCancelled | PauseTick (since now until : Z) | PauseSecond.

(** A turn of the poll: what the others do during the attempt, how it ends, the
    clock after it, what the others do while the probe records a refusal, and
    the pause with what the others do in it. *)
Record round (A : Type) : Type := mkRound {
  rd_others : others;
  rd_answer : A;
  rd_meanwhile : others;
  rd_after : Z;
  rd_pause : pause;
  rd_paused : others;
}.
Arguments rd_others {A} r.
Arguments rd_answer {A} r.
Arguments rd_meanwhile {A} r.
Arguments rd_after {A} r.
Arguments rd_pause {A} r.
Arguments rd_paused {A} r.
Arguments mkRound {A} _ _ _ _ _ _.

Section probing.
(** [fmt]'s rendering of a number of seconds and of a duration. *)
Context (seconds_text duration_text : Z → string).

Definition progress (msg : string) : pb () := emit (LogLine "debug" "readiness.progress" msg).

(** The progress line of a tick: none in the last three seconds.
    Source: internal/runner/probe.go:81-93 (probeHTTP, tick). *)
Definition tick_progress (kind target : string) (start : Z) (deadline : option Z) (since now until : Z) : pb () :=
  match deadline with
  | Some d =>
      if (d <? now + 3 * Second)%Z then mret ()
      else progress ("waiting for " +:+ kind +:+ " probe " +:+ target +:+ "... (" +:+ seconds_text (since - start) +:+ "s elapsed)"
                     +:+ " (" +:+ seconds_text (d - until) +:+ "s left)")
  | None => progress ("waiting for " +:+ kind +:+ " probe " +:+ target +:+ "... (" +:+ seconds_text (since - start) +:+ "s elapsed)")
  end.

Definition past (now : Z) (deadline : option Z) : bool := match deadline with Some d => (d <? now)%Z | None => false end.

(** The answer of an attempt as the check takes it: no error, or the error and
    the rejection.
    Source: internal/runner/probe.go:52-61 (probeHTTP, attempt). *)
Definition judge_attempt (a : attempt) (c : ownerCheck) : pb (option string * string * ownerCheck) :=
  match a with
  | BadURL err | Failed err => mret (Some err, "", c)
  | Answered owner =>
      x ← accept owner c;
      mret (match x with
            | (None, c) => (None, "", c)
            | (Some err, c) => (Some err, err, c)
            end)
  end.

(** The loop both probes share; [None] is a script that ends before it.
    Source: internal/runner/probe.go:51-96 (probeHTTP, loop). *)
Fixpoint poll {A} (once : A → attempt) (kind target : string) (timeout start : Z) (deadline : option Z) (failures : nat)
    (rounds : list (round A)) (c : ownerCheck)
    : pb (option (bool * string) * ownerCheck) :=
  match rounds with
  | [] => mret (None, c)
  | r :: rounds =>
      _ ← meanwhile (rd_others r);
      x ← judge_attempt (once (rd_answer r)) c;
      let '(err, rejected, c) := x in
      match err with
      | None => mret (Some (true, ""), c)
      | Some err =>
          let line := "probe " +:+ kind +:+ " " +:+ target +:+ ": " +:+ err in
          if is_bad (once (rd_answer r)) then _ ← progress line; mret (Some (false, ""), c)
          else
              let failures := S failures in
              _ ← (if 5 <? failures then progress line else mret ());
              _ ← meanwhile (rd_meanwhile r);
              if past (rd_after r) deadline then
                _ ← progress ("probe " +:+ kind +:+ " " +:+ target +:+ ": timed out after " +:+ duration_text timeout);
                mret (Some (false, rejected), c)
              else
                _ ← meanwhile (rd_paused r);
                match rd_pause r with
                | PauseCancelled => _ ← await_ctx; mret (Some (false, ""), c)
                | PauseTick since now until =>
                    _ ← tick_progress kind target start deadline since now until;
                    poll once kind target timeout start deadline failures rounds c
                | PauseSecond => poll once kind target timeout start deadline failures rounds c
                end
      end
  end.

(** [start] is the clock when the probe starts.
    Source: internal/runner/probe.go:32-97 (probeHTTP). *)
Definition probeHTTP (url : string) (timeout start : Z) (rounds : list (round http_answer)) (c : ownerCheck)
    : pb (option (bool * string) * ownerCheck) :=
  _ ← progress ("waiting for http probe " +:+ url +:+ "...");
  poll httpOnce "http" url timeout start (deadlineFor start timeout) 0 rounds c.

(** Source: internal/runner/probe.go:181-236 (probeTCP). *)
Definition probeTCP (addr : string) (timeout start : Z) (rounds : list (round tcp_answer)) (c : ownerCheck)
    : pb (option (bool * string) * ownerCheck) :=
  _ ← progress ("waiting for tcp probe " +:+ addr +:+ "...");
  poll tcpOnce "tcp" addr timeout start (deadlineFor start timeout) 0 rounds c.

(** ** The verdict of a readiness probe *)

(** Source: internal/runner/lifecycle.go:1479-1508 (handleProbeResult). *)
Definition handleProbeResult (p : procInfo) (gen : Z) (kind : string) (ok : bool) (detail : string) (owner : option EndpointOwner) : pb () :=
  if ok then
    marked ← on_state (λ cancelled, markReadyFor cancelled gen true owner);
    if marked : bool then
      _ ← emit Broadcast;
      _ ← emit (LogLine "info" "process.ready" ("ready (" +:+ kind +:+ " probe)"));
      match owner with
      | Some o => if bool_decide (eo_Result o = OwnerForeign)
                  then emit (LogLine "warn" "readiness.foreign_listener"
                               (foreignListenerMessage (pi_name p) ("readiness probe (" +:+ kind +:+ ")") o ""))
                  else mret ()
      | None => mret ()
      end
    else mret ()
  else
    let msg := "readiness probe (" +:+ kind +:+ ") timed out" in
    let msg := if bool_decide (detail = "") then msg else msg +:+ " (last attempt: " +:+ detail +:+ ")" in
    failed ← on_state (λ cancelled, failReadinessFor cancelled gen msg);
    if failed : bool then _ ← emit (LogLine "error" "readiness.failed" msg); cancel_incarnation else mret ().

(** ** The cmd probe *)

(** Source: internal/runner/probe.go:238-249 (cmdProbeAttemptTimeout). *)
Definition cmdProbeAttemptTimeout : Z := 10 * Second.
(** Source: internal/runner/probe.go:238-249 (cmdProbeOutputLimit). *)
Definition cmdProbeOutputLimit : Z := 256.
(** Source: internal/runner/probe.go:238-249 (cmdProbeRetryDelay). *)
Definition cmdProbeRetryDelay : Z := Second.

(** Source: internal/runner/probe.go:326-335 (cmdProbeInfo). *)
Definition cmdProbeInfo (p : procInfo) (command : string) : procInfo :=
  mkProcInfo (pi_name p +:+ ":probe")
    (mkProcess command (p_Dir (pi_proc p)) "" (p_Env (pi_proc p)) ProcessModeTask "" 0 0 None 0 [] ∅ None 0 "" "")
    0 [] false true.

(** An attempt of the cmd probe: the clock before it, its execution, the error
    of its own context when that has ended, whether the runner is stopping, the
    time left for the probe, and how the pause after it ends ([true]: by the
    context). *)
Record cmd_round : Type := mkCmdRound {
  cr_now : Z;
  cr_others : others;
  cr_result : CheckResult;
  cr_ended : option string;
  cr_stopping : bool;
  cr_remaining : Z;
  cr_paused : others;
  cr_pause_cancelled : bool;
}.

(** The context ends at the attempt's own limit, or at the probe's deadline if
    that is earlier.
    Source: internal/runner/probe.go:270-273 (probeCmd, attempt deadline). *)
Definition attemptDeadline (now : Z) (deadline : option Z) : Z :=
  match deadline with
  | Some d => if (d <? now + cmdProbeAttemptTimeout)%Z then d else now + cmdProbeAttemptTimeout
  | None => now + cmdProbeAttemptTimeout
  end.

(** Whether the attempt was ended by the probe's deadline.
    Source: internal/runner/probe.go:277-279 (probeCmd, cutByTimeout). *)
Definition cutByTimeout (r : cmd_round) (deadline : option Z) : bool :=
  bool_decide (is_Some (cr_ended r)) && bool_decide (deadline = Some (attemptDeadline (cr_now r) deadline)).

(** A pause that ends by the context or goes on.
    Source: internal/runner/probe.go:318-322 (probeCmd, pause). *)
Definition cmd_pause (r : cmd_round) : pb bool :=
  _ ← meanwhile (cr_paused r);
  if cr_pause_cancelled r then _ ← await_ctx; mret true else mret false.

(** Source: internal/runner/probe.go:268-323 (probeCmd, loop). *)
Fixpoint cmd_loop (deadline : option Z) (failures : nat) (last : string) (rounds : list cmd_round) : pb (option (bool * string)) :=
  match rounds with
  | [] => mret None
  | r :: rounds =>
      _ ← meanwhile (cr_others r);
      let '(passed, res) := exitedZeroInTime (cr_ended r) (cr_result r) in
      cancelled ← ctx_ended;
      if passed then mret (Some (true, ""))
      else if ck_HandedOff res || cancelled then mret (Some (false, ""))
      else if ck_AdmissionRefused res && cr_stopping r then _ ← await_ctx; mret (Some (false, ""))
      else
        let failures := S failures in
        if cutByTimeout r deadline && negb (bool_decide (last = "")) then mret (Some (false, last))
        else
          let last := cmdProbeFailure res in
          match deadline with
          | Some _ =>
              if (cr_remaining r <=? cmdProbeRetryDelay)%Z then
                stop ← cmd_pause r;
                mret (Some (false, if stop : bool then "" else last))
              else
                _ ← (if 5 <? failures then progress ("probe cmd: " +:+ last) else mret ());
                stop ← cmd_pause r;
                if stop : bool then mret (Some (false, "")) else cmd_loop deadline failures last rounds
          | None =>
              _ ← (if 5 <? failures then progress ("probe cmd: " +:+ last) else mret ());
              stop ← cmd_pause r;
              if stop : bool then mret (Some (false, "")) else cmd_loop deadline failures last rounds
          end
  end.

(** Source: internal/runner/probe.go:251-324 (probeCmd). *)
Definition probeCmd (timeout start : Z) (rounds : list cmd_round) : pb (option (bool * string)) :=
  _ ← progress "waiting for cmd probe...";
  cmd_loop (deadlineFor start timeout) 0 "" rounds.

(** ** The readiness of an incarnation *)

(** What an incarnation's readiness waits for. *)
Inductive readiness : Type := AtStart | OnHTTP (url : string) | OnTCP (addr : string) | OnCmd | OnLog | Never.

(** [logRe] is whether there is a pattern for log lines.
    Source: internal/runner/lifecycle.go:433-505 (buildReadinessCallbacks, cases). *)
Definition readiness_of (ready_when : option ReadyWhen) (logRe : bool) : readiness :=
  match ready_when with
  | None => AtStart
  | Some rw =>
      if negb (bool_decide (rw_HTTP rw = "")) then OnHTTP (rw_HTTP rw)
      else if negb (bool_decide (rw_TCP rw = "")) then OnTCP (rw_TCP rw)
      else if negb (bool_decide (rw_Cmd rw = "")) then OnCmd
      else if logRe then OnLog else Never
  end.

(** Without a probe, a process is ready when it has started.
    Source: internal/runner/lifecycle.go:434-441 (buildReadinessCallbacks, no probe). *)
Definition ready_at_start (gen : Z) : pb () :=
  marked ← on_state (λ cancelled, markReadyFor cancelled gen true None);
  if marked : bool then _ ← emit Broadcast; emit (LogLine "info" "process.ready" "ready") else mret ().

(** One line of output.
    Source: internal/runner/lifecycle.go:499-504 (buildReadinessCallbacks, log line). *)
Definition log_line (gen : Z) (matches : bool) : pb () :=
  if matches then
    marked ← on_state (λ cancelled, markReadyFor cancelled gen true None);
    if marked : bool then _ ← emit Broadcast; emit (LogLine "info" "process.ready" "ready (log match)") else mret ()
  else mret ().

(** The timer of a log probe; [None] is a context that ended first.
    Source: internal/runner/lifecycle.go:484-498 (buildReadinessCallbacks, log timeout). *)
Definition log_timeout (gen timeout : Z) (fired : option others) : pb () :=
  if (0 <? timeout)%Z then
    match fired with
    | None => await_ctx
    | Some o =>
        _ ← meanwhile o;
        let msg := "readiness probe (log) timed out after " +:+ duration_text timeout in
        failed ← on_state (λ cancelled, failReadinessFor cancelled gen msg);
        if failed : bool then _ ← emit (LogLine "error" "readiness.failed" msg); cancel_incarnation else mret ()
    end
  else mret ().

(** A probe's goroutine, from its start to its end.
    Source: internal/runner/lifecycle.go:442-456 (buildReadinessCallbacks, http). *)
Definition http_readiness (refuse : bool) (p : procInfo) (gen : Z) (url : string) (timeout start : Z) (rounds : list (round http_answer))
    : pb (option ()) :=
  x ← probeHTTP url timeout start rounds (newOwnerCheck refuse p gen "http");
  match x with
  | (Some (ok, rejected), c) => _ ← handleProbeResult p gen "http" ok rejected (oc_owner c); mret (Some ())
  | (None, _) => mret None
  end.

(** Source: internal/runner/lifecycle.go:457-471 (buildReadinessCallbacks, tcp). *)
Definition tcp_readiness (refuse : bool) (p : procInfo) (gen : Z) (addr : string) (timeout start : Z) (rounds : list (round tcp_answer))
    : pb (option ()) :=
  x ← probeTCP addr timeout start rounds (newOwnerCheck refuse p gen "tcp");
  match x with
  | (Some (ok, rejected), c) => _ ← handleProbeResult p gen "tcp" ok rejected (oc_owner c); mret (Some ())
  | (None, _) => mret None
  end.

(** Source: internal/runner/lifecycle.go:472-482 (buildReadinessCallbacks, cmd). *)
Definition cmd_readiness (p : procInfo) (gen : Z) (timeout start : Z) (rounds : list cmd_round) : pb (option ()) :=
  x ← probeCmd timeout start rounds;
  match x with
  | Some (ok, detail) => _ ← handleProbeResult p gen "cmd" ok detail None; mret (Some ())
  | None => mret None
  end.

(** ** Health checks *)

(** How a check is answered: by kind. *)
Inductive health_answer : Type :=
  | HealthHTTP (a : http_answer)
  | HealthTCP (a : tcp_answer)
  | HealthCmd (res : CheckResult) (ended : option string).

Definition attempt_error (a : attempt) : option string :=
  match a with BadURL err | Failed err => Some err | Answered _ => None end.
Definition attempt_owner (a : attempt) : option EndpointOwner :=
  match a with Answered owner => owner | _ => None end.

(** The kind of answer the probe block asks for.
    Source: internal/runner/probe.go:440-471 (healthCheck, cases). *)
Definition answers_block (hw : ReadyWhen) (answer : health_answer) : bool :=
  match answer with
  | HealthHTTP _ => negb (bool_decide (rw_HTTP hw = ""))
  | HealthTCP _ => bool_decide (rw_HTTP hw = "") && negb (bool_decide (rw_TCP hw = ""))
  | HealthCmd _ _ => bool_decide (rw_HTTP hw = "") && bool_decide (rw_TCP hw = "") && negb (bool_decide (rw_Cmd hw = ""))
  end.

(** Whether the check passed, its detail, whether it was skipped, and who
    answered.  [cancelled] is whether the incarnation's context has ended.
    Source: internal/runner/probe.go:431-472 (healthCheck). *)
Definition healthCheck (hw : ReadyWhen) (answer : health_answer) (cancelled : bool) : bool * string * bool * option EndpointOwner :=
  if negb (answers_block hw answer) then (false, "", true, None)
  else match answer with
  | HealthHTTP a =>
      match attempt_error (httpOnce a) with
      | Some err => (false, "http: " +:+ err, false, None)
      | None => (true, "", false, attempt_owner (httpOnce a))
      end
  | HealthTCP a =>
      match attempt_error (tcpOnce a) with
      | Some err => (false, "tcp: " +:+ err, false, None)
      | None => (true, "", false, attempt_owner (tcpOnce a))
      end
  | HealthCmd res ended =>
      let '(passed, res) := exitedZeroInTime ended res in
      if passed then (true, "", false, None)
      else if ck_HandedOff res || ck_AdmissionRefused res || cancelled then (false, "", true, None)
      else match ck_Err res with
           | Some err => if negb (ck_Started res) then (false, "health check not run: " +:+ err, true, None)
                         else (false, cmdProbeFailure res, false, None)
           | None => (false, cmdProbeFailure res, false, None)
           end
  end.

(** What ends a wait of the monitor. *)
Inductive health_wake : Type := HealthCancelled | HealthHandoff | HealthTimer.

(** A turn of the monitor: the end of its wait, what the others do meanwhile,
    the answer, and what the others do during the check and between the two
    operations that record its owner and its result. *)
Record health_round : Type := mkHealthRound {
  hr_wake : health_wake;
  hr_waiting : others;
  hr_answer : health_answer;
  hr_checking : others;
  hr_between : others;
}.

(** How a result is judged once its owner is known: a refused answer is a
    failure.
    Source: internal/runner/probe.go:379-391 (monitorHealth, owner). *)
Definition judge_health (refuse : bool) (p : procInfo) (hw : ReadyWhen) (gen : Z) (ok : bool) (detail : string) (owner : option EndpointOwner)
    : pb (bool * string) :=
  match owner with
  | Some o =>
      if ok then
        let refusal := refusalOf (Some o) (bool_decide (EffectiveForeignListener (pi_proc p) = ForeignListenerReject)) refuse in
        warn ← on_state (λ cancelled, recordHealthOwner cancelled gen (Some o));
        _ ← (if warn : bool
             then emit (LogLine "warn" "health.foreign_listener" (foreignListenerMessage (pi_name p) "health check" o refusal))
             else mret ());
        mret (if bool_decide (refusal = "") then (true, detail)
              else (false, (if bool_decide (rw_HTTP hw = "") then "tcp" else "http") +:+ ": " +:+ foreignListenerError (pi_name p) o))
      else mret (ok, detail)
  | None => mret (ok, detail)
  end.

(** A check that was not run: logged when refusals begin.
    Source: internal/runner/probe.go:392-401 (monitorHealth, skipped). *)
Definition record_skipped (gen : Z) (skipped : bool) (detail : string) (refusing : bool) : pb bool :=
  let refused := skipped && negb (bool_decide (detail = "")) in
  _ ← (if refused && negb refusing then
         _ ← emit (LogLine "warn" "health.check_skipped" detail);
         changed ← on_state (λ cancelled, recordHealthSkipped cancelled gen detail);
         if changed : bool then emit Broadcast else mret ()
       else mret ());
  mret refused.

(** The result of a check; [true] ends the monitor.
    Source: internal/runner/probe.go:402-426 (monitorHealth, result). *)
Definition record_result (gen : Z) (restart ok : bool) (detail : string) : pb bool :=
  transition ← on_state (λ cancelled, recordHealth cancelled gen ok detail restart);
  _ ← match transition with
      | healthCheckFailed | healthBecameUnhealthy => emit (LogLine "debug" "health.check_failed" ("health check failed: " +:+ detail))
      | _ => mret ()
      end;
  match transition with
  | healthBecameHealthy => _ ← emit Broadcast; mret false
  | healthRecovered => _ ← emit Broadcast; _ ← emit (LogLine "info" "health.recovered" "healthy again"); mret false
  | healthBecameUnhealthy =>
      _ ← emit Broadcast;
      let msg := "unhealthy: " +:+ itoa healthThreshold +:+ " consecutive health checks failed (last: " +:+ detail +:+ ")" in
      let msg := if restart then msg +:+ "; restarting through the restart policy" else msg in
      _ ← emit (LogLine "error" "health.unhealthy" msg);
      if restart then _ ← cancel_incarnation; mret true else mret false
  | healthNone | healthCheckFailed => mret false
  end.

(** How the monitor ends: with its incarnation or at the handoff, or by ending
    its incarnation. *)
Inductive monitor_end : Type := MonitorStopped | MonitorRestarts.

(** Source: internal/runner/probe.go:366-428 (monitorHealth, loop). *)
Fixpoint monitor_loop (refuse : bool) (p : procInfo) (hw : ReadyWhen) (gen : Z) (restart refusing : bool) (rounds : list health_round)
    : pb (option monitor_end) :=
  match rounds with
  | [] => mret None
  | r :: rounds =>
      _ ← meanwhile (hr_waiting r);
      match hr_wake r with
      | HealthCancelled => _ ← await_ctx; mret (Some MonitorStopped)
      | HealthHandoff => mret (Some MonitorStopped)
      | HealthTimer =>
          _ ← meanwhile (hr_checking r);
          cancelled ← ctx_ended;
          let '(ok, detail, skipped, owner) := healthCheck hw (hr_answer r) cancelled in
          if cancelled : bool then mret (Some MonitorStopped)
          else
            x ← judge_health refuse p hw gen ok detail owner;
            let '(ok, detail) := x in
            refusing ← record_skipped gen skipped detail refusing;
            _ ← meanwhile (hr_between r);
            restarts ← (if skipped then mret false else record_result gen restart ok detail);
            if restarts : bool then mret (Some MonitorRestarts)
            else monitor_loop refuse p hw gen restart refusing rounds
      end
  end.

(** [wake] is what ends the wait for the cycle of readiness to settle (that it
    settled is [HealthTimer]), [o] what the others do until then.
    Source: internal/runner/probe.go:337-429 (monitorHealth). *)
Definition monitorHealth (refuse : bool) (p : procInfo) (hw : ReadyWhen) (gen : Z) (wake : health_wake) (o : others) (rounds : list health_round)
    : pb (option monitor_end) := λ w,
  let cycle := currentReadyCycle (pw_st w) in
  (_ ← meanwhile o;
   match wake with
   | HealthCancelled => _ ← await_ctx; mret (Some MonitorStopped)
   | HealthHandoff => mret (Some MonitorStopped)
   | HealthTimer =>
       ready ← on_state (λ _ st, (bool_decide (outcomeOf cycle st = readySatisfied) && (st_generation st =? gen)%Z, st));
       if negb ready then mret (Some MonitorStopped)
       else monitor_loop refuse p hw gen (bool_decide (EffectiveHealthAction (pi_proc p) = HealthActionRestart)) false rounds
   end) w.

(** The period of the checks and the limit of each.
    Source: internal/runner/probe.go:360-363 (monitorHealth, interval). *)
Definition health_interval (p : procInfo) : Z := int64 (EffectiveHealthInterval (pi_proc p) * Second).
(** Source: internal/runner/probe.go:360-363 (monitorHealth, interval). *)
Definition health_timeout (p : procInfo) : Z := Z.min (health_interval p) cmdProbeAttemptTimeout.

End probing.
