(* ===== verification/Readiness.v ===== *)
(** * Readiness probes and health checks: what is shown

    The verdicts of the goroutines of [Probes]: a process is reported ready, or
    its incarnation is ended for not being ready, only on the answers that
    justify it, and it is restarted for its health exactly when its checks say
    so. *)

From S2P Require Import Prelude GoStrings ConfigTypes RunnerState Lifecycle Groups Teardown Attest Probes.

Lemma pb_bind_eq {A B} (m : pb A) (f : A → pb B) w : (m ≫= f) w = f (m w).1 (m w).2.
Proof. unfold mbind, pb_bind. by destruct (m w). Qed.

Lemma on_state_eq {A} (f : bool → procState → A * procState) w :
  on_state f w = ((f (pw_cancelled w) (pw_st w)).1, mkPWorld (f (pw_cancelled w) (pw_st w)).2 (pw_cancelled w) (pw_out w)).
Proof. unfold on_state. by destruct (f _ _). Qed.

(** ** Effects *)

(** The effects that report a verdict or act on it. *)
Definition verdict_effect (e : effect) : bool :=
  match e with
  | Broadcast => false
  | LogLine _ event _ => bool_decide (event = "process.ready") || bool_decide (event = "readiness.failed")
                         || bool_decide (event = "health.unhealthy")
  | CancelIncarnation => true
  end.

(** The verdicts given so far. *)
Definition verdicts (w : pworld) : list effect := List.filter verdict_effect (pw_out w).

Lemma verdicts_app w st b es :
  verdicts (mkPWorld st b (pw_out w ++ es)) = verdicts w ++ List.filter verdict_effect es.
Proof. unfold verdicts. cbn. by rewrite List.filter_app. Qed.

(** ** Attempts that count *)

(** Who gave the answer that is taken, if it is. *)
Definition accepted (reject refuse : bool) (a : attempt) : option EndpointOwner :=
  match a with
  | Answered owner =>
      let o := owner_or_unknown owner in
      if bool_decide (refusalOf (Some o) reject refuse = "") then Some o else None
  | _ => None
  end.

(** The detail of a refused answer. *)
Definition refused_detail (name : string) (a : attempt) : string :=
  match a with Answered owner => foreignListenerError name (owner_or_unknown owner) | _ => "" end.

(** The check is of the same probe. *)
Definition same_check (c c' : ownerCheck) : Prop :=
  oc_name c' = oc_name c ∧ oc_gen c' = oc_gen c ∧ oc_reject c' = oc_reject c ∧ oc_refuseCrossSession c' = oc_refuseCrossSession c.

Lemma judge_attempt_spec a c w : let x := judge_attempt a c w in let '(err, rejected, c') := x.1 in
  same_check c c' ∧ verdicts x.2 = verdicts w ∧ pw_cancelled x.2 = pw_cancelled w ∧
  match accepted (oc_reject c) (oc_refuseCrossSession c) a with
  | Some o => err = None ∧ rejected = "" ∧ oc_owner c' = Some o
  | None => is_Some err ∧ rejected = refused_detail (oc_name c) a
  end.
Proof.
  destruct a as [err|err|owner]; cbn [judge_attempt accepted refused_detail]; [by split_and!|by split_and!|].
  rewrite pb_bind_eq. unfold accept. case_bool_decide as Hr; cbn; [by split_and!|].
  rewrite pb_bind_eq. cbn. unfold on_state. destruct (recordRefusedOwner _ _ _) as [recorded st]. cbn. unfold mbind, pb_bind. cbn.
  destruct (recorded && negb (oc_warned c)); cbn; split_and!; try done.
  unfold verdicts. cbn. rewrite !List.filter_app. cbn. by rewrite !app_nil_r.
Qed.

(** How a turn ends the poll, if it does: an answer that is taken; a URL that
    no attempt can use; the deadline, whose detail is the refusal of the last
    attempt; the end of the context. *)
Definition stops {A} (once : A → attempt) (reject refuse : bool) (name : string) (deadline : option Z) (r : round A) : option (bool * string) :=
  let a := once (rd_answer r) in
  match accepted reject refuse a with
  | Some _ => Some (true, "")
  | None =>
      if is_bad a then Some (false, "")
      else if past (rd_after r) deadline then Some (false, refused_detail name a)
      else match rd_pause r with PauseCancelled => Some (false, "") | _ => None end
  end.

(** The incarnation is ended during the turn. *)
Definition ends_ctx {A} (r : round A) : bool := ot_cancel (rd_others r) || ot_cancel (rd_meanwhile r) || ot_cancel (rd_paused r).

(** What a poll that ended leaves: its verdict, who gave the answer that was
    taken, and, when the context is still live, that nothing has ended it. *)
Record polled {A} (once : A → attempt) (reject refuse : bool) (name : string) (deadline : option Z)
    (before : list (round A)) (r : round A) (c : ownerCheck) (w : pworld)
    (x : option (bool * string) * ownerCheck * pworld) : Prop := mkPolled {
  polled_verdict : x.1.1 = stops once reject refuse name deadline r;
  polled_check : same_check c x.1.2;
  polled_silent : verdicts x.2 = verdicts w;
  polled_owner : is_Some (accepted reject refuse (once (rd_answer r))) → oc_owner x.1.2 = accepted reject refuse (once (rd_answer r));
  polled_live : pw_cancelled x.2 = false →
    pw_cancelled w = false ∧ forallb (λ r, negb (ends_ctx r)) before = true ∧ ot_cancel (rd_others r) = false ∧
    (accepted reject refuse (once (rd_answer r)) = None →
     is_bad (once (rd_answer r)) = true ∨ past (rd_after r) deadline = true ∧ ot_cancel (rd_meanwhile r) = false);
}.

Lemma same_check_trans c1 c2 c3 : same_check c1 c2 → same_check c2 c3 → same_check c1 c3.
Proof. unfold same_check. intuition congruence. Qed.

Section polling.
Context (seconds_text duration_text : Z → string) {A : Type} (once : A → attempt).

Lemma verdicts_progress msg w : verdicts (progress msg w).2 = verdicts w.
Proof. etransitivity; [apply verdicts_app|]. apply app_nil_r. Qed.

Lemma tick_progress_silent kind target start deadline since now until w :
  let x := tick_progress seconds_text kind target start deadline since now until w in
  verdicts x.2 = verdicts w ∧ pw_cancelled x.2 = pw_cancelled w.
Proof. unfold tick_progress. destruct deadline; [case_match; [done|]|]; cbn; (split; [apply verdicts_progress|done]). Qed.

Lemma progress_live msg w : pw_cancelled (progress msg w).2 = pw_cancelled w.
Proof. done. Qed.

Notation poll := (poll seconds_text duration_text once).

(** Where a turn leaves the poll: the world and the check with which it goes
    on, unless the turn stops it. *)
Lemma poll_turn kind target timeout start deadline failures r rounds c w :
  let reject := oc_reject c in let refuse := oc_refuseCrossSession c in
  let x := poll kind target timeout start deadline failures (r :: rounds) c w in
  match stops once reject refuse (oc_name c) deadline r with
  | Some v => polled once reject refuse (oc_name c) deadline [] r c w x
  | None => ∃ failures' c' w', x = poll kind target timeout start deadline failures' rounds c' w' ∧
      same_check c c' ∧ verdicts w' = verdicts w ∧ pw_cancelled w' = pw_cancelled w || ends_ctx r
  end.
Proof.
  intros reject refuse x. unfold x. clear x. cbn [Probes.poll]. rewrite !pb_bind_eq. cbn [meanwhile fst snd].
  set (w1 := mkPWorld _ _ _).
  pose proof (judge_attempt_spec (once (rd_answer r)) c w1) as Hj. cbn zeta in Hj.
  destruct (judge_attempt (once (rd_answer r)) c w1) as [[[err rejected] c'] w2]. cbn [fst snd] in Hj |- *.
  destruct Hj as (Hc & Hv & Hx & Hj). subst reject refuse.
  unfold stops. destruct (accepted _ _ (once (rd_answer r))) as [o|] eqn:Ha.
  { destruct Hj as (-> & -> & Ho). cbn. split; cbn; rewrite ?Ha; try done.
    - unfold stops. by rewrite Ha.
    - rewrite Hx. cbn. intros [-> ->]%orb_false_iff. split_and!; done. }
  destruct Hj as ([err' ->] & ->). destruct (is_bad _) eqn:Hb.
  { rewrite pb_bind_eq. cbn. split; cbn; rewrite ?Ha; try done.
    - unfold stops. by rewrite Ha, Hb.
    - etransitivity; [apply verdicts_progress|done].
    - rewrite Hx. cbn. intros [-> ->]%orb_false_iff. split_and!; try done. by left. }
  rewrite pb_bind_eq. set (w3 := snd _).
  assert (verdicts w3 = verdicts w2 ∧ pw_cancelled w3 = pw_cancelled w2) as [Hv3 Hx3].
  { unfold w3. destruct (5 <? S failures); [split; [apply verdicts_progress|done]|done]. }
  clearbody w3. rewrite pb_bind_eq. cbn [meanwhile fst snd]. set (w4 := mkPWorld _ _ _).
  destruct (past (rd_after r) deadline) eqn:Hp.
  { rewrite pb_bind_eq. cbn. split; cbn; rewrite ?Ha; try done.
    - unfold stops. by rewrite Ha, Hb, Hp.
    - etransitivity; [apply verdicts_progress|]. change (verdicts w3 = verdicts w). by rewrite Hv3, Hv.
    - rewrite Hx3, Hx. cbn. intros [[-> ->]%orb_false_iff ->]%orb_false_iff. split_and!; try done. by right. }
  rewrite pb_bind_eq. cbn [meanwhile fst snd]. set (w5 := mkPWorld _ _ _).
  assert (verdicts w5 = verdicts w ∧ pw_cancelled w5 = pw_cancelled w || ends_ctx r) as [Hv5 Hx5].
  { split; [change (verdicts w3 = verdicts w); by rewrite Hv3, Hv|]. unfold w5, w4, ends_ctx. cbn. rewrite Hx3, Hx. cbn.
    by rewrite <-!orb_assoc. }
  clearbody w5. destruct (rd_pause r) as [|since now until|] eqn:Hpa.
  - rewrite pb_bind_eq. cbn. split; cbn; rewrite ?Ha; try done.
    + unfold stops. by rewrite Ha, Hb, Hp, Hpa.
  - rewrite pb_bind_eq. eexists _, c', _. split; [done|]. split; [done|].
    destruct (tick_progress_silent kind target start deadline since now until w5) as [-> ->]. done.
  - eexists _, c', _. split; [done|]. done.
Qed.

Lemma polled_later reject refuse name deadline r0 before r c c' w w' x :
  same_check c c' → verdicts w' = verdicts w → pw_cancelled w' = pw_cancelled w || ends_ctx r0 →
  polled once reject refuse name deadline before r c' w' x → polled once reject refuse name deadline (r0 :: before) r c w x.
Proof.
  intros Hc Hv Hx [Hverdict Hcheck Hsilent Howner Hlive]. split; try done.
  - by eapply same_check_trans.
  - congruence.
  - intros Hl. destruct (Hlive Hl) as (Hw & Hb & Hr). rewrite Hx in Hw. apply orb_false_iff in Hw as [-> He].
    cbn. by rewrite He, Hb.
Qed.

(** A poll ends in the first turn that stops it, with the verdict of that turn. *)
Lemma poll_spec kind target timeout start deadline failures rounds c w :
  let stops := stops once (oc_reject c) (oc_refuseCrossSession c) (oc_name c) deadline in
  let x := poll kind target timeout start deadline failures rounds c w in
  (x.1.1 = None ∧ verdicts x.2 = verdicts w ∧ Forall (λ r, stops r = None) rounds) ∨
  ∃ before r after, rounds = before ++ r :: after ∧ Forall (λ r, stops r = None) before ∧ is_Some (stops r) ∧
    polled once (oc_reject c) (oc_refuseCrossSession c) (oc_name c) deadline before r c w x.
Proof.
  revert failures c w; induction rounds as [|r0 rounds IH]; intros failures c w; [by left|]. cbv zeta.
  pose proof (poll_turn kind target timeout start deadline failures r0 rounds c w) as Ht. cbv zeta in Ht.
  destruct (stops _ _ _ _ _ r0) as [v|] eqn:Hs; [right; exists [], r0, rounds; by rewrite Hs|].
  destruct Ht as (failures' & c' & w' & -> & Hc & Hv & Hx).
  specialize (IH failures' c' w'). cbv zeta in IH. destruct (Hc) as (Hc1 & Hc2 & Hc3 & Hc4).
  rewrite Hc1, Hc3, Hc4 in IH. destruct IH as [(Hn & Hv' & Hall)|(before & r & after & -> & Hall & Hsome & Hpolled)].
  - left. split; [done|]. split; [congruence|]. by constructor.
  - right. exists (r0 :: before), r, after. split; [done|]. split; [by constructor|]. split; [done|].
    by eapply polled_later.
Qed.
End polling.

(** ** What a verdict reports *)

Definition ready_report (kind : string) : list effect := [LogLine "info" "process.ready" ("ready (" +:+ kind +:+ " probe)")].
Definition failure_message (kind detail : string) : string :=
  let msg := "readiness probe (" +:+ kind +:+ ") timed out" in
  if bool_decide (detail = "") then msg else msg +:+ " (last attempt: " +:+ detail +:+ ")".
Definition failure_report (kind detail : string) : list effect :=
  [LogLine "error" "readiness.failed" (failure_message kind detail); CancelIncarnation].

(** A passed probe makes its incarnation ready, or reports nothing. *)
Lemma handle_passed p gen kind detail owner w :
  let w' := (handleProbeResult p gen kind true detail owner w).2 in
  let m := markReadyFor (pw_cancelled w) gen true owner (pw_st w) in
  pw_st w' = m.2 ∧ pw_cancelled w' = pw_cancelled w ∧
  verdicts w' = verdicts w ++ if m.1 then ready_report kind else [].
Proof.
  cbn zeta. unfold handleProbeResult. rewrite pb_bind_eq. unfold on_state. cbn beta.
  destruct (markReadyFor _ _ _ _ _) as [[] st]; cbn [fst snd].
  2:{ by rewrite app_nil_r. }
  rewrite !pb_bind_eq. cbn [fst snd emit pw_st pw_cancelled pw_out].
  destruct owner as [o|]; [case_bool_decide|]; cbn [emit mret pb_ret snd pw_st pw_cancelled pw_out];
    (split; [done|]; split; [done|]); rewrite <-?(assoc_L (++)); apply (verdicts_app w).
Qed.

(** A failed probe fails the readiness of its incarnation and ends it, or does
    nothing. *)
Lemma handle_failed p gen kind detail owner w :
  let w' := (handleProbeResult p gen kind false detail owner w).2 in
  let m := failReadinessFor (pw_cancelled w) gen (failure_message kind detail) (pw_st w) in
  pw_st w' = m.2 ∧ verdicts w' = verdicts w ++ if m.1 then failure_report kind detail else [].
Proof.
  cbn zeta. unfold handleProbeResult, failure_report. rewrite pb_bind_eq. unfold on_state. cbn beta.
  change (if bool_decide (detail = "") then _ else _) with (failure_message kind detail).
  destruct (failReadinessFor _ _ _ _) as [[] st]; cbn [fst snd].
  2: by rewrite app_nil_r.
  rewrite pb_bind_eq. split; [done|]. unfold cancel_incarnation, emit. cbn [snd pw_out pw_st pw_cancelled].
  rewrite <-(assoc_L (++)). apply (verdicts_app w).
Qed.

(** ** The cmd probe *)

Definition cmd_passed (r : cmd_round) : bool := (exitedZeroInTime (cr_ended r) (cr_result r)).1.

(** The incarnation is ended during the attempt or in the pause after it. *)
Definition cmd_ends_ctx (r : cmd_round) : bool := ot_cancel (cr_others r) || ot_cancel (cr_paused r) || cr_pause_cancelled r.

(** The probe gives up: it was handed over by a shutdown, or its time limit
    ended the attempt or leaves no time for another. *)
Definition cmd_gives_up (deadline : option Z) (r : cmd_round) : Prop :=
  ck_HandedOff (cr_result r) = true ∨
  is_Some deadline ∧ (cutByTimeout r deadline = true ∨ (cr_remaining r <= cmdProbeRetryDelay)%Z).

Lemma exitedZeroInTime_HandedOff ended res : ck_HandedOff (exitedZeroInTime ended res).2 = ck_HandedOff res.
Proof. unfold exitedZeroInTime. by repeat case_match. Qed.

(** How a cmd probe ended. *)
Record cmd_polled (deadline : option Z) (before : list cmd_round) (r : cmd_round) (w : pworld) (x : option (bool * string) * pworld) : Prop := mkCmdPolled {
  cp_silent : verdicts x.2 = verdicts w;
  cp_verdict : if cmd_passed r then x.1 = Some (true, "") else ∃ detail, x.1 = Some (false, detail);
  cp_live : pw_cancelled x.2 = false →
    pw_cancelled w = false ∧ forallb (λ r, negb (cmd_ends_ctx r)) before = true ∧ ot_cancel (cr_others r) = false ∧
    (cmd_passed r = false → cmd_gives_up deadline r);
}.

Lemma cmd_pause_spec r w :
  (cmd_pause r w).1 = cr_pause_cancelled r ∧ verdicts (cmd_pause r w).2 = verdicts w ∧
  pw_cancelled (cmd_pause r w).2 = pw_cancelled w || ot_cancel (cr_paused r) || cr_pause_cancelled r.
Proof.
  unfold cmd_pause. rewrite pb_bind_eq. destruct (cr_pause_cancelled r); cbn; [by rewrite orb_true_r|by rewrite orb_false_r].
Qed.

Section cmd.
Context (seconds_text duration_text : Z → string).

Lemma cmd_next failures last deadline r rounds w :
  let x := (_ ← (if 5 <? failures then progress ("probe cmd: " +:+ last) else mret ());
            stop ← cmd_pause r;
            if stop : bool then mret (Some (false, "")) else cmd_loop deadline failures last rounds) w in
  (cr_pause_cancelled r = true ∧ x.1 = Some (false, "") ∧ verdicts x.2 = verdicts w ∧ pw_cancelled x.2 = true) ∨
  (∃ w', x = cmd_loop deadline failures last rounds w' ∧ verdicts w' = verdicts w ∧
     pw_cancelled w' = pw_cancelled w || ot_cancel (cr_paused r) || cr_pause_cancelled r).
Proof.
  cbv zeta. rewrite pb_bind_eq. set (w1 := snd _).
  assert (verdicts w1 = verdicts w ∧ pw_cancelled w1 = pw_cancelled w) as [Hv <-].
  { unfold w1. case_match; [split; [apply verdicts_progress|done]|done]. }
  rewrite <-Hv. clearbody w1. rewrite pb_bind_eq. destruct (cmd_pause_spec r w1) as (-> & Hv1 & Hx1).
  destruct (cr_pause_cancelled r).
  - left. cbn. split_and!; [done..|]. by rewrite Hx1, orb_true_r.
  - right. by eexists.
Qed.

Lemma cmd_turn deadline failures last r rounds w :
  let x := cmd_loop deadline failures last (r :: rounds) w in
  cmd_polled deadline [] r w x ∨
  (cmd_passed r = false ∧ ∃ failures' last' w', x = cmd_loop deadline failures' last' rounds w' ∧ verdicts w' = verdicts w ∧
     pw_cancelled w' = pw_cancelled w || cmd_ends_ctx r).
Proof.
  cbv zeta. cbn [cmd_loop]. rewrite pb_bind_eq. cbn [meanwhile fst snd]. set (w1 := mkPWorld _ _ _).
  assert (cmd_passed r = (exitedZeroInTime (cr_ended r) (cr_result r)).1) as Hp by done.
  pose proof (exitedZeroInTime_HandedOff (cr_ended r) (cr_result r)) as Hh.
  destruct (exitedZeroInTime _ _) as [passed res]. cbn [fst snd] in Hp, Hh. rewrite pb_bind_eq. cbn [ctx_ended fst snd].
  assert (pw_cancelled w1 = pw_cancelled w || ot_cancel (cr_others r)) as Hb by done.
  assert (verdicts w1 = verdicts w) as Hv1 by done. clearbody w1.
  destruct passed.
  { left. split; rewrite ?Hp; try done. cbn. rewrite Hb. intros [-> ->]%orb_false_iff. done. }
  destruct (ck_HandedOff res || pw_cancelled w1) eqn:Hhb.
  { left. split; rewrite ?Hp; [done|by eexists|]. cbn. intros Hb'. rewrite Hb', orb_false_r in Hhb.
    rewrite Hb in Hb'. apply orb_false_iff in Hb' as [-> ->]. split_and!; [done..|]. left. congruence. }
  destruct (ck_AdmissionRefused res && cr_stopping r).
  { left. split; rewrite ?Hp; [done|by eexists|done]. }
  destruct (cutByTimeout r deadline && negb (bool_decide (last = ""))) eqn:Hcut.
  { left. split; rewrite ?Hp; [done|by eexists|]. cbn. rewrite Hb. intros [-> ->]%orb_false_iff.
    split_and!; [done..|]. right. apply andb_true_iff in Hcut as [Hcut _]. split; [|by left].
    unfold cutByTimeout in Hcut. apply andb_true_iff in Hcut as [_ Hd%bool_decide_eq_true]. rewrite Hd. by eexists. }
  assert (∀ x, x = ((_ ← (if 5 <? S failures then progress ("probe cmd: " +:+ cmdProbeFailure res) else mret ());
            stop ← cmd_pause r;
            if stop : bool then mret (Some (false, "")) else cmd_loop deadline (S failures) (cmdProbeFailure res) rounds) w1) →
     cmd_polled deadline [] r w x ∨
     (cmd_passed r = false ∧ ∃ failures' last' w', x = cmd_loop deadline failures' last' rounds w' ∧ verdicts w' = verdicts w ∧
        pw_cancelled w' = pw_cancelled w || cmd_ends_ctx r)) as Hgo.
  { intros x ->. destruct (cmd_next (S failures) (cmdProbeFailure res) deadline r rounds w1) as [(Hc & Hx1 & Hx2 & Hx3)|(w' & -> & Hv & Hx)].
    - left. split; rewrite ?Hp; [congruence|by eexists|congruence].
    - right. split; [done|]. eexists _, _, w'. split_and!; [done|congruence|]. rewrite Hx. unfold cmd_ends_ctx. rewrite Hb. by rewrite <-!orb_assoc. }
  destruct deadline as [d|]; [|by apply Hgo]. destruct (cr_remaining r <=? cmdProbeRetryDelay)%Z eqn:Hrem; [|by apply Hgo].
  left. rewrite pb_bind_eq. destruct (cmd_pause_spec r w1) as (-> & Hv & Hx). split; rewrite ?Hp; [by rewrite <-Hv1, <-Hv|by destruct (cr_pause_cancelled r); eexists|].
  cbn [mret pb_ret snd]. rewrite Hx. rewrite Hb. intros [[[-> ->]%orb_false_iff _]%orb_false_iff Hpc]%orb_false_iff.
  split_and!; [done..|]. right. split; [by eexists|]. right. by apply Z.leb_le in Hrem.
Qed.

Lemma cmd_spec deadline failures last rounds w :
  let x := cmd_loop deadline failures last rounds w in
  (x.1 = None ∧ verdicts x.2 = verdicts w) ∨
  ∃ before r after, rounds = before ++ r :: after ∧ Forall (λ r, cmd_passed r = false) before ∧ cmd_polled deadline before r w x.
Proof.
  revert failures last w; induction rounds as [|r0 rounds IH]; intros failures last w; [by left|]. cbv zeta.
  destruct (cmd_turn deadline failures last r0 rounds w) as [Ht|(Hp & failures' & last' & w' & -> & Hv & Hx)];
    [right; by exists [], r0, rounds|].
  destruct (IH failures' last' w') as [[Hn Hv']|(before & r & after & -> & Hall & [Hs Hverdict Hl])].
  - left. split; [done|congruence].
  - right. exists (r0 :: before), r, after. split; [done|]. split; [by constructor|]. split; [congruence|done|].
    intros Hlive. destruct (Hl Hlive) as (Hw & Hb & Hr). rewrite Hx in Hw. apply orb_false_iff in Hw as [-> He].
    cbn. by rewrite He, Hb.
Qed.
End cmd.

(** ** The verdicts of readiness are justified *)

(** What a probe that went from [w] to [w'] has reported, if anything: that its
    incarnation is ready, on the first answer that is taken, which is recorded
    with its owner; or that it failed, when no answer was taken and the probe
    gives up.  Either way the incarnation was not ended before. *)
Definition justified {R} (answer : R → option (option EndpointOwner)) (gives_up : R → Prop) (ended : R → bool)
    (kind : string) (gen : Z) (rounds : list R) (w w' : pworld) : Prop :=
  verdicts w' = verdicts w ∨
  ∃ before r after, rounds = before ++ r :: after ∧ pw_cancelled w = false ∧
    Forall (λ r, answer r = None) before ∧ forallb (λ r, negb (ended r)) before = true ∧
    ((∃ owner st, answer r = Some owner ∧ verdicts w' = verdicts w ++ ready_report kind ∧
        markReadyFor false gen true owner st = (true, pw_st w')) ∨
     (∃ detail st, answer r = None ∧ gives_up r ∧ verdicts w' = verdicts w ++ failure_report kind detail ∧
        failReadinessFor false gen (failure_message kind detail) st = (true, pw_st w'))).

(** The answer of a turn, when it is taken. *)
Definition taken {A} (once : A → attempt) (refuse : bool) (p : procInfo) (r : round A) : option (option EndpointOwner) :=
  Some <$> accepted (bool_decide (EffectiveForeignListener (pi_proc p) = ForeignListenerReject)) refuse (once (rd_answer r)).

(** A turn that ends a probe without an answer: the time limit has passed, or no
    attempt can be made. *)
Definition out_of_time {A} (once : A → attempt) (timeout start : Z) (r : round A) : Prop :=
  is_bad (once (rd_answer r)) = true ∨ (0 < timeout ∧ start + timeout < rd_after r)%Z.

Lemma past_deadlineFor now start timeout : past now (deadlineFor start timeout) = true → (0 < timeout ∧ start + timeout < now)%Z.
Proof. unfold deadlineFor. case_match eqn:Ht; [done|]. cbn. apply Z.leb_gt in Ht. intros ?%Z.ltb_lt. lia. Qed.

Lemma marked_live cancelled gen ok owner st : (markReadyFor cancelled gen ok owner st).1 = true → cancelled = false.
Proof. unfold markReadyFor, latchReady. destruct (open_cycle st); [|done]. by destruct (st_probeFailed st), cancelled. Qed.

Lemma failed_live cancelled gen msg st : (failReadinessFor cancelled gen msg st).1 = true → cancelled = false.
Proof. unfold failReadinessFor. by destruct cancelled. Qed.

(** A verdict that was reached while the incarnation lived. *)
Lemma conclude {R} (answer : R → option (option EndpointOwner)) gives_up ended kind gen before r after w w1 w' ok detail owner p :
  w' = (handleProbeResult p gen kind ok detail owner w1).2 →
  verdicts w1 = verdicts w → Forall (λ r, answer r = None) before →
  (pw_cancelled w1 = false → pw_cancelled w = false ∧ forallb (λ r, negb (ended r)) before = true) →
  (if ok then answer r = Some owner else answer r = None ∧ (pw_cancelled w1 = false → gives_up r)) →
  justified answer gives_up ended kind gen (before ++ r :: after) w w'.
Proof.
  intros -> Hv Hall Hlive Hr. destruct ok.
  - destruct (handle_passed p gen kind detail owner w1) as (Hst & _ & Hvs).
    destruct (markReadyFor _ _ _ _ _) as [[] st] eqn:Hm; cbn [fst snd] in Hst, Hvs; [|left; by rewrite Hvs, app_nil_r].
    right. exists before, r, after. assert (pw_cancelled w1 = false) as Hl by (eapply marked_live; by rewrite Hm).
    destruct (Hlive Hl) as [Hw Hb]. split_and!; [done..|]. left. exists owner, (pw_st w1).
    split_and!; [done|congruence|]. by rewrite Hst, <-Hl.
  - destruct (handle_failed p gen kind detail owner w1) as (Hst & Hvs).
    destruct (failReadinessFor _ _ _ _) as [[] st] eqn:Hm; cbn [fst snd] in Hst, Hvs; [|left; by rewrite Hvs, app_nil_r].
    right. exists before, r, after. assert (pw_cancelled w1 = false) as Hl by (eapply failed_live; by rewrite Hm).
    destruct (Hlive Hl) as [Hw Hb], Hr as [Hr Hg]. split_and!; [done..|]. right. exists detail, (pw_st w1).
    split_and!; [done|by apply Hg|congruence|]. by rewrite Hst, <-Hl.
Qed.

Lemma justified_from {R} (answer : R → option (option EndpointOwner)) gives_up ended kind gen rounds w0 w w' :
  verdicts w0 = verdicts w → pw_cancelled w0 = pw_cancelled w →
  justified answer gives_up ended kind gen rounds w0 w' → justified answer gives_up ended kind gen rounds w w'.
Proof. unfold justified. by intros -> ->. Qed.

Section justification.
Context (seconds_text duration_text : Z → string).

Lemma polled_justified {A} (once : A → attempt) kind target refuse p gen timeout start rounds w :
  let x := poll seconds_text duration_text once kind target timeout start (deadlineFor start timeout) 0 rounds (newOwnerCheck refuse p gen kind) w in
  justified (taken once refuse p) (out_of_time once timeout start) ends_ctx kind gen rounds w
    match x.1.1 with Some (ok, rejected) => (handleProbeResult p gen kind ok rejected (oc_owner x.1.2) x.2).2 | None => x.2 end.
Proof.
  cbv zeta. pose proof (poll_spec seconds_text duration_text once kind target timeout start (deadlineFor start timeout) 0 rounds
    (newOwnerCheck refuse p gen kind) w) as Hs. cbv zeta in Hs.
  cbn [newOwnerCheck oc_reject oc_refuseCrossSession oc_name] in Hs. set (x := poll _ _ _ _ _ _ _ _ _ _ _ _) in *. clearbody x.
  set (reject := bool_decide _) in Hs.
  destruct Hs as [(-> & Hv & _)|(before & r & after & -> & Hall & [[ok detail] Hsome] & [Hverdict Hc Hv Ho Hl])]; [by left|].
  rewrite Hverdict, Hsome. eapply conclude; [done|done| | |].
  - eapply Forall_impl; [exact Hall|]. intros r'. unfold stops, taken. fold reject. destruct (accepted reject refuse (once (rd_answer r'))) as [o|]; intros H; [by discriminate H|done].
  - intros Hlive. by destruct (Hl Hlive) as (? & ? & _).
  - unfold stops in Hsome. unfold taken. fold reject. destruct (accepted _ _ _) as [o|] eqn:Ha.
    + injection Hsome as <- <-. by rewrite Ho.
    + assert (ok = false) as -> by (repeat case_match; congruence). split; [done|]. intros Hlive.
      destruct (Hl Hlive) as (_ & _ & _ & Hg). destruct (Hg eq_refl) as [Hb|[Hp _]]; [by left|right; by apply past_deadlineFor].
Qed.

Lemma cmd_justified p gen deadline w :
  ∀ failures last rounds,
  let x := cmd_loop deadline failures last rounds w in
  justified (λ r, if cmd_passed r then Some None else None) (cmd_gives_up deadline) cmd_ends_ctx "cmd" gen rounds w
    (match x.1 with Some (ok, detail) => _ ← handleProbeResult p gen "cmd" ok detail None; mret (Some ()) | None => mret None end x.2).2.
Proof.
  intros failures last rounds. cbv zeta. pose proof (cmd_spec deadline failures last rounds w) as Hs. cbv zeta in Hs.
  destruct (cmd_loop _ _ _ _ _) as [v w1]. cbn [fst snd] in *.
  destruct Hs as [[-> Hv]|(before & r & after & -> & Hall & [Hv Hverdict Hl])]; [by left|]. cbn [fst snd] in *.
  destruct (cmd_passed r) eqn:Hp.
  - subst v. rewrite pb_bind_eq. eapply conclude; [done|done| | |by rewrite Hp].
    + eapply Forall_impl; [exact Hall|]. by intros r' ->.
    + intros Hlive. by destruct (Hl Hlive) as (? & ? & _).
  - destruct Hverdict as [detail ->]. rewrite pb_bind_eq. eapply conclude; [done|done| | |].
    + eapply Forall_impl; [exact Hall|]. by intros r' ->.
    + intros Hlive. by destruct (Hl Hlive) as (? & ? & _).
    + rewrite Hp. split; [done|]. intros Hlive. by destruct (Hl Hlive) as (_ & _ & _ & Hg); apply Hg.
Qed.

(** C14: A verdict on readiness is justified, whatever the probe is answered and
    whatever the other goroutines do to the process meanwhile.  Each of the
    three probes reports at most once.  It reports its incarnation ready only
    on the first attempt whose answer is taken (an answer by a listener that
    policy refuses is not), and records who gave it.  It reports a failure, and
    ends the incarnation, only when no attempt was taken and it gives up: the
    time limit that was configured has passed, or no attempt can be made.  In
    either case nothing had ended the incarnation before, so that a shutdown
    or a restart is never taken for a failed probe. *)
Theorem readiness_verdict_justified refuse p gen target timeout start http tcp cmd w :
  justified (taken httpOnce refuse p) (out_of_time httpOnce timeout start) ends_ctx "http" gen http w
    (http_readiness seconds_text duration_text refuse p gen target timeout start http w).2 ∧
  justified (taken tcpOnce refuse p) (out_of_time tcpOnce timeout start) ends_ctx "tcp" gen tcp w
    (tcp_readiness seconds_text duration_text refuse p gen target timeout start tcp w).2 ∧
  justified (λ r, if cmd_passed r then Some None else None) (cmd_gives_up (deadlineFor start timeout)) cmd_ends_ctx "cmd" gen cmd w
    (cmd_readiness p gen timeout start cmd w).2.
Proof.
  split_and!.
  - apply (justified_from _ _ _ _ _ _ (progress ("waiting for http probe " +:+ target +:+ "...") w).2); [apply verdicts_progress|done|].
    unfold http_readiness, probeHTTP. rewrite !pb_bind_eq. cbv beta. set (w0 := snd _).
    pose proof (polled_justified httpOnce "http" target refuse p gen timeout start http w0) as Hj. cbv zeta in Hj.
    destruct (poll _ _ _ _ _ _ _ _ _ _ _ _) as [[[[ok rejected]|] c] w1]; cbn [fst snd] in *; [|done]. by rewrite pb_bind_eq.
  - apply (justified_from _ _ _ _ _ _ (progress ("waiting for tcp probe " +:+ target +:+ "...") w).2); [apply verdicts_progress|done|].
    unfold tcp_readiness, probeTCP. rewrite !pb_bind_eq. cbv beta. set (w0 := snd _).
    pose proof (polled_justified tcpOnce "tcp" target refuse p gen timeout start tcp w0) as Hj. cbv zeta in Hj.
    destruct (poll _ _ _ _ _ _ _ _ _ _ _ _) as [[[[ok rejected]|] c] w1]; cbn [fst snd] in *; [|done]. by rewrite pb_bind_eq.
  - apply (justified_from _ _ _ _ _ _ (progress "waiting for cmd probe..." w).2); [apply verdicts_progress|done|].
    unfold cmd_readiness, probeCmd. rewrite !pb_bind_eq. cbv beta. set (w0 := snd _).
    apply cmd_justified.
Qed.
End justification.

(** ** A probe that is left alone decides *)

(** The operations of the others that leave the readiness of incarnation [gen]
    to its probe: metrics, health checks that do not end it, and whatever
    belongs to other incarnations. *)
Definition undisturbing (gen : Z) (o : op) : bool :=
  match o with
  | ORefusedOwner _ _ | OHealthOwner _ _ _ | OHealthSkipped _ _ _ | OMetrics _ _ | ORestartSignal _ | OHealth _ _ _ _ false => true
  | OMarkReadyFor _ g _ _ | OFailReadiness _ g _ => negb (g =? gen)%Z
  | _ => false
  end.

Definition leaves_alone (gen : Z) (o : others) : bool := forallb (undisturbing gen) (ot_ops o) && negb (ot_cancel o).
Definition alone {A} (gen : Z) (r : round A) : bool :=
  leaves_alone gen (rd_others r) && leaves_alone gen (rd_meanwhile r) && leaves_alone gen (rd_paused r)
  && match rd_pause r with PauseCancelled => false | _ => true end.

(** The incarnation lives and waits for its probe. *)
Record undecided (gen : Z) (w : pworld) : Prop := mkUndecided {
  un_live : pw_cancelled w = false;
  un_gen : st_generation (pw_st w) = gen;
  un_open : is_Some (open_cycle (pw_st w));
  un_passing : st_probeFailed (pw_st w) = false;
  un_cycles : cycles_ok (pw_st w);
}.

Lemma undisturbing_keeps gen o st : undisturbing gen o = true → st_generation st = gen →
  st_generation (apply_op o st) = gen ∧ open_cycle (apply_op o st) = open_cycle st ∧
  st_probeFailed (apply_op o st) = st_probeFailed st.
Proof.
  intros Ho Hg. destruct o; try done; cbn [apply_op undisturbing] in *;
    unfold markReadyFor, latchReady, recordRefusedOwner, recordHealthOwner, failReadinessFor, recordHealth, recordHealthSkipped.
  all: try (apply negb_true_iff in Ho; rewrite Hg, (Z.eqb_sym gen), Ho; cbn; rewrite ?orb_true_r; by repeat case_match).
  all: repeat (case_match; simplify_eq/=; try done).
Qed.

Lemma undecided_op gen o st b out out' : undisturbing gen o = true → undecided gen (mkPWorld st b out) →
  undecided gen (mkPWorld (apply_op o st) b out').
Proof.
  intros Ho [Hl Hg Hop Hf Hc]. cbn in *. destruct (undisturbing_keeps gen o st Ho Hg) as (H1 & H2 & H3).
  split; cbn; [done|done|by rewrite H2|by rewrite H3|]. by eapply cycles_ok_step, apply_op_step.
Qed.

Lemma undecided_meanwhile gen o w : leaves_alone gen o = true → undecided gen w → undecided gen (meanwhile o w).2.
Proof.
  unfold leaves_alone, meanwhile. intros [Hops Hx%negb_true_iff]%andb_true_iff. cbn. rewrite Hx, orb_false_r.
  destruct w as [st b out]. cbn. revert st. induction (ot_ops o) as [|o' ops IH]; intros st Hu; [done|].
  cbn [forallb] in Hops. apply andb_true_iff in Hops as [Ho Hops]. rewrite apply_ops_cons.
  apply IH; [done|]. by eapply undecided_op.
Qed.

Lemma undecided_out gen w out : undecided gen w → undecided gen (mkPWorld (pw_st w) (pw_cancelled w) out).
Proof. by intros []. Qed.

Lemma undecided_judge gen a c w : undecided gen w → undecided gen (judge_attempt a c w).2.
Proof.
  intros Hu. destruct a; cbn [judge_attempt]; [done..|]. rewrite pb_bind_eq. unfold accept. case_bool_decide; [done|].
  rewrite pb_bind_eq. cbn [mret pb_ret snd]. unfold on_state. cbn beta.
  set (x := recordRefusedOwner _ _ _). rewrite pb_bind_eq.
  assert (undecided gen (mkPWorld x.2 (pw_cancelled w) (pw_out w))) as Hx.
  { change x.2 with (apply_op (ORefusedOwner (oc_gen c) (Some (owner_or_unknown owner))) (pw_st w)). destruct w as [st b out].
    by apply (undecided_op gen _ st b out). }
  destruct x as [recorded st]. cbn [fst snd] in *. destruct (recorded && negb (oc_warned c)); [|done].
  rewrite !pb_bind_eq. cbn. by eapply (undecided_out gen (mkPWorld st (pw_cancelled w) (pw_out w))).
Qed.

Section deciding.
Context (seconds_text duration_text : Z → string) {A : Type} (once : A → attempt).

Lemma undecided_progress gen msg w : undecided gen w → undecided gen (progress msg w).2.
Proof. apply undecided_out. Qed.

(** A poll that is left alone leaves the decision open. *)
Lemma undecided_poll gen kind target timeout start deadline failures rounds c w :
  forallb (alone gen) rounds = true → undecided gen w →
  let x := poll seconds_text duration_text once kind target timeout start deadline failures rounds c w in
  undecided gen x.2.
Proof.
  revert failures c w; induction rounds as [|r rounds IH]; intros failures c w Hall Hu; [done|].
  cbn [forallb] in Hall. apply andb_true_iff in Hall as [Hr Hall].
  unfold alone in Hr. rewrite !andb_true_iff in Hr. destruct Hr as [[[Ho Hm] Hp] Hlive].
  cbv zeta. cbn [poll]. rewrite pb_bind_eq. apply (undecided_meanwhile _ _ _ Ho) in Hu.
  set (w1 := (meanwhile (rd_others r) w).2) in *. clearbody w1. rewrite pb_bind_eq.
  apply (undecided_judge gen (once (rd_answer r)) c) in Hu.
  destruct (judge_attempt (once (rd_answer r)) c w1) as [[[err rejected] c'] w2]. cbn [fst snd] in *.
  destruct err as [err|]; [|done]. destruct (is_bad _); [by apply undecided_progress|].
  rewrite pb_bind_eq. 
  lazymatch goal with |- context [snd ((if ?b then ?m else ?m') w2)] => set (w3 := snd ((if b then m else m') w2)) end.
  assert (undecided gen w3) as Hu3 by (unfold w3; destruct (5 <? S failures); [by apply undecided_progress|done]).
  clearbody w3. rewrite pb_bind_eq. apply (undecided_meanwhile _ _ _ Hm) in Hu3.
  set (w4 := (meanwhile (rd_meanwhile r) w3).2) in *. clearbody w4.
  destruct (past _ _); [by apply undecided_progress|]. rewrite pb_bind_eq.
  apply (undecided_meanwhile _ _ _ Hp) in Hu3. set (w5 := (meanwhile (rd_paused r) w4).2) in *. clearbody w5.
  destruct (rd_pause r) as [|since now until|]; [done| |by apply IH].
  rewrite pb_bind_eq. apply IH; [done|]. unfold tick_progress. destruct deadline as [d|]; [|by apply undecided_progress].
  case_match; [done|]. by apply undecided_progress.
Qed.
End deciding.

Lemma undecided_marks gen owner w : undecided gen w →
  (markReadyFor (pw_cancelled w) gen true owner (pw_st w)).1 = true ∧
  readySettled (markReadyFor (pw_cancelled w) gen true owner (pw_st w)).2 = true ∧
  st_readinessOwner (markReadyFor (pw_cancelled w) gen true owner (pw_st w)).2 = owner.
Proof.
  intros [-> Hg [i Hi] Hf Hc].
  assert ((markReadyFor false gen true owner (pw_st w)).1 = true) as Hm
    by (unfold markReadyFor, latchReady; by rewrite Hi, Hf, Hg, Z.eqb_refl).
  split_and!; [done|by apply markReadyFor_settles|]. unfold markReadyFor, latchReady. by rewrite Hi, Hf, Hg, Z.eqb_refl.
Qed.

Lemma undecided_fails gen msg w : undecided gen w →
  (failReadinessFor (pw_cancelled w) gen msg (pw_st w)).1 = true ∧
  st_probeFailed (failReadinessFor (pw_cancelled w) gen msg (pw_st w)).2 = true ∧
  st_lastError (failReadinessFor (pw_cancelled w) gen msg (pw_st w)).2 = msg.
Proof.
  intros [-> Hg [i Hi] Hf Hc]. unfold failReadinessFor, readySettled. apply open_cycle_Some in Hi as [-> ->].
  by rewrite Hg, Z.eqb_refl.
Qed.

(** The verdict of a probe has been recorded and reported. *)
Definition decided (kind : string) (v : bool * string) (owner : option EndpointOwner) (w w' : pworld) : Prop :=
  if v.1 then verdicts w' = verdicts w ++ ready_report kind ∧ readySettled (pw_st w') = true ∧ st_readinessOwner (pw_st w') = owner
  else verdicts w' = verdicts w ++ failure_report kind v.2 ∧ st_probeFailed (pw_st w') = true ∧ st_lastError (pw_st w') = failure_message kind v.2.

Lemma handle_decides p gen kind v owner w : undecided gen w →
  decided kind v owner w (handleProbeResult p gen kind v.1 v.2 owner w).2.
Proof.
  intros Hu. unfold decided. destruct v as [[] detail]; cbn [fst snd].
  - destruct (handle_passed p gen kind detail owner w) as (-> & _ & ->).
    by destruct (undecided_marks gen owner w Hu) as (-> & -> & ->).
  - destruct (handle_failed p gen kind detail owner w) as (-> & ->).
    by destruct (undecided_fails gen (failure_message kind detail) w Hu) as (-> & -> & ->).
Qed.

Lemma decided_from kind v owner owner' w w1 w' : verdicts w1 = verdicts w → (v.1 = true → owner' = owner) →
  decided kind v owner' w1 w' → decided kind v owner w w'.
Proof. unfold decided. intros -> Ho. destruct v as [[] d]; cbn in *; [by rewrite Ho|done]. Qed.

Section decisions.
Context (seconds_text duration_text : Z → string).

Lemma poll_decides {A} (once : A → attempt) kind target refuse p gen timeout start rounds before r after v w :
  let deadline := deadlineFor start timeout in
  let reject := bool_decide (EffectiveForeignListener (pi_proc p) = ForeignListenerReject) in
  let x := poll seconds_text duration_text once kind target timeout start deadline 0 rounds (newOwnerCheck refuse p gen kind) w in
  rounds = before ++ r :: after → forallb (alone gen) rounds = true → undecided gen w →
  Forall (λ r, stops once reject refuse (pi_name p) deadline r = None) before →
  stops once reject refuse (pi_name p) deadline r = Some v →
  x.1.1 = Some v ∧ (v.1 = true → oc_owner x.1.2 = accepted reject refuse (once (rd_answer r))) ∧
  verdicts x.2 = verdicts w ∧ undecided gen x.2.
Proof.
  intros deadline reject x -> Hall Hu Hbefore Hv.
  pose proof (poll_spec seconds_text duration_text once kind target timeout start deadline 0 (before ++ r :: after) (newOwnerCheck refuse p gen kind) w) as Hs.
  pose proof (undecided_poll seconds_text duration_text once gen kind target timeout start deadline 0 _ (newOwnerCheck refuse p gen kind) w Hall Hu) as Hu'.
  cbv zeta in Hs, Hu'. cbn [newOwnerCheck oc_reject oc_refuseCrossSession oc_name] in Hs. fold reject in Hs. fold x in Hs, Hu'. clearbody x.
  destruct Hs as [(_ & _ & Hnone)|(before' & r' & after' & Heq & Hbefore' & Hsome & [Hverdict _ Hsilent Ho _])].
  { apply Forall_app in Hnone as [_ [Hn _]%Forall_cons]. congruence. }
  assert (r' = r) as ->.
  { clear -Heq Hbefore Hbefore' Hsome Hv. revert before' Heq Hbefore'. induction Hbefore as [|r0 before Hr0 _ IH]; intros [|r1 before'] Heq Hb'.
    - by injection Heq.
    - injection Heq as <- _. apply Forall_cons in Hb' as [Hn _]. congruence.
    - injection Heq as <- _. rewrite Hr0 in Hsome. by destruct Hsome.
    - injection Heq as _ Heq. apply Forall_cons in Hb' as [_ Hb']. by eapply IH. }
  split; [congruence|]. split; [|done]. intros Htrue. apply Ho.
  unfold stops in Hv. destruct (accepted _ _ _) as [o|]; [by eexists|]. destruct v as [[] d]; [|done].
  by repeat case_match.
Qed.

End decisions.

(** The turn that stops a probe, with its verdict. *)
Definition first_stop {A} (once : A → attempt) (refuse : bool) (p : procInfo) (timeout start : Z) (rounds : list (round A)) (r : round A) (v : bool * string) : Prop :=
  let stops := stops once (bool_decide (EffectiveForeignListener (pi_proc p) = ForeignListenerReject)) refuse (pi_name p) (deadlineFor start timeout) in
  ∃ before after, rounds = before ++ r :: after ∧ Forall (λ r, stops r = None) before ∧ stops r = Some v.

(** Who gave the answer of a turn, if it is taken. *)
Definition answerer {A} (once : A → attempt) (refuse : bool) (p : procInfo) (r : round A) : option EndpointOwner :=
  accepted (bool_decide (EffectiveForeignListener (pi_proc p) = ForeignListenerReject)) refuse (once (rd_answer r)).

(** A probe that is left alone decides, with the verdict its answers amount
    to.  While an incarnation lives and waits for its probe, and nothing but
    metrics, health checks and other incarnations touches its state, the first
    attempt that is answered by a listener that policy accepts makes it ready,
    on the record and in the log, with the answerer as the owner of its
    endpoint; and the first attempt that fails after the time limit, or that
    cannot be made, fails its readiness with a message that carries the refusal
    of that attempt, and ends it. *)
Theorem probe_decides seconds_text duration_text refuse p gen target timeout start w :
  undecided gen w →
  (∀ rounds r v, forallb (alone gen) rounds = true → first_stop httpOnce refuse p timeout start rounds r v →
     let x := http_readiness seconds_text duration_text refuse p gen target timeout start rounds w in
     x.1 = Some () ∧ decided "http" v (answerer httpOnce refuse p r) w x.2) ∧
  (∀ rounds r v, forallb (alone gen) rounds = true → first_stop tcpOnce refuse p timeout start rounds r v →
     let x := tcp_readiness seconds_text duration_text refuse p gen target timeout start rounds w in
     x.1 = Some () ∧ decided "tcp" v (answerer tcpOnce refuse p r) w x.2).
Proof.
  intros Hu. split; intros rounds r v Hall (before & after & Heq & Hbefore & Hv); cbv zeta.
  - unfold http_readiness, probeHTTP. rewrite !pb_bind_eq. cbv beta. set (w0 := snd _).
    destruct (poll_decides seconds_text duration_text httpOnce "http" target refuse p gen timeout start rounds before r after v w0)
      as (Hx & Ho & Hs & Hu'); [done|done|by apply undecided_progress|done|done|].
    destruct (poll _ _ _ _ _ _ _ _ _ _ _ _) as [[vo c] w1]. cbn [fst snd] in *. subst vo.
    pose proof (handle_decides p gen "http" v (oc_owner c) w1 Hu') as Hd. destruct v as [ok detail]. cbn [fst snd] in Hd, Ho.
    rewrite pb_bind_eq. split; [done|]. eapply decided_from; [|exact Ho|exact Hd]. rewrite Hs. apply verdicts_progress.
  - unfold tcp_readiness, probeTCP. rewrite !pb_bind_eq. cbv beta. set (w0 := snd _).
    destruct (poll_decides seconds_text duration_text tcpOnce "tcp" target refuse p gen timeout start rounds before r after v w0)
      as (Hx & Ho & Hs & Hu'); [done|done|by apply undecided_progress|done|done|].
    destruct (poll _ _ _ _ _ _ _ _ _ _ _ _) as [[vo c] w1]. cbn [fst snd] in *. subst vo.
    pose proof (handle_decides p gen "tcp" v (oc_owner c) w1 Hu') as Hd. destruct v as [ok detail]. cbn [fst snd] in Hd, Ho.
    rewrite pb_bind_eq. split; [done|]. eapply decided_from; [|exact Ho|exact Hd]. rewrite Hs. apply verdicts_progress.
Qed.

(** ** Health *)

(** The result a check amounts to, once its answer is judged: a check that was
    not run is skipped, an answer by a refused listener is a failure. *)
Definition health_result (refuse : bool) (p : procInfo) (hw : ReadyWhen) (a : health_answer) : option check_result :=
  let '(ok, detail, skipped, owner) := healthCheck hw a false in
  if skipped then (if bool_decide (detail = "") then None else Some (Skip detail))
  else if ok then
    match owner with
    | Some o => let refusal := refusalOf (Some o) (bool_decide (EffectiveForeignListener (pi_proc p) = ForeignListenerReject)) refuse in
        if bool_decide (refusal = "") then Some Pass
        else Some (Failure ((if bool_decide (rw_HTTP hw = "") then "tcp" else "http") +:+ ": " +:+ foreignListenerError (pi_name p) o))
    | None => Some Pass
    end
  else Some (Failure detail).

(** The other goroutines leave the health of incarnation [gen] to its monitor. *)
Definition leaves_health (gen : Z) (o : others) : bool :=
  forallb (λ o, probe_op o && bool_decide (result_of gen o = None)) (ot_ops o) && negb (ot_cancel o).
Definition monitor_alone (gen : Z) (r : health_round) : bool :=
  leaves_health gen (hr_waiting r) && leaves_health gen (hr_checking r) && leaves_health gen (hr_between r).

Definition add_result (e : option check_result) (revs : list check_result) : list check_result :=
  match e with Some e => e :: revs | None => revs end.

(** The results of the checks, latest first. *)
Definition results (refuse : bool) (p : procInfo) (hw : ReadyWhen) (rounds : list health_round) : list check_result :=
  rev (omap (λ r, health_result refuse p hw (hr_answer r)) rounds).

Definition on_timer (r : health_round) : bool := match hr_wake r with HealthTimer => true | _ => false end.
Definition is_skip (e : option check_result) : bool := match e with Some (Skip _) => true | _ => false end.

(** A live incarnation with the results [revs]. *)
Definition watched (gen : Z) (revs : list check_result) (w : pworld) : Prop := pw_cancelled w = false ∧ health_inv gen revs (pw_st w).

Lemma watched_meanwhile gen revs o w : leaves_health gen o = true → watched gen revs w → watched gen revs (meanwhile o w).2.
Proof.
  unfold leaves_health, watched. intros [Hops Hx%negb_true_iff]%andb_true_iff [Hc Hi]. cbn. rewrite Hc, Hx. split; [done|].
  revert Hi. generalize (pw_st w). induction (ot_ops o) as [|o' ops IH]; intros st Hi; [done|].
  cbn [forallb] in Hops. apply andb_true_iff in Hops as [[Hp Hr%bool_decide_eq_true]%andb_true_iff Hops].
  rewrite apply_ops_cons. apply IH; [done|]. pose proof (health_step gen revs o' st Hp Hi) as Hs. by rewrite Hr in Hs.
Qed.

Lemma watched_state gen revs w w' : pw_cancelled w' = pw_cancelled w → pw_st w' = pw_st w → watched gen revs w → watched gen revs w'.
Proof. unfold watched. by intros -> ->. Qed.

Lemma watched_op gen revs o w out : probe_op o = true → watched gen revs w →
  watched gen (add_result (result_of gen o) revs) (mkPWorld (apply_op o (pw_st w)) (pw_cancelled w) out).
Proof. intros Hp [Hc Hi]. split; [done|]. cbn. by apply health_step. Qed.

(** Judging an answer leaves the health alone. *)
Lemma judge_health_spec refuse p hw gen revs ok detail owner w :
  watched gen revs w →
  let x := judge_health refuse p hw gen ok detail owner w in
  watched gen revs x.2 ∧
  x.1 = match owner with
        | Some o => if ok then
              if bool_decide (refusalOf (Some o) (bool_decide (EffectiveForeignListener (pi_proc p) = ForeignListenerReject)) refuse = "") then (true, detail)
              else (false, (if bool_decide (rw_HTTP hw = "") then "tcp" else "http") +:+ ": " +:+ foreignListenerError (pi_name p) o)
            else (ok, detail)
        | None => (ok, detail)
        end.
Proof.
  intros Hw. unfold judge_health. destruct owner as [o|]; [|done]. destruct ok; [|done]. cbv zeta.
  rewrite pb_bind_eq. unfold on_state. cbn beta.
  pose proof (watched_op gen revs (OHealthOwner (pw_cancelled w) gen (Some o)) w (pw_out w) eq_refl Hw) as Ho.
  cbn [apply_op result_of add_result] in Ho. destruct (recordHealthOwner _ _ _ _) as [warn st]. cbn [fst snd] in *.
  rewrite pb_bind_eq. split; [|done]. destruct warn; [|done]. by eapply watched_state; [| |exact Ho].
Qed.

(** A check that was not run makes the health unknown; it is recorded when
    refusals begin. *)
Lemma record_skipped_spec gen revs skipped detail refusing w :
  watched gen revs w → (refusing = true → is_skip (head revs) = true) →
  let e := if skipped && negb (bool_decide (detail = "")) then Some (Skip detail) else None in
  let x := record_skipped gen skipped detail refusing w in
  x.1 = is_skip e ∧ watched gen (add_result e revs) x.2.
Proof.
  intros Hw Hr. cbv zeta. unfold record_skipped. rewrite pb_bind_eq.
  destruct (skipped && _); [|by split].
  destruct refusing; cbn [andb negb].
  - split; [done|]. specialize (Hr eq_refl). destruct revs as [|[| |d] revs]; done.
  - split; [done|]. rewrite !pb_bind_eq. cbn [mret pb_ret snd]. set (w1 := (emit _ w).2).
    assert (watched gen revs w1) as Hw1 by done. clearbody w1. rewrite on_state_eq. cbn [fst snd].
    pose proof (watched_op gen revs (OHealthSkipped (pw_cancelled w1) gen detail) w1 (pw_out w1) eq_refl Hw1) as Ho.
    cbn [apply_op result_of] in Ho. rewrite (proj1 Hw1), Z.eqb_refl in Ho. rewrite (proj1 Hw1).
    destruct (recordHealthSkipped false gen detail (pw_st w1)) as [[] st]; exact Ho.
Qed.

Definition crosses (restart ok : bool) (revs : list check_result) : bool :=
  restart && negb ok && (3 <=? S (streak revs)) && negb (bool_decide (verdict revs = healthUnhealthy)).

Lemma recordHealth_crosses gen revs ok detail restart st : health_inv gen revs st →
  let x := recordHealth false gen ok detail restart st in
  (restart = true → crosses restart ok revs = match x.1 with healthBecameUnhealthy => true | _ => false end) ∧
  (crosses restart ok revs = true → st_probeFailed x.2 = true).
Proof.
  intros (Hl & Hh & Hf). unfold recordHealth, crosses. rewrite (health_live_gen gen), Z.eqb_refl by done. cbn [negb].
  destruct ok; [by cbn; rewrite !andb_false_r; split; [repeat case_bool_decide|]|].
  cbn [negb set_healthFailures set_healthError st_healthFailures st_health]. rewrite Hf, Hh, andb_true_r.
  assert ((Z.of_nat (streak revs) + 1 <? healthThreshold)%Z = negb (3 <=? S (streak revs))) as ->.
  { unfold healthThreshold. destruct (Nat.leb_spec 3 (S (streak revs))); [apply Z.ltb_ge|apply Z.ltb_lt]; lia. }
  destruct (3 <=? S (streak revs)), (bool_decide (verdict revs = healthUnhealthy)), restart; cbn; by split.
Qed.

(** The result of a check is recorded, and ends the incarnation exactly when it
    makes it unhealthy and it is to be restarted. *)
Lemma record_result_spec gen revs restart ok detail w :
  watched gen revs w →
  let x := record_result gen restart ok detail w in
  x.1 = crosses restart ok revs ∧
  if x.1 then pw_cancelled x.2 = true ∧ st_probeFailed (pw_st x.2) = true
  else watched gen ((if ok then Pass else Failure detail) :: revs) x.2.
Proof.
  intros Hw. cbv zeta. unfold record_result. rewrite pb_bind_eq, on_state_eq. cbn [fst snd].
  pose proof (watched_op gen revs (OHealth (pw_cancelled w) gen ok detail restart) w (pw_out w) eq_refl Hw) as Ho.
  cbn [apply_op result_of] in Ho. rewrite (proj1 Hw), Z.eqb_refl in *.
  destruct (recordHealth_crosses gen revs ok detail restart (pw_st w) (proj2 Hw)) as [Hx Hp].
  destruct (recordHealth false gen ok detail restart (pw_st w)) as [tr st]. cbn [fst snd add_result] in *.
  destruct restart.
  - rewrite Hx in * by done. destruct tr; rewrite !pb_bind_eq; cbn; (split; [done|]); first [done|by split; [|apply Hp]].
  - assert (crosses false ok revs = false) as -> by done. destruct tr; rewrite !pb_bind_eq; cbn; done.
Qed.

Lemma healthCheck_skipped hw a cancelled ok detail owner : healthCheck hw a cancelled = (ok, detail, true, owner) → ok = false ∧ owner = None.
Proof.
  unfold healthCheck. destruct (negb (answers_block hw a)); [naive_solver|]. destruct a as [a|a|res ended].
  - destruct (attempt_error _); naive_solver.
  - destruct (attempt_error _); naive_solver.
  - destruct (exitedZeroInTime ended res) as [passed res']. repeat case_match; naive_solver.
Qed.

(** What is judged is the result of the check. *)
Lemma health_result_judged refuse p hw a ok detail skipped owner ok' detail' :
  healthCheck hw a false = (ok, detail, skipped, owner) →
  match owner with
  | Some o => if ok then
        if bool_decide (refusalOf (Some o) (bool_decide (EffectiveForeignListener (pi_proc p) = ForeignListenerReject)) refuse = "") then (true, detail)
        else (false, (if bool_decide (rw_HTTP hw = "") then "tcp" else "http") +:+ ": " +:+ foreignListenerError (pi_name p) o)
      else (ok, detail)
  | None => (ok, detail)
  end = (ok', detail') →
  health_result refuse p hw a = if skipped then (if bool_decide (detail' = "") then None else Some (Skip detail'))
                                else Some (if ok' then Pass else Failure detail').
Proof.
  intros Hc Hv. unfold health_result. rewrite Hc. destruct skipped.
  - apply healthCheck_skipped in Hc as [-> ->]. by injection Hv as <- <-.
  - destruct ok, owner as [o|]; cbn in *; repeat case_bool_decide; by injection Hv as <- <-.
Qed.

(** A result ends the incarnation. *)
Definition crossing (restart : bool) (e : option check_result) (revs : list check_result) : bool :=
  match e with
  | Some Pass => crosses restart true revs
  | Some (Failure _) => crosses restart false revs
  | _ => false
  end.

Definition ended_by_monitor (x : option monitor_end * pworld) : Prop :=
  x.1 = Some MonitorRestarts ∧ pw_cancelled x.2 = true ∧ st_probeFailed (pw_st x.2) = true.

(** A check's result reaches the state, and the monitor goes on unless it ends
    the incarnation. *)
Lemma monitor_turn refuse p hw gen revs restart refusing r rounds w :
  watched gen revs w → monitor_alone gen r = true → on_timer r = true → (refusing = true → is_skip (head revs) = true) →
  let e := health_result refuse p hw (hr_answer r) in
  let x := monitor_loop refuse p hw gen restart refusing (r :: rounds) w in
  (crossing restart e revs = true ∧ ended_by_monitor x) ∨
  (crossing restart e revs = false ∧ ∃ refusing' w', x = monitor_loop refuse p hw gen restart refusing' rounds w' ∧
     watched gen (add_result e revs) w' ∧ (refusing' = true → is_skip (head (add_result e revs)) = true)).
Proof.
  intros Hw Hal Ht Hrf. cbv zeta. unfold monitor_alone in Hal. rewrite !andb_true_iff in Hal. destruct Hal as [[Hwait Hcheck] Hbetween].
  cbn [monitor_loop]. unfold on_timer in Ht. rewrite pb_bind_eq. destruct (hr_wake r); [done..|]. rewrite pb_bind_eq.
  apply (watched_meanwhile _ _ _ _ Hwait) in Hw. set (w1 := (meanwhile (hr_waiting r) w).2) in *. clearbody w1.
  apply (watched_meanwhile _ _ _ _ Hcheck) in Hw. set (w2 := (meanwhile (hr_checking r) w1).2) in *. clearbody w2.
  rewrite pb_bind_eq. cbn [ctx_ended fst snd]. rewrite (proj1 Hw). unfold health_result.
  destruct (healthCheck hw (hr_answer r) false) as [[[ok detail] skipped] owner] eqn:Hhc.
  pose proof (health_result_judged refuse p hw (hr_answer r) ok detail skipped owner) as Hres. specialize (Hres _ _ Hhc (surjective_pairing _)).
  unfold health_result in Hres. rewrite Hhc in Hres. rewrite Hres. clear Hres Hhc.
  rewrite pb_bind_eq. destruct (judge_health_spec refuse p hw gen revs ok detail owner w2 Hw) as [Hw3 Hj].
  set (w3 := (judge_health refuse p hw gen ok detail owner w2).2) in *. clearbody w3. rewrite Hj. clear Hj Hw.
  set (v := match owner with Some _ => _ | None => (ok, detail) end). clearbody v. destruct v as [ok' detail']. cbn [fst snd].
  rewrite pb_bind_eq. destruct (record_skipped_spec gen revs skipped detail' refusing w3 Hw3 Hrf) as [Hrs Hw4].
  destruct (record_skipped gen skipped detail' refusing w3) as [refusing' w4]. cbn [fst snd] in *. subst refusing'.
  rewrite pb_bind_eq. apply (watched_meanwhile _ _ _ _ Hbetween) in Hw4. set (w5 := (meanwhile (hr_between r) w4).2) in *. clearbody w5.
  rewrite pb_bind_eq. destruct skipped.
  - right. cbn [mret pb_ret fst snd]. cbn [andb] in Hw4. destruct (bool_decide (detail' = "")); (split; [done|]); by eexists _, w5.
  - cbn [andb add_result is_skip] in Hw4. destruct (record_result_spec gen revs restart ok' detail' w5 Hw4) as [Hcr Hw6].
    destruct (record_result gen restart ok' detail' w5) as [b w6]. cbn [fst snd] in *. subst b.
    assert (crossing restart (Some (if ok' then Pass else Failure detail')) revs = crosses restart ok' revs) as -> by by destruct ok'.
    destruct (crosses restart ok' revs); [left; split; [done|]; by split|right]. split; [done|]. by eexists _, w6.
Qed.

Lemma results_cons refuse p hw r rounds revs :
  results refuse p hw (r :: rounds) ++ revs = results refuse p hw rounds ++ add_result (health_result refuse p hw (hr_answer r)) revs.
Proof. unfold results. cbn. destruct (health_result _ _ _ _); [|done]. cbn. by rewrite <-(assoc_L (++)). Qed.

Lemma verdict_low revs : streak revs < 3 → verdict revs ≠ healthUnhealthy.
Proof. intros Hs. rewrite verdict_short by done. by case_match. Qed.

(** With the action [restart], three failures since the last pass end the
    incarnation at once. *)
Lemma crossing_streak e revs : streak revs < 3 → crossing true e revs = true ↔ 3 ≤ streak (add_result e revs).
Proof.
  intros Hs. pose proof (verdict_low revs Hs) as Hv. unfold crossing, crosses.
  destruct e as [[| |]|]; cbn [add_result negb andb]; rewrite ?streak_cons; rewrite ?andb_true_iff, ?negb_true_iff, ?bool_decide_eq_false, ?Nat.leb_le; split; intros H;
    try done; try lia; try (by destruct H as [[_ ?] _]); by repeat split.
Qed.

(** The timer woke the monitor for each of these checks, and three have failed
    since the last pass. *)
Definition three_failed (refuse : bool) (p : procInfo) (hw : ReadyWhen) (revs : list check_result) (rounds : list health_round) : Prop :=
  ∃ k, forallb on_timer (take k rounds) = true ∧ 3 ≤ streak (results refuse p hw (take k rounds) ++ revs).

Lemma three_failed_cons refuse p hw revs r rounds : on_timer r = true → streak revs < 3 →
  three_failed refuse p hw revs (r :: rounds) ↔ three_failed refuse p hw (add_result (health_result refuse p hw (hr_answer r)) revs) rounds.
Proof.
  intros Ht Hs. unfold three_failed. split.
  - intros ([|k] & Hk & H3); [change (3 ≤ streak revs) in H3; lia|]. exists k. cbn [take forallb] in Hk. rewrite Ht in Hk. split; [done|].
    cbn [take] in H3. by rewrite results_cons in H3.
  - intros (k & Hk & H3). exists (S k). cbn [take forallb]. rewrite Ht. split; [done|]. by rewrite results_cons.
Qed.

Lemma monitor_loop_spec refuse p hw gen restart rounds refusing revs w :
  watched gen revs w → forallb (monitor_alone gen) rounds = true → (refusing = true → is_skip (head revs) = true) →
  (restart = true → streak revs < 3) →
  let x := monitor_loop refuse p hw gen restart refusing rounds w in
  (x.1 = Some MonitorRestarts ↔ restart = true ∧ three_failed refuse p hw revs rounds) ∧
  (x.1 = Some MonitorRestarts → ended_by_monitor x) ∧
  (x.1 = None → watched gen (results refuse p hw rounds ++ revs) x.2).
Proof.
  revert refusing revs w; induction rounds as [|r rounds IH]; intros refusing revs w Hw Hal Hrf Hs.
  { cbv zeta. cbn. split; [|done]. split; [done|]. intros [Hr (k & _ & H3)]. rewrite take_nil in H3. change (3 ≤ streak revs) in H3. specialize (Hs Hr). lia. }
  cbn [forallb] in Hal. apply andb_true_iff in Hal as [Hr Hal].
  destruct (on_timer r) eqn:Ht.
  2:{ assert (∀ w, (monitor_loop refuse p hw gen restart refusing (r :: rounds) w).1 = Some MonitorStopped) as Hx.
      { intros w0. cbn [monitor_loop]. unfold on_timer in Ht. rewrite pb_bind_eq. destruct (hr_wake r); [|done|done]. by rewrite pb_bind_eq. }
      cbv zeta. rewrite Hx. split; [|done]. split; [done|]. intros [Hre ([|k] & Hk & H3)]; [change (3 ≤ streak revs) in H3; specialize (Hs Hre); lia|].
      cbn [take forallb] in Hk. by rewrite Ht in Hk. }
  cbv zeta. destruct (monitor_turn refuse p hw gen revs restart refusing r rounds w Hw Hr Ht Hrf) as [[Hc He]|(Hc & rf & w' & -> & Hw' & Hrf')].
  - assert (restart = true) as -> by (destruct (health_result refuse p hw (hr_answer r)) as [[]|]; by destruct restart).
    pose proof (proj1 He) as Hx. rewrite Hx. split; [|by split]. split; [|done]. intros _. split; [done|].
    apply three_failed_cons; [done|by apply Hs|]. exists 0. split; [done|]. change (results _ _ _ (take 0 rounds)) with (@nil check_result). by apply crossing_streak; [apply Hs|].
  - assert (restart = true → streak (add_result (health_result refuse p hw (hr_answer r)) revs) < 3) as Hs'.
    { intros ->. destruct (decide (3 ≤ streak (add_result (health_result refuse p hw (hr_answer r)) revs))) as [H3|]; [|lia].
      apply crossing_streak in H3; [congruence|by apply Hs]. }
    destruct (IH rf _ w' Hw' Hal Hrf' Hs') as (H1 & H2 & H3). split; [|split; [done|by rewrite results_cons]].
    rewrite H1. split; intros [-> ?]; (split; [done|]); apply three_failed_cons; try done; by apply Hs.
Qed.

(** C21: The monitor of a running incarnation restarts it for its health exactly
    when it should.  Once the incarnation is ready, and as long as the others
    leave its health to the monitor, it is ended, and marked as failed, if and
    only if its action is [restart] and three checks have failed since the last
    one that passed; an answer by a listener that policy refuses is a failed
    check, and a check that could not be run neither counts nor interrupts the
    count.  And while the monitor runs, the health that is shown is the verdict
    of the results of the checks. *)
Theorem health_restart_exact refuse p hw gen o rounds w :
  watched gen [] w → leaves_health gen o = true → forallb (monitor_alone gen) rounds = true →
  let ready := outcomeOf (currentReadyCycle (pw_st w)) (apply_ops (ot_ops o) (pw_st w)) = readySatisfied in
  let x := monitorHealth refuse p hw gen HealthTimer o rounds w in
  (x.1 = Some MonitorRestarts ↔
     ready ∧ EffectiveHealthAction (pi_proc p) = HealthActionRestart ∧ three_failed refuse p hw [] rounds) ∧
  (x.1 = Some MonitorRestarts → ended_by_monitor x) ∧
  (x.1 = None → ready ∧ st_health (pw_st x.2) = verdict (results refuse p hw rounds)).
Proof.
  intros Hw Ho Hal. cbv zeta. unfold monitorHealth. rewrite pb_bind_eq. pose proof (watched_meanwhile _ _ _ _ Ho Hw) as Hw1.
  set (w1 := (meanwhile o w).2) in *. change (apply_ops (ot_ops o) (pw_st w)) with (pw_st w1). clearbody w1.
  rewrite pb_bind_eq, on_state_eq. cbn [fst snd].
  assert (st_generation (pw_st w1) = gen) as ->.
  { destruct Hw1 as [_ [Hl _]]. unfold health_live in Hl. apply negb_true_iff in Hl. rewrite !orb_false_iff, !negb_false_iff in Hl.
    by apply Z.eqb_eq, (proj1 Hl). }
  rewrite Z.eqb_refl, andb_true_r. case_bool_decide as Hready; cbn [negb].
  2:{ cbn. split; [|done]. split; [done|]. by intros []. }
  assert (mkPWorld (pw_st w1) (pw_cancelled w1) (pw_out w1) = w1) as -> by by destruct w1.
  destruct (monitor_loop_spec refuse p hw gen (bool_decide (EffectiveHealthAction (pi_proc p) = HealthActionRestart)) rounds false [] w1
    Hw1 Hal ltac:(done) ltac:(cbn; lia)) as (H1 & H2 & H3).
  split; [rewrite H1, bool_decide_eq_true; naive_solver|]. split; [done|]. intros Hx. split; [done|].
  destruct (H3 Hx) as (_ & _ & Hh & _). by rewrite app_nil_r in Hh.
Qed.

(** ** Witnesses *)

Definition example_hw : ReadyWhen := mkReadyWhen "http://localhost:80/" "" "" "".
Definition example_process : procInfo :=
  mkProcInfo "web" (mkProcess "run" "" "" ∅ "" "" 0 0 (Some example_hw) 0 [] ∅ (Some example_hw) 0 HealthActionRestart "") 0 [] false false.
Definition nothing : others := mkOthers [] false.
Definition sampled : others := mkOthers [OMetrics 3 20] false.

(** The probe is refused a connection, and then answered. *)
Definition example_rounds : list (round http_answer) :=
  [mkRound sampled (mkHTTPAnswer None (Err "connection refused") None) nothing 1 PauseSecond sampled;
   mkRound nothing (mkHTTPAnswer None (Ok 204%Z) None) nothing 2 PauseSecond nothing].

Definition example_world : pworld := mkPWorld example_state false [].

Lemma example_undecided : undecided 1 example_world.
Proof. split; [done|done|by eexists|done|by apply reachable_cycles_ok, example_reachable]. Defined.

Lemma probe_decides_witness :
  let x := http_readiness (λ _, "1") (λ _, "30s") false example_process 1 "http://localhost:80/" 30 0 example_rounds example_world in
  x.1 = Some () ∧ verdicts x.2 = [LogLine "info" "process.ready" "ready (http probe)"] ∧ readySettled (pw_st x.2) = true.
Proof.
  destruct (probe_decides (λ _, "1") (λ _, "30s") false example_process 1 "http://localhost:80/" 30 0 example_world example_undecided) as [Hhttp _].
  assert (first_stop httpOnce false example_process 30 0 example_rounds
    (mkRound nothing (mkHTTPAnswer None (Ok 204%Z) None) nothing 2 PauseSecond nothing) (true, "")) as Hs.
  { exists (take 1 example_rounds), []. split; [done|]. split; [|vm_compute; reflexivity].
    constructor; [vm_compute; reflexivity|constructor]. }
  destruct (Hhttp example_rounds _ (true, "") ltac:(vm_compute; reflexivity) Hs) as [Hx (Hv & Hr & _)].
  split; [exact Hx|]. split; [exact Hv|exact Hr].
Defined.

Definition example_check (status : Z) : health_round :=
  mkHealthRound HealthTimer sampled (HealthHTTP (mkHTTPAnswer None (Ok status) None)) nothing nothing.

(** The incarnation is ready, and its server then fails three times. *)
Definition ready_world : pworld := mkPWorld (markReadyFor false 1 true None example_state).2 false [].

Lemma ready_watched : watched 1 [] ready_world.
Proof. split; [done|]. split; [vm_compute; reflexivity|]. by vm_compute. Defined.

Lemma health_restart_exact_witness :
  (monitorHealth false example_process example_hw 1 HealthTimer sampled (map example_check [200; 500; 200; 503; 500; 500]%Z) ready_world).1
  = Some MonitorRestarts.
Proof.
  destruct (health_restart_exact false example_process example_hw 1 sampled (map example_check [200; 500; 200; 503; 500; 500]%Z) ready_world
    ready_watched ltac:(vm_compute; reflexivity) ltac:(vm_compute; reflexivity)) as [H _].
  apply H. split; [vm_compute; reflexivity|]. split; [vm_compute; reflexivity|]. exists 6. split; [vm_compute; reflexivity|].
  change (3 ≤ streak (results false example_process example_hw (map example_check [200; 500; 200; 503; 500; 500]%Z) ++ [])).
  apply Nat.leb_le. vm_compute. reflexivity.
Defined.
