(* ===== verification/Diagnose.v ===== *)
(** * Diagnosis of attempts

    [Diagnose] explains an attempt from its receipt and from the events of the
    journal: it scans the pages of the journal and folds the events of each
    process into a bounded history.  What each query finds is an argument, as
    in [LogQuery], one entry per query; so is the rendering of a time. *)

From S2P Require Import Prelude GoStrings Ipc RunnerState LogQuery VerifyRecords Compare.

(** ** Limits *)

(** Source: internal/verify/diagnose.go:12-18 (maxDiagnosisEvents). *)
Definition maxDiagnosisEvents : nat := 20000.
(** Source: internal/verify/diagnose.go:12-18 (maxGroupsPerProcess). *)
Definition maxGroupsPerProcess : nat := 20.
(** Source: internal/verify/diagnose.go:12-18 (maxTransitionsPerGen). *)
Definition maxTransitionsPerGen : nat := 20.
(** Source: internal/verify/diagnose.go:12-18 (maxDiagnosisLine). *)
Definition maxDiagnosisLine : nat := 512.

(** ** Data *)

(** Source: internal/verify/diagnose.go:52-60 (Transition). *)
Record Transition : Type := mkTransition {
  tr_EventID : string;
  tr_Generation : Z;
  tr_State : string;
  tr_Ready : bool;
  tr_LastError : string;
  tr_ExitCode : option Z;
  tr_At : string;
}.

(** Source: internal/verify/diagnose.go:62-74 (OutputGroup). *)
Record OutputGroup : Type := mkOutputGroup {
  og_Generation : Z;
  og_Stream : string;
  og_Level : string;
  og_Code : string;
  og_Message : string;
  og_Count : nat;
  og_FirstID : string;
  og_LastID : string;
}.

(** Source: internal/verify/diagnose.go:43-50 (ProcessHistory). *)
Record ProcessHistory : Type := mkHistory {
  ph_Name : string;
  ph_Generations : list Z;
  ph_DependsOn : list string;
  ph_Transitions : list Transition;
  ph_Output : list OutputGroup;
  ph_Truncated : bool;
}.

(** Source: internal/verify/diagnose.go:20-41 (Diagnosis). *)
Record Diagnosis : Type := mkDiagnosis {
  dg_SchemaVersion : Z;
  dg_Kind : string;
  dg_AttemptID : string;
  dg_AttemptState : string;
  dg_Status : string;
  dg_RunID : option string;
  dg_Phases : gmap string string;
  dg_Errors : list ErrorRecord;
  dg_Boundary : string;
  dg_Processes : list ProcessHistory;
  dg_Check : Check_;
  dg_Journal : option string;
  dg_EventsScanned : nat;
  dg_Gap : bool;
  dg_Truncated : bool;
  dg_HistoryMissing : bool;
  dg_Limitations : list string;
}.

Section diagnosis.
(** The size of an encoded event, the decoding of a record, [strings.ToLower],
    and the rendering of a time. *)
Context (encoded : LogEntry → Z) (decode : string → res string LogEntry) (ToLower : string → string) (format_time : Z → string).

(** ** The history of one process *)

Definition empty_history (name : string) : ProcessHistory := mkHistory name [] [] [] [] false.

(** Source: internal/verify/diagnose.go:204-206 (histories, generation). *)
Definition add_generation (event : LogEntry) (h : ProcessHistory) : ProcessHistory :=
  if negb (le_Generation event =? 0)%Z && negb (bool_decide (last (ph_Generations h) = Some (le_Generation event)))
  then mkHistory (ph_Name h) (ph_Generations h ++ [le_Generation event]) (ph_DependsOn h) (ph_Transitions h) (ph_Output h) (ph_Truncated h)
  else h.

(** Source: internal/verify/diagnose.go:211-211 (histories, transition). *)
Definition transition_of (event : LogEntry) (state : ProcState) : Transition :=
  mkTransition (le_ID event) (ps_Generation state) (ps_State state) (ps_Ready state) (ps_LastError state)
    (ps_ExitCode state) (format_time (le_Time event)).

(** Source: internal/verify/diagnose.go:208-216 (histories, state). *)
Definition add_transition (event : LogEntry) (state : ProcState) (h : ProcessHistory) : ProcessHistory :=
  let deps := match ps_DependsOn state with [] => ph_DependsOn h | deps => deps end in
  let trs := ph_Transitions h ++ [transition_of event state] in
  if maxTransitionsPerGen * max 1 (length (ph_Generations h)) <? length trs
  then mkHistory (ph_Name h) (ph_Generations h) deps (tail trs) (ph_Output h) true
  else mkHistory (ph_Name h) (ph_Generations h) deps trs (ph_Output h) (ph_Truncated h).

(** The line belongs to the group.
    Source: internal/verify/diagnose.go:221-224 (histories, same). *)
Definition continues_group (event : LogEntry) (g : OutputGroup) : bool :=
  (og_Generation g =? le_Generation event)%Z && bool_decide (og_Stream g = le_Stream event) &&
  bool_decide (og_Message g = truncateUTF8 (le_Line event) maxDiagnosisLine) && bool_decide (og_Code g = le_Code event).

(** Source: internal/verify/diagnose.go:225-226 (histories, count). *)
Definition count_line (event : LogEntry) (g : OutputGroup) : OutputGroup :=
  mkOutputGroup (og_Generation g) (og_Stream g) (og_Level g) (og_Code g) (og_Message g) (S (og_Count g)) (og_FirstID g) (le_ID event).

(** Source: internal/verify/diagnose.go:230-230 (histories, group). *)
Definition new_group (event : LogEntry) : OutputGroup :=
  mkOutputGroup (le_Generation event) (le_Stream event) (le_Level event) (le_Code event)
    (truncateUTF8 (le_Line event) maxDiagnosisLine) 1 (le_ID event) (le_ID event).

Definition set_output (output : list OutputGroup) (truncated : bool) (h : ProcessHistory) : ProcessHistory :=
  mkHistory (ph_Name h) (ph_Generations h) (ph_DependsOn h) (ph_Transitions h) output truncated.

(** Source: internal/verify/diagnose.go:221-234 (histories, output). *)
Definition add_output (event : LogEntry) (h : ProcessHistory) : ProcessHistory :=
  let grown := ph_Output h ++ [new_group event] in
  let appended := if maxGroupsPerProcess <? length grown then set_output (tail grown) true h
                  else set_output grown (ph_Truncated h) h in
  match last (ph_Output h) with
  | Some g => if continues_group event g
              then set_output (alter (count_line event) (pred (length (ph_Output h))) (ph_Output h)) (ph_Truncated h) h
              else appended
  | None => appended
  end.

(** Source: internal/verify/diagnose.go:203-235 (histories, event). *)
Definition hist_event (h : ProcessHistory) (event : LogEntry) : ProcessHistory :=
  let h := add_generation event h in
  match le_State event with
  | Some state => add_transition event state h
  | None => if bool_decide (le_Level event = "debug") then h else add_output event h
  end.

(** ** All processes *)

(** The histories by name, and the names in the order in which they were first
    seen. *)
Record hists : Type := mkHists { hs_byName : gmap string ProcessHistory; hs_order : list string }.

(** Source: internal/verify/diagnose.go:190-198 (histories, get). *)
Definition get (name : string) (s : hists) : ProcessHistory * hists :=
  match hs_byName s !! name with
  | Some h => (h, s)
  | None => let h := empty_history name in (h, mkHists (<[name := h]> (hs_byName s)) (hs_order s ++ [name]))
  end.

(** Source: internal/verify/diagnose.go:199-203 (histories, loop). *)
Definition add_event (s : hists) (event : LogEntry) : hists :=
  if bool_decide (le_Process event = "") || bool_decide (le_Process event = "proc-compose") then s
  else let '(h, s) := get (le_Process event) s in
       mkHists (<[le_Process event := hist_event h event]> (hs_byName s)) (hs_order s).

(** The processes the filter asks for, and what they depend on; one unit of fuel
    per process that was seen, plus one, is enough.
    Source: internal/verify/diagnose.go:239-249 (histories, visit). *)
Fixpoint visit_history (fuel : nat) (byName : gmap string ProcessHistory) (included : gset string) (name : string) : gset string :=
  match fuel with
  | O => included
  | S fuel =>
      if bool_decide (name ∈ included) then included
      else
        let included := {[name]} ∪ included in
        match byName !! name with
        | Some h => fold_left (visit_history fuel byName) (ph_DependsOn h) included
        | None => included
        end
  end.

(** Source: internal/verify/diagnose.go:236-253 (histories, include). *)
Definition included_names (byName : gmap string ProcessHistory) (filter : list string) : gset string :=
  fold_left (visit_history (S (size byName)) byName) filter ∅.

(** [sort.SliceStable] by name. *)
Definition name_le (h k : ProcessHistory) : Prop := str_le (ph_Name h) (ph_Name k).
#[export] Instance name_le_dec : RelDecision name_le.
Proof. intros h k. unfold name_le. apply _. Defined.

(** Source: internal/verify/diagnose.go:187-262 (histories). *)
Definition histories (events : list LogEntry) (filter : list string) : list ProcessHistory :=
  let s := fold_left add_event events (mkHists ∅ []) in
  let included := included_names (hs_byName s) filter in
  merge_sort name_le
    (omap (λ name, hs_byName s !! name)
       (base.filter (λ name, filter = [] ∨ name ∈ included) (hs_order s))).

(** ** Scanning the journal *)

(** What a query finds: a snapshot, and another for its fallback. *)
Definition query_script : Type := res string (list (string * string)) * res string (list (string * string)).

(** The pages; [None] is a script that ends before the scan.
    Source: internal/verify/diagnose.go:168-184 (scanAttempt, loop). *)
Fixpoint scan_pages (opts : LogQuery.Options) (out : list LogEntry) (gap : bool) (script : list query_script)
    : option (list LogEntry * bool * bool * option string) :=
  match script with
  | [] => None
  | (files, fallback) :: script =>
      let '(page, err) := Query encoded decode ToLower opts files fallback in
      match err with
      | Some err => Some (out, gap, false, Some err)
      | None =>
          let gap := gap || pg_Gap page in
          let out := out ++ pg_Events page in
          if maxDiagnosisEvents <=? length out then Some (take maxDiagnosisEvents out, gap, true, None)
          else if negb (pg_HasMore page) || bool_decide (pg_NextCursor page = "") || bool_decide (pg_NextCursor page = op_After opts)
               then Some (out, gap, false, None)
               else scan_pages (set_window (op_Limit opts) (op_MaxBytes opts) (pg_NextCursor page) (op_Tail opts) opts) out gap script
      end
  end.

(** [missing] is the error of a journal that does not exist.
    Source: internal/verify/diagnose.go:163-185 (scanAttempt). *)
Definition scanAttempt (missing : option string) (opts : LogQuery.Options) (script : list query_script)
    : option (list LogEntry * bool * bool * option string) :=
  match missing with
  | Some err => Some ([], false, false, Some err)
  | None => scan_pages (set_window 1000 (2 ^ 20) "start" (op_Tail opts) opts) [] false script
  end.

(** The options that select a run, or an attempt. *)
Definition by_run (id : string) : LogQuery.Options := LogQuery.mkOptions 0 0 "" false [] "" "" "" "" "" 0 id "" 0.
Definition by_attempt (id : string) : LogQuery.Options := LogQuery.mkOptions 0 0 "" false [] "" "" "" "" "" 0 "" id 0.

(** ** The diagnosis *)

(** Source: internal/verify/diagnose.go:155-161 (Result.Journal). *)
Definition Journal (receipt : Result) : string := default "" (ev_Journal (r_Evidence receipt)).

(** Source: internal/verify/diagnose.go:79-105 (Diagnose, receipt). *)
Definition of_receipt (receipt : Result) (state : string) : Diagnosis :=
  let phases : gmap string string :=
    <["cleanup" := cu_Status (r_Cleanup receipt)]> (<["check" := ch_Status (r_Check receipt)]>
      (<["startup" := su_Status (r_Startup receipt)]> {["validation" := su_Validation (r_Startup receipt)]})) in
  mkDiagnosis SchemaVersion "verify.diagnosis" (default "" (r_AttemptID receipt)) state (r_Status receipt) (r_RunID receipt)
    (if bool_decide (en_Status (r_Environment receipt) = "") then phases
     else <["environment" := en_Status (r_Environment receipt)]> phases)
    (r_Errors receipt) "unavailable" [] (r_Check receipt) (ev_Journal (r_Evidence receipt)) 0 false false false
    ("temporal_association_not_causation" :: if bool_decide (state = StateCompleted) then [] else ["attempt_not_terminal"]).

(** No event was found.
    Source: internal/verify/diagnose.go:108-112 (Diagnose, unavailable). *)
Definition without_history (boundary limitation : string) (d : Diagnosis) : Diagnosis :=
  mkDiagnosis (dg_SchemaVersion d) (dg_Kind d) (dg_AttemptID d) (dg_AttemptState d) (dg_Status d) (dg_RunID d) (dg_Phases d)
    (dg_Errors d) boundary (dg_Processes d) (dg_Check d) (dg_Journal d) (dg_EventsScanned d) (dg_Gap d) (dg_Truncated d) true
    (dg_Limitations d ++ [limitation]).

Definition add_limitation (limitation : string) (d : Diagnosis) : Diagnosis :=
  mkDiagnosis (dg_SchemaVersion d) (dg_Kind d) (dg_AttemptID d) (dg_AttemptState d) (dg_Status d) (dg_RunID d) (dg_Phases d)
    (dg_Errors d) (dg_Boundary d) (dg_Processes d) (dg_Check d) (dg_Journal d) (dg_EventsScanned d) (dg_Gap d) (dg_Truncated d)
    (dg_HistoryMissing d) (dg_Limitations d ++ [limitation]).

Definition set_boundary (boundary : string) (d : Diagnosis) : Diagnosis :=
  mkDiagnosis (dg_SchemaVersion d) (dg_Kind d) (dg_AttemptID d) (dg_AttemptState d) (dg_Status d) (dg_RunID d) (dg_Phases d)
    (dg_Errors d) boundary (dg_Processes d) (dg_Check d) (dg_Journal d) (dg_EventsScanned d) (dg_Gap d) (dg_Truncated d)
    (dg_HistoryMissing d) (dg_Limitations d).

(** The events were found.
    Source: internal/verify/diagnose.go:140-152 (Diagnose, history). *)
Definition with_history (receipt : Result) (processes : list string) (events : list LogEntry) (gap truncated : bool) (d : Diagnosis) : Diagnosis :=
  let gap := gap || ev_Gap (r_Evidence receipt) in
  let rotated := match ev_FirstCursor (r_Evidence receipt) with
                 | Some first => negb (bool_decide (le_ID <$> head events = Some first))
                 | None => false
                 end in
  let limitations := dg_Limitations d ++ (if gap then ["journal_gap"] else []) ++ (if rotated then ["earliest_events_rotated"] else []) in
  let hs := histories events processes in
  mkDiagnosis (dg_SchemaVersion d) (dg_Kind d) (dg_AttemptID d) (dg_AttemptState d) (dg_Status d) (dg_RunID d) (dg_Phases d)
    (dg_Errors d) (dg_Boundary d) hs (dg_Check d) (dg_Journal d) (length events) gap
    (truncated || existsb ph_Truncated hs) (dg_HistoryMissing d || rotated) limitations.

(** The rest once a scan has ended: its result and the diagnosis so far.
    Source: internal/verify/diagnose.go:134-152 (Diagnose, scanned). *)
Definition scanned (receipt : Result) (processes : list string) (d : Diagnosis)
    (r : list LogEntry * bool * bool * option string) : Diagnosis :=
  let '(events, gap, truncated, err) := r in
  match err, events with
  | None, _ :: _ => with_history receipt processes events gap truncated d
  | _, _ => without_history "unavailable" "history_rotated_or_removed" d
  end.

(** The first scan and the second have each a script of their own; [None] is a
    script that ends before its scan.
    Source: internal/verify/diagnose.go:76-153 (Diagnose). *)
Definition Diagnose (receipt : Result) (state : string) (processes : list string)
    (missing missing' : option string) (script script' : list query_script) : option Diagnosis :=
  let d := of_receipt receipt state in
  match r_RunID receipt with
  | Some run =>
      if bool_decide (Journal receipt = "") || bool_decide (run = "")
      then Some (without_history (dg_Boundary d) "journal_unavailable" d)
      else if bool_decide (dg_AttemptID d = "") then
        r ← scanAttempt missing (by_run run) script;
        Some (scanned receipt processes (add_limitation "attempt_boundary_unavailable" (set_boundary "run_id" d)) r)
      else
        r ← scanAttempt missing (by_attempt (dg_AttemptID d)) script;
        match r with
        | ([], _, _, None) =>
            r ← scanAttempt missing' (by_run run) script';
            Some (scanned receipt processes (add_limitation "attempt_boundary_inferred_from_run" (set_boundary "run_id" d)) r)
        | _ => Some (scanned receipt processes (set_boundary "attempt_id" d) r)
        end
  | None => Some (without_history (dg_Boundary d) "journal_unavailable" d)
  end.
End diagnosis.
