(* ===== verification/Histories.v ===== *)
(** * Diagnosis of attempts: what is shown

    The history of a process is told by its own events alone, and loses none of
    them without saying so; a diagnosis over a journal at rest shows every event
    of its attempt; and a scan ends, whatever happens to the journal. *)

From S2P Require Import Prelude GoStrings Ipc RunnerState LogQuery VerifyRecords Compare Diagnose.

(** ** Generic facts *)

Lemma alter_last {A} (f : A → A) l x : alter f (pred (length (l ++ [x]))) (l ++ [x]) = l ++ [f x].
Proof.
  rewrite length_app, Nat.add_1_r. cbn [pred]. induction l as [|y l IH]; [done|]. cbn. f_equal. exact IH.
Qed.

(** Consecutive copies of an element count once. *)
Fixpoint squeeze {A} `{EqDecision A} (l : list A) : list A :=
  match l with
  | x :: l' => match l' with
               | y :: _ => if bool_decide (x = y) then squeeze l' else x :: squeeze l'
               | [] => [x]
               end
  | [] => []
  end.

Lemma squeeze_cons2 {A} `{EqDecision A} (x y : A) l : squeeze (x :: y :: l) = if bool_decide (x = y) then squeeze (y :: l) else x :: squeeze (y :: l).
Proof. done. Qed.

Lemma squeeze_snoc {A} `{EqDecision A} (l : list A) x :
  squeeze (l ++ [x]) = if bool_decide (last l = Some x) then squeeze l else squeeze l ++ [x].
Proof.
  induction l as [|y l IH]; [done|]. destruct l as [|z l].
  - cbn. repeat case_bool_decide; naive_solver.
  - change ((y :: z :: l) ++ [x]) with (y :: z :: (l ++ [x])). change (last (y :: z :: l)) with (last (z :: l)).
    rewrite !squeeze_cons2. change (z :: l ++ [x]) with ((z :: l) ++ [x]). rewrite IH. by repeat case_bool_decide.
Qed.

Lemma last_squeeze {A} `{EqDecision A} (l : list A) : last (squeeze l) = last l.
Proof.
  induction l as [|x l IH] using rev_ind; [done|]. rewrite squeeze_snoc, last_snoc. case_bool_decide as Hx; [by rewrite IH|]. by rewrite last_snoc.
Qed.

Lemma tail_app_ne {A} (l : list A) x : l ≠ [] → tail (l ++ [x]) = tail l ++ [x].
Proof. by destruct l. Qed.

Section facts.
Context (format_time : Z → string).
Notation hist_event := (hist_event format_time).
Notation add_event := (add_event format_time).
Notation histories := (histories format_time).
Notation transition_of := (transition_of format_time).

(** ** The events of one process *)

(** The events that belong to a process, as opposed to the supervisor. *)
Definition of_process (e : LogEntry) : bool := negb (bool_decide (le_Process e = "") || bool_decide (le_Process e = "proc-compose")).

(** The events of process [p]. *)
Definition own (p : string) (events : list LogEntry) : list LogEntry := filter (λ e, le_Process e = p) events.

(** Process [p] was seen. *)
Definition seen (events : list LogEntry) (p : string) : Prop := p ≠ "" ∧ p ≠ "proc-compose" ∧ own p events ≠ [].

#[local] Instance seen_dec events p : Decision (seen events p).
Proof. unfold seen. apply _. Defined.

Definition history_of (p : string) (events : list LogEntry) : ProcessHistory := fold_left hist_event (own p events) (empty_history p).

Lemma own_snoc p events e : own p (events ++ [e]) = own p events ++ (if decide (le_Process e = p) then [e] else []).
Proof. unfold own. rewrite filter_app, filter_cons, filter_nil. by case_decide. Qed.

Lemma seen_snoc p events e : seen (events ++ [e]) p ↔ seen events p ∨ (le_Process e = p ∧ of_process e = true).
Proof.
  unfold seen, of_process. rewrite own_snoc, negb_true_iff, orb_false_iff, !bool_decide_eq_false.
  case_decide as Hp; [|rewrite app_nil_r; naive_solver]. subst p. split.
  - intros (H1 & H2 & _). auto.
  - intros [(H1 & H2 & H3)|(_ & H1 & H2)]; (split_and!; [done..|]); by intros [? ?]%app_eq_nil.
Qed.

(** What the loop has gathered: a history for each process that was seen, and
    its name once. *)
Record gathered (events : list LogEntry) (s : hists) : Prop := mkGathered {
  ga_byName : ∀ p, hs_byName s !! p = if decide (seen events p) then Some (history_of p events) else None;
  ga_nodup : NoDup (hs_order s);
  ga_order : ∀ p, p ∈ hs_order s ↔ seen events p;
}.

Lemma history_of_snoc p events e : history_of p (events ++ [e]) = if decide (le_Process e = p) then hist_event (history_of p events) e else history_of p events.
Proof. unfold history_of. rewrite own_snoc. case_decide; [by rewrite fold_left_app|by rewrite app_nil_r]. Qed.

Lemma own_unseen p events : p ≠ "" → p ≠ "proc-compose" → ¬ seen events p → history_of p events = empty_history p.
Proof. unfold seen, history_of. destruct (own p events); [done|]. intros ?? H. exfalso. apply H. by split_and!. Qed.

Lemma gathered_fold events : gathered events (fold_left add_event events (mkHists ∅ [])).
Proof.
  induction events as [|e events [Hby Hnd Hor]] using rev_ind; [split; cbn|].
  - intros p. rewrite decide_False; [done|]. by intros (_ & _ & ?).
  - constructor.
  - intros p. split; [by intros ?%not_elem_of_nil|by intros (_ & _ & ?)].
  - rewrite fold_left_app. cbn [fold_left]. set (s := fold_left add_event events _) in *. clearbody s.
    assert (Hof := eq_refl (of_process e)). unfold of_process at 2 in Hof. unfold Diagnose.add_event.
    destruct (_ || _); cbn [negb] in Hof.
    { assert (∀ p, seen (events ++ [e]) p ↔ seen events p) as Hseen by (intros p; rewrite seen_snoc, Hof; naive_solver).
      split; [|done|intros p; by rewrite Hseen]. intros p. rewrite Hby, history_of_snoc. rewrite (decide_ext _ _ _ _ (Hseen p)).
      case_decide as Hs; [|done]. case_decide as Hp; [|done]. exfalso. subst p. destruct Hs as (H1 & H2 & _).
      unfold of_process in Hof. rewrite !bool_decide_false in Hof by done. done. }
    assert (le_Process e ≠ "" ∧ le_Process e ≠ "proc-compose") as [Hp1 Hp2].
    { unfold of_process in Hof. by rewrite negb_true_iff, orb_false_iff, !bool_decide_eq_false in Hof. }
    assert (∃ s', get (le_Process e) s = (history_of (le_Process e) events, s') ∧
      (∀ p, p ≠ le_Process e → hs_byName s' !! p = hs_byName s !! p) ∧ NoDup (hs_order s') ∧
      (∀ p, p ∈ hs_order s' ↔ seen events p ∨ p = le_Process e)) as (s' & -> & Hother & Hnd' & Hor').
    { unfold get. rewrite Hby. case_decide as Hs.
      - exists s. split_and!; [done..|]. intros p. rewrite Hor. naive_solver.
      - eexists. rewrite <-own_unseen with (events := events) by done. split; [done|]. cbn. split_and!.
        + intros p Hp. by rewrite lookup_insert_ne.
        + apply NoDup_app. split_and!; [done| |by apply NoDup_singleton]. intros p Hp ->%list_elem_of_singleton. by apply Hs, Hor.
        + intros p. rewrite elem_of_app, list_elem_of_singleton, Hor. done. }
    split; cbn; [|done|].
    + intros p. rewrite history_of_snoc. destruct (decide (le_Process e = p)) as [<-|Hne].
      * rewrite lookup_insert_eq, decide_True; [done|]. apply seen_snoc. by right.
      * rewrite lookup_insert_ne, Hother, Hby by done. apply decide_ext. rewrite seen_snoc. naive_solver.
    + intros p. rewrite Hor', seen_snoc, Hof. naive_solver.
Qed.

(** ** What a history tells of the events *)

(** The states, and the lines that are shown. *)
Definition states (l : list LogEntry) : list ProcState := omap le_State l.
Definition transitions (l : list LogEntry) : list Transition := omap (λ e, transition_of e <$> le_State e) l.
Definition is_line (e : LogEntry) : Prop := le_State e = None ∧ le_Level e ≠ "debug".
#[local] Instance is_line_dec e : Decision (is_line e).
Proof. unfold is_line. destruct (le_State e); [right; naive_solver|apply _]. Defined.
Definition lines (l : list LogEntry) : list LogEntry := filter is_line l.

(** The generations the process went through. *)
Definition generations (l : list LogEntry) : list Z := squeeze (filter (λ g, g ≠ 0%Z) (le_Generation <$> l)).

(** The dependencies it last told. *)
Definition told_deps (l : list LogEntry) : list string := default [] (last (filter (λ deps, deps ≠ []) (ps_DependsOn <$> states l))).

(** A group stands for a run of identical lines. *)
Record describes (run : list LogEntry) (g : OutputGroup) : Prop := mkDescribes {
  de_count : og_Count g = length run;
  de_same : Forall (λ e, continues_group e g = true) run;
  de_first : le_ID <$> head run = Some (og_FirstID g);
  de_last : le_ID <$> last run = Some (og_LastID g);
  de_level : le_Level <$> head run = Some (og_Level g);
}.

(** No run continues the one before it. *)
Definition apart (runs : list (list LogEntry)) (gs : list OutputGroup) : Prop :=
  ∀ i g e run, gs !! i = Some g → runs !! S i = Some (e :: run) → continues_group e g = false.

(** The history [h] of a process with the events [l].  [dropped] and [older] are
    the oldest transitions and lines, which the bounds have dropped. *)
Record tells (l : list LogEntry) (h : ProcessHistory) (dropped : list Transition) (older : list LogEntry) (runs : list (list LogEntry)) : Prop := mkTells {
  te_generations : ph_Generations h = generations l;
  te_depends : ph_DependsOn h = told_deps l;
  te_transitions : transitions l = dropped ++ ph_Transitions h;
  te_transitions_bound : length (ph_Transitions h) ≤ maxTransitionsPerGen * max 1 (length (ph_Generations h));
  te_lines : lines l = older ++ concat runs;
  te_runs : Forall2 describes runs (ph_Output h);
  te_apart : apart runs (ph_Output h);
  te_output_bound : length (ph_Output h) ≤ maxGroupsPerProcess;
  te_truncated : ph_Truncated h = true ↔ dropped ≠ [] ∨ older ≠ [];
}.

Lemma transitions_snoc l e : transitions (l ++ [e]) = transitions l ++ (match le_State e with Some st => [transition_of e st] | None => [] end).
Proof. unfold transitions. rewrite omap_app. cbn. by destruct (le_State e). Qed.

Lemma lines_snoc l e : lines (l ++ [e]) = lines l ++ (if decide (is_line e) then [e] else []).
Proof. unfold lines. rewrite filter_app, filter_cons, filter_nil. by case_decide. Qed.

Lemma generations_snoc l e : generations (l ++ [e]) =
  if negb (le_Generation e =? 0)%Z && negb (bool_decide (last (generations l) = Some (le_Generation e))) then generations l ++ [le_Generation e] else generations l.
Proof.
  unfold generations. rewrite fmap_app, filter_app. cbn [fmap list_fmap]. rewrite filter_cons, filter_nil.
  destruct (Z.eqb_spec (le_Generation e) 0) as [Hz|Hz].
  - rewrite decide_False by auto. by rewrite app_nil_r.
  - rewrite decide_True by done. rewrite squeeze_snoc, last_squeeze. cbn. by case_bool_decide.
Qed.

Lemma told_deps_snoc l e : told_deps (l ++ [e]) =
  match le_State e with Some st => match ps_DependsOn st with [] => told_deps l | deps => deps end | None => told_deps l end.
Proof.
  unfold told_deps, states. rewrite omap_app, fmap_app, filter_app. cbn [omap list_omap]. destruct (le_State e) as [st|]; cbn [fmap list_fmap].
  2:{ by rewrite filter_nil, app_nil_r. }
  rewrite filter_cons, filter_nil. destruct (ps_DependsOn st) as [|d ds].
  - rewrite decide_False by auto. by rewrite app_nil_r.
  - rewrite decide_True by done. by rewrite last_snoc.
Qed.

(** A history that tells [l] except for its generations, which already count the
    next event. *)
Definition tells_but (l : list LogEntry) (gens : list Z) (h : ProcessHistory) (dropped : list Transition) (older : list LogEntry) (runs : list (list LogEntry)) : Prop :=
  ph_Generations h = gens ∧ ph_DependsOn h = told_deps l ∧ transitions l = dropped ++ ph_Transitions h ∧
  length (ph_Transitions h) ≤ maxTransitionsPerGen * max 1 (length gens) ∧ lines l = older ++ concat runs ∧
  Forall2 describes runs (ph_Output h) ∧ apart runs (ph_Output h) ∧ length (ph_Output h) ≤ maxGroupsPerProcess ∧
  (ph_Truncated h = true ↔ dropped ≠ [] ∨ older ≠ []).

Lemma add_generation_tells l e h dropped older runs : tells l h dropped older runs →
  tells_but l (generations (l ++ [e])) (add_generation e h) dropped older runs.
Proof.
  intros [Hg Hd Ht Htb Hl Hr Ha Hob Htr]. unfold add_generation. rewrite Hg in *. rewrite generations_snoc.
  destruct (negb _ && negb _); split_and!; cbn; try done. rewrite length_app. cbn. unfold maxTransitionsPerGen in *. lia.
Qed.

(** An event that is neither a state nor a line that is shown. *)
Lemma tells_silent l e h dropped older runs : le_State e = None → ¬ is_line e →
  tells_but l (generations (l ++ [e])) h dropped older runs → tells (l ++ [e]) h dropped older runs.
Proof.
  intros Hs He (Hg & Hd & Ht & Htb & Hl & Hr & Ha & Hob & Htr).
  split; rewrite ?told_deps_snoc, ?transitions_snoc, ?lines_snoc, ?Hs, ?decide_False, ?app_nil_r by done; try done. by rewrite Hg.
Qed.

Lemma tells_transition l e st h dropped older runs : le_State e = Some st →
  tells_but l (generations (l ++ [e])) h dropped older runs →
  ∃ dropped', tells (l ++ [e]) (add_transition format_time e st h) dropped' older runs.
Proof.
  intros Hs (Hg & Hd & Ht & Htb & Hl & Hr & Ha & Hob & Htr).
  assert (¬ is_line e) as He by (unfold is_line; naive_solver).
  unfold add_transition. rewrite Hg. destruct (Nat.ltb_spec (maxTransitionsPerGen * max 1 (length (generations (l ++ [e])))) (length (ph_Transitions h ++ [transition_of e st]))) as [Hb|Hb];
    rewrite length_app in Hb; cbn [length] in Hb.
  - assert (ph_Transitions h ≠ []) as Hne by (intros Hn; rewrite Hn in Hb; unfold maxTransitionsPerGen in Hb; cbn [length] in Hb; lia).
    rewrite tail_app_ne by done. destruct (ph_Transitions h) as [|t trs] eqn:Htrs; [done|]. cbn [tail].
    exists (dropped ++ [t]). split; cbn [ph_Generations ph_DependsOn ph_Transitions ph_Output ph_Truncated]; rewrite ?told_deps_snoc, ?transitions_snoc, ?lines_snoc, ?Hs, ?decide_False, ?app_nil_r by done; try done.
    + by rewrite Hd.
    + rewrite Ht. by rewrite <-!(assoc_L (++)).
    + rewrite ?Hg, length_app in *. cbn [length] in *. lia.
    + split; [|done]. intros _. left. by intros [? ?]%app_eq_nil.
  - exists dropped. split; cbn [ph_Generations ph_DependsOn ph_Transitions ph_Output ph_Truncated]; rewrite ?told_deps_snoc, ?transitions_snoc, ?lines_snoc, ?Hs, ?decide_False, ?app_nil_r by done; try done.
    + by rewrite Hd.
    + rewrite Ht. by rewrite <-!(assoc_L (++)).
    + rewrite ?Hg, length_app in *. cbn [length] in *. lia.
Qed.

Lemma new_group_describes e : describes [e] (new_group e).
Proof.
  split; try done. constructor; [|constructor]. unfold continues_group, new_group. cbn. by rewrite Z.eqb_refl, !bool_decide_true.
Qed.

Lemma count_line_describes e run g : describes run g → continues_group e g = true → describes (run ++ [e]) (count_line e g).
Proof.
  intros [Hc Hs Hf Hl Hv] He. split; cbn.
  - rewrite length_app, Hc. cbn. lia.
  - apply Forall_app. split; [exact Hs|]. by constructor.
  - by destruct run.
  - by rewrite last_snoc.
  - by destruct run.
Qed.

(** The bounded output after a line that starts a group. *)
Lemma append_group l e h older runs (truncated : bool) :
  lines l = older ++ concat runs → Forall2 describes runs (ph_Output h) → apart runs (ph_Output h) →
  length (ph_Output h) ≤ maxGroupsPerProcess →
  match last (ph_Output h) with Some g => continues_group e g = false | None => True end →
  let grown := ph_Output h ++ [new_group e] in
  let h' := if maxGroupsPerProcess <? length grown then set_output (tail grown) true h else set_output grown (ph_Truncated h) h in
  ∃ older' runs', lines l ++ [e] = older' ++ concat runs' ∧ Forall2 describes runs' (ph_Output h') ∧ apart runs' (ph_Output h') ∧
    length (ph_Output h') ≤ maxGroupsPerProcess ∧ (older' = older ∧ ph_Truncated h' = ph_Truncated h ∨ older' ≠ [] ∧ ph_Truncated h' = true).
Proof.
  intros Hl Hr Ha Hob Hlast. cbv zeta. pose proof (Forall2_length _ _ _ Hr) as Hlen.
  assert (Forall2 describes (runs ++ [[e]]) (ph_Output h ++ [new_group e])) as Hr'
    by (apply Forall2_app; [done|]; constructor; [apply new_group_describes|constructor]).
  assert (apart (runs ++ [[e]]) (ph_Output h ++ [new_group e])) as Ha'.
  { intros i g e' run Hi Hrun. apply lookup_app_Some in Hrun as [Hrun|[Hge Hrun]].
    - apply (Ha i g e' run); [|done]. apply lookup_lt_Some in Hrun. by rewrite lookup_app_l in Hi by lia.
    - apply list_lookup_singleton_Some in Hrun as [Hz [= <- <-]].
      rewrite lookup_app_l in Hi by lia. rewrite last_lookup in Hlast.
      replace (pred (length (ph_Output h))) with i in Hlast by lia. by rewrite Hi in Hlast. }
  rewrite length_app. cbn [length]. destruct (Nat.ltb_spec maxGroupsPerProcess (length (ph_Output h) + 1)).
  - destruct (ph_Output h) as [|g gs] eqn:Hout; [unfold maxGroupsPerProcess in *; cbn in *; lia|].
    destruct runs as [|run runs]; [done|]. cbn [tail set_output ph_Output ph_Truncated app].
    exists (older ++ run), (runs ++ [[e]]). split_and!.
    + rewrite Hl, concat_app. cbn [concat]. by rewrite <-!(assoc_L (++)).
    + by apply Forall2_cons in Hr' as [_ Hr'].
    + intros i g' e' run' Hi Hrun. by apply (Ha' (S i) g' e' run').
    + rewrite length_app. cbn [length] in *. lia.
    + right. split; [|done]. apply Forall2_cons in Hr as [[Hc _ Hf _ _] _]. destruct run; [done|]. by intros [_ ?]%app_eq_nil.
  - cbn [set_output ph_Output ph_Truncated]. exists older, (runs ++ [[e]]). split_and!; [|done|done| |by left].
    + rewrite Hl, concat_app. cbn [concat]. by rewrite <-!(assoc_L (++)).
    + rewrite length_app. cbn. lia.
Qed.

(** A line that joins the last group. *)
Lemma extend_group l e gs g older runs :
  lines l = older ++ concat runs → Forall2 describes runs (gs ++ [g]) → apart runs (gs ++ [g]) → continues_group e g = true →
  ∃ runs', lines l ++ [e] = older ++ concat runs' ∧ Forall2 describes runs' (gs ++ [count_line e g]) ∧ apart runs' (gs ++ [count_line e g]).
Proof.
  intros Hl Hr Ha He. apply Forall2_app_inv_r in Hr as (runs0 & runs1 & Hr0 & Hr1 & ->).
  apply Forall2_cons_inv_r in Hr1 as (run & runs2 & Hrun & Hnil & ->). apply Forall2_nil_inv_r in Hnil as ->.
  pose proof (Forall2_length _ _ _ Hr0) as Hlen. exists (runs0 ++ [run ++ [e]]). split_and!.
  - rewrite Hl, !concat_app. cbn [concat]. by rewrite !app_nil_r, <-!(assoc_L (++)).
  - apply Forall2_app; [done|]. constructor; [by apply count_line_describes|constructor].
  - intros i g' e' run' Hi Hrun'.
    assert (∃ run'', (runs0 ++ [run]) !! S i = Some (e' :: run'')) as (run'' & Hlook).
    { apply lookup_app_Some in Hrun' as [Hrun'|[Hge Hrun']]; [exists run'; by apply lookup_app_l_Some|].
      apply list_lookup_singleton_Some in Hrun' as [Hz Hrun']. destruct run as [|e0 run]; [by destruct Hrun|].
      cbn in Hrun'. injection Hrun' as -> _. exists run. apply lookup_app_Some. right. split; [done|]. by rewrite Hz. }
    assert (i < length gs) as Hi' by (apply lookup_lt_Some in Hlook; rewrite length_app in Hlook; cbn in Hlook; lia).
    apply (Ha i g' e' run''); [|done]. rewrite lookup_app_l in Hi |- * by done. done.
Qed.

Lemma tells_output l e h dropped older runs : is_line e →
  tells_but l (generations (l ++ [e])) h dropped older runs →
  ∃ older' runs', tells (l ++ [e]) (add_output e h) dropped older' runs'.
Proof.
  intros He (Hg & Hd & Ht & Htb & Hl & Hr & Ha & Hob & Htr). pose proof (proj1 He) as Hs.
  assert (∀ output b older' runs', lines l ++ [e] = older' ++ concat runs' → Forall2 describes runs' output → apart runs' output →
    length output ≤ maxGroupsPerProcess → (older' = older ∧ b = ph_Truncated h ∨ older' ≠ [] ∧ b = true) →
    tells (l ++ [e]) (set_output output b h) dropped older' runs') as Hdone.
  { intros output b older' runs' H1 H2 H3 H4 H5.
    split; cbn [set_output ph_Generations ph_DependsOn ph_Transitions ph_Output ph_Truncated];
      rewrite ?told_deps_snoc, ?transitions_snoc, ?lines_snoc, ?Hs, ?app_nil_r; try done.
    - by rewrite Hg.
    - by rewrite decide_True.
    - destruct H5 as [[-> ->]|[? ->]]; [done|]. split; [by right|done]. }
  assert (match last (ph_Output h) with Some g => continues_group e g = false | None => True end →
    ∃ older' runs', tells (l ++ [e]) (let grown := ph_Output h ++ [new_group e] in
      if maxGroupsPerProcess <? length grown then set_output (tail grown) true h else set_output grown (ph_Truncated h) h) dropped older' runs') as Happ.
  { intros Hlast. destruct (append_group l e h older runs (ph_Truncated h) Hl Hr Ha Hob Hlast) as (older' & runs' & H1 & H2 & H3 & H4 & H5).
    exists older', runs'. cbv zeta in *. destruct (maxGroupsPerProcess <? _); by apply Hdone. }
  unfold add_output. cbv zeta in Happ |- *. destruct (last (ph_Output h)) as [g|] eqn:Hlast; [|by apply Happ].
  destruct (continues_group e g) eqn:Hc; [|by apply Happ]. apply last_Some in Hlast as [gs Hgs]. rewrite Hgs, alter_last in *.
  destruct (extend_group l e gs g older runs Hl Hr Ha Hc) as (runs' & H1 & H2 & H3).
  exists older, runs'. apply Hdone; [done..| |by left]. rewrite length_app in *. exact Hob.
Qed.

Lemma tells_event l e h dropped older runs : tells l h dropped older runs →
  ∃ dropped' older' runs', tells (l ++ [e]) (hist_event h e) dropped' older' runs'.
Proof.
  intros Ht. apply (add_generation_tells l e) in Ht. unfold Diagnose.hist_event. destruct (le_State e) as [st|] eqn:Hs.
  - destruct (tells_transition l e st _ _ _ _ Hs Ht) as [dropped' H]. by eexists _, _, _.
  - case_bool_decide as Hlevel.
    + eexists _, _, _. apply tells_silent; [done| |done]. by intros [_ ?].
    + destruct (tells_output l e _ _ _ _ (conj Hs Hlevel) Ht) as (older' & runs' & H). by eexists _, _, _.
Qed.

Lemma hist_event_name h e : ph_Name (hist_event h e) = ph_Name h.
Proof.
  unfold Diagnose.hist_event, add_transition, add_output, set_output, add_generation.
  repeat case_match; done.
Qed.

Lemma history_name p events : ph_Name (history_of p events) = p.
Proof.
  unfold history_of. generalize (own p events). intros l. induction l as [|e l IH] using rev_ind; [done|].
  rewrite fold_left_app. cbn. by rewrite hist_event_name.
Qed.

Lemma history_tells p events : ∃ dropped older runs, tells (own p events) (history_of p events) dropped older runs.
Proof.
  unfold history_of. generalize (own p events). intros l. induction l as [|e l (dropped & older & runs & IH)] using rev_ind.
  - exists [], [], []. split; try done; try (cbn; lia). split; [done|]. by intros [?|?].
  - rewrite fold_left_app. cbn [fold_left]. by eapply tells_event.
Qed.

(** ** The processes of a filtered diagnosis *)

Definition deps_in (byName : gmap string ProcessHistory) (n : string) : list string :=
  match byName !! n with Some h => ph_DependsOn h | None => [] end.

(** [I'] extends [I], and what it adds has its dependencies in [I']. *)
Definition closes (byName : gmap string ProcessHistory) (I I' : gset string) : Prop :=
  I ⊆ I' ∧ ∀ x d, x ∈ I' → x ∉ I → d ∈ deps_in byName x → d ∈ I'.

Lemma closes_refl byName I : closes byName I I.
Proof. split; set_solver. Qed.

Lemma closes_trans byName I1 I2 I3 : closes byName I1 I2 → closes byName I2 I3 → closes byName I1 I3.
Proof.
  intros [H1 C1] [H2 C2]. split; [set_solver|]. intros x d Hx Hnx Hd.
  destruct (decide (x ∈ I2)) as [Hx2|Hx2]; [|by eapply C2]. apply H2. by eapply C1.
Qed.

(** A loop of visits, when each visit closes what it adds. *)
Lemma closes_fold byName (f : gset string → string → gset string) (P : gset string → Prop) l :
  (∀ I I', P I → I ⊆ I' → P I') → (∀ I n, P I → closes byName I (f I n) ∧ n ∈ f I n) →
  ∀ I, P I → closes byName I (fold_left f l I) ∧ ∀ n, n ∈ l → n ∈ fold_left f l I.
Proof.
  intros Hmono Hf. induction l as [|a l IH]; intros I HI; cbn [fold_left].
  { split; [apply closes_refl|]. by intros n ?%not_elem_of_nil. }
  destruct (Hf I a HI) as [Hc Ha]. destruct (IH (f I a)) as [Hc' Hl]; [by eapply Hmono, Hc|].
  split; [by eapply closes_trans|]. intros n [->|Hn]%elem_of_cons; [|by auto]. by apply (proj1 Hc').
Qed.

Definition unvisited (byName : gmap string ProcessHistory) (I : gset string) : gset string := dom byName ∖ I.

Lemma visit_history_closes byName fuel : ∀ I n, size (unvisited byName I) < fuel →
  closes byName I (visit_history fuel byName I n) ∧ n ∈ visit_history fuel byName I n.
Proof.
  induction fuel as [|fuel IH]; intros I n Hfuel; [lia|]. cbn [visit_history].
  case_bool_decide as Hin; [split; [apply closes_refl|done]|]. set (I1 := {[n]} ∪ I).
  destruct (byName !! n) as [h|] eqn:Hn.
  2:{ split; [|set_solver]. split; [set_solver|]. intros x d Hx Hnx. assert (x = n) as -> by set_solver. unfold deps_in. rewrite Hn. by intros ?%not_elem_of_nil. }
  destruct (closes_fold byName (visit_history fuel byName) (λ I, size (unvisited byName I) < fuel) (ph_DependsOn h)) with (I := I1) as [[Hsub Hcl] Hall].
  - intros J J' HJ HJJ. eapply Nat.le_lt_trans; [|exact HJ]. apply subseteq_size. unfold unvisited. set_solver.
  - intros J m HJ. by apply IH.
  - assert (n ∈ dom byName) by by eapply elem_of_dom_2.
    assert (size (unvisited byName I1) < size (unvisited byName I)); [|lia].
    apply (size_strict_subset _ _ n); unfold unvisited; set_solver.
  - split; [|set_solver]. split; [set_solver|]. intros x d Hx Hnx Hd. destruct (decide (x = n)) as [->|Hne].
    + apply Hall. unfold deps_in in Hd. by rewrite Hn in Hd.
    + apply (Hcl x d); set_solver.
Qed.

(** The names the filter asks for, with the dependencies they were last seen to
    have. *)
Inductive Reached (events : list LogEntry) (names : list string) : string → Prop :=
  | reached_root n : n ∈ names → Reached events names n
  | reached_dep n d : Reached events names n → seen events n → d ∈ told_deps (own n events) → Reached events names d.

Lemma deps_in_seen events s n d : gathered events s → d ∈ deps_in (hs_byName s) n ↔ seen events n ∧ d ∈ told_deps (own n events).
Proof.
  intros [Hby _ _]. unfold deps_in. rewrite Hby. destruct (decide (seen events n)) as [Hs|Hs].
  - destruct (history_tells n events) as (? & ? & ? & [_ <- _ _ _ _ _ _ _]). naive_solver.
  - rewrite elem_of_nil. naive_solver.
Qed.

Lemma visit_history_sound events names s fuel : gathered events s → ∀ I n, (∀ x, x ∈ I → Reached events names x) → Reached events names n →
  ∀ x, x ∈ visit_history fuel (hs_byName s) I n → Reached events names x.
Proof.
  intros Hga. induction fuel as [|fuel IH]; intros I n HI Hn; cbn [visit_history]; [done|].
  case_bool_decide; [done|]. assert (∀ x, x ∈ {[n]} ∪ I → Reached events names x) as HI1 by set_solver.
  destruct (hs_byName s !! n) as [h|] eqn:Hh; [|done].
  apply (fold_left_invariant (λ I, ∀ x, x ∈ I → Reached events names x)); [done|].
  intros J d Hd HJ. apply IH; [done|]. assert (d ∈ deps_in (hs_byName s) n) as Hdn by (unfold deps_in; by rewrite Hh).
  apply (deps_in_seen events) in Hdn as [Hs Ht]; [|done]. by eapply reached_dep.
Qed.

Lemma included_names_exact events names s x : gathered events s → x ∈ included_names (hs_byName s) names ↔ Reached events names x.
Proof.
  intros Hga. unfold included_names. split.
  - revert x. apply (fold_left_invariant (λ I, ∀ x, x ∈ I → Reached events names x)); [set_solver|].
    intros I n Hn HI. apply visit_history_sound; [done..|]. by apply reached_root.
  - destruct (closes_fold (hs_byName s) (visit_history (S (size (hs_byName s))) (hs_byName s)) (λ _, True) names) with (I := ∅ : gset string) as [[_ Hcl] Hroots]; [done| |done|].
    { intros I n _. apply visit_history_closes. rewrite <-size_dom. apply Nat.lt_succ_r, subseteq_size. unfold unvisited. set_solver. }
    induction 1 as [n Hn|n d _ IH Hs Hd]; [by apply Hroots|]. apply (Hcl n d); [done|set_solver|]. by apply (deps_in_seen events).
Qed.

(** ** The histories are faithful *)

Lemma elem_of_histories events names h : h ∈ histories events names ↔
  h = history_of (ph_Name h) events ∧ seen events (ph_Name h) ∧ (names = [] ∨ Reached events names (ph_Name h)).
Proof.
  unfold Diagnose.histories. pose proof (gathered_fold events) as Hga. set (s := fold_left _ _ _) in *. clearbody s.
  rewrite merge_sort_Permutation, list_elem_of_omap. split.
  - intros (n & [Hn Hin]%list_elem_of_filter & Hh). apply (ga_order events s Hga) in Hin. rewrite (ga_byName events s Hga), decide_True in Hh by done.
    injection Hh as <-. rewrite history_name. split_and!; [done..|]. by rewrite (included_names_exact events) in Hn.
  - intros (Hh & Hs & Hn). exists (ph_Name h). rewrite list_elem_of_filter, (ga_order events s Hga), (ga_byName events s Hga), decide_True by done.
    split; [|by rewrite <-Hh]. split; [|done]. by rewrite (included_names_exact events).
Qed.

#[local] Instance name_le_trans : Transitive name_le.
Proof. intros h k m. apply (str_le_trans (ph_Name h) (ph_Name k) (ph_Name m)). Qed.

#[local] Instance name_le_total : Total name_le.
Proof. intros h k. apply (str_le_total (ph_Name h) (ph_Name k)). Qed.

Lemma names_of_histories events s (l : list string) : gathered events s → (∀ n, n ∈ l → seen events n) → ph_Name <$> omap (λ n, hs_byName s !! n) l = l.
Proof.
  intros Hga Hl. induction l as [|n l IH]; [done|]. cbn [omap list_omap]. rewrite (ga_byName events s Hga), decide_True by (apply Hl, list_elem_of_here).
  cbn [fmap list_fmap]. rewrite history_name. f_equal. apply IH. intros m Hm. by apply Hl, list_elem_of_further.
Qed.

Lemma histories_sorted events names : StronglySorted str_le (ph_Name <$> histories events names) ∧ NoDup (ph_Name <$> histories events names).
Proof.
  unfold Diagnose.histories. pose proof (gathered_fold events) as Hga. set (s := fold_left _ _ _) in *. clearbody s. split.
  - pose proof (StronglySorted_merge_sort name_le (omap (λ n, hs_byName s !! n) (base.filter (λ n, names = [] ∨ n ∈ included_names (hs_byName s) names) (hs_order s)))) as Hs.
    induction Hs as [|h l _ IH Hall]; [constructor|]. cbn. constructor; [done|]. by apply Forall_fmap.
  - rewrite merge_sort_Permutation, (names_of_histories events) by (try done; intros n [_ Hn]%list_elem_of_filter; by apply (ga_order events s Hga)).
    apply NoDup_filter, (ga_nodup events s Hga).
Qed.

End facts.

(** ** Scanning the journal *)

Section scanning.
Context (encoded : LogEntry → Z) (decode : string → res string LogEntry) (ToLower : string → string) (format_time : Z → string).
Notation Query := (Query encoded decode ToLower).
Notation scan_pages := (scan_pages encoded decode ToLower).
Notation scanAttempt := (scanAttempt encoded decode ToLower).
Notation wanted := (wanted ToLower).
Notation Diagnose := (Diagnose encoded decode ToLower format_time).

(** A page that has more is not empty. *)
Definition more_is_some (p : Page) : Prop := pg_HasMore p = true → pg_Events p ≠ [].

Lemma query_event_more opts st r : limits_ok opts = true → pg_HasMore (q_page st) = false →
  match query_event encoded ToLower opts st r with
  | Next st' => pg_HasMore (q_page st') = false
  | Return p err => err = None → more_is_some p
  end.
Proof.
  intros Hl%limits_ok_range Hm. destruct r as [e|err]; [|done]. cbn [query_event].
  destruct (gap_page_view (q_previous st) e (q_page st)) as (He & _ & _ & Hm'). rewrite Hm in Hm'.
  set (page := gap_page _ _ _) in *. clearbody page. cbn [q_found].
  destruct (negb (q_found st)); [by case_bool_decide|]. destruct (negb _); [done|]. destruct (op_Tail opts).
  - unfold tail_event. cbn [q_page q_sizes q_previous]. destruct (fit _ _ _) as [[bounded size]|err]; [|done].
    by destruct (drop_tail _ _ _ _ _ _) as [[[? ?] ?] ?].
  - unfold forward_event. cbn [q_page q_sizes q_previous]. destruct (Z.eqb_spec (Z.of_nat (length (pg_Events page))) (op_Limit opts)).
    { intros _ _ H0. cbn in H0. rewrite H0 in *. cbn in *. lia. }
    destruct (_ && _) eqn:Hb.
    { intros _ _ H0. apply andb_true_iff in Hb as [_ Hb%Nat.ltb_lt]. cbn in H0. rewrite H0 in Hb. cbn in Hb. lia. }
    by destruct (fit _ _ _) as [[bounded size]|err].
Qed.

Lemma query_loop_more opts l : limits_ok opts = true → ∀ st, pg_HasMore (q_page st) = false →
  let '(p, err, _) := query_loop encoded ToLower opts st l in err = None → more_is_some p.
Proof.
  intros Hl. induction l as [|r l IH]; intros st Hm; cbn [query_loop].
  - intros _. unfold more_is_some. by rewrite Hm.
  - pose proof (query_event_more opts st r Hl Hm) as H. destruct (query_event _ _ _ _) as [st'|p err]; [by apply IH|done].
Qed.

Lemma query_snapshot_more opts files : let '(p, err, _) := query_snapshot encoded decode ToLower opts files in err = None → more_is_some p.
Proof.
  unfold query_snapshot. cbv zeta. destruct (limits_ok (effective opts)) eqn:Hl; [|done]. cbn [negb].
  destruct (negb _); [done|]. destruct files as [files|err]; [|done]. apply query_loop_more; [done|]. by case_bool_decide.
Qed.

Lemma Query_more opts files fallback p : Query opts files fallback = (p, None) → more_is_some p.
Proof.
  unfold LogQuery.Query. pose proof (query_snapshot_more opts files) as H.
  destruct (query_snapshot _ _ _ opts files) as [[p1 err1] []]; [by intros [= -> ->]; apply H|].
  set (opts' := set_window _ _ _ _ _). pose proof (query_snapshot_more opts' fallback) as H'.
  destruct (query_snapshot _ _ _ opts' fallback) as [[p2 err2] ?]. intros [= <- ->]. by apply H'.
Qed.

Lemma maxDiagnosisEvents_pos : 0 < maxDiagnosisEvents.
Proof. apply Nat.ltb_lt. vm_compute. reflexivity. Qed.

(** Each page brings an event, so that a scan has as many pages as the bound at
    most. *)
Lemma scan_ends opts out gap script : maxDiagnosisEvents ≤ length out + length script → script ≠ [] →
  is_Some (scan_pages opts out gap script).
Proof.
  revert opts out gap. induction script as [|[files fallback] script IH]; intros opts out gap Hlen Hne; [done|].
  cbn [Diagnose.scan_pages]. destruct (Query opts files fallback) as [p [err|]] eqn:Hq; [by eexists|].
  destruct (Nat.leb_spec maxDiagnosisEvents (length (out ++ pg_Events p))) as [|Hmax]; [by eexists|].
  destruct (pg_HasMore p) eqn:Hm; cbn [negb orb]; [|by eexists]. apply Query_more in Hq. specialize (Hq Hm).
  destruct (_ || _); [by eexists|]. rewrite length_app in Hmax. destruct (pg_Events p) as [|e es] eqn:He; [done|].
  assert (maxDiagnosisEvents ≤ length (out ++ e :: es) + length script) as Hlen' by (rewrite length_app; cbn [length] in *; lia).
  apply IH; [done|]. intros ->. rewrite length_app in Hlen'. cbn [length] in *. lia.
Qed.

(** A diagnosis is always reached: whatever the journal holds and however it
    changes between the queries, each of its scans ends after at most 20000
    pages. *)
Theorem diagnosis_returns receipt state processes missing missing' script script' :
  maxDiagnosisEvents ≤ length script → maxDiagnosisEvents ≤ length script' →
  is_Some (Diagnose receipt state processes missing missing' script script').
Proof.
  intros Hs Hs'.
  assert (∀ missing opts script, maxDiagnosisEvents ≤ length script → is_Some (scanAttempt missing opts script)) as Hscan.
  { clear. intros [err|] opts script Hlen; [by eexists|]. apply scan_ends; [cbn [length]; lia|].
    intros ->. pose proof maxDiagnosisEvents_pos. cbn [length] in Hlen. lia. }
  unfold Diagnose.Diagnose. destruct (r_RunID receipt) as [run|]; [|by eexists]. destruct (_ || _); [by eexists|]. case_bool_decide.
  - destruct (Hscan missing (by_run run) script Hs) as [r ->]. by eexists.
  - destruct (Hscan missing (by_attempt (dg_AttemptID (of_receipt receipt state))) script Hs) as [r ->]. cbn [mbind option_bind].
    destruct r as [[[[|e es] g] t] [err|]]; try by eexists.
    destruct (Hscan missing' (by_run run) script' Hs') as [r ->]. by eexists.
Qed.

(** The last event of a part of the journal is a cursor. *)
Lemma last_id_cursor J k : journal_ok encoded J → 0 < k → k ≤ length J →
  ∃ e, last_id "start" (take k J) = le_ID e ∧ last_id "" (take k J) = le_ID e ∧ J !! pred k = Some e ∧ le_ID e ≠ "" ∧ le_ID e ≠ "start".
Proof.
  intros [_ Hid _] Hk Hle. destruct k as [|k]; [lia|]. destruct (lookup_lt_is_Some_2 J k ltac:(lia)) as [e He]. exists e.
  rewrite (take_S_r _ _ _ He), !last_id_snoc. by destruct (proj1 (Forall_lookup _ _) Hid _ _ He) as (_ & ? & ?).
Qed.

Lemma last_id_inj J k n : journal_ok encoded J → 0 < n → k + n ≤ length J →
  last_id "start" (take (k + n) J) ≠ last_id "start" (take k J).
Proof.
  intros HJ Hn Hle. destruct (last_id_cursor J (k + n) HJ) as (e & -> & _ & He & _ & Hs); [lia..|].
  destruct k as [|k]; [done|]. destruct (last_id_cursor J (S k) HJ) as (e' & -> & _ & He' & _); [lia..|]. cbn [pred] in He'.
  intros Heq. assert (pred (S k + n) = k) as Hbad; [|lia].
  apply (NoDup_lookup (le_ID <$> J) _ _ (le_ID e)); [apply HJ| |]; rewrite list_lookup_fmap.
  - by rewrite He.
  - by rewrite He', Heq.
Qed.

(** The rest of a scan of a journal at rest. *)
Lemma scan_rest J files m : journal_ok encoded J → holds decode files J → ∀ opts k out gap,
  limits_ok (effective opts) = true → op_Tail opts = false → k ≤ length J → op_After opts = last_id "start" (take k J) →
  length J - k < m → Forall2 shown (wanted opts (take k J)) out → length out < maxDiagnosisEvents →
  ∃ out' gap', scan_pages opts out gap (replicate m (Ok files, Ok files)) =
      Some (out', gap', bool_decide (maxDiagnosisEvents ≤ length (wanted opts J)), None) ∧
    Forall2 shown (take maxDiagnosisEvents (wanted opts J)) out'.
Proof.
  intros HJ Hf. induction m as [|m IH]; intros opts k out gap Hl Ht Hk Hafter Hm Hout Hlen; [lia|].
  cbn [replicate Diagnose.scan_pages].
  destruct (one_page encoded decode ToLower opts files (Ok files) J k Hl Ht Hf HJ Hk Hafter) as (p & -> & n & Hn & Hshown & Hnext & Hmore).
  assert (Forall2 shown (wanted opts (take (k + n) J)) (out ++ pg_Events p)) as Hout'.
  { rewrite <-(take_take_drop J k n), wanted_app. by apply Forall2_app. }
  assert (wanted opts J = wanted opts (take (k + n) J) ++ wanted opts (drop (k + n) J)) as Hsplit by by rewrite <-wanted_app, take_drop.
  pose proof (Forall2_length _ _ _ Hout') as Hlen'.
  destruct (Nat.leb_spec maxDiagnosisEvents (length (out ++ pg_Events p))) as [Hmax|Hmax].
  { eexists _, _. rewrite bool_decide_true by (rewrite Hsplit, length_app; lia). split; [done|].
    rewrite Hsplit, take_app_le by lia. by apply Forall2_take. }
  destruct (pg_HasMore p); cbn [negb orb].
  2:{ rewrite Hmore, firstn_all in *. eexists _, _. rewrite bool_decide_false by lia. split; [done|]. by rewrite take_ge by lia. }
  destruct (last_id_cursor J (k + n) HJ) as (e & Hlast & _ & _ & Hne & Hns); [lia..|].
  rewrite Hlast in Hnext. cbn [next_options set_window op_After] in Hnext.
  destruct (bool_decide (pg_NextCursor p = "")) eqn:Hempty; [congruence|]. cbn [orb].
  rewrite bool_decide_false by (rewrite Hnext, Hafter, <-Hlast; apply last_id_inj; [done|lia..]).
  destruct (IH (set_window (op_Limit opts) (op_MaxBytes opts) (pg_NextCursor p) (op_Tail opts) opts) (k + n) (out ++ pg_Events p) (gap || pg_Gap p))
    as (out' & gap' & Hscan & Hres); [done|done|done| |lia|done|lia|].
  { cbn [set_window op_After]. congruence. }
  by exists out', gap'.
Qed.

Lemma scan_at_rest J files opts : journal_ok encoded J → holds decode files J → op_Tail opts = false →
  ∃ out gap, scanAttempt None opts (replicate (S (length J)) (Ok files, Ok files)) =
      Some (out, gap, bool_decide (maxDiagnosisEvents ≤ length (wanted opts J)), None) ∧
    Forall2 shown (take maxDiagnosisEvents (wanted opts J)) out.
Proof.
  intros HJ Hf Ht. apply (scan_rest J files (S (length J)) HJ Hf (set_window 1000 (2 ^ 20) "start" (op_Tail opts) opts) 0); try done; [lia|lia|apply maxDiagnosisEvents_pos].
Qed.

(** The events of an attempt, and of a run, in a journal. *)
Definition of_attempt (a : string) (J : list LogEntry) : list LogEntry := filter (λ e, le_AttemptID e = a) J.
Definition of_run (run : string) (J : list LogEntry) : list LogEntry := filter (λ e, le_RunID e = run) J.

Lemma wanted_by_attempt a J : a ≠ "" → wanted (by_attempt a) J = of_attempt a J.
Proof.
  intros Ha. apply list_filter_iff. intros e. unfold is_match, matches. cbn.
  rewrite (bool_decide_true ("" = "")), (bool_decide_false (a = "")) by done. cbn [orb andb].
  rewrite ?andb_true_r, bool_decide_eq_true. naive_solver.
Qed.

Lemma wanted_by_run run J : run ≠ "" → wanted (by_run run) J = of_run run J.
Proof.
  intros Ha. apply list_filter_iff. intros e. unfold is_match, matches. cbn.
  rewrite (bool_decide_true ("" = "")), (bool_decide_false (run = "")) by done. cbn [orb andb].
  rewrite ?andb_true_r, bool_decide_eq_true. naive_solver.
Qed.

(** The diagnosis [d] tells the events [evs]: the first 20000 of them, each
    shortened at most in its text. *)
Definition tells_events (receipt : Result) (processes : list string) (evs : list LogEntry) (d : Diagnosis) : Prop :=
  ∃ out, Forall2 shown (take maxDiagnosisEvents evs) out ∧ dg_EventsScanned d = length out ∧
    dg_Processes d = histories format_time out processes ∧
    (dg_Truncated d = true ↔ maxDiagnosisEvents ≤ length evs ∨ ∃ h, h ∈ dg_Processes d ∧ ph_Truncated h = true) ∧
    (dg_HistoryMissing d = true ↔ ∃ first, ev_FirstCursor (r_Evidence receipt) = Some first ∧ le_ID <$> head evs ≠ Some first).

Lemma scanned_tells receipt processes evs out gap d : evs ≠ [] → dg_HistoryMissing d = false →
  Forall2 shown (take maxDiagnosisEvents evs) out →
  let d' := scanned format_time receipt processes d (out, gap, bool_decide (maxDiagnosisEvents ≤ length evs), None) in
  tells_events receipt processes evs d' ∧ dg_Boundary d' = dg_Boundary d ∧ (∀ x, x ∈ dg_Limitations d → x ∈ dg_Limitations d').
Proof.
  intros Hne Hmiss Hout. destruct evs as [|e evs]; [done|].
  pose proof (Forall2_length _ _ _ Hout) as Hlen. pose proof maxDiagnosisEvents_pos as Hpos.
  destruct out as [|e' out]; [rewrite length_take in Hlen; cbn [length] in Hlen; lia|].
  assert (le_ID e' = le_ID e) as Hid.
  { revert Hout. generalize maxDiagnosisEvents Hpos. intros [|k] Hk; [lia|]. cbn [take]. intros [Hs _]%Forall2_cons. by apply shown_id. }
  cbv zeta. cbn [scanned]. unfold with_history. split; [|split; [done|intros x Hx; apply elem_of_app; by left]].
  exists (e' :: out). split; [done|]. split; [done|]. split; [done|]. cbn [dg_Truncated dg_Processes dg_HistoryMissing]. split.
  - rewrite orb_true_iff, bool_decide_eq_true, existsb_exists. setoid_rewrite list_elem_of_In. reflexivity.
  - rewrite Hmiss. cbn. rewrite Hid. clear.
    destruct (ev_FirstCursor _) as [first|]; [|naive_solver]. rewrite negb_true_iff, bool_decide_eq_false. naive_solver.
Qed.

End scanning.

(** ** Witnesses *)

(** A receipt of attempt [a1] of the run [run]. *)
Definition example_receipt : Result :=
  mkResult 1 KindReceipt StateCompleted (Some "a1") StatusFailed "completed" "default" (Some "run")
    "proc-compose.yml" None "/w" (mkSource None None None false []) "dev" None [] ∅ None
    (mkStartup StatusPassed None None None StatusPassed [] [] [])
    (mkCheck StatusFailed None [] None 0 None None None None (Some 1%Z) None false "" "" false)
    (mkEnvironment false StatusNotRun None []) (mkCleanup StatusPassed true None None None "withdrawn" (Some true) [] [] [])
    (mkEvidence (Some "journal") (Some "run:1") None false false "complete" []) [] 1 "" None false "" "" None.

(** Lines of two processes; those that are numbered above 1 belong to the
    attempt. *)
Definition attempt_entry (line : string) : LogEntry :=
  let e := numbered line in
  mkLogEntry 1 (le_ID e) "run" (if bool_decide (line = "1") then "" else "a1") (le_Sequence e) "" 0
    (if bool_decide (line = "2") then "db" else "web") "tick" "output" "info" "process.output" "stdout" 0 1 None false 0 false false.
Definition read_attempt (line : string) : res string LogEntry :=
  if negb (bool_decide (line = "")) && str_all is_digit line then Ok (attempt_entry line) else Err "not a number".
Definition attempt_journal : list LogEntry := attempt_entry <$> ["1"; "2"; "3"; "4"].

Lemma attempt_journal_ok : journal_ok fixed_size attempt_journal.
Proof.
  split; [by apply (bool_decide_unpack _)|repeat constructor; by vm_compute|].
  unfold attempt_journal, bare_fits. repeat constructor; by vm_compute.
Qed.


Lemma diagnosis_returns_witness :
  is_Some (Diagnose fixed_size read_attempt (λ s, s) (λ _, "") example_receipt StateCompleted [] None None
    (replicate maxDiagnosisEvents (Ok (journal_file ["1"]), Err "gone")) (replicate maxDiagnosisEvents (Err "gone", Err "gone"))).
Proof.
  apply diagnosis_returns; rewrite length_replicate; exact (Nat.le_refl _).
Defined.
