(* ===== verification/Stopping.v ===== *)
(** * Stopping the stack: commands, the verdict and the exit

    The goroutine that serves the clients' commands, the handlers of the server
    that wait for its replies, and the end of [Run] that publishes the verdict
    of a shutdown and waits for it to be delivered, as one system of concurrent
    steps.  What the clients send, when the processes are down and with what
    outcome, how each write to a client ends and which timer fires when are
    choices of a step. *)

From S2P Require Import Prelude GoStrings ConfigTypes RunnerState Lifecycle Groups Reload Teardown Ipc.

(** ** The barrier *)

(** [ab_closes] has the channels made so far, each with the number of times it
    was closed.
    Source: internal/runner/runner.go:161-173 (ackBarrier). *)
Record ackBarrier : Type := mkBarrier {
  ab_holders : Z;
  ab_sealed : bool;
  ab_drained : option nat;
  ab_closes : list nat;
}.

(** [close(b.drained); b.drained = nil], unless it is nil.
    Source: internal/runner/runner.go:197-200 (ackBarrier.leave, close). *)
Definition close_drained (b : ackBarrier) : ackBarrier :=
  match ab_drained b with
  | Some ch => mkBarrier (ab_holders b) (ab_sealed b) None (alter S ch (ab_closes b))
  | None => b
  end.

(** Source: internal/runner/runner.go:175-189 (ackBarrier.enter). *)
Definition enter (b : ackBarrier) : bool * ackBarrier :=
  if ab_sealed b then (false, b)
  else
    let b := if (ab_holders b =? 0)%Z && negb (bool_decide (is_Some (ab_drained b)))
             then mkBarrier (ab_holders b) (ab_sealed b) (Some (length (ab_closes b))) (ab_closes b ++ [0]) else b in
    (true, mkBarrier (ab_holders b + 1) (ab_sealed b) (ab_drained b) (ab_closes b)).

(** Source: internal/runner/runner.go:191-202 (ackBarrier.leave). *)
Definition leave (b : ackBarrier) : ackBarrier :=
  let b := mkBarrier (ab_holders b - 1) (ab_sealed b) (ab_drained b) (ab_closes b) in
  if ab_sealed b && (ab_holders b =? 0)%Z then close_drained b else b.

(** The critical section: [Some ch] is the channel to wait for.
    Source: internal/runner/runner.go:204-219 (ackBarrier.sealAndWait). *)
Definition seal_barrier (b : ackBarrier) : option (option nat) * ackBarrier :=
  let b := mkBarrier (ab_holders b) true (ab_drained b) (ab_closes b) in
  if (ab_holders b =? 0)%Z then (None, close_drained b) else (Some (ab_drained b), b).

Definition is_closed (ch : nat) (b : ackBarrier) : bool := 0 <? default 0 (ab_closes b !! ch).

(** ** Commands *)

(** Source: internal/ipc/ipc.go:273-290 (Command). *)
Record Command : Type := mkCommand { cm_Action : string; cm_Process : string; cm_Force : bool }.

Definition command_error (message : string) : CommandResult := mkCommandResult "error" message 0.

(** [closed] is whether shutdown has begun.
    Source: internal/runner/runner.go:715-733 (requestRestart). *)
Definition requestRestart_result (closed : bool) (st : procState) : CommandResult * procState :=
  if closed then (shutting_down, st)
  else (mkCommandResult "ok" "" (uint64_succ (st_generation st)), requestRestart (set_active true st)).

Definition put_proc (name : string) (st : procState) (s : stateStore) : stateStore :=
  mkStateStore (<[name := st]> (ss_procs s)) (ss_infoByName s).

(** Source: internal/runner/runner.go:648-669 (handleCommands, restart). *)
Definition restart_command (procs : gmap string Process) (closed : bool) (name : string) (s : stateStore) : CommandResult * stateStore :=
  if bool_decide (name = "") then (command_error "restart requires a process name", s)
  else match procs !! name with
       | None => (command_error ("unknown process " +:+ quote name), s)
       | Some proc =>
           match store_get s name with
           | None => (command_error ("process " +:+ quote name +:+ " is not currently managed"), s)
           | Some st =>
               if bool_decide (EffectiveMode proc = ProcessModeTask)
               then (command_error ("process " +:+ quote name +:+ " is a task and cannot be restarted; restart the stack to rerun tasks"), s)
               else let '(res, st) := requestRestart_result closed st in (res, put_proc name st s)
           end
       end.

(** The restarts a reload has requested. *)
Definition request_all (names : list string) (s : stateStore) : stateStore :=
  fold_left (λ s name, match store_get s name with
                       | Some st => put_proc name (requestRestart (set_active true st)) s
                       | None => s
                       end) names s.

(** Source: internal/runner/runner.go:748-752 (handleShutdown, no stack). *)
Definition no_stack : CommandResult := command_error "no stack is running".
(** Source: internal/runner/runner.go:754-761 (handleShutdown, timeout). *)
Definition ack_timed_out : CommandResult :=
  command_error "daemon did not finish shutting down within 25s; managed processes were not verified".
(** Source: internal/runner/runner.go:763-780 (handleShutdown, verdict). *)
Definition of_verdict (verdict : option string) : CommandResult :=
  match verdict with
  | Some err => mkCommandResult "partial" err 0
  | None => mkCommandResult "ok" "" 0
  end.
(** Source: internal/runner/runner.go:767-772 (handleShutdown, no verdict). *)
Definition no_verdict : CommandResult := of_verdict (Some "daemon finished shutting down without publishing a verdict").
(** Source: internal/runner/runner.go:676-684 (handleCommands, sealed). *)
Definition refused_stop : CommandResult := command_error "daemon is already shutting down and cannot accept another stop request".

(** Source: internal/runner/runner.go:702-709 (handleCommands, undelivered). *)
Definition undelivered_entry (err : string) (res : CommandResult) : string * string * string :=
  let verdict := if bool_decide (cr_Message res = "") then cr_Status res else cr_Status res +:+ ": " +:+ cr_Message res in
  ("error", "shutdown.verdict_undelivered",
   "the shutdown verdict was not delivered to the client that requested it (" +:+ err +:+ "); verdict: " +:+ verdict).

(** ** The system *)

(** Where the goroutine of [handleCommands] is.  A command that holds the
    barrier goes through the shutdown, the two waits, the reply and the flush. *)
Inductive loop_phase : Type :=
  | Idle
  | Stopping (id : nat) (cmd : Command)
  | WaitStopped (id : nat)
  | WaitVerdict (id : nat)
  | Replying (id : nat) (res : CommandResult) (holds : bool)
  | Flushing (id : nat) (res : CommandResult)
  | Leaving
  | LoopEnded.

(** A handler of the server: waiting for the runner's reply, about to write the
    acknowledgment, and done with it. *)
Inductive conn : Type :=
  | Waiting (reply : option CommandResult)
  | Answering (queued : bool) (verdict : option CommandResult)
  | Answered (ack : string * string * Z) (undelivered : option string).

(** The end of [Run]: the verdict is made, the handle withdrawn, the verdict
    sent, the channel closed; then the barrier is sealed and drained.
    [drained] tells that the wait did not end by its timer. *)
Inductive run_phase : Type :=
  | RunUp
  | RunEnding (verdict : option string)
  | RunCleared (verdict : option string)
  | RunSent
  | RunPublished
  | RunDraining (ch : option nat)
  | RunReturned (drained : bool).

(** [sy_handle]: [stopCancel] and the channels are set.  [sy_outcome] is what the
    verdict was made of, and [sy_answers] the replies to the stops that hold the
    barrier. *)
Record stopping : Type := mkStopping {
  sy_queue : list (nat * Command);
  sy_conns : gmap nat conn;
  sy_loop : loop_phase;
  sy_handle : bool;
  sy_closed : bool;
  sy_cancelled : bool;
  sy_stopped : bool;
  sy_verdict : option (option string);
  sy_barrier : ackBarrier;
  sy_run : run_phase;
  sy_procs : gmap string Process;
  sy_store : stateStore;
  sy_journal : list (string * string * string);
  sy_outcome : option (gstate * list TeardownResult);
  sy_answers : gmap nat CommandResult;
}.

Definition with_queue (x : list (nat * Command)) (y : stopping) : stopping :=
  mkStopping x (sy_conns y) (sy_loop y) (sy_handle y) (sy_closed y) (sy_cancelled y) (sy_stopped y) (sy_verdict y) (sy_barrier y) (sy_run y) (sy_procs y) (sy_store y) (sy_journal y) (sy_outcome y) (sy_answers y).
Definition with_conns (x : gmap nat conn) (y : stopping) : stopping :=
  mkStopping (sy_queue y) x (sy_loop y) (sy_handle y) (sy_closed y) (sy_cancelled y) (sy_stopped y) (sy_verdict y) (sy_barrier y) (sy_run y) (sy_procs y) (sy_store y) (sy_journal y) (sy_outcome y) (sy_answers y).
Definition with_loop (x : loop_phase) (y : stopping) : stopping :=
  mkStopping (sy_queue y) (sy_conns y) x (sy_handle y) (sy_closed y) (sy_cancelled y) (sy_stopped y) (sy_verdict y) (sy_barrier y) (sy_run y) (sy_procs y) (sy_store y) (sy_journal y) (sy_outcome y) (sy_answers y).
Definition with_handle (x : bool) (y : stopping) : stopping :=
  mkStopping (sy_queue y) (sy_conns y) (sy_loop y) x (sy_closed y) (sy_cancelled y) (sy_stopped y) (sy_verdict y) (sy_barrier y) (sy_run y) (sy_procs y) (sy_store y) (sy_journal y) (sy_outcome y) (sy_answers y).
Definition with_closed (x : bool) (y : stopping) : stopping :=
  mkStopping (sy_queue y) (sy_conns y) (sy_loop y) (sy_handle y) x (sy_cancelled y) (sy_stopped y) (sy_verdict y) (sy_barrier y) (sy_run y) (sy_procs y) (sy_store y) (sy_journal y) (sy_outcome y) (sy_answers y).
Definition with_cancelled (x : bool) (y : stopping) : stopping :=
  mkStopping (sy_queue y) (sy_conns y) (sy_loop y) (sy_handle y) (sy_closed y) x (sy_stopped y) (sy_verdict y) (sy_barrier y) (sy_run y) (sy_procs y) (sy_store y) (sy_journal y) (sy_outcome y) (sy_answers y).
Definition with_stopped (x : bool) (y : stopping) : stopping :=
  mkStopping (sy_queue y) (sy_conns y) (sy_loop y) (sy_handle y) (sy_closed y) (sy_cancelled y) x (sy_verdict y) (sy_barrier y) (sy_run y) (sy_procs y) (sy_store y) (sy_journal y) (sy_outcome y) (sy_answers y).
Definition with_verdict (x : option (option string)) (y : stopping) : stopping :=
  mkStopping (sy_queue y) (sy_conns y) (sy_loop y) (sy_handle y) (sy_closed y) (sy_cancelled y) (sy_stopped y) x (sy_barrier y) (sy_run y) (sy_procs y) (sy_store y) (sy_journal y) (sy_outcome y) (sy_answers y).
Definition with_barrier (x : ackBarrier) (y : stopping) : stopping :=
  mkStopping (sy_queue y) (sy_conns y) (sy_loop y) (sy_handle y) (sy_closed y) (sy_cancelled y) (sy_stopped y) (sy_verdict y) x (sy_run y) (sy_procs y) (sy_store y) (sy_journal y) (sy_outcome y) (sy_answers y).
Definition with_run (x : run_phase) (y : stopping) : stopping :=
  mkStopping (sy_queue y) (sy_conns y) (sy_loop y) (sy_handle y) (sy_closed y) (sy_cancelled y) (sy_stopped y) (sy_verdict y) (sy_barrier y) x (sy_procs y) (sy_store y) (sy_journal y) (sy_outcome y) (sy_answers y).
Definition with_procs (x : gmap string Process) (y : stopping) : stopping :=
  mkStopping (sy_queue y) (sy_conns y) (sy_loop y) (sy_handle y) (sy_closed y) (sy_cancelled y) (sy_stopped y) (sy_verdict y) (sy_barrier y) (sy_run y) x (sy_store y) (sy_journal y) (sy_outcome y) (sy_answers y).
Definition with_store (x : stateStore) (y : stopping) : stopping :=
  mkStopping (sy_queue y) (sy_conns y) (sy_loop y) (sy_handle y) (sy_closed y) (sy_cancelled y) (sy_stopped y) (sy_verdict y) (sy_barrier y) (sy_run y) (sy_procs y) x (sy_journal y) (sy_outcome y) (sy_answers y).
Definition with_journal (x : list (string * string * string)) (y : stopping) : stopping :=
  mkStopping (sy_queue y) (sy_conns y) (sy_loop y) (sy_handle y) (sy_closed y) (sy_cancelled y) (sy_stopped y) (sy_verdict y) (sy_barrier y) (sy_run y) (sy_procs y) (sy_store y) x (sy_outcome y) (sy_answers y).
Definition with_outcome (x : option (gstate * list TeardownResult)) (y : stopping) : stopping :=
  mkStopping (sy_queue y) (sy_conns y) (sy_loop y) (sy_handle y) (sy_closed y) (sy_cancelled y) (sy_stopped y) (sy_verdict y) (sy_barrier y) (sy_run y) (sy_procs y) (sy_store y) (sy_journal y) x (sy_answers y).
Definition with_answers (x : gmap nat CommandResult) (y : stopping) : stopping :=
  mkStopping (sy_queue y) (sy_conns y) (sy_loop y) (sy_handle y) (sy_closed y) (sy_cancelled y) (sy_stopped y) (sy_verdict y) (sy_barrier y) (sy_run y) (sy_procs y) (sy_store y) (sy_journal y) (sy_outcome y) x.

(** Source: internal/runner/broadcast.go:115-127 (systemLog). *)
Definition systemLog (level code message : string) (y : stopping) : stopping :=
  with_journal (sy_journal y ++ [(level, code, message)]) y.

(** The commands that wait; more are refused.
    Source: internal/ipc/server.go:100-100 (NewServer, cmdCh). *)
Definition command_capacity : nat := 16.

(** A new command.
    Source: internal/ipc/server.go:386-416 (handleCommand, queue). *)
Definition send_command (id : nat) (cmd : Command) (y : stopping) : stopping :=
  if length (sy_queue y) <? command_capacity
  then with_queue (sy_queue y ++ [(id, cmd)]) (with_conns (<[id := Waiting None]> (sy_conns y)) y)
  else with_conns (<[id := Answering false None]> (sy_conns y)) y.

(** The clients and the handlers of the server; the flag of a step tells that a
    timer fired.
    Source: internal/ipc/server.go:369-418 (handleCommand). *)
Inductive client_step (y : stopping) : bool → stopping → Prop :=
  | cs_send id cmd : sy_conns y !! id = None → client_step y false (send_command id cmd y)
  | cs_reply id res : sy_conns y !! id = Some (Waiting (Some res)) →
      client_step y false (with_conns (<[id := Answering true (Some res)]> (sy_conns y)) y)
  | cs_timeout id reply : sy_conns y !! id = Some (Waiting reply) →
      client_step y true (with_conns (<[id := Answering true None]> (sy_conns y)) y)
  | cs_write id queued verdict timeout write : sy_conns y !! id = Some (Answering queued verdict) →
      client_step y false
        (with_conns (<[id := Answered (handleCommand queued verdict timeout write).1 (handleCommand queued verdict timeout write).2]> (sy_conns y)) y).

(** What the loop does with a command it has received.  [loaded], the orders and
    [closed] are what a reload finds.
    Source: internal/runner/runner.go:645-687 (handleCommands, dispatch). *)
Definition dispatch (configPath : string) (loaded : res string Config) (order old_order : list string) (closed : string → bool)
    (id : nat) (cmd : Command) (y : stopping) : stopping :=
  if bool_decide (cm_Action cmd = "restart") then
    let '(res, store) := restart_command (sy_procs y) (sy_closed y || sy_cancelled y) (cm_Process cmd) (sy_store y) in
    with_loop (Replying id res false) (with_store store y)
  else if bool_decide (cm_Action cmd = "reload") then
    let '(res, rl) := Reload configPath loaded order old_order (λ name, bool_decide (is_Some (store_get (sy_store y) name))) closed (sy_procs y) in
    with_loop (Replying id res false) (with_procs (rl_procs rl) (with_store (request_all (rl_restarted rl) (sy_store y)) y))
  else if bool_decide (cm_Action cmd = "shutdown") then
    let '(entered, b) := enter (sy_barrier y) in
    with_loop (if entered then Stopping id cmd else Replying id refused_stop false) (with_barrier b y)
  else with_loop (Replying id (command_error ("unknown action: " +:+ cm_Action cmd)) false) y.

(** The reply channel has room for one, which the server may no longer read. *)
Definition deliver (id : nat) (res : CommandResult) (y : stopping) : stopping :=
  match sy_conns y !! id with
  | Some (Waiting None) => with_conns (<[id := Waiting (Some res)]> (sy_conns y)) y
  | _ => y
  end.

(** Source: internal/runner/runner.go:688-693 (handleCommands, reply). *)
Definition reply_command (id : nat) (res : CommandResult) (holds : bool) (y : stopping) : stopping :=
  let y := deliver id res y in
  if holds then with_loop (Flushing id res) (with_answers (<[id := res]> (sy_answers y)) y) else with_loop Idle y.

(** A verdict that was not delivered is recorded.
    Source: internal/runner/runner.go:704-711 (handleCommands, flushed). *)
Definition flushed (err : option string) (res : CommandResult) (y : stopping) : stopping :=
  with_loop Leaving
    match err with
    | Some err => let '(level, code, message) := undelivered_entry err res in systemLog level code message y
    | None => y
    end.

(** Source: internal/runner/lifecycle.go:1444-1466 (Shutdown). *)
Definition request_stop (id : nat) (y : stopping) : stopping :=
  if sy_handle y then with_loop (WaitStopped id) (with_cancelled true (with_closed true y))
  else with_loop (Replying id no_stack true) y.

(** Source: internal/runner/runner.go:623-713 (handleCommands). *)
Inductive loop_step (y : stopping) : bool → stopping → Prop :=
  | lp_take id cmd queue configPath loaded order old_order closed : sy_loop y = Idle → sy_queue y = (id, cmd) :: queue →
      loop_step y false (dispatch configPath loaded order old_order closed id cmd (with_queue queue y))
  | lp_end drained : sy_loop y = Idle → sy_run y = RunReturned drained → loop_step y false (with_loop LoopEnded y)
  | lp_request id cmd : sy_loop y = Stopping id cmd → loop_step y false (request_stop id y)
  | lp_stopped id : sy_loop y = WaitStopped id → sy_stopped y = true → loop_step y false (with_loop (WaitVerdict id) y)
  | lp_ack_timeout id : sy_loop y = WaitStopped id → loop_step y true (with_loop (Replying id ack_timed_out true) y)
  | lp_verdict id v : sy_loop y = WaitVerdict id → sy_verdict y = Some v →
      loop_step y false (with_loop (Replying id (of_verdict v) true) (with_verdict None y))
  | lp_verdict_timeout id : sy_loop y = WaitVerdict id → loop_step y true (with_loop (Replying id no_verdict true) y)
  | lp_reply id res holds : sy_loop y = Replying id res holds → loop_step y false (reply_command id res holds y)
  | lp_flushed id res ack undelivered : sy_loop y = Flushing id res → sy_conns y !! id = Some (Answered ack undelivered) →
      loop_step y false (flushed undelivered res y)
  | lp_flush_timeout id res : sy_loop y = Flushing id res →
      loop_step y true (flushed (Some "the acknowledgment was not written within 10s") res y)
  | lp_leave : sy_loop y = Leaving → loop_step y false (with_loop Idle (with_barrier (leave (sy_barrier y)) y)).

(** The log line of the verdict.
    Source: internal/runner/runner.go:562-568 (endRun, log). *)
Definition log_termination (s : gstate) (y : stopping) : stopping :=
  match ShutdownResult s with
  | None => systemLog "info" "shutdown.verified" "managed process cleanup verified" y
  | Some err => systemLog "error" "shutdown.unverified" err y
  end.

(** [s] and [results] are what the sweep and the teardown have left.
    Source: internal/runner/runner.go:555-600 (endRun). *)
Inductive run_step (y : stopping) : bool → stopping → Prop :=
  | rn_down s results : sy_run y = RunUp →
      run_step y false (log_termination s (with_run (RunEnding (endRun_verdict s results)) (with_outcome (Some (s, results)) (with_cancelled true (with_closed true y)))))
  | rn_clear v : sy_run y = RunEnding v → run_step y false (with_run (RunCleared v) (with_handle false y))
  | rn_send v : sy_run y = RunCleared v →
      run_step y false (with_run RunSent (with_verdict (match sy_verdict y with None => Some v | full => full end) y))
  | rn_close : sy_run y = RunSent → run_step y false (with_run RunPublished (with_stopped true y))
  | rn_seal : sy_run y = RunPublished →
      run_step y false (with_run (match (seal_barrier (sy_barrier y)).1 with None => RunReturned true | Some ch => RunDraining ch end)
                         (with_barrier (seal_barrier (sy_barrier y)).2 y))
  | rn_drained ch : sy_run y = RunDraining (Some ch) → is_closed ch (sy_barrier y) = true →
      run_step y false (with_run (RunReturned true) y)
  | rn_backstop ch : sy_run y = RunDraining ch → run_step y true (with_run (RunReturned false) y).

(** A step, and whether a timer fired. *)
Inductive step (timer : bool) (y y' : stopping) : Prop :=
  | st_client : client_step y timer y' → step timer y y'
  | st_loop : loop_step y timer y' → step timer y y'
  | st_run : run_step y timer y' → step timer y y'.

(** A run that has begun.
    Source: internal/runner/runner.go:503-536 (beginRun). *)
Definition begun (procs : gmap string Process) (store : stateStore) : stopping :=
  mkStopping [] ∅ Idle true false false false None (mkBarrier 0 false None []) RunUp procs store [] None ∅.

Definition reachable (procs : gmap string Process) (store : stateStore) (y : stopping) : Prop :=
  rtc (λ y y', ∃ timer, step timer y y') (begun procs store) y.

(** ** The result of the run *)

(** What [Run] returns; [signalled] is whether its own context has ended.
    Source: internal/runner/runner.go:481-501 (Run, result). *)
Definition run_result (order : list string) (s : stateStore) (signalled : bool) (g : gstate) (results : list TeardownResult) : option string :=
  let failed := sort_strings (ps_Name <$> base.filter (λ st, ps_State st = "failed") (RunnerState.snapshot order s)) in
  let runErr := if negb signalled && (0 <? length failed) then Some ("processes failed: " +:+ join ", " failed) else None in
  let runErr := match ShutdownResult g with
                | Some stopErr => Some (match runErr with Some e => e +:+ "; " +:+ stopErr | None => stopErr end)
                | None => runErr
                end in
  errors_join runErr (TeardownError results).

(** ** The health endpoints *)

(** The status codes of [/ready] and of [/health].
    Source: internal/runner/runner.go:791-804 (serveHealth, ready). *)
Definition ready_code (states : list ProcState) : Z := if forallb ps_Ready states then 200 else 503.

(** Source: internal/runner/runner.go:818-831 (serveHealth, healthy). *)
Definition state_healthy (p : ProcState) : bool :=
  if bool_decide (ps_Mode p = ProcessModeTask) then bool_decide (ps_State p = "completed")
  else (bool_decide (ps_State p = "running") || bool_decide (ps_State p = "restarting")) && negb (bool_decide (ps_Health p = healthUnhealthy)).

(** Source: internal/runner/runner.go:805-839 (serveHealth, health). *)
Definition health_code (states : list ProcState) : Z := if forallb state_healthy states then 200 else 503.
