(* ===== verification/Delivery.v ===== *)
(** * Stopping the stack: what is shown

    A client that asks for a stop is told the truth about it, or the journal
    keeps what it should have been told; [Run] does not return before; and
    nothing in the protocol can keep it from returning. *)

From S2P Require Import Prelude GoStrings ConfigTypes RunnerState Lifecycle Groups Reload Teardown Ipc Stopping.

(** ** The barrier *)

(** The goroutine holds the barrier. *)
Definition holding (l : loop_phase) : bool :=
  match l with
  | Stopping _ _ | WaitStopped _ | WaitVerdict _ | Flushing _ _ | Leaving => true
  | Replying _ _ holds => holds
  | Idle | LoopEnded => false
  end.

Definition sealed_run (r : run_phase) : bool := match r with RunDraining _ | RunReturned _ => true | _ => false end.

(** The barrier counts its holder; no channel is closed twice; the end of the
    run waits for the channel that the holder will close. *)
Record barrier_ok (h : bool) (r : run_phase) (b : ackBarrier) : Prop := mkBarrierOk {
  bo_holders : ab_holders b = if h then 1%Z else 0%Z;
  bo_once : Forall (λ n, n ≤ 1) (ab_closes b);
  bo_open : ∀ ch, ab_drained b = Some ch → ab_closes b !! ch = Some 0;
  bo_waited : h = true → is_Some (ab_drained b);
  bo_sealed : ab_sealed b = sealed_run r;
  bo_run : match r with
           | RunDraining ch => ∃ c, ch = Some c ∧ if h then ab_drained b = Some c else ab_closes b !! c = Some 1
           | RunReturned true => h = false
           | _ => True
           end;
}.

(** The run goes on without touching the barrier. *)
Lemma barrier_run h r r' b : sealed_run r = false → sealed_run r' = false → barrier_ok h r b → barrier_ok h r' b.
Proof. intros Hr Hr' [H1 H2 H3 H4 H5 _]. split; try done; [by rewrite H5, Hr, Hr'|]. by destruct r'. Qed.

Lemma enter_ok r b : barrier_ok false r b →
  if (enter b).1 then sealed_run r = false ∧ barrier_ok true r (enter b).2 else (enter b).2 = b.
Proof.
  intros [H1 H2 H3 H4 H5 H6]. unfold enter. destruct (ab_sealed b) eqn:Hs; [done|]. cbn [fst snd]. symmetry in H5. split; [done|].
  rewrite H1. cbn [Z.eqb andb]. destruct (ab_drained b) as [ch|] eqn:Hd; cbn [negb].
  - rewrite bool_decide_true by by eexists. cbn [negb]. split; cbn; rewrite ?H1, ?Hd, ?Hs; try done; try by destruct r.
  - rewrite bool_decide_false by by intros []. cbn [negb]. split; cbn; rewrite ?H1; try done.
    + apply Forall_app. split; [done|]. constructor; [lia|constructor].
    + intros ch [= <-]. by apply list_lookup_middle.
    + by destruct r.
Qed.

Lemma close_drained_ok b ch : Forall (λ n, n ≤ 1) (ab_closes b) → ab_drained b = Some ch → ab_closes b !! ch = Some 0 →
  Forall (λ n, n ≤ 1) (ab_closes (close_drained b)) ∧ ab_closes (close_drained b) !! ch = Some 1 ∧ ab_drained (close_drained b) = None.
Proof.
  intros Hf Hd Hc. unfold close_drained. rewrite Hd. cbn. split; [|split; [|done]].
  - apply Forall_lookup. intros i n. destruct (decide (i = ch)) as [->|Hne].
    + rewrite list_lookup_alter_eq, Hc. cbn. intros [= <-]. lia.
    + rewrite list_lookup_alter_ne by done. intros Hi. exact (proj1 (Forall_lookup _ _) Hf _ _ Hi).
  - by rewrite list_lookup_alter_eq, Hc.
Qed.

Lemma leave_ok r b : barrier_ok true r b → barrier_ok false r (leave b).
Proof.
  intros [H1 H2 H3 H4 H5 H6]. destruct (H4 eq_refl) as [ch Hd]. specialize (H3 ch Hd). unfold leave. cbn [ab_sealed ab_holders].
  set (b1 := mkBarrier _ _ _ _). rewrite H1, H5. change (1 - 1 =? 0)%Z with true. rewrite andb_true_r.
  assert (ab_holders b1 = 0%Z) as Hz by (unfold b1; cbn; lia).
  destruct (sealed_run r) eqn:Hr.
  - destruct (close_drained_ok b1 ch) as (Hf & Hc & Hn); [done..|].
    assert (ab_holders (close_drained b1) = 0%Z ∧ ab_sealed (close_drained b1) = true) as [Hh Hse].
    { unfold close_drained, b1. cbn. rewrite Hd. cbn. split; [lia|done]. }
    split; try done; [by rewrite Hn|by rewrite Hse, Hr|]. destruct r as [| | | | |c|[]]; try done.
    destruct H6 as (c' & -> & Hd'). exists c'. split; [done|]. rewrite Hd in Hd'. by injection Hd' as ->.
  - split; try done; [intros ch'; cbn; rewrite Hd; by intros [= <-]|by cbn; rewrite H5, Hr|]. by destruct r.
Qed.

Lemma barrier_seal h r b : sealed_run r = false → barrier_ok h r b →
  let x := seal_barrier b in barrier_ok h (match x.1 with None => RunReturned true | Some ch => RunDraining ch end) x.2.
Proof.
  intros Hr [H1 H2 H3 H4 H5 H6]. unfold seal_barrier. cbn [ab_holders]. rewrite H1. destruct h; cbn.
  - destruct (H4 eq_refl) as [ch Hd]. split; cbn; try done. exists ch. by rewrite Hd.
  - set (b1 := mkBarrier _ _ _ _). unfold close_drained, b1. cbn. destruct (ab_drained b) as [ch|] eqn:Hd.
    + destruct (close_drained_ok b1 ch) as (Hf & _ & _); [done|done|by apply H3|]. unfold close_drained, b1 in Hf. cbn in Hf. rewrite ?Hd in Hf.
      split; cbn; done.
    + split; cbn; rewrite ?Hd; done.
Qed.

Lemma drained_ok h ch b : barrier_ok h (RunDraining (Some ch)) b → is_closed ch b = true → h = false ∧ barrier_ok h (RunReturned true) b.
Proof.
  intros [H1 H2 H3 H4 H5 (c & [= <-] & H6)] Hc. unfold is_closed in Hc. assert (h = false) as ->; [|by split].
  destruct h; [|done]. by rewrite (H3 ch H6) in Hc.
Qed.

(** ** The verdict *)

Definition past_send (r : run_phase) : bool := match r with RunUp | RunEnding _ | RunCleared _ => false | _ => true end.
Definition published (r : run_phase) : bool := match r with RunUp | RunEnding _ | RunCleared _ | RunSent => false | _ => true end.

(** [v] is the verdict on what the sweep and the teardown have left. *)
Definition verdict_of (outcome : option (gstate * list TeardownResult)) (v : option string) : Prop :=
  ∃ s results, outcome = Some (s, results) ∧ v = endRun_verdict s results.

(** A reply to a stop: the verdict, or that there is none to tell. *)
Definition truthful (outcome : option (gstate * list TeardownResult)) (res : CommandResult) : Prop :=
  res = no_stack ∨ res = ack_timed_out ∨ res = no_verdict ∨ ∃ v, verdict_of outcome v ∧ res = of_verdict v.

(** Only a clean verdict is told as ok. *)
Lemma truthful_ok outcome res : truthful outcome res → cr_Status res = "ok" →
  ∃ s results, outcome = Some (s, results) ∧ ShutdownResult s = None ∧ TeardownError results = None.
Proof.
  intros [->|[->|[->|(v & (s & results & Ho & ->) & ->)]]]; try done.
  intros Hok. exists s, results. split; [done|]. unfold endRun_verdict in Hok. by destruct (ShutdownResult s), (TeardownError results).
Qed.

Definition awaits_verdict (l : loop_phase) : bool := match l with WaitStopped _ | WaitVerdict _ => true | _ => false end.

Record verdict_ok (y : stopping) : Prop := mkVerdictOk {
  vo_handle : sy_handle y = match sy_run y with RunUp | RunEnding _ => true | _ => false end;
  vo_stopped : sy_stopped y = published (sy_run y);
  vo_outcome : match sy_run y with
               | RunUp => sy_outcome y = None
               | RunEnding v | RunCleared v => verdict_of (sy_outcome y) v
               | _ => True
               end;
  vo_full : ∀ v, sy_verdict y = Some v → past_send (sy_run y) = true ∧ verdict_of (sy_outcome y) v;
  vo_waits : past_send (sy_run y) = true → awaits_verdict (sy_loop y) = true → is_Some (sy_verdict y);
  vo_wait : ∀ id, sy_loop y = WaitVerdict id → published (sy_run y) = true;
  vo_reply : ∀ id res, sy_loop y = Replying id res true → truthful (sy_outcome y) res;
  vo_answers : ∀ id res, sy_answers y !! id = Some res → truthful (sy_outcome y) res;
}.

(** A step that touches nothing the verdict is about, and leads to no wait and
    no reply. *)
Lemma verdict_quiet y y' :
  sy_handle y' = sy_handle y → sy_stopped y' = sy_stopped y → sy_run y' = sy_run y → sy_outcome y' = sy_outcome y →
  sy_verdict y' = sy_verdict y → sy_answers y' = sy_answers y →
  sy_loop y' = sy_loop y ∨ awaits_verdict (sy_loop y') = false ∧ (∀ id res, sy_loop y' ≠ Replying id res true) →
  verdict_ok y → verdict_ok y'.
Proof.
  intros E1 E2 E3 E4 E5 E6 E7 [H1 H2 H3 H4 H5 H6 H7 H8]. destruct E7 as [E7|[E7 E8]].
  - split; rewrite ?E1, ?E2, ?E3, ?E4, ?E5, ?E6, ?E7; done.
  - split; rewrite ?E1, ?E2, ?E3, ?E4, ?E5, ?E6; try done.
    + by rewrite E7.
    + intros id Hl. by rewrite Hl in E7.
    + intros id res Hl. by destruct (E8 id res).
Qed.

Lemma truthful_mono outcome outcome' res : (outcome = None ∨ outcome' = outcome) → truthful outcome res → truthful outcome' res.
Proof.
  intros Ho [?|[?|[?|(v & (s & results & Hs & Hv) & Hres)]]]; [by left|by right; left|by right; right; left|].
  right; right; right. exists v. split; [|done]. exists s, results. destruct Ho as [Ho|Ho]; [congruence|by rewrite Ho].
Qed.

Lemma dispatch_fields configPath loaded order old_order closed id cmd y :
  let y' := dispatch configPath loaded order old_order closed id cmd y in
  sy_handle y' = sy_handle y ∧ sy_stopped y' = sy_stopped y ∧ sy_run y' = sy_run y ∧ sy_outcome y' = sy_outcome y ∧
  sy_verdict y' = sy_verdict y ∧ sy_answers y' = sy_answers y ∧ sy_conns y' = sy_conns y ∧ sy_queue y' = sy_queue y ∧
  sy_journal y' = sy_journal y ∧
  ((∃ res, sy_loop y' = Replying id res false) ∧ sy_barrier y' = sy_barrier y ∨
   (enter (sy_barrier y)).1 = true ∧ sy_loop y' = Stopping id cmd ∧ sy_barrier y' = (enter (sy_barrier y)).2 ∨
   (enter (sy_barrier y)).1 = false ∧ (∃ res, sy_loop y' = Replying id res false) ∧ sy_barrier y' = (enter (sy_barrier y)).2).
Proof.
  unfold dispatch. case_bool_decide; [destruct (restart_command _ _ _ _) as [res store]|case_bool_decide; [destruct (Reload _ _ _ _ _ _ _) as [res rl]|case_bool_decide]].
  1, 2, 4: split_and!; try done; left; split; [by eexists|done].
  destruct (enter (sy_barrier y)) as [[] b]; cbn; split_and!; try done; [by right; left|right; right; split; [done|]; split; [by eexists|done]].
Qed.

Lemma verdict_client timer y y' : client_step y timer y' → verdict_ok y → verdict_ok y'.
Proof.
  intros Hs Hok. destruct Hs; [unfold send_command; destruct (_ <? _)|..]; (apply (verdict_quiet y); try done; by left).
Qed.

Lemma deliver_fields id res y : let y' := deliver id res y in
  sy_handle y' = sy_handle y ∧ sy_stopped y' = sy_stopped y ∧ sy_run y' = sy_run y ∧ sy_outcome y' = sy_outcome y ∧
  sy_verdict y' = sy_verdict y ∧ sy_answers y' = sy_answers y ∧ sy_queue y' = sy_queue y ∧ sy_journal y' = sy_journal y ∧
  sy_barrier y' = sy_barrier y ∧ sy_loop y' = sy_loop y.
Proof. unfold deliver. cbn zeta. by repeat case_match. Qed.

Lemma verdict_loop timer y y' : loop_step y timer y' → verdict_ok y → verdict_ok y'.
Proof.
  intros [id cmd queue configPath loaded order old_order closed Hl Hq|drained Hl Hr|id cmd Hl|id Hl Hst|id Hl|id v Hl Hv|id Hl|id res holds Hl|id res ack undelivered Hl Hc|id res Hl|Hl] Hok.
  - destruct (dispatch_fields configPath loaded order old_order closed id cmd (with_queue queue y)) as (E1 & E2 & E3 & E4 & E5 & E6 & _ & _ & _ & E7).
    apply (verdict_quiet y); [done..| |done]. right. by destruct E7 as [[[res ->] _]|[(_ & -> & _)|(_ & [res ->] & _)]].
  - apply (verdict_quiet y); try done. by right.
  - unfold request_stop. destruct (sy_handle y) eqn:Hh; destruct Hok as [H1 H2 H3 H4 H5 H6 H7 H8].
    + split; try done. cbn. intros Hp. rewrite Hh in H1. by destruct (sy_run y).
    + split; try done. intros id' res. cbn. intros [= <- <-]. by left.
  - destruct Hok as [H1 H2 H3 H4 H5 H6 H7 H8]. split; try done.
    + intros Hp _. apply H5; [done|]. by rewrite Hl.
    + intros id'. cbn. intros _. by rewrite <-H2.
  - destruct Hok as [H1 H2 H3 H4 H5 H6 H7 H8]. split; try done. intros id' res. cbn. intros [= <- <-]. by right; left.
  - destruct Hok as [H1 H2 H3 H4 H5 H6 H7 H8]. split; try done. intros id' res. cbn. intros [= <- <-].
    right; right; right. exists v. by destruct (H4 v Hv).
  - destruct Hok as [H1 H2 H3 H4 H5 H6 H7 H8]. split; try done. intros id' res. cbn. intros [= <- <-]. by right; right; left.
  - unfold reply_command. destruct (deliver_fields id res y) as (E1 & E2 & E3 & E4 & E5 & E6 & _ & _ & _ & E7).
    destruct holds; [|apply (verdict_quiet y); try done; by right].
    destruct Hok as [H1 H2 H3 H4 H5 H6 H7 H8]. split; cbn; rewrite ?E1, ?E2, ?E3, ?E4, ?E5, ?E6; try done.
    intros id' res'. rewrite lookup_insert_Some. intros [[<- <-]|[_ Ha]]; [by apply (H7 id)|by apply (H8 id')].
  - apply (verdict_quiet y); try done; [unfold flushed; by destruct undelivered..|]. right. unfold flushed. by destruct undelivered.
  - apply (verdict_quiet y); try done. by right.
  - apply (verdict_quiet y); try done. by right.
Qed.

Lemma verdict_run timer y y' : run_step y timer y' → verdict_ok y → verdict_ok y'.
Proof.
  intros [s results Hr|v Hr|v Hr|Hr|Hr|ch Hr Hc|ch Hr] [H1 H2 H3 H4 H5 H6 H7 H8]; rewrite Hr in *; cbn [past_send published] in *.
  - assert (∀ v, sy_verdict y ≠ Some v) as Hno by (intros v Hv; by destruct (H4 v Hv)).
    unfold log_termination. destruct (ShutdownResult s); (split; cbn; try done;
      [by exists s, results|intros v Hv; by destruct (Hno v)
      |intros id res Hl; eapply truthful_mono; [by left|by apply (H7 id)]|intros id res Hl; eapply truthful_mono; [by left|by apply (H8 id)]]).
  - by split.
  - destruct (sy_verdict y) as [v'|] eqn:Hv; [by destruct (H4 v' eq_refl)|]. split; cbn; try done. by intros v' [= <-].
  - split; cbn; try done.
  - destruct (seal_barrier (sy_barrier y)) as [[ch|] b]; split; cbn; done.
  - split; cbn; done.
  - split; cbn; done.
Qed.

Lemma verdict_step timer y y' : step timer y y' → verdict_ok y → verdict_ok y'.
Proof. intros [H|H|H]; [by eapply verdict_client|by eapply verdict_loop|by eapply verdict_run]. Qed.

Lemma verdict_begun procs store : verdict_ok (begun procs store).
Proof. split; try done. Qed.

(** ** The barrier in the system *)

Definition barrier_inv (y : stopping) : Prop := barrier_ok (holding (sy_loop y)) (sy_run y) (sy_barrier y).

Lemma barrier_step timer y y' : step timer y y' → barrier_inv y → barrier_inv y'.
Proof.
  unfold barrier_inv. intros [Hs|Hs|Hs] Hok.
  - destruct Hs; [unfold send_command; destruct (_ <? _)|..]; exact Hok.
  - destruct Hs as [id cmd queue configPath loaded order old_order closed Hl Hq|drained Hl Hr|id cmd Hl|id Hl Hst|id Hl|id v Hl Hv|id Hl|id res holds Hl|id res ack undelivered Hl Hc|id res Hl|Hl];
      rewrite Hl in Hok; cbn [holding] in Hok.
    + destruct (dispatch_fields configPath loaded order old_order closed id cmd (with_queue queue y)) as (_ & _ & Hr & _ & _ & _ & _ & _ & _ & Hd).
      pose proof (enter_ok _ _ Hok) as He. rewrite Hr. cbn [with_queue sy_barrier sy_run] in *.
      destruct Hd as [[[res ->] ->]|[(E & -> & ->)|(E & [res ->] & ->)]]; [exact Hok|rewrite E in He; exact (proj2 He)|rewrite E in He; cbn; rewrite He; exact Hok].
    + exact Hok.
    + unfold request_stop. by destruct (sy_handle y).
    + exact Hok.
    + exact Hok.
    + exact Hok.
    + exact Hok.
    + unfold reply_command. destruct (deliver_fields id res y) as (_ & _ & E1 & _ & _ & _ & _ & _ & E2 & _).
      destruct holds; cbn; by rewrite E1, E2.
    + unfold flushed. by destruct undelivered.
    + exact Hok.
    + by apply leave_ok.
  - destruct Hs as [s results Hr|v Hr|v Hr|Hr|Hr|ch Hr Hc|ch Hr]; rewrite Hr in Hok.
    + unfold log_termination. destruct (ShutdownResult s); refine (barrier_run _ _ _ _ _ _ Hok); done.
    + refine (barrier_run _ _ _ _ _ _ Hok); done.
    + refine (barrier_run _ _ _ _ _ _ Hok); done.
    + refine (barrier_run _ _ _ _ _ _ Hok); done.
    + refine (barrier_seal _ _ _ _ Hok); done.
    + destruct (drained_ok _ _ _ Hok Hc) as [_ H]. exact H.
    + destruct Hok as [H1 H2 H3 H4 H5 H6]. by split.
Qed.

Lemma barrier_begun procs store : barrier_inv (begun procs store).
Proof. by split. Qed.

(** ** The delivery of a verdict *)

Definition current (l : loop_phase) : list nat :=
  match l with Stopping id _ | WaitStopped id | WaitVerdict id | Replying id _ _ => [id] | _ => [] end.

(** The commands that have no reply yet. *)
Definition pending_ids (y : stopping) : list nat := current (sy_loop y) ++ (sy_queue y).*1.

(** Their client cannot have been told a verdict. *)
Definition unreplied (c : conn) : Prop :=
  match c with Waiting None | Answering true None | Answered _ (Some _) => True | _ => False end.

Definition tells_result (res : CommandResult) (ack : string * string * Z) : Prop := ack = (cr_Status res, cr_Message res, cr_Generation res).

(** The client is being told [res]. *)
Definition replied (res : CommandResult) (c : conn) : Prop :=
  match c with
  | Waiting reply => reply = Some res
  | Answering queued verdict => queued = true ∧ (verdict = Some res ∨ verdict = None)
  | Answered ack undelivered => undelivered = None → tells_result res ack
  end.

(** The client was told [res] in full, or the journal has it. *)
Definition accounted (y : stopping) (id : nat) (res : CommandResult) : Prop :=
  (∃ ack, sy_conns y !! id = Some (Answered ack None) ∧ tells_result res ack) ∨
  ∃ err, undelivered_entry err res ∈ sy_journal y.

Record delivery_ok (y : stopping) : Prop := mkDeliveryOk {
  dl_nodup : NoDup (pending_ids y);
  dl_pending : ∀ id, id ∈ pending_ids y → sy_answers y !! id = None ∧ ∃ c, sy_conns y !! id = Some c ∧ unreplied c;
  dl_flushing : ∀ id res, sy_loop y = Flushing id res → sy_answers y !! id = Some res;
  dl_answers : ∀ id res, sy_answers y !! id = Some res → accounted y id res ∨ sy_loop y = Flushing id res;
  dl_replied : ∀ id res, sy_answers y !! id = Some res → ∃ c, sy_conns y !! id = Some c ∧ replied res c;
}.

(** Steps of other goroutines. *)
Lemma delivery_quiet y y' : sy_loop y' = sy_loop y → sy_queue y' = sy_queue y → sy_conns y' = sy_conns y → sy_answers y' = sy_answers y →
  (∀ x, x ∈ sy_journal y → x ∈ sy_journal y') → delivery_ok y → delivery_ok y'.
Proof.
  intros E1 E2 E3 E4 E5 [H1 H2 H3 H4 H6]. split; unfold pending_ids; rewrite ?E1, ?E2, ?E3, ?E4; try done.
  intros id res Ha. destruct (H4 id res Ha) as [[Hc|[err He]]|?]; [left; left; by rewrite E3|left; right|by right].
  exists err. by apply E5.
Qed.

(** A handler of the server goes on. *)
Lemma delivery_conn y id c c' : sy_conns y !! id = Some c → (∀ ack, c ≠ Answered ack None) → (unreplied c → unreplied c') →
  (∀ res, replied res c → replied res c') → delivery_ok y → delivery_ok (with_conns (<[id := c']> (sy_conns y)) y).
Proof.
  intros Hc Hne Hu Hr [H1 H2 H3 H4 H5]. split; cbn; try done.
  - intros id' Hin. destruct (H2 id' Hin) as [Ha (c0 & Hc0 & Hu0)]. split; [done|].
    destruct (decide (id' = id)) as [->|Hne']; [rewrite lookup_insert_eq; exists c'; split; [done|]; apply Hu; congruence|].
    rewrite lookup_insert_ne by done. by exists c0.
  - intros id' res Ha. destruct (H4 id' res Ha) as [[(ack & Hack & Ht)|He]|?]; [left; left|left; by right|by right].
    exists ack. cbn. rewrite lookup_insert_ne; [done|]. intros <-. rewrite Hc in Hack. injection Hack as ->. by destruct (Hne ack).
  - intros id' res Ha. destruct (H5 id' res Ha) as (c0 & Hc0 & Hr0).
    destruct (decide (id' = id)) as [->|Hne']; [rewrite lookup_insert_eq; exists c'; split; [done|]; apply Hr; congruence|].
    rewrite lookup_insert_ne by done. by exists c0.
Qed.

Lemma delivery_client timer y y' : client_step y timer y' → delivery_ok y → delivery_ok y'.
Proof.
  intros Hs Hok. destruct Hs as [id cmd Hn|id res Hc|id reply Hc|id queued verdict timeout write Hc].
  - assert (∀ c, delivery_ok (with_conns (<[id := c]> (sy_conns y)) y) ∧ id ∉ pending_ids y) as Hnew.
    { intros c. destruct Hok as [H1 H2 H3 H4 H5]. assert (id ∉ pending_ids y) as Hid by (intros Hin; destruct (H2 id Hin) as [_ (c0 & Hc0 & _)]; congruence).
      split; [|done]. split; cbn; try done.
      - intros id' Hin. rewrite lookup_insert_ne by (intros ->; done). by apply H2.
      - intros id' res Ha. destruct (H4 id' res Ha) as [[(ack & Hack & Ht)|He]|?]; [left; left|left; by right|by right].
        exists ack. cbn. rewrite lookup_insert_ne by (intros ->; congruence). done.
      - intros id' res Ha. destruct (H5 id' res Ha) as (c0 & Hc0 & Hr0). exists c0. rewrite lookup_insert_ne by (intros ->; congruence). done. }
    unfold send_command. destruct (_ <? _); [|by apply Hnew].
    destruct (Hnew (Waiting None)) as [[H1 H2 H3 H4 H5] Hid]. split; try done.
    + unfold pending_ids in *. cbn in *. rewrite fmap_app, (assoc_L (++)). apply NoDup_app. split_and!; [done| |by apply NoDup_singleton].
      intros x Hx ->%list_elem_of_singleton. done.
    + unfold pending_ids in *. cbn in *. intros id'. rewrite fmap_app, (assoc_L (++)), elem_of_app. intros [Hin|Hin%list_elem_of_singleton]; [by apply H2|].
      subst id'. rewrite lookup_insert_eq. split; [|by eexists]. destruct (sy_answers y !! id) as [res|] eqn:Ha; [|done].
      destruct Hok as [_ _ G3 G4 G5]. destruct (G5 id res Ha) as (c0 & Hc0 & _). congruence.
  - eapply delivery_conn; [exact Hc|done|done| |exact Hok]. intros res'. cbn. intros [= ->]. by split; [|left].
  - eapply delivery_conn; [exact Hc|done|by destruct reply| |exact Hok]. intros res' _. by split; [|right].
  - eapply delivery_conn; [exact Hc|done| | |exact Hok].
    + by destruct queued, verdict.
    + intros res'. cbn. intros [-> Hv]. destruct Hv as [->| ->]; [by intros _|by cbn].
Qed.

(** The goroutine of the commands goes on, without a reply. *)
Lemma delivery_move y y' : pending_ids y' = pending_ids y → sy_conns y' = sy_conns y → sy_answers y' = sy_answers y →
  (∀ x, x ∈ sy_journal y → x ∈ sy_journal y') → (∀ id res, sy_loop y' ≠ Flushing id res) →
  (∀ id res, sy_loop y = Flushing id res → accounted y' id res) → delivery_ok y → delivery_ok y'.
Proof.
  intros E1 E2 E3 E4 E5 E6 [H1 H2 H3 H4 H5]. split; rewrite ?E1, ?E2, ?E3; try done.
  - intros id res Hl. by destruct (E5 id res).
  - intros id res Ha. left. destruct (H4 id res Ha) as [[Hc|[err He]]|?]; [left; by rewrite E2|right; exists err; by apply E4|by apply E6].
Qed.

Lemma deliver_replied id res y c : sy_conns y !! id = Some c → unreplied c →
  ∃ c', sy_conns (deliver id res y) = <[id := c']> (sy_conns y) ∧ replied res c' ∧ ∀ ack, c' ≠ Answered ack None.
Proof.
  intros Hc Hu. unfold deliver. rewrite Hc. destruct c as [[]|[] []|ack [e|]]; try done; cbn.
  - by exists (Waiting (Some res)).
  - exists (Answering true None). rewrite insert_id by done. split; [done|]. by split; [split; [|right]|].
  - exists (Answered ack (Some e)). rewrite insert_id by done. by split.
Qed.

Lemma delivery_reply id res holds y : sy_loop y = Replying id res holds → delivery_ok y → delivery_ok (reply_command id res holds y).
Proof.
  intros Hl [H1 H2 H3 H4 H5]. unfold pending_ids in *. rewrite Hl in *. cbn [current app] in *. apply NoDup_cons in H1 as [Hnew H1].
  destruct (H2 id) as [Hna (c & Hc & Hu)]; [by left|]. destruct (deliver_replied id res y c Hc Hu) as (c' & Hc' & Hr & Hne).
  destruct (deliver_fields id res y) as (_ & _ & _ & _ & _ & E6 & E7 & E8 & _ & _).
  assert (∀ id' res', sy_answers y !! id' = Some res' → accounted y id' res' ∧ id' ≠ id) as Hold.
  { intros id' res' Ha. split; [by destruct (H4 id' res' Ha) as [?|?]|]. intros ->. congruence. }
  assert (∀ id', id' ∈ (sy_queue y).*1 → id' ≠ id ∧ sy_answers y !! id' = None ∧ ∃ c0, sy_conns y !! id' = Some c0 ∧ unreplied c0) as Hpend.
  { intros id' Hin. split; [by intros ->|]. apply H2. by right. }
  unfold reply_command. destruct holds; split; unfold pending_ids, accounted; cbn; rewrite ?E6, ?E7, ?E8, ?Hc'; try done.
  - intros id' Hin. destruct (Hpend id' Hin) as (Hne' & Ha & Hu'). by rewrite !lookup_insert_ne.
  - intros id' res' [= <- <-]. apply lookup_insert_eq.
  - intros id' res'. rewrite lookup_insert_Some. intros [[<- <-]|[_ Ha]]; [by right|]. destruct (Hold _ _ Ha) as [Hacc Hne']. left.
    by rewrite lookup_insert_ne.
  - intros id' res'. rewrite lookup_insert_Some. intros [[<- <-]|[Hne' Ha]]; [exists c'; by rewrite lookup_insert_eq|].
    destruct (H5 id' res' Ha) as (c0 & Hc0 & Hr0). exists c0. by rewrite lookup_insert_ne.
  - intros id' Hin. destruct (Hpend id' Hin) as (Hne' & Ha & Hu'). by rewrite lookup_insert_ne.
  - intros id' res' Ha. destruct (Hold _ _ Ha) as [Hacc Hne']. left. by rewrite lookup_insert_ne.
  - intros id' res' Ha. destruct (Hold _ _ Ha) as [_ Hne']. destruct (H5 id' res' Ha) as (c0 & Hc0 & Hr0). exists c0. by rewrite lookup_insert_ne.
Qed.

Lemma flushed_journal err res y x : x ∈ sy_journal y → x ∈ sy_journal (flushed err res y).
Proof. intros Hx. destruct err; [|done]. unfold flushed, undelivered_entry. apply elem_of_app. by left. Qed.

Lemma flushed_recorded err res y : undelivered_entry err res ∈ sy_journal (flushed (Some err) res y).
Proof. unfold flushed, undelivered_entry. apply elem_of_app. right. apply list_elem_of_singleton. reflexivity. Qed.

Local Ltac moved Hl := unfold pending_ids; by rewrite Hl.

Lemma delivery_loop timer y y' : loop_step y timer y' → delivery_ok y → delivery_ok y'.
Proof.
  intros [id cmd queue configPath loaded order old_order closed Hl Hq|drained Hl Hr|id cmd Hl|id Hl Hst|id Hl|id v Hl Hv|id Hl|id res holds Hl|id res ack undelivered Hl Hc|id res Hl|Hl] Hok.
  - destruct (dispatch_fields configPath loaded order old_order closed id cmd (with_queue queue y)) as (_ & _ & _ & _ & _ & E6 & E7 & E8 & E9 & E10).
    apply (delivery_move y); try done.
    + unfold pending_ids. rewrite E8, Hl, Hq. by destruct E10 as [[[res ->] _]|[(_ & -> & _)|(_ & [res ->] & _)]].
    + intros x. by rewrite E9.
    + intros id' res'. by destruct E10 as [[[res ->] _]|[(_ & -> & _)|(_ & [res ->] & _)]].
    + intros id' res'. by rewrite Hl.
  - apply (delivery_move y); try done; moved Hl.
  - unfold request_stop. destruct (sy_handle y); (apply (delivery_move y); try done; moved Hl).
  - apply (delivery_move y); try done; moved Hl.
  - apply (delivery_move y); try done; moved Hl.
  - apply (delivery_move y); try done; moved Hl.
  - apply (delivery_move y); try done; moved Hl.
  - by apply delivery_reply.
  - apply (delivery_move y); try by destruct undelivered.
    + unfold pending_ids. rewrite Hl. by destruct undelivered.
    + intros x. apply flushed_journal.
    + intros id' res'. rewrite Hl. intros [= <- <-]. destruct (dl_replied _ Hok id res (dl_flushing _ Hok id res Hl)) as (c & Hc' & Hr).
      rewrite Hc in Hc'. injection Hc' as <-. destruct undelivered as [err|]; [right; exists err; apply flushed_recorded|].
      left. exists ack. split; [done|by apply Hr].
  - apply (delivery_move y); try done.
    + unfold pending_ids. by rewrite Hl.
    + intros x. apply flushed_journal.
    + intros id' res'. rewrite Hl. intros [= <- <-]. right. eexists. apply flushed_recorded.
  - apply (delivery_move y); try done; moved Hl.
Qed.

Lemma delivery_run timer y y' : run_step y timer y' → delivery_ok y → delivery_ok y'.
Proof.
  intros [s results Hr|v Hr|v Hr|Hr|Hr|ch Hr Hc|ch Hr] Hok; try (apply (delivery_quiet y); done).
  unfold log_termination. destruct (ShutdownResult s); (apply (delivery_quiet y); [done..| |done]; intros x Hx; cbn; apply elem_of_app; by left).
Qed.

Lemma delivery_step timer y y' : step timer y y' → delivery_ok y → delivery_ok y'.
Proof. intros [H|H|H]; [by eapply delivery_client|by eapply delivery_loop|by eapply delivery_run]. Qed.

Lemma delivery_begun procs store : delivery_ok (begun procs store).
Proof. split; cbn; try done; [by apply NoDup_nil_2|by intros id ?%not_elem_of_nil]. Qed.

(** ** Reachable states *)

Record system_ok (y : stopping) : Prop := mkSystemOk {
  so_verdict : verdict_ok y;
  so_barrier : barrier_inv y;
  so_delivery : delivery_ok y;
}.

Lemma system_step timer y y' : step timer y y' → system_ok y → system_ok y'.
Proof. intros Hs [H1 H2 H3]. split; [by eapply verdict_step|by eapply barrier_step|by eapply delivery_step]. Qed.

Lemma system_reachable procs store y : reachable procs store y → system_ok y.
Proof.
  unfold reachable. apply (rtc_ind_r (λ y, system_ok y)).
  - split; [apply verdict_begun|apply barrier_begun|apply delivery_begun].
  - intros y1 y2 _ [timer Hs]. by eapply system_step.
Qed.

Lemma system_quiet y y' : rtc (step false) y y' → system_ok y → system_ok y'.
Proof. induction 1; [done|]. intros. by eapply IHrtc, system_step. Qed.

(** ** The exit is never stuck *)

Definition quiet_to (y : stopping) (P : stopping → Prop) : Prop := ∃ y', rtc (step false) y y' ∧ P y'.

Lemma quiet_now y (P : stopping → Prop) : P y → quiet_to y P.
Proof. exists y. by split; [apply rtc_refl|]. Qed.

Lemma quiet_step y y1 P : step false y y1 → quiet_to y1 P → quiet_to y P.
Proof. intros Hs (y' & Hr & Hp). exists y'. split; [by eapply rtc_l|done]. Qed.

Lemma quiet_trans y P Q : quiet_to y P → (∀ y', rtc (step false) y y' → P y' → quiet_to y' Q) → quiet_to y Q.
Proof. intros (y' & Hr & Hp) H. destruct (H y' Hr Hp) as (y2 & Hr2 & Hq). exists y2. split; [by etrans|done]. Qed.

(** The handler of a stop that has its reply ends, whatever becomes of the
    write. *)
Lemma flushing_answered y id res c : sy_conns y !! id = Some c → replied res c →
  quiet_to y (λ y', sy_loop y' = sy_loop y ∧ sy_run y' = sy_run y ∧ ∃ ack undelivered, sy_conns y' !! id = Some (Answered ack undelivered)).
Proof.
  intros Hc Hr.
  assert (∀ y queued verdict, sy_conns y !! id = Some (Answering queued verdict) →
    quiet_to y (λ y', sy_loop y' = sy_loop y ∧ sy_run y' = sy_run y ∧ ∃ ack undelivered, sy_conns y' !! id = Some (Answered ack undelivered))) as Hwrite.
  { intros y0 queued verdict Hc0. eapply quiet_step; [apply st_client, (cs_write _ id queued verdict EmptyString None Hc0)|].
    apply quiet_now. split_and!; [done|done|]. eexists _, _. apply lookup_insert_eq. }
  destruct c as [reply|queued verdict|ack undelivered]; cbn in Hr.
  - subst reply. eapply quiet_step; [apply st_client, (cs_reply _ id res Hc)|].
    refine (Hwrite (with_conns (<[id := Answering true (Some res)]> (sy_conns y)) y) _ _ _). apply lookup_insert_eq.
  - by eapply Hwrite.
  - apply quiet_now. split_and!; [done|done|]. by exists ack, undelivered.
Qed.

(** How far a stop is from letting the barrier go. *)
Definition stages (l : loop_phase) : nat :=
  match l with
  | Stopping _ _ => 6 | WaitStopped _ => 5 | WaitVerdict _ => 4 | Replying _ _ true => 3 | Flushing _ _ => 2 | Leaving => 1 | _ => 0
  end.

Definition returned (y : stopping) : Prop := sy_run y = RunReturned true.

Lemma draining_advances y ch : system_ok y → sy_run y = RunDraining ch → holding (sy_loop y) = true →
  quiet_to y (λ y', sy_run y' = RunDraining ch ∧ stages (sy_loop y') < stages (sy_loop y)).
Proof.
  intros [Hv Hb Hd] Hr Hh.
  assert (∀ y', loop_step y false y' → sy_run y' = sy_run y → stages (sy_loop y') < stages (sy_loop y) →
    quiet_to y (λ y', sy_run y' = RunDraining ch ∧ stages (sy_loop y') < stages (sy_loop y))) as Hgo.
  { intros y' Hs Hr' Hlt. eapply quiet_step; [by apply st_loop|]. apply quiet_now. by rewrite Hr', Hr. }
  destruct (sy_loop y) as [|id cmd|id|id|id res holds|id res| |] eqn:Hl; try done.
  - eapply Hgo; [by eapply lp_request| |]; unfold request_stop; destruct (sy_handle y); cbn; try done; lia.
  - eapply Hgo; [eapply lp_stopped; [done|]|done|cbn; lia]. by rewrite (vo_stopped _ Hv), Hr.
  - destruct (vo_waits _ Hv) as [v Hv']; [by rewrite Hr|by rewrite Hl|]. eapply Hgo; [by eapply lp_verdict|done|cbn; lia].
  - cbn in Hh. subst holds. destruct (deliver_fields id res y) as (_ & _ & E & _).
    eapply Hgo; [by eapply lp_reply|by cbn; rewrite E|cbn; lia].
  - destruct (dl_replied _ Hd id res (dl_flushing _ Hd id res Hl)) as (c & Hc & Hrep).
    eapply quiet_trans; [by eapply flushing_answered|]. intros y1 _ (Hl1 & Hr1 & ack & und & Hc1). rewrite Hl in Hl1.
    eapply quiet_step; [eapply st_loop, lp_flushed; [done|exact Hc1]|]. apply quiet_now.
    destruct und; cbn; (split; [congruence|lia]).
  - eapply Hgo; [by apply lp_leave|done|cbn; lia].
Qed.

Lemma draining_returns n : ∀ y ch, stages (sy_loop y) < n → system_ok y → sy_run y = RunDraining ch → quiet_to y returned.
Proof.
  induction n as [|n IH]; [lia|]. intros y ch Hn Hok Hr. destruct (holding (sy_loop y)) eqn:Hh.
  - eapply quiet_trans; [by eapply draining_advances|]. intros y' Hq [Hr' Hlt]. eapply IH; [lia|by eapply system_quiet|done].
  - destruct Hok as [_ Hb _]. unfold barrier_inv in Hb. rewrite Hh, Hr in Hb. destruct (bo_run _ _ _ Hb) as (c & -> & Hc).
    eapply quiet_step; [eapply st_run, rn_drained; [done|]|by apply quiet_now]. unfold is_closed. by rewrite Hc.
Qed.

Definition ending (r : run_phase) : nat :=
  match r with RunUp => 5 | RunEnding _ => 4 | RunCleared _ => 3 | RunSent => 2 | RunPublished => 1 | _ => 0 end.

Definition sealed (y : stopping) : Prop := returned y ∨ ∃ ch, sy_run y = RunDraining ch.

(** Nothing holds the run up before it seals the barrier. *)
Lemma run_seals n : ∀ y, ending (sy_run y) < n → sy_run y ≠ RunReturned false → quiet_to y sealed.
Proof.
  induction n as [|n IH]; [lia|]. intros y Hn Hne.
  assert (∀ y', run_step y false y' → ending (sy_run y') < ending (sy_run y) → sy_run y' ≠ RunReturned false → quiet_to y sealed) as Hgo.
  { intros y' Hs Hlt Hne'. eapply quiet_step; [by apply st_run|]. apply IH; [lia|done]. }
  destruct (sy_run y) as [|v|v| | |ch|drained] eqn:Hr.
  - eapply Hgo; [by eapply (rn_down _ (mkG ∅ [] false [] [] [] true false false 0) [])|cbn; lia|done].
  - eapply Hgo; [by eapply rn_clear|cbn; lia|done].
  - eapply Hgo; [by eapply rn_send|cbn; lia|done].
  - eapply Hgo; [by eapply rn_close|cbn; lia|done].
  - eapply Hgo; [by eapply rn_seal| |]; cbn; destruct (seal_barrier (sy_barrier y)).1; cbn; try lia; done.
  - apply quiet_now. right. by exists ch.
  - apply quiet_now. left. unfold returned. by destruct drained.
Qed.

(** ** Properties *)

(** Whatever the clients, the processes and the timers do, every reply to a
    stop that holds the barrier is the verdict on what the sweep and the
    teardown have left, or says that there is none; in particular a client is
    answered ok only if the sweep recorded no problem and every teardown process
    passed. *)
Theorem stop_answer_true procs store y id res :
  reachable procs store y → sy_answers y !! id = Some res →
  truthful (sy_outcome y) res ∧
  (cr_Status res = "ok" → ∃ s results, sy_outcome y = Some (s, results) ∧ ShutdownResult s = None ∧ TeardownError results = None).
Proof.
  intros Hr Ha. destruct (system_reachable _ _ _ Hr) as [Hv _ _]. pose proof (vo_answers _ Hv id res Ha) as Ht.
  split; [done|]. by apply truthful_ok.
Qed.

(** C10: once [Run] has returned, and its wait for the barrier did not end by
    its timer, no stop holds the barrier, no channel of the barrier was closed
    twice, and every stop that was answered was told its verdict in full or has
    it in the journal, whatever order the steps of the clients, of the
    commands and of the run came in. *)
Theorem exit_waits_for_verdicts procs store y :
  reachable procs store y → sy_run y = RunReturned true →
  holding (sy_loop y) = false ∧ Forall (λ n, n ≤ 1) (ab_closes (sy_barrier y)) ∧
  ∀ id res, sy_answers y !! id = Some res → accounted y id res.
Proof.
  intros Hr Hret. destruct (system_reachable _ _ _ Hr) as [_ Hb Hd]. unfold barrier_inv in Hb. rewrite Hret in Hb.
  pose proof (bo_run _ _ _ Hb) as Hh. cbn in Hh. split; [done|]. split; [by eapply bo_once|].
  intros id res Ha. destruct (dl_answers _ Hd id res Ha) as [?|Hl]; [done|]. by rewrite Hl in Hh.
Qed.

(** C11: the publication of the verdict, the stops that wait for it and the
    barrier cannot deadlock: from every reachable state there are steps, none of
    them a timer, after which [Run] has returned, unless its wait has already
    ended by its timer. *)
Theorem exit_never_stuck procs store y :
  reachable procs store y → sy_run y ≠ RunReturned false →
  ∃ y', rtc (step false) y y' ∧ sy_run y' = RunReturned true.
Proof.
  intros Hr Hne. pose proof (system_reachable _ _ _ Hr) as Hok.
  apply (quiet_trans y sealed returned); [eapply run_seals; [apply Nat.lt_succ_diag_r|done]|].
  intros y' Hq [Hret|[ch Hch]]; [by apply quiet_now|]. eapply draining_returns; [apply Nat.lt_succ_diag_r|by eapply system_quiet|exact Hch].
Qed.

(** ** Witnesses *)

Lemma reachable_step procs store timer y y' : step timer y y' → reachable procs store y → reachable procs store y'.
Proof. intros Hs Hr. eapply rtc_r; [exact Hr|by exists timer]. Qed.

Definition example_store : stateStore := mkStateStore ∅ ∅.
Definition example_start : stopping := begun ∅ example_store.
Definition example_sent : stopping := send_command 1 (mkCommand "shutdown" "" false) example_start.
Definition example_taken : stopping := dispatch "" (Err "") [] [] (λ _, false) 1 (mkCommand "shutdown" "" false) (with_queue [] example_sent).
Definition example_requested : stopping := request_stop 1 example_taken.
Definition example_state : gstate := mkG ∅ [] false [] [] [] true false false 0.

(** The run goes down, and publishes its verdict. *)
Definition example_down : stopping :=
  log_termination example_state (with_run (RunEnding (endRun_verdict example_state [])) (with_outcome (Some (example_state, [])) (with_cancelled true (with_closed true example_requested)))).
Definition example_cleared : stopping := with_run (RunCleared None) (with_handle false example_down).
Definition example_published : stopping := with_run RunPublished (with_stopped true (with_run RunSent (with_verdict (Some None) example_cleared))).

(** It waits while the client is told. *)
Definition example_draining : stopping := with_run (RunDraining (Some 0)) (with_barrier (seal_barrier (sy_barrier example_published)).2 example_published).
Definition example_replied : stopping :=
  reply_command 1 (of_verdict None) true (with_loop (Replying 1 (of_verdict None) true) (with_verdict None (with_loop (WaitVerdict 1) example_draining))).
Definition example_told : stopping := with_conns (<[1 := Answering true (Some (of_verdict None))]> (sy_conns example_replied)) example_replied.
Definition example_answered : stopping := with_conns (<[1 := Answered ("ok", "", 0%Z) None]> (sy_conns example_told)) example_told.
Definition example_left : stopping := with_loop Idle (with_barrier (leave (sy_barrier example_answered)) (flushed None (of_verdict None) example_answered)).

Lemma example_draining_reachable : reachable ∅ example_store example_draining.
Proof.
  eapply reachable_step; [apply st_run, rn_seal; reflexivity|]. eapply reachable_step; [apply st_run, rn_close; reflexivity|].
  eapply reachable_step; [apply st_run, (rn_send example_cleared None); reflexivity|].
  eapply reachable_step; [apply st_run, (rn_clear example_down None); reflexivity|].
  eapply reachable_step; [apply st_run, (rn_down example_requested example_state []); reflexivity|].
  eapply reachable_step; [eapply st_loop, (lp_request example_taken 1); reflexivity|].
  eapply reachable_step; [apply st_loop, (lp_take example_sent 1 _ [] "" (Err "") [] [] (λ _, false)); reflexivity|].
  eapply reachable_step; [apply st_client, (cs_send example_start 1); reflexivity|]. apply rtc_refl.
Qed.

Lemma example_left_reachable : reachable ∅ example_store example_left.
Proof.
  eapply reachable_step; [apply st_loop, (lp_leave (flushed None (of_verdict None) example_answered)); reflexivity|].
  eapply reachable_step; [apply st_loop, (lp_flushed example_answered 1 (of_verdict None) ("ok", "", 0%Z) None); reflexivity|].
  eapply reachable_step; [apply st_client, (cs_write example_told 1 true (Some (of_verdict None)) "" None); reflexivity|].
  eapply reachable_step; [apply st_client, (cs_reply example_replied 1 (of_verdict None)); reflexivity|].
  eapply reachable_step; [apply st_loop, lp_reply; reflexivity|].
  eapply reachable_step; [apply st_loop, (lp_verdict (with_loop (WaitVerdict 1) example_draining) 1 None); reflexivity|].
  eapply reachable_step; [apply st_loop, (lp_stopped example_draining 1); reflexivity|]. apply example_draining_reachable.
Qed.

Lemma stop_answer_true_witness :
  sy_answers example_left !! 1 = Some (mkCommandResult "ok" "" 0) ∧
  ∃ s results, sy_outcome example_left = Some (s, results) ∧ ShutdownResult s = None ∧ TeardownError results = None.
Proof.
  split; [reflexivity|].
  exact (proj2 (stop_answer_true ∅ example_store example_left 1 (mkCommandResult "ok" "" 0) example_left_reachable eq_refl) eq_refl).
Defined.

Lemma exit_waits_for_verdicts_witness :
  let y := with_run (RunReturned true) example_left in
  sy_answers y !! 1 = Some (mkCommandResult "ok" "" 0) ∧ accounted y 1 (mkCommandResult "ok" "" 0).
Proof.
  intros y. assert (reachable ∅ example_store y) as Hr.
  { eapply reachable_step; [apply st_run, (rn_drained example_left 0); reflexivity|]. apply example_left_reachable. }
  split; [reflexivity|]. exact (proj2 (proj2 (exit_waits_for_verdicts ∅ example_store y Hr eq_refl)) 1 _ eq_refl).
Defined.

Lemma exit_never_stuck_witness :
  sy_run example_draining = RunDraining (Some 0) ∧
  ∃ y', rtc (step false) example_draining y' ∧ sy_run y' = RunReturned true.
Proof.
  split; [reflexivity|]. apply (exit_never_stuck ∅ example_store); [apply example_draining_reachable|discriminate].
Defined.
