(* ===== verification/StopClient.v ===== *)
(** * The client's side of a stop and of a start

    The command that stops a daemon: asking it, reading its verdict, falling back
    to a signal, and seeing its process gone, all from one deadline; and the wait
    of [up --wait-ready] for the processes it was asked for.

    Only the calls take time: each comes with its duration, and the clock is
    passed along.  What the calls return is the script of an execution, one entry
    for each; [None] is a script that ends while the code still waits.  Addresses,
    texts and the removal of the files are left out: an error is a value that has
    what its text is made of. *)

From S2P Require Import Prelude GoStrings RunnerState Lifecycle Teardown.

(** ** The connection *)

(** An event as the client reads it. *)
Inductive frame : Type :=
  | FAck (ack detail : string)
  | FSnapshot (processes : list ProcState)
  | FState (proc : option ProcState)
  | FOther.

(** Source: internal/ipc/client.go:14-17 (ErrRecvTimeout). *)
Inductive recv_error : Type := ErrRecvTimeout | RecvFailed (err : string).

Definition recv_text (e : recv_error) : string :=
  match e with ErrRecvTimeout => "ipc: timed out waiting for event" | RecvFailed err => err end.

(** [write] is the result of the bounded write.
    Source: internal/ipc/client.go:158-169 (SendTimeout). *)
Definition SendTimeout (d : Z) (write : option string) : option string :=
  if (d <=? 0)%Z then Some "send: write budget is exhausted; refusing to write without a deadline" else write.

(** ** The budget *)

(** Source: cmd/proc-compose/helpers.go:334-346 (stopOutcome). *)
Inductive stopOutcome : Type := stopVerified | stopUnverified | stopUnavailable.

(** Source: cmd/proc-compose/helpers.go:348-353 (stopResult). *)
Record stopResult : Type := mkStopResult { sr_outcome : stopOutcome; sr_detail : string }.

(** Source: cmd/proc-compose/helpers.go:355-364 (connectBudget). *)
Definition connectBudget : Z := 2 * Second.
(** Source: cmd/proc-compose/helpers.go:361-363 (exitBudget). *)
Definition exitBudget : Z := 2 * Second.
(** Source: cmd/proc-compose/helpers.go:708-712 (killSettleTimeout). *)
Definition killSettleTimeout : Z := 5 * Second.

(** Source: cmd/proc-compose/helpers.go:714-726 (remainingUntil). *)
Definition remainingUntil (deadline cap now : Z) : Z :=
  let left := (deadline - now)%Z in
  if (left <=? 0)%Z then 0%Z else if (cap <? left)%Z then cap else left.

(** [teardown] is what the session's metadata declares, [None] when it cannot
    be read.
    Source: cmd/proc-compose/helpers.go:432-443 (stopBudget). *)
Definition stopBudget (teardown : option (list string)) (timeout : Z) (explicit : bool) : Z :=
  if explicit then timeout
  else match teardown with Some (_ :: _) => (timeout + TeardownBudget)%Z | _ => timeout end.

(** Source: cmd/proc-compose/helpers.go:445-454 (teardownNotRun). *)
Definition teardownNotRun (teardown : option (list string)) : string :=
  match teardown with
  | Some (_ :: _ as names) => "teardown did not run: " +:+ join ", " names
  | _ => ""
  end.

(** ** Asking for the shutdown *)

(** A call that took [d] returned [r]. *)
Definition timed (A : Type) : Type := Z * A.

(** What the calls of one stop return. *)
Record stop_script : Type := mkStopScript {
  x_dial : timed (option string);
  x_state : timed (option recv_error);
  x_send : timed (option string);
  x_frames : list (timed (res recv_error frame));
  x_term : option string;
  x_kill : option string;
  x_polls : list (timed bool);
  x_settle : list (timed bool);
}.

(** What the daemon's answer to the request says.
    Source: cmd/proc-compose/helpers.go:522-534 (requestShutdown, ack). *)
Definition judge_ack (ack detail : string) : stopResult :=
  if bool_decide (ack = "ok") then mkStopResult stopVerified ""
  else if bool_decide (ack = "partial") then mkStopResult stopUnverified detail
  else if bool_decide (ack = "busy") then mkStopResult stopUnavailable ("daemon is busy: " +:+ detail)
  else mkStopResult stopUnavailable ("daemon rejected the shutdown request: " +:+ detail).

(** Source: cmd/proc-compose/helpers.go:506-535 (requestShutdown, loop). *)
Fixpoint read_verdict (deadline now : Z) (frames : list (timed (res recv_error frame))) : option (stopResult * Z) :=
  if (deadline - now <=? 0)%Z then Some (mkStopResult stopUnverified "no verdict arrived within the stop budget", now)
  else match frames with
       | [] => None
       | (d, Err e) :: _ =>
           Some (mkStopResult stopUnverified ("daemon did not report a shutdown verdict (" +:+ recv_text e +:+ ")"), (now + d)%Z)
       | (d, Ok (FAck ack detail)) :: _ => Some (judge_ack ack detail, (now + d)%Z)
       | (d, Ok _) :: frames => read_verdict deadline (now + d) frames
       end.

(** Source: cmd/proc-compose/helpers.go:456-536 (requestShutdown). *)
Definition requestShutdown (deadline now : Z) (x : stop_script) : option (stopResult * Z) :=
  if (remainingUntil deadline connectBudget now <=? 0)%Z
  then Some (mkStopResult stopUnavailable "no time left in the stop budget to reach the daemon", now)
  else
    let '(d, err) := x_dial x in
    let now := (now + d)%Z in
    match err with
    | Some err => Some (mkStopResult stopUnavailable err, now)
    | None =>
        if (remainingUntil deadline connectBudget now <=? 0)%Z
        then Some (mkStopResult stopUnavailable "no time left in the stop budget to read the daemon's state", now)
        else
          let '(d, err) := x_state x in
          let now := (now + d)%Z in
          match err with
          | Some err => Some (mkStopResult stopUnavailable ("daemon did not send its state on connect (" +:+ recv_text err +:+ ")"), now)
          | None =>
              let writeBy := remainingUntil deadline connectBudget now in
              if (writeBy <=? 0)%Z
              then Some (mkStopResult stopUnavailable "no time left in the stop budget to send the shutdown request", now)
              else
                let '(d, write) := x_send x in
                let now := (now + d)%Z in
                match SendTimeout writeBy write with
                | Some err => Some (mkStopResult stopUnavailable err, now)
                | None => read_verdict deadline now (x_frames x)
                end
          end
    end.

(** ** Seeing the process gone *)

(** Each poll tells whether the process runs, and how long it is until the next
    one. *)
Fixpoint poll_gone (until now : Z) (polls : list (timed bool)) : option (bool * Z) :=
  match polls with
  | [] => None
  | (d, running) :: polls =>
      if negb running then Some (true, now)
      else if (until <=? now)%Z then Some (false, now)
      else poll_gone until (now + d) polls
  end.

(** Source: cmd/proc-compose/helpers.go:728-742 (waitProcessGone). *)
Definition waitProcessGone (timeout now : Z) (polls : list (timed bool)) : option (bool * Z) :=
  poll_gone (now + timeout) now polls.

(** ** The stop *)

Inductive stop_failure : Type :=
  | CleanButRunning
  | TeardownFailed (detail : string)
  | NotFullyVerified (detail : string)
  | UnverifiedRunning (detail : string)
  | SignalFailed (err : string)
  | SignalledUnverified
  | KilledUnverified
  | SurvivedKill.

(** The error, whether the PID and socket files were removed, and the time. *)
Record stop_end : Type := mkStopEnd { se_error : option stop_failure; se_cleaned : bool; se_clock : Z }.

(** Source: cmd/proc-compose/helpers.go:667-706 (signalDaemonUnverified). *)
Definition signalDaemonUnverified (force : bool) (deadline now : Z) (x : stop_script) : option stop_end :=
  if force then
    match x_kill x with
    | Some err => Some (mkStopEnd (Some (SignalFailed err)) false now)
    | None =>
        '(gone, now) ← waitProcessGone (remainingUntil deadline exitBudget now) now (x_polls x);
        Some (if gone : bool then mkStopEnd (Some KilledUnverified) true now else mkStopEnd (Some SurvivedKill) false now)
    end
  else
    match x_term x with
    | Some err => Some (mkStopEnd (Some (SignalFailed err)) false now)
    | None =>
        '(gone, now) ← waitProcessGone (deadline - now) now (x_polls x);
        if gone : bool then Some (mkStopEnd (Some SignalledUnverified) true now)
        else match x_kill x with
             | Some err => Some (mkStopEnd (Some (SignalFailed err)) false now)
             | None =>
                 '(gone, now) ← waitProcessGone killSettleTimeout now (x_settle x);
                 Some (if gone : bool then mkStopEnd (Some KilledUnverified) true now else mkStopEnd (Some SurvivedKill) false now)
             end
    end.

(** Source: cmd/proc-compose/helpers.go:366-416 (stopDaemon). *)
Definition stopDaemon (force : bool) (timeout now : Z) (x : stop_script) : option stop_end :=
  let deadline := (now + timeout)%Z in
  '(r, now) ← requestShutdown deadline now x;
  match sr_outcome r with
  | stopVerified =>
      '(gone, now) ← waitProcessGone (remainingUntil deadline exitBudget now) now (x_polls x);
      Some (if gone : bool then mkStopEnd None true now else mkStopEnd (Some CleanButRunning) false now)
  | stopUnverified =>
      '(gone, now) ← waitProcessGone (remainingUntil deadline exitBudget now) now (x_polls x);
      Some (if gone : bool
            then mkStopEnd (Some (if teardownOnly (sr_detail r) then TeardownFailed (sr_detail r) else NotFullyVerified (sr_detail r))) true now
            else mkStopEnd (Some (UnverifiedRunning (sr_detail r))) false now)
  | stopUnavailable => signalDaemonUnverified force deadline now x
  end.

(** ** Waiting for the processes to be ready *)

(** [minimum] has the generations that count, when the caller gives them. *)
Definition min_generation (minimum : option (gmap string Z)) (name : string) : Z :=
  match minimum with Some m => default 0%Z (m !! name) | None => 0%Z end.

(** Source: cmd/proc-compose/helpers.go:873-887 (waitForProcessesReady, satisfied). *)
Definition satisfied (minimum : option (gmap string Z)) (p : ProcState) : bool :=
  if bool_decide (is_Some minimum) && (ps_Generation p <? min_generation minimum (ps_Name p))%Z then false
  else if bool_decide (ps_State p = "completed") then true
  else if bool_decide (ps_State p = "running") then ps_Ready p
  else false.

(** Source: cmd/proc-compose/helpers.go:889-910 (waitForProcessesReady, check). *)
Definition check_state (want : gset string) (minimum : option (gmap string Z)) (s : gset string * list string) (p : ProcState)
    : gset string * list string :=
  let '(ready, failed) := s in
  if negb (bool_decide (ps_Name p ∈ want)) then (ready, failed)
  else if bool_decide (is_Some minimum) && (ps_Generation p <? min_generation minimum (ps_Name p))%Z then (ready ∖ {[ps_Name p]}, failed)
  else if bool_decide (ps_State p = "failed") then (ready ∖ {[ps_Name p]}, failed ++ [ps_Name p])
  else if satisfied minimum p then (ready ∪ {[ps_Name p]}, failed)
  else (ready ∖ {[ps_Name p]}, failed).

(** Source: cmd/proc-compose/helpers.go:912-922 (waitForProcessesReady, allReady). *)
Definition allReady (want : gset string) (s : gset string * list string) : bool :=
  if 0 <? length s.2 then false else forallb (λ n, bool_decide (n ∈ s.1)) (elements want).

(** An element goes down past the greater ones, last first. *)
Fixpoint sift (x : string) (before : list string) : list string :=
  match before with
  | y :: before' => if bool_decide (str_le y x) then x :: before else y :: sift x before'
  | [] => [x]
  end.

(** [order] is the one in which the map is visited.
    Source: cmd/proc-compose/helpers.go:955-969 (notReadyNames). *)
Definition notReadyNames (order : list string) (ready : gset string) : list string :=
  rev (fold_left (λ before x, sift x before) (base.filter (λ n, n ∉ ready) order) []).

Inductive wait_error : Type :=
  | CannotDial (err : string)
  | WaitTimedOut (names : list string)
  | LostConnection (err : string)
  | ProcessesFailed (names : list string).

(** The states an event has. *)
Definition observed (f : frame) : list ProcState :=
  match f with FSnapshot processes => processes | FState (Some p) => [p] | _ => [] end.

(** Source: cmd/proc-compose/helpers.go:924-952 (waitForProcessesReady, loop). *)
Fixpoint wait_frames (want : gset string) (order : list string) (minimum : option (gmap string Z)) (deadline now : Z)
    (s : gset string * list string) (frames : list (timed (res recv_error frame))) : option (option wait_error) :=
  if (deadline - now <=? 0)%Z then Some (Some (WaitTimedOut (notReadyNames order s.1)))
  else match frames with
       | [] => None
       | (_, Err ErrRecvTimeout) :: _ => Some (Some (WaitTimedOut (notReadyNames order s.1)))
       | (_, Err (RecvFailed err)) :: _ => Some (Some (LostConnection err))
       | (d, Ok f) :: frames =>
           let s := fold_left (check_state want minimum) (observed f) s in
           if 0 <? length s.2 then Some (Some (ProcessesFailed s.2))
           else if allReady want s then Some None
           else wait_frames want order minimum deadline (now + d) s frames
       end.

(** [Some None] is success.
    Source: cmd/proc-compose/helpers.go:846-953 (waitForProcessesReady). *)
Definition waitForProcessesReady (want : gset string) (order : list string) (timeout : Z) (minimum : option (gmap string Z))
    (now : Z) (dial : timed (option string)) (frames : list (timed (res recv_error frame))) : option (option wait_error) :=
  let timeout := if (timeout <=? 0)%Z then (60 * Second)%Z else timeout in
  match dial.2 with
  | Some err => Some (Some (CannotDial err))
  | None => wait_frames want order minimum (now + timeout) (now + dial.1) (∅, []) frames
  end.
