(* ===== verification/StopCommand.v ===== *)
(** * The client's side of a stop and of a start: what is shown

    The command says that a stack was stopped only when its daemon has said so
    and is gone, it stays within its budget, and a start that waits for readiness
    succeeds exactly when every process it waits for is, by what was last heard
    of it, ready. *)

From S2P Require Import Prelude GoStrings ConfigTypes RunnerState Lifecycle Groups Reload Teardown Ipc Stopping Delivery StopClient.

(** ** The budget *)

Lemma remaining_range deadline cap now : (0 ≤ cap)%Z →
  (0 ≤ remainingUntil deadline cap now ≤ Z.max 0 (deadline - now))%Z ∧ (remainingUntil deadline cap now ≤ cap)%Z.
Proof. unfold remainingUntil. repeat case_match; lia. Qed.

(** ** The polls *)

Lemma gone_seen until polls : ∀ now t, poll_gone until now polls = Some (true, t) → ∃ d, (d, false) ∈ polls.
Proof.
  induction polls as [|[d running] polls IH]; intros now t; cbn; [done|]. destruct running; cbn [negb].
  - destruct (until <=? now)%Z; [done|]. intros H. destruct (IH _ _ H) as [d' Hd]. exists d'. by right.
  - intros _. exists d. left.
Qed.

(** The polls come at least [step] and at most [tick] apart. *)
Definition polled (step tick : Z) (polls : list (timed bool)) : Prop := Forall (λ p, (step ≤ p.1 ≤ tick)%Z) polls.

Lemma gone_clock step tick until polls : (0 ≤ step)%Z → polled step tick polls → ∀ now b t,
  poll_gone until now polls = Some (b, t) → (now ≤ t ≤ Z.max now (until + tick))%Z.
Proof.
  intros Hstep Hp. induction Hp as [|[d running] polls Hd Hp IH]; intros now b t; cbn; [done|].
  cbn in Hd. destruct running; cbn [negb]; [|intros [= <- <-]; lia].
  destruct (until <=? now)%Z eqn:Hu; [intros [= <- <-]; lia|]. intros H. apply IH in H. lia.
Qed.

Lemma gone_returns step tick until polls : (0 < step)%Z → polled step tick polls → ∀ now,
  polls ≠ [] → (until - now ≤ step * (Z.of_nat (length polls) - 1))%Z → is_Some (poll_gone until now polls).
Proof.
  intros Hstep Hp. induction Hp as [|[d running] polls Hd Hp IH]; intros now Hne Hlen; cbn; [done|].
  cbn [length fst] in *. destruct running; cbn [negb]; [|by eexists]. destruct (until <=? now)%Z eqn:Hu; [by eexists|].
  apply IH; [intros ->; cbn in Hlen|]; nia.
Qed.

(** ** The verdict that is read *)

(** The first acknowledgment, read before the deadline, with the time at which
    it was read. *)
Inductive first_ack (deadline : Z) : Z → list (timed (res recv_error frame)) → string → string → Z → Prop :=
  | fa_here now d ack detail frames : (now < deadline)%Z →
      first_ack deadline now ((d, Ok (FAck ack detail)) :: frames) ack detail (now + d)
  | fa_later now d f frames ack detail t : (now < deadline)%Z → (∀ a b, f ≠ FAck a b) →
      first_ack deadline (now + d) frames ack detail t → first_ack deadline now ((d, Ok f) :: frames) ack detail t.

Lemma judge_verified ack detail : sr_outcome (judge_ack ack detail) = stopVerified ↔ ack = "ok".
Proof. unfold judge_ack. repeat case_bool_decide; subst; cbn; try done. Qed.

Lemma read_first deadline frames : ∀ now ack detail t, first_ack deadline now frames ack detail t →
  read_verdict deadline now frames = Some (judge_ack ack detail, t).
Proof.
  induction 1 as [now d ack detail frames Hlt|now d f frames ack detail t Hlt Hne _ IH]; cbn.
  - destruct (deadline - now <=? 0)%Z eqn:Hd; [lia|done].
  - destruct (deadline - now <=? 0)%Z eqn:Hd; [lia|]. destruct f as [a b| | |]; [by destruct (Hne a b)|done..].
Qed.

Lemma read_verified deadline frames : ∀ now r t, read_verdict deadline now frames = Some (r, t) →
  sr_outcome r = stopVerified → ∃ detail, first_ack deadline now frames "ok" detail t.
Proof.
  induction frames as [|[d x] frames IH]; intros now r t; cbn [read_verdict]; destruct (deadline - now <=? 0)%Z eqn:Hd; try by intros [= <- <-].
  apply Z.leb_gt in Hd. destruct x as [f|e]; [|by intros [= <- <-]].
  assert ((∀ a b, f ≠ FAck a b) → read_verdict deadline (now + d) frames = Some (r, t) → sr_outcome r = stopVerified →
    ∃ detail, first_ack deadline now ((d, Ok f) :: frames) "ok" detail t) as Hskip.
  { intros Hne Hr Hv. destruct (IH _ _ _ Hr Hv) as [detail Hf]. exists detail. apply fa_later; [lia|done|done]. }
  destruct f as [ack detail| | |]; [|by apply Hskip..].
  intros [= <- <-] ->%judge_verified. exists detail. apply fa_here. lia.
Qed.

(** The request was sent, each of its calls begun with time left. *)
Definition asked (deadline now : Z) (x : stop_script) (t : Z) : Prop :=
  (x_dial x).2 = None ∧ (x_state x).2 = None ∧ (x_send x).2 = None ∧
  (now < deadline)%Z ∧ (now + (x_dial x).1 < deadline)%Z ∧ (now + (x_dial x).1 + (x_state x).1 < deadline)%Z ∧
  t = (now + (x_dial x).1 + (x_state x).1 + (x_send x).1)%Z.

Lemma remaining_none deadline cap now : (0 < cap)%Z → (remainingUntil deadline cap now <=? 0)%Z = true ↔ (deadline ≤ now)%Z.
Proof. unfold remainingUntil. intros H. repeat case_match; lia. Qed.

Lemma remaining_some deadline cap now : (0 < cap)%Z → (remainingUntil deadline cap now <=? 0)%Z = false ↔ (now < deadline)%Z.
Proof. unfold remainingUntil. intros H. repeat case_match; lia. Qed.

Lemma request_cases deadline now x r t : requestShutdown deadline now x = Some (r, t) →
  sr_outcome r = stopUnavailable ∧ (∀ t', ¬ asked deadline now x t') ∨
  ∃ t0, asked deadline now x t0 ∧ read_verdict deadline t0 (x_frames x) = Some (r, t).
Proof.
  unfold requestShutdown. assert (0 < connectBudget)%Z as Hc by done.
  destruct (remainingUntil deadline connectBudget now <=? 0)%Z eqn:H1.
  { intros [= <- <-]. left. apply remaining_none in H1; [|done]. split; [done|]. intros t' (_ & _ & _ & ? & _). lia. }
  apply remaining_some in H1; [|done]. destruct (x_dial x) as [d1 [e1|]] eqn:Hdial.
  { intros [= <- <-]. left. split; [done|]. intros t' (H & _). by rewrite Hdial in H. }
  destruct (remainingUntil deadline connectBudget (now + d1) <=? 0)%Z eqn:H2.
  { intros [= <- <-]. left. apply remaining_none in H2; [|done]. split; [done|]. intros t' (_ & _ & _ & _ & H & _). rewrite Hdial in H. cbn in H. lia. }
  apply remaining_some in H2; [|done]. destruct (x_state x) as [d2 [e2|]] eqn:Hstate.
  { intros [= <- <-]. left. split; [done|]. intros t' (_ & H & _). by rewrite Hstate in H. }
  destruct (remainingUntil deadline connectBudget (now + d1 + d2) <=? 0)%Z eqn:H3.
  { intros [= <- <-]. left. apply remaining_none in H3; [|done]. split; [done|]. intros t' (_ & _ & _ & _ & _ & H & _).
    rewrite Hdial, Hstate in H. cbn in H. lia. }
  unfold SendTimeout. rewrite H3. apply remaining_some in H3; [|done]. destruct (x_send x) as [d3 [e3|]] eqn:Hsend.
  { intros [= <- <-]. left. split; [done|]. intros t' (_ & _ & H & _). by rewrite Hsend in H. }
  intros H. right. exists (now + d1 + d2 + d3)%Z. split; [|done]. unfold asked. rewrite Hdial, Hstate, Hsend. cbn. split_and!; (done || lia).
Qed.

Lemma fallback_fails force deadline now x e : signalDaemonUnverified force deadline now x = Some e →
  is_Some (se_error e) ∧ (se_cleaned e = true → ∃ d, (d, false) ∈ x_polls x ++ x_settle x).
Proof.
  assert (∀ lim n polls b t, polls ⊆ x_polls x ++ x_settle x → poll_gone lim n polls = Some (b, t) → b = true → ∃ d, (d, false) ∈ x_polls x ++ x_settle x) as Hseen.
  { intros lim n polls b t Hsub Hp ->. destruct (gone_seen _ _ _ _ Hp) as [d Hd]. exists d. by apply Hsub. }
  assert (x_polls x ⊆ x_polls x ++ x_settle x) as Hl by (intros ?; rewrite elem_of_app; by left).
  assert (x_settle x ⊆ x_polls x ++ x_settle x) as Hr by (intros ?; rewrite elem_of_app; by right).
  unfold signalDaemonUnverified, waitProcessGone. destruct force.
  - destruct (x_kill x); [intros [= <-]; by split; [eexists|]|]. destruct (poll_gone _ _ _) as [[b t]|] eqn:Hp; cbn; [|done].
    intros [= <-]. destruct b; (split; [by eexists|]); [intros _; exact (Hseen _ _ _ _ _ Hl Hp eq_refl)|done].
  - destruct (x_term x); [intros [= <-]; by split; [eexists|]|]. destruct (poll_gone _ _ (x_polls x)) as [[b t]|] eqn:Hp; cbn; [|done].
    destruct b; [intros [= <-]; split; [by eexists|intros _; exact (Hseen _ _ _ _ _ Hl Hp eq_refl)]|].
    destruct (x_kill x); [intros [= <-]; by split; [eexists|]|]. destruct (poll_gone _ _ (x_settle x)) as [[b t']|] eqn:Hp'; cbn; [|done].
    intros [= <-]. destruct b; (split; [by eexists|]); [intros _; exact (Hseen _ _ _ _ _ Hr Hp' eq_refl)|done].
Qed.

(** The command says that the stack was stopped exactly when its request was
    sent, the first acknowledgment, read before the deadline, was ok, and the
    daemon was then seen gone within what was left; and it removes the daemon's
    files only when the daemon was seen gone, whatever else it says. *)
Theorem stop_success_exact force timeout now x e :
  stopDaemon force timeout now x = Some e →
  (se_error e = None ↔ ∃ t0 t detail,
    asked (now + timeout) now x t0 ∧ first_ack (now + timeout) t0 (x_frames x) "ok" detail t ∧
    waitProcessGone (remainingUntil (now + timeout) exitBudget t) t (x_polls x) = Some (true, se_clock e)) ∧
  (se_cleaned e = true → ∃ d, (d, false) ∈ x_polls x ++ x_settle x).
Proof.
  unfold stopDaemon. destruct (requestShutdown _ _ _) as [[r t]|] eqn:Hreq; cbn; [|done]. unfold waitProcessGone. intros He.
  assert (∀ lim b t', poll_gone lim t (x_polls x) = Some (b, t') → b = true → ∃ d, (d, false) ∈ x_polls x ++ x_settle x) as Hseen.
  { intros lim b t' Hp ->. destruct (gone_seen _ _ _ _ Hp) as [d Hd]. exists d. apply elem_of_app. by left. }
  assert (∀ t0 t1 detail, asked (now + timeout) now x t0 → first_ack (now + timeout) t0 (x_frames x) "ok" detail t1 →
    sr_outcome r = stopVerified ∧ t1 = t) as Hfirst.
  { intros t0 t1 detail Ha Hf. destruct (request_cases _ _ _ _ _ Hreq) as [[_ Hno]|(t0' & Ha' & Hread)]; [by destruct (Hno t0)|].
    assert (t0' = t0) as -> by (destruct Ha as (_ & _ & _ & _ & _ & _ & ->), Ha' as (_ & _ & _ & _ & _ & _ & ->); done).
    pose proof (read_first _ _ _ _ _ _ Hf) as Hr. rewrite Hread in Hr. by injection Hr as -> ->. }
  destruct (sr_outcome r) eqn:Hr.
  - destruct (poll_gone _ _ _) as [[b t']|] eqn:Hp; cbn in He; [|done]. injection He as <-. split; [|destruct b; [intros _; exact (Hseen _ _ _ Hp eq_refl)|done]].
    destruct b; (split; [|intros (t0 & t1 & detail & Ha & Hf & Hw)]); try done.
    + intros _. destruct (request_cases _ _ _ _ _ Hreq) as [[? _]|(t0 & Ha & Hread)]; [congruence|].
      destruct (read_verified _ _ _ _ _ Hread Hr) as [detail Hf]. by exists t0, t, detail.
    + destruct (Hfirst _ _ _ Ha Hf) as [_ ->]. congruence.
  - destruct (poll_gone _ _ _) as [[b t']|] eqn:Hp; cbn in He; [|done]. injection He as <-. split; [|destruct b; [intros _; exact (Hseen _ _ _ Hp eq_refl)|done]].
    split; [by destruct b|]. intros (t0 & t1 & detail & Ha & Hf & Hw). by destruct (Hfirst _ _ _ Ha Hf).
  - destruct (fallback_fails _ _ _ _ _ He) as [[err Herr] Hclean]. split; [|done].
    split; [congruence|]. intros (t0 & t1 & detail & Ha & Hf & Hw). by destruct (Hfirst _ _ _ Ha Hf).
Qed.

(** ** The time it takes *)

(** A read takes no longer than it was given. *)
Fixpoint frames_in_time (deadline now : Z) (frames : list (timed (res recv_error frame))) : Prop :=
  match frames with
  | (d, _) :: frames => (now < deadline → 0 ≤ d ≤ deadline - now)%Z ∧ frames_in_time deadline (now + d) frames
  | [] => True
  end.

(** The reads end with an acknowledgment, with an error or at the deadline. *)
Fixpoint conclusive (deadline now : Z) (frames : list (timed (res recv_error frame))) : Prop :=
  (deadline ≤ now)%Z ∨
  match frames with
  | (_, Err _) :: _ | (_, Ok (FAck _ _)) :: _ => True
  | (d, Ok _) :: frames => conclusive deadline (now + d) frames
  | [] => False
  end.

Lemma read_clock deadline frames : ∀ now r t, frames_in_time deadline now frames →
  read_verdict deadline now frames = Some (r, t) → (now ≤ t ≤ Z.max now deadline)%Z.
Proof.
  induction frames as [|[d x] frames IH]; intros now r t; cbn [read_verdict frames_in_time]; destruct (deadline - now <=? 0)%Z eqn:Hd;
    try (intros _ [= <- <-]; lia). intros [Hin Hrest].
  apply Z.leb_gt in Hd. assert (now < deadline)%Z as Hlt by lia. specialize (Hin Hlt).
  destruct x as [[ack detail| | |]|e]; [intros [= <- <-]; lia|intros Hr; apply IH in Hr; [lia|done]..|intros [= <- <-]; lia].
Qed.

Lemma read_returns deadline frames : ∀ now, conclusive deadline now frames → is_Some (read_verdict deadline now frames).
Proof.
  induction frames as [|[d x] frames IH]; intros now; cbn [read_verdict conclusive]; destruct (deadline - now <=? 0)%Z eqn:Hd; try by eexists.
  - intros [?|[]]. lia.
  - intros [?|H]; [lia|]. destruct x as [[ack detail| | |]|e]; [by eexists|by apply IH..|by eexists].
Qed.

(** What the calls of a stop are documented to do with their budgets; the polls
    come at least [pause] and at most [tick] apart. *)
Record in_budget (pause tick deadline now : Z) (x : stop_script) : Prop := mkInBudget {
  ib_dial : (0 ≤ (x_dial x).1 ≤ remainingUntil deadline connectBudget now)%Z;
  ib_state : let t := (now + (x_dial x).1)%Z in (0 ≤ (x_state x).1 ≤ remainingUntil deadline connectBudget t)%Z;
  ib_send : let t := (now + (x_dial x).1 + (x_state x).1)%Z in (0 ≤ (x_send x).1 ≤ remainingUntil deadline connectBudget t)%Z;
  ib_frames : let t := (now + (x_dial x).1 + (x_state x).1 + (x_send x).1)%Z in
    frames_in_time deadline t (x_frames x) ∧ conclusive deadline t (x_frames x);
  ib_polls : polled pause tick (x_polls x) ∧ polled pause tick (x_settle x);
}.

Lemma request_in_time pause tick deadline now x : in_budget pause tick deadline now x →
  ∃ r t, requestShutdown deadline now x = Some (r, t) ∧ (now ≤ t ≤ Z.max now deadline)%Z.
Proof.
  intros [H1 H2 H3 [H4 H5] _]. cbn zeta in *. unfold requestShutdown. assert (0 ≤ connectBudget)%Z as Hc by done.
  pose proof (remaining_range deadline _ now Hc) as [R1 _]. pose proof (remaining_range deadline _ (now + (x_dial x).1) Hc) as [R2 _].
  pose proof (remaining_range deadline _ (now + (x_dial x).1 + (x_state x).1) Hc) as [R3 _].
  case_match; [eexists _, _; split; [done|lia]|]. destruct (x_dial x) as [d1 [e1|]]; cbn [fst] in *; [eexists _, _; split; [done|lia]|].
  case_match; [eexists _, _; split; [done|lia]|]. destruct (x_state x) as [d2 [e2|]]; cbn [fst] in *; [eexists _, _; split; [done|lia]|].
  case_match; [eexists _, _; split; [done|lia]|]. destruct (x_send x) as [d3 e3]; cbn [fst] in *.
  destruct (SendTimeout _ _); [eexists _, _; split; [done|lia]|].
  destruct (read_returns _ _ _ H5) as [[r t] Hr]. exists r, t. split; [done|]. pose proof (read_clock _ _ _ _ _ H4 Hr). lia.
Qed.

(** The polls are enough for any wait of [timeout] or less. *)
Definition enough (pause timeout : Z) (polls : list (timed bool)) : Prop :=
  polls ≠ [] ∧ (timeout ≤ pause * (Z.of_nat (length polls) - 1))%Z.

Lemma wait_in_time pause tick timeout budget now polls : (0 < pause ≤ tick)%Z → polled pause tick polls → enough pause budget polls →
  (timeout ≤ budget)%Z → ∃ b t, waitProcessGone timeout now polls = Some (b, t) ∧ (now ≤ t ≤ Z.max now (now + timeout + tick))%Z.
Proof.
  intros Hp Hpolls [Hne Hlen] Hle. unfold waitProcessGone.
  destruct (gone_returns pause tick (now + timeout) polls ltac:(lia) Hpolls now Hne ltac:(lia)) as [[b t] Hg].
  exists b, t. split; [done|]. eapply gone_clock; [|exact Hpolls|exact Hg]. lia.
Qed.

(** A killed daemon is waited for beyond the deadline. *)
Definition settling (force : bool) (e : stop_end) : bool :=
  negb force && match se_error e with Some KilledUnverified | Some SurvivedKill => true | _ => false end.

Lemma fallback_in_time pause tick force deadline now budget x : (0 < pause ≤ tick)%Z →
  polled pause tick (x_polls x) → polled pause tick (x_settle x) → enough pause budget (x_polls x) → enough pause killSettleTimeout (x_settle x) →
  (deadline - now ≤ budget)%Z → (0 ≤ budget)%Z →
  ∃ e, signalDaemonUnverified force deadline now x = Some e ∧
    (se_clock e ≤ Z.max now deadline + tick + if settling force e then killSettleTimeout + tick else 0)%Z.
Proof.
  intros Hpt Hp Hs Hep Hes Hb Hb0. unfold signalDaemonUnverified. destruct force.
  - destruct (x_kill x); [eexists; split; [done|]; cbn; lia|].
    pose proof (remaining_range deadline exitBudget now ltac:(done)) as [R _].
    destruct (wait_in_time pause tick (remainingUntil deadline exitBudget now) budget now _ Hpt Hp Hep) as (b & t & Hw & Ht); [lia|].
    rewrite Hw. cbn. eexists. split; [done|]. destruct b; cbn; lia.
  - destruct (x_term x); [eexists; split; [done|]; cbn; lia|].
    destruct (wait_in_time pause tick (deadline - now) budget now _ Hpt Hp Hep Hb) as (b & t & Hw & Ht). rewrite Hw. cbn.
    destruct b; [eexists; split; [done|]; cbn; lia|]. destruct (x_kill x); [eexists; split; [done|]; cbn; lia|].
    destruct (wait_in_time pause tick killSettleTimeout killSettleTimeout t _ Hpt Hs Hes) as (b & t' & Hw' & Ht'); [lia|].
    rewrite Hw'. cbn. eexists. split; [done|]. assert (0 ≤ killSettleTimeout)%Z by done. destruct b; cbn; lia.
Qed.

(** C13: a stop returns, and within its budget: as long as the connection's calls
    keep to the budgets they are given, it takes no longer than its timeout and
    one poll, whatever the daemon answers or does not; only the wait for a
    daemon that ignored the termination signal and was killed comes on top. *)
Theorem stop_in_time pause tick force timeout now x :
  (0 < pause ≤ tick)%Z → in_budget pause tick (now + timeout) now x →
  enough pause (Z.max 0 timeout) (x_polls x) → enough pause killSettleTimeout (x_settle x) →
  ∃ e, stopDaemon force timeout now x = Some e ∧
    (se_clock e ≤ now + Z.max 0 timeout + tick + if settling force e then killSettleTimeout + tick else 0)%Z.
Proof.
  intros Hpt Hin Hep Hes. destruct (request_in_time _ _ _ _ _ Hin) as (r & t & Hr & Ht). destruct Hin as [_ _ _ _ [Hp Hs]].
  unfold stopDaemon. rewrite Hr. cbn.
  pose proof (remaining_range (now + timeout) exitBudget t ltac:(done)) as [R _].
  destruct (wait_in_time pause tick (remainingUntil (now + timeout) exitBudget t) (Z.max 0 timeout) t _ Hpt Hp Hep) as (b & t' & Hw & Ht'); [lia|].
  destruct (sr_outcome r).
  - rewrite Hw. cbn. eexists. split; [done|]. unfold settling. destruct b; cbn; rewrite andb_false_r; lia.
  - rewrite Hw. cbn. eexists. split; [done|]. unfold settling. destruct b; cbn; [destruct (teardownOnly _)|]; cbn; rewrite andb_false_r; lia.
  - destruct (fallback_in_time pause tick force (now + timeout) t (Z.max 0 timeout) x) as (e & He & Hc); try done; [lia..|].
    exists e. split; [done|]. lia.
Qed.

(** ** Waiting for readiness *)

(** What an observation counts for. *)
Definition counted (want : gset string) (minimum : option (gmap string Z)) (p : ProcState) : bool :=
  bool_decide (ps_Name p ∈ want) && negb (bool_decide (is_Some minimum) && (ps_Generation p <? min_generation minimum (ps_Name p))%Z).

(** The last that was heard of a process. *)
Definition last_heard (name : string) (obs : list ProcState) : option ProcState := last (base.filter (λ p, ps_Name p = name) obs).

Definition is_ready (minimum : option (gmap string Z)) (name : string) (obs : list ProcState) : Prop :=
  ∃ p, last_heard name obs = Some p ∧ satisfied minimum p = true.

Definition failures (want : gset string) (minimum : option (gmap string Z)) (obs : list ProcState) : list string :=
  ps_Name <$> base.filter (λ p, counted want minimum p = true ∧ ps_State p = "failed") obs.

Definition folded (want : gset string) (minimum : option (gmap string Z)) (obs : list ProcState) : gset string * list string :=
  fold_left (check_state want minimum) obs (∅, []).

Lemma satisfied_min minimum p : satisfied minimum p = true → bool_decide (is_Some minimum) && (ps_Generation p <? min_generation minimum (ps_Name p))%Z = false.
Proof. unfold satisfied. by destruct (_ && _). Qed.

Lemma check_ready want minimum s p n : n ∈ (check_state want minimum s p).1 ↔
  if bool_decide (n = ps_Name p ∧ n ∈ want) then satisfied minimum p = true else n ∈ s.1.
Proof.
  destruct s as [ready failed]. unfold check_state. case_bool_decide as Hw; cbn [negb fst].
  - assert (satisfied minimum p = true → ps_State p ≠ "failed") as Hsf.
    { unfold satisfied. destruct (_ && _); [done|]. intros H E. by rewrite E in H. }
    pose proof (satisfied_min minimum p) as Hsm. destruct (bool_decide_reflect (n = ps_Name p ∧ n ∈ want)) as [Hn|Hn].
    + destruct Hn as [-> _]. destruct (bool_decide (is_Some minimum) && _); [cbn; set_solver|].
      destruct (bool_decide_reflect (ps_State p = "failed")); [cbn; set_solver|]. destruct (satisfied minimum p); cbn; set_solver.
    + assert (n ≠ ps_Name p) as Hne by (intros ->; by destruct Hn). destruct (bool_decide (is_Some minimum) && _); [cbn; set_solver|].
      destruct (bool_decide (ps_State p = "failed")); [cbn; set_solver|]. destruct (satisfied minimum p); cbn; set_solver.
  - rewrite bool_decide_false; [done|]. by intros [-> ?].
Qed.

Lemma check_failed want minimum s p :
  (check_state want minimum s p).2 = s.2 ++ (if counted want minimum p && bool_decide (ps_State p = "failed") then [ps_Name p] else []).
Proof.
  destruct s as [ready failed]. unfold check_state, counted. case_bool_decide; cbn; [|by rewrite app_nil_r].
  destruct (bool_decide (is_Some minimum) && _); cbn; [by rewrite app_nil_r|]. case_bool_decide; cbn; [done|]. rewrite app_nil_r. by destruct (satisfied minimum p).
Qed.

Lemma last_heard_snoc name obs p : last_heard name (obs ++ [p]) = if bool_decide (ps_Name p = name) then Some p else last_heard name obs.
Proof.
  unfold last_heard. rewrite filter_app, filter_cons, filter_nil. case_bool_decide; case_decide; try done; [by rewrite last_snoc|by rewrite app_nil_r].
Qed.

Lemma folded_ready want minimum obs n : n ∈ want → n ∈ (folded want minimum obs).1 ↔ is_ready minimum n obs.
Proof.
  intros Hn. induction obs as [|p obs IH] using rev_ind; [split; [by intros ?%elem_of_empty|by intros (p & [=] & _)]|].
  unfold folded. rewrite fold_left_app. cbn. rewrite check_ready. unfold is_ready. rewrite last_heard_snoc. fold (folded want minimum obs).
  destruct (decide (ps_Name p = n)) as [<-|Hne].
  - rewrite !bool_decide_true by done. split; [intros H; by exists p|by intros (p' & [= <-] & H)].
  - rewrite !bool_decide_false by (done || by intros [? _]). exact IH.
Qed.

Lemma folded_failed want minimum obs : (folded want minimum obs).2 = failures want minimum obs.
Proof.
  induction obs as [|p obs IH] using rev_ind; [done|]. unfold folded. rewrite fold_left_app. cbn. rewrite check_failed. fold (folded want minimum obs).
  rewrite IH. unfold failures. rewrite filter_app, fmap_app, filter_cons, filter_nil. f_equal.
  destruct (counted want minimum p) eqn:E; cbn [andb]; [|rewrite decide_False; [done|by intros [? _]]].
  case_bool_decide; [by rewrite decide_True|]. rewrite decide_False; [done|]. by intros [_ ?].
Qed.

Lemma failures_app want minimum obs obs' : failures want minimum (obs ++ obs') = failures want minimum obs ++ failures want minimum obs'.
Proof. unfold failures. by rewrite filter_app, fmap_app. Qed.

Lemma all_ready_spec want minimum obs : allReady want (folded want minimum obs) = true ↔
  failures want minimum obs = [] ∧ ∀ n, n ∈ want → is_ready minimum n obs.
Proof.
  unfold allReady. rewrite folded_failed. destruct (failures want minimum obs) as [|f fs]; cbn; [|split; [done|by intros [? _]]].
  rewrite forallb_forall. split.
  - intros H. split; [done|]. intros n Hn. apply (proj1 (folded_ready want minimum obs n Hn)). specialize (H n). rewrite bool_decide_eq_true in H. apply H.
    rewrite <-list_elem_of_In. by apply elem_of_elements.
  - intros [_ H] n Hin%list_elem_of_In. rewrite elem_of_elements in Hin. apply bool_decide_true. by apply (proj2 (folded_ready want minimum obs n Hin)), H.
Qed.

(** The events of a first part of the script, each read with time left. *)
Inductive heard (deadline : Z) : Z → list (timed (res recv_error frame)) → list ProcState → Prop :=
  | hd_one now d f frames : (now < deadline)%Z → heard deadline now ((d, Ok f) :: frames) (observed f)
  | hd_more now d f frames obs : (now < deadline)%Z → heard deadline (now + d) frames obs →
      heard deadline now ((d, Ok f) :: frames) (observed f ++ obs).

Lemma wait_frames_exact want order minimum deadline frames : ∀ now before,
  failures want minimum before = [] →
  wait_frames want order minimum deadline now (folded want minimum before) frames = Some None ↔
  ∃ obs, heard deadline now frames obs ∧ failures want minimum (before ++ obs) = [] ∧ ∀ n, n ∈ want → is_ready minimum n (before ++ obs).
Proof.
  induction frames as [|[d x] frames IH]; intros now before Hb; cbn [wait_frames]; destruct (deadline - now <=? 0)%Z eqn:Hd.
  - split; [done|]. intros (obs & Hh & _). inversion Hh; lia.
  - split; [done|]. intros (obs & Hh & _). inversion Hh.
  - split; [done|]. intros (obs & Hh & _). inversion Hh; lia.
  - apply Z.leb_gt in Hd. destruct x as [f|[|e]]; [|by split; [|intros (obs & Hh & _); inversion Hh]..].
    assert (fold_left (check_state want minimum) (observed f) (folded want minimum before) = folded want minimum (before ++ observed f)) as ->
      by (unfold folded; by rewrite fold_left_app).
    rewrite folded_failed. destruct (failures want minimum (before ++ observed f)) as [|n ns] eqn:Hf; cbn [length Nat.ltb Nat.leb].
    + destruct (allReady want (folded want minimum (before ++ observed f))) eqn:Hall.
      * split; [|done]. intros _. apply all_ready_spec in Hall. exists (observed f). split; [|done]. apply hd_one. lia.
      * rewrite (IH _ _ Hf). split.
        -- intros (obs & Hh & H1 & H2). exists (observed f ++ obs). rewrite (assoc_L (++)). split; [|done]. apply hd_more; [lia|done].
        -- intros (obs & Hh & H1 & H2). inversion Hh; subst; [|exists obs0; by rewrite <-(assoc_L (++))].
           assert (allReady want (folded want minimum (before ++ observed f)) = true) by by apply all_ready_spec. congruence.
    + split; [done|]. intros (obs & Hh & H1 & _). rewrite failures_app, Hb in Hf. cbn in Hf.
      inversion Hh; subst; rewrite !failures_app, Hb, Hf in H1; done.
Qed.

(** The clock at which the wait ends. *)
Definition wait_deadline (timeout now : Z) : Z := (now + if (timeout <=? 0)%Z then 60 * Second else timeout)%Z.

(** A start that waits for readiness succeeds exactly when it should: the
    daemon was reached, and some first part of its events, each read before the
    deadline, has no failure of a process that is waited for, and shows each of
    them ready by what was last heard of it: completed, or running with its
    readiness latched, in a generation that counts.  An earlier readiness that
    was taken back does not count, and one that came before a failure does not
    hide it. *)
Theorem wait_ready_exact want order timeout minimum now dial frames :
  waitForProcessesReady want order timeout minimum now dial frames = Some None ↔
  dial.2 = None ∧ ∃ obs, heard (wait_deadline timeout now) (now + dial.1) frames obs ∧
    failures want minimum obs = [] ∧ ∀ n, n ∈ want → is_ready minimum n obs.
Proof.
  unfold waitForProcessesReady, wait_deadline. destruct dial as [d [err|]]; cbn [fst snd]; [split; [done|by intros [? _]]|].
  rewrite (wait_frames_exact want order minimum _ frames (now + d) []) by done. cbn [app]. naive_solver.
Qed.

(** ** The names of an error *)

Lemma sift_perm x before : sift x before ≡ₚ x :: before.
Proof. induction before as [|y before IH]; cbn; [done|]. case_bool_decide; [done|]. rewrite IH. apply Permutation_swap. Qed.

Lemma sift_sorted x before : StronglySorted (flip str_le) before → StronglySorted (flip str_le) (sift x before).
Proof.
  induction 1 as [|y before Hs IH Hall]; cbn; [by repeat constructor|]. case_bool_decide as Hle.
  - constructor; [by constructor|]. constructor; [done|]. eapply Forall_impl; [exact Hall|]. intros z Hz. cbn in *. by etrans.
  - constructor; [done|]. rewrite sift_perm. constructor; [|done]. cbn. by destruct (total str_le x y).
Qed.

Lemma notReadyNames_spec order ready : notReadyNames order ready = sort_strings (base.filter (λ n, n ∉ ready) order).
Proof.
  unfold notReadyNames. set (l := base.filter _ order). clearbody l.
  assert (∀ l acc, StronglySorted (flip str_le) acc → StronglySorted (flip str_le) (fold_left (λ before x, sift x before) l acc) ∧
    fold_left (λ before x, sift x before) l acc ≡ₚ l ++ acc) as H.
  { clear l. intros l. induction l as [|x l IH]; intros acc Hacc; cbn; [done|]. destruct (IH (sift x acc)) as [H1 H2]; [by apply sift_sorted|].
    split; [done|]. rewrite H2, sift_perm. by rewrite Permutation_middle. }
  destruct (H l [] ltac:(constructor)) as [H1 H2]. rewrite app_nil_r in H2.
  apply (StronglySorted_unique str_le); [|apply sort_strings_sorted|by rewrite <-Permutation_rev, H2, sort_strings_perm].
  set (k := fold_left _ l []) in *. clearbody k. clear H2 H. induction H1 as [|x k Hs IH Hall]; cbn; [constructor|].
  apply StronglySorted_app_2; [|done|by repeat constructor]. intros a b Ha Hb%list_elem_of_singleton. subst b.
  rewrite Forall_forall in Hall. apply Hall. by rewrite Permutation_rev.
Qed.

(** ** From the daemon to the user *)

Lemma first_ack_in deadline now frames ack detail t : first_ack deadline now frames ack detail t → ∃ d, (d, Ok (FAck ack detail)) ∈ frames.
Proof. induction 1 as [now d ack detail frames _|now d f frames ack detail t _ _ _ [d' IH]]; [exists d; left|exists d'; by right]. Qed.

(** The acknowledgments that the client reads are what the handler of its
    connection has written in full. *)
Definition reads_answer (y : stopping) (id : nat) (frames : list (timed (res recv_error frame))) : Prop :=
  ∀ d ack detail, (d, Ok (FAck ack detail)) ∈ frames → ∃ generation, sy_conns y !! id = Some (Answered (ack, detail, generation) None).

(** C12: what the command says of the stack is what happened to it.  Whatever the
    other clients, the processes, the reloads, the network and the timers do:
    when a stop that the daemon took ends with success, then the sweep of the
    daemon left no problem, every teardown process passed, and the daemon was
    seen gone. *)
Theorem stop_ok_end_to_end procs store y id res force timeout now x e :
  reachable procs store y → sy_answers y !! id = Some res → reads_answer y id (x_frames x) →
  stopDaemon force timeout now x = Some e → se_error e = None →
  (∃ s results, sy_outcome y = Some (s, results) ∧ ShutdownResult s = None ∧ TeardownError results = None) ∧
  ∃ d, (d, false) ∈ x_polls x.
Proof.
  intros Hy Hres Hreads Hstop Hnone. destruct (stop_success_exact _ _ _ _ _ Hstop) as [[Hok _] _].
  destruct (Hok Hnone) as (t0 & t & detail & _ & Hf & Hgone). split; [|by eapply gone_seen].
  destruct (first_ack_in _ _ _ _ _ _ Hf) as [d Hin]. destruct (Hreads _ _ _ Hin) as [generation Hc].
  destruct (system_reachable _ _ _ Hy) as [Hv _ Hd]. destruct (dl_replied _ Hd id res Hres) as (c & Hc' & Hr).
  rewrite Hc in Hc'. injection Hc' as <-. specialize (Hr eq_refl). injection Hr as Hstatus _ _.
  by apply (truthful_ok _ res); [apply (vo_answers _ Hv id)|].
Qed.

(** ** Witnesses *)

Definition example_pause : Z := 50000000.
Definition example_script : stop_script :=
  mkStopScript (1000%Z, None) (1000%Z, None) (1000%Z, None) [(1000%Z, Ok FOther); (1000%Z, Ok (FAck "ok" ""))] None None
    [(example_pause, true); (example_pause, false); (example_pause, false)] (replicate 101 (example_pause, false)).

Lemma stop_in_time_witness :
  ∃ e, stopDaemon false (2 * example_pause) 0 example_script = Some e ∧ se_error e = None ∧
    (se_clock e ≤ 0 + Z.max 0 (2 * example_pause) + example_pause + if settling false e then killSettleTimeout + example_pause else 0)%Z.
Proof.
  destruct (stop_in_time example_pause example_pause false (2 * example_pause) 0 example_script) as (e & He & Ht).
  - done.
  - split; [by vm_compute|by vm_compute|by vm_compute| |].
    + split; [vm_compute; repeat split; discriminate|by right; right].
    + split; [repeat constructor; by vm_compute|apply Forall_replicate; by vm_compute].
  - split; [done|by vm_compute].
  - split; [done|by vm_compute].
  - exists e. split; [done|]. split; [|done]. vm_compute in He. injection He as <-. reflexivity.
Defined.

Lemma stop_ok_end_to_end_witness :
  ∃ e, stopDaemon false (2 * example_pause) 0 example_script = Some e ∧ se_error e = None ∧
    ∃ s results, sy_outcome example_left = Some (s, results) ∧ ShutdownResult s = None ∧ TeardownError results = None.
Proof.
  assert (stopDaemon false (2 * example_pause) 0 example_script = Some (mkStopEnd None true 50005000)) as He by reflexivity.
  eexists. split; [exact He|]. split; [reflexivity|].
  refine (proj1 (stop_ok_end_to_end ∅ example_store example_left 1 (mkCommandResult "ok" "" 0) false (2 * example_pause) 0 example_script _
    example_left_reachable eq_refl _ He eq_refl)).
  intros d ack detail Hin. apply elem_of_cons in Hin as [Hin|Hin%list_elem_of_singleton]; [done|].
  injection Hin as _ -> ->. exists 0%Z. reflexivity.
Defined.

Definition example_state_of (name state : string) (ready : bool) (generation : Z) : ProcState :=
  mkIPCState name state "service" ready 1 0 0 0 0 0 generation "" None [] "" "" None None.

(** Readiness is taken back, and then comes again. *)
Example wait_ready_example :
  let up ready := FState (Some (example_state_of "api" "running" ready 1)) in
  waitForProcessesReady {["api"]} ["api"] 10 None 0 (0%Z, None)
    [(1%Z, Ok (FSnapshot [example_state_of "api" "running" true 1; example_state_of "api" "restarting" false 1])); (1%Z, Ok FOther); (1%Z, Ok (up true))]
  = Some None ∧
  waitForProcessesReady {["api"]} ["api"] 10 None 0 (0%Z, None)
    [(1%Z, Ok (FSnapshot [example_state_of "api" "failed" false 1])); (1%Z, Ok (up true))]
  = Some (Some (ProcessesFailed ["api"])).
Proof. split; reflexivity. Qed.
