(* ===== verification/ConfigDiagnose.v ===== *)
(** * The diagnosis of a configuration

    [config check]: the structural checks on the YAML document, every unknown key
    with its place, and the first rule the loader finds violated, with the place
    of the deepest node on its path.

    The YAML library is an argument: what parsing a file gives (a store of nodes,
    where an alias points to another node, and may point back), and what decoding
    it into the configuration reports.  The configuration's type is the one the
    code reflects on. *)

From S2P Require Import Prelude GoStrings ConfigTypes ConfigLoad.

(** ** Diagnostics *)

(** Source: internal/config/explain.go:58-80 (diagnosticHints). *)
Definition diagnosticHints : list (string * string) :=
  [
   (code_string CodeReadError, "check that the config path exists and is readable");
   (code_string CodeYAMLSyntax, "fix the YAML syntax near the reported line");
   (code_string CodeUnknownField, "remove the key or correct its spelling; run proc-compose config schema for accepted keys");
   (code_string CodeInvalidType, "change the value to the type the schema declares");
   (code_string CodeNoProcesses, "define at least one entry under processes (or a merge section)");
   (code_string CodeInvalidMerge, "use either merge.client/server/api_prefixes or merge.routes; merge.client, merge.server, merge.port and a route's port target are 1-65535; merge.client_process must name a service; an upstream whose PORT (env, env_file or ports.http) differs from the merge port is refused");
   (code_string CodeInvalidProcessName, "use [-A-Za-z0-9._] and start/end with an alphanumeric character");
   (code_string CodeMissingCmd, "add a cmd: the shell command that runs this process");
   (code_string CodeInvalidRestart, "use never, on-failure, or always");
   (code_string CodeInvalidMode, "use service, task, or teardown");
   (code_string CodeTaskIncompatible, "remove the field, or change the mode: tasks and teardown processes cannot use it");
   (code_string CodeInvalidValue, "use an accepted value: ready_timeout >= -1 (-1 = no limit); max_restarts, shutdown_timeout and health_interval >= 0 (a teardown's shutdown_timeout <= " +:+ itoa MaxTeardownShutdownTimeout +:+ "); max_restarts and health_action: restart need restart: on-failure or always; health_interval and health_action need health_when; foreign_listener needs an http or tcp probe");
   (code_string CodeInvalidReadyWhen, "set exactly one of ready_when.http, ready_when.tcp, ready_when.cmd, or ready_when.log (a valid Go regex); health_when takes http, tcp, or cmd");
   (code_string CodeInvalidPort, "`.` is not allowed in port names; the other characters follow the process-name rules; preferred ports are 0-65535 (0 = ephemeral)");
   (code_string CodeEnvFile, "create the env_file or fix its path (relative paths resolve from the config directory); a line may be at most 1 MiB");
   (code_string CodeSelfDependency, "remove the process from its own depends_on");
   (code_string CodeUnknownDependency, "name an existing process in depends_on");
   (code_string CodeDependencyCycle, "remove one depends_on edge to break the cycle");
   (code_string CodeInvalidResource, "resource labels must be unique, non-empty, single-line, and at most 256 bytes");
   (code_string CodeTeardownDependency, "remove the teardown process from depends_on: it runs only after the stack stops");
   (code_string CodeReservedProcessName, "merge-port is reserved for the proxy the merge section generates; rename the process")
  ].

Definition hint (code : string) : string :=
  match List.find (λ ch, bool_decide (ch.1 = code)) diagnosticHints with Some ch => ch.2 | None => "" end.

(** A text, or the text of the loader's error. *)
Inductive message : Type := Text (s : string) | OfLoad (e : load_error).

(** Source: internal/config/explain.go:127-135 (Diagnostic). *)
Record Diagnostic : Type := mkDiagnostic {
  d_Code : string;
  d_Path : string;
  d_Line : Z;
  d_Column : Z;
  d_Message : message;
  d_Hint : string;
}.

#[export] Instance load_error_eq_dec : EqDecision load_error.
Proof. solve_decision. Defined.
#[export] Instance message_eq_dec : EqDecision message.
Proof. solve_decision. Defined.
#[export] Instance Diagnostic_eq_dec : EqDecision Diagnostic.
Proof. solve_decision. Defined.

(** Source: internal/config/explain.go:137-144 (Diagnostics). *)
Record Diagnostics : Type := mkDiagnostics {
  ds_SchemaVersion : Z;
  ds_Kind : string;
  ds_ConfigPath : string;
  ds_Valid : bool;
  ds_Diagnostics : list Diagnostic;
}.

(** ** YAML documents *)

Inductive yaml_kind : Type := DocumentNode | SequenceNode | MappingNode | ScalarNode | AliasNode.

#[export] Instance yaml_kind_eq_dec : EqDecision yaml_kind.
Proof. solve_decision. Defined.

(** A node of the library; the children and the target of an alias are indices
    into the store of the document. *)
Record yaml_node : Type := mkNode {
  yn_Kind : yaml_kind;
  yn_Tag : string;
  yn_ShortTag : string;
  yn_Value : string;
  yn_Alias : option nat;
  yn_Content : list nat;
  yn_Line : Z;
  yn_Column : Z;
}.

(** ** The type that is reflected on *)

(** A field has its Go name and its yaml tag. *)
Inductive go_type : Type :=
  | TBasic
  | TPointer (t : go_type)
  | TSlice (t : go_type)
  | TMap (t : go_type)
  | TStruct (name : string) (fields : list (string * string * go_type)).

(** Source: internal/config/config.go:24-29 (ReadyWhen, tags). *)
Definition ReadyWhenType : go_type :=
  TStruct "ReadyWhen" [("HTTP", "http,omitempty", TBasic); ("TCP", "tcp,omitempty", TBasic); ("Cmd", "cmd,omitempty", TBasic);
    ("Log", "log,omitempty", TBasic)].

(** Source: internal/config/config.go:64-82 (Process, tags). *)
Definition ProcessType : go_type :=
  TStruct "Process" [("Cmd", "cmd", TBasic); ("Dir", "dir,omitempty", TBasic); ("EnvFile", "env_file,omitempty", TBasic);
    ("Env", "env,omitempty", TMap TBasic); ("Mode", "mode,omitempty", TBasic); ("Restart", "restart,omitempty", TBasic);
    ("MaxRestarts", "max_restarts,omitempty", TBasic); ("ShutdownTimeout", "shutdown_timeout,omitempty", TBasic);
    ("ReadyWhen", "ready_when,omitempty", TPointer ReadyWhenType); ("ReadyTimeout", "ready_timeout,omitempty", TBasic);
    ("DependsOn", "depends_on,omitempty", TSlice TBasic); ("Ports", "ports,omitempty", TMap TBasic);
    ("HealthWhen", "health_when,omitempty", TPointer ReadyWhenType); ("HealthInterval", "health_interval,omitempty", TBasic);
    ("HealthAction", "health_action,omitempty", TBasic); ("ForeignListener", "foreign_listener,omitempty", TBasic)].

(** Source: internal/config/config.go:115-122 (Merge, tags). *)
Definition MergeType : go_type :=
  TStruct "Merge" [("Client", "client,omitempty", TBasic); ("Server", "server,omitempty", TBasic); ("Port", "port,omitempty", TBasic);
    ("ApiPrefixes", "api_prefixes,omitempty", TSlice TBasic); ("Routes", "routes,omitempty", TSlice TBasic);
    ("ClientProcess", "client_process,omitempty", TBasic)].

(** Source: internal/config/config.go:124-128 (Config, tags). *)
Definition ConfigType : go_type :=
  TStruct "Config" [("Merge", "merge,omitempty", TPointer MergeType); ("Processes", "processes", TMap ProcessType);
    ("Resources", "resources,omitempty", TSlice TBasic)].

(** The part of a tag before its first comma. *)
Fixpoint before_comma (s : string) : string :=
  match s with
  | EmptyString => EmptyString
  | String c s => if bool_decide (c = ","%char) then EmptyString else String c (before_comma s)
  end.

Section diagnose.
(** [strings.ToLower], the store of the document. *)
Context (ToLower : string → string) (doc : list yaml_node).

Definition add_field {A} (m : gmap string A) (f : string * string * A) : gmap string A :=
  let '(goName, tag, t) := f in
  let name := before_comma tag in
  if bool_decide (name = "-") then m
  else <[if bool_decide (name = "") then ToLower goName else name := t]> m.

(** The fields by key; the value is what belongs to the field.
    Source: internal/config/explain.go:344-362 (yamlFields). *)
Definition yamlFields {A} (fields : list (string * string * A)) : gmap string A := fold_left add_field fields ∅.

Definition node_at (n : nat) : yaml_node := default (mkNode DocumentNode "" "" "" None [] 0 0) (doc !! n).

(** An alias stands for the node it points to. *)
Definition follow (n : nat) : nat :=
  match yn_Kind (node_at n), yn_Alias (node_at n) with AliasNode, Some target => target | _, _ => n end.

(** ** Effective entries *)

(** Source: internal/config/explain.go:314-318 (isMergeKey). *)
Definition isMergeKey (key : nat) : bool :=
  let k := node_at key in
  bool_decide (yn_Kind k = ScalarNode) && bool_decide (yn_Value k = "<<") &&
  (bool_decide (yn_Tag k = "") || bool_decide (yn_Tag k = "!") || bool_decide (yn_ShortTag k = "!!merge")).

(** Source: internal/config/explain.go:320-342 (mergedMappings). *)
Definition mergedMappings (value : nat) : list nat :=
  let value := follow value in
  match yn_Kind (node_at value) with
  | MappingNode => [value]
  | SequenceNode => List.filter (λ item, bool_decide (yn_Kind (node_at item) = MappingNode)) (follow <$> yn_Content (node_at value))
  | _ => []
  end.

(** The keys and values of a mapping. *)
Fixpoint entry_pairs (content : list nat) : list (nat * nat) :=
  match content with key :: value :: content => (key, value) :: entry_pairs content | _ => [] end.

(** Every other child, the keys. *)
Fixpoint key_nodes (content : list nat) : list nat :=
  match content with key :: _ :: content => key :: key_nodes content | [key] => [key] | [] => [] end.

(** The entries so far, the keys that are taken, and the value of the last merge
    key.
    Source: internal/config/explain.go:281-296 (effectiveEntries, own keys). *)
Definition own_key (s : list (nat * nat) * option (gset string) * option nat) (entry : nat * nat)
    : list (nat * nat) * option (gset string) * option nat :=
  let '(entries, seen, merge) := s in
  let '(key, value) := entry in
  if isMergeKey key then (entries, seen, Some value)
  else match seen with
       | Some taken => if bool_decide (yn_Value (node_at key) ∈ taken) then s
                       else (entries ++ [entry], Some ({[yn_Value (node_at key)]} ∪ taken), merge)
       | None => (entries ++ [entry], None, merge)
       end.

(** [active] has the mappings that are being expanded; a fuel of one more than
    the nodes of the document is enough.
    Source: internal/config/explain.go:272-310 (effectiveEntries, visit). *)
Fixpoint visit (fuel : nat) (active : list nat) (m : nat) (s : list (nat * nat) * option (gset string))
    : list (nat * nat) * option (gset string) :=
  match fuel with
  | O => s
  | S fuel =>
      if bool_decide (m ∈ active) then s
      else
        let '(entries, seen, merge) := fold_left own_key (entry_pairs (yn_Content (node_at m))) (s, None) in
        match merge with
        | None => (entries, seen)
        | Some value =>
            let seen := match seen with
                        | None => Some (list_to_set ((λ k, yn_Value (node_at k)) <$> key_nodes (yn_Content (node_at m))))
                        | taken => taken
                        end in
            fold_left (λ s merged, visit fuel (m :: active) merged s) (mergedMappings value) (entries, seen)
        end
  end.

(** Source: internal/config/explain.go:262-312 (effectiveEntries). *)
Definition effectiveEntries (node : nat) : list (nat * nat) := (visit (S (length doc)) [] node ([], None)).1.

(** ** The walk *)

(** The nodes by path, and the diagnostics. *)
Record walked : Type := mkWalked { wk_nodes : gmap string nat; wk_found : list Diagnostic }.

Definition add (code path : string) (line column : Z) (m : message) (s : walked) : walked :=
  mkWalked (wk_nodes s) (wk_found s ++ [mkDiagnostic code path line column m (hint code)]).

Definition index (path : list seg) (n : nat) (s : walked) : walked :=
  mkWalked (<[FormatPath path := n]> (wk_nodes s)) (wk_found s).

Definition walker : Type := nat → list seg → walked → walked.

(** Source: internal/config/explain.go:230-234 (walkNode, child). *)
Definition child (walk : walker) (path : list seg) (segment : seg) (n : nat) (s : walked) : walked :=
  walk n (path ++ [segment]) (index (path ++ [segment]) n s).

(** Source: internal/config/explain.go:236-249 (walkNode, struct). *)
Definition walk_struct (name : string) (fields : gmap string walker) : walker := λ node path s,
  let node := follow node in
  if bool_decide (yn_Kind (node_at node) = MappingNode) then
    fold_left (λ s entry,
      let key := node_at entry.1 in
      match fields !! yn_Value key with
      | None => add CodeUnknownField (FormatPath (path ++ [SKey (yn_Value key)])) (yn_Line key) (yn_Column key)
                  (Text ("field " +:+ yn_Value key +:+ " not found in type config." +:+ name)) s
      | Some walk => child walk path (SKey (yn_Value key)) entry.2 s
      end) (effectiveEntries node) s
  else s.

(** Source: internal/config/explain.go:250-254 (walkNode, map). *)
Definition walk_map (walk : walker) : walker := λ node path s,
  let node := follow node in
  if bool_decide (yn_Kind (node_at node) = MappingNode)
  then fold_left (λ s entry, child walk path (SKey (yn_Value (node_at entry.1))) entry.2 s) (effectiveEntries node) s
  else s.

(** Source: internal/config/explain.go:255-258 (walkNode, slice). *)
Definition walk_slice (walk : walker) : walker := λ node path s,
  let node := follow node in
  if bool_decide (yn_Kind (node_at node) = SequenceNode)
  then fold_left (λ s item, child walk path (SIdx (Z.of_nat item.1)) item.2 s) (imap pair (yn_Content (node_at node))) s
  else s.

(** Source: internal/config/explain.go:218-260 (walkNode). *)
Fixpoint walkNode (t : go_type) : walker :=
  match t with
  | TBasic => λ _ _ s, s
  | TPointer t => walkNode t
  | TStruct name fields => walk_struct name (yamlFields (List.map (λ f, (f.1, walkNode f.2)) fields))
  | TMap t => walk_map (walkNode t)
  | TSlice t => walk_slice (walkNode t)
  end.

(** ** Places *)

(** The prefixes of the path, the longest first.
    Source: internal/config/explain.go:366-370 (locate, loop). *)
Fixpoint locate_from (nodes : gmap string nat) (path : list seg) (n : nat) : Z * Z :=
  match nodes !! FormatPath (take n path) with
  | Some node => (yn_Line (node_at node), yn_Column (node_at node))
  | None => match n with O => (0%Z, 0%Z) | S n => locate_from nodes path n end
  end.

(** Source: internal/config/explain.go:364-372 (locate). *)
Definition locate (nodes : gmap string nat) (path : list seg) : Z * Z := locate_from nodes path (length path).

(** [order] is the one in which the index is visited.
    Source: internal/config/explain.go:374-382 (pathAtLine). *)
Definition pathAtLine (order : list (string * nat)) (line : Z) : string :=
  fold_left (λ best pn, if (yn_Line (node_at pn.2) =? line)%Z && (String.length best <? String.length pn.1) then pn.1 else best) order "".

End diagnose.

(** ** The text of a decoder's error *)

Fixpoint digits_prefix (s : string) : string * string :=
  match s with
  | String c s' => if is_digit c then let '(ds, rest) := digits_prefix s' in (String c ds, rest) else (EmptyString, s)
  | EmptyString => (EmptyString, EmptyString)
  end.

(** Up to the end of the line. *)
Fixpoint rest_of_line (s : string) : string :=
  match s with
  | String c s => if bool_decide (c = chr 10) then EmptyString else String c (rest_of_line s)
  | EmptyString => EmptyString
  end.

Fixpoint drop_chars (n : nat) (s : string) : string :=
  match n, s with O, _ => s | S n, String _ s => drop_chars n s | S _, EmptyString => EmptyString end.

(** The leftmost match, with its two groups.
    Source: internal/config/explain.go:146-146 (yamlLineRe). *)
Fixpoint yaml_line (s : string) : option (string * string) :=
  let here :=
    if has_prefix "line " s then
      let '(ds, rest) := digits_prefix (drop_chars 5 s) in
      if negb (bool_decide (ds = "")) && has_prefix ": " rest then Some (ds, rest_of_line (drop_chars 2 rest)) else None
    else None in
  match here with
  | Some m => Some m
  | None => match s with String _ s => yaml_line s | EmptyString => None end
  end.

(** The value of [strconv.Atoi] when its error is ignored. *)
Definition atoi_value (ds : string) : Z := match parse_digits 0 ds with Some n => Z.min n max_int | None => 0%Z end.

(** ** Diagnose *)

(** What decoding the document into the configuration reports: nothing, the
    errors of single values, or one that is not about values. *)
Inductive decoded : Type := Decoded | TypeErrors (errors : list string) | DecodeFails (err : string).

Definition literal (code : string) (line : Z) (text : string) : Diagnostic := mkDiagnostic code "" line 0 (Text text) (hint code).

(** The error of one value.
    Source: internal/config/explain.go:190-199 (Diagnose, type errors). *)
Definition type_error (doc : list yaml_node) (order : list (string * nat)) (text : string) : Diagnostic :=
  match yaml_line text with
  | Some (line, rest) =>
      mkDiagnostic CodeInvalidType (pathAtLine doc order (atoi_value line)) (atoi_value line) 0 (Text rest) (hint CodeInvalidType)
  | None => literal CodeInvalidType 0 text
  end.

(** The error of the loader.
    Source: internal/config/explain.go:205-213 (Diagnose, load). *)
Definition load_diagnostic (doc : list yaml_node) (nodes : gmap string nat) (e : load_error) : Diagnostic :=
  match e with
  | LoadInvalid v =>
      let '(line, column) := locate doc nodes (ve_Path v) in
      mkDiagnostic (ve_Code v) (FormatPath (ve_Path v)) line column (OfLoad e) (hint (ve_Code v))
  | _ => mkDiagnostic CodeInvalid "" 0 0 (OfLoad e) (hint CodeInvalid)
  end.

(** [read] is the reading of the file, [parsed] its document with the root, if it
    has one, [order] the one in which the index is visited, and [loaded] the
    result of [Load] on the same path.
    Source: internal/config/explain.go:148-216 (Diagnose). *)
Definition diagnose (ToLower : string → string) (path : string) (read : res string string)
    (parsed : res string (list yaml_node * option nat)) (decode : decoded)
    (order : gmap string nat → list (string * nat)) (loaded : res load_error Config) : list Diagnostic :=
  match read with
  | Err err => [literal CodeReadError 0 ("cannot read " +:+ path +:+ ": " +:+ err)]
  | Ok _ =>
      match parsed with
      | Err err => [literal CodeYAMLSyntax (match yaml_line err with Some (line, _) => atoi_value line | None => 0%Z end) err]
      | Ok (_, None) => [literal CodeNoProcesses 0 ("no processes defined in " +:+ path)]
      | Ok (doc, Some root) =>
          match decode with
          | DecodeFails err => [literal CodeInvalidType 0 err]
          | _ =>
              let s := walkNode ToLower doc ConfigType root [] (mkWalked {["" := root]} []) in
              let found := wk_found s ++
                match decode with TypeErrors errors => type_error doc (order (wk_nodes s)) <$> errors | _ => [] end in
              if negb (bool_decide (found = [])) then found
              else match loaded with
                   | Err e => [load_diagnostic doc (wk_nodes s) e]
                   | Ok _ => []
                   end
          end
      end
  end.

(** Source: internal/config/explain.go:152-158 (Diagnose, result). *)
Definition Diagnose (ToLower : string → string) (path : string) (read : res string string)
    (parsed : res string (list yaml_node * option nat)) (decode : decoded)
    (order : gmap string nat → list (string * nat)) (loaded : res load_error Config) : Diagnostics :=
  let found := diagnose ToLower path read parsed decode order loaded in
  mkDiagnostics 1 "config.diagnostics" path (bool_decide (found = [])) found.
