(* ===== verification/Located.v ===== *)
(** * The diagnosis of a configuration: what is shown

    A configuration is called valid exactly when the loader accepts it and its
    document has no unknown key; every unknown key is reported; and a rule that
    the loader finds violated is placed at the deepest node there is on its path.
    Two paths may have one text, and then the place may be the other's. *)

From S2P Require Import Prelude GoStrings ConfigTypes ConfigLoad ConfigDiagnose.

(** ** The fuel of the expansion *)

Section located.
Context (ToLower : string → string) (doc : list yaml_node).

Notation node_at := (node_at doc).
Notation follow := (follow doc).
Notation effectiveEntries := (effectiveEntries doc).

Lemma mapping_valid n : yn_Kind (node_at n) = MappingNode → n < length doc.
Proof. unfold ConfigDiagnose.node_at. destruct (doc !! n) eqn:E; [intros _; by eapply lookup_lt_Some|done]. Qed.

Lemma merged_mapping value m : m ∈ mergedMappings doc value → yn_Kind (node_at m) = MappingNode.
Proof.
  unfold mergedMappings. destruct (yn_Kind (node_at (follow value))) eqn:E; try by intros ?%elem_of_nil.
  - intros Hin%list_elem_of_In. apply filter_In in Hin as [_ Hm]. by apply bool_decide_eq_true in Hm.
  - by intros ->%list_elem_of_singleton.
Qed.

Lemma fold_left_ext {A B} (f g : A → B → A) l : (∀ a b, b ∈ l → f a b = g a b) → ∀ a, fold_left f l a = fold_left g l a.
Proof.
  induction l as [|b l IH]; intros H a; cbn; [done|]. rewrite (H a b) by left. apply IH. intros a' b' Hin. apply H. by right.
Qed.

(** The mappings being expanded are nodes of the document, each once. *)
Lemma visit_fuel f1 : ∀ f2 active m s, NoDup active → (∀ n, n ∈ active → n < length doc) → yn_Kind (node_at m) = MappingNode →
  length doc < f1 + length active → length doc < f2 + length active → visit doc f1 active m s = visit doc f2 active m s.
Proof.
  assert (∀ active, NoDup active → (∀ n, n ∈ active → n < length doc) → length active ≤ length doc) as Hle.
  { intros active Hnd Hlt. rewrite <-(length_seq (length doc) 0). apply submseteq_length, NoDup_submseteq; [done|].
    intros n Hn. apply elem_of_seq. specialize (Hlt n Hn). lia. }
  induction f1 as [|f1 IH]; intros f2 active m s Hnd Hlt Hm H1 H2; [specialize (Hle active Hnd Hlt); lia|].
  destruct f2 as [|f2]; [specialize (Hle active Hnd Hlt); lia|]. cbn [visit]. case_bool_decide as Hin; [done|].
  destruct (fold_left (own_key doc) _ _) as [[entries seen] [value|]]; [|done].
  apply fold_left_ext. intros s' m' Hm'%merged_mapping. apply IH; [by constructor| |done|cbn; lia|cbn; lia].
  intros n [->|Hn]%elem_of_cons; [by apply mapping_valid|by apply Hlt].
Qed.

(** More fuel expands no more. *)
Lemma effectiveEntries_enough node fuel : yn_Kind (node_at node) = MappingNode → length doc < fuel →
  effectiveEntries node = (visit doc fuel [] node ([], None)).1.
Proof. intros Hm Hf. unfold ConfigDiagnose.effectiveEntries. f_equal. apply visit_fuel; [by apply NoDup_nil_2|by intros n ?%elem_of_nil|done|cbn; lia|cbn; lia]. Qed.

(** ** Where the walk goes *)

(** From a value of a type at a node, a path leads to a value of another type at
    another node. *)
Inductive reaches : go_type → nat → list seg → go_type → nat → Prop :=
  | re_here t n : reaches t n [] t n
  | re_pointer t n p t' n' : reaches t n p t' n' → reaches (TPointer t) n p t' n'
  | re_field name fields n key value t p t' n' :
      yn_Kind (node_at (follow n)) = MappingNode → (key, value) ∈ effectiveEntries (follow n) →
      yamlFields ToLower fields !! yn_Value (node_at key) = Some t → reaches t value p t' n' →
      reaches (TStruct name fields) n (SKey (yn_Value (node_at key)) :: p) t' n'
  | re_key n key value t p t' n' :
      yn_Kind (node_at (follow n)) = MappingNode → (key, value) ∈ effectiveEntries (follow n) → reaches t value p t' n' →
      reaches (TMap t) n (SKey (yn_Value (node_at key)) :: p) t' n'
  | re_item n i item t p t' n' :
      yn_Kind (node_at (follow n)) = SequenceNode → yn_Content (node_at (follow n)) !! i = Some item → reaches t item p t' n' →
      reaches (TSlice t) n (SIdx (Z.of_nat i) :: p) t' n'.

(** A key that is no field of the struct the path leads to. *)
Definition unknown_key (t : go_type) (n : nat) (p : list seg) (name : string) (key : nat) : Prop :=
  ∃ fields n' value, reaches t n p (TStruct name fields) n' ∧ yn_Kind (node_at (follow n')) = MappingNode ∧
    (key, value) ∈ effectiveEntries (follow n') ∧ yamlFields ToLower fields !! yn_Value (node_at key) = None.

Definition unknown_diagnostic (p : list seg) (name : string) (key : nat) : Diagnostic :=
  let k := node_at key in
  mkDiagnostic CodeUnknownField (FormatPath (p ++ [SKey (yn_Value k)])) (yn_Line k) (yn_Column k)
    (Text ("field " +:+ yn_Value k +:+ " not found in type config." +:+ name)) (hint CodeUnknownField).

(** ** What a part of the walk adds *)

Record adds (s s' : walked) (P : Diagnostic → Prop) (Q : string → nat → Prop) : Prop := mkAdds {
  ad_found : ∀ d, d ∈ wk_found s' ↔ d ∈ wk_found s ∨ P d;
  ad_nodes : ∀ k n, wk_nodes s' !! k = Some n → wk_nodes s !! k = Some n ∨ Q k n;
  ad_indexed : ∀ k, is_Some (wk_nodes s' !! k) ↔ is_Some (wk_nodes s !! k) ∨ ∃ n, Q k n;
}.

Lemma adds_nothing s (P : Diagnostic → Prop) (Q : string → nat → Prop) : (∀ d, ¬ P d) → (∀ k n, ¬ Q k n) → adds s s P Q.
Proof. intros HP HQ. split; [intros d; specialize (HP d); tauto|intros k n H; by left|intros k; split; [by left|intros [?|[n ?]]; [done|by destruct (HQ k n)]]]. Qed.

Lemma adds_iff s s' (P P' : Diagnostic → Prop) (Q Q' : string → nat → Prop) : (∀ d, P d ↔ P' d) → (∀ k n, Q k n ↔ Q' k n) → adds s s' P Q → adds s s' P' Q'.
Proof.
  intros HP HQ [H1 H2 H3]. split; [intros d; by rewrite H1, HP|intros k n H; rewrite <-HQ; by apply H2|].
  intros k. rewrite H3. by setoid_rewrite HQ.
Qed.

Lemma adds_trans s s1 s2 P1 P2 Q1 Q2 : adds s s1 P1 Q1 → adds s1 s2 P2 Q2 →
  adds s s2 (λ d, P1 d ∨ P2 d) (λ k n, Q1 k n ∨ Q2 k n).
Proof.
  intros [A1 A2 A3] [B1 B2 B3]. split.
  - intros d. rewrite B1, A1. tauto.
  - intros k n [H|H]%B2; [apply A2 in H as [H|H]; auto|auto].
  - intros k. rewrite B3, A3. naive_solver.
Qed.

Lemma adds_fold {A} (f : walked → A → walked) (P : A → Diagnostic → Prop) (Q : A → string → nat → Prop) l :
  (∀ s a, a ∈ l → adds s (f s a) (P a) (Q a)) →
  ∀ s, adds s (fold_left f l s) (λ d, ∃ a, a ∈ l ∧ P a d) (λ k n, ∃ a, a ∈ l ∧ Q a k n).
Proof.
  induction l as [|a l IH]; intros H s; cbn.
  - apply adds_nothing; [by intros d (a & ?%elem_of_nil & _)|by intros k n (a & ?%elem_of_nil & _)].
  - eapply adds_iff; [| |eapply adds_trans; [apply H; left|apply IH; intros s' a' Hin; apply H; by right]].
    + intros d. setoid_rewrite elem_of_cons. naive_solver.
    + intros k n. setoid_rewrite elem_of_cons. naive_solver.
Qed.

Lemma adds_index path n s P Q s' : adds (index path n s) s' P Q → adds s s' P (λ k n', (k = FormatPath path ∧ n' = n) ∨ Q k n').
Proof.
  intros [H1 H2 H3]. split; [done| |].
  - intros k n' [H|H]%H2; [|by right; right]. cbn in H. apply lookup_insert_Some in H as [[<- <-]|[_ H]]; [by right; left|by left].
  - intros k. rewrite H3. cbn. rewrite lookup_insert_is_Some'. naive_solver.
Qed.

Definition walk_adds (t : go_type) (n : nat) (path : list seg) (s s' : walked) : Prop :=
  adds s s' (λ d, ∃ p name key, unknown_key t n p name key ∧ d = unknown_diagnostic (path ++ p) name key)
    (λ k n', ∃ p t', p ≠ [] ∧ reaches t n p t' n' ∧ k = FormatPath (path ++ p)).

Lemma reaches_nil t n t' n' : reaches t n [] t' n' → n' = n.
Proof. remember [] as p eqn:Hp. induction 1; try done. by apply IHreaches. Qed.

(** One child: its own node, and what its walk adds. *)
Lemma child_adds t walk path segment n s : (∀ n path s, walk_adds t n path s (walk n path s)) →
  adds s (child walk path segment n s)
    (λ d, ∃ p name key, unknown_key t n p name key ∧ d = unknown_diagnostic (path ++ segment :: p) name key)
    (λ k n', ∃ p t', reaches t n p t' n' ∧ k = FormatPath (path ++ segment :: p)).
Proof.
  intros Hw. unfold child. eapply adds_iff; [| |apply adds_index, Hw].
  - intros d. by setoid_rewrite <-(assoc_L (++)).
  - intros k n'. setoid_rewrite <-(assoc_L (++)). cbn. split.
    + intros [[-> ->]|(p & t' & _ & Hr & ->)]; [exists [], t; by split; [constructor|]|by exists p, t'].
    + intros (p & t' & Hr & ->). destruct p as [|sg p]; [|right; by exists (sg :: p), t'].
      left. apply reaches_nil in Hr as ->. done.
Qed.

(** Types, with what is shown of them shown of the types of their fields. *)
Lemma go_type_nested (P : go_type → Prop) :
  P TBasic → (∀ t, P t → P (TPointer t)) → (∀ t, P t → P (TSlice t)) → (∀ t, P t → P (TMap t)) →
  (∀ name fields, Forall (λ f, P f.2) fields → P (TStruct name fields)) → ∀ t, P t.
Proof.
  intros HB HP HS HM HT. fix IH 1. intros [|t|t|t|name fields]; [done|by apply HP|by apply HS|by apply HM|].
  apply HT. induction fields as [|[f t] fields IHf]; constructor; [apply IH|exact IHf].
Qed.

(** The walker of a key is the one of its field's type. *)
Lemma yamlFields_map (fields : list (string * string * go_type)) (key : string) :
  yamlFields ToLower (List.map (λ f, (f.1, walkNode ToLower doc f.2)) fields) !! key =
  walkNode ToLower doc <$> (yamlFields ToLower fields !! key).
Proof.
  unfold yamlFields. assert (∀ fields m m', (∀ k, m' !! k = walkNode ToLower doc <$> (m !! k)) → ∀ k,
    fold_left (add_field ToLower) (List.map (λ f, (f.1, walkNode ToLower doc f.2)) fields) m' !! k =
    walkNode ToLower doc <$> (fold_left (add_field ToLower) fields m !! k)) as H; [|by apply H; intros k; rewrite !lookup_empty].
  clear fields. intros fields. induction fields as [|[[goName tag] t] fields IH]; intros m m' Hm k; cbn; [done|]. apply IH. intros k'.
  case_bool_decide; [done|]. set (nm := if bool_decide _ then _ else _). destruct (decide (nm = k')) as [->|Hne].
  - by rewrite !lookup_insert_eq.
  - rewrite !lookup_insert_ne by done. apply Hm.
Qed.

Lemma yamlFields_type (fields : list (string * string * go_type)) (P : go_type → Prop) key t :
  Forall (λ f, P f.2) fields → yamlFields ToLower fields !! key = Some t → P t.
Proof.
  unfold yamlFields. intros HF. assert (∀ m, (∀ k t, m !! k = Some t → P t) → ∀ k t,
    fold_left (add_field ToLower) fields m !! k = Some t → P t) as H; [|apply H; by intros k' t'].
  induction HF as [|[[goName tag] t'] fields Hf _ IH]; intros m Hm k t0; cbn; [by apply Hm|]. apply IH. intros k' t1.
  case_bool_decide; [by apply Hm|]. rewrite lookup_insert_Some. intros [[_ <-]|[_ ?]]; [exact Hf|by eapply Hm].
Qed.

(** The walk of a type reports every unknown key below a node, and nothing else,
    and indexes every node it reaches. *)
Definition walks (t : go_type) : Prop := ∀ n path s, walk_adds t n path s (walkNode ToLower doc t n path s).

Lemma walks_map t : walks t → walks (TMap t).
Proof.
  intros Ht n path s. unfold walk_adds. cbn [walkNode]. unfold walk_map. case_bool_decide as Hk.
  - eapply adds_iff; [| |apply (adds_fold _ (λ entry d, ∃ p name key, unknown_key t entry.2 p name key ∧
      d = unknown_diagnostic (path ++ SKey (yn_Value (node_at entry.1)) :: p) name key) (λ entry k n', ∃ p t', reaches t entry.2 p t' n' ∧
      k = FormatPath (path ++ SKey (yn_Value (node_at entry.1)) :: p))); intros s' entry _; by apply child_adds].
    + intros d. split.
      * intros ([key value] & Hin & p & name & key' & (fields & n' & value' & Hr & Hu) & ->). eexists _, name, key'. split; [|done].
        exists fields, n', value'. split; [by eapply re_key|done].
      * intros (p & name & key' & (fields & n' & value' & Hr & Hu) & ->). inversion Hr; subst. eexists (_, _). split; [done|].
        eexists _, name, key'. split; [by exists fields, n', value'|done].
    + intros k n'. split.
      * intros ([key value] & Hin & p & t' & Hr & ->). eexists _, t'. split; [|split; [by eapply re_key|done]]. done.
      * intros (p & t' & Hne & Hr & ->). inversion Hr; subst; [done|]. eexists (_, _). split; [done|]. eexists _, t'. by split.
  - apply adds_nothing.
    + intros d (p & name & key & (fields & n' & value' & Hr & _) & _). by inversion Hr.
    + intros k n' (p & t' & Hne & Hr & _). by inversion Hr.
Qed.

Lemma walks_slice t : walks t → walks (TSlice t).
Proof.
  intros Ht n path s. unfold walk_adds. cbn [walkNode]. unfold walk_slice. case_bool_decide as Hk.
  - eapply adds_iff; [| |apply (adds_fold _ (λ item d, ∃ p name key, unknown_key t item.2 p name key ∧
      d = unknown_diagnostic (path ++ SIdx (Z.of_nat item.1) :: p) name key) (λ item k n', ∃ p t', reaches t item.2 p t' n' ∧
      k = FormatPath (path ++ SIdx (Z.of_nat item.1) :: p))); intros s' item _; by apply child_adds].
    + intros d. split.
      * intros ([i item] & (i' & x & [= <- <-] & Hi)%elem_of_lookup_imap & p & name & key' & (fields & n' & value' & Hr & Hu) & ->). eexists _, name, key'. split; [|done].
        exists fields, n', value'. split; [by eapply re_item|done].
      * intros (p & name & key' & (fields & n' & value' & Hr & Hu) & ->). inversion Hr; subst. eexists (_, _). split; [apply elem_of_lookup_imap; by eexists _, _|].
        eexists _, name, key'. split; [by exists fields, n', value'|done].
    + intros k n'. split.
      * intros ([i item] & (i' & x & [= <- <-] & Hi)%elem_of_lookup_imap & p & t' & Hr & ->). eexists _, t'. split; [|split; [by eapply re_item|done]]. done.
      * intros (p & t' & Hne & Hr & ->). inversion Hr; subst; [done|]. eexists (_, _). split; [apply elem_of_lookup_imap; by eexists _, _|]. eexists _, t'. by split.
  - apply adds_nothing.
    + intros d (p & name & key & (fields & n' & value' & Hr & _) & _). by inversion Hr.
    + intros k n' (p & t' & Hne & Hr & _). by inversion Hr.
Qed.

Lemma walks_pointer t : walks t → walks (TPointer t).
Proof.
  intros Ht n path s. cbn [walkNode]. eapply adds_iff; [| |apply Ht].
  - intros d. split; intros (p & name & key & (fields & n' & value & Hr & Hu) & ->); exists p, name, key; (split; [|done]);
      exists fields, n', value; (split; [|done]); [by apply re_pointer|by inversion Hr].
  - intros k n'. split; intros (p & t' & Hne & Hr & ->); exists p, t'; [by split; [|split; [apply re_pointer|]]|].
    inversion Hr; subst; [done|by split].
Qed.

Lemma walks_struct name fields : Forall (λ f, walks f.2) fields → walks (TStruct name fields).
Proof.
  intros HF n path s. unfold walk_adds. cbn [walkNode]. unfold walk_struct. case_bool_decide as Hk.
  - eapply adds_iff; [| |apply (adds_fold _
      (λ entry d, match yamlFields ToLower fields !! yn_Value (node_at entry.1) with
                  | None => d = unknown_diagnostic path name entry.1
                  | Some t => ∃ p name key, unknown_key t entry.2 p name key ∧ d = unknown_diagnostic (path ++ SKey (yn_Value (node_at entry.1)) :: p) name key
                  end)
      (λ entry k n', ∃ t, yamlFields ToLower fields !! yn_Value (node_at entry.1) = Some t ∧
         ∃ p t', reaches t entry.2 p t' n' ∧ k = FormatPath (path ++ SKey (yn_Value (node_at entry.1)) :: p)))].
    + intros d. split.
      * intros ([key value] & Hin & Hd). cbn [fst snd] in Hd. destruct (yamlFields ToLower fields !! _) as [t|] eqn:E.
        -- destruct Hd as (p & name' & key' & (fields' & n' & value' & Hr & Hu) & ->). eexists _, name', key'. split; [|done].
           exists fields', n', value'. split; [by eapply re_field|done].
        -- exists [], name, key. rewrite app_nil_r. split; [|done]. exists fields, n, value. by split; [constructor|].
      * intros (p & name' & key' & (fields' & n' & value' & Hr & Hm & Hin & Hu) & ->). inversion Hr; subst.
        -- exists (key', value'). split; [done|]. cbn. by rewrite Hu, app_nil_r.
        -- eexists (_, _). split; [done|]. cbn. match goal with H : yamlFields _ _ !! _ = Some _ |- _ => rewrite H end.
           eexists _, name', key'. split; [by exists fields', n', value'|done].
    + intros k n'. split.
      * intros ([key value] & Hin & t & Ht & p & t' & Hr & ->). eexists _, t'. split; [|split; [by eapply re_field|done]]. done.
      * intros (p & t' & Hne & Hr & ->). inversion Hr; subst; [done|]. eexists (_, _). split; [done|]. eexists. split; [done|]. eexists _, t'. by split.
    + intros s' [key value] _. cbn [fst snd]. rewrite yamlFields_map. destruct (yamlFields ToLower fields !! _) as [t|] eqn:E; cbn.
      * eapply adds_iff; [| |apply (child_adds t); exact (yamlFields_type fields walks _ t HF E)]; [done|]. intros k n'. naive_solver.
      * split; cbn; [intros d; by rewrite elem_of_app, list_elem_of_singleton|by left|].
        intros k. split; [by left|]. intros [?|(? & ? & [=] & _)]. done.
  - apply adds_nothing.
    + intros d (p & name' & key & (fields' & n' & value' & Hr & Hm & _) & _). inversion Hr; subst; done.
    + intros k n' (p & t' & Hne & Hr & _). by inversion Hr.
Qed.

Lemma walks_all t : walks t.
Proof.
  induction t using go_type_nested; [|by apply walks_pointer|by apply walks_slice|by apply walks_map|by apply walks_struct].
  intros n path s. apply adds_nothing.
  - intros d (p & name & key & (fields & n' & value' & Hr & _) & _). by inversion Hr.
  - intros k n' (p & t' & Hne & Hr & _). by inversion Hr.
Qed.
End located.

(** ** The index *)

Section index.
Context (ToLower : string → string) (doc : list yaml_node) (root : nat).

Definition walk_config : walked := walkNode ToLower doc ConfigType root [] (mkWalked {["" := root]} []).

Lemma walked_found d : d ∈ wk_found walk_config ↔
  ∃ p name key, unknown_key ToLower doc ConfigType root p name key ∧ d = unknown_diagnostic doc p name key.
Proof.
  unfold walk_config. rewrite (ad_found _ _ _ _ (walks_all ToLower doc ConfigType root [] _)). cbn. rewrite elem_of_nil. naive_solver.
Qed.

Lemma walked_empty : wk_found walk_config = [] ↔ ∀ p name key, ¬ unknown_key ToLower doc ConfigType root p name key.
Proof.
  split.
  - intros He p name key Hu. assert (unknown_diagnostic doc p name key ∈ wk_found walk_config) as Hin by (apply walked_found; by exists p, name, key).
    rewrite He in Hin. by apply elem_of_nil in Hin.
  - intros H. destruct (wk_found walk_config) as [|d l] eqn:E; [done|]. assert (d ∈ wk_found walk_config) as Hin by (rewrite E; left).
    apply walked_found in Hin as (p & name & key & Hu & _). by destruct (H p name key).
Qed.

Lemma indexed_reached k n : wk_nodes walk_config !! k = Some n → ∃ p t, reaches ToLower doc ConfigType root p t n ∧ FormatPath p = k.
Proof.
  intros [H|(p & t & _ & Hr & ->)]%(ad_nodes _ _ _ _ (walks_all ToLower doc ConfigType root [] _)); [|by exists p, t].
  cbn in H. apply lookup_singleton_Some in H as [<- <-]. exists [], ConfigType. by split; [constructor|].
Qed.

Lemma reached_indexed p t n : reaches ToLower doc ConfigType root p t n → is_Some (wk_nodes walk_config !! FormatPath p).
Proof.
  intros Hr. apply (ad_indexed _ _ _ _ (walks_all ToLower doc ConfigType root [] _)). destruct p as [|sg p].
  - left. cbn. by rewrite lookup_singleton_eq.
  - right. by exists n, (sg :: p), t.
Qed.

Lemma locate_from_spec nodes path n : is_Some (nodes !! FormatPath []) → n ≤ length path →
  ∃ k m, k ≤ n ∧ nodes !! FormatPath (take k path) = Some m ∧
    locate_from doc nodes path n = (yn_Line (node_at doc m), yn_Column (node_at doc m)) ∧
    ∀ k', k < k' ≤ n → nodes !! FormatPath (take k' path) = None.
Proof.
  intros Hroot. induction n as [|n IH]; intros Hle; cbn [locate_from].
  - destruct Hroot as [m Hm]. exists 0, m. rewrite take_0. rewrite Hm. split_and!; try done. intros k' ?. lia.
  - destruct (nodes !! FormatPath (take (S n) path)) as [m|] eqn:E.
    + exists (S n), m. split_and!; try done. intros k' ?. lia.
    + destruct IH as (k & m & Hk & Hm & Hl & Hno); [lia|]. exists k, m. split_and!; try done; [lia|]. intros k' Hk'.
      destruct (decide (k' = S n)) as [->|Hne]; [done|]. apply Hno. lia.
Qed.
End index.

Lemma diagnose_structure ToLower path read parsed decode order loaded :
  diagnose ToLower path read parsed decode order loaded = [] →
  ∃ data doc root, read = Ok data ∧ parsed = Ok (doc, Some root) ∧ (decode = Decoded ∨ decode = TypeErrors []) ∧
    wk_found (walk_config ToLower doc root) = [] ∧ ∃ cfg, loaded = Ok cfg.
Proof.
  unfold diagnose. destruct read as [data|]; [|done]. destruct parsed as [[doc [root|]]|]; [|done..].
  destruct decode as [|errors|err]; [| |done]; fold (walk_config ToLower doc root); (case_bool_decide as Hf; cbn [negb]; [|done]);
    apply app_eq_nil in Hf as [Hf He]; (destruct loaded as [cfg|]; [|done]); intros _; exists data, doc, root.
  - split_and!; try done; [by left|by exists cfg].
  - apply fmap_nil_inv in He as ->. split_and!; try done; [by right|by exists cfg].
Qed.

Lemma load_message doc nodes e : d_Message (load_diagnostic doc nodes e) = OfLoad e.
Proof. destruct e; cbn; try done. by destruct (locate _ _ _). Qed.


(** The loader's violation is reported, alone, with its code and its path, and at
    the deepest place there is: that of a node some path with the text of a prefix
    of the violation's path leads to, and no path has the text of a longer
    prefix. *)
Theorem Diagnose_locates ToLower path data doc root order v :
  (∀ p name key, ¬ unknown_key ToLower doc ConfigType root p name key) →
  ∃ k p t n, k ≤ length (ve_Path v) ∧ reaches ToLower doc ConfigType root p t n ∧ FormatPath p = FormatPath (take k (ve_Path v)) ∧
    ds_Diagnostics (Diagnose ToLower path (Ok data) (Ok (doc, Some root)) Decoded order (Err (LoadInvalid v))) =
      [mkDiagnostic (ve_Code v) (FormatPath (ve_Path v)) (yn_Line (node_at doc n)) (yn_Column (node_at doc n)) (OfLoad (LoadInvalid v)) (hint (ve_Code v))] ∧
    ∀ k' p' t' n', k < k' ≤ length (ve_Path v) → reaches ToLower doc ConfigType root p' t' n' → FormatPath p' ≠ FormatPath (take k' (ve_Path v)).
Proof.
  intros Hno. apply walked_empty in Hno.
  destruct (locate_from_spec doc (wk_nodes (walk_config ToLower doc root)) (ve_Path v) (length (ve_Path v))) as (k & n & Hk & Hn & Hl & Hdeep); [|done|].
  { exact (reached_indexed ToLower doc root [] ConfigType root (re_here _ _ _ _)). }
  destruct (indexed_reached _ _ _ _ _ Hn) as (p & t & Hr & Hp). exists k, p, t, n. split_and!; try done.
  - unfold Diagnose, diagnose. cbn [ds_Diagnostics]. fold (walk_config ToLower doc root). rewrite Hno. cbn [app].
    rewrite bool_decide_true by done. cbn [negb load_diagnostic]. unfold locate. by rewrite Hl.
  - intros k' p' t' n' Hk' Hr' Heq. pose proof (reached_indexed _ _ _ _ _ _ Hr') as Hs. rewrite Heq, (Hdeep k' Hk') in Hs. by destruct Hs.
Qed.

(** ** Where the place is not the violation's *)

Definition example_scalar (value : string) (line : Z) : yaml_node := mkNode ScalarNode "" "!!str" value None [] line 1.
Definition example_mapping (content : list nat) (line : Z) : yaml_node := mkNode MappingNode "" "!!map" "" None content line 1.

(** A process [a] whose restart policy is wrong, and a process [a.restart]. *)
Definition example_doc : list yaml_node :=
  [example_mapping [1; 2] 1; example_scalar "processes" 1; example_mapping [3; 4; 9; 10] 2;
   example_scalar "a" 2; example_mapping [5; 6; 7; 8] 3;
   example_scalar "cmd" 3; example_scalar "x" 3; example_scalar "restart" 4; example_scalar "sometimes" 4;
   example_scalar "a.restart" 5; example_mapping [11; 12] 6; example_scalar "cmd" 6; example_scalar "y" 6].

Definition example_violation : ValidationError :=
  mkValidationError CodeInvalidRestart [SKey "processes"; SKey "a"; SKey "restart"]
    "process %q has invalid restart policy %q (use never, on-failure, or always)" [AStr "a"; AStr "sometimes"] None.

(** A place may be another's.  A process name may have dots, and the nodes are
    looked up by the text of a path: the restart policy of a process [a] is
    reported at the process [a.restart], two lines below the node that the
    violation's own path leads to.  And the place of a value that does not decode
    depends on the order in which a map is visited, when two values on one line
    have paths of one length. *)
Theorem diagnosis_misplaced ToLower :
  (let ds := Diagnose ToLower "c.yaml" (Ok "") (Ok (example_doc, Some 0)) Decoded (λ _, []) (Err (LoadInvalid example_violation)) in
   reaches ToLower example_doc ConfigType 0 (ve_Path example_violation) TBasic 8 ∧ yn_Line (node_at example_doc 8) = 4%Z ∧
   (d_Path <$> ds_Diagnostics ds) = ["processes.a.restart"] ∧ (d_Line <$> ds_Diagnostics ds) = [6%Z]) ∧
  ∃ doc order order', order ≡ₚ order' ∧ pathAtLine doc order 1 ≠ pathAtLine doc order' 1.
Proof.
  split; [split_and!|].
  - set (key n := SKey (yn_Value (node_at example_doc n))). change (ve_Path example_violation) with [key 1; key 3; key 7].
    apply (re_field _ _ _ _ 0 1 2 (TMap ProcessType)); [reflexivity|left|reflexivity|].
    apply (re_key _ _ 2 3 4); [reflexivity|left|].
    apply (re_field _ _ _ _ 4 7 8 TBasic); [reflexivity|right; left|reflexivity|constructor].
  - done.
  - reflexivity.
  - reflexivity.
  - exists [example_scalar "x" 1; example_scalar "y" 1], [("a", 0); ("b", 1)], [("b", 1); ("a", 0)]. split; [apply Permutation_swap|done].
Qed.
