(* ===== verification/Runes.v ===== *)
(** * Text on a terminal

    The characters of a Go string as [range] yields them, their widths in cells,
    and what the monitor does to a text to fit it into a row: removing colours,
    control characters, and what is too long.  The set of non-spacing marks of the
    Unicode tables is an argument. *)

From S2P Require Import Prelude GoStrings.

(** ** UTF-8 *)

Definition octets (s : string) : list Z := (λ c, Z.of_nat (code c)) <$> bytes s.
Definition of_octets (l : list Z) : string := of_bytes ((λ z, chr (Z.to_nat z)) <$> l).

Definition RuneError : Z := 65533.

Definition between (lo x hi : Z) : bool := (lo <=? x)%Z && (x <=? hi)%Z.
Definition continues (b : Z) : bool := between 128 b 191.

(** [utf8.DecodeRune]: the character, and how many bytes it takes. *)
Definition decode_rune (b : list Z) : Z * nat :=
  match b with
  | [] => (RuneError, 0)
  | b0 :: t =>
      if (b0 <? 128)%Z then (b0, 1)
      else if between 194 b0 223 then
        match t with
        | b1 :: _ => if continues b1 then (((b0 - 192) * 64 + (b1 - 128))%Z, 2) else (RuneError, 1)
        | _ => (RuneError, 1)
        end
      else if between 224 b0 239 then
        match t with
        | b1 :: b2 :: _ =>
            if between (if (b0 =? 224)%Z then 160 else 128) b1 (if (b0 =? 237)%Z then 159 else 191) && continues b2
            then (((b0 - 224) * 4096 + (b1 - 128) * 64 + (b2 - 128))%Z, 3) else (RuneError, 1)
        | _ => (RuneError, 1)
        end
      else if between 240 b0 244 then
        match t with
        | b1 :: b2 :: b3 :: _ =>
            if between (if (b0 =? 240)%Z then 144 else 128) b1 (if (b0 =? 244)%Z then 143 else 191) && continues b2 && continues b3
            then (((b0 - 240) * 262144 + (b1 - 128) * 4096 + (b2 - 128) * 64 + (b3 - 128))%Z, 4) else (RuneError, 1)
        | _ => (RuneError, 1)
        end
      else (RuneError, 1)
  end.

(** The characters after [skip] bytes. *)
Fixpoint decode_from (skip : nat) (l : list Z) : list Z :=
  match l with
  | [] => []
  | b :: t => match skip with
              | S skip => decode_from skip t
              | O => let '(r, n) := decode_rune l in r :: decode_from (pred n) t
              end
  end.

Definition runes (s : string) : list Z := decode_from 0 (octets s).

Definition valid_rune (r : Z) : bool := between 0 r 1114111 && negb (between 55296 r 57343).

(** [strings.Builder.WriteRune] *)
Definition encode_rune (r : Z) : list Z :=
  if negb (valid_rune r) then [239; 191; 189]%Z
  else if (r <? 128)%Z then [r]
  else if (r <? 2048)%Z then [192 + r / 64; 128 + r mod 64]%Z
  else if (r <? 65536)%Z then [224 + r / 4096; 128 + (r / 64) mod 64; 128 + r mod 64]%Z
  else [240 + r / 262144; 128 + (r / 4096) mod 64; 128 + (r / 64) mod 64; 128 + r mod 64]%Z.

Definition encode (rs : list Z) : list Z := mbind encode_rune rs.
Definition of_runes (rs : list Z) : string := of_octets (encode rs).

(** ** Colours *)

Section strip.
Context {A : Type} (val : A → Z).

(** How long a match of [[0-9;]*m] is. *)
Fixpoint sgr_tail (l : list A) : option nat :=
  match l with
  | [] => None
  | a :: l => if (val a =? 109)%Z then Some 1 else if between 48 (val a) 57 || (val a =? 59)%Z then S <$> sgr_tail l else None
  end.

(** How long a match of the whole pattern is. *)
Definition sgr_length (l : list A) : option nat :=
  match l with a :: b :: l => if (val a =? 27)%Z && (val b =? 91)%Z then (λ n, S (S n)) <$> sgr_tail l else None | _ => None end.

Fixpoint strip_from (skip : nat) (l : list A) : list A :=
  match l with
  | [] => []
  | a :: t => match skip with
              | S skip => strip_from skip t
              | O => match sgr_length l with Some n => strip_from (pred n) t | None => a :: strip_from 0 t end
              end
  end.
End strip.

(** Source: internal/monitor/monitor.go:569-577 (stripColor). *)
Definition stripColor (s : string) : string := of_octets (strip_from id 0 (octets s)).

(** ** Widths *)

(** Source: internal/monitor/monitor.go:1204-1217 (isWideRune). *)
Definition isWideRune (r : Z) : bool :=
  between 4352 r 4447 || between 8960 r 9215 || between 9001 r 9002 || between 9728 r 10175 ||
  between 11904 r 42182 || between 44032 r 55203 || between 63744 r 64255 || between 65040 r 65049 ||
  between 65072 r 65135 || between 65280 r 65376 || between 65504 r 65510 || between 127744 r 129791.

Section width.
(** [unicode.Mn] *)
Context (is_Mn : Z → bool).

(** Source: internal/monitor/monitor.go:1189-1202 (cellWidthRune). *)
Definition cellWidthRune (r : Z) : Z :=
  if (r =? 9)%Z then 4
  else if (r <? 32)%Z || (between 127 r 159) then 0
  else if is_Mn r then 0
  else if isWideRune r then 2
  else 1.

Definition cells (rs : list Z) : Z := fold_right (λ r w, cellWidthRune r + w)%Z 0%Z rs.

(** Source: internal/monitor/monitor.go:1181-1187 (cellWidthString). *)
Definition cellWidthString (s : string) : Z := cells (runes s).

(** Source: internal/monitor/monitor.go:1177-1179 (visibleWidth). *)
Definition visibleWidth (s : string) : Z := cellWidthString (stripColor s).

(** The characters that fit.
    Source: internal/monitor/monitor.go:1134-1143 (truncate, loop). *)
Fixpoint take_cells (limit used : Z) (rs : list Z) : list Z :=
  match rs with
  | r :: rs => if (limit <? used + cellWidthRune r)%Z then [] else r :: take_cells limit (used + cellWidthRune r) rs
  | [] => []
  end.

Definition ellipsis : Z := 8230.

(** Source: internal/monitor/monitor.go:1124-1145 (truncate). *)
Definition truncate (s : string) (maxLen : Z) : string :=
  if (maxLen <=? 0)%Z then ""
  else if (cellWidthString s <=? maxLen)%Z then s
  else if (maxLen =? 1)%Z then of_runes [ellipsis]
  else of_runes (take_cells (maxLen - 1) 0 (runes s) ++ [ellipsis]).

Definition spaces (n : Z) : string := of_octets (replicate (Z.to_nat n) 32%Z).

(** Source: internal/monitor/monitor.go:1147-1153 (padRight). *)
Definition padRight (s : string) (width : Z) : string :=
  let remain := (width - cellWidthString s)%Z in
  if (remain <=? 0)%Z then s else s +:+ spaces remain.
End width.

Definition is_control (r : Z) : bool := (r <? 32)%Z || between 127 r 159.

(** Source: internal/monitor/monitor.go:1155-1175 (sanitizeLogLine). *)
Definition sanitizeLogLine (s : string) : string :=
  let s := stripColor s in
  if existsb is_control (runes s)
  then of_runes (mbind (λ r, if (r =? 9)%Z then replicate 4 32%Z else if is_control r then [32%Z] else [r]) (runes s))
  else s.

(** ** The encoding is read back *)

Lemma octets_of_octets l : Forall (λ z, 0 ≤ z < 256)%Z l → octets (of_octets l) = l.
Proof.
  unfold octets, of_octets. rewrite bytes_of_bytes. induction 1 as [|z l Hz _ IH]; cbn; [done|]. f_equal; [|exact IH].
  unfold code, chr. rewrite nat_ascii_embedding by lia. lia.
Qed.

Lemma octets_range s : Forall (λ z, 0 ≤ z < 256)%Z (octets s).
Proof. unfold octets. apply Forall_fmap, Forall_true. intros c. cbn. pose proof (nat_ascii_bounded c). unfold code. lia. Qed.

Lemma octets_app s t : octets (s +:+ t) = octets s ++ octets t.
Proof. unfold octets. by rewrite bytes_app, fmap_app. Qed.

Lemma between_spec lo x hi : between lo x hi = true ↔ (lo ≤ x ≤ hi)%Z.
Proof. unfold between. lia. Qed.

Lemma encode_rune_range r : Forall (λ z, 0 ≤ z < 256)%Z (encode_rune r).
Proof.
  unfold encode_rune. destruct (valid_rune r) eqn:Hv; cbn [negb]; [|repeat constructor; lia].
  unfold valid_rune, between in Hv. repeat case_match; repeat (apply Forall_cons; split); try apply Forall_nil; try done; Z.to_euclidean_division_equations; lia.
Qed.

Lemma encode_range rs : Forall (λ z, 0 ≤ z < 256)%Z (encode rs).
Proof. unfold encode. apply Forall_bind, Forall_true. apply encode_rune_range. Qed.

Lemma decode_encode r t : valid_rune r = true → decode_rune (encode_rune r ++ t) = (r, length (encode_rune r)).
Proof.
  intros Hv. unfold encode_rune. rewrite Hv. cbn [negb]. unfold valid_rune, between in Hv.
  destruct (r <? 128)%Z eqn:H1; [cbn; by rewrite H1|]. destruct (r <? 2048)%Z eqn:H2; [|destruct (r <? 65536)%Z eqn:H3];
    unfold decode_rune, between, continues, between; cbn [app length].
  - set (q := (r / 64)%Z). set (m := (r mod 64)%Z). assert (r = q * 64 + m ∧ 0 ≤ m < 64)%Z as [Hr Hm] by (unfold q, m; Z.to_euclidean_division_equations; lia).
    clearbody q m. repeat case_match; try lia. f_equal. lia.
  - set (q := (r / 4096)%Z). set (m1 := ((r / 64) mod 64)%Z). set (m := (r mod 64)%Z).
    assert (r = q * 4096 + m1 * 64 + m ∧ 0 ≤ m < 64 ∧ 0 ≤ m1 < 64)%Z as (Hr & Hm & Hm1) by (unfold q, m1, m; Z.to_euclidean_division_equations; lia).
    clearbody q m1 m. repeat case_match; try lia; try (f_equal; lia).
  - set (q := (r / 262144)%Z). set (m2 := ((r / 4096) mod 64)%Z). set (m1 := ((r / 64) mod 64)%Z). set (m := (r mod 64)%Z).
    assert (r = q * 262144 + m2 * 4096 + m1 * 64 + m ∧ 0 ≤ m < 64 ∧ 0 ≤ m1 < 64 ∧ 0 ≤ m2 < 64)%Z as (Hr & Hm & Hm1 & Hm2)
      by (unfold q, m2, m1, m; Z.to_euclidean_division_equations; lia).
    clearbody q m2 m1 m. repeat case_match; try lia; try (f_equal; lia).
Qed.

Lemma decode_from_drop n l : decode_from n l = decode_from 0 (drop n l).
Proof. revert n. induction l as [|b l IH]; intros [|n]; cbn [decode_from drop]; try done. Qed.

Lemma decode_from_rune b l : decode_from 0 (b :: l) = (decode_rune (b :: l)).1 :: decode_from 0 (drop (pred (decode_rune (b :: l)).2) l).
Proof. cbn [decode_from]. destruct (decode_rune (b :: l)) as [r n]. by rewrite decode_from_drop. Qed.

Lemma encode_rune_cons r : ∃ b l, encode_rune r = b :: l.
Proof. unfold encode_rune. repeat case_match; by eexists _, _. Qed.

Lemma decode_encoded rs t : Forall (λ r, valid_rune r = true) rs → decode_from 0 (encode rs ++ t) = rs ++ decode_from 0 t.
Proof.
  induction 1 as [|r rs Hr _ IH]; [done|]. unfold encode. cbn [mbind list_bind]. rewrite <-(assoc_L (++)).
  destruct (encode_rune_cons r) as (b & l & E). pose proof (decode_encode r (encode rs ++ t) Hr) as Hd. unfold encode in *. rewrite E in *. cbn [app] in *.
  rewrite decode_from_rune, Hd. cbn [fst snd length pred]. by rewrite drop_app_length, IH.
Qed.

Lemma runes_of_runes rs : Forall (λ r, valid_rune r = true) rs → runes (of_runes rs) = rs.
Proof.
  intros H. unfold runes, of_runes. rewrite octets_of_octets by apply encode_range.
  rewrite <-(app_nil_r (encode rs)), (decode_encoded _ _ H). cbn. by rewrite app_nil_r.
Qed.

Lemma decode_rune_valid b : Forall (λ z, 0 ≤ z < 256)%Z b → valid_rune (decode_rune b).1 = true.
Proof.
  intros Hb. destruct Hb as [|b0 b Hb0 Hb]; [done|]. unfold decode_rune, valid_rune, between, continues, between.
  destruct Hb as [|b1 b Hb1 Hb]; [repeat case_match; cbn [fst]; try done; lia|].
  destruct Hb as [|b2 b Hb2 Hb]; [repeat case_match; cbn [fst]; try done; lia|].
  destruct Hb as [|b3 b Hb3 Hb]; repeat case_match; cbn [fst]; try done; lia.
Qed.

Lemma decode_valid l : Forall (λ z, 0 ≤ z < 256)%Z l → ∀ n, Forall (λ r, valid_rune r = true) (decode_from n l).
Proof.
  induction 1 as [|b l Hb Hl IH]; intros [|n]; cbn [decode_from]; [constructor..| |apply IH].
  pose proof (decode_rune_valid (b :: l) (Forall_cons_2 _ _ _ Hb Hl)) as Hv. destruct (decode_rune (b :: l)) as [r n]. constructor; [done|apply IH].
Qed.

Lemma runes_valid s : Forall (λ r, valid_rune r = true) (runes s).
Proof. apply decode_valid, octets_range. Qed.

(** ** Colours and the encoding *)

Lemma strip_from_drop {A} (val : A → Z) n l : strip_from val n l = strip_from val 0 (drop n l).
Proof. revert n. induction l as [|a l IH]; intros [|n]; cbn [strip_from drop]; try done. Qed.

Lemma strip_from_cons {A} (val : A → Z) a l :
  strip_from val 0 (a :: l) = match sgr_length val (a :: l) with Some n => strip_from val 0 (drop (pred n) l) | None => a :: strip_from val 0 l end.
Proof. cbn [strip_from]. destruct (sgr_length val (a :: l)); [apply strip_from_drop|done]. Qed.

Lemma strip_sublist {A} (val : A → Z) l : ∀ n, strip_from val n l `sublist_of` l.
Proof.
  induction l as [|a l IH]; intros n; [done|]. cbn [strip_from]. destruct n; [|by apply sublist_cons].
  destruct (sgr_length val (a :: l)); [by apply sublist_cons|by apply sublist_skip].
Qed.

(** A rune is one byte, or its encoding starts with a byte that is no part of a
    match, as is the rune. *)
Lemma encode_rune_cases r : valid_rune r = true → encode_rune r = [r] ∧ (r < 128)%Z ∨ (128 ≤ r)%Z ∧ Forall (λ b, 128 ≤ b)%Z (encode_rune r).
Proof.
  intros Hv. unfold encode_rune. rewrite Hv. cbn [negb]. unfold valid_rune, between in Hv. destruct (r <? 128)%Z eqn:H1; [left; split; [done|lia]|].
  right. split; [lia|]. repeat case_match; repeat (apply Forall_cons; split); try apply Forall_nil; try done; Z.to_euclidean_division_equations; lia.
Qed.

Lemma encode_cons r rs : encode (r :: rs) = encode_rune r ++ encode rs.
Proof. done. Qed.

Lemma sgr_tail_encode rs : Forall (λ r, valid_rune r = true) rs →
  sgr_tail id (encode rs) = sgr_tail id rs ∧ ∀ n, sgr_tail id rs = Some n → drop n (encode rs) = encode (drop n rs).
Proof.
  induction 1 as [|r rs Hr _ [IH1 IH2]]; [done|]. rewrite encode_cons. destruct (encode_rune_cases r Hr) as [[-> Hlt]|[Hge Hall]].
  - cbn [app sgr_tail]. unfold id in *. destruct (r =? 109)%Z; [split; [done|]; by intros n [= <-]|].
    destruct (_ || _); [|done]. rewrite IH1. split; [done|]. destruct (sgr_tail _ rs) as [m|]; [|done]. intros n [= <-]. cbn [drop]. by apply IH2.
  - destruct (encode_rune_cons r) as (b & l & E). rewrite E in *. apply Forall_cons in Hall as [Hb _]. cbn [app sgr_tail]. unfold id, between.
    destruct (b =? 109)%Z eqn:E1; [lia|]. destruct (r =? 109)%Z eqn:E2; [lia|].
    destruct (_ || _) eqn:E3; [lia|]. destruct ((48 <=? r)%Z && _ || _) eqn:E4; [lia|]. done.
Qed.

Lemma sgr_length_encode rs : Forall (λ r, valid_rune r = true) rs →
  sgr_length id (encode rs) = sgr_length id rs ∧ ∀ n, sgr_length id rs = Some n → drop n (encode rs) = encode (drop n rs).
Proof.
  intros H. destruct H as [|r rs Hr H]; [done|]. rewrite encode_cons. destruct (encode_rune_cases r Hr) as [[-> Hlt]|[Hge Hall]].
  - destruct H as [|r' rs Hr' H]; [done|]. rewrite encode_cons. destruct (sgr_tail_encode rs H) as [S1 S2].
    destruct (encode_rune_cases r' Hr') as [[-> Hlt']|[Hge' Hall']].
    + cbn [app sgr_length]. destruct (_ && _); [|done]. rewrite S1. split; [done|]. destruct (sgr_tail id rs) as [m|]; [|done].
      intros n [= <-]. cbn [drop]. by apply S2.
    + destruct (encode_rune_cons r') as (b & l & E). rewrite E in *. apply Forall_cons in Hall' as [Hb _]. cbn [app sgr_length]. unfold id.
      destruct (b =? 91)%Z eqn:E1; [lia|]. destruct (r' =? 91)%Z eqn:E2; [lia|]. by rewrite !andb_false_r.
  - destruct (encode_rune_cons r) as (b & l & E). rewrite E in *. apply Forall_cons in Hall as [Hb _]. unfold id.
    assert (∀ x (t : list Z), (128 ≤ x)%Z → sgr_length (λ z, z) (x :: t) = None) as Hno.
    { intros x [|y t] Hx; cbn [sgr_length]; [done|]. destruct (x =? 27)%Z eqn:E1; [lia|done]. }
    cbn [app]. by rewrite !Hno.
Qed.

Lemma sgr_length_pos {A} (val : A → Z) l m : sgr_length val l = Some m → ∃ k, m = S k.
Proof.
  unfold sgr_length. destruct l as [|a [|b l]]; try done. destruct (_ && _); [|done]. destruct (sgr_tail val l); [|done]. intros [= <-]. by eexists.
Qed.

Lemma strip_encode n : ∀ rs, length rs ≤ n → Forall (λ r, valid_rune r = true) rs → strip_from id 0 (encode rs) = encode (strip_from id 0 rs).
Proof.
  induction n as [|n IH]; intros rs Hn Hv; [by destruct rs; [|cbn in Hn; lia]|]. destruct Hv as [|r rs Hr Hv]; [done|]. cbn [length] in Hn.
  destruct (sgr_length_encode (r :: rs) (Forall_cons_2 _ _ _ Hr Hv)) as [S1 S2]. rewrite (strip_from_cons id r rs).
  destruct (encode_rune_cases r Hr) as [[E Hlt]|[Hge Hall]].
  - rewrite encode_cons, E in *. cbn [app] in *. rewrite strip_from_cons, S1. destruct (sgr_length id (r :: rs)) as [m|] eqn:Em.
    + specialize (S2 m eq_refl). destruct (sgr_length_pos _ _ _ Em) as [k ->]. cbn [drop pred] in *. rewrite S2.
      apply IH; [rewrite length_drop; lia|by apply Forall_drop].
    + rewrite encode_cons, E. cbn [app]. f_equal. apply IH; [lia|done].
  - assert (sgr_length id (r :: rs) = None) as ->.
    { destruct rs as [|r' rs]; cbn [sgr_length]; [done|]. unfold id. destruct (r =? 27)%Z eqn:E1; [lia|done]. }
    rewrite !encode_cons. rewrite <-(IH rs); [|lia|done]. clear S1 S2 IH. induction Hall as [|b l Hb _ IHl]; [done|]. cbn [app]. rewrite strip_from_cons.
    assert (sgr_length id (b :: l ++ encode rs) = None) as ->; [|by rewrite IHl].
    destruct (l ++ encode rs); cbn [sgr_length]; [done|]. unfold id. destruct (b =? 27)%Z eqn:E1; [lia|done].
Qed.

(** ** Spaces at the end *)

Definition ascii_tail (sp : list Z) : Prop := Forall (λ z, z = 32)%Z sp.

Lemma decode_rune_spaces b l sp : ascii_tail sp → decode_rune ((b :: l) ++ sp) = decode_rune (b :: l).
Proof.
  intros Hsp. destruct Hsp as [|z sp -> Hsp]; [by rewrite app_nil_r|]. cbn [app]. unfold decode_rune, between, continues, between.
  destruct l as [|b1 [|b2 [|b3 l]]]; cbn [app]; try done.
  - destruct Hsp as [|z1 sp -> Hsp]; [|destruct Hsp as [|z2 sp -> Hsp]]; repeat case_match; try done; lia.
  - destruct Hsp as [|z1 sp -> Hsp]; repeat case_match; try done; lia.
  - repeat case_match; try done; lia.
Qed.

Lemma decode_rune_fits b : (decode_rune b).2 ≤ length b.
Proof. unfold decode_rune. repeat case_match; cbn [snd length]; lia. Qed.

Lemma decode_spaces l sp : ascii_tail sp → decode_from 0 (l ++ sp) = decode_from 0 l ++ sp.
Proof.
  intros Hsp. assert (∀ n l, length l ≤ n → decode_from 0 (l ++ sp) = decode_from 0 l ++ sp) as H; [|by eapply H].
  clear l. assert (decode_from 0 sp = sp) as Hs by (induction Hsp as [|z sp -> _ IH]; [done|]; cbn; by rewrite IH).
  intros n. induction n as [|n IH]; intros l Hn; (destruct l as [|b l]; [done|]); cbn [length] in Hn; [lia|].
  pose proof (decode_rune_fits (b :: l)) as Hf. pose proof (decode_rune_spaces b l sp Hsp) as Hd. cbn [app length] in *.
  rewrite (decode_from_rune b (l ++ sp)), (decode_from_rune b l), Hd. cbn [app]. f_equal. rewrite drop_app_le by lia. apply IH. rewrite length_drop. lia.
Qed.

Lemma sgr_tail_spaces l sp : ascii_tail sp → sgr_tail id (l ++ sp) = sgr_tail id l.
Proof.
  intros Hsp. induction l as [|a l IH]; cbn [app sgr_tail]; [by destruct Hsp as [|z sp -> _]|]. by rewrite IH.
Qed.

Lemma sgr_tail_fits {A} (val : A → Z) l n : sgr_tail val l = Some n → n ≤ length l.
Proof.
  revert n. induction l as [|a l IH]; intros n; cbn [sgr_tail length]; [done|]. destruct (_ =? _)%Z; [intros [= <-]; lia|].
  destruct (_ || _); [|done]. destruct (sgr_tail val l) as [m|]; [|done]. intros [= <-]. specialize (IH m eq_refl). lia.
Qed.

Lemma strip_spaces l sp : ascii_tail sp → strip_from id 0 (l ++ sp) = strip_from id 0 l ++ sp.
Proof.
  intros Hsp. assert (∀ n l, length l ≤ n → strip_from id 0 (l ++ sp) = strip_from id 0 l ++ sp) as H; [|by eapply H].
  clear l. assert (strip_from id 0 sp = sp) as Hs.
  { induction Hsp as [|z sp -> _ IH]; [done|]. rewrite strip_from_cons. assert (sgr_length id (32%Z :: sp) = None) as -> by (by destruct sp). by rewrite IH. }
  intros n. induction n as [|n IH]; intros l Hn; (destruct l as [|b l]; [done|]); cbn [length] in Hn; [lia|].
  cbn [app]. rewrite !strip_from_cons.
  assert (sgr_length id (b :: l ++ sp) = sgr_length id (b :: l)) as ->.
  { destruct l as [|c l]; cbn [app sgr_length]; [destruct Hsp as [|z sp -> _]; [done|]; by rewrite andb_false_r|]. by rewrite sgr_tail_spaces. }
  destruct (sgr_length id (b :: l)) as [m|] eqn:Em; [|cbn [app]; f_equal; apply IH; lia].
  assert (pred m ≤ length l) as Hm.
  { destruct l as [|c l]; cbn [sgr_length] in Em; [done|]. destruct (_ && _); [|done]. destruct (sgr_tail id l) as [k|] eqn:Ek; [|done].
    apply sgr_tail_fits in Ek. injection Em as <-. cbn. lia. }
  rewrite drop_app_le by done. apply IH. rewrite length_drop. lia.
Qed.

Lemma sublist_Forall {A} (P : A → Prop) l k : l `sublist_of` k → Forall P k → Forall P l.
Proof.
  induction 1 as [|a l k _ IH|a l k _ IH]; [done|intros [Ha Hk]%Forall_cons; constructor; auto|intros [_ Hk]%Forall_cons; auto].
Qed.

Section fit.
Context (is_Mn : Z → bool).
(** A space is no mark. *)
Hypothesis space_takes : is_Mn 32 = false.

Notation cells := (cells is_Mn).
Notation cellWidthString := (cellWidthString is_Mn).
Notation visibleWidth := (visibleWidth is_Mn).
Notation truncate := (truncate is_Mn).

Lemma cellWidthRune_range r : (0 ≤ cellWidthRune is_Mn r ≤ 4)%Z.
Proof. unfold cellWidthRune. repeat case_match; lia. Qed.

Lemma cells_nonneg rs : (0 ≤ cells rs)%Z.
Proof. unfold Runes.cells. induction rs as [|r rs IH]; cbn; [done|]. pose proof (cellWidthRune_range r). lia. Qed.

Lemma cells_app rs rs' : cells (rs ++ rs') = (cells rs + cells rs')%Z.
Proof. unfold Runes.cells. induction rs as [|r rs IH]; cbn; [done|]. rewrite IH. lia. Qed.

Lemma cells_spaces n : cells (replicate n 32%Z) = Z.of_nat n.
Proof. unfold Runes.cells. induction n as [|n IH]; cbn [replicate fold_right]; [done|]. rewrite IH. unfold cellWidthRune. rewrite space_takes. cbn. lia. Qed.

Lemma cells_sublist rs rs' : rs `sublist_of` rs' → (cells rs ≤ cells rs')%Z.
Proof.
  unfold Runes.cells. induction 1 as [|r rs rs' _ IH|r rs rs' _ IH]; cbn; [done|lia|]. pose proof (cellWidthRune_range r). lia.
Qed.

Lemma take_cells_prefix limit rs : ∀ used, take_cells is_Mn limit used rs `prefix_of` rs ∧
  ((used ≤ limit)%Z → (used + cells (take_cells is_Mn limit used rs) ≤ limit)%Z).
Proof.
  unfold Runes.cells. induction rs as [|r rs IH]; intros used; cbn [take_cells].
  - split; [done|]. cbn. lia.
  - destruct (limit <? used + cellWidthRune is_Mn r)%Z eqn:E; cbn; [split; [apply prefix_nil|lia]|].
    destruct (IH (used + cellWidthRune is_Mn r)%Z) as [H1 H2]. split; [by apply prefix_cons|]. intros _. specialize (H2 ltac:(lia)). lia.
Qed.

Lemma ellipsis_width : (0 ≤ cells [ellipsis] ≤ 1)%Z.
Proof. unfold Runes.cells, cellWidthRune. cbn [fold_right]. destruct (is_Mn ellipsis); vm_compute; by split. Qed.

(** What a truncation leaves: the text itself, or characters of it and the
    ellipsis, that fit. *)
Lemma truncate_runes s maxLen : (1 ≤ maxLen)%Z →
  truncate s maxLen = s ∧ (cellWidthString s ≤ maxLen)%Z ∨
  (maxLen < cellWidthString s)%Z ∧ ∃ rs, truncate s maxLen = of_runes rs ∧ Forall (λ r, valid_rune r = true) rs ∧ (cells rs ≤ maxLen)%Z.
Proof.
  intros H1. unfold Runes.truncate. destruct (maxLen <=? 0)%Z eqn:E0; [lia|]. destruct (cellWidthString s <=? maxLen)%Z eqn:E1; [left; split; [done|lia]|].
  right. split; [lia|]. pose proof ellipsis_width as He. destruct (maxLen =? 1)%Z eqn:E2.
  - exists [ellipsis]. split_and!; [done|by repeat constructor|lia].
  - eexists. split; [done|]. destruct (take_cells_prefix (maxLen - 1) (runes s) 0) as [Hp Hc]. split.
    + apply Forall_app. split; [|by repeat constructor]. eapply sublist_Forall; [|apply runes_valid]. destruct Hp as [t Ht]. rewrite Ht at 2. by apply sublist_inserts_r.
    + rewrite cells_app. specialize (Hc ltac:(lia)). lia.
Qed.

(** A truncated text fits. *)
Lemma truncate_fits s maxLen : (cellWidthString (truncate s maxLen) ≤ Z.max 0 maxLen)%Z.
Proof.
  destruct (decide (maxLen ≤ 0)%Z) as [Hle|Hgt].
  - unfold Runes.truncate. destruct (maxLen <=? 0)%Z eqn:E; [|lia]. change (cellWidthString "") with 0%Z. lia.
  - destruct (truncate_runes s maxLen) as [[-> ?]|(_ & rs & -> & Hv & Hc)]; [lia|lia|]. unfold Runes.cellWidthString. rewrite runes_of_runes by done. lia.
Qed.

(** Removing colours from what was encoded makes it no wider. *)
Lemma strip_narrows rs : Forall (λ r, valid_rune r = true) rs → (visibleWidth (of_runes rs) ≤ cells rs)%Z.
Proof.
  intros Hv. unfold Runes.visibleWidth, Runes.cellWidthString, stripColor. unfold of_runes. rewrite octets_of_octets by apply encode_range.
  rewrite (strip_encode (length rs)) by done. fold (of_runes (strip_from id 0 rs)). pose proof (strip_sublist id rs 0) as Hs.
  rewrite runes_of_runes by (eapply sublist_Forall; [exact Hs|done]). by apply cells_sublist.
Qed.

(** Spaces behind a text are seen, each as one cell. *)
Lemma visible_spaces s n : visibleWidth (s +:+ spaces n) = (visibleWidth s + Z.max 0 n)%Z.
Proof.
  unfold Runes.visibleWidth, Runes.cellWidthString, stripColor. rewrite octets_app.
  assert (octets (spaces n) = replicate (Z.to_nat n) 32%Z) as -> by (unfold spaces; apply octets_of_octets, Forall_replicate; lia).
  assert (ascii_tail (replicate (Z.to_nat n) 32%Z)) as Ha by (by apply Forall_replicate).
  rewrite strip_spaces by done. unfold runes. rewrite !octets_of_octets.
  - rewrite decode_spaces, cells_app, cells_spaces by done. lia.
  - eapply sublist_Forall; [apply strip_sublist|apply octets_range].
  - apply Forall_app. split; [eapply sublist_Forall; [apply strip_sublist|apply octets_range]|]. apply Forall_replicate. lia.
Qed.
End fit.
