(* ===== verification/Monitor.v ===== *)
(** * The monitor

    The terminal user interface: the table of processes and its selection, the
    ring of log lines and its scrolling, the keys, and what each frame draws where.
    A frame is the list of its rows with their contents; the terminal, the
    decoding of events, floating-point formatting and the clock are arguments.  An
    index out of range, a slice out of bounds and a negative repetition, which
    would panic, are [None].  The help overlay is not modelled. *)

From S2P Require Import Prelude GoStrings RunnerState Lifecycle Ipc Output Runes.

(** ** The state *)

(** Source: internal/monitor/monitor.go:21-21 (maxLogs). *)
Definition maxLogs : nat := 5000.

(** Source: internal/monitor/monitor.go:89-126 (monitor). *)
Record monitor : Type := mkMonitor {
  m_procOrder : list string;
  m_procs : gmap string ProcState;
  m_selected : Z;
  m_selectedName : string;
  m_logs : list LogEntry;
  m_logHead : nat;
  m_logCount : nat;
  m_filter : string;
  m_logOffset : Z;
  m_width : Z;
  m_height : Z;
  m_tunnelURL : string;
  m_showHelp : bool;
}.

(** Source: internal/monitor/monitor.go:52-56 (Run, monitor). *)
Definition new_monitor : monitor := mkMonitor [] ∅ 0 "" [] 0 0 "" 0 0 0 "" false.

Definition set_table (order : list string) (procs : gmap string ProcState) (selected : Z) (name : string) (m : monitor) : monitor :=
  mkMonitor order procs selected name (m_logs m) (m_logHead m) (m_logCount m) (m_filter m) (m_logOffset m) (m_width m) (m_height m) (m_tunnelURL m) (m_showHelp m).
Definition set_ring (logs : list LogEntry) (head count : nat) (m : monitor) : monitor :=
  mkMonitor (m_procOrder m) (m_procs m) (m_selected m) (m_selectedName m) logs head count (m_filter m) (m_logOffset m) (m_width m) (m_height m) (m_tunnelURL m) (m_showHelp m).
Definition set_view (filter : string) (offset : Z) (m : monitor) : monitor :=
  mkMonitor (m_procOrder m) (m_procs m) (m_selected m) (m_selectedName m) (m_logs m) (m_logHead m) (m_logCount m) filter offset (m_width m) (m_height m) (m_tunnelURL m) (m_showHelp m).
Definition set_size (width height : Z) (m : monitor) : monitor :=
  mkMonitor (m_procOrder m) (m_procs m) (m_selected m) (m_selectedName m) (m_logs m) (m_logHead m) (m_logCount m) (m_filter m) (m_logOffset m) width height (m_tunnelURL m) (m_showHelp m).
Definition set_tunnel (url : string) (m : monitor) : monitor :=
  mkMonitor (m_procOrder m) (m_procs m) (m_selected m) (m_selectedName m) (m_logs m) (m_logHead m) (m_logCount m) (m_filter m) (m_logOffset m) (m_width m) (m_height m) url (m_showHelp m).
Definition set_help (help : bool) (m : monitor) : monitor :=
  mkMonitor (m_procOrder m) (m_procs m) (m_selected m) (m_selectedName m) (m_logs m) (m_logHead m) (m_logCount m) (m_filter m) (m_logOffset m) (m_width m) (m_height m) (m_tunnelURL m) help.

(** ** The ring of log lines *)

(** Source: internal/monitor/monitor.go:128-142 (pushLog). *)
Definition pushLog (e : LogEntry) (m : monitor) : monitor :=
  if m_logCount m <? maxLogs then set_ring (m_logs m ++ [e]) (S (m_logCount m) mod maxLogs) (S (m_logCount m)) m
  else set_ring (<[m_logHead m := e]> (m_logs m)) (S (m_logHead m) mod maxLogs) (m_logCount m) m.

(** Source: internal/monitor/monitor.go:144-149 (pushLogs). *)
Definition pushLogs (es : list LogEntry) (m : monitor) : monitor := fold_left (λ m e, pushLog e m) es m.

(** Source: internal/monitor/monitor.go:151-161 (orderedLogs). *)
Definition orderedLogs (m : monitor) : list LogEntry :=
  if m_logCount m <? maxLogs then take (m_logCount m) (m_logs m)
  else drop (m_logHead m) (m_logs m) ++ take (m_logHead m) (m_logs m).

(** Source: internal/monitor/monitor.go:967-979 (filteredLogs). *)
Definition filteredLogs (m : monitor) : list LogEntry :=
  if bool_decide (m_filter m = "") then orderedLogs m
  else base.filter (λ l, le_Process l = m_filter m) (orderedLogs m).

(** ** The table and its selection *)

(** Source: internal/monitor/monitor.go:417-440 (healthRank). *)
Definition healthRank (st : option ProcState) : nat :=
  match st with
  | None => 6
  | Some st =>
      if bool_decide (ps_State st = "failed") then 0
      else if bool_decide (ps_State st = "restarting") then 1
      else if bool_decide (ps_State st = "running") then
        if bool_decide (ps_Health st = "unhealthy") then 2 else if ps_Ready st then 4 else 3
      else if bool_decide (ps_State st = "completed") then 5
      else 6
  end.

(** Source: internal/monitor/monitor.go:358-368 (indexOfName). *)
Definition indexOfName (name : string) (order : list string) : option nat :=
  fst <$> list_find (λ candidate, candidate = name) order.

(** Source: internal/monitor/monitor.go:370-396 (syncSelection). *)
Definition syncSelection (m : monitor) : monitor :=
  let order := m_procOrder m in
  let n := Z.of_nat (length order) in
  if negb (bool_decide (m_selectedName m = "")) then
    match indexOfName (m_selectedName m) order with
    | Some i => set_table order (m_procs m) (Z.of_nat i) (m_selectedName m) m
    | None =>
        let selected := Z.max 0 (Z.min (m_selected m) (n - 1)) in
        set_table order (m_procs m) selected (if 0 <? length order then default "" (order !! Z.to_nat selected) else "") m
    end
  else if (n <=? m_selected m)%Z then set_table order (m_procs m) (Z.max 0 (n - 1)) "" m
  else m.

(** The order of the table: by rank, then by name. *)
Definition row_le (procs : gmap string ProcState) (x y : string) : Prop :=
  healthRank (procs !! x) < healthRank (procs !! y) ∨ healthRank (procs !! x) = healthRank (procs !! y) ∧ str_le x y.

#[export] Instance row_le_dec procs : RelDecision (row_le procs).
Proof. intros x y. unfold row_le. solve_decision. Defined.

(** [names] is the order in which the map is visited.
    Source: internal/monitor/monitor.go:336-356 (rebuildOrder). *)
Definition rebuildOrder (names : list string) (m : monitor) : monitor :=
  let captured := if bool_decide (m_selectedName m = "") && (0 <=? m_selected m)%Z && (m_selected m <? Z.of_nat (length (m_procOrder m)))%Z
                  then default "" (m_procOrder m !! Z.to_nat (m_selected m)) else m_selectedName m in
  syncSelection (set_table (merge_sort (row_le (m_procs m)) names) (m_procs m) (m_selected m) captured m).

(** Source: internal/monitor/monitor.go:398-415 (moveSelection). *)
Definition moveSelection (delta : Z) (m : monitor) : monitor :=
  let order := m_procOrder m in
  if bool_decide (order = []) then m
  else
    let current := if negb (bool_decide (m_selectedName m = ""))
                   then match indexOfName (m_selectedName m) order with Some i => Z.of_nat i | None => m_selected m end
                   else m_selected m in
    let target := (current + delta)%Z in
    if (target <? 0)%Z || (Z.of_nat (length order) <=? target)%Z then m
    else syncSelection (set_table order (m_procs m) (m_selected m) (default "" (order !! Z.to_nat target)) m).

(** ** Events *)

Inductive mon_event : Type :=
  | MSnapshot (processes : list ProcState) (recent : list LogEntry) (tunnelURL : string)
  | MLog (log : option LogEntry)
  | MState (proc : option ProcState)
  | MTunnel (tunnelURL : string)
  | MOther.

Definition with_procs (procs : gmap string ProcState) (m : monitor) : monitor :=
  set_table (m_procOrder m) procs (m_selected m) (m_selectedName m) m.

(** The processes after an event. *)
Definition procs_after (ev : mon_event) (procs : gmap string ProcState) : gmap string ProcState :=
  match ev with
  | MSnapshot processes _ _ => fold_left (λ procs p, <[ps_Name p := p]> procs) processes procs
  | MState (Some p) => <[ps_Name p := p]> procs
  | _ => procs
  end.

(** Source: internal/monitor/monitor.go:303-334 (applyEvent). *)
Definition applyEvent (names : list string) (ev : mon_event) (m : monitor) : monitor :=
  match ev with
  | MSnapshot _ recent tunnelURL =>
      let m := pushLogs recent (rebuildOrder names (with_procs (procs_after ev (m_procs m)) m)) in
      if bool_decide (tunnelURL = "") then m else set_tunnel tunnelURL m
  | MLog (Some log) =>
      let m := pushLog log m in
      if (0 <? m_logOffset m)%Z then set_view (m_filter m) (m_logOffset m + 1) m else m
  | MState (Some _) => rebuildOrder names (with_procs (procs_after ev (m_procs m)) m)
  | MTunnel tunnelURL => set_tunnel tunnelURL m
  | _ => m
  end.

(** ** Keys *)

(** Source: internal/monitor/monitor.go:985-994 (logAreaStartRow). *)
Definition logAreaStartRow (m : monitor) : Z :=
  let chrome := (6 + Z.of_nat (length (m_procOrder m)))%Z in
  ((if bool_decide (m_tunnelURL m = "") then chrome else chrome + 1) + 1)%Z.

(** Source: internal/monitor/monitor.go:996-1002 (logAreaRows). *)
Definition logAreaRows (m : monitor) : Z :=
  let rows := (m_height m - logAreaStartRow m)%Z in if (rows <? 1)%Z then 1%Z else rows.

(** Source: internal/monitor/monitor.go:459-496 (handleKey, keys). *)
Definition press (key : string) (m : monitor) : option (bool * monitor) :=
  if bool_decide (key = "q" ∨ key = "ctrl-c") then Some (true, m)
  else if bool_decide (key = "?" ∨ key = "h") then Some (false, set_help (negb (m_showHelp m)) m)
  else if bool_decide (key = "up" ∨ key = "k") then Some (false, moveSelection (-1) m)
  else if bool_decide (key = "down" ∨ key = "j") then Some (false, moveSelection 1 m)
  else if bool_decide (key = "enter") then
    if 0 <? length (m_procOrder m) then
      if (m_selected m <? 0)%Z then None
      else
        selected ← m_procOrder m !! Z.to_nat (m_selected m);
        Some (false, set_view (if bool_decide (m_filter m = selected) then "" else selected) 0 m)
    else Some (false, m)
  else if bool_decide (key = "a") then Some (false, set_view "" 0 m)
  else if bool_decide (key = "g") then Some (false, set_view (m_filter m) (Z.of_nat (length (filteredLogs m))) m)
  else if bool_decide (key = "G") then Some (false, set_view (m_filter m) 0 m)
  else if bool_decide (key = "pgup") then Some (false, set_view (m_filter m) (m_logOffset m + logAreaRows m) m)
  else if bool_decide (key = "pgdn") then Some (false, set_view (m_filter m) (Z.max 0 (m_logOffset m - logAreaRows m)) m)
  else Some (false, m).

(** Whether the monitor quits, and its state.
    Source: internal/monitor/monitor.go:442-498 (handleKey). *)
Definition handleKey (key : string) (m : monitor) : option (bool * monitor) :=
  if m_showHelp m then if bool_decide (key = "q" ∨ key = "ctrl-c") then Some (true, m) else Some (false, set_help false m)
  else press key m.

(** The key a read of the terminal is.
    Source: internal/monitor/monitor.go:500-547 (readKeys, keys). *)
Definition key_of (b : list Z) : option string :=
  match b with
  | [c] =>
      if existsb (Z.eqb c) [113; 97; 104; 106; 107; 103; 71; 63]%Z then Some (of_octets [c])
      else if (c =? 13)%Z || (c =? 10)%Z then Some "enter"
      else if (c =? 32)%Z then Some "space"
      else if (c =? 27)%Z then Some "esc"
      else if (c =? 3)%Z then Some "ctrl-c"
      else None
  | 27%Z :: 91%Z :: c :: _ =>
      if (c =? 65)%Z then Some "up" else if (c =? 66)%Z then Some "down" else if (c =? 53)%Z then Some "pgup"
      else if (c =? 54)%Z then Some "pgdn" else None
  | _ => None
  end.

(** ** What is displayed of a process *)

Definition Red : string := esc "31m".
Definition Green : string := esc "32m".
Definition Yellow : string := esc "33m".
Definition Cyan : string := esc "36m".
Definition Reverse : string := esc "7m".

(** Source: internal/monitor/monitor.go:1092-1094 (isCompletedTask). *)
Definition isCompletedTask (st : ProcState) : bool :=
  bool_decide (ps_State st = "completed") && ps_Ready st && bool_decide (ps_Mode st = "task").

(** Source: internal/monitor/monitor.go:1029-1054 (summaryLine). *)
Definition summaryLine (m : monitor) : string :=
  let states := omap (λ name, m_procs m !! name) (m_procOrder m) in
  let count f := itoa (Z.of_nat (length (List.filter f states))) in
  "ready " +:+ count (λ st, bool_decide (ps_State st = "running") && ps_Ready st) +:+ "/" +:+ itoa (Z.of_nat (length (m_procOrder m)))
  +:+ "  tasks " +:+ count isCompletedTask +:+ " done  failed " +:+ count (λ st, bool_decide (ps_State st = "failed"))
  +:+ "  restarting " +:+ count (λ st, bool_decide (ps_State st = "restarting")).

(** Source: internal/monitor/monitor.go:1058-1075 (readinessDisplay). *)
Definition readinessDisplay (st : ProcState) : string :=
  if bool_decide (ps_State st = "completed") && ps_Ready st then "done"
  else if negb (bool_decide (ps_State st = "running")) then "-"
  else if bool_decide (ps_Health st = "unhealthy") then "unhealthy"
  else if ps_Ready st then "ready"
  else "waiting".

(** Source: internal/monitor/monitor.go:1077-1090 (stateDisplay). *)
Definition stateDisplay (state : string) : string * string :=
  if bool_decide (state = "running") then (Green, "● ")
  else if bool_decide (state = "restarting") then (Yellow, "↺ ")
  else if bool_decide (state = "failed") then (Red, "✗ ")
  else if bool_decide (state = "completed") then (Green, "✓ ")
  else (Dim, "■ ").

(** [d.Round(time.Second)] *)
Definition round_second (d : Z) : Z :=
  let r := Z.rem d Second in
  if (d <? 0)%Z then if (- r + - r <? Second)%Z then d - r else d - r - Second
  else if (r + r <? Second)%Z then d - r else d - r + Second.

(** Source: internal/monitor/monitor.go:1096-1108 (formatDuration). *)
Definition formatDuration (d : Z) : string :=
  let d := round_second d in
  let h := Z.quot d (3600 * Second) in
  let m := Z.rem (Z.quot d (60 * Second)) 60 in
  let s := Z.rem (Z.quot d Second) 60 in
  if (0 <? h)%Z then itoa h +:+ "h" +:+ itoa m +:+ "m" +:+ itoa s +:+ "s"
  else if (0 <? m)%Z then itoa m +:+ "m" +:+ itoa s +:+ "s"
  else itoa s +:+ "s".

(** ** Frames *)

(** [strings.Repeat], which panics on a negative count. *)
Definition Repeat (s : string) (n : Z) : option string :=
  if (n <? 0)%Z then None else Some (fold_right String.append "" (replicate (Z.to_nat n) s)).

(** [s[start:end]] *)
Definition slice {A} (l : list A) (start stop : Z) : option (list A) :=
  if (0 <=? start)%Z && (start <=? stop)%Z && (stop <=? Z.of_nat (length l))%Z
  then Some (take (Z.to_nat (stop - start)) (drop (Z.to_nat start) l)) else None.

(** A row between the borders, or a line of a terminal that is too small. *)
Inductive draw : Type :=
  | Top (border : string)
  | Row (row : Z) (content : string)
  | Line (row : Z) (text : string)
  | Bottom (row : Z) (border : string).

Section frame.
(** [unicode.Mn]; [%.1f] of a processor share and of an amount of memory, with
    whether it is positive; whether colours are disabled. *)
Context (is_Mn : Z → bool) (format_float : Z → string) (disabled : bool).

Notation cellWidthString := (cellWidthString is_Mn).
Notation truncate := (truncate is_Mn).
Notation padRight := (padRight is_Mn).

(** [%-ns] counts characters. *)
Definition pad_fmt (n : nat) (s : string) : string := s +:+ spaces (Z.of_nat n - Z.of_nat (length (runes s))).

(** Source: internal/monitor/monitor.go:1110-1115 (formatCPU). *)
Definition formatCPU (cpu : Z) : string := if (cpu <=? 0)%Z then "-" else format_float cpu +:+ "%".

(** Source: internal/monitor/monitor.go:1117-1122 (formatMemory). *)
Definition formatMemory (memMB : Z) : string := if (memMB <=? 0)%Z then "-" else format_float memMB +:+ "MB".

(** Source: internal/monitor/monitor.go:1004-1012 (maxProcNameLen). *)
Definition maxProcNameLen (m : monitor) : Z :=
  fold_left (λ n name, Z.max n (cellWidthString name)) (m_procOrder m) (cellWidthString "PROCESS").

(** Source: internal/monitor/monitor.go:1014-1027 (procColorIdx). *)
Definition procColorIdx (name : string) (m : monitor) : Z :=
  match m_procs m !! name with
  | Some st => ps_ColorIndex st
  | None => let h := fold_left (λ h c, int64 (int64 (h * 31) + c)) (runes name) 0%Z in if (h <? 0)%Z then int64 (- h) else h
  end.

(** Source: internal/monitor/monitor.go:618-625 (renderFrame, frameContent). *)
Definition frameContent (m : monitor) (content : string) : option string :=
  let contentLimit := (m_width m - 2 - 1)%Z in
  let content := if (contentLimit <? visibleWidth is_Mn content)%Z then truncate (stripColor content) contentLimit else content in
  pad ← Repeat " " (contentLimit - visibleWidth is_Mn content);
  Some (content +:+ pad).

(** Source: internal/monitor/monitor.go:626-633 (renderFrame, writeBorderedRow). *)
Definition writeBorderedRow (m : monitor) (rc : Z * string) : option (list draw) :=
  let '(row, content) := rc in
  if (row <=? 1)%Z || (m_height m <=? row)%Z then Some []
  else content ← frameContent m content; Some [Row row content].

Definition write_rows (m : monitor) (rows : list (Z * string)) : option (list draw) :=
  fold_right (λ rc acc, ds ← writeBorderedRow m rc; acc ← acc; Some (ds ++ acc)) (Some []) rows.

(** Source: internal/monitor/monitor.go:634-638 (renderFrame, writeBlankRows). *)
Definition blank_rows (m : monitor) (from : Z) : list (Z * string) :=
  (λ i, (from + Z.of_nat i, "")%Z) <$> seq 0 (Z.to_nat (m_height m - from)).

(** Source: internal/monitor/monitor.go:646-671 (renderFrame, header). *)
Definition header_rows (m : monitor) : option (list (Z * string)) :=
  let innerW := (m_width m - 2)%Z in
  let title := "proc-compose monitor" in
  let hints := "q=quit  ?=help  ↑↓/jk=nav  ⏎=filter  a=all  PgUp/Dn=scroll" in
  let gap := (innerW - cellWidthString title - cellWidthString hints - 2)%Z in
  pad ← Repeat " " (if (gap <? 1)%Z then 1 else gap);
  let label := "  public: " in
  let maxURLLen := (innerW - cellWidthString label - 2)%Z in
  let url := if (10 <? maxURLLen)%Z && (maxURLLen <? cellWidthString (m_tunnelURL m))%Z then truncate (m_tunnelURL m) maxURLLen else m_tunnelURL m in
  Some ([(2%Z, Bold +:+ Cyan +:+ title +:+ Reset +:+ pad +:+ Dim +:+ hints +:+ Reset);
         (3%Z, "  " +:+ Bold +:+ summaryLine m +:+ Reset)] ++
        if bool_decide (m_tunnelURL m = "") then [] else [(4%Z, Dim +:+ label +:+ Bold +:+ Green +:+ url +:+ Reset)]).

(** [now] is the clock.
    Source: internal/monitor/monitor.go:689-721 (renderFrame, process row). *)
Definition process_row (now : Z) (m : monitor) (row : Z) (i : nat) (name : string) : option (Z * string) :=
  st ← m_procs m !! name;
  let '(cursor, prefix, suffix) := if (Z.of_nat i =? m_selected m)%Z then (Reverse +:+ "▶ " +:+ Reset, Reverse, Reset) else ("  ", "", "") in
  let '(stateColor, stateSym) := stateDisplay (ps_State st) in
  let uptime := if negb (ps_StartedAt st =? 0)%Z && (bool_decide (ps_State st = "running") || bool_decide (ps_State st = "restarting"))
                then formatDuration (now - ps_StartedAt st) else "-" in
  Some ((row + Z.of_nat i)%Z,
    cursor +:+ prefix +:+ Bold +:+ ProcessColor disabled (ps_ColorIndex st) +:+ padRight name (maxProcNameLen m) +:+ Reset +:+ "  "
    +:+ stateColor +:+ stateSym +:+ pad_fmt 11 (ps_State st) +:+ Reset +:+ "  " +:+ pad_fmt 8 (itoa (ps_Restarts st)) +:+ "  "
    +:+ pad_fmt 6 (formatCPU (ps_CPUPercent st)) +:+ "  " +:+ pad_fmt 8 (formatMemory (ps_MemoryMB st)) +:+ "  "
    +:+ pad_fmt 9 (readinessDisplay st) +:+ "  " +:+ uptime +:+ suffix).

(** Source: internal/monitor/monitor.go:682-721 (renderFrame, process table). *)
Definition table_rows (now : Z) (m : monitor) : option (list (Z * string)) :=
  let row := if bool_decide (m_tunnelURL m = "") then 4%Z else 5%Z in
  rows ← fold_right (λ x acc, r ← process_row now m (row + 1) x.1 x.2; acc ← acc; Some (r :: acc)) (Some []) (imap pair (m_procOrder m));
  Some ((row, Dim +:+ "  " +:+ padRight "PROCESS" (maxProcNameLen m) +:+ "  " +:+ pad_fmt 13 "STATUS" +:+ "  " +:+ pad_fmt 8 "RESTARTS" +:+ "  "
    +:+ pad_fmt 6 "CPU%" +:+ "  " +:+ pad_fmt 8 "MEM" +:+ "  " +:+ pad_fmt 9 "READY" +:+ "  UPTIME" +:+ Reset) :: rows).

(** Source: internal/monitor/monitor.go:723-737 (renderFrame, log header). *)
Definition log_header (m : monitor) (border : string) : list (Z * string) :=
  let row := (logAreaStartRow m - 2)%Z in
  let label := if bool_decide (m_filter m = "") then "Logs: all" else "Logs: filtered to " +:+ m_filter m in
  let hint := if (0 <? m_logOffset m)%Z then "  " +:+ Yellow +:+ "[+" +:+ itoa (m_logOffset m) +:+ " lines]" +:+ Reset else "" in
  [(row, border); ((row + 1)%Z, Bold +:+ label +:+ Reset +:+ hint)].

(** The entries that the log area shows.
    Source: internal/monitor/monitor.go:741-758 (renderFrame, display). *)
Definition displayed (m : monitor) (logRows : Z) : option (list LogEntry) :=
  let visible := filteredLogs m in
  let stop := Z.max 0 (Z.of_nat (length visible) - m_logOffset m) in
  let start := Z.max 0 (stop - logRows) in
  slice visible start stop.

(** Source: internal/monitor/monitor.go:768-785 (renderFrame, log line). *)
Definition log_line (m : monitor) (row : Z) (i : nat) (entry : LogEntry) : Z * string :=
  let lineColor := if le_IsError entry then Red else if le_IsEvent entry then Yellow else Reset in
  let line := truncate (sanitizeLogLine (le_Line entry)) (m_width m - 2 - maxProcNameLen m - 4) in
  ((row + Z.of_nat i)%Z,
   Bold +:+ ProcessColor disabled (procColorIdx (le_Process entry) m) +:+ padRight (le_Process entry) (maxProcNameLen m) +:+ Reset +:+ " "
   +:+ Dim +:+ "│" +:+ Reset +:+ " " +:+ lineColor +:+ line +:+ Reset).

(** The log area, and the row below it.
    Source: internal/monitor/monitor.go:739-788 (renderFrame, log lines). *)
Definition log_rows (m : monitor) : option (list (Z * string)) :=
  let row := logAreaStartRow m in
  let logRows := (m_height m - row)%Z in
  if (logRows <? 1)%Z then Some (blank_rows m row)
  else
    display ← displayed m logRows;
    let message := if bool_decide (m_filter m = "") then "No logs yet" else "No logs for " +:+ m_filter m +:+ " yet" in
    let first := if bool_decide (display = []) then [(row, Dim +:+ message +:+ Reset)] else [] in
    let row := (row + Z.of_nat (length first))%Z in
    Some (first ++ imap (log_line m row) display ++ blank_rows m (row + Z.of_nat (length display))).

(** Source: internal/monitor/monitor.go:591-607 (renderFrame, small). *)
Definition small_frame (m : monitor) : list draw :=
  let lines := ["terminal too small " +:+ itoa (m_width m) +:+ "x" +:+ itoa (m_height m); summaryLine m; "press q to quit"; "resize to continue"] in
  imap (λ i line, Line (Z.of_nat i + 1) (truncate line (m_width m - 1))) (take (Z.to_nat (m_height m)) lines).

(** Source: internal/monitor/monitor.go:590-792 (renderFrame). *)
Definition renderFrame (now : Z) (m : monitor) : option (list draw) :=
  if (m_width m <? 40)%Z || (m_height m <? 8)%Z then Some (small_frame m)
  else
    border ← Repeat "─" (m_width m - 2);
    header ← header_rows m;
    table ← table_rows now m;
    logs ← log_rows m;
    rows ← write_rows m (header ++ table ++ log_header m border ++ logs);
    Some (Top border :: rows ++ [Bottom (m_height m) border]).

(** ** The loop *)

(** What the loop selects: an event, the end of the daemon, a key, the end of the
    keyboard, a resize with the size it finds, a tick. *)
Inductive mon_input : Type :=
  | InEvent (names : list string) (ev : mon_event)
  | Disconnected
  | InKey (key : string)
  | KeyboardClosed
  | Resized (size : option (Z * Z))
  | Tick.

(** How a run ends, with its frames. *)
Inductive mon_end : Type := Quit | DaemonGone | NoKeyboard | StillOpen (m : monitor).

(** [inputs] come each with the clock.  A frame comes with the state it was drawn
    from; that of the help overlay is left out.
    Source: internal/monitor/monitor.go:224-275 (eventLoop). *)
Fixpoint eventLoop (inputs : list (Z * mon_input)) (m : monitor) : option (list (monitor * list draw) * mon_end) :=
  match inputs with
  | [] => Some ([], StillOpen m)
  | (now, input) :: inputs =>
      let continue m :=
        frame ← if m_showHelp m && (40 <=? m_width m)%Z && (8 <=? m_height m)%Z then Some [] else renderFrame now m;
        '(frames, e) ← eventLoop inputs m;
        Some ((m, frame) :: frames, e) in
      match input with
      | InEvent names ev => continue (applyEvent names ev m)
      | Disconnected => Some ([], DaemonGone)
      | InKey key =>
          '(quit, m) ← handleKey key m;
          if quit : bool then Some ([], Quit) else continue m
      | KeyboardClosed => Some ([], NoKeyboard)
      | Resized (Some (w, h)) => continue (set_size w h m)
      | Resized None | Tick => continue m
      end
  end.

(** Whether the exit is an error, and the notice it prints.
    Source: internal/monitor/monitor.go:76-85 (reportExit). *)
Definition reportExit (e : mon_end) : option string :=
  match e with NoKeyboard => Some "keyboard input closed — exiting monitor" | _ => None end.
End frame.
