(* ===== verification/MonitorView.v ===== *)
(** * The monitor: what is shown

    The monitor keeps the last lines of the log, its selection stays on a row of
    the table, nothing that is sent to it, typed or resized makes it panic, and
    every row it draws fits between its borders.  Two of its keys and events do
    not do what they are for. *)

From S2P Require Import Prelude GoStrings RunnerState Lifecycle Ipc Output Runes Monitor.

(** ** The ring *)

#[local] Opaque maxLogs.

Lemma maxLogs_pos : 0 < maxLogs.
Proof. with_strategy transparent [maxLogs] unfold maxLogs. lia. Qed.

Definition lastn {A} (n : nat) (l : list A) : list A := drop (length l - n) l.

(** The ring has the last of the lines [l]. *)
Record ring_ok (l : list LogEntry) (m : monitor) : Prop := mkRingOk {
  ro_count : m_logCount m = min (length l) maxLogs;
  ro_length : length (m_logs m) = m_logCount m;
  ro_head : m_logHead m < maxLogs;
  ro_partial : m_logCount m < maxLogs → m_logs m = l;
  ro_full : m_logCount m = maxLogs → drop (m_logHead m) (m_logs m) ++ take (m_logHead m) (m_logs m) = lastn maxLogs l;
}.

Lemma ring_ordered l m : ring_ok l m → orderedLogs m = lastn maxLogs l.
Proof.
  intros [H1 H2 H3 H4 H5]. unfold orderedLogs. destruct (m_logCount m <? maxLogs) eqn:E.
  - apply Nat.ltb_lt in E. rewrite (H4 E), H1. unfold lastn. assert (length l < maxLogs) by lia.
    rewrite Nat.min_l by lia. rewrite firstn_all. by replace (length l - maxLogs) with 0 by lia.
  - apply Nat.ltb_ge in E. apply H5. lia.
Qed.

Lemma lastn_snoc {A} n (l : list A) e : 0 < n → n ≤ length l → lastn n (l ++ [e]) = tail (lastn n l) ++ [e].
Proof.
  intros Hn Hl. unfold lastn. rewrite length_app. cbn [length]. rewrite drop_app_le by lia. f_equal.
  replace (length l + 1 - n) with (length l - n + 1) by lia. rewrite <-drop_drop. by destruct (drop (length l - n) l).
Qed.

Lemma ring_push l m e : ring_ok l m → ring_ok (l ++ [e]) (pushLog e m).
Proof.
  intros [H1 H2 H3 H4 H5]. pose proof maxLogs_pos as Hpos. unfold pushLog. destruct (m_logCount m <? maxLogs) eqn:E.
  - apply Nat.ltb_lt in E. specialize (H4 E). split; cbn; rewrite ?length_app; cbn [length]; try lia.
    + apply Nat.mod_upper_bound. lia.
    + by rewrite H4.
    + intros Hf. rewrite Hf, Nat.Div0.mod_same, H4. cbn. rewrite app_nil_r. unfold lastn. rewrite length_app. cbn [length].
      by replace (length l + 1 - maxLogs) with 0 by lia.
  - apply Nat.ltb_ge in E. assert (m_logCount m = maxLogs) as Hc by lia. specialize (H5 Hc).
    assert (m_logHead m < length (m_logs m)) as Hlt by lia. destruct (lookup_lt_is_Some_2 _ _ Hlt) as [x Hx].
    split; cbn; rewrite ?length_app, ?length_insert; cbn [length]; try lia.
    + apply Nat.mod_upper_bound. lia.
    + intros _. rewrite lastn_snoc, <-H5 by lia. set (A := take (m_logHead m) (m_logs m)). set (B := drop (S (m_logHead m)) (m_logs m)).
      assert (m_logs m = A ++ x :: B) as El by (symmetry; by apply take_drop_middle).
      assert (length A = m_logHead m) as HA by (unfold A; rewrite length_take; lia).
      assert (drop (m_logHead m) (m_logs m) = x :: B) as -> by by apply drop_S.
      assert (length A + S (length B) = maxLogs) as HB by (rewrite El, length_app in H2; cbn in H2; lia).
      rewrite El, <-HA. clearbody A B. rewrite insert_app_r_alt, Nat.sub_diag by lia. cbn [insert list_insert app tail].
      destruct (decide (S (length A) = maxLogs)) as [Hw|Hw].
      * rewrite Hw, Nat.Div0.mod_same. cbn. assert (B = []) as -> by (apply nil_length_inv; lia). cbn. by rewrite app_nil_r.
      * rewrite Nat.mod_small by lia. rewrite <-(Nat.add_1_r (length A)).
        rewrite drop_app_add, take_app_add. cbn. by rewrite (assoc_L (++)).
Qed.

Lemma ring_pushes es : ∀ l m, ring_ok l m → ring_ok (l ++ es) (pushLogs es m).
Proof.
  unfold pushLogs. induction es as [|e es IH]; intros l m H; cbn; [by rewrite app_nil_r|].
  replace (l ++ e :: es) with ((l ++ [e]) ++ es) by by rewrite <-(assoc_L (++)). apply IH. by apply ring_push.
Qed.

(** ** The table *)

#[export] Instance row_le_trans procs : Transitive (row_le procs).
Proof.
  intros x y z [H1|[E1 H1]] [H2|[E2 H2]]; unfold row_le; [left; lia..|right]. split; [lia|]. by etrans.
Qed.

#[export] Instance row_le_total procs : Total (row_le procs).
Proof.
  intros x y. unfold row_le. destruct (Nat.lt_total (healthRank (procs !! x)) (healthRank (procs !! y))) as [H|[H|H]]; [by left; left| |by right; left].
  destruct (total str_le x y); [left|right]; right; by split.
Qed.

(** The table has the processes, sorted; the selection is on a row; the process
    that is tracked is the one on it. *)
Record table_ok (m : monitor) : Prop := mkTableOk {
  to_rows : m_procOrder m ≡ₚ keys (m_procs m);
  to_sorted : StronglySorted (row_le (m_procs m)) (m_procOrder m);
  to_selected : (0 ≤ m_selected m)%Z ∧ (m_procOrder m = [] → m_selected m = 0%Z) ∧ (m_procOrder m ≠ [] → (m_selected m < Z.of_nat (length (m_procOrder m)))%Z);
  to_name : m_selectedName m = "" ∨ m_procOrder m !! Z.to_nat (m_selected m) = Some (m_selectedName m);
}.

Lemma index_spec name order i : indexOfName name order = Some i → order !! i = Some name.
Proof.
  unfold indexOfName. destruct (list_find _ order) as [[j x]|] eqn:E; [|done]. cbn. intros [= <-].
  apply list_find_Some in E as (H & -> & _). done.
Qed.

Lemma index_found name order : name ∈ order → is_Some (indexOfName name order).
Proof.
  intros Hin. unfold indexOfName. destruct (list_find_elem_of (λ candidate, candidate = name) order name) as [[i x] H]; [done|done|].
  rewrite H. by eexists.
Qed.

Lemma sync_same m : m_procOrder (syncSelection m) = m_procOrder m ∧ m_procs (syncSelection m) = m_procs m ∧
  m_logOffset (syncSelection m) = m_logOffset m ∧ (m_selectedName m ≠ "" → m_selectedName m ∈ m_procOrder m →
    m_procOrder m !! Z.to_nat (m_selected (syncSelection m)) = Some (m_selectedName m) ∧ m_selectedName (syncSelection m) = m_selectedName m).
Proof.
  unfold syncSelection. case_bool_decide as Hn; cbn [negb].
  - case_match; by split_and!.
  - destruct (indexOfName _ _) as [i|] eqn:E; (split_and!; [done..|]); intros _ Hin.
    + cbn. rewrite Nat2Z.id. split; [by apply index_spec|done].
    + destruct (index_found _ _ Hin) as [i Hi]. congruence.
Qed.

Lemma sync_ok m : m_procOrder m ≡ₚ keys (m_procs m) → StronglySorted (row_le (m_procs m)) (m_procOrder m) → (0 ≤ m_selected m)%Z →
  table_ok (syncSelection m).
Proof.
  intros Hp Hs H0. unfold syncSelection. case_bool_decide as Hn; cbn [negb].
  - destruct (Z.of_nat (length (m_procOrder m)) <=? m_selected m)%Z eqn:E.
    + split; cbn; try done; [|by left]. split_and!; [lia|intros ->; cbn; lia|]. intros Hne. destruct (m_procOrder m); [done|cbn [length]; lia].
    + split; try done; [|by left]. split_and!; [done| |lia]. intros He. apply Z.leb_gt in E. rewrite He in E. cbn [length] in E. lia.
  - destruct (indexOfName _ _) as [i|] eqn:E.
    + apply index_spec in E. pose proof (lookup_lt_Some _ _ _ E) as Hlt. split; cbn; try done; [|right; by rewrite Nat2Z.id].
      split_and!; [lia|intros He; rewrite He in Hlt; cbn in Hlt; lia|lia].
    + split; cbn; try done.
      * split_and!; [lia|intros ->; cbn; lia|]. intros Hne. destruct (m_procOrder m); [done|cbn [length]; lia].
      * destruct (m_procOrder m) as [|x l] eqn:El; [by left|right]. cbn [length Nat.ltb Nat.leb].
        destruct (lookup_lt_is_Some_2 (x :: l) (Z.to_nat (Z.max 0 (Z.min (m_selected m) (Z.of_nat (length (x :: l)) - 1))))) as [y Hy]; [cbn [length]; lia|].
        cbn [length] in Hy. by rewrite Hy.
Qed.

Lemma rebuild_ok names m : names ≡ₚ keys (m_procs m) → (0 ≤ m_selected m)%Z → table_ok (rebuildOrder names m).
Proof.
  intros Hn H0. unfold rebuildOrder. apply sync_ok; cbn; [|apply StronglySorted_merge_sort; apply _|done].
  by rewrite merge_sort_Permutation.
Qed.

(** Two rows with the same rank and name are the same row: the order in which
    the map is visited plays no role. *)
Lemma rebuild_order_indep names names' m : names ≡ₚ names' → rebuildOrder names m = rebuildOrder names' m.
Proof.
  intros Hp. unfold rebuildOrder. assert (merge_sort (row_le (m_procs m)) names = merge_sort (row_le (m_procs m)) names') as ->; [|done].
  apply (StronglySorted_unique_strong (row_le (m_procs m))); [|apply StronglySorted_merge_sort; apply _..|by rewrite !merge_sort_Permutation].
  intros x y _ _ [H1|[E1 H1]] [H2|[E2 H2]]; [lia..|]. by apply (anti_symm str_le).
Qed.

Lemma move_ok delta m : table_ok m → table_ok (moveSelection delta m).
Proof.
  intros Hok. unfold moveSelection. case_bool_decide; [done|]. case_match; [done|]. destruct Hok as [H1 H2 [H3 _] _]. by apply sync_ok.
Qed.

Lemma move_same delta m : m_procs (moveSelection delta m) = m_procs m ∧ m_logOffset (moveSelection delta m) = m_logOffset m.
Proof. unfold moveSelection. case_bool_decide; [done|]. case_match; [done|]. split; [by rewrite (proj1 (proj2 (sync_same _)))|by rewrite (proj1 (proj2 (proj2 (sync_same _))))]. Qed.

Definition same_table (m m' : monitor) : Prop :=
  m_procOrder m' = m_procOrder m ∧ m_procs m' = m_procs m ∧ m_selected m' = m_selected m ∧ m_selectedName m' = m_selectedName m.

Lemma same_table_ok m m' : same_table m m' → table_ok m → table_ok m'.
Proof. intros (E1 & E2 & E3 & E4) [H1 H2 H3 H4]. split; rewrite ?E1, ?E2, ?E3, ?E4; done. Qed.

Lemma pushLogs_same es : ∀ m, same_table m (pushLogs es m) ∧ m_logOffset (pushLogs es m) = m_logOffset m.
Proof.
  unfold pushLogs. induction es as [|e es IH]; intros m; cbn; [by split|]. destruct (IH (pushLog e m)) as [(E1 & E2 & E3 & E4) E5].
  rewrite E5. unfold same_table. rewrite E1, E2, E3, E4. unfold pushLog. by destruct (_ <? _).
Qed.

(** The monitor between two inputs. *)
Record monitor_ok (m : monitor) : Prop := mkMonitorOk { mo_table : table_ok m; mo_offset : (0 ≤ m_logOffset m)%Z }.

Lemma apply_ok names ev m : names ≡ₚ keys (procs_after ev (m_procs m)) → monitor_ok m → monitor_ok (applyEvent names ev m).
Proof.
  intros Hn [Ht Ho]. assert (∀ ev', names ≡ₚ keys (procs_after ev' (m_procs m)) → monitor_ok (rebuildOrder names (with_procs (procs_after ev' (m_procs m)) m))) as Hre.
  { intros ev' Hn'. split; [apply rebuild_ok; [done|apply (to_selected _ Ht)]|]. unfold rebuildOrder. by rewrite (proj1 (proj2 (proj2 (sync_same _)))). }
  destruct ev as [processes recent url|[log|]|[p|]|url|]; cbn [applyEvent]; try by split.
  - specialize (Hre _ Hn) as [Ht' Ho']. set (m1 := rebuildOrder _ _) in *. destruct (pushLogs_same recent m1) as [Hs E].
    assert (monitor_ok (pushLogs recent m1)) as [Ht2 Ho2] by (split; [by eapply same_table_ok|by rewrite E]). case_bool_decide; [by split|split; [by apply (same_table_ok (pushLogs recent m1))|done]].
  - assert (monitor_ok (pushLog log m)) as [Ht2 Ho2].
    { change (pushLog log m) with (pushLogs [log] m). destruct (pushLogs_same [log] m) as [Hs E]. split; [by eapply same_table_ok|by rewrite E]. }
    case_match; [|by split]. split; [by apply (same_table_ok (pushLog log m))|]. cbn. lia.
  - by apply Hre.
  - split; [by apply (same_table_ok m)|done].
Qed.

Lemma key_ok key m : monitor_ok m → ∃ quit m', handleKey key m = Some (quit, m') ∧ monitor_ok m' ∧ m_procs m' = m_procs m.
Proof.
  intros [Ht Ho]. assert (∀ m', same_table m m' → (0 ≤ m_logOffset m')%Z → monitor_ok m' ∧ m_procs m' = m_procs m) as Hsame.
  { intros m' Hs Ho'. split; [split; [by apply (same_table_ok m)|done]|]. by destruct Hs as (_ & E & _). }
  assert (∀ delta, monitor_ok (moveSelection delta m) ∧ m_procs (moveSelection delta m) = m_procs m) as Hmove.
  { intros delta. destruct (move_same delta m) as [E1 E2]. split; [split; [by apply move_ok|by rewrite E2]|done]. }
  assert ((1 ≤ logAreaRows m)%Z) as Hrows by (unfold logAreaRows; case_match; lia).
  unfold handleKey. destruct (m_showHelp m); [case_bool_decide; eexists _, _; (split; [done|]); by apply Hsame|].
  assert (∀ (quit : bool) m', monitor_ok m' ∧ m_procs m' = m_procs m → ∃ quit' m'', Some (quit, m') = Some (quit', m'') ∧ monitor_ok m'' ∧ m_procs m'' = m_procs m) as Hgive.
  { intros quit m' H. by exists quit, m'. }
  unfold press. do 2 (case_bool_decide; [by apply Hgive, Hsame|]). do 2 (case_bool_decide; [by apply Hgive, Hmove|]).
  case_bool_decide; [|do 5 (case_bool_decide; [apply Hgive, Hsame; [done|cbn; lia]|]); by apply Hgive, Hsame].
  destruct (m_procOrder m) as [|x l] eqn:El; [by apply Hgive, Hsame|]. rewrite <-El. destruct (to_selected _ Ht) as (Hlo & _ & Hlt).
  specialize (Hlt ltac:(by rewrite El)). destruct (m_selected m <? 0)%Z eqn:Eneg; [apply Z.ltb_lt in Eneg; lia|].
  destruct (lookup_lt_is_Some_2 (m_procOrder m) (Z.to_nat (m_selected m))) as [y Hy]; [lia|]. rewrite Hy. cbn [mbind option_bind].
  destruct (0 <? length (m_procOrder m)); by apply Hgive, Hsame.
Qed.

(** ** Frames *)

Section frames.
Context (is_Mn : Z → bool) (format_float : Z → string) (disabled : bool).
Hypothesis space_takes : is_Mn 32 = false.

Notation renderFrame := (renderFrame is_Mn format_float disabled).

(** A frame fits a terminal of this size: a row is between the borders and takes
    exactly the cells between them, a line is on the screen. *)
Definition fits (width height : Z) (d : draw) : Prop :=
  match d with
  | Top _ => True
  | Row row content => (1 < row < height)%Z ∧ visibleWidth is_Mn content = (width - 3)%Z
  | Line row text => (1 ≤ row ≤ height)%Z ∧ (cellWidthString is_Mn text ≤ Z.max 0 (width - 1))%Z
  | Bottom row _ => row = height
  end.

Lemma Repeat_spaces n : (0 ≤ n)%Z → Repeat " " n = Some (spaces n).
Proof.
  intros Hn. unfold Repeat, spaces. destruct (n <? 0)%Z eqn:E; [apply Z.ltb_lt in E; lia|]. f_equal.
  induction (Z.to_nat n) as [|k IH]; [done|]. cbn [replicate fold_right]. rewrite IH. reflexivity.
Qed.

Lemma Repeat_some s n : (0 ≤ n)%Z → is_Some (Repeat s n).
Proof. intros Hn. unfold Repeat. destruct (n <? 0)%Z eqn:E; [apply Z.ltb_lt in E; lia|by eexists]. Qed.

Lemma frameContent_fits m content : (40 ≤ m_width m)%Z →
  ∃ c, frameContent is_Mn m content = Some c ∧ visibleWidth is_Mn c = (m_width m - 3)%Z.
Proof.
  intros Hw. unfold frameContent. set (limit := (m_width m - 2 - 1)%Z). 
  set (c := if (limit <? visibleWidth is_Mn content)%Z then _ else content).
  assert (visibleWidth is_Mn c ≤ limit)%Z as Hc.
  { unfold c. destruct (limit <? visibleWidth is_Mn content)%Z eqn:E; [|apply Z.ltb_ge in E; lia]. apply Z.ltb_lt in E.
    destruct (truncate_runes is_Mn (stripColor content) limit) as [[_ Hno]|(_ & rs & -> & Hv & Hrs)]; [unfold limit; lia|unfold visibleWidth in E; lia|].
    pose proof (strip_narrows is_Mn rs Hv). lia. }
  rewrite Repeat_spaces by lia. cbn. eexists. split; [done|]. rewrite visible_spaces by done. unfold limit in *. lia.
Qed.

Lemma write_rows_fit m rows : (40 ≤ m_width m)%Z → ∃ ds, write_rows is_Mn m rows = Some ds ∧ Forall (fits (m_width m) (m_height m)) ds.
Proof.
  intros Hw. induction rows as [|[row content] rows (ds & IH & Hds)]; [by exists []|].
  change (write_rows is_Mn m ((row, content) :: rows)) with (ds ← writeBorderedRow is_Mn m (row, content); acc ← write_rows is_Mn m rows; Some (ds ++ acc)).
  rewrite IH. unfold writeBorderedRow. destruct ((row <=? 1)%Z || (m_height m <=? row)%Z) eqn:E; [by exists ds|].
  apply orb_false_iff in E as [E1%Z.leb_gt E2%Z.leb_gt]. destruct (frameContent_fits m content Hw) as (c & -> & Hc).
  exists (Row row c :: ds). split; [done|]. constructor; [|done]. split; [lia|done].
Qed.

Lemma process_row_some now m row i name : is_Some (m_procs m !! name) → is_Some (process_row is_Mn format_float disabled now m row i name).
Proof.
  intros [st Hst]. unfold process_row. rewrite Hst. cbn [mbind option_bind].
  destruct (if (Z.of_nat i =? m_selected m)%Z then _ else _) as [[cursor prefix] suffix]. destruct (stateDisplay (ps_State st)) as [stateColor stateSym]. by eexists.
Qed.

Lemma table_rows_some now m : table_ok m → is_Some (table_rows is_Mn format_float disabled now m).
Proof.
  intros Hok. unfold table_rows. set (row := if bool_decide _ then 4%Z else 5%Z). set (xs := imap pair (m_procOrder m)).
  assert (∀ x, x ∈ xs → is_Some (m_procs m !! x.2)) as Hin.
  { intros x (i & y & -> & Hy)%elem_of_lookup_imap. cbn. apply elem_of_keys. rewrite <-(to_rows _ Hok). by eapply list_elem_of_lookup_2. }
  assert (is_Some (fold_right (λ x acc, r ← process_row is_Mn format_float disabled now m (row + 1) x.1 x.2; acc ← acc; Some (r :: acc)) (Some []) xs)) as [rows ->];
    [|by eexists].
  clearbody xs. induction xs as [|x xs IH]; [by eexists|]. cbn [fold_right].
  destruct (process_row_some now m (row + 1) x.1 x.2) as [r ->]; [apply Hin; left|].
  destruct IH as [rows ->]; [intros y Hy; apply Hin; by right|]. by eexists.
Qed.

Lemma displayed_some m rows : (0 ≤ m_logOffset m)%Z → (0 ≤ rows)%Z → is_Some (displayed m rows).
Proof.
  intros Ho Hr. unfold displayed, slice. set (n := Z.of_nat _). assert (0 ≤ n)%Z by lia.
  destruct ((0 <=? _)%Z && _ && _) eqn:E; [by eexists|]. apply andb_false_iff in E as [E|E]; [apply andb_false_iff in E as [E|E]|]; apply Z.leb_gt in E; lia.
Qed.

Lemma render_fits now m : monitor_ok m → ∃ frame, renderFrame now m = Some frame ∧ Forall (fits (m_width m) (m_height m)) frame.
Proof.
  intros [Ht Ho]. unfold Monitor.renderFrame. destruct ((m_width m <? 40)%Z || (m_height m <? 8)%Z) eqn:E.
  - eexists. split; [done|]. unfold small_frame. apply Forall_lookup. intros i d Hd. apply list_lookup_imap_Some in Hd as (line & Hl & ->).
    apply lookup_take_Some in Hl as [_ Hlt]. split; [lia|apply truncate_fits].
  - apply orb_false_iff in E as [E1%Z.ltb_ge E2%Z.ltb_ge]. destruct (Repeat_some "─" (m_width m - 2)) as [border ->]; [lia|]. cbn [mbind option_bind].
    assert (is_Some (header_rows is_Mn m)) as [header ->].
    { unfold header_rows. match goal with |- context [Repeat " " ?n] => destruct (Repeat_some " " n) as [pad ->]; [case_match; lia|] end. by eexists. }
    destruct (table_rows_some now m Ht) as [table ->]. cbn [mbind option_bind].
    assert (is_Some (log_rows is_Mn disabled m)) as [logs ->].
    { unfold log_rows. destruct (_ <? 1)%Z eqn:E3; [by eexists|]. apply Z.ltb_ge in E3. destruct (displayed_some m (m_height m - logAreaStartRow m)) as [d ->]; [done|lia|by eexists]. }
    cbn [mbind option_bind]. destruct (write_rows_fit m (header ++ table ++ log_header m border ++ logs) E1) as (ds & -> & Hds). cbn [mbind option_bind].
    eexists. split; [done|]. constructor; [done|]. apply Forall_app. by split; [|repeat constructor].
Qed.
End frames.

(** ** Runs *)

(** Each event comes with an order of the processes there are after it. *)
Fixpoint orders_ok (inputs : list (Z * mon_input)) (procs : gmap string ProcState) : Prop :=
  match inputs with
  | [] => True
  | (_, InEvent names ev) :: inputs => names ≡ₚ keys (procs_after ev procs) ∧ orders_ok inputs (procs_after ev procs)
  | _ :: inputs => orders_ok inputs procs
  end.

Definition logs_of (ev : mon_event) : list LogEntry :=
  match ev with MSnapshot _ recent _ => recent | MLog (Some log) => [log] | _ => [] end.

(** The log lines among the inputs. *)
Definition received (inputs : list (Z * mon_input)) : list LogEntry :=
  mbind (λ i : Z * mon_input, match i.2 with InEvent _ ev => logs_of ev | _ => [] end) inputs.

(** The ring, and the processes, of two states are the same. *)
Definition same_ring (m m' : monitor) : Prop :=
  m_logs m' = m_logs m ∧ m_logHead m' = m_logHead m ∧ m_logCount m' = m_logCount m.

Lemma same_ring_ok l m m' : same_ring m m' → ring_ok l m → ring_ok l m'.
Proof. intros (E1 & E2 & E3) [H1 H2 H3 H4 H5]. split; rewrite ?E1, ?E2, ?E3; done. Qed.

Lemma sync_ring m : same_ring m (syncSelection m).
Proof. unfold syncSelection. by repeat case_match. Qed.

Lemma rebuild_ring names m : same_ring m (rebuildOrder names m).
Proof. unfold rebuildOrder. destruct (sync_ring (set_table (merge_sort (row_le (m_procs m)) names) (m_procs m) (m_selected m)
  (if bool_decide (m_selectedName m = "") && (0 <=? m_selected m)%Z && (m_selected m <? Z.of_nat (length (m_procOrder m)))%Z
   then default "" (m_procOrder m !! Z.to_nat (m_selected m)) else m_selectedName m) m)) as (E1 & E2 & E3). unfold same_ring. by rewrite E1, E2, E3. Qed.

Lemma apply_ring names ev l m : ring_ok l m → ring_ok (l ++ logs_of ev) (applyEvent names ev m).
Proof.
  intros H. destruct ev as [processes recent url|[log|]|[p|]|url|]; cbn [applyEvent logs_of]; rewrite ?app_nil_r; try done.
  - assert (ring_ok (l ++ recent) (pushLogs recent (rebuildOrder names (with_procs (procs_after (MSnapshot processes recent url) (m_procs m)) m)))) as Hr.
    { apply ring_pushes. eapply same_ring_ok; [apply rebuild_ring|]. by apply (same_ring_ok _ m). }
    case_bool_decide; [done|]. by eapply same_ring_ok; [|exact Hr].
  - case_match; [eapply same_ring_ok; [|by apply ring_push]; done|by apply ring_push].
  - eapply same_ring_ok; [apply rebuild_ring|]. by apply (same_ring_ok _ m).
  - by apply (same_ring_ok _ m).
Qed.

Lemma move_ring delta m : same_ring m (moveSelection delta m).
Proof. unfold moveSelection. case_bool_decide; [done|]. case_match; [done|]. exact (sync_ring (set_table _ _ _ _ m)). Qed.

Lemma key_ring key quit m m' : handleKey key m = Some (quit, m') → same_ring m m'.
Proof.
  assert (∀ q (m0 : monitor), same_ring m m0 → Some (q, m0) = Some (quit, m') → same_ring m m') as Hs by (intros q m0 H0 [= _ <-]; exact H0).
  unfold handleKey. destruct (m_showHelp m); [by case_bool_decide; apply Hs|]. unfold press. do 2 (case_bool_decide; [by apply Hs|]).
  do 2 (case_bool_decide; [by apply Hs, move_ring|]). case_bool_decide; [|by do 5 (case_bool_decide; [by apply Hs|]); apply Hs].
  case_match; [|by apply Hs]. case_match; [done|]. destruct (m_procOrder m !! _); [by apply Hs|done].
Qed.

Section runs.
Context (is_Mn : Z → bool) (format_float : Z → string) (disabled : bool).
Hypothesis space_takes : is_Mn 32 = false.

Definition good_run (l : list LogEntry) (r : option (list (monitor * list draw) * mon_end)) : Prop :=
  ∃ frames e, r = Some (frames, e) ∧ (∀ m frame, (m, frame) ∈ frames → table_ok m ∧ Forall (fits is_Mn (m_width m) (m_height m)) frame) ∧
    (∀ m, e = StillOpen m → orderedLogs m = lastn maxLogs l).

Lemma drawn_good now l m r : monitor_ok m → good_run l r → good_run l
  (frame ← if m_showHelp m && (40 <=? m_width m)%Z && (8 <=? m_height m)%Z then Some [] else renderFrame is_Mn format_float disabled now m;
   '(frames, e) ← r; Some ((m, frame) :: frames, e)).
Proof.
  intros Hm (frames & e & -> & Hf & He).
  assert (∃ frame, (if m_showHelp m && (40 <=? m_width m)%Z && (8 <=? m_height m)%Z then Some [] else renderFrame is_Mn format_float disabled now m) = Some frame ∧
    Forall (fits is_Mn (m_width m) (m_height m)) frame) as (frame & -> & Hfit).
  { case_match; [by exists []|]. by apply render_fits. }
  exists ((m, frame) :: frames), e. split; [done|]. split; [|done]. intros m0 f0 [[= -> ->]|Hin]%elem_of_cons; [split; [apply Hm|done]|by apply Hf].
Qed.

Lemma rebuild_procs names m : m_procs (rebuildOrder names m) = m_procs m.
Proof. unfold rebuildOrder. by rewrite (proj1 (proj2 (sync_same _))). Qed.

Lemma apply_procs names ev m : m_procs (applyEvent names ev m) = procs_after ev (m_procs m).
Proof.
  destruct ev as [processes recent url|[log|]|[p|]|url|]; cbn [applyEvent]; try done.
  - destruct (pushLogs_same recent (rebuildOrder names (with_procs (procs_after (MSnapshot processes recent url) (m_procs m)) m))) as [(_ & E & _) _].
    case_bool_decide; cbn [set_tunnel m_procs]; by rewrite E, rebuild_procs.
  - destruct (pushLogs_same [log] m) as [(_ & E & _) _]. change (pushLog log m) with (pushLogs [log] m). by case_match.
  - apply rebuild_procs.
Qed.

Lemma loop_good inputs : ∀ l m, monitor_ok m → ring_ok l m → orders_ok inputs (m_procs m) →
  good_run (l ++ received inputs) (eventLoop is_Mn format_float disabled inputs m).
Proof.
  induction inputs as [|[now input] inputs IH]; intros l m Hm Hr Ho.
  - exists [], (StillOpen m). rewrite app_nil_r. split_and!; [done|by intros ?? ?%elem_of_nil|]. intros m' [= <-]. by apply ring_ordered.
  - assert (∀ m', monitor_ok m' → ring_ok l m' → orders_ok inputs (m_procs m') → good_run (l ++ received inputs) (eventLoop is_Mn format_float disabled inputs m')) as IHl by (intros; by apply IH).
    assert (∀ e, (∀ m, e ≠ StillOpen m) → good_run (l ++ received inputs) (Some ([], e))) as Hend.
    { intros e Hne. exists [], e. split_and!; [done|by intros ?? ?%elem_of_nil|]. intros m' ->. by destruct (Hne m'). }
    destruct input as [names ev| |key| |[[w h]|]|]; cbn [eventLoop orders_ok] in *.
    + destruct Ho as [Hn Ho]. replace (l ++ received ((now, InEvent names ev) :: inputs)) with ((l ++ logs_of ev) ++ received inputs) by by rewrite <-(assoc_L (++)).
      apply drawn_good; [by apply apply_ok|]. apply IH; [by apply apply_ok|by apply apply_ring|by rewrite apply_procs].
    + by apply Hend.
    + destruct (key_ok key m Hm) as (quit & m' & Hk & Hm' & Hp). rewrite Hk. cbn [mbind option_bind]. destruct quit; [by apply Hend|].
      apply drawn_good; [done|]. apply IHl; [done|by eapply same_ring_ok; [eapply key_ring|]|by rewrite Hp].
    + by apply Hend.
    + assert (monitor_ok (set_size w h m)) as Hm' by (destruct Hm; split; [by apply (same_table_ok m)|done]).
      apply drawn_good; [done|]. apply IHl; [done|by apply (same_ring_ok _ m)|done].
    + apply drawn_good; [done|]. by apply IHl.
    + apply drawn_good; [done|]. by apply IHl.
Qed.

End runs.

(** The selection follows the process it is on through every change of the
    table. *)
Lemma selection_follows names m name : table_ok m → names ≡ₚ keys (m_procs m) → m_selectedName m = name → name ≠ "" → name ∈ keys (m_procs m) →
  let m' := rebuildOrder names m in m_procOrder m' !! Z.to_nat (m_selected m') = Some name.
Proof.
  intros Hok Hn Hname Hne Hin m'. unfold m', rebuildOrder. rewrite Hname. rewrite (bool_decide_false (name = "")) by done. cbn [andb].
  set (m1 := set_table _ _ _ _ _). rewrite (proj1 (sync_same m1)). apply sync_same; [done|]. cbn. by rewrite merge_sort_Permutation, Hn.
Qed.

(** ** Where it does not do what it is for *)

Definition example_log (process line : string) : LogEntry := mkLogEntry 1 "" "" "" 0 "" 0 process line "output" "info" "" "stdout" 0 0 None false 0 false false.

(** The key that jumps to the top of the buffer shows nothing: whatever the
    buffer has, and however many rows there are, after it the log area has no line
    of the buffer at all, and says that there are no logs yet.  And a view that was
    scrolled back does not keep pointing at its content: a line of a process that
    the filter hides moves it. *)
Theorem top_of_buffer_empty :
  (∀ m rows, m_showHelp m = false → (0 ≤ rows)%Z →
    ∃ m', handleKey "g" m = Some (false, m') ∧ filteredLogs m' = filteredLogs m ∧ displayed m' rows = Some []) ∧
  ∃ m log, m_filter m = "a" ∧ le_Process log = "b" ∧ filteredLogs (applyEvent [] (MLog (Some log)) m) = filteredLogs m ∧
    displayed m 1 ≠ displayed (applyEvent [] (MLog (Some log)) m) 1.
Proof.
  split.
  - intros m rows Hh Hrows. unfold handleKey. rewrite Hh. eexists. split; [reflexivity|]. split; [done|]. unfold displayed.
    change (filteredLogs (set_view (m_filter m) (Z.of_nat (length (filteredLogs m))) m)) with (filteredLogs m). cbn [m_logOffset set_view].
    rewrite Z.sub_diag. rewrite !Z.max_l by lia. unfold slice. by destruct (filteredLogs m).
  - with_strategy transparent [maxLogs]
      (exists (set_view "a" 1 (pushLogs [example_log "a" "1"; example_log "a" "2"; example_log "a" "3"] new_monitor)), (example_log "b" "x"); by vm_compute).
Qed.

(** ** Witnesses *)

