(* ===== verification/GoText.v ===== *)
(** * More of the strings package

    Splitting, trimming and lower-casing of text, for the components that read
    files line by line: [strings.Split], [strings.Fields], [strings.Trim] and
    [strings.ToLower], with the lemmas they share. *)

From S2P Require Import Prelude GoStrings ConfigTypes EnvFile.

(** ** Splitting *)

(** [strings.Split(s, c)] for a one-byte separator. *)
Fixpoint split_byte (c : ascii) (s : string) : list string :=
  match s with
  | EmptyString => [""]
  | String a s =>
      if bool_decide (a = c) then "" :: split_byte c s
      else match split_byte c s with
           | l :: ls => String a l :: ls
           | [] => [String a ""]
           end
  end.

Definition push (word : string) (words : list string) : list string :=
  if bool_decide (word = "") then words else word :: words.

(** The words of [s], with [word] read so far. *)
Fixpoint fields_from (word s : string) : list string :=
  match s with
  | EmptyString => push word []
  | String a s1 =>
      if space1 a then push word (fields_from "" s1)
      else match s1 with
           | EmptyString => push (word +:+ String a "") []
           | String b s2 =>
               if space2 a b then push word (fields_from "" s2)
               else match s2 with
                    | EmptyString => fields_from (word +:+ String a "") s1
                    | String c s3 => if space3 a b c then push word (fields_from "" s3)
                                     else fields_from (word +:+ String a "") s1
                    end
           end
  end.

(** [strings.Fields] *)
Definition fields (s : string) : list string := fields_from "" s.

(** ** Trimming *)

Fixpoint drop_while (f : ascii → bool) (s : string) : string :=
  match s with
  | String c t => if f c then drop_while f t else s
  | EmptyString => ""
  end.

(** [strings.Trim(s, cutset)] for a cut set of single-byte characters. *)
Definition trim_set (f : ascii → bool) (s : string) : string :=
  str_rev (drop_while f (str_rev (drop_while f s))).

(** [strings.TrimPrefix(s, p)] *)
Definition trim_prefix (p s : string) : string :=
  if has_prefix p s then skip_bytes (String.length p) s else s.

(** ** Lower case *)

(** [strings.ToLower], as far as ASCII text is searched for in its result: the
    two runes outside ASCII whose lower case is an ASCII letter are replaced,
    and the other bytes of multi-byte runes, which map to multi-byte runes,
    are kept as they are. *)
Fixpoint to_lower (s : string) : string :=
  match s with
  | EmptyString => ""
  | String a s1 =>
      match s1 with
      | String b s2 =>
          if bool_decide (code a = 196) && bool_decide (code b = 176) then String "i" (to_lower s2)
          else match s2 with
               | String c s3 =>
                   if bool_decide (code a = 226) && bool_decide (code b = 132) && bool_decide (code c = 170)
                   then String "k" (to_lower s3) else String (ascii_lower a) (to_lower s1)
               | EmptyString => String (ascii_lower a) (to_lower s1)
               end
      | EmptyString => String (ascii_lower a) ""
      end
  end.

(** ** Lemmas *)

Lemma split_byte_nonempty c s : split_byte c s ≠ [].
Proof. destruct s as [|a s]; cbn; [done|]. case_bool_decide; [done|]. by destruct (split_byte c s). Qed.

Lemma split_byte_app c x y : str_mem c x = false → split_byte c (x +:+ String c y) = x :: split_byte c y.
Proof.
  induction x as [|a x IH]; cbn [String.append]; [intros _; cbn; by rewrite bool_decide_true|].
  rewrite str_mem_cons, orb_false_iff. intros [Ha Hx]. apply bool_decide_eq_false in Ha. cbn [split_byte].
  rewrite bool_decide_false by done. by rewrite IH.
Qed.

Lemma split_byte_single c x : str_mem c x = false → split_byte c x = [x].
Proof.
  induction x as [|a x IH]; [done|]. rewrite str_mem_cons, orb_false_iff. intros [Ha Hx].
  apply bool_decide_eq_false in Ha. cbn [split_byte]. rewrite bool_decide_false by done. by rewrite IH.
Qed.

Lemma split_byte_join c sep l : sep = String c "" → l ≠ [] → (∀ x, x ∈ l → str_mem c x = false) →
  split_byte c (join sep l) = l.
Proof.
  intros ->. induction l as [|x [|y l] IH]; [done|..]; intros _ Hl.
  - cbn [join]. apply split_byte_single. apply Hl. left.
  - cbn [join]. change (String c "" +:+ ?z) with (String c z). rewrite split_byte_app by (apply Hl; left).
    f_equal. apply IH; [done|]. intros z Hz. apply Hl. by right.
Qed.

Lemma str_mem_rev c s : str_mem c (str_rev s) = str_mem c s.
Proof.
  unfold str_mem, str_has, str_rev. rewrite bytes_of_bytes. apply eq_true_iff_eq. rewrite !existsb_exists.
  by setoid_rewrite <- in_rev.
Qed.

Lemma drop_while_suffix f s : ∃ p, s = p +:+ drop_while f s ∧ str_all f p = true.
Proof.
  induction s as [|c s (p & Hs & Hp)]; [by exists ""|]. cbn [drop_while]. destruct (f c) eqn:Hc.
  - exists (String c p). split; [cbn; by rewrite <- Hs|]. cbn. by rewrite Hc.
  - by exists "".
Qed.

Lemma drop_while_head f s c t : drop_while f s = String c t → f c = false.
Proof. induction s as [|a s IH]; cbn [drop_while]; [done|]. destruct (f a) eqn:Ha; [done|]. by intros [= <- <-]. Qed.

Lemma drop_while_id f s : match s with String c _ => f c = false | EmptyString => True end → drop_while f s = s.
Proof. destruct s as [|c s]; [done|]. intros Hc. cbn. by rewrite Hc. Qed.

Lemma trim_prefix_app p s : trim_prefix p (p +:+ s) = s.
Proof.
  unfold trim_prefix. rewrite has_prefix_app. induction p as [|a p IH]; cbn; [by destruct s|done].
Qed.
