(* ===== verification/Doctor.v ===== *)
(** * The doctor: what a project holds

    How [doctor] finds the runnable services of a project: the walk over the
    directories, the Node, Go and Python detectors with their commands and
    ports, and the process names the services are given.  The project is a
    directory tree in the order [os.ReadDir] lists it; the JSON decoder is an
    argument.  The findings and the suggested configuration are in
    [DoctorCheck]. *)

From S2P Require Import Prelude GoStrings ConfigTypes EnvFile GoText.

(** ** The project *)

(** What is not a directory: whether [os.Stat] finds it (a dangling link is
    listed and not found), what [os.ReadFile] returns, and whether its entry is
    a regular file. *)
Record file : Type := mkFile {
  f_stat : bool;
  f_data : option string;
  f_regular : bool;
}.

(** A directory holds its entries in the order of their names. *)
Inductive node : Type :=
  | NFile (f : file)
  | NDir (entries : list (string * node)).

Definition dir : Type := list (string * node).

Fixpoint entry (d : dir) (name : string) : option node :=
  match d with
  | [] => None
  | (n, x) :: d => if bool_decide (n = name) then Some x else entry d name
  end.

(** [os.Stat(filepath.Join(dir, name))] succeeds. *)
Definition stat (d : dir) (name : string) : bool :=
  match entry d name with Some (NFile f) => f_stat f | Some (NDir _) => true | None => false end.

(** [os.ReadFile(filepath.Join(dir, name))] *)
Definition read (d : dir) (name : string) : option string :=
  match entry d name with Some (NFile f) => f_data f | _ => None end.

(** The node at a path below [n]. *)
Fixpoint descend (n : node) (rel : list string) : option node :=
  match rel with
  | [] => Some n
  | name :: rel => match n with
                   | NDir d => x ← entry d name; descend x rel
                   | NFile _ => None
                   end
  end.

Definition dir_at (n : node) (rel : list string) : dir :=
  match descend n rel with Some (NDir d) => d | _ => [] end.

(** [filepath.WalkDir]: [fn] on the node, then, unless it answers
    [filepath.SkipDir], on what the directory holds.  The callbacks return no
    other error. *)
Fixpoint WalkDir {S : Type} (fn : list string → string → node → S → S * bool)
    (rel : list string) (name : string) (n : node) (s : S) : S :=
  let '(s, skip) := fn rel name n s in
  match n with
  | NFile _ => s
  | NDir d =>
      if skip then s
      else (fix walk (d : dir) (s : S) : S :=
              match d with
              | [] => s
              | (name, x) :: d => walk d (WalkDir fn (rel ++ [name]) name x s)
              end) d s
  end.

(** ** The report's services *)

(** Source: internal/doctor/report.go:11-17 (Confidence). *)
Inductive Confidence : Type := ConfidenceLow | ConfidenceMedium | ConfidenceHigh.

#[export] Instance Confidence_eq_dec : EqDecision Confidence.
Proof. solve_decision. Defined.

(** Source: internal/doctor/report.go:19-27 (Service). *)
Record Service : Type := mkService {
  sv_Name : string;
  sv_Command : string;
  sv_Dir : string;
  sv_Port : Z;
  sv_Kind : string;
  sv_Confidence : Confidence;
  sv_Manifest : string;
}.

(** Source: internal/doctor/scan.go:17-23 (packageJSON). *)
Record packageJSON : Type := mkPackageJSON {
  pj_Scripts : gmap string string;
  pj_Dependencies : gmap string string;
  pj_DevDeps : gmap string string;
  pj_PackageManager : string;
  pj_Workspaces : string;
}.

(** [m[key]] of a Go map of strings: the empty string when absent. *)
Definition text_at (m : gmap string string) (key : string) : string := default "" (m !! key).

Definition has_key (m : gmap string string) (key : string) : bool := bool_decide (is_Some (m !! key)).

(** ** Process names *)

(** Source: internal/doctor/scan.go:15-15 (safeProcessNameRe). *)
Definition safeProcessNameRe (s : string) : bool :=
  name_shape (λ c, is_alnum c || bool_decide (c ∈ ["-"; "."; "_"]%char)) s.

Definition kept (c : ascii) : bool := is_alnum c || bool_decide (c ∈ ["."; "_"]%char).

(** Every run of other characters becomes one dash.  A rune outside ASCII is
    one such character, and its bytes are a run.
    Source: internal/doctor/scan.go:597-607 (sanitizeProcessName, rune loop). *)
Fixpoint dashed (lastDash : bool) (s : string) : string :=
  match s with
  | EmptyString => ""
  | String c s =>
      if kept c then String c (dashed false s)
      else if lastDash then dashed true s else String "-" (dashed true s)
  end.

Definition name_edge (c : ascii) : bool := bool_decide (c ∈ ["-"; "."; "_"]%char).

(** Source: internal/doctor/scan.go:590-616 (sanitizeProcessName). *)
Definition sanitizeProcessName (name : string) : string :=
  let name := trim_space name in
  if safeProcessNameRe name then name
  else
    let cleaned := trim_set name_edge (dashed false name) in
    if bool_decide (cleaned = "") then "service"
    else if negb (safeProcessNameRe cleaned) then "service"
    else cleaned.

(** [used[name]] *)
Definition used_at (used : gmap string Z) (name : string) : Z := default 0%Z (used !! name).

(** The loop that looks for a free candidate; the fuel is one more than the
    number of names in use.
    Source: internal/doctor/render.go:105-109 (uniqueProcessNames, candidate loop). *)
Fixpoint free_candidate (fuel : nat) (used : gmap string Z) (name base candidate : string)
    : string * gmap string Z :=
  match fuel with
  | 0 => (candidate, used)
  | S fuel =>
      if (0 <? used_at used candidate)%Z then
        let used := <[name := (used_at used name + 1)%Z]> used in
        free_candidate fuel used name base (base +:+ "-" +:+ itoa (used_at used name))
      else (candidate, used)
  end.

(** Source: internal/doctor/render.go:98-104 (uniqueProcessNames, base). *)
Definition name_base (used : gmap string Z) (name : string) (service : Service) : string :=
  let base := if negb (bool_decide (sv_Dir service = "")) && negb (bool_decide (sv_Dir service = "."))
              then sanitizeProcessName (trim_prefix "./" (sv_Dir service)) else name in
  if bool_decide (base = name) then name +:+ "-" +:+ itoa (used_at used name + 1) else base.

(** Source: internal/doctor/render.go:91-113 (uniqueProcessNames, loop body). *)
Definition unique_step (s : list string * gmap string Z) (service : Service) : list string * gmap string Z :=
  let '(names, used) := s in
  let name := sanitizeProcessName (sv_Name service) in
  if (used_at used name =? 0)%Z then (names ++ [name], <[name := 1%Z]> used)
  else
    let base := name_base used name service in
    let '(candidate, used) := free_candidate (S (size used)) used name base base in
    let used := <[candidate := 1%Z]> used in
    (names ++ [candidate], <[name := (used_at used name + 1)%Z]> used).

(** Source: internal/doctor/render.go:88-115 (uniqueProcessNames). *)
Definition uniqueProcessNames (services : list Service) : list string :=
  (fold_left unique_step services ([], ∅)).1.

Definition set_Name (name : string) (s : Service) : Service :=
  mkService name (sv_Command s) (sv_Dir s) (sv_Port s) (sv_Kind s) (sv_Confidence s) (sv_Manifest s).

(** Source: internal/doctor/scan.go:618-624 (withUniqueServiceNames). *)
Definition withUniqueServiceNames (services : list Service) : list Service :=
  zip_with set_Name (uniqueProcessNames services) services.

(** ** Ports *)

Definition quotes (c : ascii) : bool := bool_decide (code c = 34) || bool_decide (code c = 39).

(** [strconv.Atoi] of an unquoted word, when it is a positive number. *)
Definition positive_port (word : string) : option Z :=
  match atoi (trim_set quotes word) with
  | Some port => if (0 <? port)%Z then Some port else None
  | None => None
  end.

(** Source: internal/doctor/scan.go:358-364 (detectPortArg, prefixes). *)
Definition port_prefixed (field : string) : option Z :=
  foldr (λ prefix next,
           if has_prefix prefix field
           then match positive_port (trim_prefix prefix field) with Some port => Some port | None => next end
           else next) None ["--port="; "-p="].

(** Source: internal/doctor/scan.go:349-365 (detectPortArg, loop). *)
Fixpoint port_arg (fields : list string) : Z :=
  match fields with
  | [] => 0
  | field :: rest =>
      if bool_decide (field = "--port") || bool_decide (field = "-p") then
        match rest with
        | next :: _ => match positive_port next with Some port => port | None => port_arg rest end
        | [] => port_arg rest
        end
      else match port_prefixed field with Some port => port | None => port_arg rest end
  end.

(** Source: internal/doctor/scan.go:344-367 (detectPortArg). *)
Definition detectPortArg (command : string) : Z := port_arg (fields command).

(** The port of one line of a dotenv file.
    Source: internal/doctor/scan.go:424-438 (detectEnvPort, line). *)
Definition env_line_port (line : string) : option Z :=
  let line := trim_prefix "export " (trim_space line) in
  if has_prefix "PORT" line then
    match cut_byte "="%char line with
    | Some (key, value) =>
        if bool_decide (trim_space key = "PORT") then positive_port (trim_space value) else None
    | None => None
    end
  else None.

(** The first value a function finds in a list. *)
Fixpoint first_of {A B : Type} (f : A → option B) (l : list A) : option B :=
  match l with
  | [] => None
  | x :: l => match f x with Some y => Some y | None => first_of f l end
  end.

(** Source: internal/doctor/scan.go:407-416 (detectEnvPort, filenames). *)
Definition env_filenames (d : dir) : list string :=
  [".env.example"; ".env"] ++
  sort_strings (omap (λ e : string * node,
    match e.2 with
    | NFile f => if f_regular f && has_prefix ".env." e.1 && negb (bool_decide (e.1 = ".env.example"))
                 then Some e.1 else None
    | NDir _ => None
    end) d).

(** Source: internal/doctor/scan.go:395-441 (detectEnvPort). *)
Definition detectEnvPort (d : dir) : Z :=
  default 0%Z (first_of (λ filename,
    content ← read d filename; first_of env_line_port (split_byte (chr 10) content)) (env_filenames d)).

(** ** Directories *)

(** Source: internal/doctor/scan.go:633-635 (shouldSkipProjectDir, names). *)
Definition generated_dirs : list string :=
  ["node_modules"; "vendor"; "dist"; "build"; "coverage"; "__pycache__"; ".cache"; ".turbo"; ".worktrees";
   "archive"; "venv"; ".venv"; "tmp"; "temp"].

(** Source: internal/doctor/scan.go:626-638 (shouldSkipProjectDir). *)
Definition shouldSkipProjectDir (path name : string) : bool :=
  if bool_decide (name = ".") || bool_decide (name = "") then false
  else if has_prefix "." name && negb (bool_decide (name = ".")) then true
  else if bool_decide (name ∈ generated_dirs) then true
  else str_contains "/node_modules/" path.

(** [filepath.ToSlash(filepath.Rel(root, path))] *)
Definition rel_path (rel : list string) : string := if bool_decide (rel = []) then "." else join "/" rel.

Section scan.
(** The parent directory of the project, its name and its tree. *)
Context (parent base : string) (root : node).
(** [json.Unmarshal] into [packageJSON]. *)
Context (unmarshal_package : string → option packageJSON).

Definition path_of (rel : list string) : string := join "/" (parent :: base :: rel).

Definition name_of (rel : list string) : string := default base (last rel).

(** ** Node *)

(** Source: internal/doctor/scan.go:194-204 (readPackageJSON). *)
Definition readPackageJSON (d : dir) : option packageJSON := data ← read d "package.json"; unmarshal_package data.

Definition scripts_run (pkg : packageJSON) (word : string) : bool :=
  existsb (λ name, bool_decide (word ∈ fields (text_at (pj_Scripts pkg) name))) ["dev"; "start"].

Definition depends (pkg : packageJSON) (name : string) : bool :=
  has_key (pj_Dependencies pkg) name || has_key (pj_DevDeps pkg) name.

(** Source: internal/doctor/scan.go:206-291 (detectNodePort). *)
Definition detectNodePort (d : dir) (pkg : packageJSON) : Z :=
  let port := detectEnvPort d in
  if (0 <? port)%Z then port else
  match first_of (λ name, let port := detectPortArg (text_at (pj_Scripts pkg) name) in
                          if (0 <? port)%Z then Some port else None) ["dev"; "start"] with
  | Some port => port
  | None =>
      let hasVite := scripts_run pkg "vite" || depends pkg "vite" in
      let hasNext := scripts_run pkg "next" || depends pkg "next" in
      let hasSvelteKit := scripts_run pkg "svelte-kit" || depends pkg "@sveltejs/kit" in
      let hasAstro := scripts_run pkg "astro" || depends pkg "astro" in
      if hasAstro then 4321
      else if hasVite then 5173
      else if hasSvelteKit then 5173
      else if hasNext then 3000
      else 0
  end.

(** Source: internal/doctor/scan.go:326-336 (detectNodePackageManager, lockfiles). *)
Definition lockfile_manager (d : dir) : option string :=
  first_of (λ candidate : string * string, if stat d candidate.1 then Some candidate.2 else None)
    [("pnpm-lock.yaml", "pnpm"); ("yarn.lock", "yarn"); ("bun.lockb", "bun"); ("bun.lock", "bun");
     ("package-lock.json", "npm")].

(** From the directory up to the root; the path is held innermost first.
    Source: internal/doctor/scan.go:324-341 (detectNodePackageManager, climb). *)
Fixpoint climb (current : list string) : string :=
  match lockfile_manager (dir_at root (rev current)) with
  | Some manager => manager
  | None => match current with
            | [] => "npm"
            | _ :: up => climb up
            end
  end.

(** [strings.SplitN(s, "@", 2)[0]] *)
Definition before_at (s : string) : string :=
  match cut_byte "@"%char s with Some (name, _) => name | None => s end.

(** Source: internal/doctor/scan.go:313-342 (detectNodePackageManager). *)
Definition detectNodePackageManager (rel : list string) (pkg : packageJSON) : string :=
  let name := before_at (pj_PackageManager pkg) in
  if negb (bool_decide (pj_PackageManager pkg = "")) && bool_decide (name ∈ ["npm"; "pnpm"; "yarn"; "bun"])
  then name else climb (rev rel).

(** Source: internal/doctor/scan.go:293-311 (detectNodeCommand). *)
Definition detectNodeCommand (rel : list string) (pkg : packageJSON) : string :=
  let manager := detectNodePackageManager rel pkg in
  default "" (first_of (λ scriptName,
    if has_key (pj_Scripts pkg) scriptName
    then Some (if bool_decide (manager ∈ ["yarn"; "pnpm"; "bun"]) then manager +:+ " " +:+ scriptName
               else "npm run " +:+ scriptName)
    else None) ["dev"; "start"]).

(** Source: internal/doctor/scan.go:369-383 (hasDirectNodeDevServer). *)
Definition hasDirectNodeDevServer (pkg : packageJSON) : bool :=
  existsb (λ command, existsb (λ field, bool_decide (field ∈ ["vite"; "next"; "astro"; "svelte-kit"])) (fields command))
    [text_at (pj_Scripts pkg) "dev"; text_at (pj_Scripts pkg) "start"].

(** Source: internal/doctor/scan.go:385-393 (isAggregateNodePackage). *)
Definition isAggregateNodePackage (pkg : packageJSON) : bool :=
  if negb (bool_decide (pj_Workspaces pkg = "")) && negb (bool_decide (pj_Workspaces pkg = "null")) then true
  else str_contains "concurrently" (text_at (pj_Scripts pkg) "dev").

(** What the walk makes of one directory.
    Source: internal/doctor/scan.go:150-190 (scanNodeServices, package). *)
Definition node_service (rel : list string) (d : dir) : option Service :=
  if negb (stat d "package.json") then None else
  pkg ← readPackageJSON d;
  if isAggregateNodePackage pkg && negb (hasDirectNodeDevServer pkg) then None else
  let script := detectNodeCommand rel pkg in
  if bool_decide (script = "") then None else
  let port := detectNodePort d pkg in
  let at_root := bool_decide (rel_path rel = ".") in
  Some (mkService (sanitizeProcessName (name_of rel)) script
          (if at_root then "." else "./" +:+ rel_path rel) port "node" ConfidenceHigh
          (if at_root then "package.json" else "./" +:+ rel_path rel +:+ "/package.json")).

(** Source: internal/doctor/scan.go:140-191 (scanNodeServices, callback). *)
Definition node_callback (rel : list string) (name : string) (n : node) (services : list Service)
    : list Service * bool :=
  match n with
  | NFile _ => (services, false)
  | NDir d =>
      if negb (bool_decide (rel = [])) && shouldSkipProjectDir (path_of rel) name then (services, true)
      else match node_service rel d with
           | Some s => (services ++ [s], false)
           | None => (services, false)
           end
  end.

(** Source: internal/doctor/scan.go:125-192 (scanNodeServices). *)
Definition scanNodeServices (services : list Service) : list Service :=
  WalkDir node_callback [] base root services.

(** ** Go *)

(** Source: internal/doctor/scan.go:530-536 (isGoMain). *)
Definition isGoMain (d : dir) : bool :=
  match read d "main.go" with Some data => str_contains "package main" data | None => false end.

(** Source: internal/doctor/scan.go:538-545 (safeRelativeCommandPath). *)
Definition safeRelativeCommandPath (path : string) : bool :=
  forallb safeProcessNameRe (split_byte "/"%char path).

(** Source: internal/doctor/scan.go:515-528 (addRootGoService). *)
Definition addRootGoService (services : list Service) : list Service :=
  let d := dir_at root [] in
  if negb (isGoMain d) then services
  else services ++ [mkService (sanitizeProcessName base) "go run ." "." (detectEnvPort d) "go" ConfidenceMedium
                      "go.mod"].

(** Source: internal/doctor/scan.go:476-502 (scanGoServices, directory). *)
Definition go_service (rel : list string) (d : dir) : option Service :=
  if negb (isGoMain d) then None else
  let name := name_of rel in
  if negb (safeProcessNameRe name) then None else
  if negb (safeRelativeCommandPath (rel_path rel)) then None else
  let port := detectEnvPort d in
  let port := if (port =? 0)%Z then detectEnvPort (dir_at root []) else port in
  Some (mkService (sanitizeProcessName name) ("go run ./" +:+ rel_path rel) "." port "go" ConfidenceMedium "go.mod").

(** The services and [found].
    Source: internal/doctor/scan.go:469-505 (scanGoServices, callback). *)
Definition go_callback (rel : list string) (name : string) (n : node) (s : list Service * bool)
    : (list Service * bool) * bool :=
  match n with
  | NFile _ => (s, false)
  | NDir d =>
      if negb (bool_decide (rel = ["cmd"])) && shouldSkipProjectDir (path_of rel) name then (s, true)
      else match go_service rel d with
           | Some x => ((s.1 ++ [x], true), false)
           | None => (s, false)
           end
  end.

(** Source: internal/doctor/scan.go:443-513 (scanGoServices). *)
Definition scanGoServices (services : list Service) : list Service :=
  let d := dir_at root [] in
  if negb (stat d "go.mod") then services
  else if negb (stat d "cmd") then addRootGoService services
  else
    let '(services, found) :=
      match entry d "cmd" with
      | Some n => WalkDir go_callback ["cmd"] "cmd" n (services, false)
      | None => (services, false)
      end in
    if negb found then addRootGoService services else services.

(** ** Python *)

Definition python_manifests : list string := ["pyproject.toml"; "requirements.txt"; "Pipfile"; "poetry.lock"].

(** Source: internal/doctor/scan.go:697-707 (pythonRunner). *)
Definition pythonRunner (d : dir) : string :=
  if stat d "poetry.lock" then "poetry run " else if stat d "Pipfile" then "pipenv run " else "".

(** Source: internal/doctor/scan.go:709-721 (pythonManifestText). *)
Definition pythonManifestText (d : dir) : string :=
  join (String (chr 10) "") (omap (λ name, to_lower <$> read d name) python_manifests).

(** Source: internal/doctor/scan.go:723-731 (pythonFileContains). *)
Definition pythonFileContains (d : dir) (name needle : string) : bool :=
  match read d name with Some data => str_contains needle data | None => false end.

(** Source: internal/doctor/scan.go:733-740 (hasPythonManifest). *)
Definition hasPythonManifest (d : dir) : bool := existsb (stat d) python_manifests.

(** A port, or the framework's default. *)
Definition port_or (default port : Z) : Z := if (port =? 0)%Z then default else port.

(** The command, the manifest, the port and the confidence.
    Source: internal/doctor/scan.go:640-695 (detectPythonCommand). *)
Definition detectPythonCommand (d : dir) : string * string * Z * Confidence :=
  let port := detectEnvPort d in
  if stat d "manage.py" then
    ("python manage.py runserver 0.0.0.0:" +:+ itoa (port_or 8000 port), "manage.py", port_or 8000 port, ConfidenceHigh)
  else
  let manifestText := pythonManifestText d in
  let runner := pythonRunner d in
  if stat d "app.py" && hasPythonManifest d then
    if str_contains "flask" manifestText then
      (runner +:+ "python -m flask --app app run --host 0.0.0.0 --port " +:+ itoa (port_or 5000 port), "app.py",
       port_or 5000 port, ConfidenceHigh)
    else (runner +:+ "python app.py", "app.py", port, ConfidenceMedium)
  else if stat d "main.py" && hasPythonManifest d then
    if str_contains "uvicorn" manifestText || str_contains "fastapi" manifestText
       || pythonFileContains d "main.py" "FastAPI" then
      (runner +:+ "python -m uvicorn main:app --host 0.0.0.0 --port " +:+ itoa (port_or 8000 port) +:+ " --reload",
       "main.py", port_or 8000 port, ConfidenceHigh)
    else if str_contains "hypercorn" manifestText then
      (runner +:+ "python -m hypercorn main:app --bind 0.0.0.0:" +:+ itoa (port_or 8000 port) +:+ " --reload",
       "main.py", port_or 8000 port, ConfidenceHigh)
    else if str_contains "flask" manifestText then
      (runner +:+ "python -m flask --app main run --host 0.0.0.0 --port " +:+ itoa (port_or 5000 port), "main.py",
       port_or 5000 port, ConfidenceHigh)
    else (runner +:+ "python main.py", "main.py", port, ConfidenceMedium)
  else ("", "", 0%Z, ConfidenceLow).

(** Source: internal/doctor/scan.go:559-586 (scanPythonServices, directory). *)
Definition python_service (rel : list string) (d : dir) : option Service :=
  let '(command, manifest, port, confidence) := detectPythonCommand d in
  if bool_decide (command = "") then None else
  let at_root := bool_decide (rel_path rel = ".") in
  Some (mkService (sanitizeProcessName (if at_root then base else name_of rel)) command
          (if at_root then "." else "./" +:+ rel_path rel) port "python" confidence
          (if at_root then manifest else "./" +:+ rel_path rel +:+ "/" +:+ manifest)).

(** Source: internal/doctor/scan.go:548-587 (scanPythonServices, callback). *)
Definition python_callback (rel : list string) (name : string) (n : node) (services : list Service)
    : list Service * bool :=
  match n with
  | NFile _ => (services, false)
  | NDir d =>
      if shouldSkipProjectDir (path_of rel) name then (services, true)
      else match python_service rel d with
           | Some s => (services ++ [s], false)
           | None => (services, false)
           end
  end.

(** Source: internal/doctor/scan.go:547-588 (scanPythonServices). *)
Definition scanPythonServices (services : list Service) : list Service :=
  WalkDir python_callback [] base root services.

(** ** The scan *)

(** Source: internal/doctor/scan.go:76-81 (Run, order). *)
Definition service_le (a b : Service) : Prop :=
  if bool_decide (sv_Dir a = sv_Dir b) then str_le (sv_Name a) (sv_Name b) else str_le (sv_Dir a) (sv_Dir b).

#[export] Instance service_le_dec : RelDecision service_le.
Proof. intros a b. unfold service_le. destruct (bool_decide _); apply _. Defined.

(** Services with the same directory and the same name are left in the order
    they were found.
    Source: internal/doctor/scan.go:64-82 (Run, services). *)
Definition detectServices : list Service :=
  withUniqueServiceNames
    (merge_sort service_le (scanPythonServices (scanGoServices (scanNodeServices [])))).

End scan.
