(* ===== verification/DoctorScan.v ===== *)
(** * The doctor: what the scan promises

    The names are distinct, the walk reaches exactly the directories it should,
    the services are exactly those of the directories it reaches, and no text
    of the project gets into a command. *)

From S2P Require Import Prelude GoStrings ConfigTypes EnvFile GoText Doctor.


(** ** Names *)

(** A name is its first character, its last one and what is between them. *)
Lemma safe_chars s : safeProcessNameRe s = true → str_all (λ c, is_alnum c || name_edge c) s = true ∧ s ≠ "".
Proof.
  intros Hs. destruct (name_shape_bytes (λ c, is_alnum c || name_edge c) s) as [H1 H2]; [by intros c ->|done|].
  split; [done|]. by intros ->.
Qed.

Lemma last_char_app (l : list ascii) c d : List.last (l ++ [c]) d = c.
Proof. induction l as [|a l IH]; [done|]. cbn. rewrite IH. by destruct l. Qed.

Lemma safe_iff c s d : safeProcessNameRe (String c s +:+ String d "") =
  is_alnum c && str_all (λ c, is_alnum c || name_edge c) s && is_alnum d.
Proof.
  unfold safeProcessNameRe, name_shape. cbn [String.append]. cbn [bytes]. rewrite bytes_app. cbn [bytes].
  destruct (bytes s ++ [d]) as [|x l] eqn:E; [by destruct (bytes s)|]. rewrite <- E.
  rewrite last_char_app, removelast_last. done.
Qed.

Lemma safe_single c : safeProcessNameRe (String c "") = is_alnum c.
Proof. done. Qed.

Lemma safe_cases s : s ≠ "" → (∃ c, s = String c "") ∨ ∃ c m d, s = String c m +:+ String d "".
Proof.
  destruct s as [|c s]; [done|]. intros _. destruct (decide (s = "")) as [->|Hs]; [left; by exists c|].
  right. destruct (str_snoc s Hs) as (m & d & ->). by exists c, m, d.
Qed.

Lemma alnum_plain c : is_alnum c || name_edge c = true → plain_byte c = true.
Proof.
  unfold is_alnum, is_digit, name_edge, plain_byte, in_range. rewrite !orb_true_iff, !andb_true_iff, !negb_true_iff, !Nat.leb_le.
  rewrite !bool_decide_eq_false. intros [H|H%bool_decide_eq_true].
  - split; [split; [lia|]|]; intros ->; vm_compute in H; lia.
  - rewrite !elem_of_cons, elem_of_nil in H. destruct H as [->|[->|[->|[]]]]; repeat split; by vm_compute; try lia.
Qed.

Lemma safe_trim s : safeProcessNameRe s = true → trim_space s = s.
Proof.
  intros [H _]%safe_chars. apply trim_space_plain. revert H. unfold str_all. rewrite !forallb_forall.
  intros H c Hc. by apply alnum_plain, H.
Qed.

Lemma sanitize_id s : safeProcessNameRe s = true → sanitizeProcessName s = s.
Proof. intros Hs. unfold sanitizeProcessName. by rewrite safe_trim, Hs by done. Qed.

Lemma sanitize_safe s : safeProcessNameRe (sanitizeProcessName s) = true.
Proof.
  unfold sanitizeProcessName. destruct (safeProcessNameRe (trim_space s)) eqn:E; [done|].
  case_bool_decide; [done|]. by destruct (safeProcessNameRe (trim_set _ _)) eqn:E'.
Qed.

Lemma digits_alnum k : (0 ≤ k)%Z → str_all is_alnum (itoa k) = true.
Proof.
  intros Hk. unfold itoa. destruct (k <? 0)%Z eqn:E; [apply Z.ltb_lt in E; lia|].
  apply str_all_digits; [|done|done]. intros c. unfold is_alnum. by intros ->.
Qed.

(** A number after a dash keeps a name valid. *)
Lemma safe_numbered s k : safeProcessNameRe s = true → (0 ≤ k)%Z → safeProcessNameRe (s +:+ "-" +:+ itoa k) = true.
Proof.
  intros Hs Hk. pose proof (digits_alnum k Hk) as Hd. destruct (str_snoc (itoa k) (itoa_nonempty k)) as (m & d & He).
  rewrite He in *. rewrite str_all_app in Hd. apply andb_true_iff in Hd as [Hm Hd]. cbn in Hd. rewrite andb_true_r in Hd.
  destruct (safe_chars s Hs) as [Hc Hne]. destruct s as [|c s]; [done|].
  assert (is_alnum c = true) as Hc0.
  { unfold safeProcessNameRe, name_shape in Hs. cbn [bytes] in Hs. destruct (bytes s); [done|]. by apply andb_true_iff in Hs as [[Hs _]%andb_true_iff _]. }
  replace (String c s +:+ "-" +:+ m +:+ String d "") with (String c (s +:+ "-" +:+ m) +:+ String d "")
    by (cbn [String.append]; f_equal; by rewrite !str_app_assoc).
  rewrite safe_iff, Hc0, Hd, andb_true_r. cbn [andb]. rewrite !str_all_app.
  unfold str_all in Hc. cbn [bytes forallb] in Hc. apply andb_true_iff in Hc as [_ Hc].
  fold (str_all (λ c, is_alnum c || name_edge c) s) in Hc. rewrite Hc. cbn [andb]. revert Hm. unfold str_all.
  rewrite forallb_forall. intros Hm. apply andb_true_iff. split; [done|]. apply forallb_forall.
  intros x Hx. by rewrite (Hm x Hx).
Qed.

(** ** Distinct names *)

(** The names in use are exactly the keys, each with a positive count. *)
Definition uses (names : list string) (used : gmap string Z) : Prop :=
  (∀ x, x ∈ names ↔ is_Some (used !! x)) ∧ ∀ x n, used !! x = Some n → (1 ≤ n)%Z.

Lemma uses_zero names used x : uses names used → (used_at used x ≤ 0)%Z ↔ x ∉ names.
Proof.
  intros [Hk Hp]. rewrite Hk. unfold used_at. destruct (used !! x) as [n|] eqn:E; cbn.
  - specialize (Hp x n E). split; [lia|]. intros []. by eexists.
  - split; [intros _ []; done|done].
Qed.

Lemma uses_bump names used x : uses names used → x ∈ names → uses names (<[x := (used_at used x + 1)%Z]> used).
Proof.
  intros H Hx. pose proof (uses_zero _ _ x H) as Hz. destruct H as [Hk Hp].
  assert (1 ≤ used_at used x)%Z as Hu by (destruct (decide (used_at used x ≤ 0)%Z) as [Hl|]; [by apply Hz in Hl|lia]).
  split.
  - intros y. rewrite Hk. destruct (decide (y = x)) as [->|Hne].
    + rewrite lookup_insert_eq. split; [by eexists|]. intros _. by apply Hk.
    + by rewrite lookup_insert_ne.
  - intros y n. destruct (decide (y = x)) as [->|Hne].
    + rewrite lookup_insert_eq. intros [= <-]. lia.
    + rewrite lookup_insert_ne by done. apply Hp.
Qed.

Lemma uses_add names used x : uses names used → x ∉ names → uses (names ++ [x]) (<[x := 1%Z]> used).
Proof.
  intros [Hk Hp] Hx. split.
  - intros y. rewrite elem_of_app, list_elem_of_singleton, Hk. destruct (decide (y = x)) as [->|Hne].
    + rewrite lookup_insert_eq. split; [by eexists|by right].
    + rewrite lookup_insert_ne by done. naive_solver.
  - intros y n. destruct (decide (y = x)) as [->|Hne].
    + rewrite lookup_insert_eq. intros [= <-]. lia.
    + rewrite lookup_insert_ne by done. apply Hp.
Qed.

Lemma used_at_bump used x n : used_at (<[x := n]> used) x = n.
Proof. unfold used_at. by rewrite lookup_insert_eq. Qed.

Lemma numbered_inj base j k : (0 ≤ j)%Z → (0 ≤ k)%Z → base +:+ "-" +:+ itoa j = base +:+ "-" +:+ itoa k → j = k.
Proof.
  intros Hj Hk H. apply str_app_inj, str_app_inj in H. apply (f_equal (parse_digits 0)) in H.
  rewrite !parse_itoa in H by done. congruence.
Qed.

Lemma numbered_ne base k : base ≠ base +:+ "-" +:+ itoa k.
Proof. intros H. apply (f_equal String.length) in H. rewrite !str_length_app in H. cbn in H. lia. Qed.

(** The candidate the loop leaves is free: the candidates it has rejected are
    distinct names in use, so there are no more of them than names, and the
    fuel is never used up. *)
Lemma free_candidate_ok names name base fuel used (rejected : gset string) candidate :
  uses names used → name ∈ names → rejected ⊆ dom used →
  (candidate = base ∧ rejected = ∅ ∨
   candidate = base +:+ "-" +:+ itoa (used_at used name) ∧
   ∀ x, x ∈ rejected → x = base ∨ ∃ k, (0 ≤ k < used_at used name)%Z ∧ x = base +:+ "-" +:+ itoa k) →
  size (dom used) < size rejected + fuel →
  let '(c, used') := free_candidate fuel used name base candidate in
  c ∉ names ∧ uses names used' ∧ (c = base ∨ ∃ k, (0 ≤ k)%Z ∧ c = base +:+ "-" +:+ itoa k).
Proof.
  revert used rejected candidate. induction fuel as [|fuel IH]; intros used rejected candidate Hu Hn Hr Hc Hf; cbn.
  { pose proof (subseteq_size _ _ Hr). lia. }
  pose proof (uses_zero _ _ candidate Hu) as Hz. pose proof (uses_zero _ _ name Hu) as Hzn.
  assert (0 < used_at used name)%Z as Hpos by (destruct (Z.ltb_spec 0 (used_at used name)); [done|by apply Hzn in H]).
  destruct (Z.ltb_spec 0 (used_at used candidate)) as [Hin|Hout].
  - assert (candidate ∈ dom used) as Hd.
    { apply elem_of_dom. destruct Hu as [Hk _]. apply Hk. destruct (decide (candidate ∈ names)); [done|]. apply Hz in n. lia. }
    assert (candidate ∉ rejected) as Hnew.
    { destruct Hc as [[_ ->]|[-> Hc]]; [set_solver|]. intros [H|(k & Hk & H)]%Hc; [by apply (numbered_ne base (used_at used name))|].
      apply numbered_inj in H; lia. }
    assert (dom (<[name := (used_at used name + 1)%Z]> used) = dom used) as Hdom.
    { apply dom_insert_lookup_L. by apply Hu. }
    apply (IH _ ({[candidate]} ∪ rejected)).
    + by apply uses_bump.
    + done.
    + rewrite Hdom. set_solver.
    + right. split; [done|]. rewrite used_at_bump.
      intros x [->%elem_of_singleton|Hx]%elem_of_union.
      * destruct Hc as [[-> _]|[-> _]]; [by left|]. right. exists (used_at used name). split; [lia|done].
      * destruct Hc as [[_ ->]|[-> Hc]]; [set_solver|]. destruct (Hc x Hx) as [->|(k & Hk & ->)]; [by left|].
        right. exists k. split; [lia|done].
    + rewrite Hdom, size_union, size_singleton by set_solver. lia.
  - split; [by apply Hz|]. split; [done|]. destruct Hc as [[-> _]|[-> _]]; [by left|]. right.
    exists (used_at used name). split; [lia|done].
Qed.

Definition names_ok (names : list string) : Prop := NoDup names ∧ ∀ x, x ∈ names → safeProcessNameRe x = true.

Lemma names_ok_snoc names x : names_ok names → x ∉ names → safeProcessNameRe x = true → names_ok (names ++ [x]).
Proof.
  intros [Hd Hs] Hx Hv. split.
  - apply NoDup_app. split; [done|]. split; [|apply NoDup_singleton]. intros y Hy ->%list_elem_of_singleton. done.
  - intros y [Hy| ->%list_elem_of_singleton]%elem_of_app; [by apply Hs|done].
Qed.

Lemma name_base_safe used name service : safeProcessNameRe name = true → (0 ≤ used_at used name)%Z →
  safeProcessNameRe (name_base used name service) = true.
Proof.
  intros Hn Hu. unfold name_base. case_bool_decide; [by apply safe_numbered; [|lia]|].
  case_match; [apply sanitize_safe|done].
Qed.

Lemma unique_step_ok s service : names_ok s.1 → uses s.1 s.2 →
  names_ok (unique_step s service).1 ∧ uses (unique_step s service).1 (unique_step s service).2 ∧
  ∃ x, (unique_step s service).1 = s.1 ++ [x].
Proof.
  destruct s as [names used]. cbn [fst snd]. intros Hok Hu. unfold unique_step.
  set (name := sanitizeProcessName (sv_Name service)). pose proof (sanitize_safe (sv_Name service)) as Hs. fold name in Hs.
  pose proof (uses_zero _ _ name Hu) as Hz. destruct (Z.eqb_spec (used_at used name) 0) as [H0|H0].
  { assert (name ∉ names) by (apply Hz; lia). cbn. split; [by apply names_ok_snoc|]. split; [by apply uses_add|by eexists]. }
  assert (name ∈ names) as Hin.
  { destruct (decide (name ∈ names)) as [|Hni]; [done|]. exfalso. destruct Hu as [Hk _].
    apply H0. unfold used_at. destruct (used !! name) eqn:E; [|done]. exfalso. apply Hni, Hk. by eexists. }
  assert (0 ≤ used_at used name)%Z as Hpos by (destruct (decide (used_at used name ≤ 0)%Z) as [Hl|]; [by apply Hz in Hl|lia]).
  set (base := name_base used name service).
  pose proof (free_candidate_ok names name base (S (size used)) used ∅ base Hu Hin) as Hf.
  destruct (free_candidate _ _ _ _ _) as [c used']. cbn [fst snd].
  destruct Hf as (Hc & Hu' & Hform); [set_solver|by left|rewrite size_dom; lia|].
  assert (safeProcessNameRe c = true) as Hcs.
  { destruct Hform as [->|(k & Hk & ->)]; [|apply safe_numbered; [|done]]; by apply name_base_safe. }
  split; [by apply names_ok_snoc|]. split; [|by eexists].
  apply uses_bump; [by apply uses_add|]. apply elem_of_app. by left.
Qed.

Lemma unique_fold services s : names_ok s.1 → uses s.1 s.2 →
  names_ok (fold_left unique_step services s).1 ∧
  length (fold_left unique_step services s).1 = length s.1 + length services.
Proof.
  revert s. induction services as [|x l IH]; intros s Hok Hu; cbn [fold_left length]; [split; [done|lia]|].
  destruct (unique_step_ok s x Hok Hu) as (H1 & H2 & y & Hy). destruct (IH _ H1 H2) as [H3 H4]. split; [done|].
  rewrite H4, Hy, length_app. cbn. lia.
Qed.

Lemma unique_names services : names_ok (uniqueProcessNames services) ∧ length (uniqueProcessNames services) = length services.
Proof.
  apply (unique_fold services ([], ∅)); cbn.
  - split; [constructor|]. intros x []%elem_of_nil.
  - split; [|intros x n; by rewrite lookup_empty]. intros x. rewrite lookup_empty, elem_of_nil. split; [done|by intros []].
Qed.

(** Names that are already distinct and valid are kept. *)
Lemma unique_fold_id services names used : names_ok names → uses names used →
  (∀ s, s ∈ services → safeProcessNameRe (sv_Name s) = true) → NoDup (names ++ (sv_Name <$> services)) →
  (fold_left unique_step services (names, used)).1 = names ++ (sv_Name <$> services).
Proof.
  revert names used. induction services as [|s l IH]; intros names used Hok Hu Hs Hd; cbn [fold_left fmap list_fmap]; [by rewrite app_nil_r|].
  assert (sv_Name s ∉ names) as Hn.
  { apply NoDup_app in Hd as (_ & Hd & _). intros Hin. apply (Hd _ Hin). left. }
  pose proof (unique_step_ok (names, used) s Hok Hu) as H. unfold unique_step in *.
  rewrite sanitize_id in * by (apply Hs; left).
  assert (used_at used (sv_Name s) = 0)%Z as H0.
  { destruct Hu as [Hk _]. unfold used_at. destruct (used !! sv_Name s) eqn:E; [|done]. exfalso. apply Hn, Hk. by eexists. }
  rewrite H0 in *. cbn in H |- *. destruct H as (H1 & H2 & _).
  rewrite (IH (names ++ [sv_Name s])); [by rewrite <- app_assoc|done|done| |by rewrite <- app_assoc].
  intros x Hx. apply Hs. by right.
Qed.

Lemma unique_names_id services : NoDup (sv_Name <$> services) →
  (∀ s, s ∈ services → safeProcessNameRe (sv_Name s) = true) → uniqueProcessNames services = sv_Name <$> services.
Proof.
  intros Hd Hs. apply (unique_fold_id services [] ∅); [| |done|done].
  - split; [constructor|]. intros x []%elem_of_nil.
  - split; [|intros x n; by rewrite lookup_empty]. intros x. rewrite lookup_empty, elem_of_nil. split; [done|by intros []].
Qed.

(** ** The walk *)

(** Induction over a tree: a directory may assume the property of its entries. *)
Lemma node_rec' (P : node → Prop) :
  (∀ f, P (NFile f)) → (∀ d, Forall (λ e, P e.2) d → P (NDir d)) → ∀ n, P n.
Proof.
  intros Hf Hd. fix rec 1. intros [f|d]; [apply Hf|]. apply Hd.
  induction d as [|[name x] d IH]; constructor; [apply rec|apply IH].
Qed.

Section walk.
Context (skip : list string → string → bool).

(** The directories a walk that skips [skip] goes through, in its order. *)
Fixpoint visits (rel : list string) (name : string) (n : node) : list (list string * dir) :=
  match n with
  | NFile _ => []
  | NDir d =>
      if skip rel name then []
      else (rel, d) :: (fix go (d : dir) := match d with
                                            | [] => []
                                            | (name, x) :: d => visits (rel ++ [name]) name x ++ go d
                                            end) d
  end.

Definition walk_callback {S} (step : list string → dir → S → S) (rel : list string) (name : string) (n : node) (s : S)
    : S * bool :=
  match n with
  | NFile _ => (s, false)
  | NDir d => if skip rel name then (s, true) else (step rel d s, false)
  end.

Lemma WalkDir_visits {S} (fn : list string → string → node → S → S * bool) step rel name n s :
  (∀ rel name n s, fn rel name n s = walk_callback step rel name n s) →
  WalkDir fn rel name n s = fold_left (λ s v, step v.1 v.2 s) (visits rel name n) s.
Proof.
  intros Hfn. revert rel name s. induction n as [f|d IH] using node_rec'; intros rel name s.
  { cbn [WalkDir]. by rewrite Hfn. }
  cbn [WalkDir visits]. rewrite Hfn. cbn [walk_callback]. destruct (skip rel name); [done|]. cbn [fold_left fst snd].
  generalize (step rel d s). clear s. induction IH as [|[nm x] d Hx _ IHd]; intros s; [done|].
  rewrite fold_left_app, <- (Hx (rel ++ [nm]) nm). apply IHd.
Qed.

(** What a walk reaches: nothing on the way, the directory itself included, is
    skipped. *)
Inductive walked : list string → string → node → list string → dir → Prop :=
  | walked_here rel name d : skip rel name = false → walked rel name (NDir d) rel d
  | walked_in rel name d nm x rel' d' : skip rel name = false → (nm, x) ∈ d →
      walked (rel ++ [nm]) nm x rel' d' → walked rel name (NDir d) rel' d'.

Lemma elem_of_visits rel name n rel' d' : (rel', d') ∈ visits rel name n ↔ walked rel name n rel' d'.
Proof.
  revert rel name. induction n as [f|d IH] using node_rec'; intros rel name; cbn [visits].
  { split; [by intros ?%elem_of_nil|]. inversion 1. }
  destruct (skip rel name) eqn:Hs; [split; [by intros ?%elem_of_nil|]; inversion 1; congruence|].
  rewrite elem_of_cons. transitivity ((rel', d') = (rel, d) ∨ ∃ nm x, (nm, x) ∈ d ∧ walked (rel ++ [nm]) nm x rel' d').
  - apply or_iff_compat_l. clear Hs. induction IH as [|[nm x] d Hx _ IHd].
    + split; [by intros ?%elem_of_nil|]. by intros (? & ? & ?%elem_of_nil & _).
    + rewrite elem_of_app, (Hx (rel ++ [nm]) nm), IHd. split.
      * intros [H|(nm' & x' & H & Hw)]; [exists nm, x|exists nm', x']; split; try done; [left|by right].
      * intros (nm' & x' & [[= -> ->]|H]%elem_of_cons & Hw); [by left|]. right. by exists nm', x'.
  - split.
    + intros [[= -> ->]|(nm & x & Hd & Hw)]; [by apply walked_here|]. by eapply walked_in.
    + inversion 1; subst; [by left|]. right. eauto.
Qed.
End walk.

(** A directory tree as a file system holds it: names are distinct, not empty,
    and free of separators. *)
Fixpoint tree_ok (n : node) : Prop :=
  match n with
  | NFile _ => True
  | NDir d => NoDup (d.*1) ∧ (fix all (d : dir) : Prop :=
                match d with
                | [] => True
                | (name, x) :: d => name ≠ "" ∧ str_mem "/" name = false ∧ tree_ok x ∧ all d
                end) d
  end.

Lemma tree_ok_entry d name x : tree_ok (NDir d) → (name, x) ∈ d →
  entry d name = Some x ∧ name ≠ "" ∧ str_mem "/" name = false ∧ tree_ok x.
Proof.
  cbn [tree_ok]. intros [Hd Ha]. induction d as [|[n y] d IH]; [by intros ?%elem_of_nil|].
  cbn in Hd. apply NoDup_cons in Hd as [Hn Hd]. destruct Ha as (H1 & H2 & H3 & Ha).
  intros [[= -> ->]|Hin]%elem_of_cons; cbn [entry]; [by rewrite bool_decide_true|].
  rewrite bool_decide_false; [by apply IH|]. intros ->. apply Hn. apply list_elem_of_fmap. by exists (name, x).
Qed.

Lemma entry_elem d name x : entry d name = Some x → (name, x) ∈ d.
Proof.
  induction d as [|[n y] d IH]; cbn [entry]; [done|]. case_bool_decide; [subst; intros [= ->]; left|].
  intros H'. right. by apply IH.
Qed.

(** In a tree, a walk reaches a path exactly when the path leads to a
    directory and none of its steps is skipped. *)
Lemma walked_descend skip rel name n rel' d' : tree_ok n →
  walked skip rel name n rel' d' ↔
  ∃ sub, rel' = rel ++ sub ∧ descend n sub = Some (NDir d') ∧ skip rel name = false ∧
    ∀ p nm q, sub = p ++ nm :: q → skip (rel ++ p ++ [nm]) nm = false.
Proof.
  intros Ht. split.
  - intros Hw. induction Hw as [rel name d Hs|rel name d nm x rel' d' Hs Hd Hw IH].
    { exists []. rewrite app_nil_r. split_and!; try done. by intros [|? ?]. }
    destruct (tree_ok_entry _ _ _ Ht Hd) as (He & _ & _ & Hx). destruct (IH Hx) as (sub & -> & Hsub & Hs1 & Hs2).
    exists (nm :: sub). rewrite <- app_assoc. split_and!; [done| |done|].
    + cbn [descend]. by rewrite He.
    + intros [|p0 p] nm' q [= <- ->]; [exact Hs1|].
      specialize (Hs2 p nm' q eq_refl). by rewrite <- app_assoc in Hs2.
  - intros (sub & -> & Hsub & Hs & Hp). revert rel name n Ht Hsub Hs Hp. induction sub as [|nm sub IH]; intros rel name n Ht Hsub Hs Hp.
    { cbn in Hsub. injection Hsub as ->. rewrite app_nil_r. by constructor. }
    destruct n as [|d]; [done|]. cbn [descend] in Hsub. destruct (entry d nm) as [x|] eqn:He; [|done]. cbn in Hsub.
    apply entry_elem in He as Hin. destruct (tree_ok_entry _ _ _ Ht Hin) as (_ & _ & _ & Hx).
    eapply walked_in; [done|exact Hin|]. replace (rel ++ nm :: sub) with ((rel ++ [nm]) ++ sub) by (by rewrite <- app_assoc).
    apply IH; [done|done|exact (Hp [] nm sub eq_refl)|]. intros p nm' q ->. rewrite <- app_assoc.
    exact (Hp (nm :: p) nm' q eq_refl).
Qed.

(** ** What the detectors find *)

Section found.
Context (parent base : string) (root : node) (unmarshal_package : string → option packageJSON).

(** The steps a walk from the root does not take. *)
Definition root_skip (python : bool) (rel : list string) (name : string) : bool :=
  (python || negb (bool_decide (rel = []))) && shouldSkipProjectDir (path_of parent base rel) name.

Definition cmd_skip (rel : list string) (name : string) : bool :=
  negb (bool_decide (rel = ["cmd"])) && shouldSkipProjectDir (path_of parent base rel) name.

(** A scan appends, in the order of the walk, what each directory yields. *)
Lemma fold_found (f : list string → dir → option Service) l services :
  fold_left (λ s v, match f v.1 v.2 with Some x => s ++ [x] | None => s end) l services =
  services ++ omap (λ v, f v.1 v.2) l.
Proof.
  revert services. induction l as [|[rel d] l IH]; intros services; cbn [fold_left omap list_omap]; [by rewrite app_nil_r|].
  rewrite IH. cbn [fst snd]. destruct (f rel d); cbn; [by rewrite <- app_assoc|done].
Qed.

Definition node_services : list Service :=
  omap (λ v, node_service base root unmarshal_package v.1 v.2) (visits (root_skip false) [] base root).

Definition python_services : list Service :=
  omap (λ v, python_service base v.1 v.2) (visits (root_skip true) [] base root).

Definition go_services (n : node) : list Service :=
  omap (λ v, go_service base root v.1 v.2) (visits cmd_skip ["cmd"] "cmd" n).

Lemma scanNode_found services :
  scanNodeServices parent base root unmarshal_package services = services ++ node_services.
Proof.
  unfold scanNodeServices. rewrite (WalkDir_visits (root_skip false) _
    (λ rel d s, match node_service base root unmarshal_package rel d with Some x => s ++ [x] | None => s end)).
  - apply fold_found.
  - intros rel name [f|d] s; [done|]. unfold node_callback, walk_callback, root_skip. cbn [orb].
    destruct (_ && _); [done|]. by case_match.
Qed.

Lemma scanPython_found services : scanPythonServices parent base root services = services ++ python_services.
Proof.
  unfold scanPythonServices. rewrite (WalkDir_visits (root_skip true) _
    (λ rel d s, match python_service base rel d with Some x => s ++ [x] | None => s end)).
  - apply fold_found.
  - intros rel name [f|d] s; [done|]. unfold python_callback, walk_callback, root_skip. cbn [orb andb].
    destruct (shouldSkipProjectDir _ _); [done|]. by case_match.
Qed.

Lemma fold_found_go l services (found : bool) :
  fold_left (λ s v, match go_service base root v.1 v.2 with Some x => (s.1 ++ [x], true) | None => s end) l (services, found) =
  (services ++ omap (λ v, go_service base root v.1 v.2) l,
   found || (0 <? length (omap (λ v, go_service base root v.1 v.2) l))).
Proof.
  revert services found. induction l as [|[rel d] l IH]; intros services found; cbn [fold_left omap list_omap].
  { by rewrite app_nil_r, orb_false_r. }
  cbn [fst snd]. destruct (go_service base root rel d); rewrite IH; [|done].
  cbn. rewrite orb_true_r. by rewrite <- app_assoc.
Qed.

(** The Go services: those of [cmd], or the root's own. *)
Definition all_go_services : list Service :=
  if stat (dir_at root []) "go.mod" then
    match (if stat (dir_at root []) "cmd" then match entry (dir_at root []) "cmd" with Some n => go_services n | None => [] end else []) with
    | [] => addRootGoService base root []
    | l => l
    end
  else [].

Lemma addRoot_app services : addRootGoService base root services = services ++ addRootGoService base root [].
Proof. unfold addRootGoService. case_match; [by rewrite app_nil_r|done]. Qed.

Lemma scanGo_found services : scanGoServices parent base root services = services ++ all_go_services.
Proof.
  unfold scanGoServices, all_go_services. destruct (stat _ "go.mod"); cbn [negb]; [|by rewrite app_nil_r].
  destruct (stat _ "cmd") eqn:Hc; cbn [negb]; [|apply addRoot_app].
  destruct (entry _ "cmd") as [n|]; cbn [negb]; [|apply addRoot_app].
  rewrite (WalkDir_visits cmd_skip _
    (λ rel d s, match go_service base root rel d with Some x => (s.1 ++ [x], true) | None => s end)).
  - rewrite fold_found_go. fold (go_services n). cbn [orb]. destruct (go_services n); [|done].
    cbn [length Nat.ltb Nat.leb negb]. rewrite app_nil_r. apply addRoot_app.
  - intros rel name [f|d] s; [done|]. unfold go_callback, walk_callback, cmd_skip.
    destruct (_ && _); [done|]. by case_match.
Qed.

(** Every step below the root is one the scans take. *)
Definition open_path (rel : list string) : Prop :=
  ∀ p nm q, rel = p ++ nm :: q → shouldSkipProjectDir (path_of parent base (p ++ [nm])) nm = false.

Lemma walked_root python rel d : tree_ok root →
  walked (root_skip python) [] base root rel d ↔
  descend root rel = Some (NDir d) ∧ open_path rel ∧
  (python = true → shouldSkipProjectDir (path_of parent base []) base = false).
Proof.
  intros Ht. rewrite walked_descend by done. unfold root_skip, open_path. split.
  - intros (sub & -> & Hd & H1 & H2). cbn [app] in *. split; [done|]. split.
    + intros p nm q ->. specialize (H2 p nm q eq_refl). rewrite bool_decide_false in H2 by (by destruct p).
      by rewrite orb_true_r in H2.
    + intros ->. by rewrite orb_true_l in H1.
  - intros (Hd & H2 & H1). exists rel. split_and!; [done|done| |].
    + destruct python; [by apply H1|]. by rewrite bool_decide_true.
    + intros p nm q ->. cbn [app]. by rewrite (H2 p nm q eq_refl), andb_false_r.
Qed.

Lemma elem_of_found (f : list string → dir → option Service) python s : tree_ok root →
  s ∈ omap (λ v, f v.1 v.2) (visits (root_skip python) [] base root) ↔
  ∃ rel d, descend root rel = Some (NDir d) ∧ open_path rel ∧
    (python = true → shouldSkipProjectDir (path_of parent base []) base = false) ∧ f rel d = Some s.
Proof.
  intros Ht. rewrite list_elem_of_omap. split.
  - intros ([rel d] & Hin & Hf). apply elem_of_visits, walked_root in Hin as (H1 & H2 & H3); [|done]. by exists rel, d.
  - intros (rel & d & H1 & H2 & H3 & Hf). exists (rel, d). split; [|done]. apply elem_of_visits. by apply walked_root.
Qed.

End found.

(** ** Commands and ports *)

(** The characters of a command the doctor writes: none of them means anything
    to a shell. *)
Definition command_char (c : ascii) : bool :=
  is_alnum c || bool_decide (c ∈ [" "; "."; "_"; "-"; "/"; ":"]%char).

Definition plain_command (s : string) : bool := str_all command_char s.

Lemma plain_itoa k : plain_command (itoa k) = true.
Proof. apply str_all_itoa; [|done]. intros c. unfold command_char, is_alnum. by intros ->. Qed.

Lemma plain_app s t : plain_command (s +:+ t) = plain_command s && plain_command t.
Proof. apply str_all_app. Qed.

Lemma safe_plain s : safeProcessNameRe s = true → plain_command s = true.
Proof.
  intros [H _]%safe_chars. revert H. unfold plain_command, str_all. rewrite !forallb_forall. intros H c Hc.
  specialize (H c Hc). unfold command_char. apply orb_true_iff in H as [->|H%bool_decide_eq_true]; [done|].
  rewrite bool_decide_true; [by rewrite orb_true_r|]. set_solver.
Qed.

Lemma first_of_ind {A B} (P : B → Prop) (f : A → option B) l y :
  (∀ x y, x ∈ l → f x = Some y → P y) → first_of f l = Some y → P y.
Proof.
  induction l as [|x l IH]; cbn [first_of]; [done|]. intros H. destruct (f x) as [z|] eqn:E.
  - intros [= ->]. eapply H; [left|done].
  - apply IH. intros. eapply H; [by right|done].
Qed.

Lemma positive_port_pos w p : positive_port w = Some p → (0 < p ≤ max_int)%Z.
Proof.
  unfold positive_port. destruct (atoi _) as [z|] eqn:Ha; [|done]. destruct (Z.ltb_spec 0 z); [|done].
  intros [= <-]. apply atoi_range in Ha. lia.
Qed.

Lemma detectEnvPort_range d : (0 ≤ detectEnvPort d ≤ max_int)%Z.
Proof.
  unfold detectEnvPort. destruct (first_of _ _) as [p|] eqn:E; cbn; [|done].
  cut (0 < p ≤ max_int)%Z; [lia|]. revert E. apply (first_of_ind (λ p, 0 < p ≤ max_int)%Z). intros name q _.
  destruct (read d name) as [content|]; cbn; [|done]. apply (first_of_ind (λ p, 0 < p ≤ max_int)%Z).
  intros line r _. unfold env_line_port. destruct (has_prefix _ _); [|done]. destruct (cut_byte _ _) as [[k v]|]; [|done].
  case_bool_decide; [|done]. apply positive_port_pos.
Qed.

Lemma port_prefixed_pos field p : port_prefixed field = Some p → (0 < p ≤ max_int)%Z.
Proof.
  unfold port_prefixed. cbn [foldr]. destruct (has_prefix "--port=" _), (has_prefix "-p=" _);
    repeat (destruct (positive_port _) as [q|] eqn:E; [intros [= <-]; by apply positive_port_pos in E|clear E]); done.
Qed.

Lemma port_arg_range l : (0 ≤ port_arg l ≤ max_int)%Z.
Proof.
  induction l as [|field l IH]; cbn [port_arg]; [done|].
  assert (∀ o, (∀ p, o = Some p → 0 < p ≤ max_int)%Z → (0 ≤ match o with Some p => p | None => port_arg l end ≤ max_int)%Z) as H.
  { intros [p|] Hp; [specialize (Hp p eq_refl); lia|done]. }
  destruct (_ || _); [destruct l; [done|]|]; apply H; [apply positive_port_pos|apply port_prefixed_pos].
Qed.

(** What every service the doctor reports satisfies. *)
Record service_ok (s : Service) : Prop := mkServiceOk {
  so_name : safeProcessNameRe (sv_Name s) = true;
  so_command : sv_Command s ≠ "";
  so_plain : plain_command (sv_Command s) = true;
  so_dir : sv_Dir s = "." ∨ has_prefix "./" (sv_Dir s) = true;
  so_port : (0 ≤ sv_Port s ≤ max_int)%Z;
  so_confidence : sv_Confidence s ≠ ConfidenceLow;
}.

Lemma service_ok_rename n s : safeProcessNameRe n = true → service_ok s → service_ok (set_Name n s).
Proof. intros Hn []. by split. Qed.

Lemma dir_prefix (b : bool) x : (if b then "." else "./" +:+ x) = "." ∨ has_prefix "./" (if b then "." else "./" +:+ x) = true.
Proof. destruct b; [by left|right]. apply has_prefix_app. Qed.

Section commands.
Context (parent base : string) (root : node) (unmarshal_package : string → option packageJSON).

Lemma detectNodePort_range d pkg : (0 ≤ detectNodePort d pkg ≤ max_int)%Z.
Proof.
  unfold detectNodePort. pose proof (detectEnvPort_range d) as H. destruct (Z.ltb_spec 0 (detectEnvPort d)); [lia|].
  destruct (first_of _ _) as [p|] eqn:E; [|repeat case_match; vm_compute; split; discriminate].
  revert E. apply (first_of_ind (λ p, 0 ≤ p ≤ max_int)%Z). intros name q _. unfold detectPortArg.
  pose proof (port_arg_range (fields (text_at (pj_Scripts pkg) name))). destruct (0 <? _)%Z; [intros [= <-]; lia|done].
Qed.

Lemma detectNodeCommand_plain rel pkg : plain_command (detectNodeCommand root rel pkg) = true.
Proof.
  unfold detectNodeCommand. destruct (first_of _ _) as [c|] eqn:E; cbn [default from_option]; [|done].
  revert E. apply (first_of_ind (λ x, plain_command x = true)). intros script c0 Hs. destruct (has_key _ _); [|done].
  injection 1 as <-. rewrite !elem_of_cons, elem_of_nil in Hs. case_bool_decide as Hm.
  - rewrite !elem_of_cons, elem_of_nil in Hm. destruct Hs as [->|[->|[]]]; by destruct Hm as [->|[->|[->|[]]]].
  - by destruct Hs as [->|[->|[]]].
Qed.

Lemma node_service_ok rel d s : node_service base root unmarshal_package rel d = Some s → service_ok s.
Proof.
  unfold node_service. destruct (stat d "package.json"); [|done]. cbn [negb].
  destruct (readPackageJSON _ d) as [pkg|]; cbn; [|done]. destruct (_ && _); [done|].
  case_bool_decide as Hc; [done|]. intros [= <-]. split; cbn [sv_Name sv_Command sv_Dir sv_Port sv_Confidence]; try done.
  - apply sanitize_safe.
  - apply detectNodeCommand_plain.
  - apply dir_prefix.
  - apply detectNodePort_range.
Qed.

Lemma split_plain s : forallb safeProcessNameRe (split_byte "/" s) = true → plain_command s = true.
Proof.
  revert s. assert (∀ s, Forall (λ x, plain_command x = true) (split_byte "/" s) → plain_command s = true) as H.
  { intros s. induction s as [|a s IH]; cbn [split_byte]; [done|]. case_bool_decide as Ha.
    - inversion 1; subst. unfold plain_command, str_all. cbn [bytes forallb]. by apply IH.
    - pose proof (split_byte_nonempty "/" s). destruct (split_byte "/" s) as [|l ls]; [done|]. inversion 1 as [|? ? Hl Hls]; subst.
      unfold plain_command, str_all in *. cbn [bytes forallb] in *. apply andb_true_iff in Hl as [-> Hl]. by apply IH; constructor. }
  intros s Hs. apply H. apply Forall_forall. intros x Hx. apply safe_plain. rewrite forallb_forall in Hs. apply Hs.
  by apply list_elem_of_In.
Qed.

Lemma go_service_ok rel d s : go_service base root rel d = Some s → service_ok s.
Proof.
  unfold go_service. destruct (isGoMain d); [|done]. cbn [negb]. destruct (safeProcessNameRe (name_of base rel)); [|done]. cbn [negb].
  destruct (safeRelativeCommandPath _) eqn:Hp; [|done]. cbn [negb]. intros [= <-].
  split; cbn [sv_Name sv_Command sv_Dir sv_Port sv_Confidence]; try done.
  - apply sanitize_safe.
  - exact (split_plain _ Hp).
  - by left.
  - pose proof (detectEnvPort_range d). pose proof (detectEnvPort_range (dir_at root [])). destruct (_ =? _)%Z; lia.
Qed.

Lemma addRoot_ok s : s ∈ addRootGoService base root [] → service_ok s.
Proof.
  unfold addRootGoService. destruct (isGoMain _); cbn [negb]; [|by intros ?%elem_of_nil]. cbn [app].
  intros ->%list_elem_of_singleton. split; cbn; try done; [apply sanitize_safe|by left|apply detectEnvPort_range].
Qed.

Lemma port_or_range p q : (0 ≤ p ≤ max_int)%Z → (0 ≤ q ≤ max_int)%Z → (0 ≤ port_or p q ≤ max_int)%Z.
Proof. unfold port_or. by case_match. Qed.

Lemma runner_plain d : plain_command (pythonRunner d) = true.
Proof. unfold pythonRunner. by repeat case_match. Qed.

Lemma detectPython_ok d : let '(c, m, p, f) := detectPythonCommand d in
  c ≠ "" → plain_command c = true ∧ (0 ≤ p ≤ max_int)%Z ∧ f ≠ ConfidenceLow.
Proof.
  pose proof (detectEnvPort_range d) as Hp. pose proof (runner_plain d) as Hr. unfold detectPythonCommand.
  repeat match goal with |- context [if ?b then _ else _] => destruct b end; intros Hc; try done;
    (split; [by rewrite ?plain_app, ?plain_itoa, ?Hr|split; [first [done|by apply port_or_range]|done]]).
Qed.

Lemma python_service_ok rel d s : python_service base rel d = Some s → service_ok s.
Proof.
  unfold python_service. pose proof (detectPython_ok d) as H. destruct (detectPythonCommand d) as [[[c m] p] f].
  case_bool_decide as Hc; [done|]. destruct (H Hc) as (H1 & H2 & H3). intros [= <-].
  split; cbn [sv_Name sv_Command sv_Dir sv_Port sv_Confidence]; try done; [apply sanitize_safe|apply dir_prefix].
Qed.

Lemma found_ok s : s ∈ node_services parent base root unmarshal_package ++ all_go_services parent base root ++ python_services parent base root →
  service_ok s.
Proof.
  rewrite !elem_of_app. intros [([rel d] & _ & Hs)%list_elem_of_omap|[Hs|([rel d] & _ & Hs)%list_elem_of_omap]].
  - by eapply node_service_ok.
  - unfold all_go_services in Hs. destruct (stat _ "go.mod"); [|by apply elem_of_nil in Hs].
    destruct (if stat _ "cmd" then _ else _) as [|y l] eqn:E; [by apply addRoot_ok|].
    destruct (stat _ "cmd"); [|done]. destruct (entry _ "cmd") as [n|]; [|done]. rewrite <- E in Hs.
    apply list_elem_of_omap in Hs as ([rel d] & _ & Hs). by eapply go_service_ok.
  - by eapply python_service_ok.
Qed.

Definition sorted_services : list Service :=
  merge_sort service_le (node_services parent base root unmarshal_package ++ all_go_services parent base root ++
                         python_services parent base root).

Lemma detectServices_found : detectServices parent base root unmarshal_package = withUniqueServiceNames sorted_services.
Proof.
  unfold detectServices, sorted_services. rewrite scanNode_found, scanGo_found, scanPython_found. cbn [app].
  by rewrite <- app_assoc.
Qed.

End commands.

Lemma zip_names (names : list string) (l : list Service) : length names = length l →
  sv_Name <$> zip_with set_Name names l = names.
Proof.
  revert l. induction names as [|n names IH]; intros [|s l] H; try done. cbn in H |- *. f_equal. apply IH. lia.
Qed.

Definition anonymous (s : Service) : Service := set_Name "" s.

Lemma zip_anonymous (names : list string) (l : list Service) : length names = length l →
  anonymous <$> zip_with set_Name names l = anonymous <$> l.
Proof.
  revert l. induction names as [|n names IH]; intros [|s l] H; try done. cbn in H |- *. f_equal. apply IH. lia.
Qed.

Lemma renamed_names l : names_ok (sv_Name <$> withUniqueServiceNames l).
Proof. destruct (unique_names l) as [H1 H2]. unfold withUniqueServiceNames. by rewrite zip_names. Qed.

Lemma renamed_anonymous l : anonymous <$> withUniqueServiceNames l = anonymous <$> l.
Proof. destruct (unique_names l) as [H1 H2]. unfold withUniqueServiceNames. by apply zip_anonymous. Qed.

Lemma renamed_elem l s : s ∈ withUniqueServiceNames l → ∃ s0, s0 ∈ l ∧ s = set_Name (sv_Name s) s0 ∧ safeProcessNameRe (sv_Name s) = true.
Proof.
  intros Hs. assert (safeProcessNameRe (sv_Name s) = true) as Hn.
  { apply (renamed_names l). apply list_elem_of_fmap. by exists s. }
  unfold withUniqueServiceNames in Hs. apply elem_of_lookup_zip_with in Hs as (i & n & s0 & -> & _ & H0).
  exists s0. split; [by eapply list_elem_of_lookup_2|done].
Qed.

(** ** The scan *)

Section results.
Context (parent base : string) (root : node) (unmarshal_package : string → option packageJSON).

Notation services := (detectServices parent base root unmarshal_package).

Lemma services_anonymous : anonymous <$> services ≡ₚ
  anonymous <$> (node_services parent base root unmarshal_package ++ all_go_services parent base root ++
                 python_services parent base root).
Proof. rewrite detectServices_found, renamed_anonymous. unfold sorted_services. by rewrite merge_sort_Permutation. Qed.

Lemma services_ok s : s ∈ services → service_ok s.
Proof.
  rewrite detectServices_found. intros (s0 & H0 & -> & Hn)%renamed_elem. apply service_ok_rename; [done|].
  unfold sorted_services in H0. rewrite merge_sort_Permutation in H0. by apply found_ok in H0.
Qed.

(** The project's own directory is one the Python scan enters. *)
Definition python_enters : Prop := shouldSkipProjectDir (path_of parent base []) base = false.



(** A project whose own directory has a hidden or generated name ([build],
    [archive], [tmp]) yields no Python service at all, whatever it holds; the
    Node scan of the same directory looks at its root all the same. *)
Theorem python_root_skipped found :
  shouldSkipProjectDir (path_of parent base []) base = true →
  scanPythonServices parent base root found = found ∧
  ∀ d s, root = NDir d → node_service base root unmarshal_package [] d = Some s →
    s ∈ scanNodeServices parent base root unmarshal_package found.
Proof.
  intros Hs. split.
  - rewrite scanPython_found. unfold python_services. destruct root as [f|d]; cbn [visits]; [by rewrite app_nil_r|].
    unfold root_skip. rewrite Hs. by rewrite app_nil_r.
  - intros d s Hd Hn. rewrite scanNode_found. apply elem_of_app. right. apply list_elem_of_omap.
    exists ([], d). split; [|done]. rewrite Hd. cbn [visits]. unfold root_skip at 1. rewrite bool_decide_true by done. left.
Qed.
End results.

(** The names given to any list of services are as many as the services,
    distinct, and accepted by the configuration: the search for a free name
    always ends.  Names that are already distinct and valid are kept, so the
    suggested configuration names its processes as the report does. *)
Theorem uniqueProcessNames_spec services :
  NoDup (uniqueProcessNames services) ∧
  length (uniqueProcessNames services) = length services ∧
  (∀ x, x ∈ uniqueProcessNames services → processNameRe x = true) ∧
  (NoDup (sv_Name <$> services) → (∀ s, s ∈ services → processNameRe (sv_Name s) = true) →
   uniqueProcessNames services = sv_Name <$> services).
Proof.
  destruct (unique_names services) as [[H1 H2] H3]. split_and!; [done|done|done|]. apply unique_names_id.
Qed.

(** ** Examples *)

Definition text_file (data : string) : node := NFile (mkFile true (Some data) true).

(** A workspace with an API in Go, two services called [web], and generated
    directories. *)
Definition example_project : node :=
  NDir [(".git", NDir [("package.json", text_file "web")]);
        ("cmd", NDir [("api", NDir [("main.go", text_file "package main")])]);
        ("go.mod", text_file "module example");
        ("node_modules", NDir [("x", NDir [("package.json", text_file "web")])]);
        ("one", NDir [("web", NDir [(".env", text_file "export PORT='3000'"); ("package.json", text_file "web")])]);
        ("pnpm-lock.yaml", text_file "");
        ("two", NDir [("web", NDir [("app.py", text_file ""); ("requirements.txt", text_file "Flask==3")])])].

Definition example_package (data : string) : option packageJSON :=
  if bool_decide (data = "web") then Some (mkPackageJSON {["dev" := "vite"]} ∅ ∅ "" "") else None.

Example example_services : detectServices "/home/me" "shop" example_project example_package =
  [mkService "api" "go run ./cmd/api" "." 0 "go" ConfidenceMedium "go.mod";
   mkService "web" "pnpm dev" "./one/web" 3000 "node" ConfidenceHigh "./one/web/package.json";
   mkService "two-web" "python -m flask --app app run --host 0.0.0.0 --port 5000" "./two/web" 5000 "python"
     ConfidenceHigh "./two/web/app.py"].
Proof. vm_compute. reflexivity. Qed.



Lemma python_root_skipped_witness :
  scanPythonServices "/home/me" "build" (NDir [("manage.py", text_file "")]) [] = [].
Proof.
  apply (python_root_skipped "/home/me" "build" (NDir [("manage.py", text_file "")]) (λ _, None) []).
  vm_compute. reflexivity.
Defined.

Lemma uniqueProcessNames_spec_witness : NoDup (uniqueProcessNames []) ∧
  uniqueProcessNames [mkService "web" "x" "." 0 "go" ConfidenceHigh ""] = ["web"].
Proof.
  split; [apply (uniqueProcessNames_spec [])|].
  apply (uniqueProcessNames_spec [mkService "web" "x" "." 0 "go" ConfidenceHigh ""]).
  - cbn. apply NoDup_singleton.
  - intros s ->%list_elem_of_singleton. reflexivity.
Defined.

(** The same names without the scan: three services of one name, and a name
    that is already numbered. *)
Example example_names : uniqueProcessNames
  [mkService "web" "" "." 0 "" ConfidenceHigh ""; mkService "web-2" "" "." 0 "" ConfidenceHigh "";
   mkService "web" "" "." 0 "" ConfidenceHigh ""; mkService "Web Käfer!" "" "." 0 "" ConfidenceHigh ""]
  = ["web"; "web-2"; "web-2-2"; "Web-K-fer"].
Proof. vm_compute. reflexivity. Qed.
