(* ===== verification/DoctorCheck.v ===== *)
(** * The doctor: findings and the suggested configuration

    What [doctor] reports about the configuration on disk, the configuration
    it suggests for the services it found, and [Run], which puts the scan, the
    findings and the suggestion together and writes the file when asked to.
    The file system, the YAML codec and the binaries on PATH are arguments, as
    they are for [Load].  A message is kept as its format and arguments. *)

From S2P Require Import Prelude GoStrings ConfigTypes ConfigValidate ConfigGraph References EnvFile ConfigMerge ConfigLoad GoText Doctor.

(** ** The report *)

(** Source: internal/doctor/report.go:3-9 (Severity). *)
Inductive Severity : Type := SeverityInfo | SeverityWarning | SeverityError.

(** Source: internal/doctor/report.go:29-35 (Finding). *)
Record Finding : Type := mkFinding {
  fd_Severity : Severity;
  fd_Code : string;
  fd_Message : string * list arg;
  fd_Detail : string;
  fd_Suggestion : string;
}.

(** Source: internal/doctor/report.go:37-44 (Report). *)
Record Report : Type := mkReport {
  rp_ConfigPath : string;
  rp_ConfigExists : bool;
  rp_Services : list Service;
  rp_Findings : list Finding;
  rp_SuggestedYAML : string;
  rp_GeneratedPath : string;
}.

(** Source: internal/doctor/report.go:46-50 (Options, ConfigFile and Write). *)
Record Options : Type := mkOptions {
  op_ConfigFile : string;
  op_Write : bool;
}.

(** Source: internal/doctor/check.go:18-18 (codeInvalidConfig). *)
Definition codeInvalidConfig : string := "invalid_config".
(** Source: internal/doctor/check.go:19-19 (codeMissingDir). *)
Definition codeMissingDir : string := "missing_dir".
(** Source: internal/doctor/check.go:20-20 (codeMissingEnvFile). *)
Definition codeMissingEnvFile : string := "missing_env_file".
(** Source: internal/doctor/check.go:21-21 (codeDuplicatePort). *)
Definition codeDuplicatePort : string := "duplicate_port".
(** Source: internal/doctor/check.go:22-22 (codeDependencyWithoutReadiness). *)
Definition codeDependencyWithoutReadiness : string := "dependency_without_readiness".
(** Source: internal/doctor/check.go:23-23 (codeMissingMergePort). *)
Definition codeMissingMergePort : string := "missing_merge_port".
(** Source: internal/doctor/check.go:24-24 (codeUncappedAlwaysRestart). *)
Definition codeUncappedAlwaysRestart : string := "uncapped_always_restart".
(** Source: internal/doctor/check.go:25-25 (codeMissingTunnel). *)
Definition codeMissingTunnel : string := "missing_tunnel".

(** ** The suggested configuration *)

(** Source: internal/doctor/render.go:117-128 (isFrontend). *)
Definition isFrontend (s : Service) : bool :=
  let name := to_lower (sv_Name s) in
  if existsb (λ part, str_contains part name) ["front"; "web"; "client"; "ui"; "app"] then true
  else (sv_Port s =? 5173)%Z.

(** Source: internal/doctor/render.go:130-141 (isBackend). *)
Definition isBackend (s : Service) : bool :=
  let name := to_lower (sv_Name s) in
  if existsb (λ part, str_contains part name) ["api"; "back"; "server"] then true
  else bool_decide (sv_Kind s = "go").

(** Source: internal/doctor/render.go:36-47 (renderSuggestedYAML, frontend and backend). *)
Definition with_port (role : Service → bool) (services : list Service) : list Service :=
  filter (λ s, role s = true ∧ (0 < sv_Port s)%Z) services.

(** Source: internal/doctor/render.go:53-58 (renderSuggestedYAML, merge). *)
Definition suggested_merge (services : list Service) : option Merge :=
  match with_port isFrontend services, with_port isBackend services with
  | [front], [back] =>
      if negb (sv_Port front =? sv_Port back)%Z then Some (mkMerge (sv_Port front) (sv_Port back) 0 [] [] "") else None
  | _, _ => None
  end.

(** Source: internal/doctor/render.go:60-77 (renderSuggestedYAML, process). *)
Definition suggested_process (s : Service) : Process :=
  let proc := set_Cmd (sv_Command s) zero_process in
  let proc := if negb (bool_decide (sv_Dir s = ".")) then set_Dir (sv_Dir s) proc else proc in
  if (0 <? sv_Port s)%Z
  then set_ReadyWhen (Some (mkReadyWhen "" ("localhost:" +:+ itoa (sv_Port s)) "" ""))
         (set_Env {["PORT" := itoa (sv_Port s)]} proc)
  else proc.

(** Source: internal/doctor/render.go:21-28 (renderSuggestedYAML, filter). *)
Definition suggested_services (services : list Service) : list Service :=
  filter (λ s, sv_Confidence s ≠ ConfidenceLow) services.

(** [None] stands for the empty configuration.
    Source: internal/doctor/render.go:14-77 (renderSuggestedYAML, configuration). *)
Definition suggestedConfig (services : list Service) : option Config :=
  if bool_decide (services = []) then None else
  let filtered := suggested_services services in
  if bool_decide (filtered = []) then None else
  let processNames := uniqueProcessNames filtered in
  Some (mkConfig (suggested_merge filtered)
          (fold_left (λ procs ns, <[ns.1 := suggested_process ns.2]> procs) (zip processNames filtered) ∅) []).

Definition no_processes : string := "processes: {}" +:+ String (chr 10) "".

Section doctor.
(** The environment of [Load]. *)
Context (is_abs : string → bool) (path_join : string → string → string)
        (path_clean : string → string) (abs_dir : string → string)
        (stat_ok : string → bool) (read_file : string → file_read)
        (url_parse : string → option (string * string))
        (regexp_error : string → option string)
        (scanRoutes : string → list string) (portEnv : string)
        (read_config : string → res string string)
        (decode_yaml : string → res string Config).
(** The YAML encoder; a decoder that reads the [env_file] of every process and
    nothing else; [filepath.Dir]; the binaries on PATH; creating a file that
    must not exist, with its error. *)
Context (encode_yaml : Config → option string)
        (decode_env_files : string → option (gmap string string))
        (path_dir : string → string) (mergePortInPath tunnelInPath : bool)
        (create_new : string → string → option string).
(** The text of an error of [Load]. *)
Context (load_error_text : load_error → string).

(** Source: internal/doctor/render.go:14-86 (renderSuggestedYAML). *)
Definition renderSuggestedYAML (services : list Service) : string :=
  match suggestedConfig services with
  | None => no_processes
  | Some cfg => default no_processes (encode_yaml cfg)
  end.

(** ** The checks *)

(** Source: internal/doctor/check.go:275-280 (resolveConfigPath). *)
Definition resolveConfigPath (configDir path : string) : string :=
  if is_abs path then path else path_join configDir path.

(** Source: internal/doctor/check.go:266-273 (hasFindingWithDetail). *)
Definition hasFindingWithDetail (findings : list Finding) (code detail : string) : bool :=
  existsb (λ f, bool_decide (fd_Code f = code) && bool_decide (fd_Detail f = detail)) findings.

Definition missing_env_file (name env_file : string) : Finding :=
  mkFinding SeverityError codeMissingEnvFile ("process %q env_file does not exist", [AStr name]) env_file
    "create the env file or update env_file".

(** Source: internal/doctor/check.go:233-264 (precheckEnvFiles). *)
Definition precheckEnvFiles (configPath : string) (findings : list Finding) : list Finding :=
  match read_config configPath with
  | Err _ => findings
  | Ok data =>
      match decode_env_files data with
      | None => findings
      | Some env_files =>
          let configDir := path_dir configPath in
          findings ++ omap (λ name,
            let env_file := text_at env_files name in
            if bool_decide (env_file = "") then None
            else if stat_ok (resolveConfigPath configDir env_file) then None
            else Some (missing_env_file name env_file)) (SortedProcessNames env_files)
      end
  end.

(** Source: internal/doctor/check.go:183-202 (loadConfigShape). *)
Definition loadConfigShape (path : string) : option Config :=
  match read_config path with
  | Err _ => None
  | Ok data => match decode_yaml data with Ok cfg => Some cfg | Err _ => None end
  end.

(** Source: internal/doctor/check.go:60-89 (checkExistingConfig, paths). *)
Definition check_paths (configDir : string) (procs : gmap string Process) (findings : list Finding) : list Finding :=
  fold_left (λ findings name,
    let proc := proc_at procs name in
    let findings :=
      if negb (bool_decide (p_Dir proc = "")) && negb (HasRuntimeTemplate (p_Dir proc))
         && negb (stat_ok (resolveConfigPath configDir (p_Dir proc)))
      then findings ++ [mkFinding SeverityError codeMissingDir ("process %q dir does not exist", [AStr name]) (p_Dir proc)
                          "create the directory or update dir"]
      else findings in
    if negb (bool_decide (p_EnvFile proc = "")) && negb (stat_ok (resolveConfigPath configDir (p_EnvFile proc)))
       && negb (hasFindingWithDetail findings codeMissingEnvFile (p_EnvFile proc))
    then findings ++ [missing_env_file name (p_EnvFile proc)]
    else findings) (SortedProcessNames procs) findings.

(** Source: internal/doctor/check.go:282-300 (processPort). *)
Definition processPort (served : gmap string ServedPort) (name : string) (proc : Process) : Z * list string :=
  let from_probe :=
    match p_ReadyWhen proc with
    | Some rw =>
        if negb (bool_decide (rw_TCP rw = "")) then
          match atoi (List.last (split_byte ":"%char (rw_TCP rw)) "") with Some port => (port, []) | None => (0%Z, []) end
        else (0%Z, [])
    | None => (0%Z, [])
    end in
  match served !! name with
  | Some s => if (0 <? sp_Port s)%Z then (sp_Port s, sp_Named s) else from_probe
  | None => from_probe
  end.

(** Source: internal/doctor/check.go:91-94 (portUse). *)
Record portUse : Type := mkPortUse {
  pu_name : string;
  pu_named : list string;
}.

Definition duplicate_port (other name : string) (port : Z) : Finding :=
  mkFinding SeverityWarning codeDuplicatePort ("processes %q and %q both use port %d", [AStr other; AStr name; AInt port])
    "" "assign each process a unique PORT".

(** Two processes whose ports the session assigns, from named ports none of
    which they share.
    Source: internal/doctor/check.go:108-108 (checkExistingConfig, named ports). *)
Definition assigned_apart (a b : list string) : bool :=
  (0 <? length a) && (0 <? length b) && negb (existsb (λ n, bool_decide (n ∈ a)) b).

(** Source: internal/doctor/check.go:97-120 (checkExistingConfig, port loop). *)
Definition port_step (procs : gmap string Process) (s : gmap Z portUse * list Finding) (name : string)
    : gmap Z portUse * list Finding :=
  let proc := proc_at procs name in
  let '(port, named) := processPort (ServedPorts procs) name proc in
  if (port =? 0)%Z || bool_decide (p_Mode proc = ProcessModeTeardown) then s
  else match s.1 !! port with
       | Some other =>
           if assigned_apart (pu_named other) named then s
           else (s.1, s.2 ++ [duplicate_port (pu_name other) name port])
       | None => (<[port := mkPortUse name named]> s.1, s.2)
       end.

(** Source: internal/doctor/check.go:91-120 (checkExistingConfig, ports). *)
Definition check_ports (procs : gmap string Process) : list Finding :=
  (fold_left (port_step procs) (SortedProcessNames procs) (∅, [])).2.

(** Source: internal/doctor/check.go:122-143 (checkExistingConfig, restarts and readiness). *)
Definition check_readiness (procs : gmap string Process) : list Finding :=
  mjoin ((λ name,
    let proc := proc_at procs name in
    (if bool_decide (p_Restart proc = "always") && (p_MaxRestarts proc =? 0)%Z
     then [mkFinding SeverityInfo codeUncappedAlwaysRestart
             ("process %q uses restart: always without max_restarts", [AStr name]) ""
             "set max_restarts if repeated clean exits should stop instead of loop forever"]
     else []) ++
    omap (λ dep,
      match procs !! dep with
      | Some depProc =>
          if bool_decide (p_ReadyWhen depProc = None) && negb (bool_decide (EffectiveMode depProc = ProcessModeTask))
          then Some (mkFinding SeverityInfo codeDependencyWithoutReadiness
                       ("process %q depends on %q, but dependency has no ready_when", [AStr name; AStr dep]) ""
                       "add ready_when to the dependency for safer startup ordering")
          else None
      | None => None
      end) (p_DependsOn proc)) <$> SortedProcessNames procs).

(** Source: internal/doctor/check.go:166-181 (usesTunnel). *)
Definition usesTunnel (cfg : Config) : bool :=
  existsb (λ np : string * Process,
    let cmd := trim_space (p_Cmd np.2) in
    bool_decide (np.1 = "tunnel") || has_prefix "tunnel-" np.1 || has_suffix "-tunnel" np.1
    || bool_decide (cmd = "tunnel") || has_prefix "tunnel " cmd || str_contains " tunnel " cmd)
    (map_to_list (c_Processes cfg)).

(** Source: internal/doctor/check.go:145-161 (checkExistingConfig, binaries). *)
Definition check_binaries (cfg : Config) : list Finding :=
  (match c_Merge cfg with
   | Some _ => if negb mergePortInPath
               then [mkFinding SeverityWarning codeMissingMergePort
                       ("merge: section requires merge-port but it is not on PATH", []) ""
                       "run: brokit install merge-port  — or remove the merge: section"]
               else []
   | None => []
   end) ++
  (if usesTunnel cfg && negb tunnelInPath
   then [mkFinding SeverityWarning codeMissingTunnel ("a tunnel process is configured but tunnel is not on PATH", []) ""
           "install tunnel or update the process command"]
   else []).

Definition doctor_load (path : string) : res load_error Config :=
  Load is_abs path_join path_clean abs_dir stat_ok read_file url_parse regexp_error scanRoutes portEnv
    read_config decode_yaml path.

(** Source: internal/doctor/check.go:38-164 (checkExistingConfig). *)
Definition checkExistingConfig (configPath : string) (findings : list Finding) : list Finding :=
  let findings := precheckEnvFiles configPath findings in
  let findings :=
    match doctor_load configPath with
    | Err e => findings ++ [mkFinding SeverityError codeInvalidConfig ("config does not parse cleanly", [])
                              (load_error_text e) "fix validation errors, then run doctor again"]
    | Ok _ => findings
    end in
  match loadConfigShape configPath with
  | None => findings
  | Some shape =>
      let cfg := match doctor_load configPath with Ok cfg => cfg | Err _ => shape end in
      check_paths (path_dir configPath) (c_Processes cfg) findings
      ++ check_ports (c_Processes cfg) ++ check_readiness (c_Processes cfg) ++ check_binaries cfg
  end.

(** Source: internal/doctor/check.go:204-231 (checkSuggestedConfig). *)
Definition checkSuggestedConfig (suggested : string) (findings : list Finding) : list Finding :=
  if bool_decide (trim_space suggested = "") then findings
  else match decode_yaml suggested with
       | Err _ => findings
       | Ok cfg =>
           match c_Merge cfg with
           | None => findings
           | Some _ =>
               if mergePortInPath then findings
               else findings ++ [mkFinding SeverityWarning codeMissingMergePort
                                   ("the suggested config's merge: section requires merge-port but it is not on PATH", [])
                                   "suggested config" "run: brokit install merge-port  — or remove the merge: section"]
           end
       end.

(** ** The whole diagnosis *)

Section run.
(** The project, as the scan sees it. *)
Context (parent base : string) (root : node) (unmarshal_package : string → option packageJSON).

Definition project : string := path_of parent base [].

(** Source: internal/doctor/scan.go:41-62 (Run, config path). *)
Definition config_path (opts : Options) : string * bool :=
  if negb (bool_decide (op_ConfigFile opts = "")) then
    let path := if negb (is_abs (op_ConfigFile opts)) then path_join project (op_ConfigFile opts)
                else op_ConfigFile opts in
    (path, stat_ok path)
  else
    let yml := path_join project "proc-compose.yml" in
    let yaml := path_join project "proc-compose.yaml" in
    if stat_ok yml then (yml, true) else if stat_ok yaml then (yaml, true) else (yml, false).

Definition no_services : Finding :=
  mkFinding SeverityWarning "no-services" ("No services detected and no proc-compose.yml found", []) ""
    "Run 'proc-compose init' or create a proc-compose.yml file".

(** What [Run] leaves: the report, its error, and the file it created. *)
Record outcome : Type := mkOutcome {
  oc_report : Report;
  oc_error : option string;
  oc_written : option (string * string);
}.

(** Source: internal/doctor/scan.go:64-100 (Run, report). *)
Definition diagnose (path : string) (exists_ : bool) : Report :=
  let services := detectServices parent base root unmarshal_package in
  let findings := if bool_decide (services = []) && negb exists_ then [no_services] else [] in
  let suggested := if bool_decide (services = []) then "" else renderSuggestedYAML services in
  let findings := if exists_ then checkExistingConfig path findings else findings in
  mkReport path exists_ services (checkSuggestedConfig suggested findings) suggested "".

(** Source: internal/doctor/scan.go:25-123 (Run). *)
Definition Run (opts : Options) : outcome :=
  let '(path, exists_) := config_path opts in
  let report := diagnose path exists_ in
  if negb (op_Write opts) then mkOutcome report None None
  else if exists_ then mkOutcome report (Some (path +:+ " already exists")) None
  else if bool_decide (trim_space (rp_SuggestedYAML report) = "")
  then mkOutcome report (Some "no services detected; refusing to write empty proc-compose.yml") None
  else match create_new path (rp_SuggestedYAML report) with
       | Some err => mkOutcome report (Some err) None
       | None =>
           mkOutcome (mkReport path exists_ (rp_Services report) (rp_Findings report) (rp_SuggestedYAML report) path)
             None (Some (path, rp_SuggestedYAML report))
       end.

End run.
End doctor.
