(* ===== verification/DoctorSuggest.v ===== *)
(** * The doctor: the suggestion, the findings and the file

    The configuration suggested for a scan is one that [Load] accepts, up to
    the few things about the proxy that it does not look at; [doctor --write]
    writes that configuration or nothing; and the duplicate-port check compares
    every process with the first user of its port. *)

From S2P Require Import Prelude GoStrings ConfigTypes ConfigValidate ConfigGraph References EnvFile ConfigMerge ConfigLoad GoText Doctor DoctorScan DoctorCheck.

(** ** The suggested processes *)

Lemma zip_insert_lookup {A B} (f : A → B) (l : list (string * A)) (m : gmap string B) n p : NoDup l.*1 →
  fold_left (λ m kv, <[kv.1 := f kv.2]> m) l m !! n = Some p ↔
  (∃ x, (n, x) ∈ l ∧ p = f x) ∨ n ∉ l.*1 ∧ m !! n = Some p.
Proof.
  revert m. induction l as [|[k x] l IH]; intros m Hd; cbn [fold_left fmap list_fmap fst snd].
  { split; [intros H; right; split; [by apply not_elem_of_nil|done]|]. by intros [(x & ?%elem_of_nil & _)|[_ H]]. }
  apply NoDup_cons in Hd as [Hk Hd]. rewrite IH by done. split.
  - intros [(y & Hy & ->)|[Hn H]]; [left; exists y; split; [by right|done]|].
    destruct (decide (n = k)) as [->|Hne].
    + rewrite lookup_insert_eq in H. injection H as <-. left. exists x. split; [left|done].
    + rewrite lookup_insert_ne in H by done. right. split; [by apply not_elem_of_cons|done].
  - intros [(y & [[= -> ->]|Hy]%elem_of_cons & ->)|[[Hne Hn]%not_elem_of_cons H]].
    + right. split; [done|]. by rewrite lookup_insert_eq.
    + left. by exists y.
    + right. split; [done|]. by rewrite lookup_insert_ne.
Qed.

Definition suggested_procs (services : list Service) : gmap string Process :=
  fold_left (λ procs ns, <[ns.1 := suggested_process ns.2]> procs) (zip (sv_Name <$> services) services) ∅.

Lemma zip_self {A B} (f : A → B) (l : list A) y x : (y, x) ∈ zip (f <$> l) l ↔ x ∈ l ∧ y = f x.
Proof.
  induction l as [|a l IH]; cbn.
  - split; [by intros ?%elem_of_nil|by intros [?%elem_of_nil _]].
  - rewrite !elem_of_cons, IH. naive_solver.
Qed.

Lemma suggested_procs_lookup services n p : NoDup (sv_Name <$> services) →
  suggested_procs services !! n = Some p ↔ ∃ s, s ∈ services ∧ sv_Name s = n ∧ p = suggested_process s.
Proof.
  intros Hd. unfold suggested_procs.
  rewrite zip_insert_lookup by (rewrite fst_zip; [done|by rewrite length_fmap]).
  rewrite lookup_empty. setoid_rewrite zip_self. naive_solver.
Qed.

(** Services as a scan reports them. *)
Definition reported_ok (services : list Service) : Prop :=
  services ≠ [] ∧ NoDup (sv_Name <$> services) ∧ ∀ s, s ∈ services → service_ok s.

(** The services are all suggested, under the names of the report. *)
Lemma suggestedConfig_eq services : reported_ok services →
  suggestedConfig services = Some (mkConfig (suggested_merge services) (suggested_procs services) []).
Proof.
  intros (Hne & Hd & Hok). unfold suggestedConfig. rewrite bool_decide_false by done.
  assert (suggested_services services = services) as ->.
  { unfold suggested_services. clear Hne Hd. induction services as [|s l IH]; [done|].
    rewrite filter_cons_True by (apply so_confidence, Hok; left). f_equal. apply IH. intros x Hx. apply Hok. by right. }
  rewrite bool_decide_false by done. unfold suggested_procs.
  rewrite unique_names_id; [done..|]. intros s Hs. apply so_name. by apply Hok.
Qed.

(** ** Processes of the suggested shape *)

(** Nothing is set but the command, the directory, the environment and a TCP
    readiness probe. *)
Definition simple (p : Process) : Prop :=
  p_Cmd p ≠ "" ∧
  ∃ rw, p = mkProcess (p_Cmd p) (p_Dir p) "" (p_Env p) "" "" 0 0 rw 0 [] ∅ None 0 "" "" ∧
    (rw = None ∨ ∃ target, rw = Some (mkReadyWhen "" ("localhost:" +:+ target) "" "")).

Lemma suggested_simple s : service_ok s → simple (suggested_process s).
Proof.
  intros Hs. unfold suggested_process. destruct (negb _); destruct (0 <? sv_Port s)%Z;
    (split; [by apply so_command in Hs|]; eexists; split; [reflexivity|]); [right; by eexists|by left..|right; by eexists|by left].
Qed.

Lemma simple_set_Dir d p : simple p → simple (set_Dir d p).
Proof. intros (Hc & rw & -> & H). split; [done|]. by exists rw. Qed.

Lemma simple_set_Env e p : simple p → simple (set_Env e p).
Proof. intros (Hc & rw & -> & H). split; [done|]. by exists rw. Qed.

Lemma simple_ready t p : simple p → simple (set_ReadyWhen (Some (mkReadyWhen "" ("localhost:" +:+ t) "" "")) p).
Proof. intros (Hc & rw & -> & H). split; [done|]. eexists. split; [reflexivity|]. right. by exists t. Qed.

Lemma simple_mode p : simple p → p_Mode p = "" ∧ EffectiveMode p = ProcessModeService.
Proof. by intros (_ & rw & -> & _). Qed.

Lemma tcp_probe target : ∃ k, probe_is (mkReadyWhen "" ("localhost:" +:+ target) "" "") k.
Proof. exists ProbeTCP. intros []; cbn; split; try done. Qed.

Lemma simple_valid re envFiles n p : processNameRe n = true → simple p → ProcessValid re envFiles n p.
Proof.
  intros Hn (Hc & rw & -> & Hrw). split; cbn in *; try done; try (intros; lia); try set_solver.
  - intros rw' ->. destruct Hrw as [|[t [= ->]]]; [done|]. split; [apply tcp_probe|done].
Qed.

(** ** The merge wiring of a suggested configuration *)

(** Processes all of which have the suggested shape. *)
Definition all_simple (procs : gmap string Process) : Prop := map_Forall (λ _, simple) procs.

Lemma inject_simple procs n port : all_simple procs → all_simple (injectTCPReadyIfMissing procs n port) ∧
  dom (injectTCPReadyIfMissing procs n port) = dom procs.
Proof.
  intros H. unfold injectTCPReadyIfMissing. destruct (_ || _); [done|]. destruct (procs !! n) as [p|] eqn:Hp; [|done].
  case_bool_decide; [done|]. split.
  - apply map_Forall_insert_2; [|done]. apply simple_ready. by apply (H n).
  - apply dom_insert_lookup_L. by eexists.
Qed.

Lemma inject_all_simple ups procs : all_simple procs →
  let procs' := fold_left (λ procs np, injectTCPReadyIfMissing procs np.1 np.2) ups procs in
  all_simple procs' ∧ dom procs' = dom procs.
Proof.
  revert procs. induction ups as [|[n port] ups IH]; intros procs H; cbn [fold_left]; [done|].
  destruct (inject_simple procs n port H) as [H1 H2]. destruct (IH _ H1) as [H3 H4]. split; [done|]. cbn in *. by rewrite H4.
Qed.

Lemma all_service procs : all_simple procs → serviceUpstreams procs = procs.
Proof.
  intros H. unfold serviceUpstreams. apply map_filter_id. intros n p Hp. by apply simple_mode, (H n).
Qed.

Lemma served_by procs served port n p : procs !! n = Some p → procs !! "" = None → n ≠ MergePortProcessName → (0 < port)%Z →
  (∃ sp, served !! n = Some sp ∧ sp_Port sp = port) → procWithPort procs served port ≠ "".
Proof.
  intros Hn Hempty Hm Hp (sp & Hs & Hport). unfold procWithPort. rewrite (proj2 (Z.leb_gt _ _)) by lia. unfold first_name.
  destruct (list_find _ _) as [[i x]|] eqn:E.
  - intros ->. apply list_find_Some in E as (Hi & HP & _). apply list_elem_of_lookup_2, elem_of_SortedProcessNames in Hi.
    rewrite Hempty in Hi. by destruct Hi.
  - exfalso. apply list_find_None in E. rewrite Forall_forall in E. apply (E n).
    + apply elem_of_SortedProcessNames. by eexists.
    + rewrite bool_decide_false by done. unfold serves. rewrite Hs. cbn. by apply Z.eqb_eq.
Qed.

(** A port of the merge section, and a process that serves it. *)
Definition served_port (procs : gmap string Process) (served : gmap string ServedPort) (port : Z) : Prop :=
  (1 ≤ port)%Z ∧ ∃ n p sp, procs !! n = Some p ∧ n ≠ MergePortProcessName ∧ served !! n = Some sp ∧ sp_Port sp = port.

Lemma procWithPort_served procs served port : procs !! "" = None → served_port procs served port →
  let n := procWithPort procs served port in n ≠ "" ∧ is_Some (procs !! n) ∧ ∃ sp, served !! n = Some sp ∧ sp_Port sp = port.
Proof.
  intros He (Hp & n & p & sp & Hn & Hm & Hs & Hport). cbn zeta.
  assert (procWithPort procs served port ≠ "") as H by (eapply served_by; eauto; lia).
  split; [done|]. destruct (procWithPort_spec _ _ _ H) as (H1 & _ & _ & H2). done.
Qed.

Definition pair_merge (client server : Z) (prefixes : list string) : Merge := mkMerge client server 0 prefixes [] "".

Lemma resolve_pair procs served client server prefixes : procs !! "" = None →
  served_port procs served client → served_port procs served server →
  ∃ ups, resolveUpstreamProcesses procs served (pair_merge client server prefixes) = Ok ups ∧ dom ups ⊆ dom procs.
Proof.
  intros He Hc Hs. pose proof (procWithPort_served _ _ _ He Hc) as (Hc1 & Hc2 & spc & Hc3 & Hc4).
  pose proof (procWithPort_served _ _ _ He Hs) as (Hs1 & Hs2 & sps & Hs3 & Hs4).
  unfold resolveUpstreamProcesses, findClientProc, findServerProc. cbn [pair_merge m_Routes m_Client m_Server m_ClientProcess length Nat.ltb Nat.leb].
  rewrite (bool_decide_true ("" = "")) by done. cbn [negb andb].
  rewrite (bool_decide_false (procWithPort procs served client = "")) by done.
  rewrite (bool_decide_false (procWithPort procs served server = "")) by done. cbn [negb andb].
  rewrite (bool_decide_false (procWithPort procs served client = "")) by done.
  rewrite (bool_decide_false (procWithPort procs served server = "")) by done. cbn [negb andb].
  destruct Hc as [Hcp _], Hs as [Hsp _].
  rewrite !(proj2 (Z.ltb_lt _ _)) by lia.
  rewrite (proj2 (checkUpstreamPort_Ok _ _ _ _)) by (intros s Hx; congruence).
  rewrite (proj2 (checkUpstreamPort_Ok _ _ _ _)) by (intros s Hx; congruence).
  cbn [mbind res_mbind res_bind]. eexists. split; [reflexivity|].
  rewrite !dom_insert_L, dom_empty_L. apply elem_of_dom in Hc2, Hs2. set_solver.
Qed.

(** What the merge section needs of the machine. *)
Definition proxy_port_ok (portEnv : string) : Prop := (merge_port portEnv (pair_merge 0 0 []) ≤ 65535)%Z.

Lemma merge_port_pair portEnv c s l : merge_port portEnv (pair_merge c s l) = merge_port portEnv (pair_merge 0 0 []).
Proof. done. Qed.

Lemma merge_port_pos portEnv c s l : (1 ≤ merge_port portEnv (pair_merge c s l))%Z.
Proof.
  unfold merge_port. cbn [pair_merge m_Port]. rewrite Z.eqb_refl. destruct (if bool_decide (portEnv = "") then _ else _) as [p|]; [|lia].
  destruct (Z.ltb_spec 0 p); lia.
Qed.

Lemma build_pair portEnv c s prefixes : (1 ≤ c)%Z → (1 ≤ s)%Z →
  match buildMergeCmd portEnv (pair_merge c s prefixes) with
  | Ok (cmd, m) => (c ≤ 65535)%Z ∧ (s ≤ 65535)%Z ∧ proxy_port_ok portEnv ∧ cmd ≠ "" ∧ ∃ port, m = set_Port port (pair_merge c s prefixes)
  | Err _ => ¬ ((c ≤ 65535)%Z ∧ (s ≤ 65535)%Z ∧ proxy_port_ok portEnv)
  end.
Proof.
  intros Hc Hs. unfold buildMergeCmd. cbn [pair_merge m_Client m_Server m_Routes m_ApiPrefixes length Nat.ltb Nat.leb].
  rewrite !(proj2 (Z.eqb_neq _ _)) by lia. cbn [negb orb andb guard_err res_bind].
  destruct (checkPortRange "client" c) as [[]|e] eqn:Ec; cbn [as_field res_bind guard_err mbind res_mbind].
  2:{ intros (H & _). assert (checkPortRange "client" c = Ok tt) by (apply checkPortRange_Ok; lia). congruence. }
  apply checkPortRange_Ok in Ec.
  destruct (checkPortRange "server" s) as [[]|e] eqn:Es; cbn [as_field res_bind guard_err mbind res_mbind].
  2:{ intros (_ & H & _). assert (checkPortRange "server" s = Ok tt) by (apply checkPortRange_Ok; lia). congruence. }
  apply checkPortRange_Ok in Es.
  set (port := merge_port portEnv _). assert (port = merge_port portEnv (pair_merge 0 0 [])) as Hport by done.
  pose proof (merge_port_pos portEnv 0 0 []) as Hpos. rewrite <- Hport in Hpos.
  cbn [set_Port m_Port]. destruct (checkPortRange "port" port) as [[]|e] eqn:Ep; cbn [as_field res_bind guard_err].
  - apply checkPortRange_Ok in Ep. split_and!; [lia|lia|unfold proxy_port_ok; lia|done|by exists port].
  - intros (_ & _ & H). unfold proxy_port_ok in H. rewrite <- Hport in H.
    assert (checkPortRange "port" port = Ok tt) by (apply checkPortRange_Ok; lia). congruence.
Qed.

Section loading.
Context (is_abs : string → bool) (path_join : string → string → string)
        (path_clean : string → string) (abs_dir : string → string)
        (stat_ok : string → bool) (read_file : string → file_read)
        (url_parse : string → option (string * string))
        (regexp_error : string → option string)
        (scanRoutes : string → list string) (portEnv : string).

(** The processes with the proxy among them: it depends on some of the others. *)
Definition proxied (procs procs' : gmap string Process) : Prop :=
  ∃ cmd port ups env, cmd ≠ "" ∧ procs' !! MergePortProcessName = Some (set_Env env (mergeProc cmd port ups)) ∧
    (∀ u, u ∈ ups → u ∈ dom procs) ∧ dom procs' = {[MergePortProcessName]} ∪ dom procs ∧
    ∀ n p, n ≠ MergePortProcessName → procs' !! n = Some p → simple p.

Lemma client_env_simple procs name dir m : all_simple (delete MergePortProcessName procs) → is_Some (procs !! name) →
  name ≠ MergePortProcessName →
  let procs' := injectClientAPIEnv path_join stat_ok read_file url_parse procs name dir m in
  all_simple (delete MergePortProcessName procs') ∧ dom procs' = dom procs ∧
  procs' !! MergePortProcessName = procs !! MergePortProcessName.
Proof.
  intros Ha [p Hp] Hn. cbn zeta. unfold injectClientAPIEnv. assert (proc_at procs name = p) as -> by (unfold proc_at; by rewrite Hp).
  case_bool_decide; [done|]. split; [|split].
  - rewrite delete_insert_ne by done. apply map_Forall_insert_2; [|done]. apply simple_set_Env. apply (Ha name).
    by rewrite lookup_delete_ne.
  - apply dom_insert_lookup_L. by eexists.
  - by rewrite lookup_insert_ne.
Qed.

Lemma load_pair dir envFiles procs c s : all_simple procs → procs !! "" = None → procs !! MergePortProcessName = None →
  served_port procs (servedPorts procs envFiles) c → served_port procs (servedPorts procs envFiles) s →
  match load_merge is_abs path_join stat_ok read_file url_parse scanRoutes portEnv dir envFiles procs (pair_merge c s []) with
  | Ok (procs', _) => (c ≤ 65535)%Z ∧ (s ≤ 65535)%Z ∧ proxy_port_ok portEnv ∧ proxied procs procs'
  | Err _ => ¬ ((c ≤ 65535)%Z ∧ (s ≤ 65535)%Z ∧ proxy_port_ok portEnv)
  end.
Proof.
  intros Ha He Hm Hc Hs. unfold load_merge. rewrite (bool_decide_false (is_Some (procs !! MergePortProcessName))) by (rewrite Hm; by intros []). cbn [guard_err res_bind].
  rewrite all_service by done. unfold checkClientProcess. cbn [pair_merge m_ClientProcess].
  rewrite (bool_decide_true ("" = "")) by done. cbn [res_bind].
  set (served := servedPorts procs envFiles) in *.
  match goal with |- context [buildMergeCmd _ ?x] => set (m1 := x) end. assert (∃ l, m1 = pair_merge c s l) as [l ->].
  { unfold m1. repeat case_match; by eexists. }
  pose proof (build_pair portEnv c s l (proj1 Hc) (proj1 Hs)) as Hb.
  destruct (buildMergeCmd portEnv (pair_merge c s l)) as [[cmd m2]|[]]; [|done..].
  destruct Hb as (Hc2 & Hs2 & Hp2 & Hcmd & port & ->).
  destruct (resolve_pair procs served c s l He Hc Hs) as (ups & Hups & Hdom).
  change (resolveUpstreamProcesses procs served (set_Port port (pair_merge c s l))) with
    (resolveUpstreamProcesses procs served (pair_merge c s l)). rewrite Hups. cbn [mbind res_mbind res_bind].
  destruct (inject_all_simple (map_to_list ups) procs Ha) as [Ha1 Hd1]. set (procs1 := fold_left _ _ procs) in *.
  set (procs2 := <[_ := _]> procs1).
  assert (delete MergePortProcessName procs2 = procs1) as Hdel.
  { unfold procs2. apply delete_insert_id. apply not_elem_of_dom. rewrite Hd1. by apply not_elem_of_dom. }
  split_and!; [done..|]. exists cmd, (m_Port (set_Port port (pair_merge c s l))), (keys ups).
  assert (∀ u, u ∈ keys ups → u ∈ dom procs) as Hk.
  { intros u [x Hx]%elem_of_keys. apply Hdom, elem_of_dom. by eexists. }
  assert (dom procs2 = {[MergePortProcessName]} ∪ dom procs) as Hd2 by (unfold procs2; by rewrite dom_insert_L, Hd1).
  case_bool_decide as Hcl.
  - exists ∅. split; [done|]. split; [unfold procs2; by rewrite lookup_insert_eq|]. split_and!; [done|done|]. intros n p Hn Hp.
    unfold procs2 in Hp. rewrite lookup_insert_ne in Hp by done. by apply (Ha1 n).
  - set (name := findClientProc _ _ _) in *. pose proof (findClientProc_configured _ _ _ Hcl) as Hconf. fold name in Hconf.
    assert (name ≠ MergePortProcessName) as Hnm by (intros Hx; rewrite Hx, Hm in Hconf; by destruct Hconf).
    assert (is_Some (procs2 !! name)) as Hname.
    { unfold procs2. rewrite lookup_insert_ne by done. apply elem_of_dom. rewrite Hd1. by apply elem_of_dom. }
    set (d := procDir _ _ _ _). set (m2 := set_Port _ _).
    destruct (client_env_simple procs2 name d m2) as (H1 & H2 & H3); [by rewrite Hdel|done|done|].
    exists ∅. split; [done|]. split; [rewrite H3; unfold procs2; by rewrite lookup_insert_eq|]. split_and!; [done|by rewrite H2|].
    intros n p Hn Hp. apply (H1 n). by rewrite lookup_delete_ne.
Qed.

(** ** Loading the processes *)

Lemma proxy_valid envFiles cmd port ups env : cmd ≠ "" →
  ProcessValid regexp_error envFiles MergePortProcessName (set_Env env (mergeProc cmd port ups)).
Proof.
  intros Hc. split; cbn; try done; try lia.
  - vm_compute. set_solver.
  - vm_compute. set_solver.
  - intros rw [= <-]. split; [apply tcp_probe|done].
Qed.

(** A configuration of suggested processes, the proxy perhaps among them. *)
Definition loadable (procs : gmap string Process) : Prop := ∀ n p, procs !! n = Some p →
  processNameRe n = true ∧
  (simple p ∨
   n = MergePortProcessName ∧ ∃ cmd port ups env, cmd ≠ "" ∧ p = set_Env env (mergeProc cmd port ups) ∧
     ∀ u, u ∈ ups → u ≠ MergePortProcessName ∧ ∃ q, procs !! u = Some q ∧ simple q).

Lemma loadable_shape procs n p : loadable procs → procs !! n = Some p →
  p_Ports p = ∅ ∧ p_Mode p = "" ∧
  (p_DependsOn p = [] ∨ n = MergePortProcessName ∧
     ∀ u, u ∈ p_DependsOn p → u ≠ MergePortProcessName ∧ ∃ q, procs !! u = Some q ∧ simple q).
Proof.
  intros Hl Hp. destruct (Hl n p Hp) as [_ [(_ & rw & -> & _)|(-> & cmd & port & ups & env & _ & -> & Hu)]].
  - split_and!; [done|done|by left].
  - split_and!; [done|done|]. right. split; [done|]. intros u. cbn. rewrite elem_of_sort_strings. apply Hu.
Qed.

Lemma loadable_edge procs envFiles a b : loadable procs →
  edge (map_imap (λ name p, Some (normalise envFiles name p)) procs) a b →
  a = MergePortProcessName ∧ b ≠ MergePortProcessName ∧ ∃ q, procs !! b = Some q ∧ simple q.
Proof.
  intros Hl. unfold edge, proc_at. rewrite map_lookup_imap. destruct (procs !! a) as [p|] eqn:Hp; cbn; [|by intros ?%elem_of_nil].
  destruct (normalise_fields envFiles a p) as (env & -> & _). cbn.
  destruct (loadable_shape procs a p Hl Hp) as (_ & _ & [->|[-> H]]); [by intros ?%elem_of_nil|]. intros Hb. split; [done|by apply H].
Qed.

(** Such a configuration passes every step after the merge section. *)
Lemma loadable_passes envFiles procs : loadable procs →
  ∃ procs', validateProcesses regexp_error envFiles procs = Ok procs' ∧ checkReferenceCollisions procs' = Ok tt ∧
    checkDependencies procs' = Ok tt ∧ detectCycles procs' = Ok tt.
Proof.
  intros Hl. eexists. split.
  { apply validateProcesses_Ok. split; [|reflexivity]. intros n p Hp.
    destruct (Hl n p Hp) as [Hn [Hs|(-> & cmd & port & ups & env & Hc & -> & _)]]; [by apply simple_valid|by apply proxy_valid]. }
  split_and!.
  - apply checkReferenceCollisions_unreachable. intros n p pn Hp. rewrite map_lookup_imap in Hp.
    destruct (procs !! n) as [q|] eqn:Hq; cbn in Hp; [|done]. injection Hp as <-.
    destruct (normalise_fields envFiles n q) as (env & -> & _). cbn.
    destruct (loadable_shape procs n q Hl Hq) as (-> & _). rewrite lookup_empty. by intros [].
  - apply checkDependencies_Ok. intros a b (-> & Hb & q & Hq & Hs)%(loadable_edge procs envFiles); [|done]. split; [done|].
    exists (normalise envFiles b q). rewrite map_lookup_imap, Hq. split; [done|].
    destruct (normalise_fields envFiles b q) as (env & -> & _). cbn. by destruct (simple_mode q Hs) as [-> _].
  - apply detectCycles_acyclic. intros n Hn.
    assert (∀ a b, tc (edge (map_imap (λ name p, Some (normalise envFiles name p)) procs)) a b → a = MergePortProcessName) as Hsrc.
    { intros a b Hab. destruct Hab as [a b H|a y b H _]; by apply loadable_edge in H as [-> _]. }
    pose proof (Hsrc n n Hn) as ->. inversion Hn as [? ? H|? y ? H Ht]; subst; apply loadable_edge in H as (_ & Hb & _); try done.
    by apply Hsrc in Ht.
Qed.

Lemma loadable_rest envFiles pm : loadable pm.1 →
  is_ok (procs ← validateProcesses regexp_error envFiles pm.1;
         check checkReferenceCollisions procs ;;
         check checkDependencies procs ;;
         check detectCycles procs ;;
         resources ← normalizeResources [];
         Ok (mkConfig pm.2 procs resources)) = true.
Proof.
  intros Hl. destruct (loadable_passes envFiles pm.1 Hl) as (procs & -> & H1 & H2 & H3). cbn. by rewrite H1, H2, H3.
Qed.

(** ** Ports the suggested processes serve *)

Lemma pieces_plain s : str_mem "$" s = false → pieces 0 s = Lit <$> bytes s.
Proof.
  induction s as [|c s IH]; [done|]. rewrite str_mem_cons, orb_false_iff. intros [Hc Hs]. apply bool_decide_eq_false in Hc.
  cbn [pieces bytes fmap list_fmap]. assert (ref_at (String c s) = None) as ->; [|by rewrite IH].
  unfold ref_at. destruct c as [[] [] [] [] [] [] [] []]; try done.
Qed.

Lemma resolve_plain procs s : str_mem "$" s = false → resolvePortReferences procs s = (s, [], true).
Proof.
  intros Hs. unfold resolvePortReferences. rewrite pieces_plain by done.
  assert (∀ l out, fold_left (resolve_piece procs) (Lit <$> l) (mkResolving out [] true) = mkResolving (out +:+ of_bytes l) [] true) as H.
  { intros l. induction l as [|c l IH]; intros out; cbn [fmap list_fmap fold_left of_bytes]; [by rewrite str_app_nil|].
    cbn [resolve_piece rs_out rs_named rs_ok]. by rewrite IH, str_app_assoc. }
  by rewrite H, of_bytes_bytes.
Qed.

Lemma served_suggested procs envFiles n p port : procs !! n = Some p → p_Env p !! "PORT" = Some (itoa port) →
  (0 < port ≤ max_int)%Z → ∃ sp, servedPorts procs envFiles !! n = Some sp ∧ sp_Port sp = port.
Proof.
  intros Hn Hp Hr. unfold servedPorts. rewrite map_lookup_imap, Hn. cbn. unfold servedPort. rewrite Hp.
  rewrite resolve_plain by (by apply itoa_no_byte). rewrite trim_itoa by lia. cbn [negb orb].
  rewrite bool_decide_false by apply itoa_nonempty.
  assert (atoi (itoa port) = Some port) as Ha.
  { apply atoi_itoa. unfold int_range, min_int. apply andb_true_iff. rewrite !Z.leb_le. lia. }
  rewrite Ha, (proj2 (Z.ltb_lt _ _)) by lia. by eexists.
Qed.

Lemma normalised_lookup procs dir n p : procs !! n = Some p → all_simple procs →
  ∃ q, normalizeProcessDirs is_abs path_join path_clean procs dir !! n = Some q ∧ p_Env q = p_Env p.
Proof.
  intros Hp _. unfold normalizeProcessDirs. rewrite lookup_fmap, Hp. cbn. eexists. split; [done|].
  by repeat case_match.
Qed.

Lemma normalised_simple procs dir : all_simple procs → all_simple (normalizeProcessDirs is_abs path_join path_clean procs dir).
Proof.
  intros H. apply map_Forall_fmap. intros n p Hp. cbn. specialize (H n p Hp). cbn in H.
  repeat case_match; try done; by apply simple_set_Dir.
Qed.

(** ** The suggestion loads *)

(** The ports of the proxied pair are ports, the port of the proxy is one, and
    no service has the name reserved for the proxy. *)
Definition suggestion_fits (services : list Service) : Prop :=
  match suggested_merge services with
  | None => True
  | Some m => (m_Client m ≤ 65535)%Z ∧ (m_Server m ≤ 65535)%Z ∧ proxy_port_ok portEnv ∧
              MergePortProcessName ∉ sv_Name <$> services
  end.

Lemma with_port_elem role services s : s ∈ with_port role services ↔ (role s = true ∧ (0 < sv_Port s)%Z) ∧ s ∈ services.
Proof. unfold with_port. by rewrite list_elem_of_filter. Qed.

Lemma suggested_merge_pair services m : suggested_merge services = Some m →
  ∃ front back, m = pair_merge (sv_Port front) (sv_Port back) [] ∧ front ∈ services ∧ back ∈ services ∧
    (0 < sv_Port front)%Z ∧ (0 < sv_Port back)%Z.
Proof.
  unfold suggested_merge. destruct (with_port isFrontend services) as [|f [|]] eqn:Ef; [done| |done].
  destruct (with_port isBackend services) as [|b [|]] eqn:Eb; [done| |done].
  assert (f ∈ with_port isFrontend services) as Hf by (rewrite Ef; left).
  assert (b ∈ with_port isBackend services) as Hb by (rewrite Eb; left).
  apply with_port_elem in Hf as [[_ Hf1] Hf2], Hb as [[_ Hb1] Hb2].
  destruct (negb _); [|done]. intros [= <-]. by exists f, b.
Qed.

Lemma suggested_all_simple services : reported_ok services → all_simple (suggested_procs services).
Proof.
  intros (_ & Hd & Hok) n p Hp. apply suggested_procs_lookup in Hp as (s & Hs & _ & ->); [|done].
  by apply suggested_simple, Hok.
Qed.

Lemma normalised_dom procs dir n : is_Some (normalizeProcessDirs is_abs path_join path_clean procs dir !! n) ↔ is_Some (procs !! n).
Proof. unfold normalizeProcessDirs. rewrite lookup_fmap. by rewrite fmap_is_Some. Qed.

Lemma suggested_names services n : reported_ok services →
  is_Some (suggested_procs services !! n) ↔ n ∈ sv_Name <$> services.
Proof.
  intros (_ & Hd & _). rewrite list_elem_of_fmap. split.
  - intros [p (s & Hs & <- & _)%suggested_procs_lookup]; [by exists s|done].
  - intros (s & -> & Hs). eexists. apply suggested_procs_lookup; [done|]. by exists s.
Qed.

Lemma suggested_served services s dir envFiles : reported_ok services → s ∈ services → (0 < sv_Port s)%Z →
  MergePortProcessName ∉ sv_Name <$> services →
  let procs := normalizeProcessDirs is_abs path_join path_clean (suggested_procs services) dir in
  served_port procs (servedPorts procs envFiles) (sv_Port s).
Proof.
  intros Hok Hs Hp Hm. cbn zeta. pose proof Hok as (_ & Hd & Hall).
  assert (suggested_procs services !! sv_Name s = Some (suggested_process s)) as Hl.
  { apply suggested_procs_lookup; [done|]. by exists s. }
  destruct (normalised_lookup _ dir _ _ Hl) as (q & Hq & He); [by apply suggested_all_simple|].
  assert (p_Env q !! "PORT" = Some (itoa (sv_Port s))) as Hport.
  { rewrite He. unfold suggested_process. rewrite (proj2 (Z.ltb_lt _ _)) by done. cbn. apply lookup_singleton_eq. }
  split; [lia|]. destruct (served_suggested _ envFiles _ _ _ Hq Hport) as (sp & Hsp & Hv).
  { split; [done|]. destruct (Hall s Hs) as [_ _ _ _ [_ Hr] _]. done. }
  exists (sv_Name s), q, sp. split_and!; [done| |done|done]. intros Hx. apply Hm, list_elem_of_fmap. by exists s.
Qed.

Lemma simple_loadable procs : (∀ n, is_Some (procs !! n) → processNameRe n = true) → all_simple procs → loadable procs.
Proof. intros Hn Hs n p Hp. split; [apply Hn; by eexists|]. left. by apply (Hs n). Qed.

Lemma proxied_loadable procs procs' : (∀ n, is_Some (procs !! n) → processNameRe n = true) →
  procs !! MergePortProcessName = None → proxied procs procs' → loadable procs'.
Proof.
  intros Hn Hm (cmd & port & ups & env & Hc & Hmp & Hu & Hdom & Hrest) n p Hp.
  destruct (decide (n = MergePortProcessName)) as [->|Hne].
  - split; [done|]. right. split; [done|]. rewrite Hmp in Hp. injection Hp as <-. exists cmd, port, ups, env. split_and!; [done..|].
    intros u Hin%Hu. assert (u ≠ MergePortProcessName) as Hum.
    { intros ->. apply elem_of_dom in Hin. rewrite Hm in Hin. by destruct Hin. }
    split; [done|]. assert (u ∈ dom procs') as [q Hq]%elem_of_dom by (rewrite Hdom; apply elem_of_union; by right).
    exists q. split; [done|]. by apply (Hrest u).
  - split; [|left; by apply (Hrest n)]. apply Hn, elem_of_dom. assert (n ∈ dom procs') as Hin by (apply elem_of_dom; by eexists).
    rewrite Hdom in Hin. by apply elem_of_union in Hin as [?%elem_of_singleton|].
Qed.

Lemma suggested_accepted services path cfg : reported_ok services → suggestedConfig services = Some cfg →
  is_ok (load_config is_abs path_join path_clean abs_dir stat_ok read_file url_parse regexp_error scanRoutes portEnv path cfg) = true
  ↔ suggestion_fits services.
Proof.
  intros Hok Hcfg. rewrite suggestedConfig_eq in Hcfg by done. injection Hcfg as <-. unfold load_config, suggestion_fits.
  pose proof Hok as (Hne & Hd & Hall). cbn [c_Merge c_Processes c_Resources].
  set (procs := normalizeProcessDirs _ _ _ _ _). set (envFiles := readEnvFiles _ _ _ _ _).
  assert (all_simple procs) as Hs by (by apply normalised_simple, suggested_all_simple).
  assert (∀ n, is_Some (procs !! n) ↔ n ∈ sv_Name <$> services) as Hnames.
  { intros n. unfold procs. rewrite normalised_dom. by apply suggested_names. }
  assert (∀ n, is_Some (procs !! n) → processNameRe n = true) as Hvalid.
  { intros n (s & -> & H)%Hnames%list_elem_of_fmap. by apply so_name, Hall. }
  assert (size (suggested_procs services) ≠ 0) as Hsize.
  { intros H0%map_size_empty_inv. destruct services as [|s l]; [done|].
    assert (is_Some (suggested_procs (s :: l) !! sv_Name s)) as Hx by (apply suggested_names; [done|left]).
    rewrite H0, lookup_empty in Hx. by destruct Hx. }
  destruct (suggested_merge services) as [m|] eqn:Em.
  2:{ rewrite bool_decide_false by done. cbn [guard_err res_bind]. split; [done|]. intros _.
      by apply (loadable_rest envFiles (procs, None)), simple_loadable. }
  cbn [guard_err res_bind]. apply suggested_merge_pair in Em as (f & b & -> & Hf & Hb & Hpf & Hpb).
  cbn [pair_merge m_Client m_Server]. fold (pair_merge (sv_Port f) (sv_Port b) []).
  destruct (decide (MergePortProcessName ∈ sv_Name <$> services)) as [Hm|Hm].
  { unfold load_merge. rewrite (bool_decide_true (is_Some _)) by (by apply Hnames). cbn. split; [done|]. by intros (_ & _ & _ & []). }
  assert (procs !! MergePortProcessName = None) as Hmp by (apply eq_None_not_Some; by rewrite Hnames).
  assert (procs !! "" = None) as Hempty by (apply eq_None_not_Some; intros H%Hvalid; done).
  pose proof (load_pair (abs_dir path) envFiles procs _ _ Hs Hempty Hmp (suggested_served services f (abs_dir path) envFiles Hok Hf Hpf Hm)
    (suggested_served services b (abs_dir path) envFiles Hok Hb Hpb Hm)) as Hload.
  destruct (load_merge _ _ _ _ _ _ _ _ _ _ _) as [[procs' m']|e]; cbn [mbind res_mbind res_bind].
  - destruct Hload as (H1 & H2 & H3 & Hpx). split; [done|]. intros _.
    apply (loadable_rest envFiles (procs', Some m')). by eapply proxied_loadable.
  - split; [done|]. intros (H1 & H2 & H3 & _). by destruct Hload.
Qed.

(** C24: For services as the scan reports them, the configuration the doctor
    suggests is one that [Load] accepts exactly when it fits: it proposes no
    proxy, or the two proxied ports and the proxy's own are TCP ports and no
    service bears the name reserved for the proxy.  In every other respect
    (names, commands, probes, references, dependencies, cycles) a suggestion
    is never refused, wherever it is loaded from. *)
Theorem suggestion_loads services path cfg : reported_ok services → suggestedConfig services = Some cfg →
  is_ok (load_config is_abs path_join path_clean abs_dir stat_ok read_file url_parse regexp_error scanRoutes portEnv path cfg) = true
  ↔ suggestion_fits services.
Proof. apply suggested_accepted. Qed.
End loading.

(** ** Writing the suggestion *)

Section writing.
Context (is_abs : string → bool) (path_join : string → string → string)
        (path_clean : string → string) (abs_dir : string → string)
        (stat_ok : string → bool) (read_file : string → file_read)
        (url_parse : string → option (string * string))
        (regexp_error : string → option string)
        (scanRoutes : string → list string) (portEnv : string)
        (read_config : string → res string string)
        (decode_yaml : string → res string Config)
        (encode_yaml : Config → option string)
        (decode_env_files : string → option (gmap string string))
        (path_dir : string → string) (mergePortInPath tunnelInPath : bool)
        (create_new : string → string → option string)
        (load_error_text : load_error → string)
        (parent base : string) (root : node) (unmarshal_package : string → option packageJSON).

Notation services := (detectServices parent base root unmarshal_package).
Notation run := (Run is_abs path_join path_clean abs_dir stat_ok read_file url_parse regexp_error scanRoutes portEnv
  read_config decode_yaml encode_yaml decode_env_files path_dir mergePortInPath tunnelInPath create_new load_error_text
  parent base root unmarshal_package).
Notation load := (doctor_load is_abs path_join path_clean abs_dir stat_ok read_file url_parse regexp_error scanRoutes portEnv
  read_config decode_yaml).

Lemma Run_written opts path text : oc_written (run opts) = Some (path, text) →
  op_Write opts = true ∧ config_path is_abs path_join stat_ok parent base opts = (path, false) ∧
  trim_space text ≠ "" ∧ create_new path text = None ∧ oc_error (run opts) = None ∧
  text = (if bool_decide (services = []) then "" else renderSuggestedYAML encode_yaml services).
Proof.
  unfold Run. destruct (config_path _ _ _ _ _ _) as [path' ex]. destruct (op_Write opts); [|done]. cbn [negb].
  destruct ex; [done|]. case_bool_decide; [done|]. destruct (create_new _ _) eqn:E; [done|]. cbn. intros [= <- <-]. done.
Qed.

Lemma reported_services_ok : services ≠ [] → reported_ok services.
Proof.
  intros Hne. split; [done|]. split; [rewrite detectServices_found; apply renamed_names|]. intros s. apply services_ok.
Qed.

(** When [doctor --write] writes a file, it was asked to, the project had
    no configuration at that path, and nothing is reported as having failed.
    Where the YAML codec reads back what it writes, what [Load] says of the
    file is settled: it is accepted exactly when the suggestion fits. *)
Theorem doctor_write_loads opts path text :
  oc_written (run opts) = Some (path, text) →
  (∀ cfg, suggestedConfig services = Some cfg → ∃ t, encode_yaml cfg = Some t ∧ decode_yaml t = Ok cfg) →
  read_config path = Ok text →
  op_Write opts = true ∧ config_path is_abs path_join stat_ok parent base opts = (path, false) ∧ oc_error (run opts) = None ∧
  (is_ok (load path) = true ↔ suggestion_fits portEnv services).
Proof.
  intros Hw Hcodec Hread. destruct (Run_written _ _ _ Hw) as (H1 & H2 & H3 & _ & H4 & Ht). split_and!; [done..|].
  case_bool_decide as Hs; [by rewrite Ht in H3|]. pose proof (reported_services_ok Hs) as Hok.
  pose proof (suggestedConfig_eq _ Hok) as Hcfg. destruct (Hcodec _ Hcfg) as (t & He & Hdec).
  unfold renderSuggestedYAML in Ht. rewrite Hcfg, He in Ht. cbn in Ht. subst t.
  unfold doctor_load, Load. rewrite Hread, Hdec.
  rewrite <- (suggested_accepted is_abs path_join path_clean abs_dir stat_ok read_file url_parse regexp_error scanRoutes portEnv
    services path _ Hok Hcfg). by destruct (load_config _ _ _ _ _ _ _ _ _ _ _ _).
Qed.
End writing.

(** ** Ports two processes use *)

Section ports.
Context (procs : gmap string Process).

(** How a process uses a port; a teardown process uses none. *)
Definition user (port : Z) (name : string) : option portUse :=
  let '(p, named) := processPort (ServedPorts procs) name (proc_at procs name) in
  if (p =? 0)%Z || bool_decide (p_Mode (proc_at procs name) = ProcessModeTeardown) || negb (p =? port)%Z then None
  else Some (mkPortUse name named).

(** The finding about a process: the first of [names] with the same port is
    another process, and the session does not give the two different ports. *)
Definition conflict (names : list string) (name : string) : option Finding :=
  let port := (processPort (ServedPorts procs) name (proc_at procs name)).1 in
  u ← user port name;
  other ← first_of (user port) names;
  if bool_decide (pu_name other = name) || assigned_apart (pu_named other) (pu_named u) then None
  else Some (duplicate_port (pu_name other) name port).

Lemma first_of_app {A B} (f : A → option B) l k :
  first_of f (l ++ k) = match first_of f l with Some y => Some y | None => first_of f k end.
Proof. induction l as [|x l IH]; cbn [app first_of]; [done|]. by destruct (f x). Qed.

Lemma user_name port name u : user port name = Some u → pu_name u = name.
Proof. unfold user. destruct (processPort _ _ _) as [p named]. case_match; [done|]. by intros [= <-]. Qed.

Lemma first_user_in port l u : first_of (user port) l = Some u → pu_name u ∈ l.
Proof. apply (first_of_ind (λ u, pu_name u ∈ l)). intros x y Hx Hy. by rewrite (user_name _ _ _ Hy). Qed.

(** A later process does not change what is found about an earlier one. *)
Lemma conflict_prefix l rest name : name ∈ l → conflict (l ++ rest) name = conflict l name.
Proof.
  intros Hin. unfold conflict. set (port := (processPort _ _ _).1). destruct (user port name) as [u|] eqn:Hu; cbn; [|done].
  rewrite first_of_app. assert (is_Some (first_of (user port) l)) as [y ->]; [|done].
  clear -Hin Hu. induction l as [|x l IH]; [by apply elem_of_nil in Hin|]. cbn [first_of].
  destruct (user port x) eqn:Hx; [by eexists|]. apply elem_of_cons in Hin as [->|Hin]; [congruence|by apply IH].
Qed.

Lemma port_step_user l s name : name ∉ l → (∀ port, s.1 !! port = first_of (user port) l) →
  (∀ port, (port_step procs s name).1 !! port = first_of (user port) (l ++ [name])) ∧
  (port_step procs s name).2 = s.2 ++ option_list (conflict (l ++ [name]) name).
Proof.
  intros Hn Hs. assert (∀ port, first_of (user port) (l ++ [name]) = match s.1 !! port with Some y => Some y | None => user port name end) as Hf.
  { intros port. rewrite first_of_app, Hs. cbn [first_of]. by destruct (user port name). }
  unfold port_step, conflict. rewrite Hf.
  assert (∀ port, user port name = let '(p, named) := processPort (ServedPorts procs) name (proc_at procs name) in
    if (p =? 0)%Z || bool_decide (p_Mode (proc_at procs name) = ProcessModeTeardown) || negb (p =? port)%Z then None
    else Some (mkPortUse name named)) as Huser by done.
  destruct (processPort (ServedPorts procs) name (proc_at procs name)) as [p named] eqn:Hp. cbn [fst].
  destruct ((p =? 0)%Z || bool_decide (p_Mode (proc_at procs name) = ProcessModeTeardown)) eqn:Hskip.
  { rewrite (Huser p). cbn [orb mbind option_bind option_list]. rewrite app_nil_r. split; [|done].
    intros port. rewrite Hf, Huser. cbn [orb]. by destruct (s.1 !! port). }
  rewrite (Huser p), Z.eqb_refl. cbn [orb negb mbind option_bind].
  destruct (s.1 !! p) as [other|] eqn:Ho; cbn [mbind option_bind].
  - assert (pu_name other ≠ name) as Hne by (intros <-; rewrite Hs in Ho; by apply first_user_in in Ho).
    rewrite (bool_decide_false (pu_name other = name)) by done. cbn [orb pu_named].
    assert (∀ port, s.1 !! port = first_of (user port) (l ++ [name])) as Hsame.
    { intros port. rewrite Hf. destruct (s.1 !! port) eqn:E; [done|]. rewrite Huser. destruct (Z.eqb_spec p port) as [->|]; [congruence|done]. }
    destruct (assigned_apart (pu_named other) named); cbn [option_list]; [by rewrite app_nil_r|done].
  - cbn [fst snd pu_name]. rewrite (bool_decide_true (name = name)) by done. cbn [orb option_list]. rewrite app_nil_r. split; [|done].
    intros port. rewrite Hf. destruct (Z.eqb_spec p port) as [<-|Hne].
    + by rewrite lookup_insert_eq, Ho, Huser, Z.eqb_refl.
    + rewrite lookup_insert_ne, Huser by done. rewrite (proj2 (Z.eqb_neq _ _)) by done. cbn. by destruct (s.1 !! port).
Qed.

Lemma option_list_omap {A B} (f : A → option B) x : omap f [x] = option_list (f x).
Proof. cbn. by destruct (f x). Qed.

Lemma port_loop l rest s : NoDup (l ++ rest) → (∀ port, s.1 !! port = first_of (user port) l) →
  s.2 = omap (conflict (l ++ rest)) l →
  (fold_left (port_step procs) rest s).2 = omap (conflict (l ++ rest)) (l ++ rest).
Proof.
  revert l s. induction rest as [|x rest IH]; intros l s Hd H1 H2; cbn [fold_left]; [by rewrite app_nil_r in *|].
  replace (l ++ x :: rest) with ((l ++ [x]) ++ rest) in * by (by rewrite <- app_assoc).
  assert (x ∉ l) as Hx.
  { apply NoDup_app in Hd as (Hd & _ & _). apply NoDup_app in Hd as (_ & Hd & _). intros Hin. apply (Hd _ Hin). left. }
  destruct (port_step_user l s x Hx H1) as [H3 H4]. apply IH; [done|done|].
  rewrite H4, omap_app, option_list_omap, H2. f_equal. f_equal. symmetry. apply conflict_prefix. apply elem_of_app. right. left.
Qed.

(** The duplicate-port check reports exactly, in the order of the names,
    every process whose port is already used by a process before it, unless
    the session assigns both from named ports they do not share; each is
    compared with the first user of the port and with no other. *)
Theorem check_ports_exact :
  check_ports procs = omap (conflict (SortedProcessNames procs)) (SortedProcessNames procs).
Proof.
  unfold check_ports. apply (port_loop [] (SortedProcessNames procs)); [apply NoDup_SortedProcessNames|done|done].
Qed.
End ports.

(** Three services: [api] and [copy] are started with the same named port,
    [admin] with another one that prefers the same number. *)
Definition named_service (ports : gmap string Z) (port : string) : Process :=
  mkProcess "run" "" "" {["PORT" := port]} "" "" 0 0 None 0 [] ports None 0 "" "".

Definition sharing : gmap string Process :=
  {["api" := named_service {["http" := 3000%Z]} "${ports.api.http}"; "copy" := named_service ∅ "${ports.api.http}"]}.

Definition hidden_sharing : gmap string Process :=
  <["admin" := named_service {["http" := 3000%Z]} "${ports.admin.http}"]> sharing.


(** ** Witnesses *)

(** A frontend on [port] and a Go backend. *)
Definition pair_services (port : Z) : list Service :=
  [mkService "web" "npm run dev" "./web" port "node" ConfidenceHigh "./web/package.json";
   mkService "api" "go run ./cmd/api" "." 8000 "go" ConfidenceMedium "go.mod"].

Lemma pair_reported port : (0 <= port <= max_int)%Z → reported_ok (pair_services port).
Proof.
  intros Hp. split; [done|]. split.
  - cbn. apply NoDup_cons. split; [intros ?%list_elem_of_singleton; done|apply NoDup_singleton].
  - intros s [-> | ->%list_elem_of_singleton]%elem_of_cons; (split; [done|done|done|by (left + right)|done|done]).
Qed.

Definition example_load_config (port : Z) : res ValidationError Config :=
  load_config (λ _, false) (λ a b, a +:+ "/" +:+ b) (λ s, s) (λ _, "/srv") (λ _, false) (λ _, Err "missing") (λ _, None)
    (λ _, None) (λ _, []) "" "proc-compose.yml" (default (mkConfig None ∅ []) (suggestedConfig (pair_services port))).

(** A port no TCP connection has, found in a dotenv file, makes the suggestion
    one that is refused. *)
Lemma suggestion_loads_witness : is_ok (example_load_config 3000) = true ∧ is_ok (example_load_config 70000) ≠ true.
Proof.
  split.
  - apply (suggestion_loads (λ _, false) (λ a b, a +:+ "/" +:+ b) (λ s, s) (λ _, "/srv") (λ _, false) (λ _, Err "missing")
      (λ _, None) (λ _, None) (λ _, []) "" (pair_services 3000)).
    + apply pair_reported. vm_compute. split; discriminate.
    + vm_compute. reflexivity.
    + vm_compute. repeat split; try discriminate. intros H. inversion H as [|? ? ? H']; subst; inversion H' as [|? ? ? H'']; subst; inversion H''.
  - intros H. apply (suggestion_loads (λ _, false) (λ a b, a +:+ "/" +:+ b) (λ s, s) (λ _, "/srv") (λ _, false) (λ _, Err "missing")
      (λ _, None) (λ _, None) (λ _, []) "" (pair_services 70000)) in H.
    + vm_compute in H. destruct H as [H _]. by apply H.
    + apply pair_reported. vm_compute. split; discriminate.
    + vm_compute. reflexivity.
Defined.

(** A project without a configuration, and the suggestion written for it. *)
Definition example_written : Config :=
  default (mkConfig None ∅ []) (suggestedConfig (detectServices "/home/me" "shop" example_project example_package)).

Definition example_run : outcome :=
  Run (λ _, false) (λ a b, a +:+ "/" +:+ b) (λ s, s) (λ _, "/home/me/shop") (λ _, false) (λ _, Err "missing") (λ _, None)
    (λ _, None) (λ _, []) "" (λ _, Ok "text") (λ _, Ok example_written) (λ _, Some "text") (λ _, None) (λ _, "/home/me/shop")
    true true (λ _ _, None) (λ _, "") "/home/me" "shop" example_project example_package (mkOptions "" true).

Lemma doctor_write_loads_witness :
  oc_written example_run = Some ("/home/me/shop/proc-compose.yml", "text") ∧ oc_error example_run = None.
Proof.
  assert (oc_written example_run = Some ("/home/me/shop/proc-compose.yml", "text")) as Hw by (vm_compute; reflexivity).
  split; [exact Hw|].
  refine (proj1 (proj2 (proj2 (doctor_write_loads _ _ (λ s, s) (λ _, "/home/me/shop") _ (λ _, Err "missing") (λ _, None) (λ _, None)
    (λ _, []) "" (λ _, Ok "text") (λ _, Ok example_written) _ _ _ _ _ _ _ "/home/me" "shop" example_project example_package
    (mkOptions "" true) _ _ Hw _ eq_refl)))).
  intros cfg Hcfg. exists "text". split; [reflexivity|]. unfold example_written. by rewrite Hcfg.
Defined.
