(* ===== verification/Frames.v ===== *)
(** * The command stream of a client

    How the daemon reads the commands a client writes: newline-delimited
    frames over a buffer of fixed size, an oversized frame discarded up to its
    newline and answered with an error, and the frames after it still read.
    The connection is the text the client sends before it ends; the JSON
    decoder is an argument.  What becomes of a command is in [Ipc] and
    [Stopping]. *)

From S2P Require Import Prelude GoStrings.

Definition newline : ascii := chr 10.

(** ** The buffered reader *)

(** How [ReadSlice] ends: with the delimiter, with a full buffer, or with the
    error that ended the stream. *)
Inductive slice_end : Type := Delimited | BufferFull | StreamEnded.

(** [bufio.Reader.ReadSlice] with a buffer of [size] bytes, on what is left of
    the stream: the slice, what is left after it, and how it ended. *)
Definition ReadSlice (size : nat) (stream : string) : string * string * slice_end :=
  match cut_byte newline stream with
  | Some (line, rest) =>
      if String.length line <? size then (line +:+ String newline "", rest, Delimited)
      else (str_take size stream, skip_bytes size stream, BufferFull)
  | None =>
      if String.length stream <? size then (stream, "", StreamEnded)
      else (str_take size stream, skip_bytes size stream, BufferFull)
  end.

(** Source: internal/ipc/server.go:17-23 (maxCommandFrameBytes). *)
Definition maxCommandFrameBytes : nat := 2 ^ 16.

Section commands.
Context {Command : Type}.
(** [json.Unmarshal] of an event: its type and its command, if it has one. *)
Context (unmarshal : string → option (string * option Command)).
Context (size : nat).

Definition TypeCommand : string := "command".

(** What the daemon does for a frame. *)
Inductive action : Type :=
  | HandleCommand (c : Command)
  | RejectOversized.

(** What is left of the stream, and whether the line ended before it.
    Source: internal/ipc/server.go:348-356 (discardLine). *)
Fixpoint discardLine (fuel : nat) (stream : string) : string * bool :=
  match fuel with
  | 0 => (stream, false)
  | S fuel =>
      match ReadSlice size stream with
      | (_, rest, BufferFull) => discardLine fuel rest
      | (_, rest, Delimited) => (rest, true)
      | (_, rest, StreamEnded) => (rest, false)
      end
  end.

(** The command of a frame that is one.
    Source: internal/ipc/server.go:333-341 (readCommands, frame). *)
Definition frame_command (frame : string) : option Command :=
  match unmarshal frame with
  | Some (type, Some cmd) => if bool_decide (type = TypeCommand) then Some cmd else None
  | _ => None
  end.

(** [framed] is what [awaitSnapshot] answers: whether the connection is still
    served once its snapshot has been written.
    Source: internal/ipc/server.go:323-346 (readCommands). *)
Fixpoint readCommands (fuel : nat) (framed : bool) (stream : string) : list action :=
  match fuel with
  | 0 => []
  | S fuel =>
      match ReadSlice size stream with
      | (_, rest, BufferFull) =>
          let '(rest, ended) := discardLine fuel rest in
          if negb framed then []
          else RejectOversized :: (if ended then readCommands fuel framed rest else [])
      | (frame, rest, last) =>
          let again := match last with Delimited => readCommands fuel framed rest | _ => [] end in
          if bool_decide (frame = "") then again
          else match frame_command frame with
               | Some cmd => if negb framed then [] else HandleCommand cmd :: again
               | None => again
               end
      end
  end.

(** ** What a frame is worth *)

(** The answer to one frame, given with the newline that ends it. *)
Definition answer (frame : string) : list action :=
  if size <? String.length frame then [RejectOversized]
  else match frame_command frame with Some cmd => [HandleCommand cmd] | None => [] end.

(** The answer to what the stream ends with, which no newline ended. *)
Definition last_answer (frame : string) : list action :=
  if bool_decide (frame = "") then []
  else if size <=? String.length frame then [RejectOversized]
  else match frame_command frame with Some cmd => [HandleCommand cmd] | None => [] end.

Definition terminated (frame : string) : string := frame +:+ String newline "".

(** Frames as a client writes them, and what follows the last newline. *)
Fixpoint stream_of (frames : list string) (tail : string) : string :=
  match frames with
  | [] => tail
  | f :: frames => terminated f +:+ stream_of frames tail
  end.

(** ** Lemmas *)

Lemma cut_terminated f s : str_mem newline f = false → cut_byte newline (terminated f +:+ s) = Some (f, s).
Proof.
  intros Hf. apply cut_byte_Some. unfold terminated. rewrite str_app_assoc. done.
Qed.

Lemma skip_app (x y : string) n : n <= String.length x → skip_bytes n (x +:+ y) = skip_bytes n x +:+ y.
Proof.
  revert x. induction n as [|n IH]; intros [|c x] H; cbn in *; try done; [lia|]. apply IH. lia.
Qed.

Lemma skip_length n s : String.length (skip_bytes n s) = String.length s - n.
Proof. revert s. induction n as [|n IH]; intros [|c s]; try done. apply IH. Qed.

Lemma str_mem_skip c n s : str_mem c s = false → str_mem c (skip_bytes n s) = false.
Proof.
  revert s. induction n as [|n IH]; intros [|a s]; try done. cbn [skip_bytes]. rewrite str_mem_cons, orb_false_iff. intros [_ H]. by apply IH.
Qed.

Hypothesis size_pos : 0 < size.

(** The next frame, when it fits the buffer and when it does not. *)
Lemma ReadSlice_frame f s : str_mem newline f = false →
  ReadSlice size (terminated f +:+ s) =
  if String.length f <? size then (terminated f, s, Delimited)
  else (str_take size (terminated f +:+ s), terminated (skip_bytes size f) +:+ s, BufferFull).
Proof.
  intros Hf. unfold ReadSlice. rewrite cut_terminated by done. destruct (Nat.ltb_spec (String.length f) size); [done|].
  f_equal. f_equal. unfold terminated. rewrite !str_app_assoc. by apply skip_app.
Qed.

Lemma ReadSlice_tail s : str_mem newline s = false →
  ReadSlice size s = if String.length s <? size then (s, "", StreamEnded)
                     else (str_take size s, skip_bytes size s, BufferFull).
Proof. intros Hs. unfold ReadSlice. by rewrite (proj2 (cut_byte_None newline s) Hs). Qed.

(** Discarding a line leaves the stream right after its newline. *)
Lemma discardLine_frame fuel f s : str_mem newline f = false → String.length f < fuel →
  discardLine fuel (terminated f +:+ s) = (s, true).
Proof.
  revert f. induction fuel as [|fuel IH]; intros f Hf Hl; [lia|]. cbn [discardLine]. rewrite ReadSlice_frame by done.
  destruct (Nat.ltb_spec (String.length f) size); [done|]. apply IH; [by apply str_mem_skip|]. rewrite skip_length. lia.
Qed.

Lemma discardLine_tail fuel s : str_mem newline s = false → String.length s < fuel → discardLine fuel s = ("", false).
Proof.
  revert s. induction fuel as [|fuel IH]; intros s Hs Hl; [lia|]. cbn [discardLine]. rewrite ReadSlice_tail by done.
  destruct (Nat.ltb_spec (String.length s) size); [done|]. apply IH; [by apply str_mem_skip|]. rewrite skip_length. lia.
Qed.

Lemma terminated_length f : String.length (terminated f) = S (String.length f).
Proof. unfold terminated. rewrite str_length_app. cbn. lia. Qed.

Lemma terminated_nonempty f : terminated f ≠ "".
Proof. intros H. apply (f_equal String.length) in H. by rewrite terminated_length in H. Qed.

Lemma readCommands_frame fuel f s : str_mem newline f = false → String.length (terminated f) <= fuel →
  readCommands (S fuel) true (terminated f +:+ s) = answer (terminated f) ++ readCommands fuel true s.
Proof.
  intros Hf Hl. rewrite terminated_length in Hl. cbn [readCommands]. rewrite ReadSlice_frame by done. unfold answer.
  rewrite terminated_length. destruct (Nat.ltb_spec (String.length f) size) as [H|H].
  - rewrite (proj2 (Nat.ltb_ge _ _)) by lia. rewrite bool_decide_false by apply terminated_nonempty. cbn [negb].
    by destruct (frame_command _).
  - rewrite (proj2 (Nat.ltb_lt _ _)) by lia. rewrite discardLine_frame; [done|by apply str_mem_skip|]. rewrite skip_length. lia.
Qed.

Lemma readCommands_tail fuel s : str_mem newline s = false → String.length s <= fuel →
  readCommands (S fuel) true s = last_answer s.
Proof.
  intros Hs Hl. cbn [readCommands]. rewrite ReadSlice_tail by done. unfold last_answer.
  destruct (Nat.ltb_spec (String.length s) size) as [H|H].
  - rewrite (proj2 (Nat.leb_gt _ _)) by lia. cbn [negb]. case_bool_decide; [done|]. by destruct (frame_command s).
  - rewrite (proj2 (Nat.leb_le _ _)) by lia. rewrite bool_decide_false by (intros ->; cbn in H; lia).
    rewrite discardLine_tail; [done|by apply str_mem_skip|]. rewrite skip_length. lia.
Qed.

Lemma stream_length frames tail f : f ∈ frames → String.length (terminated f) <= String.length (stream_of frames tail).
Proof.
  induction frames as [|g frames IH]; [by intros ?%elem_of_nil|]. cbn [stream_of]. rewrite str_length_app.
  intros [->|H]%elem_of_cons; [lia|]. specialize (IH H). lia.
Qed.

Lemma readCommands_framed frames tail fuel : (∀ f, f ∈ frames → str_mem newline f = false) → str_mem newline tail = false →
  String.length (stream_of frames tail) < fuel →
  readCommands fuel true (stream_of frames tail) = mjoin ((λ f, answer (terminated f)) <$> frames) ++ last_answer tail.
Proof.
  revert fuel. induction frames as [|f frames IH]; intros fuel Hf Ht Hl; cbn [stream_of] in *.
  - destruct fuel as [|fuel]; [lia|]. apply readCommands_tail; [done|lia].
  - destruct fuel as [|fuel]; [lia|]. rewrite str_length_app in Hl. pose proof (terminated_length f).
    rewrite readCommands_frame by (try (apply Hf; left); lia). rewrite IH; [cbn [fmap list_fmap mjoin list_join]; by rewrite <- app_assoc| |done|lia].
    intros g Hg. apply Hf. by right.
Qed.

(** A connection dropped during its snapshot does nothing. *)
Lemma readCommands_unframed fuel s : readCommands fuel false s = [].
Proof.
  revert s. induction fuel as [|fuel IH]; intros s; cbn [readCommands]; [done|].
  destruct (ReadSlice size s) as [[frame rest] []]; [|by destruct (discardLine fuel rest)|].
  - rewrite IH. case_bool_decide; [done|]. by case_match.
  - case_bool_decide; [done|]. by case_match.
Qed.
End commands.

(** C16: Whatever a client sends, each frame alone decides its answer: the
    commands the daemon handles, and the frames it refuses, are those of the
    newline-terminated frames in their order, where a frame is refused exactly
    when it is longer than the buffer with its newline, so an oversized frame
    never takes the commands behind it with it and never splits into others;
    and the loop ends with the stream.  A connection dropped during its
    snapshot has none of its frames acted on. *)
Theorem readCommands_exact {Command : Type} (unmarshal : string → option (string * option Command)) size frames tail fuel :
  0 < size → (∀ f, f ∈ frames → str_mem newline f = false) → str_mem newline tail = false →
  String.length (stream_of frames tail) < fuel →
  readCommands unmarshal size fuel true (stream_of frames tail) =
    mjoin ((λ f, answer unmarshal size (terminated f)) <$> frames) ++ last_answer unmarshal size tail ∧
  ∀ s, readCommands unmarshal size fuel false s = [].
Proof. intros Hs Hf Ht Hl. split; [by apply readCommands_framed|]. intros s. apply readCommands_unframed. Qed.

(** Every text is a list of frames and a rest. *)
Lemma stream_frames s : ∃ frames tail, s = stream_of frames tail ∧ (∀ f, f ∈ frames → str_mem newline f = false) ∧
  str_mem newline tail = false.
Proof.
  induction s as [|c s (frames & tail & Hs & Hf & Ht)]; [exists [], ""; split_and!; [done|by intros f ?%elem_of_nil|done]|].
  destruct (decide (c = newline)) as [->|Hc].
  - exists ("" :: frames), tail. split_and!; [by rewrite Hs| |done]. by intros f [->|Hin]%elem_of_cons; [|apply Hf].
  - destruct frames as [|f frames].
    + exists [], (String c tail). split_and!; [by rewrite Hs|by intros f ?%elem_of_nil|].
      rewrite str_mem_cons, Ht. by rewrite bool_decide_false.
    + exists (String c f :: frames), tail. split_and!; [by rewrite Hs| |done].
      intros g [->|Hin]%elem_of_cons; [|apply Hf; by right]. rewrite str_mem_cons, (Hf f) by left. by rewrite bool_decide_false.
Qed.

(** Two frames of three bytes around one that does not fit a buffer of four. *)
Definition example_unmarshal (frame : string) : option (string * option string) :=
  Some (TypeCommand, Some (str_take 3 frame)).

Lemma readCommands_exact_witness :
  readCommands example_unmarshal 4 40 true (stream_of ["one"; "a longer one"; "two"] "") =
    [HandleCommand "one"; RejectOversized; HandleCommand "two"].
Proof.
  rewrite (proj1 (readCommands_exact example_unmarshal 4 ["one"; "a longer one"; "two"] "" 40 ltac:(lia)
    ltac:(intros f Hf; repeat (apply elem_of_cons in Hf as [->|Hf]; [vm_compute; reflexivity|]); by apply elem_of_nil in Hf)
    ltac:(vm_compute; reflexivity) ltac:(cbn; lia))).
  vm_compute. reflexivity.
Defined.
