(* ===== verification/Update.v ===== *)
(** * The release notice

    When a command may announce a newer release: the versions and their order,
    the cached lookup with its freshness, the notice and the background lookup
    it may start, and the commands the notice prints.  The clock is in
    nanoseconds; the cache file, the network and the colours are arguments.
    One step of the model is one invocation of the program, or the end of a
    lookup one of them left running. *)

From S2P Require Import Prelude GoStrings ConfigTypes EnvFile GoText.

(** ** Versions *)

(** Source: internal/update/update.go:80-81 (semver). *)
Record semver : Type := mkSemver {
  v_major : Z;
  v_minor : Z;
  v_patch : Z;
}.

(** Source: internal/update/update.go:98-111 (parseVersion, part). *)
Definition parsePart (part : string) : option Z :=
  if bool_decide (part = "") || ((1 <? String.length part) && has_prefix "0" part) then None
  else if negb (str_all is_digit part) then None
  else atoi part.

(** Source: internal/update/update.go:83-114 (parseVersion). *)
Definition parseVersion (s : string) : option semver :=
  let s := trim_prefix "v" s in
  match split_byte "."%char s with
  | [a; b; c] => major ← parsePart a; minor ← parsePart b; patch ← parsePart c; Some (mkSemver major minor patch)
  | _ => None
  end.

(** Source: internal/update/update.go:131-142 (less). *)
Definition less (a b : semver) : bool :=
  if negb (v_major a =? v_major b)%Z then (v_major a <? v_major b)%Z
  else if negb (v_minor a =? v_minor b)%Z then (v_minor a <? v_minor b)%Z
  else (v_patch a <? v_patch b)%Z.

(** Source: internal/update/update.go:116-129 (Newer). *)
Definition Newer (installed latest : string) : bool :=
  match parseVersion installed with
  | None => false
  | Some cur => match parseVersion latest with
                | None => false
                | Some next => less cur next
                end
  end.

(** ** The cache *)

(** Source: internal/update/update.go:43-46 (CacheTTL). *)
Definition CacheTTL : Z := 24 * 3600 * 10 ^ 9.

(** Source: internal/update/update.go:144-155 (cacheEntry). *)
Record cacheEntry : Type := mkCacheEntry {
  ce_Latest : string;
  ce_CheckedAt : Z;
}.

(** The entry [read] returns, [None] for a missing, unreadable or corrupt
    file; the second answer is the freshness.
    Source: internal/update/update.go:203-219 (cachedEntry). *)
Definition cachedEntry (now : Z) (file : option cacheEntry) : option cacheEntry * bool :=
  match file with
  | None => (None, false)
  | Some entry =>
      if (CacheTTL <=? now - ce_CheckedAt entry)%Z then (Some entry, false)
      else if (now + CacheTTL <? ce_CheckedAt entry)%Z then (Some entry, false)
      else (Some entry, true)
  end.

(** Source: internal/update/update.go:192-201 (Cached). *)
Definition Cached (now : Z) (file : option cacheEntry) : string :=
  match cachedEntry now file with
  | (Some entry, true) => ce_Latest entry
  | _ => ""
  end.

(** ** The lookup *)

(** Source: internal/update/update.go:318-325 (releasePayload). *)
Record releasePayload : Type := mkReleasePayload {
  rl_TagName : string;
  rl_Draft : bool;
  rl_Prerelease : bool;
}.

(** The answer of the endpoint: the status code and the payload its body
    decodes to; [None] for a request that fails.
    Source: internal/update/update.go:327-359 (fetchLatest). *)
Definition fetchLatest (response : option (Z * option releasePayload)) : option string :=
  '(status, body) ← response;
  if negb (status =? 200)%Z then None else
  payload ← body;
  if rl_Draft payload then None
  else if rl_Prerelease payload then None
  else match parseVersion (rl_TagName payload) with
       | None => None
       | Some _ => Some (rl_TagName payload)
       end.

(** What the file holds after [write], which renames a complete file into
    place or leaves the old one.
    Source: internal/update/update.go:373-409 (write). *)
Definition write (writable : bool) (entry : cacheEntry) (file : option cacheEntry) : option cacheEntry :=
  if writable then Some entry else file.

(** Source: internal/update/update.go:306-316 (refresh). *)
Definition refresh (now : Z) (writable : bool) (response : option (Z * option releasePayload)) (file : option cacheEntry)
    : option cacheEntry :=
  write writable (mkCacheEntry (default "" (fetchLatest response)) now) file.

(** The file, and whether a lookup was started.
    Source: internal/update/update.go:251-276 (refreshAsync). *)
Definition refreshAsync (now : Z) (writable : bool) (file : option cacheEntry) : option cacheEntry * bool :=
  if writable then (write writable (mkCacheEntry "" now) file, true) else (file, false).

(** The tag to announce, the file, and whether a lookup was started.
    Source: internal/update/update.go:221-237 (Notice). *)
Definition Notice (cachePath : string) (now : Z) (writable : bool) (installed : string) (file : option cacheEntry)
    : string * option cacheEntry * bool :=
  match parseVersion installed with
  | None => ("", file, false)
  | Some _ =>
      if bool_decide (cachePath = "") then ("", file, false)
      else match cachedEntry now file with
           | (Some entry, true) =>
               (if Newer installed (ce_Latest entry) then ce_Latest entry else "", file, false)
           | _ => let '(file, started) := refreshAsync now writable file in ("", file, started)
           end
  end.

(** ** A history of invocations *)

(** The machine: the cache file, the lookups still running, and when each
    lookup so far was started, the latest first. *)
Record machine : Type := mkMachine {
  mc_file : option cacheEntry;
  mc_running : nat;
  mc_lookups : list Z;
}.

(** What happens on the machine: an invocation that may print the notice, and
    the end of a lookup, with or without an answer; a lookup may also be cut
    short. *)
Inductive event : Type :=
  | Invoke (now : Z) (writable : bool) (installed : string)
  | Finish (now : Z) (writable : bool) (response : option (Z * option releasePayload))
  | CutShort.

Section history.
Context (cachePath : string).

Definition advance (m : machine) (e : event) : machine :=
  match e with
  | Invoke now writable installed =>
      let '(_, file, started) := Notice cachePath now writable installed (mc_file m) in
      mkMachine file (if started then S (mc_running m) else mc_running m)
        (if started then now :: mc_lookups m else mc_lookups m)
  | Finish now writable response =>
      match mc_running m with
      | 0 => m
      | S n => mkMachine (refresh now writable response (mc_file m)) n (mc_lookups m)
      end
  | CutShort => mkMachine (mc_file m) (pred (mc_running m)) (mc_lookups m)
  end.

Definition run (m : machine) (l : list event) : machine := fold_left advance l m.

(** The times of the events do not decrease from [t] on. *)
Fixpoint clock (t : Z) (l : list event) : Prop :=
  match l with
  | [] => True
  | (Invoke now _ _ | Finish now _ _) :: l => (t <= now)%Z ∧ clock now l
  | CutShort :: l => clock t l
  end.

Definition fresh_machine : machine := mkMachine None 0 [].
End history.

(** ** The printed commands *)

(** The characters that make [posixQuoteArg] quote a path.
    Source: internal/update/guidance.go:161-161 (posixQuoteArg, characters). *)
Definition posix_special (c : ascii) : bool :=
  bool_decide (c ∈ [" "; chr 9; chr 10; chr 13; "'"; chr 34; "\"; "$"; "`"; "&"; "|"; ";"; "<"; ">"; "("; ")"; "*"; "?";
                    "["; "]"; "{"; "}"; "#"; "~"; "!"]%char).

(** [strings.ReplaceAll] of one byte. *)
Fixpoint replace_byte (c : ascii) (new s : string) : string :=
  match s with
  | EmptyString => ""
  | String a s => if bool_decide (a = c) then new +:+ replace_byte c new s else String a (replace_byte c new s)
  end.

(** Source: internal/update/guidance.go:157-167 (posixQuoteArg). *)
Definition posixQuoteArg (path : string) : string :=
  if negb (bool_decide (path = "")) && str_all (λ c, negb (posix_special c)) path then path
  else "'" +:+ replace_byte "'" "'\''" path +:+ "'".

(** Source: internal/update/guidance.go:169-173 (windowsQuoteArg). *)
Definition windowsQuoteArg (path : string) : string := "'" +:+ replace_byte "'" "''" path +:+ "'".

(** Source: internal/update/update.go:53-54 (UpdateCommand). *)
Definition UpdateCommand : string := "brokit update proc-compose".
(** Source: internal/update/update.go:56-59 (InstallScriptURL). *)
Definition InstallScriptURL : string := "https://raw.githubusercontent.com/anivaryam/proc-compose/main/install.sh".

Definition LF : string := String (chr 10) "".

(** Source: internal/update/guidance.go:112-121 (posixUpdateAdvice). *)
Definition posixUpdateAdvice (dir : string) : string * string :=
  ("curl -sSfL " +:+ InstallScriptURL +:+ " | PROC_COMPOSE_INSTALL_DIR=" +:+ posixQuoteArg dir +:+ " bash",
   "If you installed with brokit, use 'brokit update proc-compose'." +:+ LF +:+
   "If brokit is not managing it yet, that command explains how to hand it over." +:+ LF).

(** Source: internal/update/guidance.go:123-147 (windowsUpdateAdvice). *)
Definition windowsUpdateAdvice (dir : string) : string * string :=
  let quoted := windowsQuoteArg dir in
  ("$env:BROKIT_BIN = " +:+ quoted +:+ "; brokit install --force proc-compose",
   "That works whether or not brokit already manages this copy." +:+ LF +:+
   "Keep BROKIT_BIN set to " +:+ quoted +:+ " for later updates. The assignment above only lasts" +:+ LF +:+
   "as long as this terminal. Run this once to keep it in new terminals:" +:+ LF +:+
   "  [Environment]::SetEnvironmentVariable(" +:+ quote "BROKIT_BIN" +:+ ", " +:+ quoted +:+ ", " +:+ quote "User" +:+ ")" +:+ LF +:+
   "Then keep it current with:" +:+ LF +:+
   "  brokit update proc-compose" +:+ LF).

Section message.
(** The platform, and the escape sequences of bold text and of its end. *)
Context (windows : bool) (bold reset : string).

(** Source: internal/update/guidance.go:97-110 (updateAdvice). *)
Definition updateAdvice (dir : string) : string * string :=
  if windows then windowsUpdateAdvice dir else posixUpdateAdvice dir.

(** Source: internal/update/guidance.go:149-155 (quoteArg). *)
Definition quoteArg (path : string) : string := if windows then windowsQuoteArg path else posixQuoteArg path.

(** Source: internal/update/guidance.go:77-95 (guidance). *)
Definition guidance (dir : string) : string :=
  if bool_decide (dir = "") then "Run: " +:+ bold +:+ UpdateCommand +:+ reset +:+ LF
  else
    let '(command, note) := updateAdvice dir in
    "This copy is in " +:+ quoteArg dir +:+ ". Update this exact file with:" +:+ LF +:+
    "  " +:+ bold +:+ command +:+ reset +:+ LF +:+ note.

(** Source: internal/update/guidance.go:66-75 (MessageFor). *)
Definition MessageFor (installed latest dir : string) : string :=
  "A new proc-compose release is available: " +:+ bold +:+ installed +:+ reset +:+ " → " +:+ bold +:+ latest +:+ reset +:+ LF +:+
  guidance dir.
End message.

(** ** What a shell reads *)

Inductive shell_state : Type := Between | Word (w : string) | InQuotes (w : string).

(** The words of a POSIX command line of plain and single-quoted text and
    escaped characters; [None] where an unquoted character would mean more
    than itself, or a quote is not closed. *)
Fixpoint shell_words (st : shell_state) (s : string) : option (list string) :=
  match s with
  | EmptyString => match st with Between => Some [] | Word w => Some [w] | InQuotes _ => None end
  | String c s1 =>
      match st with
      | InQuotes w => if bool_decide (c = "'"%char) then shell_words (Word w) s1 else shell_words (InQuotes (w +:+ String c "")) s1
      | Between | Word _ =>
          let w := match st with Word w => w | _ => "" end in
          if bool_decide (c = " "%char) then
            match st with
            | Word w => ws ← shell_words Between s1; Some (w :: ws)
            | _ => shell_words Between s1
            end
          else if bool_decide (c = "'"%char) then shell_words (InQuotes w) s1
          else if bool_decide (c = "\"%char) then
            match s1 with
            | EmptyString => None
            | String d s2 => shell_words (Word (w +:+ String d "")) s2
            end
          else if posix_special c then None
          else shell_words (Word (w +:+ String c "")) s1
      end
  end.

(** ** Decimal numerals *)

(** A numeral as [itoa] writes it: digits, and no zero before others. *)
Definition canonical (s : string) : Prop :=
  str_all is_digit s = true ∧ s ≠ "" ∧ (String.length s = 1 ∨ has_prefix "0" s = false).

Lemma parse_digits_value a s : str_all is_digit s = true → ∃ v, (0 ≤ v < 10 ^ Z.of_nat (String.length s))%Z ∧
  parse_digits a s = Some (a * 10 ^ Z.of_nat (String.length s) + v)%Z ∧ ∀ b, parse_digits b s = Some (b * 10 ^ Z.of_nat (String.length s) + v)%Z.
Proof.
  revert a. induction s as [|c s IH]; intros a Hs.
  { exists 0%Z. cbn. split; [lia|]. split; [f_equal; lia|]. intros b. f_equal. lia. }
  unfold str_all in Hs. cbn [bytes forallb] in Hs. apply andb_true_iff in Hs as [Hc Hs]. destruct (IH 0%Z Hs) as (v & Hv & _ & Hb).
  assert (0 ≤ digit_val c < 10)%Z as Hd by (unfold is_digit, in_range in Hc; unfold digit_val; rewrite andb_true_iff, !Nat.leb_le in Hc; lia).
  cbn [String.length parse_digits]. rewrite Hc, Nat2Z.inj_succ, Z.pow_succ_r by lia. set (p := (10 ^ Z.of_nat (String.length s))%Z) in *.
  exists (digit_val c * p + v)%Z. split; [nia|]. split; [rewrite Hb; f_equal; lia|]. intros b. rewrite Hb. f_equal. lia.
Qed.

Lemma digit_val_inj c d : digit_val c = digit_val d → c = d.
Proof.
  unfold digit_val. intros H. assert (code c = code d) as Hc by lia. unfold code in Hc.
  rewrite <- (ascii_nat_embedding c), <- (ascii_nat_embedding d). by rewrite Hc.
Qed.

Lemma numeral_inj s t : str_all is_digit s = true → str_all is_digit t = true → String.length s = String.length t →
  parse_digits 0 s = parse_digits 0 t → s = t.
Proof.
  revert t. induction s as [|c s IH]; intros [|d t]; try done. unfold str_all. cbn [bytes forallb String.length].
  rewrite !andb_true_iff. intros [Hc Hs] [Hd Ht] [= Hl]. fold (str_all is_digit s) in Hs. fold (str_all is_digit t) in Ht.
  cbn [parse_digits]. rewrite Hc, Hd, !Z.mul_0_l, !Z.add_0_l.
  destruct (parse_digits_value 0 s Hs) as (v & Hv & Hv0 & Hvb). destruct (parse_digits_value 0 t Ht) as (w & Hw & Hw0 & Hwb).
  rewrite Hvb, Hwb, <- Hl. rewrite <- Hl in Hw. set (p := (10 ^ Z.of_nat (String.length s))%Z) in *.
  intros [= H]. assert (digit_val c = digit_val d ∧ v = w) as [Hcd ->].
  { assert (digit_val c = digit_val d) by nia. split; [done|]. nia. }
  f_equal; [by apply digit_val_inj|]. apply IH; try done. rewrite Hv0, Hw0. by rewrite <- Hl.
Qed.

(** The value of a numeral that does not start with a zero tells its length. *)
Lemma canonical_value s : canonical s → ∃ v, parse_digits 0 s = Some v ∧ (0 ≤ v < 10 ^ Z.of_nat (String.length s))%Z ∧
  (String.length s ≠ 1%nat → (10 ^ Z.of_nat (pred (String.length s)) ≤ v)%Z).
Proof.
  intros (Hs & Hne & Hz). destruct s as [|c s]; [done|]. destruct (parse_digits_value 0 _ Hs) as (v & Hv & Hp & _).
  exists v. split; [by rewrite Hp, Z.mul_0_l, Z.add_0_l|]. split; [done|]. intros Hl. destruct Hz as [|Hz]; [done|].
  unfold str_all in Hs. cbn [bytes forallb] in Hs. apply andb_true_iff in Hs as [Hc Hs].
  destruct (parse_digits_value 0 s Hs) as (w & Hw & _ & Hb). cbn [parse_digits] in Hp. rewrite Hc, Hb in Hp.
  injection Hp as Hp. cbn [String.length pred]. assert (1 ≤ digit_val c)%Z; [|nia].
  cbn in Hz. rewrite andb_true_r in Hz. apply bool_decide_eq_false in Hz. unfold is_digit, in_range in Hc.
  rewrite andb_true_iff, !Nat.leb_le in Hc. unfold digit_val. destruct (decide (code c = 48)) as [H48|]; [|lia].
  exfalso. apply Hz. unfold code in H48. rewrite <- (ascii_nat_embedding c), H48. done.
Qed.

Lemma canonical_inj s t : canonical s → canonical t → parse_digits 0 s = parse_digits 0 t → s = t.
Proof.
  intros Hs Ht Heq. destruct (canonical_value s Hs) as (v & Hv & Hb1 & Hb2). destruct (canonical_value t Ht) as (w & Hw & Hc1 & Hc2).
  assert (v = w) as -> by congruence. apply numeral_inj; [apply Hs|apply Ht| |done].
  assert (String.length s ≠ 0 ∧ String.length t ≠ 0) as [Hs0 Ht0].
  { destruct Hs as (_ & Hs & _), Ht as (_ & Ht & _). split; [by destruct s|by destruct t]. }
  destruct (Nat.lt_trichotomy (String.length s) (String.length t)) as [Hlt|[|Hlt]]; [exfalso|done|exfalso].
  - specialize (Hc2 ltac:(lia)). assert (10 ^ Z.of_nat (String.length s) ≤ 10 ^ Z.of_nat (pred (String.length t)))%Z by (apply Z.pow_le_mono_r; lia). lia.
  - specialize (Hb2 ltac:(lia)). assert (10 ^ Z.of_nat (String.length t) ≤ 10 ^ Z.of_nat (pred (String.length s)))%Z by (apply Z.pow_le_mono_r; lia). lia.
Qed.

Lemma digits_shape f n acc : (0 ≤ n < 10 ^ Z.of_nat f)%Z → f ≠ 0 →
  ∃ d t, digits f n acc = String (digit_of d) t ∧ (0 ≤ d < 10)%Z ∧ (d = 0%Z → n = 0%Z ∧ t = acc).
Proof.
  revert n acc. induction f as [|f IH]; intros n acc Hn Hf; [done|]. cbn [digits].
  assert (0 ≤ n mod 10 < 10)%Z as Hd by (apply Z.mod_pos_bound; lia).
  destruct (Z.ltb_spec n 10) as [Hlt|Hge].
  - exists (n mod 10)%Z, acc. split; [done|]. split; [done|]. intros H0. rewrite Z.mod_small in H0 by lia. done.
  - rewrite Nat2Z.inj_succ, Z.pow_succ_r in Hn by lia.
    assert (n / 10 < 10 ^ Z.of_nat f)%Z by (apply Z.div_lt_upper_bound; lia).
    assert (1 ≤ n / 10)%Z by (apply Z.div_le_lower_bound; lia).
    destruct (IH (n / 10)%Z (String (digit_of (n mod 10)) acc)) as (d & t & -> & Hr & Hz0); [lia|intros ->; cbn in *; lia|].
    exists d, t. split; [done|]. split; [done|]. intros Hz. apply Hz0 in Hz. lia.
Qed.

Lemma canonical_itoa n : (0 ≤ n)%Z → canonical (itoa n).
Proof.
  intros Hn. split; [unfold itoa; rewrite (proj2 (Z.ltb_ge n 0)) by lia; by apply str_all_digits|]. split; [apply itoa_nonempty|].
  unfold itoa. rewrite (proj2 (Z.ltb_ge n 0)) by lia.
  destruct (digits_shape (digit_fuel n) n "") as (d & t & -> & Hd & H0); [split; [done|by apply digit_fuel_enough]|done|].
  destruct (decide (d = 0%Z)) as [Hz|Hz]; [left; by destruct (H0 Hz) as [_ ->]|right].
  cbn. rewrite andb_true_r. apply bool_decide_eq_false. intros H. apply Hz. destruct (digit_char d Hd) as (_ & Hv & _). rewrite <- Hv, <- H. done.
Qed.

(** A part of a version is a numeral that fits an [int]. *)
Lemma parsePart_exact part n : parsePart part = Some n ↔ part = itoa n ∧ (0 ≤ n ≤ max_int)%Z.
Proof.
  unfold parsePart. split.
  - destruct (_ || _) eqn:Hz; [done|]. apply orb_false_iff in Hz as [Hne%bool_decide_eq_false Hz].
    destruct (str_all is_digit part) eqn:Hd; [|done]. cbn [negb]. intros Ha.
    assert (canonical part) as Hc.
    { split; [done|]. split; [done|]. destruct (decide (String.length part = 1)) as [|Hl]; [by left|right].
      apply andb_false_iff in Hz as [Hz%Nat.ltb_ge|]; [|done]. destruct part as [|c [|]]; cbn in *; lia || done. }
    apply atoi_range in Ha as Hr. unfold atoi in Ha. destruct part as [|c part]; [done|].
    assert (is_digit c = true) as Hdc by (unfold str_all in Hd; cbn in Hd; by apply andb_true_iff in Hd as [? _]).
    rewrite (bool_decide_false (c = "-"%char)), (bool_decide_false (c = "+"%char)) in Ha by (by intros ->).
    destruct (canonical_value _ Hc) as (v & Hv & Hb & _). rewrite Hv in Ha. destruct (int_range v); [|done]. injection Ha as <-.
    split; [|lia]. apply canonical_inj; [done|apply canonical_itoa; lia|]. by rewrite Hv, parse_itoa by lia.
  - intros [-> Hn]. destruct (canonical_itoa n ltac:(lia)) as (Hd & Hne & Hz).
    rewrite bool_decide_false, Hd by done. cbn [orb negb]. rewrite atoi_itoa by (unfold int_range, min_int; apply andb_true_iff; rewrite !Z.leb_le; lia).
    destruct Hz as [Hz|Hz]; [|by rewrite Hz, andb_false_r]. by rewrite Hz.
Qed.

(** ** Versions as text *)

Definition version_text (v : semver) : string :=
  itoa (v_major v) +:+ "." +:+ itoa (v_minor v) +:+ "." +:+ itoa (v_patch v).

Definition version_ok (v : semver) : Prop :=
  (0 ≤ v_major v ≤ max_int)%Z ∧ (0 ≤ v_minor v ≤ max_int)%Z ∧ (0 ≤ v_patch v ≤ max_int)%Z.

Lemma join_split_byte c s : join (String c "") (split_byte c s) = s.
Proof.
  induction s as [|a s IH]; [done|]. cbn [split_byte]. pose proof (split_byte_nonempty c s).
  destruct (split_byte c s) as [|l ls]; [done|]. case_bool_decide as Ha.
  - subst a. change (join (String c "") ("" :: l :: ls)) with (String c (join (String c "") (l :: ls))). by rewrite IH.
  - destruct ls as [|l' ls]; [cbn in *; by rewrite IH|].
    change (join (String c "") (String a l :: l' :: ls)) with (String a (join (String c "") (l :: l' :: ls))). by rewrite IH.
Qed.

Lemma parse_three s a b c : split_byte "." s = [a; b; c] ↔
  s = a +:+ "." +:+ b +:+ "." +:+ c ∧ str_mem "." a = false ∧ str_mem "." b = false ∧ str_mem "." c = false.
Proof.
  assert (∀ s x, x ∈ split_byte "." s → str_mem "." x = false) as Hmem.
  { clear. intros s. induction s as [|a s IH]; intros x; cbn [split_byte]; [by intros ->%list_elem_of_singleton|].
    pose proof (split_byte_nonempty "." s). destruct (split_byte "." s) as [|l ls]; [done|]. case_bool_decide as Ha.
    - intros [->|Hx]%elem_of_cons; [done|by apply IH].
    - intros [->|Hx]%elem_of_cons; [|apply IH; by right]. rewrite str_mem_cons, (IH l) by left. by rewrite bool_decide_false. }
  split.
  - intros H. split; [by rewrite <- (join_split_byte "." s), H|]. split_and!; apply (Hmem s); rewrite H; set_solver.
  - intros (-> & Ha & Hb & Hc). change (a +:+ "." +:+ b +:+ "." +:+ c) with (join (String "." "") [a; b; c]).
    apply split_byte_join; [done|done|]. intros x. rewrite !elem_of_cons, elem_of_nil. by intros [->|[->|[->|[]]]].
Qed.

Lemma version_split v : version_ok v → split_byte "." (version_text v) = [itoa (v_major v); itoa (v_minor v); itoa (v_patch v)].
Proof. intros _. apply parse_three. split_and!; [done|by apply itoa_no_byte..]. Qed.

Lemma version_no_v v : version_ok v → trim_prefix "v" (version_text v) = version_text v.
Proof.
  intros (Ha & _). unfold trim_prefix, version_text. destruct (canonical_itoa (v_major v) ltac:(lia)) as (Hd & Hne & _).
  destruct (itoa (v_major v)) as [|c s]; [done|]. cbn [String.append has_prefix]. unfold str_all in Hd. cbn in Hd.
  apply andb_true_iff in Hd as [Hd _]. by rewrite bool_decide_false by (by intros <-).
Qed.

(** A tag is a stable release exactly when it is three decimal numerals
    that fit an [int], separated by dots, perhaps after one [v]: what
    [parseVersion] accepts is what it would print, so no suffix, sign, space,
    leading zero or missing part is ever read as a version. *)
Theorem parseVersion_exact s v :
  parseVersion s = Some v ↔ version_ok v ∧ (s = version_text v ∨ s = "v" +:+ version_text v).
Proof.
  split.
  - unfold parseVersion. destruct (split_byte _ _) as [|a [|b [|c [|]]]] eqn:E; try done.
    destruct (parsePart a) as [x|] eqn:Ea; cbn; [|done]. destruct (parsePart b) as [y|] eqn:Eb; cbn; [|done].
    destruct (parsePart c) as [z|] eqn:Ec; cbn; [|done]. intros [= <-].
    apply parsePart_exact in Ea as [-> Ha], Eb as [-> Hb], Ec as [-> Hc]. split; [done|].
    apply parse_three in E as (E & _). unfold trim_prefix in E. destruct (has_prefix "v" s) eqn:Hv; [right|by left].
    apply has_prefix_spec in Hv as [t ->]. change (skip_bytes (String.length "v") ("v" +:+ t)) with t in E. by rewrite E.
  - intros [Hok Hs]. unfold parseVersion.
    assert (trim_prefix "v" s = version_text v) as -> by (destruct Hs as [-> | ->]; [by apply version_no_v|apply trim_prefix_app]).
    rewrite version_split by done. destruct Hok as (Ha & Hb & Hc).
    rewrite (proj2 (parsePart_exact _ _) (conj eq_refl Ha)), (proj2 (parsePart_exact _ _) (conj eq_refl Hb)),
      (proj2 (parsePart_exact _ _) (conj eq_refl Hc)). cbn. by destruct v.
Qed.

(** The order of versions, most significant part first. *)
Definition version_lt (a b : semver) : Prop :=
  (v_major a < v_major b)%Z ∨ v_major a = v_major b ∧
  ((v_minor a < v_minor b)%Z ∨ v_minor a = v_minor b ∧ (v_patch a < v_patch b)%Z).

Lemma less_lt a b : less a b = true ↔ version_lt a b.
Proof.
  unfold less, version_lt. destruct (Z.eqb_spec (v_major a) (v_major b)); cbn [negb]; [|rewrite Z.ltb_lt; lia].
  destruct (Z.eqb_spec (v_minor a) (v_minor b)); cbn [negb]; rewrite Z.ltb_lt; lia.
Qed.

(** A tag is announced as newer only between two stable releases; among those
    the order is strict and total, and it is the one of the numbers. *)
Theorem Newer_exact installed latest :
  (Newer installed latest = true ↔
   ∃ a b, parseVersion installed = Some a ∧ parseVersion latest = Some b ∧ version_lt a b) ∧
  (Newer installed latest = true → Newer latest installed = false) ∧
  ∀ a b, parseVersion installed = Some a → parseVersion latest = Some b →
    Newer installed latest = false → Newer latest installed = false → a = b.
Proof.
  unfold Newer. destruct (parseVersion installed) as [a|], (parseVersion latest) as [b|]; rewrite ?less_lt;
    (split; [naive_solver|]); (split; [|]); try done.
  - intros H. apply not_true_iff_false. rewrite less_lt. unfold version_lt in *. lia.
  - intros ? ? [= <-] [= <-] H1 H2. apply not_true_iff_false in H1, H2. rewrite less_lt in H1, H2. unfold version_lt in *.
    assert (v_major a = v_major b ∧ v_minor a = v_minor b ∧ v_patch a = v_patch b) as (E1 & E2 & E3) by lia.
    destruct a, b. cbn in E1, E2, E3. by subst.
Qed.

(** ** The cache and its history *)

Lemma CacheTTL_pos : (0 < CacheTTL)%Z.
Proof. done. Qed.

(** An entry is trusted for one interval after its stamp, and, against a clock
    that was set back, for one interval before it. *)
Lemma cachedEntry_fresh now file e :
  cachedEntry now file = (Some e, true) ↔ file = Some e ∧ (now - CacheTTL < ce_CheckedAt e ≤ now + CacheTTL)%Z.
Proof.
  unfold cachedEntry. destruct file as [e'|]; [|split; [done|by intros [? _]]].
  destruct (Z.leb_spec CacheTTL (now - ce_CheckedAt e')); [split; [done|]; intros [[= ->] ?]; lia|].
  destruct (Z.ltb_spec (now + CacheTTL) (ce_CheckedAt e')); [split; [done|]; intros [[= ->] ?]; lia|].
  split; [intros [= ->]; split; [done|lia]|]. by intros [[= ->] _].
Qed.

Lemma fetchLatest_stable response tag : fetchLatest response = Some tag → ∃ v, parseVersion tag = Some v.
Proof.
  unfold fetchLatest. destruct response as [[status body]|]; cbn; [|done]. destruct (negb _); [done|].
  destruct body as [p|]; cbn; [|done]. repeat case_match; try done. intros [= <-]. by eexists.
Qed.

(** Consecutive lookups, the latest first, are an interval apart. *)
Fixpoint spaced (l : list Z) : Prop :=
  match l with
  | x :: (y :: _) as t => (y + CacheTTL ≤ x)%Z ∧ spaced t
  | _ => True
  end.

(** A tag some finished lookup was answered, and when. *)
Definition answered (l : list event) (tag : string) (at_ : Z) : Prop :=
  ∃ w r, Finish at_ w r ∈ l ∧ fetchLatest r = Some tag.

Section invariant.
Context (cachePath : string).

(** At time [t], after the events [l]. *)
Record machine_ok (l : list event) (t : Z) (m : machine) : Prop := mkMachineOk {
  mo_spaced : spaced (mc_lookups m);
  mo_last : ∀ x rest, mc_lookups m = x :: rest → ∃ e, mc_file m = Some e ∧ (x ≤ ce_CheckedAt e)%Z;
  mo_stamp : ∀ e, mc_file m = Some e → (ce_CheckedAt e ≤ t)%Z ∧ (ce_Latest e ≠ "" → answered l (ce_Latest e) (ce_CheckedAt e));
}.

Lemma answered_app l k tag t : answered l tag t → answered (l ++ k) tag t.
Proof. intros (w & r & H & Hf). exists w, r. split; [apply elem_of_app; by left|done]. Qed.

Lemma machine_later l k t t' m : (t ≤ t')%Z → machine_ok l t m → machine_ok (l ++ k) t' m.
Proof.
  intros Ht [H1 H2 H3]. split; [done|done|]. intros e He. destruct (H3 e He) as [H4 H5]. split; [lia|].
  intros Hl. by apply answered_app, H5.
Qed.

Lemma Notice_cases now w installed file :
  let '(tag, file', started) := Notice cachePath now w installed file in
  (started = false ∧ file' = file ∧
     (tag ≠ "" → ∃ e, cachedEntry now file = (Some e, true) ∧ tag = ce_Latest e ∧ Newer installed tag = true)) ∨
  (started = true ∧ tag = "" ∧ file' = Some (mkCacheEntry "" now) ∧ (cachedEntry now file).2 = false).
Proof.
  unfold Notice, refreshAsync, write. destruct (parseVersion installed); [|by left]. case_bool_decide; [by left|].
  destruct (cachedEntry now file) as [[e|] []] eqn:E; cbn [snd]; try (destruct w; [by right|by left]).
  - left. split_and!; [done|done|]. destruct (Newer installed (ce_Latest e)) eqn:Hn; [|done]. intros _. by exists e.
  - exfalso. unfold cachedEntry in E. by repeat case_match.
Qed.

Lemma advance_ok l t m e : machine_ok l t m →
  (match e with Invoke now _ _ | Finish now _ _ => (t ≤ now)%Z | CutShort => True end) →
  machine_ok (l ++ [e]) (match e with Invoke now _ _ | Finish now _ _ => now | CutShort => t end) (advance cachePath m e).
Proof.
  intros Hm Ht. destruct e as [now w installed|now w r|]; cbn [advance].
  - pose proof (Notice_cases now w installed (mc_file m)) as Hc. destruct (Notice _ _ _ _ _) as [[tag file'] started].
    destruct Hc as [(-> & -> & _)|(-> & _ & -> & Hf)]; [by destruct (machine_later l [Invoke now w installed] t now m Ht Hm); split|].
    destruct Hm as [H1 H2 H3]. split; cbn [mc_lookups mc_file].
    + destruct (mc_lookups m) as [|x rest] eqn:E; [done|]. split; [|done].
      destruct (H2 x rest eq_refl) as (e & He & Hx). destruct (H3 e He) as [Hs _].
      destruct (decide (now - CacheTTL < ce_CheckedAt e)%Z); [exfalso|lia].
      assert (cachedEntry now (mc_file m) = (Some e, true)) as Hfresh by (apply cachedEntry_fresh; split; [done|]; pose proof CacheTTL_pos; lia).
      by rewrite Hfresh in Hf.
    + intros x rest [= <- _]. eexists. split; [done|]. cbn. lia.
    + intros e [= <-]. cbn. split; [lia|done].
  - destruct (mc_running m); [by apply (machine_later l _ t)|]. destruct (machine_later l [Finish now w r] t now m Ht Hm) as [H1 H2 H3].
    destruct w; unfold refresh, write; [|by split]. split; cbn [mc_lookups mc_file]; [done| |].
    + intros x rest Hl. eexists. split; [done|]. cbn. destruct (H2 x rest Hl) as (e & He & Hx). destruct (H3 e He) as [Hs _].
      lia.
    + intros e [= <-]. cbn. split; [lia|]. destruct (fetchLatest r) as [tag|] eqn:Hr; cbn; [|done]. intros _.
      exists true, r. split; [apply elem_of_app; right; left|done].
  - destruct (machine_later l [CutShort] t t m ltac:(lia) Hm). by split.
Qed.

Lemma run_ok l k t m : machine_ok l t m → clock t k → ∃ t', (t ≤ t')%Z ∧ machine_ok (l ++ k) t' (run cachePath m k) ∧
  ∀ now, clock t (k ++ [now]) → match now with Invoke n _ _ | Finish n _ _ => (t' ≤ n)%Z | CutShort => True end.
Proof.
  revert l t m. induction k as [|e k IH]; intros l t m Hm Hc.
  { exists t. rewrite app_nil_r. split_and!; [lia|done|]. intros [] H; cbn in H; tauto. }
  set (t1 := match e with Invoke now _ _ | Finish now _ _ => now | CutShort => t end).
  assert (match e with Invoke now _ _ | Finish now _ _ => (t ≤ now)%Z | CutShort => True end ∧ clock t1 k) as [He Hk].
  { unfold t1. by destruct e. }
  destruct (IH (l ++ [e]) t1 (advance cachePath m e)) as (t' & Ht' & Hok & Hlater); [by apply advance_ok|done|].
  exists t'. split_and!.
  - unfold t1 in Ht'. destruct e; lia.
  - by rewrite <- app_assoc in Hok.
  - intros x Hx. apply Hlater. unfold t1. destruct e; cbn in Hx; by try destruct Hx.
Qed.

Lemma fresh_ok t : machine_ok [] t fresh_machine.
Proof. by split. Qed.
End invariant.


(** A release is announced only when a lookup that ended within the last
    day was answered with it, its tag is that of a stable release, and it is
    newer than the installed one. *)
Theorem notice_justified cachePath t l now w installed tag file started :
  clock t (l ++ [Invoke now w installed]) →
  Notice cachePath now w installed (mc_file (run cachePath fresh_machine l)) = (tag, file, started) → tag ≠ "" →
  Newer installed tag = true ∧ (∃ v, parseVersion tag = Some v) ∧
  ∃ at_, (now - CacheTTL < at_ ≤ now)%Z ∧ answered l tag at_.
Proof.
  intros Hc Hn Htag. assert (clock t l) as Hcl.
  { clear -Hc. revert t Hc. induction l as [|e l IH]; intros t Hc; [done|]. destruct e; cbn in Hc |- *; [| |by apply IH]; split; try apply Hc; by apply IH, Hc. }
  destruct (run_ok cachePath [] l t _ (fresh_ok t) Hcl) as (t' & _ & [_ _ H3] & Hlater).
  pose proof (Hlater _ Hc) as Ht'. cbn in Ht'. pose proof (Notice_cases cachePath now w installed (mc_file (run cachePath fresh_machine l))) as Hcase.
  rewrite Hn in Hcase. destruct Hcase as [(_ & _ & Hj)|(_ & -> & _)]; [|done]. destruct (Hj Htag) as (e & He & -> & Hnew).
  apply cachedEntry_fresh in He as [He Hf]. destruct (H3 e He) as [Hs Ha]. specialize (Ha Htag). split; [done|].
  split; [destruct Ha as (? & r & _ & Hr); by eapply fetchLatest_stable|]. exists (ce_CheckedAt e). split; [lia|done].
Qed.

(** ** Quoting *)

Lemma read_quoted w p rest : shell_words (InQuotes w) (replace_byte "'" "'\''" p +:+ "'" +:+ rest) = shell_words (Word (w +:+ p)) rest.
Proof.
  revert w. induction p as [|c p IH]; intros w; cbn [replace_byte].
  - cbn. by rewrite str_app_nil.
  - case_bool_decide as Hc.
    + subst c. change (("'\''" +:+ replace_byte "'" "'\''" p) +:+ "'" +:+ rest) with
        (String "'" (String "\" (String "'" (String "'" (replace_byte "'" "'\''" p +:+ "'" +:+ rest))))).
      transitivity (shell_words (InQuotes (w +:+ "'")) (replace_byte "'" "'\''" p +:+ "'" +:+ rest)); [done|].
      rewrite IH. by rewrite str_app_assoc.
    + cbn [String.append shell_words]. rewrite bool_decide_false by done. rewrite IH. by rewrite str_app_assoc.
Qed.

Lemma read_plain w p rest : str_all (λ c, negb (posix_special c)) p = true →
  shell_words (Word w) (p +:+ rest) = shell_words (Word (w +:+ p)) rest.
Proof.
  revert w. induction p as [|c p IH]; intros w Hp; [by rewrite str_app_nil|]. unfold str_all in Hp. cbn [bytes forallb] in Hp.
  apply andb_true_iff in Hp as [Hc Hp]. apply negb_true_iff in Hc. cbn [String.append shell_words].
  assert (c ≠ " "%char ∧ c ≠ "'"%char ∧ c ≠ "\"%char) as (H1 & H2 & H3) by (split_and!; intros ->; done).
  rewrite !bool_decide_false, Hc by done. rewrite IH by done. by rewrite str_app_assoc.
Qed.

Lemma read_quote_arg w p rest : shell_words (Word w) (posixQuoteArg p +:+ rest) = shell_words (Word (w +:+ p)) rest.
Proof.
  unfold posixQuoteArg. destruct (_ && _) eqn:E.
  - apply read_plain. by apply andb_true_iff in E as [_ E].
  - rewrite !str_app_assoc. rewrite <- read_quoted. done.
Qed.

(** Pasted into a POSIX shell, the command the notice prints runs the
    installer with the directory of the running copy, byte for byte, whatever
    characters the path has: it is one word, and nothing in it is expanded. *)
Theorem update_command_roundtrip dir :
  ∃ receiver, (posixUpdateAdvice dir).1 = "curl -sSfL " +:+ InstallScriptURL +:+ " | " +:+ receiver ∧
    shell_words Between receiver = Some ["PROC_COMPOSE_INSTALL_DIR=" +:+ dir; "bash"].
Proof.
  exists ("PROC_COMPOSE_INSTALL_DIR=" +:+ posixQuoteArg dir +:+ " bash"). split; [done|].
  transitivity (shell_words (Word "PROC_COMPOSE_INSTALL_DIR=") (posixQuoteArg dir +:+ " bash")); [done|].
  rewrite read_quote_arg. done.
Qed.

(** ** Witnesses *)

Definition hour : Z := 3600 * 10 ^ 9.

Definition release (tag : string) : option (Z * option releasePayload) := Some (200%Z, Some (mkReleasePayload tag false false)).

(** A lookup, its answer, a day of announcements, and the next lookup. *)
Definition example_events : list event :=
  [Invoke 0 true "v1.9.0"; Invoke hour true "v1.9.0"; Finish hour true (release "v1.10.0"); Invoke (5 * hour) true "v1.9.0";
   Invoke (26 * hour) true "v1.9.0"; CutShort].


Lemma notice_justified_witness :
  Newer "v1.9.0" "v1.10.0" = true ∧ ∃ at_, answered (take 3 example_events) "v1.10.0" at_.
Proof.
  destruct (notice_justified "/cache" 0 (take 3 example_events) (5 * hour) true "v1.9.0" "v1.10.0"
    (Some (mkCacheEntry "v1.10.0" hour)) false) as (H1 & _ & at_ & _ & H2).
  - vm_compute. repeat split; discriminate.
  - vm_compute. reflexivity.
  - discriminate.
  - split; [exact H1|]. exists at_. exact H2.
Defined.

(** The notice itself. *)
Example example_message : MessageFor false "" "" "v1.9.0" "v1.10.0" "/opt/my tools" =
  "A new proc-compose release is available: v1.9.0 → v1.10.0" +:+ LF +:+
  "This copy is in '/opt/my tools'. Update this exact file with:" +:+ LF +:+
  "  curl -sSfL https://raw.githubusercontent.com/anivaryam/proc-compose/main/install.sh | PROC_COMPOSE_INSTALL_DIR='/opt/my tools' bash" +:+ LF +:+
  "If you installed with brokit, use 'brokit update proc-compose'." +:+ LF +:+
  "If brokit is not managing it yet, that command explains how to hand it over." +:+ LF.
Proof. vm_compute. reflexivity. Qed.
